(* ===== verification/_CoqProject ===== *)
-Q . S2P
Prelude.v
TimeFormat.v
SigningIntent.v
SigningPolicy.v
SigningAudit.v
SigningService.v
Breaker.v
BreakerTransport.v
Retry.v
JobQueue.v
Outbox.v
OutboxRelay.v
Decimals.v
Ledger.v
LedgerRepo.v
LedgerService.v
LedgerBooks.v
LedgerReconcile.v
AuditChain.v
MoneyPath.v
Idempotency.v
Caps.v
VaultRepo.v
VaultBooks.v
Transactions.v
TransactionBooks.v
VaultDomain.v
VaultService.v
VaultServiceBooks.v
VaultServiceLife.v
VaultViews.v
Calendar.v
SavingsDomain.v
SavingsStore.v
SavingsGoals.v
SavingsLife.v
SavingsProps.v
Schedules.v
ScheduleLife.v
ScheduleProps.v
Leadership.v
AuthLockout.v
AuthGuard.v
AuthTokens.v
Sessions.v
SessionLife.v
SessionProps.v
Submissions.v
SubmissionLife.v
