(* ===== verification/Prelude.v ===== *)
(** * Verification of the Nester API's core

    This development models the parts of the Go service under src/apps/api/internal
    that decide when money moves and that keep work from being lost or repeated,
    and proves what makes each of them correct. It covers eighteen parts.

    - The transaction signer (signing/). [SigningIntent] holds the intents and
      their structural validation (intent.go), [SigningPolicy] the policy, the
      replay guard and the kill switch (policy.go, killswitch.go), [SigningAudit]
      the intent hash, the audit events and the counters (audit.go), and
      [SigningService] the whole [Sign] path over them (signer.go).
    - The circuit breaker (breaker/). [Breaker] is the state machine with its
      rolling window and permits (breaker.go), [BreakerTransport] the router and
      the HTTP transport that consult it (transport.go).
    - The retry runner (retry/retry.go), in [Retry].
    - The job queue (domain/jobqueue/ and repository/postgres/job_repository.go),
      in [JobQueue]: the table, each SQL statement, the client and the worker.
    - The transactional outbox (domain/outbox/ and
      repository/postgres/outbox_repository.go): [Outbox] is the table, its
      statements, the producers' writer and the retention sweep, [OutboxRelay] the
      relay that hands events to the job queue.
    - The double-entry ledger (domain/ledger/, repository/postgres/
      ledger_repository.go, service/ledger_service.go): [Ledger] holds the data,
      the balance check and the statements, [LedgerRepo] sessions, transactions and
      the repository, [LedgerService] the postings, [LedgerBooks] what holds over
      the ledger's whole life, and [LedgerReconcile] the comparison with the chain
      (reconciliation.go).
    - The vaults' money paths (repository/postgres/vault_repository.go,
      domain/balanceaudit/ and its repository): [VaultRepo] holds the vault,
      transaction and balance-audit tables, every deposit, withdrawal, harvest,
      rebalance and confirmed change, with the ledger postings and the audit entry
      each makes in its own transaction; [VaultBooks] what holds over their life.
    - Transactions (domain/transaction/, service/transaction_service.go,
      transaction_chain_claim.go, transaction_poller.go and the repository): in
      [Transactions] registration, the claims on the chain, reconciliation and the
      poller over the books; [TransactionBooks] what holds under any interleaving.
    - The vaults and their service (domain/vault/, service/vault_service.go,
      operator_funded_deposits.go, the rest of vault_repository.go): [VaultDomain]
      holds statuses, share prices, positions and yield sources, [VaultService]
      every operation that changes state, with its calls to the chain,
      [VaultViews] the previews, the share-price cache and the conversions,
      [VaultServiceBooks] what a deposit and a withdrawal promise, and
      [VaultServiceLife] what holds over any history of requests.
    - Savings goals, streaks and schedules (domain/savingsgoal/, savingsstreak/,
      savingsschedule/, their repositories and services, and in scheduler/
      next_run.go, recurring_deposit.go and savings_goal_purge.go): [Calendar]
      holds the civil dates and the next run of a schedule, [SavingsDomain] the
      statuses, limits, milestones and frequencies, [SavingsStore] the tables and
      statements, [SavingsGoals] every request of the goal service with its
      progress, milestones, streaks and split deposits, [SavingsLife] the lifecycle
      of a goal as a step relation, [SavingsProps] what holds of requests and their
      histories, [Schedules] the schedule service, the sweep that enqueues due
      occurrences and the handler that executes them on the vault service,
      [ScheduleLife] and [ScheduleProps] what holds of their interleavings.
    - Chain submissions (in stellar/: submission.go, submission_store.go,
      submission_store_postgres.go, reconciler.go and the sending half of
      invoker.go): [Submissions] holds the durable record, its statements, [send]
      and the sweep of the reconciler, [SubmissionLife] the world of processes,
      reconcilers and ledgers, and what holds in it.
    - The deposit caps (domain/caps/, service/vault_tvl_cap.go), in [Caps].
    - The money-path switches (domain/moneypath/, their two services and
      repositories), in [MoneyPath]: both kinds of switch are one model over the
      [SwitchKind] class.
    - Idempotency keys (middleware/idempotency.go, the route matching of
      middleware/ratelimit_routes.go, repository/postgres/
      idempotency_repository.go), in [Idempotency].
    - The audit log (audit/, repository/postgres/audit_log_repository.go,
      scheduler/audit_chain_verifier.go), in [AuditChain].
    - Leader election (scheduler/leadership.go), in [Leadership]: replicas, their
      connections and the advisory lock, a heartbeat being two steps.
    - The guard of the sign-in routes (middleware/authlockout.go, authguard.go and
      the client address of ratelimit.go): [AuthLockout] is the progressive lockout
      in memory and in Redis, [AuthGuard] the middleware over it.
    - Tokens and sessions (auth/, middleware/auth.go, authz_rules.go,
      domain/session/, session_repository.go, service/auth_service.go,
      challenge_store.go, revocation_cache.go): [AuthTokens] holds the tokens, the
      authenticator and the rules of the routes, [Sessions] challenges, sign-in,
      rotation and revocation over both challenge stores and both revocation caches,
      [SessionLife] what a request does to sessions and refresh tokens, and
      [SessionProps] what holds over any history of requests.

    [TimeFormat] holds the timestamp and integer formats the hashes use, and
    [Decimals] the interface of the decimal package.

    ** How the code is modelled

    Structs are records, enumerations inductive types, and each function or method
    is a definition of the same name; a method whose name two types share gets the
    type's name in front. State that Go keeps behind a mutex is passed explicitly,
    one critical section being one step; a call's clock readings, random draws and
    answers from outside are arguments. Errors are values of a sum or option type.
    [int64] arithmetic wraps ([i64]), [uint64] counters wrap ([u64]), [float64]
    arithmetic is binary64, and [time.Duration] saturates where Go's does.

    A database table is a finite map or list of rows, and a statement a function on
    it with the constraints, defaults and out-of-range errors of its columns. Rows
    a [FOR UPDATE SKIP LOCKED] scan passes over are an argument. In the ledger a
    [Session] also carries the open transaction, whether it has been aborted by a
    failed statement, the supply of fresh identifiers and a list of connection
    failures to come, so every theorem there holds whatever round trip fails.

    Components meet at interfaces: the relay is proved against the [JobPort] class
    and its [JobPortLaws], which the job queue discharges; the ledger service
    against [LedgerPort] and [LedgerPortLaws], which the repository discharges both
    inside a caller's transaction and on its own handle; the guard against
    [AuthLockout] and [AuthLockoutLaws], and the sessions against [ChallengeStore],
    [RevocationCache] and their laws, each with an instance in memory and one in
    Redis. The laws of Redis hold while it answers, and a mark or a lock it keeps may
    be short by the milliseconds it rounds to. Code outside the
    repository is a parameter: SHA-256, the signing backend and its sinks, JSON
    validity, URL parsing and the wrapped transport, the function and the context a
    retry runs, UUID generation, the JSON encoder and a JSONB column with the round
    trips of [JSONLaws], which a small tree codec satisfies, how the driver reads a
    numeric column, Horizon's answers, the chain's answers to the vault service and
    its verifier, HMAC-SHA256, the JSON of claims with the laws of [ClaimsCodecLaws],
    which a small codec satisfies, what the key of a wallet verifies, and the decimal
    package with the laws of [DecimalLaws] and
    [DecimalOrderLaws], which exact rationals satisfy; [DecimalFormat] is what the
    code uses of its formatting.

    Loops over data are structural. The retry loop runs on the attempts its policy
    leaves, and the breaker's catch-up loop on the number of elapsed buckets, at
    most ten; each needs no more steps than its measure allows, so neither is cut
    short. [trim_front] below consumes a byte per step.

    ** What the theorems show

    - Signer: validation and policy accept exactly what they should; the key is
      used only for authorised intents and never twice for one of them; each request
      leaves one audit event and is counted; the hash determines the intent up to
      separator bytes; the kill switch fails closed.
    - Breaker: the ring of buckets is a rolling window; at most one probe is in
      flight; what [Allow] answers and [Record] decides; routing is by longest
      prefix; rejected requests do not reach the network.
    - Retry: the loop terminates within its attempts and its budget, keeps its
      contract on errors, and its floating-point backoff is the exact power of two.
    - Job queue: the table stays well formed and each job's life follows the
      documented states under any interleaving; leases are exclusive; what a
      dequeue, an execution, an enqueue and a poll do.
    - Outbox: per-aggregate order when producers insert in order, no lost or revived
      event, what a claim, a
      hand-over and a reconciliation do, and that a relay's tick is made of protocol
      steps, so the first two hold for any number of relays.
    - Ledger: cached balances equal the entries and transactions sum to zero modulo
      2^64 after any history; users' positions add up to their vault's pool; what
      each posting moves; repeated requests are refused; new ones succeed; what a
      harvest and a reconciliation run report.
    - Vault money paths: the audit trail reconciles to every balance; the repository
      moves money once per transaction hash; its postings keep the ledger balanced and,
      for compounding operations on whole stroops, its pools equal to the balances; a
      capped deposit stays within the caps; what each recorded movement changes, and
      that a failed one changes nothing.
    - Transactions: a reconciliation books the recorded amount once, under a hash the
      chain reports successful, and for a deposit only what an operation of that hash
      paid the vault; the hash of a completed transaction is on exactly one movement
      under any interleaving of instances; what the chain claim accepts; the poller
      takes protocol steps.
    - Vault service: with a verifier, deposits credit and withdrawals debit exactly
      what the chain vouches for; the chain is asked to pay only what is covered;
      the shares burned are the nearest; every request is made of steps of the
      books, so their theorems hold of its histories; vaults follow their status
      machine; migrations conserve positions; previews tell the truth and served
      prices are recent.
    - Savings goals: every request takes a goal through steps of its lifecycle, by
      its owner only; a milestone is marked once, and when it is marked its event is
      in the outbox; a split deposit records every computed share, within the limits
      of its goal, or none; a deleted goal is kept, but for its owner restoring it
      within the recovery window.
    - Schedules: a goal has at most one active schedule under any interleaving of
      requests, sweeps and executions; a sweep enqueues the due occurrences of goals
      that want the money, each under its own key, while the process leads; an
      executed occurrence asks for its money once, books what the chain reports for
      it, and then moves its schedule on; the next run follows the calendar;
      as the program is wired, no occurrence is ever recorded.
    - Chain submissions: a transaction is recorded before it is handed over, at most
      once; a settled record is what the chain says, but for one case that
      [landed_submission_reads_expired] shows; a sweep settles the due submissions
      within its batch whose own answers decide them.
    - Caps: what is refused, by which cap, and with which warnings.
    - Switches: a pause binds the instance that makes it at once, unless a request
      there still holds the released state, and the others within the cache's
      lifetime; an unreadable switch refuses.
    - Idempotency: at most one execution per claim under any interleaving; replays
      are faithful; repeats get one answer.
    - Audit log: the chain verifies after any history; verification accepts exactly
      the linked ranges; tampering is evident up to hash collisions; what redaction
      changes.
    - Leader election: of two replicas that believe to lead one has lost its
      session; a lock whose session ended is taken over at the next heartbeat.
    - Sign-in guard: failed attempts on a wallet, one after another, are spaced by the
      whole backoff;
      addresses written in front of a forwarded header do not count.
    - Tokens: they are read back until they expire; exactly the requests that should
      reach a handler do.
    - Sessions: the refresh tokens of a session are a chain; each is exchanged once,
      and presenting it again ends the session; a revoked session gets no tokens and
      its access tokens are refused; a sign-in spends a challenge of its wallet.

    Several lemmas record behaviour that a comment in the source contradicts, among
    them [expired_lease_still_reports], [overlapping_producers_break_order],
    [first_attempt_never_observed], [HashIntent_not_injective],
    [overflowing_deposit_posted], [harvest_dropped], [already_posted_aborts],
    [drift_wraps], [stale_read_undoes_pause], [stale_read_undoes_vault_pause],
    [waiter_gets_other_answer], [RunOnce_checks_first_batch], [soft_capacity_ignored],
    [rebalance_with_hash_fails], [rebalance_inflates_total],
    [paid_out_harvest_diverges], [withdrawal_claims_foreign_hash],
    [registered_again_can_fail], [registered_again_has_other_id],
    [breaker_reopens_closed], [paused_vault_moves_money], [stale_unpause_reopens],
    [deposit_after_full_withdrawal_panics], [operator_deposit_uncredited],
    [emergency_exit_breaks_trail], [compounded_yield_repeats], [list_deleted_fails],
    [page_offset_overflows], [halves_of_a_unit_are_units],
    [failed_reverification_leaks_lock], [wrong_signatures_are_never_locked_out],
    [service_key_skips_roles], [failed_mark_goes_unnoticed],
    [lost_commit_is_never_marked], [failed_request_looks_like_theft],
    [landed_submission_reads_expired] and [huge_deadline_reads_as_past].

    ** What is not modelled

    A connection that fails leaves the statement or the commit it carried undone,
    except where the session, savings and submission stores let a lost commit have been
    carried out all the same. The ledger's tables exist: the branch of
    vault_repository.go that tolerates their absence before the migration is left out.
    Case mapping is exact as far as it reaches ASCII letters.

    The run loops, heartbeat and drain goroutines and metrics gauges; logging; column
    length limits and sub-microsecond timestamp truncation; [BIGINT] overflow of row
    versions; PostgreSQL's re-evaluation of a row another session changed between
    the snapshot and the lock. Ledger transactions are executed one after another.
    A breaker window below ten nanoseconds, which divides by zero, is excluded by
    hypothesis.

    Vault transactions are executed one after another as well, so the advisory and
    row locks that make them so are not statements of the model. Requests of the
    vault service are served one at a time; [stale_unpause_reopens] shows what an
    overlap can do. The process and the database share one clock. A panic is an
    error of its own, which the recovery middleware answers. The projection, the
    listings over many vaults and the capacity display in floating point are left
    out.

    Of the savings goals, the listing of contributions and of templates, the
    deadline reminders, the on-chain goal ids and the text of notifications are left
    out; the sweep and a handler run one at a time, requests between them.

    Requests about sessions are served one at a time, each repository call being one
    transaction, so the order in which rotation and revocation lock their rows does
    not show, nor does a revocation between a rotation and the token it mints. The
    service and the database share one clock. The revocation cache is taken to answer
    and no answer of the database to be lost where a theorem says so.

    Of the submissions, building, simulating and signing transactions and the RPC
    client are left out. The network includes a transaction once, no earlier than its
    hand-over and no later than its bound; the clocks of the service and the ledgers
    agree to that extent. The RPC answers from a window of the ledgers, and an
    envelope is signed anew for each reference.

    The rest of the service is outside the development: handlers, configuration,
    observability, rate limits, webhooks, chain indexing over a third-party SDK,
    analytics, and the frontends and the contracts.

    This file holds what the others share: Go machine integers, instants and
    durations, byte strings, the result type that models Go's [(value, error)]
    returns, and the generic lemmas and tactics. *)
From Stdlib Require Export ZArith Lia.
From Stdlib Require SpecFloat.
From stdpp Require Export base gmap strings list option sorting pretty.

Set Default Proof Using "Type".
Open Scope Z_scope.
Declare Scope go_scope.
Delimit Scope go_scope with go.
Create HintDb nester.

(** ** Results *)

(** A Go function returning [(T, error)]: [Ok v] is [(v, nil)], [Err e] is
    [(zero, e)]. *)
Inductive result (E A : Type) : Type :=
| Ok (a : A)
| Err (e : E).
Arguments Ok {E A} a.
Arguments Err {E A} e.

Definition result_bind {E A B} (m : result E A) (k : A → result E B) : result E B :=
  match m with Ok a => k a | Err e => Err e end.

Notation "'let?' x ':=' m 'in' k" := (result_bind m (fun x => k))
  (at level 10, x pattern, m at level 100, k at level 200,
   format "'[v' 'let?'  x  ':='  m  'in' '/' k ']'") : go_scope.
Open Scope go_scope.

Definition is_ok {E A} (m : result E A) : bool :=
  match m with Ok _ => true | Err _ => false end.

#[global] Instance result_eq_dec {E A} `{EqDecision E, EqDecision A} :
  EqDecision (result E A).
Proof. solve_decision. Defined.

Lemma result_bind_ok {E A B} (m : result E A) (k : A → result E B) b :
  result_bind m k = Ok b ↔ ∃ a, m = Ok a ∧ k a = Ok b.
Proof. destruct m; naive_solver. Qed.

(** [error]-only functions return [option E]: [None] is [nil]. *)
Definition is_nil {E} (e : option E) : bool :=
  match e with None => true | Some _ => false end.

(** ** Machine integers *)

Definition max_i64 : Z := 9223372036854775807.
Definition min_i64 : Z := -9223372036854775808.

(** Two's-complement wrap-around of a 64-bit signed integer. *)
Definition i64 (z : Z) : Z := (z + 2 ^ 63) mod 2 ^ 64 - 2 ^ 63.

Definition in_i64 (z : Z) : Prop := min_i64 ≤ z ≤ max_i64.

#[global] Instance in_i64_dec z : Decision (in_i64 z).
Proof. unfold in_i64. apply _. Defined.

Lemma i64_id z : in_i64 z → i64 z = z.
Proof.
  unfold in_i64, i64, min_i64, max_i64. intros [? ?].
  rewrite Z.mod_small; lia.
Qed.

Lemma i64_range z : in_i64 (i64 z).
Proof.
  unfold in_i64, i64, min_i64, max_i64.
  pose proof (Z.mod_pos_bound (z + 2 ^ 63) (2 ^ 64)). lia.
Qed.

Lemma i64_eqm z : ∃ k, i64 z = z + k * 2 ^ 64.
Proof.
  unfold i64. exists (- ((z + 2 ^ 63) / 2 ^ 64)).
  pose proof (Z.div_mod (z + 2 ^ 63) (2 ^ 64)). lia.
Qed.

Lemma i64_eq_mod a b : a mod 2 ^ 64 = b mod 2 ^ 64 → i64 a = i64 b.
Proof.
  intros H. unfold i64.
  rewrite (Z.add_mod a), (Z.add_mod b), H by lia. done.
Qed.

Lemma i64_add_l a b : i64 (i64 a + b) = i64 (a + b).
Proof.
  destruct (i64_eqm a) as [k Hk]. apply i64_eq_mod. rewrite Hk.
  replace (a + k * 2 ^ 64 + b) with (a + b + k * 2 ^ 64) by lia.
  by rewrite Z_mod_plus_full.
Qed.

Lemma i64_add_r a b : i64 (a + i64 b) = i64 (a + b).
Proof. rewrite Z.add_comm, i64_add_l. f_equal; lia. Qed.

(** A 64-bit unsigned integer wraps at 2^64. *)
Definition u64 (z : Z) : Z := z mod 2 ^ 64.

Lemma u64_id z : 0 ≤ z < 2 ^ 64 → u64 z = z.
Proof. apply Z.mod_small. Qed.

(** ** Floating point *)

(** [float64] is IEEE 754 binary64 with the language's round-to-nearest-even
    arithmetic. [float64_of] is the conversion [float64(n)] of an integer. *)
Definition float64 : Type := SpecFloat.spec_float.
Definition float64_of (n : Z) : float64 := SpecFloat.binary_normalize 53 1024 n 0 false.
Definition float64_div (x y : float64) : float64 := SpecFloat.SFdiv 53 1024 x y.
Definition float64_leb (x y : float64) : bool := SpecFloat.SFleb x y.
Definition float64_ltb (x y : float64) : bool := SpecFloat.SFltb x y.
Definition float64_zero : float64 := SpecFloat.S754_zero false.

(** The value of [float64(n)] for an integer [n]: [n] rounded to 53 significant
    bits, ties to even. *)
Definition round53 (n : Z) : Z :=
  let a := Z.abs n in
  if a <? 2 ^ 53 then n
  else
    let e := Z.log2 a - 52 in
    let q := a / 2 ^ e in
    let r := a mod 2 ^ e in
    let q' := if (2 ^ (e - 1) <? r) || ((r =? 2 ^ (e - 1)) && Z.odd q) then q + 1 else q in
    Z.sgn n * (q' * 2 ^ e).

Lemma round53_small n : Z.abs n < 2 ^ 53 → round53 n = n.
Proof. unfold round53. intros H. destruct (Z.ltb_spec (Z.abs n) (2 ^ 53)); lia. Qed.

Lemma round53_nonneg n : 0 ≤ n → 0 ≤ round53 n.
Proof.
  intros Hn. unfold round53. destruct (Z.ltb_spec (Z.abs n) (2 ^ 53)); [done|]. cbv zeta.
  assert (Z.sgn n = 1) as -> by lia. set (e := Z.log2 (Z.abs n) - 52).
  assert (0 ≤ Z.abs n / 2 ^ e) by (apply Z.div_pos; [lia|];
    apply Z.pow_pos_nonneg; [lia|]; assert (53 ≤ Z.log2 (Z.abs n)) by (apply Z.log2_le_pow2; lia); lia).
  assert (0 ≤ 2 ^ e) by (apply Z.pow_nonneg; lia). destruct (_ || _); nia.
Qed.

(** Rounding does not step over a multiple of 2^53. *)
Lemma round53_le n c : 0 ≤ n ≤ c * 2 ^ 53 → c < 2 ^ 53 → round53 n ≤ c * 2 ^ 53.
Proof.
  intros Hn Hc. unfold round53. rewrite Z.abs_eq by lia.
  destruct (Z.ltb_spec n (2 ^ 53)) as [|Hbig]; [lia|]. cbv zeta.
  assert (53 ≤ Z.log2 n) by (apply Z.log2_le_pow2; lia).
  assert (Z.log2 n < 106) by (apply Z.log2_lt_pow2; lia).
  set (e := Z.log2 n - 52). assert (1 ≤ e ≤ 53) as He by lia.
  assert (0 < 2 ^ e) as Hp by (apply Z.pow_pos_nonneg; lia).
  assert (c * 2 ^ 53 = (c * 2 ^ (53 - e)) * 2 ^ e) as Hm
    by (rewrite <- Z.mul_assoc, <- Z.pow_add_r by lia; do 2 f_equal; lia).
  set (k := c * 2 ^ (53 - e)) in *. rewrite Hm in *.
  pose proof (Z.div_mod n (2 ^ e)) as Hdm. pose proof (Z.mod_pos_bound n (2 ^ e) Hp) as Hr.
  assert (Z.sgn n = 1) as -> by lia.
  assert (0 < 2 ^ (e - 1)) by (apply Z.pow_pos_nonneg; lia).
  rewrite Z.mul_1_l. apply Z.mul_le_mono_nonneg_r; [lia|].
  set (x := n / 2 ^ e) in *. set (r := n mod 2 ^ e) in *.
  destruct (_ || _) eqn:Hup; [|apply (Zmult_le_reg_r _ _ (2 ^ e)); lia].
  assert (0 < r).
  { apply orb_true_iff in Hup as [Hu|Hu]; [apply Z.ltb_lt in Hu; lia|].
    apply andb_true_iff in Hu as [Hu _]. apply Z.eqb_eq in Hu. lia. }
  assert (x < k); [|lia]. apply (Zmult_lt_reg_r _ _ (2 ^ e)); lia.
Qed.

Example round53_ties : round53 (2 ^ 53 + 1) = 2 ^ 53 ∧ round53 (2 ^ 53 + 3) = 2 ^ 53 + 4 ∧
  round53 (- (2 ^ 54 + 3)) = - (2 ^ 54 + 4) ∧ round53 max_i64 = 2 ^ 63.
Proof. vm_compute. done. Qed.

(** ** Instants and durations *)

(** [time.Time] is the number of nanoseconds since 0001-01-01T00:00:00Z, so
    Go's zero [Time] is [0]; [time.Duration] is a signed 64-bit nanosecond
    count. *)
Abbreviation Time := Z (only parsing).
Abbreviation Duration := Z (only parsing).

Definition Millisecond : Duration := 1000000.
Definition Second : Duration := 1000 * Millisecond.
Definition Minute : Duration := 60 * Second.
Definition Hour : Duration := 60 * Minute.

(** [t.Sub u] saturates at the ends of the [Duration] range. *)
Definition time_sub (t u : Time) : Duration := Z.max min_i64 (Z.min max_i64 (t - u)).

(** [t.Add d]: a [Time] holds seconds in an [int64], far beyond any sum that
    occurs, so the addition is exact. *)
Definition time_add (t : Time) (d : Duration) : Time := t + d.
Definition time_before (t u : Time) : bool := t <? u.
Definition time_after (t u : Time) : bool := u <? t.
Definition time_is_zero (t : Time) : bool := t =? 0.

(** [d.Milliseconds()] and [d.Truncate(time.Second)] round toward zero. *)
Definition milliseconds (d : Duration) : Z := Z.quot d Millisecond.

Lemma time_sub_exact t u : in_i64 (t - u) → time_sub t u = t - u.
Proof. unfold time_sub, in_i64. lia. Qed.

Lemma time_sub_mono t t' u : t ≤ t' → time_sub t u ≤ time_sub t' u.
Proof. unfold time_sub. lia. Qed.

(** A comparison of a saturated difference with an in-range bound is the
    comparison of the exact difference, except at the ends of the range. *)
Lemma time_sub_gt t u d : in_i64 d → d < time_sub t u → d < t - u.
Proof. unfold time_sub, in_i64, max_i64, min_i64. lia. Qed.

Lemma time_sub_le t u d : d < max_i64 → time_sub t u ≤ d → t - u ≤ d.
Proof. unfold time_sub, max_i64, min_i64. lia. Qed.

Lemma time_sub_ge t u d : min_i64 < d → d ≤ time_sub t u → d ≤ t - u.
Proof. unfold time_sub, max_i64, min_i64. lia. Qed.

(** ** Byte strings *)

(** Go strings are byte sequences. [byte n] is the byte of value [n]. *)
Definition byte (n : nat) : Ascii.ascii := Ascii.ascii_of_nat n.
Definition bytes_of (s : string) : list Ascii.ascii := String.list_ascii_of_string s.
Definition of_bytes (l : list Ascii.ascii) : string := String.string_of_list_ascii l.

(** The UTF-8 encodings of the code points [unicode.IsSpace] accepts. *)
Definition space_encodings : list (list Ascii.ascii) :=
  map (map byte)
    ([[9]; [10]; [11]; [12]; [13]; [32]; [194; 133]; [194; 160]; [225; 154; 128]]
     ++ map (λ n, [226; 128; 128 + n]) (seq 0 11)
     ++ [[226; 128; 168]; [226; 128; 169]; [226; 128; 175]; [226; 129; 159];
         [227; 128; 128]])%nat.

(** Drop [p] from the front of [l]. *)
Fixpoint strip_prefix (p l : list Ascii.ascii) : option (list Ascii.ascii) :=
  match p, l with
  | [], _ => Some l
  | a :: p', b :: l' => if decide (a = b) then strip_prefix p' l' else None
  | _ :: _, [] => None
  end.

Fixpoint strip_one (ps : list (list Ascii.ascii)) (l : list Ascii.ascii)
  : option (list Ascii.ascii) :=
  match ps with
  | [] => None
  | p :: ps' => match strip_prefix p l with Some l' => Some l' | None => strip_one ps' l end
  end.

(** Every step removes at least one byte, so [length l] steps are enough. *)
Fixpoint trim_front (fuel : nat) (ps : list (list Ascii.ascii)) (l : list Ascii.ascii)
  : list Ascii.ascii :=
  match fuel with
  | O => l
  | S fuel' => match strip_one ps l with
               | Some l' => trim_front fuel' ps l'
               | None => l
               end
  end.

(** [strings.TrimSpace]. *)
Definition TrimSpace (s : string) : string :=
  let l := bytes_of s in
  let l1 := trim_front (length l) space_encodings l in
  let l2 := trim_front (length l1) (map (@rev _) space_encodings) (rev l1) in
  of_bytes (rev l2).

(** [strings.ToLower], [strings.ToUpper] and [strings.EqualFold] as far as they reach
    ASCII: its letters, and the runes whose case mapping is one of its letters (the dotted
    capital i, the Kelvin sign, the dotless i and the long s). Letters that stay outside
    ASCII are left as they are, so comparisons with ASCII texts come out as in Go. *)
Fixpoint fold_runes (fold : list Ascii.ascii → option Ascii.ascii) (l : list Ascii.ascii) : list Ascii.ascii :=
  match l with
  | a :: (b :: l2) as l1 =>
      match fold [a; b] with
      | Some x => x :: fold_runes fold l2
      | None =>
          match l2 with
          | c :: l3 => match fold [a; b; c] with
                       | Some x => x :: fold_runes fold l3
                       | None => a :: fold_runes fold l1
                       end
          | [] => a :: fold_runes fold l1
          end
      end
  | _ => l
  end.
Definition rune_table (t : list (list nat * nat)) (l : list Ascii.ascii) : option Ascii.ascii :=
  head (omap (λ p, if bool_decide (map byte (fst p) = l) then Some (byte (snd p)) else None) t).
Definition dotted_I := ([196; 176]%nat, 105%nat).
Definition dotless_i := ([196; 177]%nat, 73%nat).
Definition Kelvin := ([226; 132; 170]%nat, 107%nat).
Definition long_s (n : nat) := ([197; 191]%nat, n).
Definition lower (c : Ascii.ascii) : Ascii.ascii :=
  let n := Ascii.nat_of_ascii c in
  if bool_decide (65 ≤ n ∧ n ≤ 90)%nat then byte (n + 32) else c.
Definition upper (c : Ascii.ascii) : Ascii.ascii :=
  let n := Ascii.nat_of_ascii c in
  if bool_decide (97 ≤ n ∧ n ≤ 122)%nat then byte (n - 32) else c.
Definition ToLower (s : string) : string := of_bytes (map lower (fold_runes (rune_table [dotted_I; Kelvin]) (bytes_of s))).
Definition ToUpper (s : string) : string := of_bytes (map upper (fold_runes (rune_table [dotless_i; long_s 83]) (bytes_of s))).
Definition case_fold (s : string) : list Ascii.ascii := map lower (fold_runes (rune_table [Kelvin; long_s 115]) (bytes_of s)).
Definition EqualFold (a b : string) : bool := bool_decide (case_fold a = case_fold b).

Example EqualFold_case : EqualFold "usdC" (ToUpper "usdc") = true.
Proof. vm_compute. reflexivity. Qed.

(** A dotted capital i reads as [i] in lower case, but folds to itself; the Kelvin sign
    and the long s fold to [k] and [s]. *)
Example ToLower_runes :
  ToLower (of_bytes (map byte [87; 196; 176; 116; 72]%nat)) = "with"%string ∧
  EqualFold (of_bytes (map byte [226; 132; 170; 197; 191]%nat)) "kS" = true ∧
  EqualFold (of_bytes (map byte [196; 176]%nat)) "i" = false.
Proof. vm_compute. by split_and!. Qed.

(** [strings.HasPrefix] and [strings.Contains]. *)
Definition HasPrefix (s p : string) : bool := String.prefix p s.
Definition Contains (s sub : string) : bool :=
  match String.index 0 sub s with Some _ => true | None => false end.

Definition str_len (s : string) : Z := Z.of_nat (String.length s).

Definition string_eqb (a b : string) : bool := bool_decide (a = b).
Infix "=s?" := string_eqb (at level 70) : go_scope.

Lemma string_eqb_eq a b : (a =s? b) = true ↔ a = b.
Proof. apply bool_decide_eq_true. Qed.
Lemma string_eqb_neq a b : (a =s? b) = false ↔ a ≠ b.
Proof. apply bool_decide_eq_false. Qed.

Example TrimSpace_ascii : TrimSpace "  blend pool	 " = "blend pool".
Proof. vm_compute. reflexivity. Qed.
Example TrimSpace_blank : TrimSpace "   " = "".
Proof. vm_compute. reflexivity. Qed.

(** ** Sums *)

Definition sum_Z (l : list Z) : Z := foldr Z.add 0 l.

Lemma sum_Z_app l k : sum_Z (l ++ k) = sum_Z l + sum_Z k.
Proof. induction l as [|x l IH]; simpl; [done|]. rewrite IH. lia. Qed.

Lemma sum_Z_perm l k : l ≡ₚ k → sum_Z l = sum_Z k.
Proof. induction 1; simpl; lia. Qed.

(** The Go loop [for ... { sum += x }] over [int64] computes the exact sum
    modulo 2^64. *)
Definition sum_i64 (acc : Z) (l : list Z) : Z := foldl (λ s x, i64 (s + x)) acc l.

Lemma sum_i64_wraps l acc : in_i64 acc → sum_i64 acc l = i64 (acc + sum_Z l).
Proof.
  revert acc. induction l as [|x l IH]; intros acc Hacc; simpl.
  - rewrite Z.add_0_r. by rewrite i64_id.
  - unfold sum_i64 in *. simpl. rewrite IH by apply i64_range.
    rewrite i64_add_l. f_equal. lia.
Qed.

(** ** Sorted selections *)

Lemma StronglySorted_filter {A} (R : A → A → Prop) (P : A → Prop) `{∀ x, Decision (P x)} l :
  StronglySorted R l → StronglySorted R (filter P l).
Proof.
  induction 1 as [|x l Hl IH Hx]; [constructor|]. rewrite filter_cons. case_decide; [|done].
  constructor; [done|]. rewrite Forall_forall in *. intros y Hy.
  apply list_elem_of_filter in Hy as [_ Hy]. auto.
Qed.

(** The two filters that need no look at the elements. *)
Lemma filter_none {A} (P : A → Prop) `{∀ x, Decision (P x)} (l : list A) :
  (∀ x, x ∈ l → ¬ P x) → filter P l = [].
Proof.
  induction l as [|x l IH]; intros H'; [done|].
  rewrite filter_cons_False by (apply H'; set_solver). apply IH. set_solver.
Qed.

Lemma filter_all {A} (P : A → Prop) `{∀ x, Decision (P x)} (l : list A) :
  (∀ x, x ∈ l → P x) → filter P l = l.
Proof.
  induction l as [|x l IH]; intros H'; [done|].
  rewrite filter_cons_True by (apply H'; set_solver). f_equal. apply IH. set_solver.
Qed.

(** What a [LIMIT] leaves out comes after everything it keeps. *)
Lemma take_sorted {A} (R : A → A → Prop) n l x :
  StronglySorted R l → x ∈ l → x ∉ take n l →
  length (take n l) = n ∧ ∀ y, y ∈ take n l → R y x.
Proof.
  intros Hs Hx Hn. rewrite <- (take_drop n l) in Hs, Hx.
  apply elem_of_app in Hx as [?|Hx]; [done|]. split.
  - rewrite length_take. assert (length (drop n l) ≠ 0%nat) as Hd by (by destruct (drop n l); [apply elem_of_nil in Hx|]).
    rewrite length_drop in Hd. lia.
  - intros y Hy. by eapply StronglySorted_app_1_elem_of.
Qed.

(** ** Searches *)

Lemma existsb_none {A} (p : A → bool) l :
  existsb p l = false ↔ ∀ x, x ∈ l → p x = false.
Proof.
  induction l as [|y l IH]; simpl; [split; [by intros _ x ?%elem_of_nil|done]|].
  rewrite orb_false_iff, IH. setoid_rewrite elem_of_cons. naive_solver.
Qed.

Lemma existsb_elem {A} (p : A → bool) l :
  existsb p l = true ↔ ∃ x, x ∈ l ∧ p x = true.
Proof. rewrite existsb_exists. by setoid_rewrite <- list_elem_of_In. Qed.

(** ** Tables *)

(** Writing a list of rows into a table: the first row of a key is the one kept. *)
Lemma foldr_insert_lookup `{Countable K} {A} (k : A → K) (f : A → A) (l : list A)
    (t : gmap K A) i :
  foldr (λ x t, <[k x := f x]> t) t l !! i =
    match list_find (λ x, k x = i) l with
    | Some (_, x) => Some (f x)
    | None => t !! i
    end.
Proof.
  induction l as [|x l IH]; [done|]. cbn [foldr list_find].
  destruct (decide (k x = i)) as [<-|Hne].
  - by rewrite lookup_insert_eq.
  - rewrite lookup_insert_ne, IH by done. by destruct (list_find _ l) as [[]|].
Qed.

(** ** Tactics *)

(** Case analysis on every [if] and [match] of the goal and hypotheses, with
    the boolean tests turned into propositions. *)
Ltac reflect_bools :=
  repeat match goal with
  | H : (_ =s? _) = true |- _ => apply string_eqb_eq in H
  | H : (_ =s? _) = false |- _ => apply string_eqb_neq in H
  | H : bool_decide _ = true |- _ => apply bool_decide_eq_true in H
  | H : bool_decide _ = false |- _ => apply bool_decide_eq_false in H
  | H : (_ =? _) = true |- _ => apply Z.eqb_eq in H
  | H : (_ =? _) = false |- _ => apply Z.eqb_neq in H
  | H : (_ <? _) = true |- _ => apply Z.ltb_lt in H
  | H : (_ <? _) = false |- _ => apply Z.ltb_ge in H
  | H : (_ <=? _) = true |- _ => apply Z.leb_le in H
  | H : (_ <=? _) = false |- _ => apply Z.leb_gt in H
  | H : (_ && _)%bool = true |- _ => apply andb_true_iff in H; destruct H
  | H : (_ || _)%bool = false |- _ => apply orb_false_iff in H; destruct H
  | H : (_ || _)%bool = true |- _ => apply orb_true_iff in H
  | H : (_ && _)%bool = false |- _ => apply andb_false_iff in H
  | H : negb _ = true |- _ => apply negb_true_iff in H
  | H : negb _ = false |- _ => apply negb_false_iff in H
  end.

Ltac split_ifs :=
  repeat match goal with
  | |- context [if ?b then _ else _] => destruct b eqn:?
  | H : context [if ?b then _ else _] |- _ => destruct b eqn:?
  end.

(** Finish a branch of a guard chain: reflect, rewrite, and close. *)
Ltac guard_done := reflect_bools; simplify_eq; try done; try congruence; try lia.

(** A chain of guards [if b { return err }] returns [nil] exactly when every
    guard is false; [autorewrite with guards] turns the chain into the
    conjunction of the tests it makes. *)
Lemma guard_none {E} (b : bool) (e : E) (k : option E) :
  (if b then Some e else k) = None ↔ b = false ∧ k = None.
Proof. destruct b; naive_solver. Qed.

Lemma guard_leaf {E} : @None E = None ↔ True.
Proof. done. Qed.

Lemma and_True (P : Prop) : P ∧ True ↔ P.
Proof. tauto. Qed.

Lemma Z_len_le0 {A} (l : list A) : Z.of_nat (length l) ≤ 0 ↔ l = [].
Proof. destruct l; simpl; split; try done; lia. Qed.

Lemma Z_len_eq0 {A} (l : list A) : Z.of_nat (length l) = 0 ↔ l = [].
Proof. destruct l; simpl; split; try done; lia. Qed.

Lemma bool_decide_false (P : Prop) `{Decision P} : bool_decide P = false ↔ ¬ P.
Proof. apply bool_decide_eq_false. Qed.

#[export] Hint Rewrite @guard_none @guard_leaf orb_false_iff negb_false_iff
  Z.eqb_eq Z.ltb_ge Z.leb_gt string_eqb_eq string_eqb_neq Z.eqb_neq
  @Z_len_le0 @Z_len_eq0 @bool_decide_false and_True : guards.

(** Both directions of an equivalence between a guard chain and a conjunction. *)
Ltac iff_chain := split; intros; destruct_and?; split_and?; guard_done.
