(* ===== verification/TimeFormat.v ===== *)
(** How numbers and instants are written into hashed texts: [strconv] and [%d]
    integers and [time.RFC3339Nano] timestamps, as the intent hash
    (signing/audit.go) and the audit chain (audit/audit.go) use them, and the
    proof that a rendering determines what was rendered. *)
From S2P Require Import Prelude.

Module TimeFormat.

(** *** Texts as byte lists *)

Lemma bytes_of_app a b : bytes_of (a +:+ b)%string = bytes_of a ++ bytes_of b.
Proof. induction a as [|c a IH]; simpl; [done|]. unfold bytes_of in *. simpl. by rewrite IH. Qed.

Lemma bytes_of_inj a b : bytes_of a = bytes_of b → a = b.
Proof.
  intros H. rewrite <- (String.string_of_list_ascii_of_string a),
    <- (String.string_of_list_ascii_of_string b). unfold bytes_of in H. by rewrite H.
Qed.

(** The first occurrence of a separator splits a text in one way. *)
Lemma split_first (sep : Ascii.ascii) (a b x y : list Ascii.ascii) :
  sep ∉ a → sep ∉ b → a ++ sep :: x = b ++ sep :: y → a = b ∧ x = y.
Proof.
  revert b. induction a as [|c a IH]; intros [|d b] Ha Hb H; simplify_eq/=.
  - done.
  - set_solver.
  - set_solver.
  - destruct (IH b) as [-> ->]; set_solver.
Qed.

(** *** Integers *)

Definition itoa (v : Z) : string := pretty v.

(** *** RFC 3339 rendering of an instant *)

(** [IssuedAt.UTC().Format(time.RFC3339Nano)]: civil date from the day count
    since 0001-01-01, time of day, and the fraction with trailing zeros
    removed. *)
Fixpoint digits (width : nat) (n : Z) : string :=
  match width with
  | O => ""
  | S w => (digits w (n / 10) +:+ String (Ascii.ascii_of_nat (48 + Z.to_nat (n mod 10))) "")%string
  end.

(** Days-since-epoch to (year, month, day) in the proleptic Gregorian calendar,
    with years counted from March so that the leap day comes last. *)
Definition civil_of_days (days0001 : Z) : Z * Z * Z :=
  let z := days0001 + 306 in
  let era := z / 146097 in
  let doe := z mod 146097 in
  let yoe := (doe - doe / 1460 + doe / 36524 - doe / 146096) / 365 in
  let y := yoe + era * 400 in
  let doy := doe - (365 * yoe + yoe / 4 - yoe / 100) in
  let mp := (5 * doy + 2) / 153 in
  let d := doy - (153 * mp + 2) / 5 + 1 in
  let m := if mp <? 10 then mp + 3 else mp - 9 in
  ((if m <=? 2 then y + 1 else y), m, d).

Fixpoint strip_zeros (rev_digits : list Ascii.ascii) : list Ascii.ascii :=
  match rev_digits with
  | c :: cs => if decide (c = byte 48) then strip_zeros cs else rev_digits
  | [] => []
  end.

Definition fraction (ns : Z) : string :=
  match strip_zeros (rev (bytes_of (digits 9 ns))) with
  | [] => ""
  | ds => String (byte 46) (of_bytes (rev ds))
  end.

(** The year is padded to four digits and printed in full beyond that. *)
Definition year_string (y : Z) : string :=
  if y <? 0 then ("-" +:+ digits 4 (- y))%string
  else if y <? 10000 then digits 4 y else pretty y.

Definition rfc3339nano (t : Time) : string :=
  let secs := t / 1000000000 in
  let '(y, m, d) := civil_of_days (secs / 86400) in
  let sod := secs mod 86400 in
  (year_string y +:+ "-" +:+ digits 2 m +:+ "-" +:+ digits 2 d +:+ "T"
   +:+ digits 2 (sod / 3600) +:+ ":" +:+ digits 2 (sod / 60 mod 60) +:+ ":"
   +:+ digits 2 (sod mod 60) +:+ fraction (t mod 1000000000) +:+ "Z")%string.

Example rfc3339_epoch : rfc3339nano (719162 * 86400 * 1000000000) = "1970-01-01T00:00:00Z".
Proof. vm_compute. reflexivity. Qed.
Example rfc3339_leap :
  rfc3339nano ((738944 * 86400 + 45296) * 1000000000 + 789000000) = "2024-02-29T12:34:56.789Z".
Proof. vm_compute. reflexivity. Qed.

(** The bytes numbers and timestamps are written with: digits and [-.:TZ]. *)
Definition plain (c : Ascii.ascii) : bool :=
  let n := Ascii.nat_of_ascii c in
  ((45 <=? n) && (n <=? 46) || (48 <=? n) && (n <=? 58) || (n =? 84) || (n =? 90))%nat.

Definition plain_text (s : string) : Prop := Forall (λ c, plain c = true) (bytes_of s).

Lemma plain_text_app a b : plain_text (a +:+ b)%string ↔ plain_text a ∧ plain_text b.
Proof. unfold plain_text. rewrite bytes_of_app. apply Forall_app. Qed.

Lemma plain_digits w : ∀ n, plain_text (digits w n).
Proof.
  induction w as [|w IH]; intros n; simpl; [by apply Forall_nil|].
  apply plain_text_app. split; [apply IH|].
  apply Forall_singleton.
  assert (0 ≤ n mod 10 < 10) as Hd by (apply Z.mod_pos_bound; lia).
  destruct (Z.to_nat (n mod 10)) as [|[|[|[|[|[|[|[|[|[|k]]]]]]]]]] eqn:E; try done. lia.
Qed.

Lemma plain_pretty_N n : ∀ s, plain_text s → plain_text (pretty_N_go n s).
Proof.
  induction (N.lt_wf_0 n) as [n _ IH]; intros s Hs.
  destruct (decide (0 < n)%N) as [Hn|Hn].
  - rewrite pretty_N_go_step by done. apply IH; [by apply N.div_lt|].
    apply Forall_cons. split; [|done].
    unfold pretty_N_char. destruct (n `mod` 10)%N as [|[[[[]|[]|]|[[]|[]|]|]|[[[]|[]|]|[[]|[]|]|]|]];
      done.
  - replace n with 0%N by lia. by rewrite pretty_N_go_0.
Qed.

Lemma plain_pretty (z : Z) : plain_text (pretty z).
Proof.
  assert (∀ n : N, plain_text (pretty n)) as HN.
  { intros n. unfold pretty, pretty_N. case_decide; [by apply Forall_singleton|].
    apply plain_pretty_N. by apply Forall_nil. }
  destruct z; [by apply Forall_singleton|apply HN|].
  change (pretty (Z.neg p)) with ("-" +:+ pretty (N.pos p))%string.
  apply plain_text_app. split; [by apply Forall_singleton|apply HN].
Qed.

Lemma strip_zeros_subset l c : c ∈ strip_zeros l → c ∈ l.
Proof. induction l as [|d l IH]; simpl; [done|]. case_decide; set_solver. Qed.

Lemma plain_fraction n : plain_text (fraction n).
Proof.
  unfold fraction. destruct (strip_zeros _) as [|c l] eqn:E; [by apply Forall_nil|].
  apply Forall_cons. split; [done|]. fold bytes_of.
  change (plain_text (of_bytes (rev (c :: l)))).
  unfold plain_text, bytes_of, of_bytes. rewrite String.list_ascii_of_string_of_list_ascii, <- E.
  apply Forall_forall. intros x Hx. pose proof (plain_digits 9 n) as Hd.
  unfold plain_text in Hd. rewrite Forall_forall in Hd. apply Hd.
  apply list_elem_of_In, in_rev, list_elem_of_In, strip_zeros_subset in Hx.
  by apply list_elem_of_In, in_rev, list_elem_of_In in Hx.
Qed.

Lemma plain_rfc3339nano t : plain_text (rfc3339nano t).
Proof.
  unfold rfc3339nano, year_string. destruct (civil_of_days _) as [[y m] d].
  repeat (rewrite plain_text_app; split); try apply plain_digits;
    try apply plain_fraction; try by apply Forall_singleton.
  split_ifs; [apply plain_text_app; split; [by apply Forall_singleton|]| |];
    auto using plain_digits, plain_pretty.
Qed.

(** A byte numbers and timestamps do not use is not in them. *)
Lemma plain_not_in s c : plain_text s → plain c = false → c ∉ bytes_of s.
Proof. unfold plain_text. rewrite Forall_forall. intros H Hc Hin. apply H in Hin. congruence. Qed.


(** *** Fixed-width digits *)

Lemma bytes_of_digits_length w : ∀ n, length (bytes_of (digits w n)) = w.
Proof.
  induction w as [|w IH]; intros n; simpl; [done|].
  rewrite bytes_of_app, length_app, IH. cbn. lia.
Qed.

Lemma digit_byte_inj a b :
  0 ≤ a < 10 → 0 ≤ b < 10 →
  Ascii.ascii_of_nat (48 + Z.to_nat a) = Ascii.ascii_of_nat (48 + Z.to_nat b) → a = b.
Proof.
  intros Ha Hb H. apply (f_equal Ascii.nat_of_ascii) in H.
  rewrite !Ascii.nat_ascii_embedding in H by lia. lia.
Qed.

Lemma digits_inj w : ∀ n m,
  0 ≤ n < 10 ^ Z.of_nat w → 0 ≤ m < 10 ^ Z.of_nat w → digits w n = digits w m → n = m.
Proof.
  induction w as [|w IH]; intros n m Hn Hm H; [simpl in *; lia|].
  replace (Z.of_nat (S w)) with (1 + Z.of_nat w) in Hn, Hm by lia.
  rewrite Z.pow_add_r in Hn, Hm by lia.
  apply (f_equal bytes_of) in H. cbn [digits] in H. rewrite !bytes_of_app in H.
  apply app_inj_1 in H as [Hq Hr]; [|by rewrite !bytes_of_digits_length].
  apply bytes_of_inj, IH in Hq; [|split; [apply Z.div_pos|apply Z.div_lt_upper_bound]; lia..].
  injection Hr as Hr. apply digit_byte_inj in Hr; [|apply Z.mod_pos_bound; lia..].
  rewrite (Z.div_mod n 10), (Z.div_mod m 10) by lia. congruence.
Qed.

(** Peeling a fixed-width field and the literal after it off two renderings. *)
Lemma digits_app_inj w n m (s t : string) :
  0 ≤ n < 10 ^ Z.of_nat w → 0 ≤ m < 10 ^ Z.of_nat w →
  (digits w n +:+ s)%string = (digits w m +:+ t)%string → n = m ∧ s = t.
Proof.
  intros Hn Hm H. apply (f_equal bytes_of) in H. rewrite !bytes_of_app in H.
  apply app_inj_1 in H as [H1 H2]; [|by rewrite !bytes_of_digits_length].
  apply bytes_of_inj in H1, H2. eauto using digits_inj.
Qed.

(** *** The fraction *)

Lemma strip_zeros_spec l : ∃ k, l = replicate k (byte 48) ++ strip_zeros l.
Proof.
  induction l as [|c l [k IH]]; [by exists 0%nat|]. cbn. case_decide as Hc.
  - exists (S k). cbn. by rewrite Hc, <- IH.
  - by exists 0%nat.
Qed.

Lemma strip_zeros_inj l k : length l = length k → strip_zeros l = strip_zeros k → l = k.
Proof.
  intros Hlen H. destruct (strip_zeros_spec l) as [a Ha], (strip_zeros_spec k) as [b Hb].
  rewrite Ha, Hb, !length_app, !length_replicate, H in Hlen.
  rewrite Ha, Hb, H. repeat f_equal. lia.
Qed.

Lemma rev_inj {A} (l k : list A) : rev l = rev k → l = k.
Proof. intros H. by rewrite <- (rev_involutive l), H, rev_involutive. Qed.

Lemma fraction_inj n m : 0 ≤ n < 10 ^ 9 → 0 ≤ m < 10 ^ 9 → fraction n = fraction m → n = m.
Proof.
  intros Hn Hm H. apply (digits_inj 9); [done..|].
  apply bytes_of_inj, rev_inj, strip_zeros_inj.
  { by rewrite !length_rev, !bytes_of_digits_length. }
  unfold fraction in H. destruct (strip_zeros (rev (bytes_of (digits 9 n)))) as [|c l];
    destruct (strip_zeros (rev (bytes_of (digits 9 m)))) as [|d k]; try done.
  injection H as H. apply (f_equal bytes_of) in H. unfold of_bytes, bytes_of in H.
  rewrite !String.list_ascii_of_string_of_list_ascii in H. 
  change (rev (c :: l) = rev (d :: k)) in H. by apply rev_inj in H.
Qed.

(** *** The civil calendar *)

(** The inverse of [civil_of_days]. *)
Definition days_of_civil (c : Z * Z * Z) : Z :=
  let '(y, m, d) := c in
  let y' := if m <=? 2 then y - 1 else y in
  let era := y' / 400 in
  let yoe := y' mod 400 in
  let mp := if 3 <=? m then m - 3 else m + 9 in
  let doy := (153 * mp + 2) / 5 + d - 1 in
  era * 146097 + (yoe * 365 + yoe / 4 - yoe / 100 + doy) - 306.

(** Year of era, shifted month and day of month, from the day of the era. *)
Definition era_fields (doe : Z) : Z * Z * Z :=
  let yoe := (doe - doe / 1460 + doe / 36524 - doe / 146096) / 365 in
  let doy := doe - (365 * yoe + yoe / 4 - yoe / 100) in
  let mp := (5 * doy + 2) / 153 in
  (yoe, mp, doy - (153 * mp + 2) / 5 + 1).

(** The first day of each year of the era, and the day count the year is read
    off from. *)
Definition year_start (y : Z) : Z := y * 365 + y / 4 - y / 100 + y / 400.
Definition leapless (doe : Z) : Z := doe - doe / 1460 + doe / 36524 - doe / 146096.

(** [f] on the [k] integers from [z]. *)
Fixpoint all_from (f : Z → bool) (k : nat) (z : Z) : bool :=
  match k with O => true | S k' => f z && all_from f k' (z + 1) end.

Lemma all_from_spec f k : ∀ z, all_from f k z = true → ∀ x, z ≤ x < z + Z.of_nat k → f x = true.
Proof.
  induction k as [|k IH]; intros z H x Hx; [lia|]. cbn in H. reflect_bools.
  destruct (decide (x = z)) as [->|]; [done|]. apply (IH (z + 1)); [done|lia].
Qed.

Lemma leapless_mono x y : 0 ≤ x ≤ y → leapless x ≤ leapless y.
Proof.
  assert (∀ z, 0 ≤ z → leapless z ≤ leapless (z + 1)) as Hstep.
  { intros z Hz. unfold leapless. Z.to_euclidean_division_equations; lia. }
  intros [Hx Hy]. revert y Hy. apply (Zlt_lower_bound_ind (λ y, leapless x ≤ leapless y)).
  intros y IH Hy. destruct (decide (y = x)) as [->|]; [lia|].
  specialize (IH (y - 1) ltac:(lia)). specialize (Hstep (y - 1) ltac:(lia)).
  replace (y - 1 + 1) with y in Hstep by lia. lia.
Qed.

(** The first and the last day of a year are read back as that year, so every
    day between them is. *)
Lemma year_ends y : 0 ≤ y < 400 →
  (leapless (year_start y) / 365 =? y) && (leapless (year_start (y + 1) - 1) / 365 =? y)
  && (year_start (y + 1) - year_start y <=? 366) = true.
Proof.
  intros Hy. apply (all_from_spec (λ y, (leapless (year_start y) / 365 =? y) &&
    (leapless (year_start (y + 1) - 1) / 365 =? y) &&
    (year_start (y + 1) - year_start y <=? 366)) 400 0); [|lia]. vm_compute. reflexivity.
Qed.

Lemma year_of_day doe : 0 ≤ doe < 146097 →
  ∃ y, 0 ≤ y < 400 ∧ year_start y ≤ doe < year_start (y + 1).
Proof.
  intros Hd. cut (∀ k, 0 ≤ k ≤ 400 → doe < year_start k →
    ∃ y, 0 ≤ y < k ∧ year_start y ≤ doe < year_start (y + 1)).
  { intros H. apply (H 400); [lia|]. change (year_start 400) with 146097. lia. }
  intros k [Hk0 Hk]. revert k Hk0 Hk. apply (natlike_ind (λ k, k ≤ 400 → doe < year_start k →
    ∃ y, 0 ≤ y < k ∧ year_start y ≤ doe < year_start (y + 1))).
  - change (year_start 0) with 0. lia.
  - intros k Hk IH Hk' Hlt. destruct (decide (doe < year_start k)) as [H|H].
    + destruct IH as (y & ? & ?); [lia|done|]. exists y. split; [lia|done].
    + exists k. unfold Z.succ in Hlt. lia.
Qed.

Lemma era_bounds doe yoe mp d :
  0 ≤ doe < 146097 → era_fields doe = (yoe, mp, d) →
  0 ≤ yoe < 400 ∧ 0 ≤ mp ≤ 11 ∧ 1 ≤ d ≤ 31.
Proof.
  intros Hd Hf. destruct (year_of_day doe Hd) as (y & Hy & Hlo & Hhi).
  pose proof (year_ends y Hy) as He. reflect_bools.
  assert (0 ≤ year_start y) by (unfold year_start; Z.to_euclidean_division_equations; lia).
  assert (leapless doe / 365 = y) as Hyoe.
  { pose proof (leapless_mono (year_start y) doe ltac:(lia)).
    pose proof (leapless_mono doe (year_start (y + 1) - 1) ltac:(lia)).
    assert (leapless (year_start y) / 365 ≤ leapless doe / 365) by (apply Z.div_le_mono; lia).
    assert (leapless doe / 365 ≤ leapless (year_start (y + 1) - 1) / 365)
      by (apply Z.div_le_mono; lia). lia. }
  unfold era_fields in Hf. fold (leapless doe) in Hf. rewrite Hyoe in Hf.
  set (doy := doe - (365 * y + y / 4 - y / 100)) in Hf.
  assert (0 ≤ doy ≤ 365) as Hdoy.
  { subst doy. unfold year_start in *. rewrite (Z.div_small y 400) in * by lia. lia. }
  clearbody doy. injection Hf as <- <- <-. split; [done|].
  Z.to_euclidean_division_equations; lia.
Qed.

Lemma civil_of_days_era n :
  civil_of_days n =
    let '(yoe, mp, d) := era_fields ((n + 306) mod 146097) in
    let y := yoe + (n + 306) / 146097 * 400 in
    let m := if mp <? 10 then mp + 3 else mp - 9 in
    ((if m <=? 2 then y + 1 else y), m, d).
Proof. reflexivity. Qed.

Lemma div_mod_400 yoe era :
  0 ≤ yoe < 400 → (yoe + era * 400) / 400 = era ∧ (yoe + era * 400) mod 400 = yoe.
Proof. intros H. Z.to_euclidean_division_equations; lia. Qed.

(** The fields are in range and determine the day they came from. *)
Lemma civil_of_days_fields n y m d :
  civil_of_days n = (y, m, d) →
  days_of_civil (y, m, d) = n ∧ 1 ≤ m ≤ 12 ∧ 1 ≤ d ≤ 31 ∧
  400 * ((n + 306) / 146097) ≤ y ≤ 400 * ((n + 306) / 146097) + 400.
Proof.
  rewrite civil_of_days_era. pose proof (Z.div_mod (n + 306) 146097) as Hn.
  pose proof (Z.mod_pos_bound (n + 306) 146097) as Hdoe.
  destruct (era_fields _) as [[yoe mp] dd] eqn:Ef.
  pose proof (era_bounds _ _ _ _ (Hdoe eq_refl) Ef) as (Hy & Hmp & Hd).
  set (era := (n + 306) / 146097) in *. set (doe := (n + 306) mod 146097) in *.
  destruct (div_mod_400 yoe era Hy) as [H1 H2].
  assert (doe = yoe * 365 + yoe / 4 - yoe / 100 + ((153 * mp + 2) / 5 + dd - 1)) as Hdoe'.
  { unfold era_fields in Ef. injection Ef as <- <- <-. lia. }
  clearbody era doe. clear Ef Hdoe. specialize (Hn ltac:(lia)). cbv zeta. intros H.
  unfold days_of_civil. destruct (mp <? 10) eqn:E10; reflect_bools.
  - rewrite (proj2 (Z.leb_gt (mp + 3) 2)) in H by lia. injection H as <- <- <-.
    rewrite (proj2 (Z.leb_gt (mp + 3) 2)), (proj2 (Z.leb_le 3 (mp + 3))), H1, H2 by lia.
    replace (mp + 3 - 3) with mp by lia. lia.
  - rewrite (proj2 (Z.leb_le (mp - 9) 2)) in H by lia. injection H as <- <- <-.
    rewrite (proj2 (Z.leb_le (mp - 9) 2)), (proj2 (Z.leb_gt 3 (mp - 9))) by lia.
    rewrite Z.add_simpl_r, H1, H2. replace (mp - 9 + 9) with mp by lia. lia.
Qed.

(** *** The whole rendering *)

(** The instants RFC 3339 can write: the years 0001 to 9999. *)
Definition renderable (t : Time) : Prop := 0 ≤ t < 3652059 * 86400 * 1000000000.

Lemma year_bounds n y m d :
  0 ≤ n < 3652059 → civil_of_days n = (y, m, d) → 0 ≤ y < 10000.
Proof.
  intros Hn H. pose proof (civil_of_days_fields _ _ _ _ H) as (Hi & Hm & Hd & Hy).
  assert (0 ≤ (n + 306) / 146097 < 25) as He
    by (split; [apply Z.div_pos|apply Z.div_lt_upper_bound]; lia).
  split; [lia|]. destruct (decide (y < 10000)) as [|Hge]; [done|exfalso].
  assert (y = 10000) as -> by lia. unfold days_of_civil in Hi.
  destruct (m <=? 2) eqn:E; reflect_bools.
  - rewrite (proj2 (Z.leb_gt 3 m)) in Hi by lia.
    clear - Hi Hm Hd Hn E. Z.to_euclidean_division_equations; lia.
  - rewrite (proj2 (Z.leb_le 3 m)) in Hi by lia.
    clear - Hi Hm Hd Hn E. Z.to_euclidean_division_equations; lia.
Qed.

(** Two instants with the same rendering are the same. *)
Lemma rfc3339nano_inj t u :
  renderable t → renderable u → rfc3339nano t = rfc3339nano u → t = u.
Proof.
  assert (∀ t, renderable t → 0 ≤ t / 1000000000 / 86400 < 3652059) as Hday.
  { intros v [? ?]. rewrite Z.div_div by lia.
    split; [apply Z.div_pos|apply Z.div_lt_upper_bound]; lia. }
  intros Ht Hu H. unfold rfc3339nano in H.
  destruct (civil_of_days (t / _ / _)) as [[y m] d] eqn:Ec,
    (civil_of_days (u / _ / _)) as [[y' m'] d'] eqn:Ec'.
  pose proof (year_bounds _ _ _ _ (Hday _ Ht) Ec). pose proof (year_bounds _ _ _ _ (Hday _ Hu) Ec').
  pose proof (civil_of_days_fields _ _ _ _ Ec) as (Hi & ? & ? & _).
  pose proof (civil_of_days_fields _ _ _ _ Ec') as (Hi' & ? & ? & _).
  unfold year_string in H.
  rewrite (proj2 (Z.ltb_ge y 0)), (proj2 (Z.ltb_ge y' 0)),
    (proj2 (Z.ltb_lt y 10000)), (proj2 (Z.ltb_lt y' 10000)) in H by lia.
  assert (∀ a, 0 ≤ a mod 86400 / 3600 < 10 ^ Z.of_nat 2) as Hh.
  { intros a. pose proof (Z.mod_pos_bound a 86400). change (10 ^ Z.of_nat 2) with 100.
    split; [apply Z.div_pos|apply Z.div_lt_upper_bound]; lia. }
  assert (∀ a, 0 ≤ a mod 60 < 10 ^ Z.of_nat 2) as Hm.
  { intros a. pose proof (Z.mod_pos_bound a 60). change (10 ^ Z.of_nat 2) with 100. lia. }
  assert (∀ (c : Ascii.ascii) (a b : string), (String c "" +:+ a)%string = (String c "" +:+ b)%string → a = b) as Hc
    by (intros c a b Hab; by injection Hab).
  apply digits_app_inj in H as [Ey H]; [|cbn; lia..]. apply Hc in H.
  apply digits_app_inj in H as [Em H]; [|cbn; lia..]. apply Hc in H.
  apply digits_app_inj in H as [Ed H]; [|cbn; lia..]. apply Hc in H.
  apply digits_app_inj in H as [Eh H]; [|apply Hh..]. apply Hc in H.
  apply digits_app_inj in H as [En H]; [|apply Hm..]. apply Hc in H.
  apply digits_app_inj in H as [Es H]; [|apply Hm..].
  assert (fraction (t mod 1000000000) = fraction (u mod 1000000000)) as Hf.
  { apply bytes_of_inj. apply (f_equal bytes_of) in H. rewrite !bytes_of_app in H.
    by apply app_inj_2 in H as [? _]. }
  apply fraction_inj in Hf; [|apply Z.mod_pos_bound; lia..].
  assert (t / 1000000000 / 86400 = u / 1000000000 / 86400) by congruence.
  Z.to_euclidean_division_equations; lia.
Qed.

End TimeFormat.
