(* ===== verification/SigningIntent.v ===== *)
(** The typed transaction intent that crosses the signing boundary
    (src/apps/api/internal/signing/intent.go): operations and their argument
    shapes, the intent record, and the structural validation every intent
    passes before any deployment policy is consulted. *)
From S2P Require Import Prelude.

Module Intent.

(** *** Operations and shapes *)

Definition OpPause : string := "pause".
Definition OpUnpause : string := "unpause".
Definition OpRebalance : string := "rebalance".
Definition OpSetWeights : string := "set_weights".
Definition OpDeposit : string := "deposit".
Definition OpWithdraw : string := "withdraw".
Definition OpHarvest : string := "harvest".
Definition OpEmergencyWithdrawAll : string := "emergency_withdraw_all".

Definition ShapeVoid : string := "void".
Definition ShapeI128Pair : string := "i128_pair".
Definition ShapeAddressBool : string := "address_bool".
Definition ShapeWeights : string := "weights".

Definition operationShapes : list (string * string) :=
  [(OpPause, ShapeVoid); (OpUnpause, ShapeVoid); (OpRebalance, ShapeVoid);
   (OpEmergencyWithdrawAll, ShapeVoid); (OpSetWeights, ShapeWeights);
   (OpDeposit, ShapeI128Pair); (OpWithdraw, ShapeI128Pair);
   (OpHarvest, ShapeAddressBool)].

(** Map lookup [operationShapes[op]] with its [ok] flag. *)
Definition ShapeFor (op : string) : option string :=
  snd <$> List.find (λ e, e.1 =s? op) operationShapes.

(** [ops[j] < ops[j-1]] compares byte strings lexicographically. *)
Definition op_ltb (a b : string) : bool :=
  match String.compare a b with Lt => true | _ => false end.

(** The insertion sort of [KnownOperations]: [sift_left] is the inner loop,
    which moves the new element left while it is smaller; it works on the
    sorted prefix stored from right to left. *)
Fixpoint sift_left (x : string) (sorted_rev : list string) : list string :=
  match sorted_rev with
  | y :: ys => if op_ltb x y then y :: sift_left x ys else x :: y :: ys
  | [] => [x]
  end.

Definition KnownOperations (iteration_order : list string) : list string :=
  rev (foldl (λ acc op, sift_left op acc) [] iteration_order).

(** *** The intent *)

Record WeightEntry := mkWeight { Protocol : string; WeightBps : Z }.

Record Intent := mkIntent {
  ID : string;
  Operation : string;
  Shape : string;
  ContractAddress : string;
  NetworkPassphrase : string;
  Arg0 : Z;
  Arg1 : Z;
  Address : string;
  Flag : bool;
  Weights : list WeightEntry;
  IssuedAt : Time;
  RequestID : string;
}.

#[global] Instance WeightEntry_eq_dec : EqDecision WeightEntry.
Proof. solve_decision. Defined.
#[global] Instance Intent_eq_dec : EqDecision Intent.
Proof. solve_decision. Defined.

(** *** Rejections *)

Inductive Rejection :=
| RejectUnknownOperation
| RejectShapeMismatch
| RejectContractNotAllowed
| RejectNetworkMismatch
| RejectInvalidAddress
| RejectAmountOutOfPolicy
| RejectWeightsInvalid
| RejectIntentExpired
| RejectIntentReplayed
| RejectMalformed
| RejectKillSwitchActive
| RejectUnauthorized.

#[global] Instance Rejection_eq_dec : EqDecision Rejection.
Proof. solve_decision. Defined.

(** [Reason] holds the format string of the message; its arguments, which
    only reach log lines, are not rendered. *)
Record PolicyError := mkPolicyError { Category : Rejection; Reason : string }.

#[global] Instance PolicyError_eq_dec : EqDecision PolicyError.
Proof. solve_decision. Defined.

Definition reject (cat : Rejection) (format : string) : option PolicyError :=
  Some (mkPolicyError cat format).

(** *** Structural validation *)

Definition strkeyLen : Z := 56.
Definition maxWeightEntries : Z := 32.
Definition totalWeightBps : Z := 10000.

Definition validateContractAddress (addr0 : string) : option PolicyError :=
  let addr := TrimSpace addr0 in
  if addr =s? "" then reject RejectMalformed "contract address is required"
  else if negb (HasPrefix addr "C") then
    reject RejectInvalidAddress "contract address must be a C-prefixed strkey"
  else if negb (str_len addr =? strkeyLen) then
    reject RejectInvalidAddress "contract address has an invalid length"
  else None.

Definition validateAccountAddress (addr0 : string) : option PolicyError :=
  let addr := TrimSpace addr0 in
  if addr =s? "" then reject RejectMalformed "account address is required"
  else if negb (HasPrefix addr "G") then
    reject RejectInvalidAddress "account address must be a G-prefixed strkey"
  else if negb (str_len addr =? strkeyLen) then
    reject RejectInvalidAddress "account address has an invalid length"
  else None.

(** The loop of [validateWeights]; [seen] is the set of trimmed names and
    [total] the running [int64] sum. *)
Fixpoint validateWeights_loop (seen : gset string) (total : Z) (ws : list WeightEntry)
  : option PolicyError :=
  match ws with
  | [] =>
      if negb (total =? totalWeightBps) then
        reject RejectWeightsInvalid "weights sum to %d bps, must sum to exactly %d"
      else None
  | w :: ws' =>
      let name := TrimSpace (Protocol w) in
      if name =s? "" then
        reject RejectWeightsInvalid "weight entry %d has an empty protocol"
      else if 64 <? str_len name then
        reject RejectWeightsInvalid "weight entry %d protocol name is too long"
      else if bool_decide (name ∈ seen) then
        reject RejectWeightsInvalid "weight entry %d duplicates protocol %q"
      else if (WeightBps w <? 0) || (totalWeightBps <? WeightBps w) then
        reject RejectWeightsInvalid "weight entry %d is %d bps, must be within 0..%d"
      else validateWeights_loop ({[name]} ∪ seen) (i64 (total + WeightBps w)) ws'
  end.

Definition validateWeights (weights : list WeightEntry) : option PolicyError :=
  if Z.of_nat (length weights) =? 0 then
    reject RejectWeightsInvalid "weight vector must not be empty"
  else if maxWeightEntries <? Z.of_nat (length weights) then
    reject RejectWeightsInvalid "weight vector has %d entries, limit is %d"
  else validateWeights_loop ∅ 0 weights.

(** The [switch shape] of [Validate]: the arguments each shape admits. *)
Definition validateShape (shape : string) (i : Intent) : option PolicyError :=
  let hasWeights := 0 <? Z.of_nat (length (Weights i)) in
  if shape =s? ShapeVoid then
    if negb (Arg0 i =? 0) || negb (Arg1 i =? 0) || negb (Address i =s? "") || hasWeights
    then reject RejectShapeMismatch
           "operation %q takes no arguments but the intent carries some"
    else None
  else if shape =s? ShapeI128Pair then
    if negb (Address i =s? "") || hasWeights then
      reject RejectShapeMismatch "operation %q takes only two integer arguments"
    else if Arg0 i <=? 0 then
      reject RejectAmountOutOfPolicy "operation %q requires a positive amount, got %d"
    else if Arg1 i <? 0 then
      reject RejectAmountOutOfPolicy
        "operation %q slippage guard must not be negative, got %d"
    else None
  else if shape =s? ShapeAddressBool then
    if negb (Arg0 i =? 0) || negb (Arg1 i =? 0) || hasWeights then
      reject RejectShapeMismatch "operation %q takes an address and a boolean only"
    else validateAccountAddress (Address i)
  else if shape =s? ShapeWeights then
    if negb (Arg0 i =? 0) || negb (Arg1 i =? 0) || negb (Address i =s? "") then
      reject RejectShapeMismatch "operation %q takes a weight vector only"
    else validateWeights (Weights i)
  else None.

Definition Validate (i : Intent) : option PolicyError :=
  if TrimSpace (ID i) =s? "" then reject RejectMalformed "intent id is required"
  else match ShapeFor (Operation i) with
  | None => reject RejectUnknownOperation "operation %q is not signable"
  | Some shape =>
      if negb (Shape i =s? shape) then
        reject RejectShapeMismatch
          "operation %q requires shape %q but intent declared %q"
      else match validateContractAddress (ContractAddress i) with
      | Some err => Some err
      | None =>
          if TrimSpace (NetworkPassphrase i) =s? "" then
            reject RejectMalformed "network passphrase is required"
          else if time_is_zero (IssuedAt i) then
            reject RejectMalformed "issued_at is required"
          else validateShape shape i
      end
  end.

(** *** Declarative specification *)

Definition strkey_ok (prefix addr : string) : Prop :=
  let a := TrimSpace addr in
  a ≠ "" ∧ HasPrefix a prefix = true ∧ str_len a = strkeyLen.

(** An allocation vector the signer may sign: non-empty, bounded, distinct
    non-empty names, every weight a share of 10000 and the shares adding up to
    exactly 10000. *)
Definition weights_ok (ws : list WeightEntry) : Prop :=
  ws ≠ [] ∧ Z.of_nat (length ws) ≤ maxWeightEntries ∧
  Forall (λ w, TrimSpace (Protocol w) ≠ "" ∧ str_len (TrimSpace (Protocol w)) ≤ 64
               ∧ 0 ≤ WeightBps w ≤ totalWeightBps) ws ∧
  NoDup (map (λ w, TrimSpace (Protocol w)) ws) ∧
  sum_Z (map WeightBps ws) = totalWeightBps.

(** The arguments of a well-formed intent, by the operation it names. *)
Definition args_ok (i : Intent) : Prop :=
  (Operation i ∈ [OpPause; OpUnpause; OpRebalance; OpEmergencyWithdrawAll] ∧
     Shape i = ShapeVoid ∧ Arg0 i = 0 ∧ Arg1 i = 0 ∧ Address i = "" ∧ Weights i = [])
  ∨ (Operation i ∈ [OpDeposit; OpWithdraw] ∧
     Shape i = ShapeI128Pair ∧ 0 < Arg0 i ∧ 0 ≤ Arg1 i ∧ Address i = "" ∧ Weights i = [])
  ∨ (Operation i = OpHarvest ∧
     Shape i = ShapeAddressBool ∧ Arg0 i = 0 ∧ Arg1 i = 0 ∧ Weights i = []
     ∧ strkey_ok "G" (Address i))
  ∨ (Operation i = OpSetWeights ∧
     Shape i = ShapeWeights ∧ Arg0 i = 0 ∧ Arg1 i = 0 ∧ Address i = ""
     ∧ weights_ok (Weights i)).

Definition well_formed (i : Intent) : Prop :=
  TrimSpace (ID i) ≠ "" ∧ strkey_ok "C" (ContractAddress i) ∧
  TrimSpace (NetworkPassphrase i) ≠ "" ∧ IssuedAt i ≠ 0 ∧ args_ok i.

(** *** Lemmas *)

Lemma validateContractAddress_ok a : validateContractAddress a = None ↔ strkey_ok "C" a.
Proof. unfold validateContractAddress, reject; cbv zeta. by autorewrite with guards. Qed.

Lemma validateAccountAddress_ok a : validateAccountAddress a = None ↔ strkey_ok "G" a.
Proof. unfold validateAccountAddress, reject; cbv zeta. by autorewrite with guards. Qed.

Lemma validateWeights_loop_ok ws : ∀ seen total,
  0 ≤ total → total + Z.of_nat (length ws) * totalWeightBps ≤ max_i64 →
  validateWeights_loop seen total ws = None ↔
  Forall (λ w, TrimSpace (Protocol w) ≠ "" ∧ str_len (TrimSpace (Protocol w)) ≤ 64
               ∧ 0 ≤ WeightBps w ≤ totalWeightBps) ws ∧
  NoDup (map (λ w, TrimSpace (Protocol w)) ws) ∧
  Forall (λ w, TrimSpace (Protocol w) ∉ seen) ws ∧
  total + sum_Z (map WeightBps ws) = totalWeightBps.
Proof.
  induction ws as [|w ws IH]; intros seen total H0 Hmax.
  - simpl. rewrite NoDup_nil, !Forall_nil. split_ifs; reflect_bools; iff_chain.
  - cbn [validateWeights_loop]. cbv zeta. rewrite !Forall_cons. cbn [map].
    rewrite NoDup_cons.
    destruct (TrimSpace (Protocol w) =s? "") eqn:E1; [reflect_bools; iff_chain|].
    destruct (64 <? str_len (TrimSpace (Protocol w))) eqn:E2; [reflect_bools; iff_chain|].
    case_bool_decide as E3; [naive_solver|].
    destruct ((WeightBps w <? 0) || (totalWeightBps <? WeightBps w)) eqn:E4.
    { reflect_bools. destruct E4; reflect_bools; iff_chain. }
    reflect_bools. cbn [length] in Hmax. unfold totalWeightBps in *.
    assert (in_i64 (total + WeightBps w)) by (unfold in_i64, min_i64, max_i64 in *; lia).
    rewrite i64_id by done.
    rewrite IH by (unfold max_i64 in *; lia).
    cbn [sum_Z foldr map]. unfold sum_Z. rewrite list_elem_of_fmap, !Forall_forall.
    split; intros H'; destruct_and!; split_and!; try done; try lia; try set_solver.
Qed.

Lemma validateWeights_ok ws : validateWeights ws = None ↔ weights_ok ws.
Proof.
  unfold validateWeights, weights_ok, reject. autorewrite with guards.
  destruct (decide (Z.of_nat (length ws) ≤ maxWeightEntries)) as [Hl|Hl]; [|naive_solver].
  rewrite validateWeights_loop_ok, Z.add_0_l
    by (unfold totalWeightBps, maxWeightEntries, max_i64 in *; lia).
  split; intros; destruct_and!; split_and!; try done.
  apply Forall_true. set_solver.
Qed.

(** The operation table, one operation at a time. *)
Lemma ShapeFor_spec op shape :
  ShapeFor op = Some shape ↔
  (shape = ShapeVoid ∧ op ∈ [OpPause; OpUnpause; OpRebalance; OpEmergencyWithdrawAll])
  ∨ (shape = ShapeI128Pair ∧ op ∈ [OpDeposit; OpWithdraw])
  ∨ (shape = ShapeAddressBool ∧ op = OpHarvest)
  ∨ (shape = ShapeWeights ∧ op = OpSetWeights).
Proof.
  unfold ShapeFor, operationShapes. cbn [List.find fst snd].
  rewrite !elem_of_cons.
  repeat (match goal with |- context [?a =s? op] =>
    destruct (a =s? op) eqn:?; reflect_bools; subst end;
    [cbn; split;
      [intros [= <-]; naive_solver
      | intros H; repeat destruct H as [H|H]; destruct_and?; subst; try done;
        repeat match goal with H : _ ∨ _ |- _ => destruct H end; try done; set_solver]|]).
  cbn. split; [done|]. intros H. set_solver.
Qed.

(** Evaluate the comparisons of string constants in the goal. *)
Ltac eval_consts :=
  repeat match goal with |- context [?a =s? ?b] =>
    let v := eval vm_compute in (a =s? b) in
    match v with
    | true => change (a =s? b) with true
    | false => change (a =s? b) with false
    end
  end; cbv iota.

(** Refute the disjuncts of [args_ok] that name another shape. *)
Ltac other_shape :=
  intros [?|[?|[?|?]]]; destruct_and!;
  try match goal with A : Shape ?i = _, B : Shape ?i = _ |- _ =>
    rewrite A in B; discriminate B end.

Lemma validateShape_ok i shape :
  ShapeFor (Operation i) = Some shape → Shape i = shape →
  validateShape shape i = None ↔ args_ok i.
Proof.
  intros Hop <-. apply ShapeFor_spec in Hop. unfold validateShape, args_ok, reject. cbv zeta.
  destruct Hop as [[Es Ho]|[[Es Ho]|[[Es Ho]|[Es Ho]]]]; rewrite Es; eval_consts;
    autorewrite with guards;
    rewrite ?validateAccountAddress_ok, ?validateWeights_ok;
    (split; [intros; destruct_and!|rewrite <- Es; other_shape]); naive_solver.
Qed.

Lemma args_ok_shape i : args_ok i → ShapeFor (Operation i) = Some (Shape i).
Proof. intros Ha. apply ShapeFor_spec. unfold args_ok in Ha. naive_solver. Qed.

(** The integer-pair shape is the one of the value-moving operations. *)
Lemma args_ok_pair i :
  args_ok i →
  (Shape i = ShapeI128Pair ↔ Operation i ∈ [OpDeposit; OpWithdraw]) ∧
  (Shape i = ShapeI128Pair → 0 < Arg0 i).
Proof.
  intros Ha. pose proof (args_ok_shape i Ha) as Hs. split; [split|].
  - intros Es. rewrite Es in Hs. apply ShapeFor_spec in Hs. naive_solver.
  - intros Ho. assert (ShapeFor (Operation i) = Some ShapeI128Pair) as Ho'
      by (apply ShapeFor_spec; naive_solver). congruence.
  - intros Es. unfold args_ok in Ha. rewrite Es in Ha.
    destruct Ha as [?|[?|[?|?]]]; naive_solver.
Qed.

Lemma Validate_well_formed i : Validate i = None ↔ well_formed i.
Proof.
  unfold Validate, well_formed, reject. autorewrite with guards.
  destruct (ShapeFor (Operation i)) as [shape|] eqn:Hop.
  - autorewrite with guards.
    destruct (validateContractAddress (ContractAddress i)) eqn:Hc.
    + rewrite <- validateContractAddress_ok, Hc. naive_solver.
    + apply validateContractAddress_ok in Hc. autorewrite with guards.
      destruct (decide (Shape i = shape)) as [Hs|Hs].
      * rewrite (validateShape_ok i shape) by done. unfold time_is_zero.
        rewrite Z.eqb_neq. naive_solver.
      * split; [naive_solver|]. intros (_ & _ & _ & _ & Ha%args_ok_shape). congruence.
  - split; [naive_solver|]. intros (_ & _ & _ & _ & Ha%args_ok_shape). congruence.
Qed.

(** Structural validation accepts exactly the well-formed intents: a
    non-blank id and network, an issue time, a 56-character C-prefixed contract,
    and for the operation named exactly the arguments its shape admits: none for
    pause/unpause/rebalance/emergency_withdraw_all, a positive amount with a
    non-negative slippage guard for deposit and withdraw, a G-prefixed account
    for harvest, and for set_weights a duplicate-free vector of at most 32 shares
    that sums to exactly 10000 basis points. *)
Lemma Validate_accepts_exactly_well_formed i : Validate i = None ↔ well_formed i.
Proof. apply Validate_well_formed. Qed.

End Intent.
