(* ===== verification/SigningPolicy.v ===== *)
(** Deployment policy and replay protection of the signer
    (src/apps/api/internal/signing/policy.go), and the kill switch
    (src/apps/api/internal/signing/killswitch.go). *)
From S2P Require Import Prelude SigningIntent.
Import Intent.

Module Policy.

(** *** Policy *)

Record Policy := mkPolicy {
  PolicyNetwork : string;
  AllowedContracts : gset string;
  AllowedOperations : gset string;
  MaxAmountStroops : Z;
  MaxIntentAge : Duration;
  ClockSkew : Duration;
}.

Definition DefaultMaxIntentAge : Duration := 2 * Minute.
Definition DefaultClockSkew : Duration := 30 * Second.

Definition add_contract (acc : gset string) (c0 : string) : gset string :=
  let c := TrimSpace c0 in if negb (c =s? "") then {[c]} ∪ acc else acc.

Definition add_operation (acc : gset string) (op : string) : gset string :=
  match ShapeFor op with Some _ => {[op]} ∪ acc | None => acc end.

Definition NewPolicy (networkPassphrase : string) (contracts operations : list string)
    (maxAmountStroops : Z) (maxIntentAge clockSkew : Duration) : Policy :=
  {| PolicyNetwork := TrimSpace networkPassphrase;
     AllowedContracts := foldl add_contract ∅ contracts;
     AllowedOperations := foldl add_operation ∅ operations;
     MaxAmountStroops := maxAmountStroops;
     MaxIntentAge := if maxIntentAge <=? 0 then DefaultMaxIntentAge else maxIntentAge;
     ClockSkew := if clockSkew <=? 0 then DefaultClockSkew else clockSkew |}.

Definition Evaluate (p : Policy) (i : Intent) (now : Time) : option PolicyError :=
  let age := time_sub now (IssuedAt i) in
  if PolicyNetwork p =s? "" then
    reject RejectNetworkMismatch "signer has no configured network"
  else if negb (NetworkPassphrase i =s? PolicyNetwork p) then
    reject RejectNetworkMismatch "intent network does not match the signer network"
  else if bool_decide (size (AllowedOperations p) = 0%nat) then
    reject RejectUnknownOperation "signer permits no operations"
  else if negb (bool_decide (Operation i ∈ AllowedOperations p)) then
    reject RejectUnknownOperation "operation %q is not permitted by this signer"
  else if bool_decide (size (AllowedContracts p) = 0%nat) then
    reject RejectContractNotAllowed "signer permits no contracts"
  else if negb (bool_decide (TrimSpace (ContractAddress i) ∈ AllowedContracts p)) then
    reject RejectContractNotAllowed "contract address is not in the signer allowlist"
  else if (Shape i =s? ShapeI128Pair) && (0 <? MaxAmountStroops p)
          && (MaxAmountStroops p <? Arg0 i) then
    reject RejectAmountOutOfPolicy
      "amount %d exceeds the configured per-transaction limit of %d stroops"
  else if MaxIntentAge p <? age then
    reject RejectIntentExpired "intent is %s old, limit is %s"
  else if age <? i64 (- ClockSkew p) then
    reject RejectIntentExpired
      "intent issue time is %s in the future, beyond the %s skew tolerance"
  else None.

(** *** Replay guard *)

Record ReplayGuard := mkGuard {
  seen : gmap string Time;
  retention : Duration;
  lastSweep : Time;
}.

Definition sweepInterval : Duration := 30 * Second.

(** [lastSweep] starts as Go's zero time. *)
Definition NewReplayGuard (ret : Duration) : ReplayGuard :=
  {| seen := ∅;
     retention := if ret <=? 0 then i64 (DefaultMaxIntentAge + DefaultClockSkew) else ret;
     lastSweep := 0 |}.

Definition sweepLocked (g : ReplayGuard) (now : Time) : ReplayGuard :=
  if time_sub now (lastSweep g) <? sweepInterval then g
  else
    let cutoff := time_add now (i64 (- retention g)) in
    {| seen := filter (λ kv, time_before kv.2 cutoff = false) (seen g);
       retention := retention g;
       lastSweep := now |}.

Definition Observe (g : ReplayGuard) (id : string) (now : Time)
  : ReplayGuard * option PolicyError :=
  let g1 := sweepLocked g now in
  match seen g1 !! id with
  | Some _ => (g1, reject RejectIntentReplayed "intent id has already been signed")
  | None => ({| seen := <[id := now]> (seen g1);
                retention := retention g1; lastSweep := lastSweep g1 |}, None)
  end.

Definition Size (g : ReplayGuard) : nat := size (seen g).

(** *** Kill switch *)

(** What [os.Stat] reports about the sentinel file. *)
Inductive Sentinel :=
| Absent
| Present (body : string)
| Unreadable.

Inductive State := StateEnabled | StateDisabled | StateUnknown.

#[global] Instance State_eq_dec : EqDecision State.
Proof. solve_decision. Defined.

Record KillSwitch := mkKillSwitch {
  path : string;
  lastState : option State;
  lastReason : string;
  checkedAt : Time;
}.

Inductive SwitchError :=
| ErrPathRequired
| ErrDirUnreachable
| ErrParentNotDir
| ErrSigningDisabled (st : State)
| ErrCtx
| ErrEngage
| ErrWriteReason
| ErrRelease.

(** The parent directory as [os.Stat] sees it. *)
Inductive DirStat := DirMissing | DirIsFile | DirOk.

Definition NewKillSwitch (path0 : string) (dir : DirStat) : result SwitchError KillSwitch :=
  let p := TrimSpace path0 in
  if p =s? "" then Err ErrPathRequired
  else match dir with
  | DirMissing => Err ErrDirUnreachable
  | DirIsFile => Err ErrParentNotDir
  | DirOk => Ok (mkKillSwitch p None "" 0)
  end.

Definition evaluate (fs : Sentinel) : State * string :=
  match fs with
  | Present _ => (StateDisabled, "sentinel file present")
  | Absent => (StateEnabled, "sentinel file absent")
  | Unreadable => (StateUnknown, "sentinel file could not be read: %v")
  end.

(** [Check] with the filesystem state [fs] and wall clock [now]. *)
Definition KillSwitch_Check (k : KillSwitch) (fs : Sentinel) (now : Time)
  : KillSwitch * (State * option SwitchError) :=
  let '(state, reason) := evaluate fs in
  let k' := mkKillSwitch (path k) (Some state) reason now in
  (k', match state with
       | StateEnabled => (state, None)
       | StateDisabled => (state, Some (ErrSigningDisabled StateDisabled))
       | StateUnknown => (StateUnknown, Some (ErrSigningDisabled StateUnknown))
       end).

Definition Status (k : KillSwitch) : option State * string * Time :=
  (lastState k, lastReason k, checkedAt k).

(** [strings.ReplaceAll s old " "] for a one-byte [old]. *)
Definition replace_byte (old : Ascii.ascii) (s : string) : string :=
  of_bytes (map (λ c, if decide (c = old) then byte 32 else c) (bytes_of s)).

Definition maxReasonLen : nat := 256.

Definition sanitizeReason (reason0 : string) : string :=
  let reason := TrimSpace reason0 in
  if reason =s? "" then "unspecified"
  else
    let reason := replace_byte (byte 10) reason in
    let reason := replace_byte (byte 13) reason in
    if Z.of_nat maxReasonLen <? str_len reason
    then of_bytes (take maxReasonLen (bytes_of reason)) else reason.

Definition newline : string := of_bytes [byte 10].

(** [Engage]: [ctxDone] is a cancelled context, [openOk] the outcome of opening
    the file (which creates and truncates it), [writeErr] what had been written
    when the write failed, if it did; [stamp] is the formatted time. *)
Definition Engage (ctxDone openOk : bool) (writeErr : option string) (stamp reason : string)
    (fs : Sentinel) : Sentinel * option SwitchError :=
  if ctxDone then (fs, Some ErrCtx)
  else if negb openOk then (fs, Some ErrEngage)
  else match writeErr with
  | Some partial => (Present partial, Some ErrWriteReason)
  | None => (Present ("disabled_at=" +:+ stamp +:+ newline +:+ "reason="
                 +:+ sanitizeReason reason +:+ newline)%string, None)
  end.

(** [Release]: [removeOk] is the outcome of [os.Remove] on an existing file;
    removing an absent file is not an error. *)
Definition Release (ctxDone removeOk : bool) (fs : Sentinel) : Sentinel * option SwitchError :=
  if ctxDone then (fs, Some ErrCtx)
  else match fs with
  | Absent => (Absent, None)
  | _ => if removeOk then (Absent, None) else (fs, Some ErrRelease)
  end.

(** *** Lemmas *)

Lemma add_contract_elem cs : ∀ acc c,
  c ∈ foldl add_contract acc cs ↔ c ∈ acc ∨ (c ≠ "" ∧ ∃ c0, c0 ∈ cs ∧ TrimSpace c0 = c).
Proof.
  induction cs as [|c0 cs IH]; intros acc c; simpl; [set_solver|].
  rewrite IH. unfold add_contract; cbv zeta. setoid_rewrite elem_of_cons.
  destruct (TrimSpace c0 =s? "") eqn:E; reflect_bools; simpl; set_solver.
Qed.

Lemma add_operation_elem ops : ∀ acc op,
  op ∈ foldl add_operation acc ops ↔ op ∈ acc ∨ (op ∈ ops ∧ is_Some (ShapeFor op)).
Proof.
  induction ops as [|o ops IH]; intros acc op; simpl; [set_solver|].
  rewrite IH. unfold add_operation. setoid_rewrite elem_of_cons.
  destruct (ShapeFor o) eqn:E; [set_solver|].
  split; [set_solver|]. intros [?|[[->|?] [? ?]]]; [set_solver|congruence|].
  right. naive_solver.
Qed.

Lemma nonempty_size (X : gset string) x : x ∈ X → size X ≠ 0%nat.
Proof. intros Hx Hs. apply size_empty_inv in Hs. set_solver. Qed.

(** [Evaluate] as a conjunction of its tests. *)
Lemma Evaluate_spec p i now :
  Evaluate p i now = None ↔
  PolicyNetwork p ≠ "" ∧ NetworkPassphrase i = PolicyNetwork p ∧
  Operation i ∈ AllowedOperations p ∧ TrimSpace (ContractAddress i) ∈ AllowedContracts p ∧
  (Shape i = ShapeI128Pair → 0 < MaxAmountStroops p → Arg0 i ≤ MaxAmountStroops p) ∧
  time_sub now (IssuedAt i) ≤ MaxIntentAge p ∧
  i64 (- ClockSkew p) ≤ time_sub now (IssuedAt i).
Proof.
  unfold Evaluate, reject; cbv zeta. autorewrite with guards.
  rewrite !bool_decide_eq_true, !andb_false_iff, Z.ltb_ge, Z.ltb_ge, string_eqb_neq.
  split; intros; destruct_and!; split_and!; try done; eauto using nonempty_size.
  - naive_solver lia.
  - destruct (decide (Shape i = ShapeI128Pair)); [|tauto].
    destruct (decide (0 < MaxAmountStroops p)); [|left; right; lia]. right. auto.
Qed.

Lemma bytes_of_bytes l : bytes_of (of_bytes l) = l.
Proof. apply String.list_ascii_of_string_of_list_ascii. Qed.

Lemma replace_byte_spec old s c :
  c ∈ bytes_of (replace_byte old s) → c = byte 32 ∨ (c ≠ old ∧ c ∈ bytes_of s).
Proof.
  unfold replace_byte. rewrite bytes_of_bytes, list_elem_of_fmap.
  intros (c0 & -> & Hc). case_decide; naive_solver.
Qed.

Lemma sanitizeReason_bytes r c :
  c ∈ bytes_of (sanitizeReason r) → c ≠ byte 10 ∧ c ≠ byte 13.
Proof.
  unfold sanitizeReason; cbv zeta. case_match eqn:E.
  { intros Hc. change (bytes_of "unspecified") with
      (map byte [117; 110; 115; 112; 101; 99; 105; 102; 105; 101; 100]%nat) in Hc.
    simpl in Hc. set_unfold. destruct_or!; subst; done. }
  assert (Hr : ∀ c, c ∈ bytes_of (replace_byte (byte 13) (replace_byte (byte 10) (TrimSpace r)))
                    → c ≠ byte 10 ∧ c ≠ byte 13).
  { intros c' [->|[Hne Hc']]%replace_byte_spec; [done|].
    apply replace_byte_spec in Hc' as [->|[? ?]]; done. }
  case_match; [|apply Hr]. rewrite bytes_of_bytes. intros Hc.
  apply Hr. apply elem_of_take in Hc as (j & Hj & _). by eapply list_elem_of_lookup_2.
Qed.

(** [sweepLocked] forgets only entries older than the retention. *)
Lemma sweep_keeps g now id t :
  seen g !! id = Some t → in_i64 (- retention g) → now - retention g ≤ t →
  seen (sweepLocked g now) !! id = Some t.
Proof.
  intros Hg Hr Ht. unfold sweepLocked. case_match; [done|]. cbn.
  apply map_lookup_filter_Some. split; [done|]. cbn.
  unfold time_before, time_add. rewrite i64_id by done. apply Z.ltb_ge. lia.
Qed.

Lemma sweep_subset g now id t :
  seen (sweepLocked g now) !! id = Some t → seen g !! id = Some t.
Proof.
  unfold sweepLocked. case_match; [done|]. cbn. intros H'.
  by apply map_lookup_filter_Some in H' as [? _].
Qed.

Lemma Observe_retention g id now : retention (Observe g id now).1 = retention g.
Proof. unfold Observe, sweepLocked. repeat case_match; done. Qed.

(** A remembered id stays remembered through every observation made before it
    is past the retention, whichever id is observed. *)
Lemma Observe_keeps g id id' now t :
  seen g !! id = Some t → in_i64 (- retention g) → now - retention g ≤ t →
  seen (Observe g id' now).1 !! id = Some t.
Proof.
  intros Hg Hr Ht. pose proof (sweep_keeps g now id t Hg Hr Ht) as Hs.
  unfold Observe. case_match eqn:E; [done|]. cbn.
  rewrite lookup_insert_ne; [done|]. intros ->. congruence.
Qed.

Lemma Observe_accepts g id now :
  (Observe g id now).2 = None → seen (Observe g id now).1 !! id = Some now.
Proof.
  unfold Observe, reject. case_match; cbn; [done|]. by rewrite lookup_insert_eq.
Qed.

Lemma Observe_rejects_seen g id now t :
  seen g !! id = Some t → in_i64 (- retention g) → now - retention g ≤ t →
  (Observe g id now).2 ≠ None.
Proof.
  intros Hg Hr Ht. unfold Observe, reject. by rewrite (sweep_keeps g now id t).
Qed.

(** *** Claims *)

(** A signer configured by [NewPolicy] authorises exactly the intents for
    its own (non-blank) network, one of the listed operations it knows how to
    build, a contract on the trimmed non-blank allowlist, an amount within the
    per-transaction limit when one is set, and an issue time no older than the
    validity window and no further in the future than the tolerated skew, with
    the defaults in place of non-positive windows. In particular empty lists
    authorise nothing. *)
Lemma Evaluate_authorises_exactly network contracts operations maxAmount age skew i now :
  age < max_i64 → skew ≤ max_i64 →
  let age' := if age <=? 0 then DefaultMaxIntentAge else age in
  let skew' := if skew <=? 0 then DefaultClockSkew else skew in
  Evaluate (NewPolicy network contracts operations maxAmount age skew) i now = None ↔
  TrimSpace network ≠ "" ∧ NetworkPassphrase i = TrimSpace network ∧
  Operation i ∈ operations ∧ is_Some (ShapeFor (Operation i)) ∧
  TrimSpace (ContractAddress i) ≠ "" ∧
  (∃ c, c ∈ contracts ∧ TrimSpace c = TrimSpace (ContractAddress i)) ∧
  (Shape i = ShapeI128Pair → 0 < maxAmount → Arg0 i ≤ maxAmount) ∧
  IssuedAt i - skew' ≤ now ≤ IssuedAt i + age'.
Proof.
  intros Hage Hskew age' skew'. rewrite Evaluate_spec. cbn -[add_contract add_operation].
  rewrite add_contract_elem, add_operation_elem.
  fold age' skew'.
  assert (0 < age' < max_i64) as Ha.
  { subst age'. case_match; guard_done. }
  assert (0 < skew' ≤ max_i64) as Hs.
  { subst skew'. case_match; guard_done. }
  rewrite i64_id by (unfold in_i64, min_i64, max_i64 in *; lia).
  assert (time_sub now (IssuedAt i) ≤ age' ↔ now ≤ IssuedAt i + age') as ->
    by (unfold time_sub, min_i64, max_i64 in *; lia).
  assert (- skew' ≤ time_sub now (IssuedAt i) ↔ IssuedAt i - skew' ≤ now) as ->
    by (unfold time_sub, min_i64, max_i64 in *; lia).
  set_solver.
Qed.

Definition sample_contract : string := String.concat "" ("C" :: replicate 55 "A").
Definition sample_intent : Intent :=
  mkIntent "intent-1" OpDeposit ShapeI128Pair sample_contract "testnet"
    500 0 "" false [] (3 * Hour) "req-1".

Lemma Evaluate_authorises_exactly_witness :
  Evaluate (NewPolicy "testnet" [sample_contract] [OpDeposit] 1000 0 0) sample_intent
    (3 * Hour) = None.
Proof.
  apply (Evaluate_authorises_exactly "testnet" [sample_contract] [OpDeposit] 1000 0 0
           sample_intent (3 * Hour)); [done|done|].
  split_and!; try (vm_compute; done); try (vm_compute; set_solver).
Defined.

(** Once [Engage] has opened the sentinel file, the switch refuses every
    later check until [Release] removes the file, even when writing the reason
    failed; a sentinel that cannot be read is refused as well; and the reason an
    operator supplies cannot add a line to the file, because the sanitised text
    has no carriage return or line feed. *)
Lemma kill_switch_fails_closed writeErr stamp reason fs k now :
  let fs' := (Engage false true writeErr stamp reason fs).1 in
  (KillSwitch_Check k fs' now).2 = (StateDisabled, Some (ErrSigningDisabled StateDisabled)) ∧
  (KillSwitch_Check k Unreadable now).2 = (StateUnknown, Some (ErrSigningDisabled StateUnknown)) ∧
  (∀ fs0, (KillSwitch_Check k fs0 now).2.2 = None ↔ fs0 = Absent) ∧
  (∀ removeOk, (Release false removeOk fs').1 = Absent ↔ removeOk = true) ∧
  (∀ c, c ∈ bytes_of (sanitizeReason reason) → c ≠ byte 10 ∧ c ≠ byte 13).
Proof.
  cbv zeta. split_and!.
  - unfold Engage. cbn. by destruct writeErr.
  - done.
  - intros []; naive_solver.
  - intros []; unfold Engage; cbn; destruct writeErr; naive_solver.
  - apply sanitizeReason_bytes.
Qed.

End Policy.
