(* ===== verification/SigningAudit.v ===== *)
(** The signer's audit record (src/apps/api/internal/signing/audit.go): the
    commitment to the evaluated intent, the event, and the outcome counters. *)
From S2P Require Import Prelude TimeFormat SigningIntent.
Import Intent TimeFormat.

Module Audit.

(** *** Network label *)

Definition NetworkLabel (passphrase : string) : string :=
  let p := TrimSpace passphrase in
  if p =s? "Public Global Stellar Network ; September 2015" then "pubnet"
  else if p =s? "Test SDF Network ; September 2015" then "testnet"
  else if p =s? "Test SDF Future Network ; October 2022" then "futurenet"
  else if p =s? "" then "unset"
  else "custom".

(** *** The commitment *)

Definition US : Ascii.ascii := byte 31.
Definition RS : Ascii.ascii := byte 30.

Definition writeField (tag field : string) : string :=
  (tag +:+ String US field +:+ String RS "")%string.

Definition concat_fields (fs : list (string * string)) : string :=
  foldr (λ f acc, (writeField f.1 f.2 +:+ acc)%string) ""%string fs.

(** The tag-value pairs written to the hash, in order. *)
Definition intent_fields (i : Intent) : list (string * string) :=
  [("id", ID i); ("op", Operation i); ("shape", Shape i);
   ("contract", ContractAddress i); ("network", NetworkLabel (NetworkPassphrase i));
   ("arg0", itoa (Arg0 i)); ("arg1", itoa (Arg1 i)); ("address", Address i);
   ("flag", if Flag i then "true" else "false")]
  ++ map (λ w, (("w:" +:+ Protocol w)%string, itoa (WeightBps w))) (Weights i)
  ++ [("issued_at", rfc3339nano (IssuedAt i))].

(** [HashIntent]: the hex SHA-256 of the written bytes. *)
Definition HashIntent (sha256_hex : string → string) (i : Intent) : string :=
  sha256_hex (concat_fields (intent_fields i)).

(** *** Events *)

Inductive Outcome :=
| OutcomeSigned | OutcomeRejected | OutcomeUnauthorized | OutcomeDisabled | OutcomeError.

#[global] Instance Outcome_eq_dec : EqDecision Outcome.
Proof. solve_decision. Defined.

Record Event := mkEvent {
  EvIntentID : string;
  EvRequestID : string;
  EvCaller : string;
  EvOperation : string;
  EvContract : string;
  EvKeyID : string;
  EvIntentHash : string;
  EvOutcome : Outcome;
  EvRejection : option Rejection;
  EvLatencyMS : Z;
  EvOccurredAt : Time;
}.

(** *** Counters *)

Record Counters := mkCounters {
  requests : gmap string Z;
  signed : gmap string Z;
  rejected : gmap string Z;
  unauthorized : Z;
  disabled : Z;
  errors : Z;
  latencyTotal : Duration;
  latencyCount : Z;
  latencyMax : Duration;
}.

Definition NewCounters : Counters := mkCounters ∅ ∅ ∅ 0 0 0 0 0 0.

(** [m[k]++] on a map of [int64]: an absent key counts from zero. *)
Definition incr_map (m : gmap string Z) (k : string) : gmap string Z :=
  <[k := i64 (default 0 (m !! k) + 1)]> m.

(** The string value of each rejection category, the key of its counter. *)
Definition rejection_string (r : Rejection) : string :=
  match r with
  | RejectUnknownOperation => "unknown_operation"
  | RejectShapeMismatch => "shape_mismatch"
  | RejectContractNotAllowed => "contract_not_allowed"
  | RejectNetworkMismatch => "network_mismatch"
  | RejectInvalidAddress => "invalid_address"
  | RejectAmountOutOfPolicy => "amount_out_of_policy"
  | RejectWeightsInvalid => "weights_invalid"
  | RejectIntentExpired => "intent_expired"
  | RejectIntentReplayed => "intent_replayed"
  | RejectMalformed => "malformed"
  | RejectKillSwitchActive => "kill_switch_active"
  | RejectUnauthorized => "unauthorized"
  end.

Definition observeLatencyLocked (c : Counters) (latency : Duration) : Counters :=
  mkCounters (requests c) (signed c) (rejected c) (unauthorized c) (disabled c) (errors c)
    (i64 (latencyTotal c + latency)) (i64 (latencyCount c + 1))
    (if latencyMax c <? latency then latency else latencyMax c).

Definition ObserveRequest (c : Counters) (op : string) : Counters :=
  mkCounters (incr_map (requests c) op) (signed c) (rejected c) (unauthorized c) (disabled c)
    (errors c) (latencyTotal c) (latencyCount c) (latencyMax c).

Definition ObserveSigned (c : Counters) (op : string) (latency : Duration) : Counters :=
  observeLatencyLocked
    (mkCounters (requests c) (incr_map (signed c) op) (rejected c) (unauthorized c) (disabled c)
       (errors c) (latencyTotal c) (latencyCount c) (latencyMax c)) latency.

Definition ObserveRejected (c : Counters) (cat : Rejection) (latency : Duration) : Counters :=
  observeLatencyLocked
    (mkCounters (requests c) (signed c) (incr_map (rejected c) (rejection_string cat)) (unauthorized c)
       (disabled c) (errors c) (latencyTotal c) (latencyCount c) (latencyMax c)) latency.

Definition ObserveUnauthorized (c : Counters) : Counters :=
  mkCounters (requests c) (signed c) (rejected c) (i64 (unauthorized c + 1)) (disabled c)
    (errors c) (latencyTotal c) (latencyCount c) (latencyMax c).

Definition ObserveDisabled (c : Counters) : Counters :=
  mkCounters (requests c) (signed c) (rejected c) (unauthorized c) (i64 (disabled c + 1))
    (errors c) (latencyTotal c) (latencyCount c) (latencyMax c).

Definition ObserveError (c : Counters) : Counters :=
  mkCounters (requests c) (signed c) (rejected c) (unauthorized c) (disabled c)
    (i64 (errors c + 1)) (latencyTotal c) (latencyCount c) (latencyMax c).

(** [Snapshot]: copies of the maps, and the mean latency when there is a
    sample. *)
Record CounterSnapshot := mkCounterSnapshot {
  SnapCounters : Counters;
  MeanLatency : Duration;
}.

Definition Counters_Snapshot (c : Counters) : CounterSnapshot :=
  mkCounterSnapshot c
    (if 0 <? latencyCount c then i64 (Z.quot (latencyTotal c) (latencyCount c)) else 0).

(** *** Separator-free text *)

(** No byte of [s] is one of the two separators of [writeField]. *)
Definition sep_free (s : string) : Prop :=
  Forall (λ c, c ≠ US ∧ c ≠ RS) (bytes_of s).

#[global] Instance sep_free_dec s : Decision (sep_free s).
Proof. unfold sep_free. apply _. Defined.

Lemma sep_free_app a b : sep_free (a +:+ b)%string ↔ sep_free a ∧ sep_free b.
Proof. unfold sep_free. rewrite bytes_of_app. apply Forall_app. Qed.

Lemma plain_sep_free s : plain_text s → sep_free s.
Proof.
  intros H. apply Forall_forall. intros c Hc.
  split; intros ->; revert Hc; by apply plain_not_in.
Qed.

Lemma sep_free_pretty (z : Z) : sep_free (pretty z).
Proof. apply plain_sep_free, plain_pretty. Qed.

Lemma sep_free_rfc3339nano t : sep_free (rfc3339nano t).
Proof. apply plain_sep_free, plain_rfc3339nano. Qed.

(** *** The encoding can be read back when no field contains a separator *)

Lemma sep_free_not_in s c : sep_free s → c = US ∨ c = RS → c ∉ bytes_of s.
Proof. unfold sep_free. rewrite Forall_forall. intros H Hc Hin. apply H in Hin. naive_solver. Qed.

Lemma concat_fields_inj fs : ∀ gs,
  Forall (λ f, sep_free f.1 ∧ sep_free f.2) fs →
  Forall (λ f, sep_free f.1 ∧ sep_free f.2) gs →
  concat_fields fs = concat_fields gs → fs = gs.
Proof.
  assert (∀ f rest, bytes_of (concat_fields (f :: rest)) =
    bytes_of f.1 ++ US :: (bytes_of f.2 ++ RS :: bytes_of (concat_fields rest))) as Hb.
  { intros f rest. cbn [concat_fields foldr]. unfold writeField.
    rewrite !bytes_of_app. change (bytes_of (String US ?x)) with (US :: bytes_of x).
    rewrite <- ?app_assoc. cbn. by rewrite <- ?app_assoc. }
  induction fs as [|[t v] fs IH]; intros [|[t' v'] gs] Hf Hg Heq;
    apply (f_equal bytes_of) in Heq; rewrite ?Hb in Heq; try done.
  - cbn in Heq. by destruct t'.
  - cbn in Heq. by destruct t.
  - apply Forall_cons in Hf as [[Ht Hv] Hf], Hg as [[Ht' Hv'] Hg]. cbn in *.
    apply split_first in Heq as [Et Heq]; [|eauto using sep_free_not_in..].
    apply split_first in Heq as [Ev Heq]; [|eauto using sep_free_not_in..].
    apply bytes_of_inj in Et, Ev, Heq. subst. f_equal. by apply IH.
Qed.

(** The free-text fields of an intent. *)
Definition text_sep_free (i : Intent) : Prop :=
  sep_free (ID i) ∧ sep_free (Operation i) ∧ sep_free (Shape i) ∧
  sep_free (ContractAddress i) ∧ sep_free (Address i) ∧
  Forall (λ w, sep_free (Protocol w)) (Weights i).

Lemma sep_free_NetworkLabel p : sep_free (NetworkLabel p).
Proof. unfold NetworkLabel; cbv zeta. split_ifs; by vm_compute; repeat constructor. Qed.

Lemma intent_fields_sep_free i :
  text_sep_free i → Forall (λ f, sep_free f.1 ∧ sep_free f.2) (intent_fields i).
Proof.
  intros (? & ? & ? & ? & ? & Hw). unfold intent_fields.
  rewrite !Forall_app, Forall_map, Forall_singleton.
  split_and!; [| |by repeat constructor|apply sep_free_rfc3339nano].
  - repeat (apply Forall_cons; split); try apply Forall_nil; try done; cbn; split;
      auto using sep_free_NetworkLabel; try apply sep_free_pretty;
      try (by repeat constructor); destruct (Flag i); by repeat constructor.
  - eapply Forall_impl; [done|]. intros w Hp. cbn. split; [|apply sep_free_pretty].
    by repeat (apply Forall_cons; split; [done|]).
Qed.

(** The audit commitment identifies the intent. If two intents whose text
    fields contain neither separator byte hash alike, then either two different
    byte strings collide under the hash function, or the intents agree on id,
    operation, shape, contract, network label, both integer arguments, address,
    flag, the whole weight vector and the issue time (years 1 to 9999). *)
Lemma HashIntent_commits (sha256_hex : string → string) i j :
  text_sep_free i → text_sep_free j →
  renderable (IssuedAt i) → renderable (IssuedAt j) →
  HashIntent sha256_hex i = HashIntent sha256_hex j →
  (∃ a b, a ≠ b ∧ sha256_hex a = sha256_hex b) ∨
  (ID i = ID j ∧ Operation i = Operation j ∧ Shape i = Shape j ∧
   ContractAddress i = ContractAddress j ∧
   NetworkLabel (NetworkPassphrase i) = NetworkLabel (NetworkPassphrase j) ∧
   Arg0 i = Arg0 j ∧ Arg1 i = Arg1 j ∧ Address i = Address j ∧ Flag i = Flag j ∧
   Weights i = Weights j ∧ IssuedAt i = IssuedAt j).
Proof.
  unfold HashIntent. intros Hi Hj Hti Htj Hh.
  destruct (decide (concat_fields (intent_fields i) = concat_fields (intent_fields j)))
    as [He|]; [right|left; eauto].
  apply concat_fields_inj in He; [|by apply intent_fields_sep_free..].
  unfold intent_fields in He. rewrite !app_assoc in He.
  apply app_inj_tail in He as [He Ht]. cbn [app] in He.
  injection He as ? ? ? ? ? ?%(inj pretty) ?%(inj pretty) ? Hf Hw.
  injection Ht as Ht. apply rfc3339nano_inj in Ht; [|done..]. split_and!; try done.
  - by destruct (Flag i), (Flag j).
  - revert Hw. apply list_fmap_eq_inj. intros [p b] [p' b']. cbn.
    intros [= Hp Hb%(inj pretty)]. cbn in Hp. by simplify_eq.
Qed.

Lemma HashIntent_commits_witness :
  let i := mkIntent "intent-1" OpPause ShapeVoid "C" "net" 0 0 "" false [] 1 "" in
  ID i = ID i ∧ Weights i = Weights i.
Proof.
  cbv zeta. set (i := mkIntent _ _ _ _ _ _ _ _ _ _ _ _).
  destruct (HashIntent_commits (λ s, s) i i) as [(a & b & Hne & Heq)|H].
  - by repeat constructor.
  - by repeat constructor.
  - unfold renderable, i. cbn. lia.
  - unfold renderable, i. cbn. lia.
  - reflexivity.
  - by destruct Hne.
  - destruct_and!. done.
Defined.

Definition colliding_weights_1 : list WeightEntry := [mkWeight "p" 0; mkWeight "q" 10000].
Definition colliding_weights_2 : list WeightEntry :=
  [mkWeight (of_bytes ([byte 112; US; byte 48; RS; byte 119; byte 58; byte 113])) 10000].
Definition set_weights_intent (ws : list WeightEntry) : Intent :=
  mkIntent "intent-1" OpSetWeights ShapeWeights
    (String.concat "" ("C" :: replicate 55 "A")) "testnet" 0 0 "" false ws 1 "".

(** The fields are delimited, not length-prefixed, so the commitment does
    not separate all signable intents: two structurally valid set_weights
    intents with different allocation vectors, one of them holding the separator
    bytes inside a protocol name, have the same hash whatever the hash function
    is. *)
Lemma HashIntent_not_injective :
  ∃ i j, Validate i = None ∧ Validate j = None ∧ Weights i ≠ Weights j ∧
         ∀ sha256_hex, HashIntent sha256_hex i = HashIntent sha256_hex j.
Proof.
  exists (set_weights_intent colliding_weights_1), (set_weights_intent colliding_weights_2).
  split_and!; [vm_compute; done..|done|].
  intros sha256_hex. unfold HashIntent. f_equal.
Qed.

End Audit.
