(* ===== verification/SigningService.v ===== *)
(** The signing pipeline (src/apps/api/internal/signing/signer.go): kill
    switch, structural validation, deployment policy, replay guard, backend; and
    the audit event and counters every request leaves behind. *)
From S2P Require Import Prelude SigningIntent SigningPolicy SigningAudit.
Import Intent Policy Audit.

Module Service.

Record SignResult := mkSignResult {
  SignedXDR : string;
  ResKeyID : string;
  ResIntentHash : string;
}.

Inductive SignError (BackendError : Type) :=
| SignDisabled (e : SwitchError)
| SignPolicy (e : PolicyError)
| SignBackend (e : BackendError).
Arguments SignDisabled {BackendError} e.
Arguments SignPolicy {BackendError} e.
Arguments SignBackend {BackendError} e.

(** The mutable state of a [Service]: the switch's cached evaluation, the replay
    guard, the counters, and the [sink.Record] calls made so far with whether
    each was accepted, latest last. [backendCalls] records the intents the key
    was applied to. *)
Record Svc := mkSvc {
  killSwitch : KillSwitch;
  replayGuard : ReplayGuard;
  counters : Counters;
  emitted : list (Event * bool);
  backendCalls : list Intent;
}.

(** What one call of [Sign] sees of its environment: the sentinel file, the
    wall clock of the kill switch, and the successive readings of [s.now()]. *)
Record Env := mkEnv {
  env_fs : Sentinel;
  env_wall : Time;
  env_clock : nat → Time;
}.

Inductive NewServiceError := ErrNoBackend | ErrNoPolicy | ErrNoKillSwitch.

(** [NewService], with [None] for a nil option; a nil replay guard is built with
    the policy's own window as its retention. *)
Definition NewService {Backend : Type} (backend : option Backend) (policy : option Policy)
    (switch : option KillSwitch) (guard : option ReplayGuard) (cnt : option Counters)
  : result NewServiceError (Backend * Policy * Svc) :=
  match backend with
  | None => Err ErrNoBackend
  | Some b =>
    match policy with
    | None => Err ErrNoPolicy
    | Some p =>
      match switch with
      | None => Err ErrNoKillSwitch
      | Some k =>
        Ok (b, p, {| killSwitch := k;
                     replayGuard := default (NewReplayGuard (i64 (MaxIntentAge p + ClockSkew p))) guard;
                     counters := default NewCounters cnt;
                     emitted := [];
                     backendCalls := [] |})
      end
    end
  end.

Section Sign.
(** The backend holds the key and talks to the Stellar SDK; the sink is the
    audit store. Both are external to the pipeline. *)
Context {BackendError : Type}.
Context (policy : Policy) (keyID : string).
Context (BuildAndSign : Intent → result BackendError string).
Context (sha256_hex : string → string).
Context (sink_ok : Event → bool).

Definition emit (s : Svc) (ev : Event) : Svc :=
  mkSvc (killSwitch s) (replayGuard s) (counters s) (emitted s ++ [(ev, sink_ok ev)])
    (backendCalls s).

Definition with_counters (s : Svc) (c : Counters) : Svc :=
  mkSvc (killSwitch s) (replayGuard s) c (emitted s) (backendCalls s).
Definition with_switch (s : Svc) (k : KillSwitch) : Svc :=
  mkSvc k (replayGuard s) (counters s) (emitted s) (backendCalls s).
Definition with_guard (s : Svc) (g : ReplayGuard) : Svc :=
  mkSvc (killSwitch s) g (counters s) (emitted s) (backendCalls s).
Definition with_backend_call (s : Svc) (i : Intent) : Svc :=
  mkSvc (killSwitch s) (replayGuard s) (counters s) (emitted s) (backendCalls s ++ [i]).

Definition mk_event (caller : string) (i : Intent) (hash : string) (o : Outcome)
    (rej : option Rejection) (latencyMS : Z) (at_ : Time) : Event :=
  mkEvent (ID i) (RequestID i) caller (Operation i) (ContractAddress i) keyID hash o rej
    latencyMS at_.

(** [rejectWith], reading the clock at [k] and [S k]. *)
Definition rejectWith (s : Svc) (caller : string) (i : Intent) (hash : string)
    (start : Time) (clk : nat → Time) (k : nat) (err : PolicyError)
  : Svc * result (SignError BackendError) SignResult :=
  let cat := Category err in
  let latency := time_sub (clk k) start in
  let s1 := with_counters s (ObserveRejected (counters s) cat latency) in
  (emit s1 (mk_event caller i hash OutcomeRejected (Some cat) (milliseconds latency) (clk (S k))),
   Err (SignPolicy err)).

Definition Sign (s0 : Svc) (env : Env) (caller : string) (i : Intent)
  : Svc * result (SignError BackendError) SignResult :=
  let clk := env_clock env in
  let start := clk 0%nat in
  let s1 := with_counters s0 (ObserveRequest (counters s0) (Operation i)) in
  let hash := HashIntent sha256_hex i in
  let '(k, (state, kerr)) := KillSwitch_Check (killSwitch s1) (env_fs env) (env_wall env) in
  let s2 := with_switch s1 k in
  match kerr with
  | Some e =>
      let s3 := with_counters s2 (ObserveDisabled (counters s2)) in
      (emit s3 (mk_event caller i hash OutcomeDisabled (Some RejectKillSwitchActive)
                  (milliseconds (time_sub (clk 1%nat) start)) (clk 2%nat)),
       Err (SignDisabled e))
  | None =>
    match Validate i with
    | Some err => rejectWith s2 caller i hash start clk 1 err
    | None =>
      match Evaluate policy i (clk 1%nat) with
      | Some err => rejectWith s2 caller i hash start clk 2 err
      | None =>
        let '(g, oerr) := Observe (replayGuard s2) (ID i) (clk 2%nat) in
        let s3 := with_guard s2 g in
        match oerr with
        | Some err => rejectWith s3 caller i hash start clk 3 err
        | None =>
          let s4 := with_backend_call s3 i in
          match BuildAndSign i with
          | Err e =>
              let s5 := with_counters s4 (ObserveError (counters s4)) in
              (emit s5 (mk_event caller i hash OutcomeError None
                          (milliseconds (time_sub (clk 3%nat) start)) (clk 4%nat)),
               Err (SignBackend e))
          | Ok xdr =>
              let latency := time_sub (clk 3%nat) start in
              let s5 := with_counters s4 (ObserveSigned (counters s4) (Operation i) latency) in
              (emit s5 (mk_event caller i hash OutcomeSigned None
                          (milliseconds latency) (clk 4%nat)),
               Ok (mkSignResult xdr keyID hash))
          end
        end
      end
    end
  end.

(** A sequence of requests served one after the other. *)
Definition Call : Type := Env * string * Intent.

Fixpoint serve (s : Svc) (calls : list Call)
  : Svc * list (result (SignError BackendError) SignResult) :=
  match calls with
  | [] => (s, [])
  | (env, caller, i) :: rest =>
      let '(s1, r) := Sign s env caller i in
      let '(s2, rs) := serve s1 rest in
      (s2, r :: rs)
  end.

Definition outcome_of (r : result (SignError BackendError) SignResult) : Outcome :=
  match r with
  | Ok _ => OutcomeSigned
  | Err (SignDisabled _) => OutcomeDisabled
  | Err (SignPolicy _) => OutcomeRejected
  | Err (SignBackend _) => OutcomeError
  end.

(** *** Case analysis of one request *)

(** What a request that reached the replay guard went through. *)
Definition passed_gates (env : Env) (i : Intent) : Prop :=
  env_fs env = Absent ∧ Validate i = None ∧ Evaluate policy i (env_clock env 1%nat) = None.

Inductive sign_case (s : Svc) (env : Env) (i : Intent)
  (s' : Svc) (r : result (SignError BackendError) SignResult) : Prop :=
| case_disabled e :
    env_fs env ≠ Absent → r = Err (SignDisabled e) →
    replayGuard s' = replayGuard s → backendCalls s' = backendCalls s →
    sign_case s env i s' r
| case_rejected err :
    env_fs env = Absent →
    (Validate i = Some err ∨
     Validate i = None ∧ Evaluate policy i (env_clock env 1%nat) = Some err) →
    r = Err (SignPolicy err) →
    replayGuard s' = replayGuard s → backendCalls s' = backendCalls s →
    sign_case s env i s' r
| case_replayed err :
    passed_gates env i →
    (Observe (replayGuard s) (ID i) (env_clock env 2%nat)).2 = Some err →
    r = Err (SignPolicy err) →
    replayGuard s' = (Observe (replayGuard s) (ID i) (env_clock env 2%nat)).1 →
    backendCalls s' = backendCalls s →
    sign_case s env i s' r
| case_backend :
    passed_gates env i →
    (Observe (replayGuard s) (ID i) (env_clock env 2%nat)).2 = None →
    replayGuard s' = (Observe (replayGuard s) (ID i) (env_clock env 2%nat)).1 →
    backendCalls s' = backendCalls s ++ [i] →
    r = match BuildAndSign i with
        | Ok xdr => Ok (mkSignResult xdr keyID (HashIntent sha256_hex i))
        | Err e => Err (SignBackend e)
        end →
    sign_case s env i s' r.

Lemma Sign_cases s env caller i :
  sign_case s env i (Sign s env caller i).1 (Sign s env caller i).2.
Proof.
  unfold Sign, KillSwitch_Check. destruct (env_fs env) eqn:Efs; cbn.
  2-3: by eapply case_disabled; rewrite ?Efs.
  destruct (Validate i) as [err|] eqn:EV; cbn; [by eapply case_rejected; eauto|].
  destruct (Evaluate policy i _) as [err|] eqn:EP; cbn; [by eapply case_rejected; eauto|].
  destruct (Observe _ _ _) as [g oerr] eqn:EO.
  assert (passed_gates env i) by done.
  destruct oerr as [err|]; cbn; [by eapply case_replayed; eauto; rewrite EO|].
  destruct (BuildAndSign i) as [xdr|e] eqn:EB; cbn;
    eapply case_backend; eauto; cbn; rewrite ?EO, ?EB; done.
Qed.

(** Requests that pass through leave earlier retention settings alone. *)
Lemma Sign_retention s env caller i :
  retention (replayGuard (Sign s env caller i).1) = retention (replayGuard s).
Proof.
  destruct (Sign_cases s env caller i) as [? ? ? ->|? ? ? ? ->|? ? ? ? ->|? ? ->]; try done;
    by rewrite Observe_retention.
Qed.

(** An id remembered at [t] is still remembered after any request whose replay
    check happens within the retention of [t]. *)
Lemma Sign_keeps s env caller i id t :
  seen (replayGuard s) !! id = Some t → in_i64 (- retention (replayGuard s)) →
  env_clock env 2%nat - retention (replayGuard s) ≤ t →
  seen (replayGuard (Sign s env caller i).1) !! id = Some t.
Proof.
  intros Hs Hr Ht.
  destruct (Sign_cases s env caller i) as [? ? ? ->|? ? ? ? ->|? ? ? ? ->|? ? ->];
    eauto using Observe_keeps.
Qed.

Lemma Sign_ok_gates s env caller i res :
  (Sign s env caller i).2 = Ok res →
  passed_gates env i ∧ (Observe (replayGuard s) (ID i) (env_clock env 2%nat)).2 = None ∧
  replayGuard (Sign s env caller i).1 = (Observe (replayGuard s) (ID i) (env_clock env 2%nat)).1 ∧
  BuildAndSign i = Ok (SignedXDR res).
Proof.
  intros Hok. destruct (Sign_cases s env caller i) as [? ? Hr|? ? ? Hr|? ? ? Hr|? ? ? ? Hr];
    rewrite Hr in Hok; try done.
  split_and!; try done. destruct (BuildAndSign i); by simplify_eq.
Qed.

Lemma serve_cons s env caller i rest :
  serve s ((env, caller, i) :: rest) =
  ((serve (Sign s env caller i).1 rest).1,
   (Sign s env caller i).2 :: (serve (Sign s env caller i).1 rest).2).
Proof.
  cbn. destruct (Sign s env caller i) as [s1 r]. cbn. by destruct (serve s1 rest).
Qed.

(** While every replay check happens within the retention of [t], a remembered
    id is refused, whatever else is served in between. *)
Lemma serve_refuses_seen calls : ∀ s id t j env caller i r,
  seen (replayGuard s) !! id = Some t → in_i64 (- retention (replayGuard s)) →
  calls !! j = Some (env, caller, i) → ID i = id →
  (∀ k c, (k ≤ j)%nat → calls !! k = Some c →
     env_clock c.1.1 2%nat ≤ t + retention (replayGuard s)) →
  (serve s calls).2 !! j = Some r → is_ok r = false.
Proof.
  induction calls as [|[[env0 caller0] i0] calls IH]; intros s id t j env caller i r Hs Hr Hj Hid Hk Hres;
    [done|].
  rewrite serve_cons in Hres. cbn in Hres.
  destruct j as [|j]; cbn in Hj, Hres.
  - simplify_eq. specialize (Hk 0%nat _ (Nat.le_refl _) eq_refl) as Hc. cbn in Hc.
    destruct (Sign s env caller i).2 as [res|] eqn:Hsign; [|done].
    apply Sign_ok_gates in Hsign as (_ & Hobs & _).
    destruct (Observe_rejects_seen (replayGuard s) (ID i) (env_clock env 2%nat) t Hs Hr); [lia|done].
  - assert (env_clock env0 2%nat ≤ t + retention (replayGuard s)) as Hc0
      by apply (Hk 0%nat (env0, caller0, i0) (Nat.le_0_l _) eq_refl).
    eapply (IH (Sign s env0 caller0 i0).1); eauto.
    + apply Sign_keeps; [done..|lia].
    + by rewrite Sign_retention.
    + intros k c Hkj Hc. rewrite Sign_retention.
      apply (Hk (S k) c); [lia|done].
Qed.

Lemma serve_nth j : ∀ s calls env caller i r,
  calls !! j = Some (env, caller, i) → (serve s calls).2 !! j = Some r →
  ∃ sj, retention (replayGuard sj) = retention (replayGuard s) ∧
    r = (Sign sj env caller i).2 ∧
    ∀ k, (serve s calls).2 !! (S j + k)%nat =
         (serve (Sign sj env caller i).1 (drop (S j) calls)).2 !! k.
Proof.
  induction j as [|j IH]; intros s [|[[env0 caller0] i0] calls] env caller i r Hc Hr; try done;
    rewrite serve_cons in *; cbn in *.
  - simplify_eq. exists s. by split_and!.
  - destruct (IH _ _ _ _ _ _ Hc Hr) as (sj & Hret & -> & Hk).
    exists sj. rewrite Sign_retention in Hret. split_and!; try done.
Qed.

(** *** Authorisation *)

(** Everything the key is applied to satisfies this: the sentinel file is
    absent, the intent is well formed, it is for the signer's network, one of
    the allowed operations and contracts, its amount is positive and within the
    limit when it moves value, it is inside its validity window at the instant
    it is judged, and its id is not remembered by the replay guard. *)
Definition authorised (s : Svc) (env : Env) (i : Intent) : Prop :=
  env_fs env = Absent ∧ well_formed i ∧
  NetworkPassphrase i = PolicyNetwork policy ∧ PolicyNetwork policy ≠ "" ∧
  Operation i ∈ AllowedOperations policy ∧
  TrimSpace (ContractAddress i) ∈ AllowedContracts policy ∧
  (Operation i ∈ [OpDeposit; OpWithdraw] →
     0 < Arg0 i ∧ (0 < MaxAmountStroops policy → Arg0 i ≤ MaxAmountStroops policy)) ∧
  (let age := time_sub (env_clock env 1%nat) (IssuedAt i) in
   i64 (- ClockSkew policy) ≤ age ≤ MaxIntentAge policy) ∧
  seen (sweepLocked (replayGuard s) (env_clock env 2%nat)) !! ID i = None.

Lemma gates_authorised s env i :
  passed_gates env i ∧ (Observe (replayGuard s) (ID i) (env_clock env 2%nat)).2 = None ↔
  authorised s env i.
Proof.
  unfold passed_gates, authorised. rewrite Validate_well_formed, Evaluate_spec. cbv zeta.
  assert ((Observe (replayGuard s) (ID i) (env_clock env 2%nat)).2 = None ↔
          seen (sweepLocked (replayGuard s) (env_clock env 2%nat)) !! ID i = None) as ->
    by (unfold Observe, reject; case_match; naive_solver).
  split; intros; destruct_and!; split_and!; try done;
    match goal with H : well_formed i |- _ =>
      destruct (args_ok_pair i) as [Hp Hpos]; [by unfold well_formed in H; destruct_and!|] end.
  - intros Ho. apply Hp in Ho. auto.
  - intros Hs Hm. apply Hp in Hs as Ho. naive_solver.
Qed.

(** *** What one request adds to the counters and to the audit trail *)

(** [get m k] is Go's [m[k]] on a map of integers; [bump b] adds one when [b]. *)
Definition get (m : gmap string Z) (k : string) : Z := default 0 (m !! k).
Definition bump (b : bool) (z : Z) : Z := if b then i64 (z + 1) else z.

Lemma get_incr m k k' : get (incr_map m k) k' = bump (bool_decide (k = k')) (get m k').
Proof.
  unfold get, incr_map, bump. case_bool_decide as Hk; subst.
  - by rewrite lookup_insert_eq.
  - by rewrite lookup_insert_ne.
Qed.

Definition is_signed (op : string) (i : Intent) (r : result (SignError BackendError) SignResult) : bool :=
  is_ok r && bool_decide (Operation i = op).
Definition is_rejected (cat : string) (r : result (SignError BackendError) SignResult) : bool :=
  match r with Err (SignPolicy e) => bool_decide (rejection_string (Category e) = cat) | _ => false end.

Lemma Sign_counters s env caller i :
  let c := counters s in let c' := counters (Sign s env caller i).1 in
  let r := (Sign s env caller i).2 in
  (∀ op, get (requests c') op = bump (bool_decide (Operation i = op)) (get (requests c) op)) ∧
  (∀ op, get (signed c') op = bump (is_signed op i r) (get (signed c) op)) ∧
  (∀ cat, get (rejected c') cat = bump (is_rejected cat r) (get (rejected c) cat)) ∧
  disabled c' = bump (bool_decide (outcome_of r = OutcomeDisabled)) (disabled c) ∧
  errors c' = bump (bool_decide (outcome_of r = OutcomeError)) (errors c) ∧
  unauthorized c' = unauthorized c.
Proof.
  unfold Sign, KillSwitch_Check, rejectWith. cbv zeta.
  repeat case_match; simplify_eq/=; unfold is_signed; cbn;
    split_and!; intros; rewrite ?get_incr; done.
Qed.

(** Over a list of requests a counter is the number of the requests it counts,
    as a wrapped 64-bit integer. *)
Definition count_true (bs : list bool) : Z := sum_Z (map (λ b : bool, if b then 1 else 0) bs).

Lemma foldl_bump bs : ∀ z, in_i64 z → foldl (λ z b, bump b z) z bs = i64 (z + count_true bs).
Proof.
  induction bs as [|b bs IH]; intros z Hz; cbn [foldl].
  - change (count_true []) with 0. rewrite Z.add_0_r. by rewrite i64_id.
  - change (count_true (b :: bs)) with ((if b then 1 else 0) + count_true bs).
    destruct b; cbn [bump]; rewrite IH by auto using i64_range.
    + rewrite i64_add_l. f_equal. lia.
    + done.
Qed.

Lemma serve_field {A} (f : Svc → A) (test : Call → result (SignError BackendError) SignResult → bool)
    (step : bool → A → A) :
  (∀ s env caller i, f (Sign s env caller i).1 =
     step (test (env, caller, i) (Sign s env caller i).2) (f s)) →
  ∀ calls s, f (serve s calls).1 =
    foldl (λ a b, step b a) (f s) (zip_with test calls (serve s calls).2).
Proof.
  intros Hf. induction calls as [|[[env caller] i] calls IH]; intros s; [done|].
  rewrite serve_cons. cbn. by rewrite IH, Hf.
Qed.

(** The number of requests of [calls] whose result passes [test]. *)
Definition tally (test : Call → result (SignError BackendError) SignResult → bool)
    (calls : list Call) (s : Svc) : Z :=
  count_true (zip_with test calls (serve s calls).2).

Lemma serve_tally (f : Svc → Z) test calls s :
  (∀ s env caller i, f (Sign s env caller i).1 =
     bump (test (env, caller, i) (Sign s env caller i).2) (f s)) →
  f s = 0 → f (serve s calls).1 = i64 (tally test calls s).
Proof.
  intros Hf H0. rewrite (serve_field f test bump Hf), foldl_bump, H0 by (rewrite H0; done). done.
Qed.

(** The rejection category an audit event carries for a result. *)
Definition rejection_of (r : result (SignError BackendError) SignResult) : option Rejection :=
  match r with
  | Err (SignDisabled _) => Some RejectKillSwitchActive
  | Err (SignPolicy e) => Some (Category e)
  | _ => None
  end.

(** *** Claims *)

(** C3: the key is applied to an intent only when the intent is authorised. One
    request either finds the intent authorised, hands it to the backend exactly
    once and returns what the backend produced, or leaves the backend untouched
    and returns an error. *)
Theorem key_used_only_when_authorised s env caller i :
  let s' := (Sign s env caller i).1 in let r := (Sign s env caller i).2 in
  (authorised s env i ∧ backendCalls s' = backendCalls s ++ [i] ∧
   r = match BuildAndSign i with
       | Ok xdr => Ok (mkSignResult xdr keyID (HashIntent sha256_hex i))
       | Err e => Err (SignBackend e)
       end) ∨
  (¬ authorised s env i ∧ backendCalls s' = backendCalls s ∧ is_ok r = false).
Proof.
  cbv zeta. rewrite <- gates_authorised. unfold passed_gates.
  destruct (Sign_cases s env caller i)
    as [e Hfs -> _ Hb|err Hfs Hv -> _ Hb|err Hp Ho -> _ Hb|Hp Ho _ Hb Hr].
  1-3: right; split_and!; [|done..]; intros [(? & ? & ?) ?]; naive_solver.
  left. by rewrite Hb.
Qed.

(** Every request leaves exactly one audit event, whatever the outcome and
    whether or not the sink accepts it: it names the intent, request, caller,
    operation, contract, key and intent hash, and its outcome and rejection
    category are those of the result the caller gets. *)
Lemma every_request_is_audited s env caller i :
  ∃ ev, let s' := (Sign s env caller i).1 in let r := (Sign s env caller i).2 in
    emitted s' = emitted s ++ [(ev, sink_ok ev)] ∧
    EvOutcome ev = outcome_of r ∧ EvRejection ev = rejection_of r ∧
    EvIntentID ev = ID i ∧ EvRequestID ev = RequestID i ∧ EvCaller ev = caller ∧
    EvOperation ev = Operation i ∧ EvContract ev = ContractAddress i ∧
    EvKeyID ev = keyID ∧ EvIntentHash ev = HashIntent sha256_hex i.
Proof.
  unfold Sign, KillSwitch_Check, rejectWith. cbv zeta.
  repeat case_match; simplify_eq/=; eexists; done.
Qed.

(** The counters of a fresh service account for every request it served:
    each counter holds the number of requests with that operation, outcome or
    rejection category, wrapped to 64 bits, and the unauthorized counter, which
    only the transport increments, stays zero. *)
Lemma counters_account_for_requests calls s :
  counters s = NewCounters →
  let c := counters (serve s calls).1 in
  (∀ op, get (requests c) op = i64 (tally (λ call _, bool_decide (Operation call.2 = op)) calls s)) ∧
  (∀ op, get (signed c) op = i64 (tally (λ call r, is_signed op call.2 r) calls s)) ∧
  (∀ cat, get (rejected c) cat = i64 (tally (λ _ r, is_rejected cat r) calls s)) ∧
  disabled c = i64 (tally (λ _ r, bool_decide (outcome_of r = OutcomeDisabled)) calls s) ∧
  errors c = i64 (tally (λ _ r, bool_decide (outcome_of r = OutcomeError)) calls s) ∧
  unauthorized c = 0.
Proof.
  intros H0. cbv zeta. split_and!; intros.
  - apply (serve_tally (λ s, get (requests (counters s)) op)); [|by rewrite H0].
    intros. apply Sign_counters.
  - apply (serve_tally (λ s, get (signed (counters s)) op)); [|by rewrite H0].
    intros. apply Sign_counters.
  - apply (serve_tally (λ s, get (rejected (counters s)) cat)); [|by rewrite H0].
    intros. apply Sign_counters.
  - apply (serve_tally (λ s, disabled (counters s))); [|by rewrite H0].
    intros. apply Sign_counters.
  - apply (serve_tally (λ s, errors (counters s))); [|by rewrite H0].
    intros. apply Sign_counters.
  - rewrite (serve_field (λ s, unauthorized (counters s)) (λ _ _, false) (λ _ z, z)), H0;
      [|intros; apply Sign_counters].
    generalize (zip_with (λ _ _, false) calls (serve s calls).2). intros l. by induction l.
Qed.

Lemma NewReplayGuard_retention ret :
  0 < ret → retention (NewReplayGuard ret) = ret.
Proof. unfold NewReplayGuard. intros. cbn. case_match; guard_done. Qed.

(** C33: no intent is signed twice. In a service whose own replay guard retains what it
    has seen for the policy's age and skew together, two requests that carry the same
    intent id and issue time are not both signed, whatever is served before, between and
    after them, provided the clock does not run backwards between replay checks and the
    second request passes from its policy check to its replay check within the skew
    tolerance less whatever the intent was issued in the future by. *)
Theorem no_intent_signed_twice s calls j k env1 caller1 i1 env2 caller2 i2 r1 r2 :
  let A := MaxIntentAge policy in let K := ClockSkew policy in
  replayGuard s = NewReplayGuard (i64 (A + K)) → 0 < A → 0 < K → A + K ≤ max_i64 →
  (j < k)%nat →
  calls !! j = Some (env1, caller1, i1) → calls !! k = Some (env2, caller2, i2) →
  ID i1 = ID i2 → IssuedAt i1 = IssuedAt i2 →
  (∀ m n c c', (m ≤ n)%nat → calls !! m = Some c → calls !! n = Some c' →
     env_clock c.1.1 2%nat ≤ env_clock c'.1.1 2%nat) →
  IssuedAt i1 + (env_clock env2 2%nat - env_clock env2 1%nat) ≤ env_clock env1 2%nat + K →
  (serve s calls).2 !! j = Some r1 → (serve s calls).2 !! k = Some r2 →
  ¬ (is_ok r1 = true ∧ is_ok r2 = true).
Proof.
  intros A K Hg HA HK Hmax Hjk Hj Hk Hid Hiss Hmono Hgap Hr1 Hr2 [Hok1 Hok2].
  destruct r2 as [res2|]; [|done]. destruct r1 as [res1|]; [|done].
  rewrite i64_id in Hg by (unfold in_i64, min_i64; lia).
  destruct (serve_nth j s calls _ _ _ _ Hj Hr1) as (s1 & Hret1 & Hs1 & Hrest).
  destruct (serve_nth k s calls _ _ _ _ Hk Hr2) as (s2 & _ & Hs2 & _).
  symmetry in Hs1, Hs2.
  apply Sign_ok_gates in Hs1 as (_ & Hobs & Hguard & _).
  apply Sign_ok_gates in Hs2 as ((_ & _ & Hev) & _).
  apply Evaluate_spec in Hev as (_ & _ & _ & _ & _ & Hage & _).
  apply time_sub_le in Hage; [|subst A K; lia].
  assert (retention (replayGuard s) = A + K) as Hret
    by (rewrite Hg; apply NewReplayGuard_retention; lia).
  apply Observe_accepts in Hobs as Hseen. rewrite <- Hguard in Hseen.
  replace k with (S j + (k - S j))%nat in Hr2, Hk by lia.
  rewrite Hrest in Hr2.
  assert (is_ok (Ok (E:=SignError BackendError) res2) = false); [|done].
  eapply (serve_refuses_seen _ _ _ _ _ env2 caller2 i2); [done| | |done| |done].
  - rewrite Sign_retention, Hret1, Hret. unfold in_i64, min_i64, max_i64 in *. lia.
  - by rewrite lookup_drop.
  - intros m c Hm Hc. rewrite Sign_retention, Hret1, Hret. rewrite lookup_drop in Hc.
    assert (env_clock c.1.1 2%nat ≤ env_clock env2 2%nat).
    { refine (Hmono _ _ c _ _ Hc Hk). lia. }
    subst A K. lia.
Qed.

End Sign.

(** *** Witnesses *)

Definition sample_policy : Policy :=
  NewPolicy "testnet" [sample_contract] [OpDeposit] 1000 0 0.
Definition sample_env (t : Time) : Env := mkEnv Absent t (λ n, t + Z.of_nat n).
Definition sample_svc : Svc :=
  mkSvc (mkKillSwitch "/run/kill" None "" 0)
    (NewReplayGuard (i64 (MaxIntentAge sample_policy + ClockSkew sample_policy)))
    NewCounters [] [].
Definition sample_calls : list Call :=
  [(sample_env (3 * Hour), "api", sample_intent);
   (sample_env (3 * Hour + Second), "api", sample_intent)].
Definition sample_serve :=
  serve (BackendError:=unit) sample_policy "key-1" (λ i, Ok (ID i)) (λ s, s) (λ _, true)
    sample_svc sample_calls.

Lemma counters_account_for_requests_witness :
  counters sample_svc = NewCounters ∧
  get (requests (counters sample_serve.1)) OpDeposit = i64 2.
Proof.
  split; [reflexivity|].
  pose proof (counters_account_for_requests (BackendError:=unit) sample_policy "key-1"
    (λ i, Ok (ID i)) (λ s, s) (λ _, true) sample_calls sample_svc eq_refl) as [H _].
  unfold sample_serve. rewrite H. vm_compute. reflexivity.
Defined.

Lemma no_intent_signed_twice_witness :
  ∃ r1 r2, sample_serve.2 = [r1; r2] ∧ is_ok r1 = true ∧ ¬ (is_ok r1 = true ∧ is_ok r2 = true).
Proof.
  exists (Ok (mkSignResult "intent-1" "key-1" (HashIntent (λ s, s) sample_intent))),
    (Err (SignPolicy (mkPolicyError RejectIntentReplayed "intent id has already been signed"))).
  split; [vm_compute; reflexivity|]. split; [reflexivity|].
  apply (no_intent_signed_twice (BackendError:=unit) sample_policy "key-1" (λ i, Ok (ID i))
    (λ s, s) (λ _, true) sample_svc sample_calls 0 1
    (sample_env (3 * Hour)) "api" sample_intent
    (sample_env (3 * Hour + Second)) "api" sample_intent);
    [reflexivity|vm_compute; done|vm_compute; done|vm_compute; done|lia|reflexivity..
    | |vm_compute; done|vm_compute; reflexivity|vm_compute; reflexivity].
  intros [|[|m]] [|[|n]] c c' Hmn Hm Hn; cbn in Hm, Hn; simplify_eq; try lia; vm_compute; done.
Defined.

End Service.
