(* ===== verification/Breaker.v ===== *)
(** The circuit breaker that guards the chain upstreams
    (src/apps/api/internal/breaker/breaker.go): its three states, the permits it
    hands out, and the ring of ten buckets that holds the rolling window. *)
From Stdlib Require Import ZifyNat.
From S2P Require Import Prelude.

Module Breaker.

Inductive State := StateClosed | StateHalfOpen | StateOpen.

#[global] Instance BreakerState_eq_dec : EqDecision State.
Proof. solve_decision. Defined.

Definition State_String (s : State) : string :=
  match s with
  | StateClosed => "closed"
  | StateHalfOpen => "half_open"
  | StateOpen => "open"
  end.

Definition windowBuckets : nat := 10.

Record Config := mkConfig {
  FailureRatio : float64;
  MinRequests : Z;
  Window : Duration;
  OpenDuration : Duration;
}.

(** 0.5 is exactly representable. *)
Definition DefaultFailureRatio : float64 := float64_div (float64_of 1) (float64_of 2).
Definition DefaultMinRequests : Z := 10.
Definition DefaultWindow : Duration := 60 * Second.
Definition DefaultOpenDuration : Duration := 15 * Second.

Definition withDefaults (c : Config) : Config :=
  {| FailureRatio := if float64_leb (FailureRatio c) float64_zero then DefaultFailureRatio
                     else FailureRatio c;
     MinRequests := if MinRequests c <=? 0 then DefaultMinRequests else MinRequests c;
     Window := if Window c <=? 0 then DefaultWindow else Window c;
     OpenDuration := if OpenDuration c <=? 0 then DefaultOpenDuration else OpenDuration c |}.

Inductive ConfigError := BadRatio | BadMinRequests | BadWindow | BadOpenDuration.

Definition Config_Validate (c : Config) : option ConfigError :=
  if float64_leb (FailureRatio c) float64_zero || float64_ltb (float64_of 1) (FailureRatio c)
  then Some BadRatio
  else if MinRequests c <=? 0 then Some BadMinRequests
  else if Window c <=? 0 then Some BadWindow
  else if OpenDuration c <=? 0 then Some BadOpenDuration
  else None.

Inductive Outcome := Success | Failure | Ignored.

#[global] Instance BreakerOutcome_eq_dec : EqDecision Outcome.
Proof. solve_decision. Defined.

Record Permit := mkPermit {
  permit_generation : Z;
  probe : bool;
  valid : bool;
}.

#[global] Instance Permit_eq_dec : EqDecision Permit.
Proof. solve_decision. Defined.

(** [Permit{}]. *)
Definition noPermit : Permit := mkPermit 0 false false.

Record bucket := mkBucket { total : Z; failures : Z }.

Definition emptyBuckets : list bucket := replicate windowBuckets (mkBucket 0 0).

Record Snapshot := mkSnapshot {
  snap_Name : string;
  snap_State : State;
  snap_Total : Z;
  snap_Failures : Z;
  snap_FailureRatio : float64;
  snap_Rejected : Z;
  snap_RetryIn : Duration;
}.

Record transition := mkTransition { from : State; to : State; snapshot : Snapshot }.

Record OpenError := mkOpenError { err_Name : string; RetryIn : Duration }.

(** [generation] and [rejected] are [uint64]; [onTransition] tells whether a
    callback is installed. *)
Record Breaker := mkBreaker {
  name : string;
  cfg : Config;
  onTransition : bool;
  state : State;
  generation : Z;
  openedAt : Time;
  probeInFlight : bool;
  buckets : list bucket;
  bucketIndex : nat;
  bucketStart : Time;
  bucketDur : Duration;
  rejected : Z;
}.

Definition with_window (b : Breaker) (bs : list bucket) (i : nat) (start : Time) : Breaker :=
  mkBreaker (name b) (cfg b) (onTransition b) (state b) (generation b) (openedAt b)
    (probeInFlight b) bs i start (bucketDur b) (rejected b).
Definition with_probe (b : Breaker) (p : bool) : Breaker :=
  mkBreaker (name b) (cfg b) (onTransition b) (state b) (generation b) (openedAt b)
    p (buckets b) (bucketIndex b) (bucketStart b) (bucketDur b) (rejected b).
Definition with_rejected (b : Breaker) (r : Z) : Breaker :=
  mkBreaker (name b) (cfg b) (onTransition b) (state b) (generation b) (openedAt b)
    (probeInFlight b) (buckets b) (bucketIndex b) (bucketStart b) (bucketDur b) r.

(** [NewWithClock], where [now] is the clock's reading. *)
Definition NewWithClock (n : string) (c : Config) (cb : bool) (now : Time) : Breaker :=
  let c := withDefaults c in
  {| name := n; cfg := c; onTransition := cb; state := StateClosed; generation := 0;
     openedAt := 0; probeInFlight := false; buckets := emptyBuckets; bucketIndex := 0%nat;
     bucketStart := now; bucketDur := Z.quot (Window c) (Z.of_nat windowBuckets);
     rejected := 0 |}.

Definition countsLocked (b : Breaker) : Z * Z :=
  foldl (λ acc bkt, (i64 (acc.1 + total bkt), i64 (acc.2 + failures bkt))) (0, 0) (buckets b).

Definition trippedLocked (b : Breaker) : bool :=
  let '(tot, fail) := countsLocked b in
  if tot <? MinRequests (cfg b) then false
  else float64_leb (FailureRatio (cfg b)) (float64_div (float64_of fail) (float64_of tot)).

(** The body of the loop of [advanceLocked], [steps] times. *)
Fixpoint advance_loop (steps : nat) (bs : list bucket) (i : nat) : list bucket * nat :=
  match steps with
  | O => (bs, i)
  | S n =>
      let i := ((i + 1) mod windowBuckets)%nat in
      advance_loop n (<[i := mkBucket 0 0]> bs) i
  end.

(** [advanceLocked]. A bucket duration of zero, which a window below ten
    nanoseconds gives, makes the source divide by zero; the theorems below are
    about positive bucket durations. *)
Definition advanceLocked (b : Breaker) (now : Time) : Breaker :=
  let elapsed := time_sub now (bucketStart b) in
  if elapsed <? bucketDur b then b
  else
    let steps := Z.quot elapsed (bucketDur b) in
    let '(bs, i) :=
      if Z.of_nat windowBuckets <=? steps then (emptyBuckets, 0%nat)
      else advance_loop (Z.to_nat steps) (buckets b) (bucketIndex b) in
    with_window b bs i (time_add (bucketStart b) (i64 (steps * bucketDur b))).

Definition snapshotLocked (b : Breaker) (now : Time) : Snapshot :=
  let '(tot, fail) := countsLocked b in
  let ratio := if 0 <? tot then float64_div (float64_of fail) (float64_of tot) else float64_zero in
  let remaining := i64 (OpenDuration (cfg b) - time_sub now (openedAt b)) in
  let '(st, retryIn) :=
    if decide (state b = StateOpen) then
      if 0 <? remaining then (state b, remaining) else (StateHalfOpen, 0)
    else (state b, 0) in
  mkSnapshot (name b) st tot fail ratio (rejected b) retryIn.

Definition setStateLocked (b : Breaker) (s : State) (now : Time) : Breaker * option transition :=
  let old := state b in
  if decide (old = s) then (b, None)
  else
    let b1 := mkBreaker (name b) (cfg b) (onTransition b) s (u64 (generation b + 1))
      (if decide (s = StateOpen) then now else openedAt b) false
      (buckets b) (bucketIndex b) (bucketStart b) (bucketDur b) (rejected b) in
    let b2 := if decide (s = StateClosed) then with_window b1 emptyBuckets 0 now else b1 in
    (b2, Some (mkTransition old s (snapshotLocked b2 now))).

Definition openErrorLocked (b : Breaker) (now : Time) : OpenError :=
  let retryIn := i64 (OpenDuration (cfg b) - time_sub now (openedAt b)) in
  mkOpenError (name b) (if retryIn <? 0 then 0 else retryIn).

Definition allowLocked (b : Breaker) (now : Time)
  : Breaker * result OpenError Permit * option transition :=
  let b := advanceLocked b now in
  let '(b, event) :=
    if bool_decide (state b = StateOpen) && (OpenDuration (cfg b) <=? time_sub now (openedAt b))
    then setStateLocked b StateHalfOpen now else (b, None) in
  match state b with
  | StateOpen => (with_rejected b (u64 (rejected b + 1)), Err (openErrorLocked b now), event)
  | StateHalfOpen =>
      if probeInFlight b
      then (with_rejected b (u64 (rejected b + 1)), Err (openErrorLocked b now), event)
      else (with_probe b true, Ok (mkPermit (generation b) true true), event)
  | StateClosed => (b, Ok (mkPermit (generation b) false true), event)
  end.

(** [emit]: the call of the transition callback, if any. *)
Definition emit (b : Breaker) (event : option transition) : option (string * transition) :=
  match event with
  | Some ev => if onTransition b then Some (name b, ev) else None
  | None => None
  end.

Definition Allow (b : Breaker) (now : Time)
  : Breaker * result OpenError Permit * option (string * transition) :=
  let '(b', r, event) := allowLocked b now in (b', r, emit b' event).

Definition recordLocked (b : Breaker) (permit : Permit) (outcome : Outcome) (now : Time)
  : Breaker * option transition :=
  if negb (permit_generation permit =? generation b) then (b, None)
  else
    let b := if probe permit then with_probe b false else b in
    if decide (outcome = Ignored) then (b, None)
    else
      let b := advanceLocked b now in
      if decide (state b = StateHalfOpen) then
        if decide (outcome = Failure) then setStateLocked b StateOpen now
        else setStateLocked b StateClosed now
      else
        let count bkt := mkBucket (i64 (total bkt + 1))
          (if decide (outcome = Failure) then i64 (failures bkt + 1) else failures bkt) in
        let b := with_window b (alter count (bucketIndex b) (buckets b)) (bucketIndex b)
                   (bucketStart b) in
        if bool_decide (state b = StateClosed) && trippedLocked b then setStateLocked b StateOpen now
        else (b, None).

Definition Record_ (b : Breaker) (permit : Permit) (outcome : Outcome) (now : Time)
  : Breaker * option (string * transition) :=
  if negb (valid permit) then (b, None)
  else let '(b', event) := recordLocked b permit outcome now in (b', emit b' event).

(** [Snapshot] rolls the window forward before reading it. *)
Definition Snapshot_ (b : Breaker) (now : Time) : Breaker * Snapshot :=
  let b := advanceLocked b now in (b, snapshotLocked b now).

Definition State_ (b : Breaker) (now : Time) : State := snap_State (Snapshot_ b now).2.

(** ** The window as a log of outcomes *)

(** The abstract window: the outcomes counted since the window last restarted,
    with the instant each was recorded and whether it was a failure. Instants
    are grouped in slots of one bucket duration from [origin]. *)
Definition slot (origin : Time) (dur : Duration) (t : Time) : Z := (t - origin) / dur.

Definition cnt {A} (P : A → bool) (l : list A) : Z :=
  sum_Z (map (λ x, if P x then 1 else 0) l).

Section Window.
Context (origin : Time) (dur : Duration).

Definition in_slot (n : Z) (x : Time * bool) : bool := slot origin dur x.1 =? n.
Definition in_slots (cur : Z) (k : nat) (x : Time * bool) : bool :=
  (cur - Z.of_nat k <? slot origin dur x.1) && (slot origin dur x.1 <=? cur).

Definition bucket_of (log : list (Time * bool)) (n : Z) : bucket :=
  mkBucket (i64 (cnt (in_slot n) log)) (i64 (cnt (λ x, x.2 && in_slot n x) log)).

(** The ring holds, going back from [idx], the slots [cur], [cur - 1], ... *)
Definition Ring (bs : list bucket) (idx : nat) (log : list (Time * bool)) (cur : Z) : Prop :=
  length bs = windowBuckets ∧ (idx < windowBuckets)%nat ∧
  ∀ k, (k < windowBuckets)%nat →
    bs !! ((idx + windowBuckets - k) mod windowBuckets)%nat = Some (bucket_of log (cur - Z.of_nat k)).

Lemma cnt_cons {A} (P : A → bool) x l : cnt P (x :: l) = (if P x then 1 else 0) + cnt P l.
Proof. done. Qed.

Lemma cnt_split {A} (P Q R : A → bool) l :
  (∀ x, (if R x then 1 else 0) = (if P x then 1 else 0) + (if Q x then 1 else 0)) →
  cnt R l = cnt P l + cnt Q l.
Proof. intros H. induction l as [|x l IH]; [done|]. rewrite !cnt_cons, H, IH. lia. Qed.

Lemma cnt_none {A} (P : A → bool) l : (∀ x, x ∈ l → P x = false) → cnt P l = 0.
Proof.
  induction l as [|x l IH]; intros H; [done|]. rewrite cnt_cons.
  rewrite H by apply list_elem_of_here. rewrite IH; [done|]. auto using list_elem_of_further.
Qed.

(** Summing the slots gives the count over the whole range. *)
Lemma cnt_slots (P : Time * bool → bool) log cur n :
  sum_Z (map (λ k, cnt (λ x, P x && in_slot (cur - Z.of_nat k) x) log) (seq 0 n)) =
  cnt (λ x, P x && in_slots cur n x) log.
Proof.
  induction n as [|n IH].
  - symmetry. apply cnt_none. intros x _. unfold in_slots. destruct (P x); [|done]. cbn.
    rewrite Z.sub_0_r. destruct (Z.ltb_spec cur (slot origin dur x.1)); [|done]. cbn.
    apply Z.leb_gt. lia.
  - rewrite seq_S, map_app, sum_Z_app, IH. cbn.
    rewrite Z.add_0_r. symmetry. apply cnt_split. intros x. unfold in_slots, in_slot.
    destruct (P x); [|done]. cbn.
    repeat match goal with
    | |- context [?a <? ?b] => destruct (Z.ltb_spec a b)
    | |- context [?a <=? ?b] => destruct (Z.leb_spec a b)
    | |- context [?a =? ?b] => destruct (Z.eqb_spec a b)
    end; cbn; lia.
Qed.

Lemma mod_windowBuckets n :
  ((n mod windowBuckets) < windowBuckets)%nat.
Proof. apply Nat.mod_upper_bound. done. Qed.

(** Ten distinct positions: the sum over the ring is the sum over the slots. *)
Lemma Ring_sum (f : bucket → Z) bs idx log cur :
  Ring bs idx log cur →
  sum_Z (map f bs) = sum_Z (map (λ k, f (bucket_of log (cur - Z.of_nat k))) (seq 0 windowBuckets)).
Proof.
  unfold windowBuckets. intros (Hlen & Hidx & Hk). unfold windowBuckets in *.
  do 10 (destruct bs as [|? bs]; [done|]). destruct bs; [|done].
  pose proof (Hk 0%nat ltac:(lia)) as H0. pose proof (Hk 1%nat ltac:(lia)) as H1.
  pose proof (Hk 2%nat ltac:(lia)) as H2. pose proof (Hk 3%nat ltac:(lia)) as H3.
  pose proof (Hk 4%nat ltac:(lia)) as H4. pose proof (Hk 5%nat ltac:(lia)) as H5.
  pose proof (Hk 6%nat ltac:(lia)) as H6. pose proof (Hk 7%nat ltac:(lia)) as H7.
  pose proof (Hk 8%nat ltac:(lia)) as H8. pose proof (Hk 9%nat ltac:(lia)) as H9.
  clear Hk Hlen.
  do 10 (destruct idx as [|idx];
    [cbn in H0, H1, H2, H3, H4, H5, H6, H7, H8, H9; simplify_eq; cbn -[bucket_of Z.sub]; lia|]).
  lia.
Qed.

Lemma i64_sum_map l : i64 (sum_Z (map i64 l)) = i64 (sum_Z l).
Proof.
  induction l as [|x l IH]; [done|].
  change (i64 (i64 x + sum_Z (map i64 l)) = i64 (x + sum_Z l)).
  by rewrite i64_add_l, <- i64_add_r, IH, i64_add_r.
Qed.

Lemma countsLocked_sum b :
  countsLocked b = (i64 (sum_Z (map total (buckets b))), i64 (sum_Z (map failures (buckets b)))).
Proof.
  unfold countsLocked. generalize (buckets b). intros l.
  assert (∀ l a c, in_i64 a → in_i64 c →
    foldl (λ acc bkt, (i64 (acc.1 + total bkt), i64 (acc.2 + failures bkt))) (a, c) l =
    (i64 (a + sum_Z (map total l)), i64 (c + sum_Z (map failures l)))) as H.
  { clear l. induction l as [|x l IH]; intros a c Ha Hc; cbn.
    - by rewrite !Z.add_0_r, !i64_id.
    - rewrite IH by apply i64_range. by rewrite !i64_add_l, !Z.add_assoc. }
  by rewrite H.
Qed.

(** The counts the breaker decides on are the counts over the last ten slots. *)
Lemma Ring_counts b log cur :
  Ring (buckets b) (bucketIndex b) log cur →
  countsLocked b =
    (i64 (cnt (in_slots cur windowBuckets) log),
     i64 (cnt (λ x, x.2 && in_slots cur windowBuckets x) log)).
Proof.
  intros HR. rewrite countsLocked_sum, !(Ring_sum _ _ _ _ _ HR).
  assert (∀ g : nat → Z, sum_Z (map (λ k, i64 (g k)) (seq 0 windowBuckets)) =
    sum_Z (map i64 (map g (seq 0 windowBuckets)))) as Hm by (intros; by rewrite map_map).
  cbn [total failures bucket_of]. rewrite !Hm, !i64_sum_map. f_equal; f_equal.
  - apply (cnt_slots (λ _, true)).
  - apply (cnt_slots snd).
Qed.

Lemma bucket_of_fresh log n :
  (∀ x, x ∈ log → slot origin dur x.1 < n) → bucket_of log n = mkBucket 0 0.
Proof.
  intros H. unfold bucket_of. rewrite !cnt_none; [done| |]; intros x Hx; unfold in_slot;
    apply H in Hx; rewrite ?andb_false_iff, Z.eqb_neq; lia || (right; lia).
Qed.

Lemma Ring_empty log cur :
  (∀ x, x ∈ log → slot origin dur x.1 + Z.of_nat windowBuckets ≤ cur) →
  Ring emptyBuckets 0 log cur.
Proof.
  intros H. split_and!; [done|unfold windowBuckets; lia|]. intros k Hk.
  rewrite bucket_of_fresh.
  - apply lookup_replicate. auto using mod_windowBuckets.
  - intros x Hx. apply H in Hx. lia.
Qed.

Lemma Ring_step bs idx log cur :
  (∀ x, x ∈ log → slot origin dur x.1 ≤ cur) → Ring bs idx log cur →
  let i := ((idx + 1) mod windowBuckets)%nat in
  Ring (<[i := mkBucket 0 0]> bs) i log (cur + 1).
Proof.
  intros Hlog (Hlen & Hidx & Hk) i.
  assert (i < windowBuckets)%nat as Hi by apply mod_windowBuckets.
  split_and!; [by rewrite length_insert|done|]. intros [|k] Hk'.
  - rewrite bucket_of_fresh by (intros x Hx; apply Hlog in Hx; lia).
    replace ((i + windowBuckets - 0) mod windowBuckets)%nat with i.
    + apply list_lookup_insert_eq. by rewrite Hlen.
    + rewrite Nat.sub_0_r, Nat.Div0.add_mod, Nat.Div0.mod_same, Nat.add_0_r, Nat.Div0.mod_mod.
      symmetry. by apply Nat.mod_small.
  - specialize (Hk k ltac:(lia)).
    assert (((i + windowBuckets - S k) mod windowBuckets)%nat =
            ((idx + windowBuckets - k) mod windowBuckets)%nat) as Hpos.
    { subst i. unfold windowBuckets in *. zify. Z.to_euclidean_division_equations. lia. }
    assert (i ≠ (idx + windowBuckets - k) mod windowBuckets)%nat as Hne.
    { subst i. unfold windowBuckets in *. zify. Z.to_euclidean_division_equations. lia. }
    rewrite Hpos, list_lookup_insert_ne by done. rewrite Hk. do 2 f_equal. lia.
Qed.

Lemma Ring_advance_loop n : ∀ bs idx log cur,
  (∀ x, x ∈ log → slot origin dur x.1 ≤ cur) → Ring bs idx log cur →
  Ring (advance_loop n bs idx).1 (advance_loop n bs idx).2 log (cur + Z.of_nat n).
Proof.
  induction n as [|n IH]; intros bs idx log cur Hlog HR.
  - cbn. by rewrite Z.add_0_r.
  - cbn [advance_loop]. replace (cur + Z.of_nat (S n)) with (cur + 1 + Z.of_nat n) by lia.
    apply IH; [|by apply Ring_step]. intros x Hx. apply Hlog in Hx. lia.
Qed.

(** [advanceLocked] moves the ring to the slot of [now]. *)
Lemma Ring_advance b log cur now :
  0 < dur → bucketDur b = dur → bucketStart b = origin + cur * dur →
  bucketStart b ≤ now → now - bucketStart b ≤ max_i64 →
  (∀ x, x ∈ log → slot origin dur x.1 ≤ cur) →
  Ring (buckets b) (bucketIndex b) log cur →
  let b' := advanceLocked b now in
  bucketStart b' = origin + slot origin dur now * dur ∧ bucketStart b' ≤ now ∧
  cur ≤ slot origin dur now ∧
  Ring (buckets b') (bucketIndex b') log (slot origin dur now).
Proof.
  intros Hd Hbd Hbs Hle Hmax Hlog HR. cbv zeta. unfold advanceLocked.
  assert (time_sub now (bucketStart b) = now - bucketStart b) as ->
    by (apply time_sub_exact; unfold in_i64, min_i64; lia).
  rewrite Hbd. set (e := now - bucketStart b).
  assert (slot origin dur now = cur + e / dur) as Hslot.
  { unfold slot. replace (now - origin) with (e + cur * dur) by lia.
    rewrite Z.div_add by lia. lia. }
  pose proof (Z.mul_div_le e dur Hd) as Hle1.
  pose proof (Z.mul_succ_div_gt e dur Hd) as Hlt1.
  destruct (Z.ltb_spec e dur).
  - assert (e / dur = 0) as H0 by (apply Z.div_small; lia).
    rewrite Hslot, H0, !Z.add_0_r. split_and!; try done; lia.
  - rewrite Z.quot_div_nonneg by lia.
    assert (0 ≤ e / dur) by (apply Z.div_pos; lia).
    rewrite i64_id by (unfold in_i64, min_i64, max_i64 in *; lia).
    rewrite Hslot. destruct (Z.leb_spec (Z.of_nat windowBuckets) (e / dur)).
    + cbn [with_window bucketStart buckets bucketIndex]. unfold time_add.
      split_and!; [lia..|]. apply Ring_empty. intros x Hx. apply Hlog in Hx. lia.
    + destruct (advance_loop _ _ _) as [bs i] eqn:E.
      cbn [with_window bucketStart buckets bucketIndex]. unfold time_add.
      split_and!; [lia..|].
      pose proof (Ring_advance_loop (Z.to_nat (e / dur)) _ _ _ _ Hlog HR) as H'.
      rewrite E in H'. by rewrite Z2Nat.id in H'.
Qed.

(** Counting an outcome in the current slot. *)
Lemma Ring_record b log cur now fail :
  slot origin dur now = cur → Ring (buckets b) (bucketIndex b) log cur →
  Ring (alter (λ bkt, mkBucket (i64 (total bkt + 1))
                (if fail : bool then i64 (failures bkt + 1) else failures bkt))
          (bucketIndex b) (buckets b)) (bucketIndex b) ((now, fail) :: log) cur.
Proof.
  intros Hs (Hlen & Hidx & Hk). split_and!; [by rewrite length_alter|done|].
  intros [|k] Hk'.
  - specialize (Hk 0%nat Hk').
    replace ((bucketIndex b + windowBuckets - 0) mod windowBuckets)%nat with (bucketIndex b) in *.
    2:{ rewrite Nat.sub_0_r, Nat.Div0.add_mod, Nat.Div0.mod_same, Nat.add_0_r, Nat.Div0.mod_mod.
        symmetry. by apply Nat.mod_small. }
    assert (in_slot (cur - Z.of_nat 0) (now, fail) = true) as Hin
      by (unfold in_slot; apply Z.eqb_eq; cbn; lia).
    rewrite list_lookup_alter_eq, Hk. unfold bucket_of. rewrite !cnt_cons, Hin.
    destruct fail; cbn [fmap option_fmap option_map total failures snd andb];
      rewrite ?i64_add_l, ?(Z.add_comm 1), ?Z.add_0_l; done.
  - rewrite list_lookup_alter_ne.
    2:{ unfold windowBuckets in *. zify. Z.to_euclidean_division_equations. lia. }
    assert (in_slot (cur - Z.of_nat (S k)) (now, fail) = false) as Hin
      by (unfold in_slot; apply Z.eqb_neq; cbn [fst]; lia).
    rewrite Hk by done. unfold bucket_of. rewrite !cnt_cons, Hin.
    by rewrite andb_false_r, !Z.add_0_l.
Qed.
End Window.

(** ** Interleaved callers *)

(** A breaker shared by many callers: the permits of the calls in flight, and
    the abstract window. [clock] is the latest reading. *)
Record World := mkWorld {
  brk : Breaker;
  inflight : list Permit;
  log : list (Time * bool);
  origin : Time;
  clock : Time;
}.

(** What recording an outcome does to the abstract window: an outcome of the
    current generation is added unless it is ignored or decides a probe, and a
    successful probe restarts the window. *)
Definition decides_close (b : Breaker) (p : Permit) (o : Outcome) : bool :=
  (permit_generation p =? generation b) && bool_decide (o = Success) &&
  bool_decide (state b = StateHalfOpen).
Definition is_counted (b : Breaker) (p : Permit) (o : Outcome) : bool :=
  (permit_generation p =? generation b) && bool_decide (o ≠ Ignored) &&
  bool_decide (state b ≠ StateHalfOpen).
Definition log_after (w : World) (p : Permit) (o : Outcome) (t : Time) : list (Time * bool) :=
  if decides_close (brk w) p o then []
  else if is_counted (brk w) p o then (t, bool_decide (o = Failure)) :: log w else log w.
Definition origin_after (w : World) (p : Permit) (o : Outcome) (t : Time) : Time :=
  if decides_close (brk w) p o then t else origin w.

(** The clock never runs backwards and never gets further than the [Duration]
    range (292 years) from the last restart of the window. *)
Definition tick_ok (w : World) (t : Time) : Prop := clock w ≤ t ∧ t - origin w ≤ max_i64.

(** One critical section of some caller. A caller records a permit it holds,
    once. *)
Inductive wstep (w : World) : World → Prop :=
| step_allow t :
    tick_ok w t →
    wstep w (mkWorld (Allow (brk w) t).1.1
      (match (Allow (brk w) t).1.2 with Ok p => p :: inflight w | Err _ => inflight w end)
      (log w) (origin w) t)
| step_record t p o l1 l2 :
    tick_ok w t → inflight w = l1 ++ p :: l2 →
    wstep w (mkWorld (Record_ (brk w) p o t).1 (l1 ++ l2) (log_after w p o t)
      (origin_after w p o t) t)
| step_snapshot t :
    tick_ok w t →
    wstep w (mkWorld (Snapshot_ (brk w) t).1 (inflight w) (log w) (origin w) t).

Definition initial (n : string) (c : Config) (cb : bool) (t0 : Time) : World :=
  mkWorld (NewWithClock n c cb t0) [] [] t0 t0.

(** [reach w0 n w]: [n] critical sections lead from [w0] to [w]. *)
Inductive reach (w0 : World) : nat → World → Prop :=
| reach_0 : reach w0 0 w0
| reach_S n w w' : reach w0 n w → wstep w w' → reach w0 (S n) w'.

(** *** Fields each operation leaves alone *)

Lemma advanceLocked_fields b t :
  let b' := advanceLocked b t in
  name b' = name b ∧ cfg b' = cfg b ∧ state b' = state b ∧ generation b' = generation b ∧
  openedAt b' = openedAt b ∧ probeInFlight b' = probeInFlight b ∧ bucketDur b' = bucketDur b ∧
  rejected b' = rejected b ∧ onTransition b' = onTransition b.
Proof. unfold advanceLocked. cbv zeta. repeat case_match; by split_and!. Qed.

Ltac advance_fields b t :=
  destruct (advanceLocked_fields b t)
    as (?Hname & ?Hcfg & ?Hstate & ?Hgen & ?Hopened & ?Hprobe & ?Hdur & ?Hrej & ?Hcb).

(** *** The permit discipline *)

Definition current (b : Breaker) (ps : list Permit) : list Permit :=
  filter (λ p, permit_generation p = generation b) ps.

Definition Permits (n : nat) (b : Breaker) (ps : list Permit) : Prop :=
  0 ≤ generation b ≤ Z.of_nat n ∧
  Forall (λ p, valid p = true ∧ permit_generation p ≤ generation b) ps ∧
  Forall (λ p, probe p = bool_decide (state b = StateHalfOpen)) (current b ps) ∧
  (state b ≠ StateHalfOpen → probeInFlight b = false) ∧
  (state b = StateOpen → current b ps = []) ∧
  (state b = StateHalfOpen → length (current b ps) = if probeInFlight b then 1%nat else 0%nat).

Lemma current_fresh b ps :
  Forall (λ p, permit_generation p < generation b) ps → current b ps = [].
Proof.
  intros H. induction H as [|p ps Hp _ IH]; [done|]. unfold current in *.
  rewrite filter_cons_False; [done|lia].
Qed.

(** [Permits] only looks at the state, the generation and the probe flag. *)
Lemma Permits_ext n n' b b' ps :
  state b' = state b → generation b' = generation b → probeInFlight b' = probeInFlight b →
  (n ≤ n')%nat → Permits n b ps → Permits n' b' ps.
Proof.
  intros Hs Hg Hp Hn. unfold Permits, current. rewrite Hs, Hg, Hp.
  intros; destruct_and!. split_and!; try done; lia.
Qed.

(** A state change starts a generation no permit in flight belongs to. *)
Lemma Permits_setState n b ps s t :
  Z.of_nat n < 2 ^ 64 - 1 → 0 ≤ generation b ≤ Z.of_nat n →
  Forall (λ p, valid p = true ∧ permit_generation p ≤ generation b) ps → state b ≠ s →
  Permits (S n) (setStateLocked b s t).1 ps ∧ probeInFlight (setStateLocked b s t).1 = false ∧
  state (setStateLocked b s t).1 = s ∧ current (setStateLocked b s t).1 ps = [].
Proof.
  intros Hn Hg Hps Hs. unfold setStateLocked. destruct (decide (state b = s)); [done|]. cbn [fst].
  set (b1 := mkBreaker _ _ _ _ _ _ _ _ _ _ _ _).
  set (b2 := if decide (s = StateClosed) then _ else b1).
  assert (state b2 = s ∧ generation b2 = generation b + 1 ∧ probeInFlight b2 = false)
    as (Hs2 & Hg2 & Hp2).
  { subst b2. case_decide; cbn; rewrite u64_id by lia; done. }
  assert (current b2 ps = []) as Hc.
  { apply current_fresh. eapply Forall_impl; [done|]. cbn. intros ? [??]. lia. }
  split_and!; [|done..]. unfold Permits. rewrite Hc, Hs2, Hg2, Hp2.
  split_and!; try done; [lia..|].
  eapply Forall_impl; [done|]. cbn. intros ? [??]. split; [done|lia].
Qed.

(** Handing out a permit of the current generation. *)
Lemma Permits_issue n b b' ps :
  Permits n b ps → state b ≠ StateOpen → state b' = state b → generation b' = generation b →
  probeInFlight b' = bool_decide (state b = StateHalfOpen) →
  (state b = StateHalfOpen → probeInFlight b = false) →
  Permits n b' (mkPermit (generation b) (bool_decide (state b = StateHalfOpen)) true :: ps).
Proof.
  intros (? & ? & Hpr & Hpf & ? & Hlen) Ho Hs Hg Hp Hf. unfold Permits, current in *.
  rewrite Hs, Hg, Hp. rewrite filter_cons_True by done.
  split_and!; try done; [lia..| | | |].
  - constructor; [split; [done|cbn; lia]|done].
  - by constructor.
  - intros. by rewrite bool_decide_eq_false_2.
  - intros Hh. rewrite bool_decide_eq_true_2 by done. cbn. by rewrite Hlen, Hf.
Qed.

Lemma Permits_allow n b ps t :
  Z.of_nat n < 2 ^ 64 - 1 → Permits n b ps →
  Permits (S n) (Allow b t).1.1
    (match (Allow b t).1.2 with Ok p => p :: ps | Err _ => ps end).
Proof.
  intros Hn HP. unfold Allow, allowLocked. advance_fields b t.
  set (b1 := advanceLocked b t) in *.
  assert (Permits (S n) b1 ps) as HP1 by (eapply Permits_ext; [..|exact HP]; done || lia).
  destruct HP as (Hg & Hps & _). rewrite <- Hgen in Hg, Hps.
  assert (∃ b2 ev, (if bool_decide (state b1 = StateOpen) &&
      (OpenDuration (cfg b1) <=? time_sub t (openedAt b1))
    then setStateLocked b1 StateHalfOpen t else (b1, None)) = (b2, ev) ∧ Permits (S n) b2 ps)
    as (b2 & ev & -> & HP2).
  { destruct (bool_decide (state b1 = StateOpen) && _) eqn:Ho; [|by exists b1, None].
    apply andb_true_iff in Ho as [Ho%bool_decide_eq_true _].
    destruct (Permits_setState n b1 ps StateHalfOpen t Hn Hg Hps) as (HP2 & _); [congruence|].
    destruct (setStateLocked b1 StateHalfOpen t) as [b2 ev]. by exists b2, ev. }
  assert (∀ r, Permits (S n) (with_rejected b2 r) ps) as Hr
    by (intros; eapply Permits_ext; [..|exact HP2]; done).
  pose proof (Permits_issue (S n) b2) as Hi. pose proof HP2 as (_ & _ & _ & Hf & _).
  destruct (state b2) eqn:Hs; cbn; [|destruct (probeInFlight b2) eqn:Hp; cbn; [done|]|done].
  - apply Hi; try done. by apply Hf.
  - by apply Hi.
Qed.

(** Giving a permit back. *)
Lemma Permits_drop n b p l1 l2 :
  Permits n b (l1 ++ p :: l2) → permit_generation p ≠ generation b → Permits n b (l1 ++ l2).
Proof.
  intros (? & Hps & Hpr & ? & Ho & Hlen) Hne. unfold Permits, current in *.
  rewrite filter_app in *. rewrite filter_cons_False in * by done. rewrite <- filter_app in *.
  apply Forall_app in Hps as [? [_ ?]%Forall_cons].
  split_and!; try done; [lia..|]. by apply Forall_app.
Qed.

Lemma Permits_return n b p l1 l2 :
  Permits n b (l1 ++ p :: l2) → permit_generation p = generation b →
  let b' := if probe p then with_probe b false else b in
  Permits n b' (l1 ++ l2) ∧ state b' ≠ StateOpen ∧ state b' = state b ∧
  generation b' = generation b.
Proof.
  intros (? & Hps & Hpr & Hf & Ho & Hlen) He. cbv zeta.
  set (b' := if probe p then _ else _).
  assert (state b' = state b ∧ generation b' = generation b) as [Hs Hg]
    by (subst b'; by destruct (probe p)).
  assert (probeInFlight b' = if probe p then false else probeInFlight b) as Hp
    by (subst b'; by destruct (probe p)).
  rewrite Hs. unfold Permits, current in *. rewrite Hs, Hg, Hp.
  rewrite filter_app in *. rewrite filter_cons_True in * by done.
  apply Forall_app in Hps as [? [? ?]%Forall_cons].
  apply Forall_app in Hpr as [? [Hpp ?]%Forall_cons].
  assert (state b ≠ StateOpen) as Hno.
  { intros Hst. specialize (Ho Hst). by destruct (filter _ l1). }
  split_and!; try done; [lia..| | | |].
  - by rewrite Forall_app.
  - by rewrite Forall_app.
  - intros. by rewrite Hf; destruct (probe p).
  - intros Hh. rewrite Hpp, bool_decide_eq_true_2 by done. specialize (Hlen Hh).
    rewrite length_app in *. cbn in Hlen. destruct (probeInFlight b); lia.
Qed.

Lemma Permits_record n b p o t l1 l2 :
  Z.of_nat n < 2 ^ 64 - 1 → Permits n b (l1 ++ p :: l2) →
  Permits (S n) (Record_ b p o t).1 (l1 ++ l2).
Proof.
  intros Hn HP. unfold Record_, recordLocked.
  assert (valid p = true) as -> by (destruct HP as (_ & [_ [[? _] _]%Forall_cons]%Forall_app & _); done).
  destruct (Z.eqb_spec (permit_generation p) (generation b)) as [He|Hne]; cbn [negb].
  2:{ eapply Permits_drop in HP; [|done]. eapply Permits_ext; [..|exact HP]; done || lia. }
  destruct (Permits_return n b p l1 l2 HP He) as (HP1 & Hno & _ & _).
  set (b1 := if probe p then _ else _) in *. advance_fields b1 t.
  destruct (decide (o = Ignored)); cbn [fst].
  { eapply Permits_ext; [..|exact HP1]; done || lia. }
  set (b2 := advanceLocked b1 t) in *.
  assert (∀ bs i st, Permits (S n) (with_window b2 bs i st) (l1 ++ l2)) as Hw
    by (intros; eapply Permits_ext; [..|exact HP1]; done || lia).
  destruct HP1 as (Hg & Hps & _).
  assert (∀ bs i st s, state b2 ≠ s →
    Permits (S n) (setStateLocked (with_window b2 bs i st) s t).1 (l1 ++ l2)) as Hset.
  { intros. apply Permits_setState; cbn; rewrite ?Hgen; done. }
  assert (∀ s, state b2 ≠ s → Permits (S n) (setStateLocked b2 s t).1 (l1 ++ l2)) as Hset'.
  { intros. apply Permits_setState; rewrite ?Hgen; done. }
  destruct (decide (state b2 = StateHalfOpen)) as [Hh|Hh].
  - destruct (decide (o = Failure)).
    + specialize (Hset' StateOpen ltac:(congruence)). by destruct (setStateLocked _ _ _).
    + specialize (Hset' StateClosed ltac:(congruence)). by destruct (setStateLocked _ _ _).
  - cbv zeta. destruct (bool_decide _ && _) eqn:Hc; [|apply Hw].
    assert (state b2 ≠ StateOpen) as Ho by congruence.
    specialize (Hset (alter (λ bkt, mkBucket (i64 (total bkt + 1))
      (if decide (o = Failure) then i64 (failures bkt + 1) else failures bkt))
        (bucketIndex b2) (buckets b2)) (bucketIndex b2) (bucketStart b2) StateOpen Ho).
    by destruct (setStateLocked _ _ _).
Qed.

Lemma reach_permits w0 n w :
  Permits 0 (brk w0) (inflight w0) → reach w0 n w → Z.of_nat n < 2 ^ 64 →
  Permits n (brk w) (inflight w).
Proof.
  intros H0. induction 1 as [|n w w' Hr IH Hs]; intros Hn; [done|].
  specialize (IH ltac:(lia)).
  destruct Hs as [t Ht|t p o l1 l2 Ht Hin|t Ht]; cbn [brk inflight].
  - apply Permits_allow; [lia|done].
  - apply Permits_record; [lia|by rewrite <- Hin].
  - unfold Snapshot_. cbn [fst]. advance_fields (brk w) t.
    eapply Permits_ext; [..|exact IH]; done || lia.
Qed.

(** *** The ring refines the log *)

Definition Win (b : Breaker) (lg : list (Time * bool)) (org clk : Time) : Prop :=
  0 < bucketDur b ∧ ∃ cur,
    bucketStart b = org + cur * bucketDur b ∧ 0 ≤ cur ∧ bucketStart b ≤ clk ∧
    (∀ x, x ∈ lg → x.1 ≤ clk ∧ slot org (bucketDur b) x.1 ≤ cur) ∧
    Ring org (bucketDur b) (buckets b) (bucketIndex b) lg cur.

Lemma Win_ext b b' lg org clk :
  buckets b' = buckets b → bucketIndex b' = bucketIndex b → bucketStart b' = bucketStart b →
  bucketDur b' = bucketDur b → Win b lg org clk → Win b' lg org clk.
Proof. unfold Win. by intros -> -> -> ->. Qed.

Lemma Win_tick b lg org clk t : clk ≤ t → Win b lg org clk → Win b lg org t.
Proof.
  intros Ht (Hd & cur & ? & ? & ? & Hl & ?). split; [done|]. exists cur. split_and!; try done; [lia|].
  intros x Hx. apply Hl in Hx. lia.
Qed.

(** After [advanceLocked] the current bucket is the slot of the clock. *)
Lemma Win_advance b lg org clk t :
  Win b lg org clk → clk ≤ t → t - org ≤ max_i64 →
  Win (advanceLocked b t) lg org t ∧
  bucketStart (advanceLocked b t) = org + slot org (bucketDur b) t * bucketDur b ∧
  Ring org (bucketDur b) (buckets (advanceLocked b t)) (bucketIndex (advanceLocked b t)) lg
    (slot org (bucketDur b) t).
Proof.
  intros (Hd & cur & Hbs & Hcur & Hclk & Hl & HR) Ht Hmax. advance_fields b t.
  destruct (Ring_advance org (bucketDur b) b lg cur t) as (Hs & Hle & Hc & HR'); try done;
    [lia|nia|intros x Hx; by apply Hl|].
  split_and!; try done. unfold Win. rewrite Hdur. split; [done|].
  exists (slot org (bucketDur b) t). split_and!; try done; [lia|].
  intros x Hx. apply Hl in Hx. lia.
Qed.

Lemma Win_setState b lg org clk s t :
  s ≠ StateClosed → Win b lg org clk → Win (setStateLocked b s t).1 lg org clk.
Proof.
  intros Hs. unfold setStateLocked. case_decide; [done|]. case_decide; [done|].
  by apply Win_ext.
Qed.

Lemma Win_close b lg org clk t :
  state b ≠ StateClosed → Win b lg org clk → Win (setStateLocked b StateClosed t).1 [] t t.
Proof.
  intros Hs (Hd & _). unfold setStateLocked. case_decide; [done|]. split; [done|]. exists 0.
  cbn [fst bucketStart bucketDur buckets bucketIndex with_window decide].
  case_decide; [|done]. cbn -[Ring]. split_and!; try lia.
  - intros x Hx. by apply elem_of_nil in Hx.
  - apply Ring_empty. intros x Hx. by apply elem_of_nil in Hx.
Qed.

Lemma Win_allow b lg org clk t :
  Win b lg org clk → clk ≤ t → t - org ≤ max_i64 → Win (Allow b t).1.1 lg org t.
Proof.
  intros HW Ht Hmax. destruct (Win_advance b lg org clk t HW Ht Hmax) as (HW1 & _).
  unfold Allow, allowLocked. set (b1 := advanceLocked b t) in *.
  assert (∃ b2 ev, (if bool_decide (state b1 = StateOpen) &&
      (OpenDuration (cfg b1) <=? time_sub t (openedAt b1))
    then setStateLocked b1 StateHalfOpen t else (b1, None)) = (b2, ev) ∧ Win b2 lg org t)
    as (b2 & ev & -> & HW2).
  { case_match; [|by exists b1, None].
    pose proof (Win_setState b1 lg org t StateHalfOpen t) as H'.
    destruct (setStateLocked b1 StateHalfOpen t) as [b2 ev]. exists b2, ev. auto. }
  destruct (state b2); [done|destruct (probeInFlight b2)|]; by eapply Win_ext, HW2.
Qed.

Lemma Win_count b lg org t o :
  Win b lg org t →
  Ring org (bucketDur b) (buckets b) (bucketIndex b) lg (slot org (bucketDur b) t) →
  bucketStart b = org + slot org (bucketDur b) t * bucketDur b →
  Win (with_window b (alter (λ bkt, mkBucket (i64 (total bkt + 1))
         (if decide (o = Failure) then i64 (failures bkt + 1) else failures bkt))
         (bucketIndex b) (buckets b)) (bucketIndex b) (bucketStart b))
      ((t, bool_decide (o = Failure)) :: lg) org t.
Proof.
  intros (Hd & cur & Hbs & Hcur & Hclk & Hl & _) HR Hst. split; [done|].
  exists (slot org (bucketDur b) t). cbn [with_window bucketStart bucketDur buckets bucketIndex].
  assert (cur = slot org (bucketDur b) t) as -> by nia.
  split_and!; try done.
  - intros x [->|Hx]%elem_of_cons; [cbn [fst]; lia|by apply Hl].
  - pose proof (Ring_record org (bucketDur b) b lg _ t (bool_decide (o = Failure)) eq_refl HR) as H'.
    by destruct o.
Qed.

Lemma Win_record b p o t lg org clk ps :
  valid p = true → Win b lg org clk → clk ≤ t → t - org ≤ max_i64 →
  let w := mkWorld b ps lg org clk in
  Win (Record_ b p o t).1 (log_after w p o t) (origin_after w p o t) t.
Proof.
  intros Hv HW Ht Hmax. cbv zeta. unfold Record_, recordLocked, log_after, origin_after,
    decides_close, is_counted. cbn [brk log origin]. rewrite Hv. cbn [negb].
  destruct (Z.eqb_spec (permit_generation p) (generation b)); cbn [negb andb].
  2:{ by eapply Win_tick. }
  set (b1 := if probe p then with_probe b false else b).
  assert (Win b1 lg org clk) as HW1
    by (subst b1; destruct (probe p); [by eapply Win_ext, HW|done]).
  assert (state b1 = state b) as Hs1 by (subst b1; by destruct (probe p)).
  destruct (decide (o = Ignored)) as [->|Hi].
  { cbn. by eapply Win_tick. }
  destruct (Win_advance b1 lg org clk t HW1 Ht Hmax) as (HW2 & Hst2 & HR2).
  advance_fields b1 t. rewrite <- Hdur in HR2, Hst2. rewrite <- Hs1, <- Hstate.
  set (b2 := advanceLocked b1 t) in *.
  rewrite (bool_decide_eq_true_2 (o ≠ Ignored)) by done.
  destruct (decide (state b2 = StateHalfOpen)) as [Hh|Hh].
  - rewrite (bool_decide_eq_true_2 (state b2 = StateHalfOpen)), (bool_decide_eq_false_2 (state b2 ≠ StateHalfOpen)), andb_true_r
      by naive_solver.
    destruct (decide (o = Failure)) as [->|].
    + pose proof (Win_setState b2 lg org t StateOpen t) as H'.
      rewrite bool_decide_eq_false_2 by done. cbn.
      destruct (setStateLocked b2 StateOpen t). by apply H'.
    + assert (o = Success) as -> by (by destruct o). cbn.
      pose proof (Win_close b2 lg org t t) as H'.
      destruct (setStateLocked b2 StateClosed t). apply H'; [congruence|done].
  - rewrite (bool_decide_eq_false_2 (state b2 = StateHalfOpen)), (bool_decide_eq_true_2 (state b2 ≠ StateHalfOpen)), andb_false_r
      by done. cbn [andb].
    pose proof (Win_count b2 lg org t o HW2 HR2 Hst2) as HW3.
    cbv zeta. set (b3 := with_window b2 _ _ _) in *. destruct (bool_decide _ && _); [|done].
    pose proof (Win_setState b3 _ _ _ StateOpen t ltac:(done) HW3) as H'.
    by destruct (setStateLocked b3 StateOpen t).
Qed.

Lemma reach_window w0 n w :
  Permits 0 (brk w0) (inflight w0) → Win (brk w0) (log w0) (origin w0) (clock w0) →
  reach w0 n w → Z.of_nat n < 2 ^ 64 →
  Win (brk w) (log w) (origin w) (clock w).
Proof.
  intros HP H0. induction 1 as [|n w w' Hr IH Hs]; intros Hn; [done|].
  specialize (IH ltac:(lia)).
  destruct Hs as [t [Ht Hm]|t p o l1 l2 [Ht Hm] Hin|t [Ht Hm]]; cbn [brk log origin clock].
  - by eapply Win_allow.
  - destruct (reach_permits w0 n w HP Hr ltac:(lia)) as (_ & Hv & _).
    rewrite Hin in Hv. apply Forall_app in Hv as [_ [[Hv _] _]%Forall_cons].
    destruct w as [b ps lg org clk]. by eapply (Win_record b p o t lg org clk ps).
  - by eapply Win_advance.
Qed.

Lemma initial_permits nm c cb t0 :
  Permits 0 (brk (initial nm c cb t0)) (inflight (initial nm c cb t0)).
Proof. unfold Permits. cbn. split_and!; by try constructor. Qed.

Lemma initial_window nm c cb t0 :
  10 ≤ Window (withDefaults c) →
  Win (brk (initial nm c cb t0)) (log (initial nm c cb t0)) t0 t0.
Proof.
  intros Hw. split.
  - change (0 < Z.quot (Window (withDefaults c)) 10).
    rewrite Z.quot_div_nonneg by lia. apply Z.div_str_pos. lia.
  - exists 0. cbn -[withDefaults Ring]. split_and!; try lia.
    + intros x Hx. by apply elem_of_nil in Hx.
    + apply Ring_empty. intros x Hx. by apply elem_of_nil in Hx.
Qed.

(** The abstract counts: outcomes, and failed outcomes, of the last ten slots. *)
Definition window_total (lg : list (Time * bool)) (org : Time) (dur : Duration) (t : Time) : Z :=
  cnt (in_slots org dur (slot org dur t) windowBuckets) lg.
Definition window_failures (lg : list (Time * bool)) (org : Time) (dur : Duration) (t : Time) : Z :=
  cnt (λ x, x.2 && in_slots org dur (slot org dur t) windowBuckets x) lg.

Lemma Win_counts b lg org clk t :
  Win b lg org clk → clk ≤ t → t - org ≤ max_i64 →
  countsLocked (advanceLocked b t) =
    (i64 (window_total lg org (bucketDur b) t), i64 (window_failures lg org (bucketDur b) t)).
Proof.
  intros HW Ht Hm. destruct (Win_advance b lg org clk t HW Ht Hm) as (_ & _ & HR).
  by apply Ring_counts.
Qed.

Lemma in_slots_age org dur t (x : Time * bool) :
  0 < dur → x.1 ≤ t →
  (t - x.1 ≤ 9 * dur → in_slots org dur (slot org dur t) windowBuckets x = true) ∧
  (in_slots org dur (slot org dur t) windowBuckets x = true → t - x.1 < 10 * dur).
Proof.
  intros Hd Hle. unfold in_slots, slot. rewrite andb_true_iff, Z.ltb_lt, Z.leb_le.
  change (Z.of_nat windowBuckets) with 10.
  pose proof (Z.mul_div_le (t - org) dur Hd).
  pose proof (Z.mul_succ_div_gt (t - org) dur Hd).
  pose proof (Z.mul_div_le (x.1 - org) dur Hd). pose proof (Z.mul_succ_div_gt (x.1 - org) dur Hd).
  split; [split|]; nia.
Qed.

(** [Allow] in each state, on the breaker with its window rolled forward. *)
Lemma Allow_closed b now :
  state b = StateClosed →
  Allow b now = (advanceLocked b now, Ok (mkPermit (generation b) false true), None).
Proof.
  intros Hs. unfold Allow, allowLocked. advance_fields b now.
  rewrite bool_decide_eq_false_2 by congruence. cbn. by rewrite Hstate, Hs, Hgen.
Qed.

Lemma Allow_half_open b now :
  state b = StateHalfOpen →
  let b1 := advanceLocked b now in
  Allow b now =
    if probeInFlight b
    then (with_rejected b1 (u64 (rejected b + 1)), Err (openErrorLocked b1 now), None)
    else (with_probe b1 true, Ok (mkPermit (generation b) true true), None).
Proof.
  intros Hs. unfold Allow, allowLocked. advance_fields b now.
  rewrite bool_decide_eq_false_2 by congruence. cbn. rewrite Hstate, Hs, Hprobe, Hgen, Hrej.
  by destruct (probeInFlight b).
Qed.

Lemma setStateLocked_half_open b now b2 ev :
  state b = StateOpen → setStateLocked b StateHalfOpen now = (b2, ev) →
  state b2 = StateHalfOpen ∧ generation b2 = u64 (generation b + 1) ∧ probeInFlight b2 = false.
Proof. intros Hs. unfold setStateLocked. rewrite Hs. cbn. by intros [= <- <-]. Qed.

Lemma Allow_open b now :
  state b = StateOpen →
  let b1 := advanceLocked b now in
  let '(b2, ev) := setStateLocked b1 StateHalfOpen now in
  Allow b now =
    if OpenDuration (cfg b) <=? time_sub now (openedAt b)
    then (with_probe b2 true, Ok (mkPermit (u64 (generation b + 1)) true true), emit b2 ev)
    else (with_rejected b1 (u64 (rejected b + 1)), Err (openErrorLocked b1 now), None).
Proof.
  intros Hs. cbv zeta. destruct (setStateLocked _ _ _) as [b2 ev] eqn:Hset.
  unfold Allow, allowLocked. advance_fields b now.
  destruct (setStateLocked_half_open (advanceLocked b now) now b2 ev ltac:(congruence) Hset) as (Hs2 & Hg2 & Hp2).
  rewrite bool_decide_eq_true_2, Hcfg, Hopened by congruence.
  destruct (_ <=? _); cbn [andb].
  - rewrite Hset, Hs2, Hp2. cbn. by rewrite Hg2, Hgen.
  - rewrite Hstate, Hs. cbn. by rewrite Hrej.
Qed.

Lemma State_effective b now :
  State_ b now =
    match state b with
    | StateOpen => if 0 <? i64 (OpenDuration (cfg b) - time_sub now (openedAt b))
                   then StateOpen else StateHalfOpen
    | s => s
    end.
Proof.
  unfold State_, Snapshot_, snapshotLocked. cbn [snd]. advance_fields b now.
  rewrite Hstate, Hcfg, Hopened. destruct (countsLocked _), (state b); try done. cbn.
  by destruct (0 <? _).
Qed.

(** An open breaker's remaining time, with the saturating subtraction exact. *)
Lemma open_elapsed b now :
  openedAt b ≤ now → 0 < OpenDuration (cfg b) ≤ max_i64 →
  (OpenDuration (cfg b) <=? time_sub now (openedAt b)) =
    negb (now - openedAt b <? OpenDuration (cfg b)) ∧
  (now - openedAt b < OpenDuration (cfg b) →
     i64 (OpenDuration (cfg b) - time_sub now (openedAt b)) =
       OpenDuration (cfg b) - (now - openedAt b)) ∧
  (OpenDuration (cfg b) ≤ now - openedAt b →
     i64 (OpenDuration (cfg b) - time_sub now (openedAt b)) ≤ 0).
Proof.
  intros Hle Hod. split_and!.
  - apply eq_bool_prop_intro. rewrite !Is_true_true, negb_true_iff, Z.leb_le, Z.ltb_ge.
    unfold time_sub, min_i64, max_i64 in *. lia.
  - intros Hlt. rewrite i64_id; unfold time_sub, in_i64, min_i64, max_i64 in *; lia.
  - intros Hge. rewrite i64_id; unfold time_sub, in_i64, min_i64, max_i64 in *; lia.
Qed.

Lemma setStateLocked_state b s t : state (setStateLocked b s t).1 = s.
Proof. unfold setStateLocked. repeat case_decide; by subst. Qed.

Lemma Record_state b p o t :
  valid p = true → permit_generation p = generation b → o ≠ Ignored →
  let b1 := advanceLocked (if probe p then with_probe b false else b) t in
  state (Record_ b p o t).1 =
    match state b with
    | StateHalfOpen => if decide (o = Failure) then StateOpen else StateClosed
    | StateClosed =>
        if trippedLocked (with_window b1 (alter (λ bkt, mkBucket (i64 (total bkt + 1))
             (if decide (o = Failure) then i64 (failures bkt + 1) else failures bkt))
             (bucketIndex b1) (buckets b1)) (bucketIndex b1) (bucketStart b1))
        then StateOpen else StateClosed
    | StateOpen => StateOpen
    end.
Proof.
  intros Hv Hg Hi. cbv zeta. unfold Record_, recordLocked. rewrite Hv, Hg, Z.eqb_refl. cbn [negb].
  set (b0 := if probe p then _ else b).
  assert (state b0 = state b) as Hs0 by (subst b0; by destruct (probe p)).
  destruct (decide (o = Ignored)); [done|]. advance_fields b0 t. set (b1 := advanceLocked b0 t) in *.
  cbv zeta. set (b2 := with_window b1 _ _ _). rewrite Hs0 in Hstate.
  assert (state b2 = state b) as Hs2 by done. rewrite Hs2, Hstate.
  pose proof (setStateLocked_state b1 StateOpen t). pose proof (setStateLocked_state b1 StateClosed t).
  pose proof (setStateLocked_state b2 StateOpen t).
  destruct (state b) eqn:Hs; cbn [decide bool_decide andb].
  - destruct (trippedLocked b2); [by destruct (setStateLocked b2 _ _)|done].
  - destruct (decide (o = Failure)); [by destruct (setStateLocked b1 StateOpen t)|
      by destruct (setStateLocked b1 StateClosed t)].
  - done.
Qed.

(** *** Claims *)

(** The ring of ten buckets implements a rolling window. After any
    interleaving of calls, for any reading of the clock from then on, the counts
    the breaker decides on are those of the outcomes recorded since the window
    last restarted that fall in the current or the nine preceding slots, so
    every outcome of the last nine tenths of the window is counted and none
    older than the window is. *)
Lemma rolling_window nm c cb t0 n w t :
  10 ≤ Window (withDefaults c) → reach (initial nm c cb t0) n w → Z.of_nat n < 2 ^ 64 →
  tick_ok w t →
  let b := brk w in let dur := bucketDur b in
  countsLocked (advanceLocked b t) =
    (i64 (window_total (log w) (origin w) dur t), i64 (window_failures (log w) (origin w) dur t)) ∧
  ∀ x, x ∈ log w →
    (t - x.1 ≤ 9 * dur → in_slots (origin w) dur (slot (origin w) dur t) windowBuckets x = true) ∧
    (in_slots (origin w) dur (slot (origin w) dur t) windowBuckets x = true → t - x.1 < 10 * dur).
Proof.
  intros Hw Hr Hn [Ht Hm]. cbv zeta.
  pose proof (reach_window _ _ _ (initial_permits nm c cb t0) (initial_window nm c cb t0 Hw) Hr Hn)
    as HW.
  split; [by eapply Win_counts|]. intros x Hx. destruct HW as (Hd & cur & _ & _ & _ & Hl & _).
  apply in_slots_age; [done|]. apply Hl in Hx. lia.
Qed.

(** C30: the half-open probe is single-flight. Whatever callers interleave, with
    each outcome reported once, while the breaker is half-open at most one call
    admitted since it last changed state is in flight, and it is a probe; a
    half-open breaker whose probe slot is free has none, so the slot never
    leaks. No call admitted since the breaker opened is in flight while it is
    open. *)
Theorem half_open_single_flight nm c cb t0 n w :
  reach (initial nm c cb t0) n w → Z.of_nat n < 2 ^ 64 →
  let b := brk w in let now_flying := current b (inflight w) in
  (state b = StateHalfOpen →
     length now_flying = (if probeInFlight b then 1%nat else 0%nat) ∧
     Forall (λ p, probe p = true) now_flying) ∧
  (state b = StateOpen → now_flying = []) ∧
  (state b = StateClosed → Forall (λ p, probe p = false) now_flying).
Proof.
  intros Hr Hn. cbv zeta.
  destruct (reach_permits _ _ _ (initial_permits nm c cb t0) Hr Hn) as (_ & _ & Hp & _ & Ho & Hh).
  split_and!; intros Hs; try (split; [by apply Hh|]); try (by apply Ho);
    eapply Forall_impl; [exact Hp| |exact Hp|]; cbn; intros p ->; by rewrite Hs.
Qed.

(** What [Allow] answers in each state. A closed breaker admits; an open
    one rejects until its open period has elapsed, announcing the exact time
    left; the first caller after that gets the probe of a new generation and
    moves it to half-open; a half-open one admits a probe only when none is in
    flight. [State] reports, without side effect, the state such a call would
    leave. *)
Lemma Allow_answers b now :
  openedAt b ≤ now → 0 < OpenDuration (cfg b) ≤ max_i64 →
  let b' := (Allow b now).1.1 in let r := (Allow b now).1.2 in
  let elapsed := now - openedAt b in
  State_ b now = state b' ∧
  match state b with
  | StateClosed => state b' = StateClosed ∧ r = Ok (mkPermit (generation b) false true)
  | StateOpen =>
      if elapsed <? OpenDuration (cfg b) then
        state b' = StateOpen ∧ rejected b' = u64 (rejected b + 1) ∧
        r = Err (mkOpenError (name b) (OpenDuration (cfg b) - elapsed))
      else
        state b' = StateHalfOpen ∧ probeInFlight b' = true ∧
        r = Ok (mkPermit (u64 (generation b + 1)) true true)
  | StateHalfOpen =>
      state b' = StateHalfOpen ∧ probeInFlight b' = true ∧
      if probeInFlight b then rejected b' = u64 (rejected b + 1) ∧ is_ok r = false
      else r = Ok (mkPermit (generation b) true true)
  end.
Proof.
  intros Hle Hod. cbv zeta. rewrite State_effective. advance_fields b now.
  destruct (state b) eqn:Hs.
  - rewrite Allow_closed by done. cbn. by rewrite Hstate.
  - rewrite Allow_half_open by done. destruct (probeInFlight b) eqn:Hp; cbn;
      rewrite ?Hstate, ?Hprobe; done.
  - pose proof (Allow_open b now Hs) as HA. cbv zeta in HA.
    destruct (setStateLocked _ _ _) as [b2 ev] eqn:Hset. rewrite HA.
    destruct (setStateLocked_half_open (advanceLocked b now) now b2 ev ltac:(congruence) Hset) as (Hs2 & _).
    destruct (open_elapsed b now Hle Hod) as (-> & Hrem & Hrem').
    destruct (Z.ltb_spec (now - openedAt b) (OpenDuration (cfg b))) as [Hlt|Hge]; cbn.
    + rewrite Hstate. unfold openErrorLocked. rewrite Hcfg, Hopened, Hname, Hrem by done.
      destruct (Z.ltb_spec 0 (OpenDuration (cfg b) - (now - openedAt b))); [|lia].
      destruct (Z.ltb_spec (OpenDuration (cfg b) - (now - openedAt b)) 0); [lia|done].
    + specialize (Hrem' Hge). destruct (Z.ltb_spec 0 (i64 (OpenDuration (cfg b) - time_sub now (openedAt b))));
        [lia|done].
Qed.

(** Which outcome moves the breaker where. In any reachable configuration
    an outcome of a superseded generation or an ignored one never changes the
    state. Otherwise a half-open breaker re-opens on failure and closes on
    success, and a closed one opens exactly when the rolling window including
    this outcome holds at least the minimum number of calls and the ratio of
    failed ones, as a float64 quotient, reaches the configured ratio. *)
Lemma Record_decides nm c cb t0 n w p o t :
  10 ≤ Window (withDefaults c) → reach (initial nm c cb t0) n w → Z.of_nat n < 2 ^ 64 →
  tick_ok w t → p ∈ inflight w →
  let b := brk w in let s' := state (Record_ b p o t).1 in
  let lg := log_after w p o t in
  let tot := i64 (window_total lg (origin w) (bucketDur b) t) in
  let fl := i64 (window_failures lg (origin w) (bucketDur b) t) in
  (permit_generation p ≠ generation b ∨ o = Ignored → s' = state b) ∧
  (permit_generation p = generation b → o ≠ Ignored →
     state b ≠ StateOpen ∧
     (state b = StateHalfOpen → s' = if decide (o = Failure) then StateOpen else StateClosed) ∧
     (state b = StateClosed →
        s' = if (MinRequests (cfg b) <=? tot) &&
                float64_leb (FailureRatio (cfg b)) (float64_div (float64_of fl) (float64_of tot))
             then StateOpen else StateClosed)).
Proof.
  intros Hw Hr Hn [Ht Hm] Hp. cbv zeta.
  pose proof (reach_permits _ _ _ (initial_permits nm c cb t0) Hr Hn) as HP.
  pose proof (reach_window _ _ _ (initial_permits nm c cb t0) (initial_window nm c cb t0 Hw) Hr Hn)
    as HW.
  assert (valid p = true) as Hv
    by (destruct HP as (_ & Hps & _); rewrite Forall_forall in Hps; by apply Hps).
  split.
  - intros Hsame. unfold Record_, recordLocked. rewrite Hv. cbn [negb].
    destruct (Z.eqb_spec (permit_generation p) (generation (brk w))); [|done].
    destruct Hsame as [?| ->]; [done|]. cbn. by destruct (probe p).
  - intros Hg Hi. split_and!.
    + intros Ho. destruct HP as (_ & _ & _ & _ & Hc & _). specialize (Hc Ho).
      assert (p ∈ current (brk w) (inflight w)) as Hin by (by apply list_elem_of_filter).
      rewrite Hc in Hin. by apply elem_of_nil in Hin.
    + intros Hh. rewrite Record_state, Hh by done. done.
    + intros Hc. rewrite Record_state, Hc by done. set (b0 := if probe p then _ else brk w).
      assert (Win b0 (log w) (origin w) (clock w)) as HW0
        by (subst b0; destruct (probe p); [by eapply Win_ext, HW|done]).
      assert (cfg b0 = cfg (brk w) ∧ bucketDur b0 = bucketDur (brk w)) as [Hc0 Hd0]
        by (subst b0; by destruct (probe p)).
      destruct (Win_advance b0 _ _ _ t HW0 Ht Hm) as (HW1 & Hst & HR). advance_fields b0 t.
      rewrite <- Hdur in Hst, HR.
      pose proof (Win_count _ _ _ _ o HW1 HR Hst) as HW2. set (b2 := with_window _ _ _ _) in *.
      assert (cfg b2 = cfg (brk w)) as Hc2 by (etrans; [apply Hcfg|done]).
      assert (log_after w p o t = (t, bool_decide (o = Failure)) :: log w) as ->.
      { unfold log_after, decides_close, is_counted. rewrite Hg, Z.eqb_refl, Hc.
        rewrite (bool_decide_eq_true_2 (o ≠ Ignored)) by done. by rewrite andb_false_r. }
      pose proof (Win_counts b2 _ _ _ t HW2 ltac:(lia) Hm) as Hcnt.
      assert (advanceLocked b2 t = b2) as Hid.
      { unfold advanceLocked. cbn [b2 with_window bucketStart bucketDur].
        assert (time_sub t (bucketStart (advanceLocked b0 t)) <? bucketDur (advanceLocked b0 t) = true)
          as ->; [|done].
        apply Z.ltb_lt. rewrite Hst. destruct HW1 as (Hd & _).
        unfold slot. pose proof (Z.mul_succ_div_gt (t - origin w) _ Hd).
        unfold time_sub, min_i64. lia. }
      rewrite Hid in Hcnt. unfold trippedLocked. rewrite Hcnt, Hc2.
      replace (bucketDur b2) with (bucketDur (brk w)) by (cbn; congruence).
      rewrite Z.leb_antisym. by destruct (_ <? _).
Qed.

(** The float64 comparison with the default ratio, checked for every pair of
    counts up to [n]. *)
Definition half_ratio_exact (n : nat) : bool :=
  forallb (λ t, forallb (λ f,
    Bool.eqb (float64_leb DefaultFailureRatio
                (float64_div (float64_of (Z.of_nat f)) (float64_of (Z.of_nat t))))
             (Z.of_nat t <=? 2 * Z.of_nat f)) (seq 0 (S t))) (seq 1 n).

Lemma half_ratio_sound n tot fl :
  half_ratio_exact n = true → 0 ≤ fl ≤ tot → 0 < tot ≤ Z.of_nat n →
  float64_leb DefaultFailureRatio (float64_div (float64_of fl) (float64_of tot)) =
    (tot <=? 2 * fl).
Proof.
  intros H Hf Ht. unfold half_ratio_exact in H.
  rewrite forallb_forall in H. specialize (H (Z.to_nat tot)). rewrite forallb_forall in H.
  specialize (H ltac:(apply in_seq; lia) (Z.to_nat fl) ltac:(apply in_seq; lia)).
  apply eqb_prop in H. by rewrite !Z2Nat.id in H by lia.
Qed.

Lemma half_ratio_exact_256 : half_ratio_exact 256 = true.
Proof. vm_compute. reflexivity. Qed.

(** With the default ratio the rounding of the float64 quotient never
    changes the decision: for windows of up to 256 calls the breaker trips
    exactly when it has seen the minimum number of calls and at least half of
    them failed. *)
Lemma default_ratio_is_half b tot fl :
  countsLocked b = (tot, fl) → FailureRatio (cfg b) = DefaultFailureRatio →
  0 ≤ fl ≤ tot → 0 < tot ≤ 256 →
  trippedLocked b = (MinRequests (cfg b) <=? tot) && (tot <=? 2 * fl).
Proof.
  intros Hc Hr Hf Ht. unfold trippedLocked. rewrite Hc, Hr, Z.leb_antisym.
  destruct (tot <? _); [done|]. cbn [negb andb].
  apply (half_ratio_sound 256); [exact half_ratio_exact_256|lia..].
Qed.

(** *** Witnesses *)

Definition sample_config : Config := mkConfig float64_zero 2 (100 * Second) (15 * Second).
Definition sample_start : World := initial "horizon" sample_config true (100 * Hour).

Definition after_allow (w : World) (t : Time) : World :=
  mkWorld (Allow (brk w) t).1.1
    (match (Allow (brk w) t).1.2 with Ok p => p :: inflight w | Err _ => inflight w end)
    (log w) (origin w) t.
Definition after_record (w : World) (p : Permit) (o : Outcome) (t : Time) (l : list Permit) : World :=
  mkWorld (Record_ (brk w) p o t).1 l (log_after w p o t) (origin_after w p o t) t.

(** Two calls are admitted and one of them fails. *)
Definition sample_w1 : World := after_allow sample_start (100 * Hour + Second).
Definition sample_w2 : World := after_allow sample_w1 (100 * Hour + 2 * Second).
Definition sample_w3 : World :=
  after_record sample_w2 (mkPermit 0 false true) Failure (100 * Hour + 3 * Second)
    [mkPermit 0 false true].

Lemma sample_reach : reach sample_start 3 sample_w3.
Proof.
  assert (∀ w t, tick_ok w t → wstep w (after_allow w t)) as Ha by (intros; by apply step_allow).
  apply (reach_S _ 2 sample_w2); [apply (reach_S _ 1 sample_w1); [apply (reach_S _ 0 sample_start)|]|].
  - apply reach_0.
  - apply Ha. split; by vm_compute.
  - apply Ha. split; by vm_compute.
  - apply (step_record sample_w2 _ _ _ [] [mkPermit 0 false true]); [split; by vm_compute|].
    vm_compute. reflexivity.
Qed.

Lemma rolling_window_witness :
  countsLocked (advanceLocked (brk sample_w3) (100 * Hour + 4 * Second)) = (1, 1).
Proof.
  destruct (rolling_window "horizon" sample_config true (100 * Hour) 3 sample_w3
    (100 * Hour + 4 * Second)) as [-> _]; [by vm_compute|apply sample_reach|lia|split; by vm_compute|].
  vm_compute. reflexivity.
Defined.

Lemma half_open_single_flight_witness :
  Forall (λ p, probe p = false) (current (brk sample_w3) (inflight sample_w3)).
Proof.
  destruct (half_open_single_flight "horizon" sample_config true (100 * Hour) 3 sample_w3)
    as (_ & _ & H); [apply sample_reach|lia|].
  apply H. vm_compute. reflexivity.
Defined.

Lemma Record_decides_witness :
  state (Record_ (brk sample_w3) (mkPermit 0 false true) Failure (100 * Hour + 4 * Second)).1
    = StateOpen.
Proof.
  destruct (Record_decides "horizon" sample_config true (100 * Hour) 3 sample_w3
    (mkPermit 0 false true) Failure (100 * Hour + 4 * Second)) as [_ H];
    [by vm_compute|apply sample_reach|lia|split; by vm_compute|vm_compute; by left|].
  destruct H as (_ & _ & H); [vm_compute; reflexivity|done|].
  rewrite H by (vm_compute; reflexivity). vm_compute. reflexivity.
Defined.

Lemma Allow_answers_witness :
  let b := brk (after_record sample_w3 (mkPermit 0 false true) Failure (100 * Hour + 4 * Second) []) in
  (Allow b (100 * Hour + 9 * Second)).1.2 = Err (mkOpenError "horizon" (10 * Second)).
Proof.
  cbv zeta. set (b := brk _).
  destruct (Allow_answers b (100 * Hour + 9 * Second)) as [_ H]; [by vm_compute|split; by vm_compute|].
  assert (state b = StateOpen) as Hs by (vm_compute; reflexivity). rewrite Hs in H.
  destruct (Z.ltb_spec (100 * Hour + 9 * Second - openedAt b) (OpenDuration (cfg b))) as [_|Hc];
    [|by vm_compute in Hc].
  destruct H as (_ & _ & ->). vm_compute. reflexivity.
Defined.

Lemma default_ratio_is_half_witness :
  trippedLocked (brk sample_w3) = false.
Proof.
  rewrite (default_ratio_is_half (brk sample_w3) 1 1); [vm_compute; reflexivity..|lia|lia].
Defined.

End Breaker.
