(* ===== verification/BreakerTransport.v ===== *)
(** Routing of outbound requests to the breaker of their upstream and the HTTP
    classification of outcomes (src/apps/api/internal/breaker/transport.go). *)
From S2P Require Import Prelude Breaker.
Import Breaker.

Module BreakerTransport.

(** The parts of [*url.URL] the router reads. *)
Record URL := mkURL { Host : string; Path : string }.

(** [breaker] is the position of the breaker in the store of all breakers. *)
Record routeEntry := mkEntry { host : string; prefix : string; breaker : nat }.

#[global] Instance routeEntry_eq_dec : EqDecision routeEntry.
Proof. solve_decision. Defined.

Abbreviation Router := (list routeEntry).

Definition NewRouter : Router := [].

(** [strings.TrimSuffix s "/"]. *)
Definition TrimSlash (s : string) : string :=
  match rev (bytes_of s) with
  | c :: l => if decide (c = byte 47) then of_bytes (rev l) else s
  | [] => s
  end.

Inductive RegisterError :=
| ErrBreakerRequired | ErrParse | ErrNoHost (rawURL : string) | ErrCollides (existing : nat).

(** The first entry of the router with the host and prefix of [e]. *)
Fixpoint collision (r : Router) (e : routeEntry) : option routeEntry :=
  match r with
  | [] => None
  | x :: r' =>
      if (host x =s? host e) && (prefix x =s? prefix e) then Some x else collision r' e
  end.

(** [Register]: [parsed] is the result of [url.Parse] on the trimmed [rawURL];
    [b] is [None] for a nil breaker. *)
Definition Register (r : Router) (rawURL : string) (parsed : option URL) (b : option nat)
  : result RegisterError Router :=
  match b with
  | None => Err ErrBreakerRequired
  | Some b =>
    match parsed with
    | None => Err ErrParse
    | Some u =>
      if Host u =s? "" then Err (ErrNoHost rawURL)
      else
        let entry := mkEntry (ToLower (Host u)) (TrimSlash (Path u)) b in
        match collision r entry with
        | Some existing => Err (ErrCollides (breaker existing))
        | None => Ok (r ++ [entry])
        end
    end
  end.

Definition Breakers (r : Router) : list nat := map breaker r.

(** The loop of [For], with the best entry so far. *)
Fixpoint for_loop (r : Router) (h path : string) (best : option routeEntry) : option routeEntry :=
  match r with
  | [] => best
  | e :: r' =>
      if negb (host e =s? h) then for_loop r' h path best
      else if negb (prefix e =s? "") && negb (HasPrefix path (prefix e)) then for_loop r' h path best
      else match best with
           | None => for_loop r' h path (Some e)
           | Some b => if str_len (prefix b) <? str_len (prefix e) then for_loop r' h path (Some e)
                       else for_loop r' h path best
           end
  end.

Definition For (r : Router) (u : option URL) : option nat :=
  match u with
  | None => None
  | Some u => breaker <$> for_loop r (ToLower (Host u)) (Path u) None
  end.

(** What the wrapped transport returned: a response with its status, a nil
    response without error, or an error, which may be a cancellation. *)
Inductive Reply := Response (status : Z) | NilResponse | Failed (isCanceled : bool).

Definition Classify (ctxCanceled : bool) (reply : Reply) : Outcome :=
  match reply with
  | Failed isCanceled => if isCanceled || ctxCanceled then Ignored else Failure
  | NilResponse => Ignored
  | Response status =>
      if 500 <=? status then Failure else if status =? 429 then Failure else Success
  end.

(** [RoundTrip] on the store of breakers: [next] is what the wrapped transport
    answers if it is called, [t1] and [t2] the clock readings of [Allow] and
    [Record]. The boolean tells whether the wrapped transport was called. *)
Definition RoundTrip (r : Router) (store : list Breaker) (u : option URL) (ctxCanceled : bool)
    (next : Reply) (t1 t2 : Time) : list Breaker * bool * result OpenError Reply :=
  match For r u with
  | None => (store, true, Ok next)
  | Some i =>
    match store !! i with
    | None => (store, true, Ok next)
    | Some b =>
      let '(b1, permit, _) := Allow b t1 in
      match permit with
      | Err e => (<[i := b1]> store, false, Err e)
      | Ok p =>
          let '(b2, _) := Record_ b1 p (Classify ctxCanceled next) t2 in
          (<[i := b2]> store, true, Ok next)
      end
    end
  end.

(** *** Lemmas *)

Definition matches (e : routeEntry) (h path : string) : Prop :=
  host e = h ∧ HasPrefix path (prefix e) = true.

#[global] Instance matches_dec e h path : Decision (matches e h path).
Proof. unfold matches. apply _. Defined.

Lemma HasPrefix_empty s : HasPrefix s "" = true.
Proof. by destruct s. Qed.

(** The guards of the loop, as one test. *)
Lemma for_loop_guard {A} e h path (a b : A) :
  (if negb (host e =s? h) then a
   else if negb (prefix e =s? "") && negb (HasPrefix path (prefix e)) then a else b) =
  if decide (matches e h path) then b else a.
Proof.
  destruct (decide (matches e h path)) as [[Hh Hp]|Hn].
  - rewrite (proj2 (string_eqb_eq _ _) Hh), Hp. cbn. by rewrite andb_false_r.
  - destruct (host e =s? h) eqn:Eh; [|done]. cbn. apply string_eqb_eq in Eh.
    destruct (prefix e =s? "") eqn:Ep; cbn.
    + apply string_eqb_eq in Ep. destruct Hn. split; [done|]. by rewrite Ep, HasPrefix_empty.
    + destruct (HasPrefix path (prefix e)) eqn:E; [|done]. by destruct Hn.
Qed.

Lemma for_loop_cons e r h path best :
  for_loop (e :: r) h path best =
  if decide (matches e h path) then
    for_loop r h path
      (match best with
       | None => Some e
       | Some b => if str_len (prefix b) <? str_len (prefix e) then Some e else best
       end)
  else for_loop r h path best.
Proof.
  cbn [for_loop]. rewrite for_loop_guard. case_decide; [|done].
  destruct best as [b|]; [|done]. by destruct (_ <? _).
Qed.

(** The loop keeps a longest prefix among the entries seen. *)
Lemma for_loop_longest r h path : ∀ best,
  (∀ e, best = Some e → matches e h path) →
  match for_loop r h path best with
  | Some e => (e ∈ r ∨ best = Some e) ∧ matches e h path ∧
              (∀ e', e' ∈ r ∨ best = Some e' → matches e' h path →
                 str_len (prefix e') ≤ str_len (prefix e))
  | None => best = None ∧ ∀ e', e' ∈ r → ¬ matches e' h path
  end.
Proof.
  induction r as [|x r IH]; intros best Hb.
  - cbn. destruct best as [b|]; [|by split; [|intros e' []%elem_of_nil]].
    split_and!; [by right|by apply Hb|]. intros e' [[]%elem_of_nil|He] _. simplify_eq. lia.
  - rewrite for_loop_cons. case_decide as Hm.
    + set (best' := match best with None => _ | Some b => _ end).
      assert (∃ b', best' = Some b' ∧ (b' = x ∨ best = Some b') ∧
        str_len (prefix x) ≤ str_len (prefix b') ∧
        ∀ b, best = Some b → str_len (prefix b) ≤ str_len (prefix b')) as (b' & Hb' & Hor & Hx & Hold).
      { subst best'. destruct best as [b|]; [|exists x; naive_solver lia].
        destruct (Z.ltb_spec (str_len (prefix b)) (str_len (prefix x)));
          [exists x|exists b]; naive_solver lia. }
      specialize (IH best'). rewrite Hb' in *.
      destruct (for_loop r h path (Some b')) as [e|].
      * destruct IH as (Hin & Hme & Hlong); [intros; simplify_eq; naive_solver|].
        split_and!; [set_solver|done|]. intros e' He' Hm'.
        specialize (Hlong b' (or_intror eq_refl)) as Hlb. specialize (Hlong e').
        destruct He' as [[->|He']%elem_of_cons|He'];
          [specialize (Hlb ltac:(naive_solver))|auto|specialize (Hlb ltac:(naive_solver));
            specialize (Hold _ He')]; lia.
      * by destruct IH as [? _]; [intros; simplify_eq; naive_solver|].
    + specialize (IH best Hb). destruct (for_loop r h path best) as [e|].
      * destruct IH as (Hin & Hme & Hlong). split_and!; [set_solver|done|].
        intros e' [[->|He']%elem_of_cons|He'] Hm'; [done|auto..].
      * destruct IH as [? Hn]. split; [done|]. intros e' [->|He']%elem_of_cons; auto.
Qed.

(** Two prefixes of one path with the same length are equal. *)
Lemma prefix_len_eq path p q :
  HasPrefix path p = true → HasPrefix path q = true → str_len p = str_len q → p = q.
Proof.
  unfold HasPrefix, str_len. revert p q.
  induction path as [|c path IH]; intros [|a p] [|b q]; cbn; try done; try lia.
  intros Hp Hq Hl. destruct (Ascii.ascii_dec a c), (Ascii.ascii_dec b c); try done. subst.
  f_equal. apply IH; [done|done|lia].
Qed.

(** Routers are built by registering upstreams. *)
Inductive registered : Router → Prop :=
| registered_new : registered NewRouter
| registered_add r rawURL parsed b r' :
    registered r → Register r rawURL parsed b = Ok r' → registered r'.

Lemma collision_none r e :
  collision r e = None → Forall (λ x, (host x, prefix x) ≠ (host e, prefix e)) r.
Proof.
  induction r as [|x r IH]; cbn; [constructor|].
  destruct ((host x =s? host e) && (prefix x =s? prefix e)) eqn:E; [done|].
  intros H. constructor; [|auto]. intros [= Hh Hp].
  rewrite !(proj2 (string_eqb_eq _ _)) in E; done.
Qed.

Lemma registered_nodup r : registered r → NoDup (map (λ e, (host e, prefix e)) r).
Proof.
  induction 1 as [|r rawURL parsed b r' _ IH Hreg]; [constructor|].
  unfold Register in Hreg. repeat case_match; simplify_eq.
  rewrite map_app. apply NoDup_app. split_and!; [done| |apply NoDup_singleton].
  intros x Hx Hs%list_elem_of_singleton. subst x.
  apply list_elem_of_fmap in Hx as (e & Heq & Hin).
  match goal with H : collision _ _ = None |- _ => apply collision_none in H;
    rewrite Forall_forall in H; by apply (H e) end.
Qed.

(** *** Claims *)

(** Routing picks the most specific upstream. In a router built by
    [Register], the request goes to the breaker of an entry exactly when the
    entry has the request's host, its path prefix matches, and every other
    matching entry has a strictly shorter prefix; a request no entry matches is
    not guarded. *)
Lemma For_most_specific r u :
  registered r →
  let h := ToLower (Host u) in let path := Path u in
  (∀ i, For r (Some u) = Some i ↔
     ∃ e, e ∈ r ∧ breaker e = i ∧ matches e h path ∧
       ∀ e', e' ∈ r → e' ≠ e → matches e' h path → str_len (prefix e') < str_len (prefix e)) ∧
  (For r (Some u) = None ↔ ∀ e, e ∈ r → ¬ matches e h path).
Proof.
  intros Hreg%registered_nodup. cbv zeta. cbn [For]. set (h := ToLower _).
  assert (∀ e e', e ∈ r → e' ∈ r → matches e h (Path u) → matches e' h (Path u) →
    str_len (prefix e) = str_len (prefix e') → e = e') as Huniq.
  { intros e e' He He' [Hh Hp] [Hh' Hp'] Hl.
    apply list_elem_of_lookup in He as [i Hi], He' as [j Hj].
    assert (i = j) as ->; [|by simplify_eq].
    eapply NoDup_lookup; [exact Hreg|by rewrite list_lookup_fmap, Hi|].
    rewrite list_lookup_fmap, Hj. cbn. do 2 f_equal; [congruence|].
    symmetry. by eapply prefix_len_eq. }
  pose proof (for_loop_longest r h (Path u) None ltac:(done)) as Hl.
  destruct (for_loop r h (Path u) None) as [e|]; cbn.
  - destruct Hl as ([Hin|?] & Hm & Hmax); [|done]. split.
    + intros i. split.
      * intros [= <-]. exists e. split_and!; try done. intros e' He' Hne Hm'.
        specialize (Hmax e' (or_introl He') Hm').
        destruct (decide (str_len (prefix e') = str_len (prefix e))); [|lia].
        destruct Hne. by apply Huniq.
      * intros (e' & He' & <- & Hm' & Hmax'). destruct (decide (e = e')) as [->|Hne]; [done|].
        specialize (Hmax e' (or_introl He') Hm'). specialize (Hmax' e Hin Hne Hm). lia.
    + split; [done|]. intros Hn. by destruct (Hn e Hin).
  - destruct Hl as [_ Hn]. split; [|done]. intros i. split; [done|].
    intros (e & He & _ & Hm & _). by destruct (Hn e He).
Qed.

(** A rejected request never reaches the network and a permitted one is
    transparent. When the breaker guarding the request refuses, the wrapped
    transport is not called and the caller gets the open error; otherwise it is
    called once, its answer is returned unchanged, and its outcome is recorded
    on the breaker of this upstream. No other upstream's breaker is touched. *)
Lemma RoundTrip_guards r store u ctxCanceled next t1 t2 i b :
  For r u = Some i → store !! i = Some b →
  let '(store', called, res) := RoundTrip r store u ctxCanceled next t1 t2 in
  (∀ j, j ≠ i → store' !! j = store !! j) ∧
  match (Allow b t1).1.2 with
  | Err e => called = false ∧ res = Err e ∧ store' !! i = Some (Allow b t1).1.1
  | Ok p => called = true ∧ res = Ok next ∧
      store' !! i = Some (Record_ (Allow b t1).1.1 p (Classify ctxCanceled next) t2).1
  end.
Proof.
  intros Hf Hs. unfold RoundTrip. rewrite Hf, Hs.
  assert (i < length store)%nat by (by eapply lookup_lt_Some).
  destruct (Allow b t1) as [[b1 [p|e]] ev]; cbn; [destruct (Record_ _ _ _ _) as [b2 ev2]|]; cbn.
  all: split; [intros j Hj; by rewrite list_lookup_insert_ne|].
  all: by rewrite list_lookup_insert_eq.
Qed.

(** *** Witnesses *)

Definition sample_router : Router :=
  [mkEntry "node.example" "" 0; mkEntry "node.example" "/rpc" 1].

Lemma sample_registered : registered sample_router.
Proof.
  apply (registered_add [mkEntry "node.example" "" 0] "https://Node.Example/rpc/"
           (Some (mkURL "Node.Example" "/rpc/")) (Some 1%nat)); [|vm_compute; reflexivity].
  apply (registered_add [] "https://node.example" (Some (mkURL "node.example" "")) (Some 0%nat));
    [apply registered_new|vm_compute; reflexivity].
Qed.

Lemma For_most_specific_witness :
  For sample_router (Some (mkURL "NODE.example" "/rpc/x")) = Some 1%nat.
Proof.
  apply (For_most_specific sample_router (mkURL "NODE.example" "/rpc/x") sample_registered).
  exists (mkEntry "node.example" "/rpc" 1). split_and!; [set_solver|done|by vm_compute|].
  intros e' He' Hne _. unfold sample_router in He'. set_unfold.
  destruct He' as [->|[->|[]]]; [vm_compute; done|done].
Defined.

Lemma RoundTrip_guards_witness :
  let b := NewWithClock "rpc" sample_config false (100 * Hour) in
  (RoundTrip sample_router [b; b] (Some (mkURL "node.example" "/rpc")) false (Response 404)
     (100 * Hour) (100 * Hour)).1.2 = true.
Proof.
  cbv zeta. set (b := NewWithClock _ _ _ _).
  pose proof (RoundTrip_guards sample_router [b; b] (Some (mkURL "node.example" "/rpc")) false
    (Response 404) (100 * Hour) (100 * Hour) 1 b ltac:(vm_compute; reflexivity) eq_refl) as H.
  destruct (RoundTrip _ _ _ _ _ _ _) as [[st called] res]. destruct H as [_ H].
  rewrite (Allow_closed b) in H by done. by destruct H as (-> & _).
Defined.

End BreakerTransport.
