(* ===== verification/Retry.v ===== *)
(** The bounded retry loop of the chain reads
    (src/apps/api/internal/retry/retry.go): the policy, the loop with its
    context deadline, and the exponential backoff with full jitter. *)
From S2P Require Import Prelude.

Module Retry.

Record Policy := mkPolicy {
  MaxAttempts : Z;
  BaseDelay : Duration;
  MaxDelay : Duration;
  Budget : Duration;
}.

Definition DefaultMaxAttempts : Z := 3.
Definition DefaultBaseDelay : Duration := 100 * Millisecond.
Definition DefaultMaxDelay : Duration := 2 * Second.
Definition DefaultBudget : Duration := 12 * Second.

Definition withDefaults (p : Policy) : Policy :=
  {| MaxAttempts := if MaxAttempts p <=? 0 then DefaultMaxAttempts else MaxAttempts p;
     BaseDelay := if BaseDelay p <=? 0 then DefaultBaseDelay else BaseDelay p;
     MaxDelay := if MaxDelay p <=? 0 then DefaultMaxDelay else MaxDelay p;
     Budget := if Budget p <=? 0 then DefaultBudget else Budget p |}.

Inductive PolicyError := BadMaxAttempts | BadBaseDelay | BadMaxDelay | BadBudget.

Definition Policy_Validate (p : Policy) : option PolicyError :=
  if MaxAttempts p <? 1 then Some BadMaxAttempts
  else if BaseDelay p <=? 0 then Some BadBaseDelay
  else if MaxDelay p <? BaseDelay p then Some BadMaxDelay
  else if Budget p <=? 0 then Some BadBudget
  else None.

(** *** Backoff *)

(** [backoffCap]. [math.Pow(2, float64(shift))] is exactly [2^shift] and a
    product with a power of two is exact, so the float64 [scaled] is the integer
    [round53 BaseDelay * 2^shift]; it is below [float64(MaxDelay)] when it is
    converted back, so the conversion is exact too. *)
Definition maxShift : Z := 62.

Definition backoffCap (p : Policy) (attempt : Z) : Duration :=
  let attempt := if attempt <? 1 then 1 else attempt in
  let shift := attempt - 1 in
  if maxShift <? shift then MaxDelay p
  else
    let scaled := round53 (BaseDelay p) * 2 ^ shift in
    if round53 (MaxDelay p) <=? scaled then MaxDelay p else scaled.

(** [fullJitter], over the generator's [rand.Int64N]. *)
Definition fullJitter (Int64N : Z → Z) (cap : Duration) : Duration :=
  if cap <=? 0 then 0 else Int64N cap.

(** *** The loop *)

Inductive CtxError := Canceled | DeadlineExceeded.

(** A context: the instant it is done and the error it then reports, [None] for
    one that never is. *)
Definition Ctx : Type := option (Time * CtxError).

Definition ctx_Err (ctx : Ctx) (now : Time) : option CtxError :=
  match ctx with
  | Some (t, e) => if t <=? now then Some e else None
  | None => None
  end.

(** [context.WithTimeout ctx d] at [now]: done at the earlier of the two. *)
Definition WithTimeout (ctx : Ctx) (now : Time) (d : Duration) : Ctx :=
  let deadline := time_add now d in
  match ctx with
  | Some (t, e) => if t <=? deadline then Some (t, e) else Some (deadline, DeadlineExceeded)
  | None => Some (deadline, DeadlineExceeded)
  end.

(** [sleepCtx]: the error and the instant it returns at. When the timer and the
    context are ready together, [pick_ctx] is the choice [select] makes. *)
Definition sleepCtx (ctx : Ctx) (now : Time) (d : Duration) (pick_ctx : bool)
  : option CtxError * Time :=
  if d <=? 0 then (ctx_Err ctx now, now)
  else
    let timer := time_add now d in
    match ctx with
    | None => (None, timer)
    | Some (t, e) =>
        if (t <? timer) || ((t =? timer) && pick_ctx) then (Some e, Z.max now t) else (None, timer)
    end.

Section Do.
(** [fn n t] is the outcome of the [n]-th call, started at [t], and the instant
    it ends at; [Int64N] and [pick_ctx] are the random draws of the process. *)
Context {E : Type}.
Context (retryable : option (E → bool)).
Context (fn : nat → Time → option E * Time).
Context (Int64N : nat → Z → Z).
Context (pick_ctx : nat → bool).

(** The cause carried by an exhausted loop: an error of [fn] or of the context. *)
Inductive Cause := FnErr (e : E) | CtxErr (e : CtxError).

Record Result := mkResult { Attempts : Z; Elapsed : Duration }.

(** [Exhausted] is the typed [*Error]; [Declined] an error returned unchanged. *)
Inductive DoError :=
| Exhausted (attempts : Z) (elapsed : Duration) (cause : option Cause)
| Declined (e : E).

Definition since (startedAt now : Time) : Duration :=
  let elapsed := time_sub now startedAt in if elapsed <? 0 then 0 else elapsed.

(** What a run leaves behind: the result, the error, the instants [fn] was
    called at, the delays waited for, and the instant of return. *)
Record Run := mkRun {
  run_result : Result;
  run_error : option DoError;
  run_calls : list Time;
  run_delays : list Duration;
  run_end : Time;
}.

Definition exhausted (attempts : Z) (startedAt : Time) (lastErr : option E)
    (ctxErr : option CtxError) (now : Time) (calls : list Time) (delays : list Duration) : Run :=
  let cause := match lastErr with Some e => Some (FnErr e) | None => CtxErr <$> ctxErr end in
  let result := mkResult attempts (since startedAt now) in
  mkRun result (Some (Exhausted attempts (Elapsed result) cause)) calls delays now.

Definition should_retry (e : E) : bool :=
  match retryable with None => false | Some f => f e end.

(** The loop, with [n] iterations left of [MaxAttempts]; [attempt] is the number
    of the next one. *)
Fixpoint do_loop (n : nat) (policy : Policy) (ctx : Ctx) (startedAt : Time) (attempt : Z)
    (lastErr : option E) (now : Time) (calls : list Time) (delays : list Duration) : Run :=
  match n with
  | O => exhausted (MaxAttempts policy) startedAt lastErr None now calls delays
  | S n' =>
    match ctx_Err ctx now with
    | Some err => exhausted (attempt - 1) startedAt lastErr (Some err) now calls delays
    | None =>
      let '(err, now1) := fn (Z.to_nat attempt) now in
      let calls := calls ++ [now] in
      match err with
      | None => mkRun (mkResult attempt (since startedAt now1)) None calls delays now1
      | Some e =>
        if negb (should_retry e)
        then mkRun (mkResult attempt (since startedAt now1)) (Some (Declined e)) calls delays now1
        else if attempt =? MaxAttempts policy
        then exhausted (MaxAttempts policy) startedAt (Some e) None now1 calls delays
        else
          let delay := fullJitter (Int64N (Z.to_nat attempt)) (backoffCap policy attempt) in
          let '(sleepErr, now2) := sleepCtx ctx now1 delay (pick_ctx (Z.to_nat attempt)) in
          match sleepErr with
          | Some se => exhausted attempt startedAt (Some e) (Some se) now2 calls (delays ++ [delay])
          | None => do_loop n' policy ctx startedAt (attempt + 1) (Some e) now2 calls
                      (delays ++ [delay])
          end
      end
    end
  end.

(** [Do] of the production runner, called at [now]. *)
Definition Do (ctx : Ctx) (policy : Policy) (now : Time) : Run :=
  let policy := withDefaults policy in
  let ctx := WithTimeout ctx now (Budget policy) in
  do_loop (Z.to_nat (MaxAttempts policy)) policy ctx now 1 None now [] [].

(** *** The loop's contract *)

(** What is known of a run whose calls so far are [run_calls]: calls start only
    while the context is live, every call but the last failed with an error
    worth retrying, and the reported error says how the last one ended. *)
Definition calls_ok (ctx : Ctx) (calls : list Time) : Prop :=
  ∀ k t, calls !! k = Some t →
    ctx_Err ctx t = None ∧
    (S k < length calls → ∃ e, (fn (S k) t).1 = Some e ∧ should_retry e = true)%nat.

Definition all_failed (calls : list Time) : Prop :=
  ∀ k t, calls !! k = Some t → ∃ e, (fn (S k) t).1 = Some e ∧ should_retry e = true.

Definition ends_ok (ctx : Ctx) (max : Z) (r : Run) : Prop :=
  let n := length (run_calls r) in
  match run_error r with
  | None => ∃ t, last (run_calls r) = Some t ∧ fn n t = (None, run_end r)
  | Some (Declined e) =>
      ∃ t, last (run_calls r) = Some t ∧ (fn n t).1 = Some e ∧ should_retry e = false
  | Some (Exhausted a _ cause) =>
      a = Z.of_nat n ∧ all_failed (run_calls r) ∧
      (∀ t e, last (run_calls r) = Some t → (fn n t).1 = Some e → cause = Some (FnErr e)) ∧
      (a < max → ctx_Err ctx (run_end r) ≠ None)
  end.

Lemma all_failed_snoc calls t e :
  all_failed calls → (fn (S (length calls)) t).1 = Some e → should_retry e = true →
  all_failed (calls ++ [t]).
Proof.
  intros Hall He Hr k u Hk. apply lookup_snoc_Some in Hk as [[_ Hk]|[-> <-]]; eauto.
Qed.

Lemma calls_ok_snoc ctx calls t :
  calls_ok ctx calls → all_failed calls → ctx_Err ctx t = None → calls_ok ctx (calls ++ [t]).
Proof.
  intros Hok Hall Ht k u Hk. apply lookup_snoc_Some in Hk as [[Hl Hk]|[-> <-]].
  - split; [by apply Hok in Hk as [? _]|]. intros _. by apply Hall.
  - split; [done|]. rewrite length_app. cbn. lia.
Qed.

(** A sleep that reports an error returns when the context is done. *)
Lemma sleepCtx_done ctx now d pick e now' :
  sleepCtx ctx now d pick = (Some e, now') → ctx_Err ctx now' = Some e.
Proof.
  unfold sleepCtx. destruct (d <=? 0); [by intros [= ? <-]|].
  destruct ctx as [[t c]|]; [|done]. destruct (_ || _); [|done]. intros [= <- <-].
  cbn. destruct (Z.leb_spec t (Z.max now t)); [done|lia].
Qed.

Definition run_ok (ctx : Ctx) (max : Z) (r : Run) : Prop :=
  Attempts (run_result r) = Z.of_nat (length (run_calls r)) ∧
  Z.of_nat (length (run_calls r)) ≤ max ∧
  calls_ok ctx (run_calls r) ∧ ends_ok ctx max r.

(** The last error a loop carries is the one of the last call. *)
Definition last_err (calls : list Time) (lastErr : option E) : Prop :=
  ∀ t, last calls = Some t → lastErr = (fn (length calls) t).1.

Lemma last_err_snoc calls t e now1 :
  fn (S (length calls)) t = (e, now1) → last_err (calls ++ [t]) e.
Proof.
  intros Hfn u. rewrite last_snoc, length_app, Nat.add_1_r. intros [= <-]. by rewrite Hfn.
Qed.

Lemma exhausted_ok ctx max attempts st lastErr ce now calls delays :
  attempts = Z.of_nat (length calls) → attempts ≤ max → calls_ok ctx calls → all_failed calls →
  last_err calls lastErr → (attempts < max → ctx_Err ctx now ≠ None) →
  run_ok ctx max (exhausted attempts st lastErr ce now calls delays).
Proof.
  intros Ha Hm Hok Hall Hl Hc. unfold run_ok, ends_ok, exhausted. cbn.
  split; [done|]. split; [lia|]. split; [done|]. split; [done|]. split; [done|]. split; [|done].
  intros t e Ht He. by rewrite (Hl t Ht), He.
Qed.

(** A run that returns what its last call gave. *)
Lemma returned_ok ctx max st now now1 calls delays e :
  Z.of_nat (length calls) + 1 ≤ max → calls_ok ctx (calls ++ [now]) →
  fn (S (length calls)) now = (e, now1) →
  match e with None => True | Some e => should_retry e = false end →
  run_ok ctx max (mkRun (mkResult (Z.of_nat (length calls) + 1) (since st now1))
    (Declined <$> e) (calls ++ [now]) delays now1).
Proof.
  intros Hm Hok Hfn He. unfold run_ok, ends_ok. cbn. rewrite last_snoc, length_app, Nat.add_1_r.
  split; [lia|]. split; [lia|]. split; [done|].
  destruct e as [e|]; cbn; exists now; rewrite Hfn; done.
Qed.

Lemma do_loop_spec n : ∀ policy ctx st lastErr now calls delays,
  MaxAttempts policy = Z.of_nat (length calls + n) → (0 < n)%nat →
  calls_ok ctx calls → all_failed calls → last_err calls lastErr →
  run_ok ctx (MaxAttempts policy)
    (do_loop n policy ctx st (Z.of_nat (length calls) + 1) lastErr now calls delays).
Proof.
  induction n as [|n IH]; intros policy ctx st lastErr now calls delays Hmax Hn Hok Hall Hlast; [lia|].
  cbn [do_loop]. destruct (ctx_Err ctx now) as [ce|] eqn:Hctx.
  { apply exhausted_ok; try done; [lia|lia|by rewrite Hctx]. }
  assert (Z.to_nat (Z.of_nat (length calls) + 1) = S (length calls)) as -> by lia.
  assert (calls_ok ctx (calls ++ [now])) as Hok' by (by apply calls_ok_snoc).
  destruct (fn (S (length calls)) now) as [[e|] now1] eqn:Hfn.
  2:{ apply (returned_ok ctx _ st now now1 calls delays None); try done. lia. }
  destruct (should_retry e) eqn:Hret; cbn [negb].
  2:{ apply (returned_ok ctx _ st now now1 calls delays (Some e)); try done. lia. }
  assert (all_failed (calls ++ [now])) as Hall' by (eapply all_failed_snoc; eauto; by rewrite Hfn).
  pose proof (last_err_snoc _ _ _ _ Hfn) as Hlast'.
  assert (Z.of_nat (length (calls ++ [now])) = Z.of_nat (length calls) + 1) as Hlen
    by (rewrite length_app; cbn; lia).
  destruct (Z.eqb_spec (Z.of_nat (length calls) + 1) (MaxAttempts policy)) as [Heq|Hne].
  { apply exhausted_ok; try done; intros; lia. }
  cbv zeta. destruct (sleepCtx _ _ _ _) as [[se|] now2] eqn:Hsleep.
  - apply exhausted_ok; try done; try lia.
    intros _. by rewrite (sleepCtx_done _ _ _ _ _ _ Hsleep).
  - rewrite <- Hlen. apply IH; try done; rewrite ?length_app in *; cbn in *; lia.
Qed.

(** *** The budget *)

(** Every delay comes from the jitter of a backoff cap. *)
Lemma fullJitter_bounds rnd cap :
  (∀ n, 0 < n → 0 ≤ rnd n < n) → 0 ≤ fullJitter rnd cap ≤ Z.max 0 cap.
Proof.
  intros Hr. unfold fullJitter. destruct (Z.leb_spec cap 0); [lia|].
  specialize (Hr cap). lia.
Qed.

Lemma sleepCtx_end ctx dl e now d pick :
  ctx = Some (dl, e) → (sleepCtx ctx now d pick).2 ≤ Z.max now dl.
Proof.
  intros ->. unfold sleepCtx, time_add. destruct (d <=? 0); [cbn; lia|].
  destruct (_ || _) eqn:Ho; cbn; [lia|]. apply orb_false_iff in Ho as [Hlt _].
  apply Z.ltb_ge in Hlt. lia.
Qed.

Definition honours (dl : Time) : Prop := ∀ k t, t < dl → (fn k t).2 ≤ dl.

Lemma do_loop_budget n : ∀ policy ctx dl ce st attempt lastErr now calls delays B,
  ctx = Some (dl, ce) → honours dl → (∀ k m, 0 < m → 0 ≤ Int64N k m < m) →
  (∀ a, backoffCap policy a ≤ B) → 0 ≤ B → Forall (λ d, 0 ≤ d ≤ B) delays →
  let r := do_loop n policy ctx st attempt lastErr now calls delays in
  run_end r ≤ Z.max now dl ∧ Forall (λ d, 0 ≤ d ≤ B) (run_delays r).
Proof.
  induction n as [|n IH]; intros policy ctx dl ce st attempt lastErr now calls delays B
    Hctx Hf Hr HB HB0 Hd; cbv zeta; cbn [do_loop]; [by split; [cbn; lia|]|].
  destruct (ctx_Err ctx now) as [e0|] eqn:Hce; [by split; [cbn; lia|]|].
  assert (now < dl) as Hlt.
  { rewrite Hctx in Hce. cbn in Hce. destruct (Z.leb_spec dl now); [done|lia]. }
  pose proof (Hf (Z.to_nat attempt) now Hlt) as Hend.
  destruct (fn (Z.to_nat attempt) now) as [[e|] now1]; cbn in Hend; [|by split; [cbn; lia|]].
  destruct (negb _); [by split; [cbn; lia|]|].
  destruct (_ =? _); [by split; [cbn; lia|]|]. cbv zeta.
  set (d := fullJitter _ _).
  pose proof (fullJitter_bounds (Int64N (Z.to_nat attempt)) (backoffCap policy attempt) (Hr _)) as Hj.
  specialize (HB attempt) as HBa. fold d in Hj.
  assert (Forall (λ d, 0 ≤ d ≤ B) (delays ++ [d])) as Hd'
    by (apply Forall_app; split; [done|apply Forall_singleton; lia]).
  pose proof (sleepCtx_end ctx dl ce now1 d (pick_ctx (Z.to_nat attempt)) Hctx) as Hs.
  destruct (sleepCtx _ _ _ _) as [[se|] now2]; cbn in Hs; [by split; [cbn; lia|]|].
  destruct (IH policy ctx dl ce st (attempt + 1) (Some e) now2 (calls ++ [now]) (delays ++ [d]) B)
    as [H1 H2]; try done. split; [lia|done].
Qed.

End Do.

(** *** Backoff bounds *)

Lemma backoffCap_min p attempt :
  0 < BaseDelay p < 2 ^ 53 → 0 < MaxDelay p < 2 ^ 53 →
  backoffCap p attempt = Z.min (MaxDelay p) (BaseDelay p * 2 ^ (Z.max attempt 1 - 1)).
Proof.
  intros Hb Hm. unfold backoffCap. cbv zeta.
  replace (if attempt <? 1 then 1 else attempt) with (Z.max attempt 1)
    by (destruct (Z.ltb_spec attempt 1); lia).
  set (s := Z.max attempt 1 - 1). assert (0 ≤ s) by lia.
  rewrite !round53_small by lia. unfold maxShift.
  destruct (Z.ltb_spec 62 s) as [Hs|Hs].
  - assert (2 ^ 53 ≤ 2 ^ s) by (apply Z.pow_le_mono_r; lia). nia.
  - destruct (Z.leb_spec (MaxDelay p) (BaseDelay p * 2 ^ s)); lia.
Qed.

(** *** Claims *)

Section Claims.
Context {E : Type}.

Lemma withDefaults_positive p :
  0 < MaxAttempts (withDefaults p) ∧ 0 < BaseDelay (withDefaults p) ∧
  0 < MaxDelay (withDefaults p) ∧ 0 < Budget (withDefaults p).
Proof.
  unfold withDefaults. cbn.
  repeat match goal with |- context [?a <=? 0] => destruct (Z.leb_spec a 0) end;
    repeat split; done || lia.
Qed.

(** C36: the contract of [Do]. However [fn], the clock, the jitter and the context behave,
    it reports as attempts the number of calls it made, never more than the policy allows;
    it never starts a call on a context that is done; it calls again only after an error
    the caller wants retried; success is the success of the last call, a declined error is
    the last call's error unchanged, and an exhausted one carries the last call's error
    and comes before the last attempt only when the context is done, by the budget or by
    the caller's own cancellation or deadline. *)
Theorem Do_contract retryable (fn : nat → Time → option E * Time) Int64N pick_ctx ctx policy now :
  let r := Do retryable fn Int64N pick_ctx ctx policy now in
  let max := MaxAttempts (withDefaults policy) in
  let ctx' := WithTimeout ctx now (Budget (withDefaults policy)) in
  let n := length (run_calls r) in
  Attempts (run_result r) = Z.of_nat n ∧ Z.of_nat n ≤ max ∧
  (∀ k t, run_calls r !! k = Some t → ctx_Err ctx' t = None ∧
     (S k < n → ∃ e, (fn (S k) t).1 = Some e ∧ should_retry retryable e = true)%nat) ∧
  match run_error r with
  | None => ∃ t, last (run_calls r) = Some t ∧ fn n t = (None, run_end r)
  | Some (Declined e) =>
      ∃ t, last (run_calls r) = Some t ∧ (fn n t).1 = Some e ∧ should_retry retryable e = false
  | Some (Exhausted a _ cause) =>
      a = Z.of_nat n ∧
      (∀ t e, last (run_calls r) = Some t → (fn n t).1 = Some e → cause = Some (FnErr e)) ∧
      (a < max → ctx_Err ctx' (run_end r) ≠ None)
  end.
Proof.
  cbv zeta. unfold Do. pose proof (withDefaults_positive policy) as (Hpos & _).
  revert Hpos. generalize (withDefaults policy) as p. intros p Hpos.
  destruct (do_loop_spec retryable fn Int64N pick_ctx (Z.to_nat (MaxAttempts p)) p
    (WithTimeout ctx now (Budget p)) now None now [] []) as (H1 & H2 & H3 & H4); try done; [cbn; lia|lia|].
  split; [done|]. split; [done|]. split; [exact H3|].
  unfold ends_ok in H4. destruct (run_error _) as [[a el c|e]|]; try done.
  destruct H4 as (? & _ & ? & ?). done.
Qed.

(** The loop is bounded in time. When [fn] honours its context (a call
    started before it is done returns by the time it is done) and the random
    draws are in range, [Do] returns within the budget of being called, or at
    once if the caller's context was already done, and every backoff delay is
    between zero and the maximum delay. *)
Lemma Do_within_budget retryable (fn : nat → Time → option E * Time) Int64N pick_ctx ctx policy now :
  let p := withDefaults policy in
  let ctx' := WithTimeout ctx now (Budget p) in
  BaseDelay p < 2 ^ 53 → MaxDelay p < 2 ^ 53 →
  (∀ k m, 0 < m → 0 ≤ Int64N k m < m) →
  (∀ dl e, ctx' = Some (dl, e) → honours fn dl) →
  let r := Do retryable fn Int64N pick_ctx ctx policy now in
  run_end r ≤ now + Budget p ∧ Forall (λ d, 0 ≤ d ≤ MaxDelay p) (run_delays r).
Proof.
  intros p ctx' Hb Hm Hr Hf. cbv zeta. unfold Do. fold p. fold ctx'.
  pose proof (withDefaults_positive policy) as (_ & Hb0 & Hm0 & HB0). fold p in Hb0, Hm0, HB0.
  assert (∃ dl e, ctx' = Some (dl, e) ∧ dl ≤ now + Budget p) as (dl & e & Hctx & Hdl).
  { subst ctx'. unfold WithTimeout, time_add. destruct ctx as [[t c]|]; [|eexists _, _; split; [done|lia]].
    destruct (Z.leb_spec t (now + Budget p)); eexists _, _; (split; [done|lia]). }
  destruct (do_loop_budget retryable fn Int64N pick_ctx (Z.to_nat (MaxAttempts p)) p ctx' dl e
    now 1 None now [] [] (MaxDelay p)) as [H1 H2]; try done; [by eapply Hf| |lia|split; [lia|done]].
  intros a. rewrite backoffCap_min by lia. lia.
Qed.

End Claims.

(** The backoff cap is the base delay doubled once per earlier attempt and
    clamped to the maximum delay, exactly, whatever the attempt number: the
    float64 arithmetic of the code loses nothing for delays below 2^53
    nanoseconds (104 days) and the cap neither shrinks from one attempt to the
    next nor leaves the positive range. *)
Lemma backoffCap_exact p attempt :
  0 < BaseDelay p < 2 ^ 53 → 0 < MaxDelay p < 2 ^ 53 →
  backoffCap p attempt = Z.min (MaxDelay p) (BaseDelay p * 2 ^ (Z.max attempt 1 - 1)) ∧
  0 < backoffCap p attempt ≤ backoffCap p (attempt + 1) ∧ backoffCap p attempt ≤ MaxDelay p.
Proof.
  intros Hb Hm. rewrite !backoffCap_min by done.
  assert (0 < 2 ^ (Z.max attempt 1 - 1)) by (apply Z.pow_pos_nonneg; lia).
  assert (2 ^ (Z.max attempt 1 - 1) ≤ 2 ^ (Z.max (attempt + 1) 1 - 1))
    by (apply Z.pow_le_mono_r; lia).
  split; [done|]. split; nia.
Qed.

(** *** Witnesses *)

(** A call that fails twice and then succeeds, each taking one second. *)
Definition sample_fn (k : nat) (t : Time) : option unit * Time :=
  (if decide (k < 3)%nat then Some tt else None, t + Second).
Definition sample_policy : Policy := mkPolicy 0 0 0 0.

Example sample_run :
  run_error (Do (Some (λ _, true)) sample_fn (λ _ n, n / 2) (λ _, true) None sample_policy 0) = None.
Proof. vm_compute. reflexivity. Qed.

(** A call that fails at once and at no cost. *)
Lemma Do_within_budget_witness :
  run_end (Do (Some (λ _ : unit, true)) (λ _ t, (Some tt, t)) (λ _ n, n / 2) (λ _, true) None
    sample_policy 0) ≤ 0 + 12 * Second.
Proof.
  apply (Do_within_budget (Some (λ _ : unit, true)) (λ _ t, (Some tt, t)) (λ _ n, n / 2) (λ _, true)
    None sample_policy 0); [vm_compute; done|vm_compute; done| |].
  - intros _ m Hm. split; [apply Z.div_pos; lia|apply Z.div_lt_upper_bound; lia].
  - intros dl e _ k t Ht. cbn. lia.
Defined.

Lemma backoffCap_exact_witness :
  backoffCap (mkPolicy 3 (100 * Millisecond) (2 * Second) Second) 3 = 400 * Millisecond.
Proof.
  destruct (backoffCap_exact (mkPolicy 3 (100 * Millisecond) (2 * Second) Second) 3) as [-> _];
    [split; vm_compute; done|split; vm_compute; done|vm_compute; reflexivity].
Defined.

End Retry.
