(* ===== verification/JobQueue.v ===== *)
(** The durable job queue: the jobs table and the statements that act on it
    (src/apps/api/internal/repository/postgres/job_repository.go), and the worker
    that executes leased jobs (src/apps/api/internal/domain/jobqueue). *)
From S2P Require Import Prelude.

Module JobQueue.

(** *** Data *)

Inductive Status := StatusPending | StatusRunning | StatusSucceeded | StatusDead.

#[global] Instance JobStatus_eq_dec : EqDecision Status.
Proof. solve_decision. Defined.

Definition DefaultMaxAttempts : Z := 5.
Definition PriorityDefault : Z := 0.
Definition PriorityBalance : Z := 10.

(** The empty string stands for a NULL text column, which is how [nullText]
    writes it and [scanJobFrom] reads it back. *)
Record Job := mkJob {
  JobID : string;
  JobType : string;
  Payload : string;
  JStatus : Status;
  Priority : Z;
  Attempts : Z;
  MaxAttempts : Z;
  IdempotencyKey : string;
  CorrelationID : string;
  NextRunAt : Time;
  LeasedUntil : option Time;
  LastError : string;
  JobResult : string;
  CreatedAt : Time;
  UpdatedAt : Time;
}.

#[global] Instance Job_eq_dec : EqDecision Job.
Proof. solve_decision. Defined.

Record EnqueueInput := mkEnqueue {
  in_Type : string;
  in_Payload : string;
  in_Priority : Z;
  in_MaxAttempts : Z;
  in_IdempotencyKey : string;
  in_CorrelationID : string;
  in_RunAt : Time;
}.

Record DequeueParams := mkDequeue {
  dq_Type : string;
  dq_Limit : Z;
  dq_Lease : Duration;
  dq_Now : Time;
}.

(** [ErrIntRange] is the database's error on a value outside INT, [ErrUnique]
    the violation of the unique index on live idempotency keys, [ErrDB] a statement
    that did not reach the database. *)
Inductive JobError := ErrNotFound | ErrIntRange | ErrUnique | ErrDB.

#[global] Instance JobError_eq_dec : EqDecision JobError.
Proof. solve_decision. Defined.

(** The jobs table by primary key. *)
Abbreviation Jobs := (gmap string Job).

Definition in_i32 (z : Z) : Prop := -2147483648 ≤ z ≤ 2147483647.
#[global] Instance in_i32_dec z : Decision (in_i32 z).
Proof. unfold in_i32. apply _. Defined.

(** *** Statements *)

Definition live (j : Job) : Prop := JStatus j = StatusPending ∨ JStatus j = StatusRunning.
#[global] Instance live_dec j : Decision (live j).
Proof. unfold live. apply _. Defined.

(** The rows the unique index [uq_jobs_idempotency_key] keeps apart. *)
Definition live_key (ty key : string) (j : Job) : Prop :=
  live j ∧ JobType j = ty ∧ IdempotencyKey j = key ∧ key ≠ "".
#[global] Instance live_key_dec ty key j : Decision (live_key ty key j).
Proof. unfold live_key. apply _. Defined.

Definition live_rows (t : Jobs) (ty key : string) : list Job :=
  filter (live_key ty key) (map snd (map_to_list t)).

(** [ORDER BY created_at DESC LIMIT 1]. *)
Definition newest (l : list Job) : option Job :=
  foldr (λ j acc, match acc with
                  | Some k => if CreatedAt k <? CreatedAt j then Some j else acc
                  | None => Some j
                  end) None l.

(** The row an enqueue inserts; [newID] is the generated UUID, [wall] the
    process clock, [dbnow] the database's. *)
Definition new_job (in_ : EnqueueInput) (newID : string) (wall dbnow : Time) : Job :=
  {| JobID := newID; JobType := in_Type in_;
     Payload := if in_Payload in_ =s? "" then "{}" else in_Payload in_;
     JStatus := StatusPending; Priority := in_Priority in_; Attempts := 0;
     MaxAttempts := if in_MaxAttempts in_ <=? 0 then DefaultMaxAttempts else in_MaxAttempts in_;
     IdempotencyKey := in_IdempotencyKey in_; CorrelationID := in_CorrelationID in_;
     NextRunAt := if time_is_zero (in_RunAt in_) then wall else in_RunAt in_;
     LeasedUntil := None; LastError := ""; JobResult := "";
     CreatedAt := dbnow; UpdatedAt := dbnow |}.

(** The [INSERT ... ON CONFLICT DO NOTHING RETURNING] statement: the row
    inserted, or [None] on conflict. *)
Definition Enqueue_insert (t : Jobs) (j : Job) : Jobs * result JobError (option Job) :=
  if decide (in_i32 (Priority j) ∧ in_i32 (MaxAttempts j)) then
    match live_rows t (JobType j) (IdempotencyKey j) with
    | [] => (<[JobID j := j]> t, Ok (Some j))
    | _ :: _ => (t, Ok None)
    end
  else (t, Err ErrIntRange).

(** [Enqueue]: on conflict the live job is selected in a second statement, and
    [between] is what other sessions commit in between. *)
Definition Enqueue (t : Jobs) (in_ : EnqueueInput) (newID : string) (wall dbnow : Time)
    (between : Jobs → Jobs) : Jobs * result JobError (Job * bool) :=
  let '(t1, r) := Enqueue_insert t (new_job in_ newID wall dbnow) in
  match r with
  | Err e => (t1, Err e)
  | Ok (Some j) => (t1, Ok (j, true))
  | Ok None =>
      let t2 := between t1 in
      match newest (live_rows t2 (in_Type in_) (in_IdempotencyKey in_)) with
      | Some j => (t2, Ok (j, false))
      | None => (t2, Err ErrNotFound)
      end
  end.

(** [Client.Enqueue]: the boolean tells whether the enqueue counter moves. *)
Inductive ClientError := ErrTypeRequired | ErrRepo (e : JobError).

Definition Client_Enqueue (t : Jobs) (in_ : EnqueueInput) (requestID newID : string)
    (wall dbnow : Time) (between : Jobs → Jobs) : Jobs * result ClientError Job * bool :=
  if in_Type in_ =s? "" then (t, Err ErrTypeRequired, false)
  else
    let in_ := mkEnqueue (in_Type in_) (in_Payload in_) (in_Priority in_) (in_MaxAttempts in_)
      (in_IdempotencyKey in_)
      (if in_CorrelationID in_ =s? "" then requestID else in_CorrelationID in_) (in_RunAt in_) in
    match Enqueue t in_ newID wall dbnow between with
    | (t', Ok (j, created)) => (t', Ok j, created)
    | (t', Err e) => (t', Err (ErrRepo e), false)
    end.

(** The [ready] subquery: due pending jobs and running jobs past their lease. *)
Definition runnable (ty : string) (now : Time) (j : Job) : Prop :=
  JobType j = ty ∧
  ((JStatus j = StatusPending ∧ NextRunAt j ≤ now) ∨
   (JStatus j = StatusRunning ∧
    match LeasedUntil j with Some l => l ≤ now | None => False end)).
#[global] Instance runnable_dec ty now j : Decision (runnable ty now j).
Proof. unfold runnable. destruct (LeasedUntil j); apply _. Defined.

(** [ORDER BY priority DESC, next_run_at]. *)
Definition before (a b : Job) : Prop :=
  Priority b < Priority a ∨ (Priority a = Priority b ∧ NextRunAt a ≤ NextRunAt b).
#[global] Instance before_dec : RelDecision before.
Proof. intros a b. unfold before. apply _. Defined.

(** [scan] is the order the rows are read in, which decides between ties;
    [locked] the rows other transactions hold, which SKIP LOCKED passes over. *)
Definition ready (t : Jobs) (scan : list string) (locked : gset string) (p : DequeueParams)
  : list Job :=
  take (Z.to_nat (dq_Limit p))
    (filter (λ j, JobID j ∉ locked)
      (merge_sort before (filter (runnable (dq_Type p) (dq_Now p)) (omap (t !!.) scan)))).

Definition lease_job (p : DequeueParams) (dbnow : Time) (j : Job) : Job :=
  {| JobID := JobID j; JobType := JobType j; Payload := Payload j; JStatus := StatusRunning;
     Priority := Priority j; Attempts := Attempts j + 1; MaxAttempts := MaxAttempts j;
     IdempotencyKey := IdempotencyKey j; CorrelationID := CorrelationID j;
     NextRunAt := NextRunAt j; LeasedUntil := Some (time_add (dq_Now p) (dq_Lease p));
     LastError := LastError j; JobResult := JobResult j; CreatedAt := CreatedAt j;
     UpdatedAt := dbnow |}.

Definition Dequeue (t : Jobs) (scan : list string) (locked : gset string) (p : DequeueParams)
    (dbnow : Time) : Jobs * result JobError (list Job) :=
  if dq_Limit p <=? 0 then (t, Ok [])
  else
    let rows := ready t scan locked p in
    if bool_decide (Forall (λ j, in_i32 (Attempts j + 1)) rows) then
      (foldr (λ j t, <[JobID j := lease_job p dbnow j]> t) t rows,
       Ok (map (lease_job p dbnow) rows))
    else (t, Err ErrIntRange).

(** [UPDATE jobs SET ... WHERE id = $1 AND status = s]: the table and the number
    of rows affected. *)
Definition update_where (t : Jobs) (id : string) (s : Status) (f : Job → Job) : Jobs * Z :=
  match t !! id with
  | Some j => if decide (JStatus j = s) then (<[id := f j]> t, 1) else (t, 0)
  | None => (t, 0)
  end.

Definition set_outcome (s : Status) (attempts : Job → Z) (next : Job → Time) (err : string)
    (res : Job → string) (dbnow : Time) (j : Job) : Job :=
  {| JobID := JobID j; JobType := JobType j; Payload := Payload j; JStatus := s;
     Priority := Priority j; Attempts := attempts j; MaxAttempts := MaxAttempts j;
     IdempotencyKey := IdempotencyKey j; CorrelationID := CorrelationID j;
     NextRunAt := next j; LeasedUntil := None; LastError := err; JobResult := res j;
     CreatedAt := CreatedAt j; UpdatedAt := dbnow |}.

Definition Complete (t : Jobs) (id res : string) (dbnow : Time) : Jobs :=
  (update_where t id StatusRunning
     (set_outcome StatusSucceeded Attempts NextRunAt "" (λ _, res) dbnow)).1.

Definition Retry (t : Jobs) (id : string) (nextRunAt : Time) (lastErr : string) (dbnow : Time)
  : Jobs :=
  (update_where t id StatusRunning
     (set_outcome StatusPending Attempts (λ _, nextRunAt) lastErr JobResult dbnow)).1.

Definition DeadLetter (t : Jobs) (id lastErr : string) (dbnow : Time) : Jobs :=
  (update_where t id StatusRunning
     (set_outcome StatusDead Attempts NextRunAt lastErr JobResult dbnow)).1.

Definition set_lease (until dbnow : Time) (j : Job) : Job :=
  {| JobID := JobID j; JobType := JobType j; Payload := Payload j; JStatus := JStatus j;
     Priority := Priority j; Attempts := Attempts j; MaxAttempts := MaxAttempts j;
     IdempotencyKey := IdempotencyKey j; CorrelationID := CorrelationID j;
     NextRunAt := NextRunAt j; LeasedUntil := Some until; LastError := LastError j;
     JobResult := JobResult j; CreatedAt := CreatedAt j; UpdatedAt := dbnow |}.

Definition Heartbeat (t : Jobs) (id : string) (leasedUntil dbnow : Time)
  : Jobs * option JobError :=
  let '(t', n) := update_where t id StatusRunning (set_lease leasedUntil dbnow) in
  (t', if n =? 0 then Some ErrNotFound else None).

Definition JobStatus (t : Jobs) (id : string) : result JobError Status :=
  match t !! id with Some j => Ok (JStatus j) | None => Err ErrNotFound end.

Definition GetByID (t : Jobs) (id : string) : result JobError Job :=
  match t !! id with Some j => Ok j | None => Err ErrNotFound end.

(** [ManualRetry]: making the job live again can violate the unique index. *)
Definition ManualRetry (t : Jobs) (id : string) (runAt dbnow : Time) : Jobs * option JobError :=
  let '(t', n) := update_where t id StatusDead
    (set_outcome StatusPending (λ _, 0) (λ _, runAt) "" JobResult dbnow) in
  if n =? 0 then (t, Some ErrNotFound)
  else match t !! id with
       | Some j =>
           if bool_decide (live_rows t (JobType j) (IdempotencyKey j) = []) then (t', None)
           else (t, Some ErrUnique)
       | None => (t, Some ErrNotFound)
       end.

(** [ListDead]: [scan] decides between rows updated at the same instant. *)
Definition later (a b : Job) : Prop := UpdatedAt b ≤ UpdatedAt a.
#[global] Instance later_dec : RelDecision later.
Proof. intros a b. unfold later. apply _. Defined.

Definition ListDead (t : Jobs) (scan : list string) (limit offset : Z) : list Job :=
  let limit := if limit <=? 0 then 50 else limit in
  let offset := if offset <? 0 then 0 else offset in
  take (Z.to_nat limit) (drop (Z.to_nat offset)
    (merge_sort later (filter (λ j, JStatus j = StatusDead) (omap (t !!.) scan)))).

Record Stats := mkStats {
  Depth : Z; Scheduled : Z; Running : Z; DeadLetterDepth : Z; DepthByType : gmap string Z;
}.

Definition count_rows (P : Job → Prop) `{∀ j, Decision (P j)} (t : Jobs) : Z :=
  Z.of_nat (length (filter P (map snd (map_to_list t)))).

Definition JobStats (t : Jobs) (now : Time) : Stats :=
  {| Depth := count_rows (λ j, JStatus j = StatusPending ∧ NextRunAt j ≤ now) t;
     Scheduled := count_rows (λ j, JStatus j = StatusPending ∧ now < NextRunAt j) t;
     Running := count_rows (λ j, JStatus j = StatusRunning) t;
     DeadLetterDepth := count_rows (λ j, JStatus j = StatusDead) t;
     DepthByType :=
       foldr (λ ty m, <[ty := count_rows (λ j, live j ∧ JobType j = ty) t]> m) ∅
         (map JobType (filter live (map snd (map_to_list t)))) |}.

(** *** Backoff *)

Record BackoffConfig := mkBackoff { Base : Duration; Max : Duration }.

(** [backoffDuration]: the float64 products are exact up to the rounding of
    [round53], as [math.Pow(2, n)] is a power of two; [draw] is the numerator of
    the generator's [Float64() = draw / 2^53]. An infinite power fails the test
    against the maximum just as the exact one does. *)
Definition backoffDuration (cfg : BackoffConfig) (attempt draw : Z) : Duration :=
  let attempt := if attempt <? 1 then 1 else attempt in
  let base := if Base cfg <=? 0 then Second else Base cfg in
  let max := if Max cfg <=? 0 then 5 * Minute else Max cfg in
  let exp := round53 base * 2 ^ (attempt - 1) in
  let capNanos := if exp <? round53 max then exp else round53 max in
  let capNanos := if capNanos <? 0 then round53 max else capNanos in
  Z.quot (round53 (draw * capNanos)) (2 ^ 53).

(** *** The worker *)

Record Config := mkConfig {
  Enabled : bool;
  PollInterval : Duration;
  Lease : Duration;
  HeartbeatInterval : Duration;
  JobTimeout : Duration;
  DefaultConcurrency : Z;
  Backoff : BackoffConfig;
  StatsInterval : Duration;
  DrainTimeout : Duration;
}.

Definition withDefaults (c : Config) : Config :=
  let lease := if Lease c <=? 0 then 30 * Second else Lease c in
  {| Enabled := Enabled c;
     PollInterval := if PollInterval c <=? 0 then Second else PollInterval c;
     Lease := lease;
     HeartbeatInterval := if HeartbeatInterval c <=? 0 then Z.quot lease 3 else HeartbeatInterval c;
     JobTimeout := JobTimeout c;
     DefaultConcurrency := if DefaultConcurrency c <? 1 then 1 else DefaultConcurrency c;
     Backoff := Backoff c;
     StatsInterval := StatsInterval c;
     DrainTimeout := if DrainTimeout c <=? 0 then 30 * Second else DrainTimeout c |}.

(** [concurrency] is the capacity of the semaphore, [in_use] what it holds. *)
Record registration := mkReg { concurrency : Z; in_use : Z }.

(** [Register]: [None] is the panic on a type registered twice. *)
Definition Register (c : Config) (regs : gmap string registration) (jobType : string) (n : Z)
  : option (gmap string registration) :=
  match regs !! jobType with
  | Some _ => None
  | None => Some (<[jobType := mkReg (if n <=? 0 then DefaultConcurrency c else n) 0]> regs)
  end.

(** One poll over the registered types in the map's iteration order. [scan],
    [locked] and [db_ok] describe the database at each type's query, [ctxDone]
    whether the worker's context is cancelled. The last component is the jobs
    dispatched, one goroutine each. *)
Section Tick.
Context (c : Config) (now dbnow : Time) (ctxDone : bool).
Context (scan : string → list string) (locked : string → gset string) (db_ok : string → bool).

Fixpoint tick (order : list string) (t : Jobs) (regs : gmap string registration)
  : Jobs * gmap string registration * list Job :=
  match order with
  | [] => (t, regs, [])
  | jobType :: rest =>
    match regs !! jobType with
    | None => tick rest t regs
    | Some reg =>
      let free := concurrency reg - in_use reg in
      if free <=? 0 then tick rest t regs
      else
        let '(t1, r) :=
          if db_ok jobType
          then Dequeue t (scan jobType) (locked jobType)
                 (mkDequeue jobType free (Lease c) now) dbnow
          else (t, Err ErrDB) in
        match r with
        | Err _ => if ctxDone then (t1, regs, []) else tick rest t1 regs
        | Ok jobs =>
            let reg' := mkReg (concurrency reg) (in_use reg + Z.of_nat (length jobs)) in
            let '(t2, regs2, more) := tick rest t1 (<[jobType := reg']> regs) in
            (t2, regs2, jobs ++ more)
        end
    end
  end.
End Tick.

(** The handler's error, or its panic, and whether the error is a permanent one. *)
Inductive HandlerOutcome := HandlerOk | HandlerErr (permanent : bool) (msg : string) | HandlerPanic (msg : string).

(** [runHandler]: a panic becomes an error, never a permanent one. *)
Definition runHandler (h : HandlerOutcome) : option (bool * string) :=
  match h with
  | HandlerOk => None
  | HandlerErr p m => Some (p, m)
  | HandlerPanic m => Some (false, ("handler panicked: " +:+ m)%string)
  end.

(** [process] after the handler returned: the outcome is written for the job as
    it was leased. [write_ok] tells whether the statement reached the database;
    the list is the processed counters moved, and the semaphore slot is released
    in every case. *)
Definition process (c : Config) (t : Jobs) (job : Job) (h : HandlerOutcome) (write_ok : bool)
    (draw : Z) (now dbnow : Time) : Jobs * list (string * string) :=
  match runHandler h with
  | None =>
      if write_ok then (Complete t (JobID job) "" dbnow, [(JobType job, "succeeded")]) else (t, [])
  | Some (permanent, msg) =>
      if permanent || (MaxAttempts job <=? Attempts job) then
        if write_ok then (DeadLetter t (JobID job) msg dbnow, [(JobType job, "dead")]) else (t, [])
      else
        let delay := backoffDuration (Backoff c) (Attempts job) draw in
        if write_ok then (Retry t (JobID job) (time_add now delay) msg dbnow, [(JobType job, "retried")])
        else (t, [])
  end.

Definition release (regs : gmap string registration) (jobType : string)
  : gmap string registration :=
  match regs !! jobType with
  | Some reg => <[jobType := mkReg (concurrency reg) (in_use reg - 1)]> regs
  | None => regs
  end.

(** *** Lemmas on the statements *)

Lemma update_where_lookup t id s f i :
  (update_where t id s f).1 !! i =
    match t !! i with
    | Some j => if decide (i = id ∧ JStatus j = s) then Some (f j) else Some j
    | None => None
    end.
Proof.
  unfold update_where. destruct (t !! id) as [j|] eqn:E.
  - case_decide as Hs; cbn.
    + destruct (decide (i = id)) as [->|Hne].
      * rewrite lookup_insert_eq, E. by rewrite decide_True.
      * rewrite lookup_insert_ne by done. destruct (t !! i); [|done].
        by rewrite decide_False by tauto.
    + destruct (t !! i) eqn:Ei; [|done]. case_decide; [|done]. naive_solver.
  - destruct (t !! i) eqn:Ei; [|done]. case_decide; [|done]. naive_solver.
Qed.

Lemma update_where_count t id s f :
  (update_where t id s f).2 = 1 ∨
  (update_where t id s f).2 = 0 ∧ (update_where t id s f).1 = t ∧
    ∀ j, t !! id = Some j → JStatus j ≠ s.
Proof.
  unfold update_where. destruct (t !! id) as [j|] eqn:E; [case_decide|]; cbn; naive_solver.
Qed.

(** The keys of the table are the ids of its rows, and [scan] reads every row
    once. *)
Definition keyed (t : Jobs) : Prop := ∀ id j, t !! id = Some j → JobID j = id.

Definition scans (scan : list string) (t : Jobs) : Prop :=
  NoDup scan ∧ ∀ id, is_Some (t !! id) → id ∈ scan.

Lemma omap_rows_ids t scan :
  keyed t → NoDup scan → NoDup (map JobID (omap (t !!.) scan)).
Proof.
  intros Hk. induction 1 as [|id scan Hnot Hnd IH]; cbn; [constructor|].
  destruct (t !! id) as [j|] eqn:E; [|done]. cbn. constructor; [|done].
  rewrite (Hk _ _ E). intros Hin. apply list_elem_of_fmap in Hin as (j' & Heq & Hin').
  apply list_elem_of_omap in Hin' as (id' & Hid' & Hl). rewrite (Hk _ _ Hl) in Heq. by subst.
Qed.

Lemma sublist_map_NoDup {A B} (f : A → B) (l k : list A) :
  sublist l k → NoDup (map f k) → NoDup (map f l).
Proof.
  induction 1 as [|x l k Hs IH|x l k Hs IH]; cbn; [done| |];
    rewrite NoDup_cons; intros [Hx Hn]; [|auto].
  apply NoDup_cons. split; [|auto]. intros Hin. apply Hx.
  apply list_elem_of_fmap in Hin as (y & -> & Hy). apply list_elem_of_fmap.
  exists y. split; [done|]. by eapply elem_of_sublist.
Qed.

(** The leased rows: distinct rows of the table, runnable and not locked. *)
Lemma ready_rows t scan locked p :
  keyed t → NoDup scan →
  NoDup (map JobID (ready t scan locked p)) ∧
  Forall (λ j, t !! JobID j = Some j ∧ runnable (dq_Type p) (dq_Now p) j ∧ JobID j ∉ locked)
    (ready t scan locked p).
Proof.
  intros Hk Hnd. unfold ready. split.
  - eapply sublist_map_NoDup; [apply sublist_take|].
    eapply sublist_map_NoDup; [apply sublist_filter|].
    rewrite (NoDup_Permutation_proper _ _ (fmap_Permutation _ _ _ (merge_sort_Permutation before _))).
    eapply sublist_map_NoDup; [apply sublist_filter|]. by apply omap_rows_ids.
  - apply Forall_forall. intros j Hj.
    apply elem_of_take in Hj as (n & Hj & _). apply list_elem_of_lookup_2 in Hj.
    apply list_elem_of_filter in Hj as [Hl Hj].
    rewrite merge_sort_Permutation in Hj. apply list_elem_of_filter in Hj as [Hr Hj].
    apply list_elem_of_omap in Hj as (id & _ & Hid).
    split; [by rewrite (Hk _ _ Hid)|done].
Qed.

(** *** The table's invariant *)

(** What the statements keep true of one row. *)
Definition row_ok (j : Job) : Prop :=
  0 ≤ Attempts j ∧ 1 ≤ MaxAttempts j ∧ (JStatus j = StatusRunning ↔ is_Some (LeasedUntil j)).

Definition unique_live (t : Jobs) : Prop :=
  ∀ ty key id1 id2 j1 j2, t !! id1 = Some j1 → t !! id2 = Some j2 →
    live_key ty key j1 → live_key ty key j2 → id1 = id2.

Definition Inv (t : Jobs) : Prop :=
  keyed t ∧ map_Forall (λ _ j, row_ok j) t ∧ unique_live t.

Lemma live_rows_nil t ty key :
  live_rows t ty key = [] ↔ ∀ id j, t !! id = Some j → ¬ live_key ty key j.
Proof.
  unfold live_rows. split.
  - intros Hn id j Hj Hl.
    assert (j ∈ filter (live_key ty key) (map snd (map_to_list t))) as Hin; [|by rewrite Hn in Hin; apply elem_of_nil in Hin].
    apply list_elem_of_filter. split; [done|]. apply list_elem_of_fmap. exists (id, j).
    by rewrite elem_of_map_to_list.
  - intros H. destruct (filter _ _) as [|j l] eqn:E; [done|].
    assert (j ∈ filter (live_key ty key) (map snd (map_to_list t))) as Hin by (rewrite E; by left).
    apply list_elem_of_filter in Hin as [Hl Hin].
    apply list_elem_of_fmap in Hin as ([id j'] & -> & Hin).
    apply elem_of_map_to_list in Hin. by destruct (H id j' Hin).
Qed.

(** A row with a live key nobody holds can be written. *)
Lemma Inv_insert t id j :
  Inv t → JobID j = id → row_ok j → live_rows t (JobType j) (IdempotencyKey j) = [] →
  Inv (<[id := j]> t).
Proof.
  intros (Hk & Hr & Hu) Hid Hj Hn. rewrite live_rows_nil in Hn. split_and!.
  - intros i k. rewrite lookup_insert_Some. naive_solver.
  - by apply map_Forall_insert_2.
  - intros ty key id1 id2 j1 j2. rewrite !lookup_insert_Some.
    intros [[<- <-]|[? H1]] [[<- <-]|[? H2]] Hl1 Hl2; try done; [| |by eapply Hu].
    + destruct Hl1 as (_ & <- & <- & _). by destruct (Hn _ _ H2).
    + destruct Hl2 as (_ & <- & <- & _). by destruct (Hn _ _ H1).
Qed.

(** Same row up to what executing it changes, and not newly live. *)
Definition evolves (j j' : Job) : Prop :=
  JobID j' = JobID j ∧ JobType j' = JobType j ∧ IdempotencyKey j' = IdempotencyKey j ∧
  MaxAttempts j' = MaxAttempts j.

Definition rowwise (R : Job → Job → Prop) (t t' : Jobs) : Prop :=
  ∀ id, match t !! id, t' !! id with
        | Some j, Some j' => j' = j ∨ R j j'
        | None, None => True
        | _, _ => False
        end.

Lemma Inv_rowwise t t' :
  rowwise (λ j j', evolves j j' ∧ row_ok j' ∧ (live j' → live j)) t t' → Inv t → Inv t'.
Proof.
  intros Hrow (Hk & Hr & Hu).
  assert (∀ id j', t' !! id = Some j' → ∃ j, t !! id = Some j ∧
    (j' = j ∨ evolves j j' ∧ row_ok j' ∧ (live j' → live j))) as Hback.
  { intros id j' Hj'. specialize (Hrow id). rewrite Hj' in Hrow.
    destruct (t !! id) as [j|]; [|done]. by exists j. }
  split_and!.
  - intros id j' Hj'. destruct (Hback id j' Hj') as (j & Hj & [->|((-> & _) & _)]); by apply Hk.
  - intros id j' Hj'. destruct (Hback id j' Hj') as (j & Hj & [->|(_ & ? & _)]); [|done].
    by apply (Hr id).
  - assert (∀ ty key id j', t' !! id = Some j' → live_key ty key j' →
      ∃ j, t !! id = Some j ∧ live_key ty key j) as Hl.
    { intros ty key id j' Hj' (Hl & Ht & Hkey & Hne).
      destruct (Hback id j' Hj') as (j & Hj & [->|((_ & Ety & Ek & _) & _ & Hlive)]);
        [by exists j|]. exists j. split; [done|]. unfold live_key. rewrite <- Ety, <- Ek. auto. }
    intros ty key id1 id2 j1 j2 H1 H2 L1 L2.
    destruct (Hl _ _ _ _ H1 L1) as (k1 & ? & ?), (Hl _ _ _ _ H2 L2) as (k2 & ? & ?).
    by eapply Hu.
Qed.

Lemma rowwise_update R t id s f :
  (∀ j, t !! id = Some j → JStatus j = s → R j (f j)) → rowwise R t (update_where t id s f).1.
Proof.
  intros Hf i. rewrite update_where_lookup. destruct (t !! i) as [j|] eqn:E; [|done].
  case_decide as Hd; [|by left]. destruct Hd as [-> Hs]. right. by apply Hf.
Qed.

(** [Dequeue] row by row. *)
Lemma Dequeue_rowwise t scan locked p dbnow :
  keyed t → NoDup scan →
  rowwise (λ j j', j' = lease_job p dbnow j ∧ runnable (dq_Type p) (dq_Now p) j ∧
                   JobID j ∉ locked ∧ in_i32 (Attempts j + 1))
    t (Dequeue t scan locked p dbnow).1.
Proof.
  intros Hk Hnd id. unfold Dequeue. destruct (_ <=? _); [cbn; destruct (t !! id); by try left|].
  case_bool_decide as Hi; [|cbn; destruct (t !! id); by try left].
  destruct (ready_rows t scan locked p Hk Hnd) as [Hn Hrows]. cbn [fst].
  rewrite foldr_insert_lookup by done.
  destruct (list_find _ _) as [[n j]|] eqn:E.
  - apply list_find_Some in E as (Hin & <- & _). apply list_elem_of_lookup_2 in Hin.
    rewrite Forall_forall in Hrows, Hi. destruct (Hrows j Hin) as (-> & ? & ?).
    right. by split_and!; try apply Hi.
  - destruct (t !! id); by try left.
Qed.

(** One statement of some session, at any time and for any id: workers whose
    lease has expired act too. *)
Inductive jstep (t : Jobs) : Jobs → Prop :=
| step_enqueue in_ newID wall dbnow :
    t !! newID = None → jstep t (Enqueue_insert t (new_job in_ newID wall dbnow)).1
| step_dequeue scan locked p dbnow :
    NoDup scan → jstep t (Dequeue t scan locked p dbnow).1
| step_complete id res dbnow : jstep t (Complete t id res dbnow)
| step_retry id at_ err dbnow : jstep t (Retry t id at_ err dbnow)
| step_dead id err dbnow : jstep t (DeadLetter t id err dbnow)
| step_heartbeat id until dbnow : jstep t (Heartbeat t id until dbnow).1
| step_manual id at_ dbnow : jstep t (ManualRetry t id at_ dbnow).1.

Lemma Heartbeat_table t id until dbnow :
  (Heartbeat t id until dbnow).1 = (update_where t id StatusRunning (set_lease until dbnow)).1.
Proof. unfold Heartbeat. by destruct (update_where _ _ _ _). Qed.

(** [ManualRetry] either does nothing or rewrites one dead row whose key no live
    row holds. *)
Lemma ManualRetry_cases t id at_ dbnow :
  ((ManualRetry t id at_ dbnow).1 = t ∧ (ManualRetry t id at_ dbnow).2 ≠ None) ∨
  ∃ j, t !! id = Some j ∧ JStatus j = StatusDead ∧
    live_rows t (JobType j) (IdempotencyKey j) = [] ∧
    ManualRetry t id at_ dbnow =
      (<[id := set_outcome StatusPending (λ _, 0) (λ _, at_) "" JobResult dbnow j]> t, None).
Proof.
  unfold ManualRetry, update_where. destruct (t !! id) as [j|] eqn:E; [|by left].
  case_decide as Hs; [|by left]. cbn. case_bool_decide; [right; by exists j|by left].
Qed.

Lemma outcome_row_ok s f g err res dbnow j :
  s ≠ StatusRunning → 0 ≤ f j → row_ok j → row_ok (set_outcome s f g err res dbnow j).
Proof.
  intros Hs Hf (_ & ? & _). split_and!; [done|done|]. cbn. split; [done|]. by intros [? ?].
Qed.

Lemma jstep_inv t t' : jstep t t' → Inv t → Inv t'.
Proof.
  intros Hstep HI. pose proof HI as (Hk & Hr & _).
  assert (∀ id f,
    (∀ j, row_ok j → JStatus j = StatusRunning → evolves j (f j) ∧ row_ok (f j)) →
    Inv (update_where t id StatusRunning f).1) as Hup.
  { intros id f Hf. eapply Inv_rowwise, HI. apply rowwise_update. intros j Hj Hs.
    destruct (Hf j (Hr _ _ Hj) Hs) as [? ?]. split_and!; try done. intros _. by right. }
  destruct Hstep as [in_ newID wall dbnow Hnew|scan locked p dbnow Hnd|id res dbnow
    |id at_ err dbnow|id err dbnow|id until dbnow|id at_ dbnow].
  - unfold Enqueue_insert. case_decide as Hi; [|done].
    destruct (live_rows _ _ _) eqn:El; [|done]. cbn [fst].
    apply Inv_insert; [done..| |done]. split_and!; cbn; [done| |by split; [|intros [? ?]]].
    destruct (Z.leb_spec (in_MaxAttempts in_) 0); unfold DefaultMaxAttempts; lia.
  - eapply Inv_rowwise, HI. intros id. pose proof (Dequeue_rowwise t scan locked p dbnow Hk Hnd id) as H.
    destruct (t !! id) as [j|] eqn:E, ((Dequeue t scan locked p dbnow).1 !! id) as [j'|]; try done.
    destruct H as [?|(-> & Hrun & _)]; [by left|right].
    destruct (Hr _ _ E) as (? & ? & _). split; [done|]. split.
    { split_and!; cbn; [lia|done|by split; eauto]. }
    intros _. destruct Hrun as [_ [[? _]|[? _]]]; [by left|by right].
  - apply Hup. intros j Hj Hs.
    split; [done|]. apply outcome_row_ok; [done|apply Hj|done].
  - apply Hup. intros j Hj Hs.
    split; [done|]. apply outcome_row_ok; [done|apply Hj|done].
  - apply Hup. intros j Hj Hs.
    split; [done|]. apply outcome_row_ok; [done|apply Hj|done].
  - rewrite Heartbeat_table. apply Hup. intros j (? & ? & ?) Hs.
    split; [done|]. split_and!; cbn; [done|done|]. rewrite Hs. by split; eauto.
  - destruct (ManualRetry_cases t id at_ dbnow) as [[-> _]|(j & Hj & Hs & Hn & ->)]; [done|].
    apply Inv_insert; [done|exact (Hk _ _ Hj)| |done].
    apply outcome_row_ok; [done|done|exact (Hr _ _ Hj)].
Qed.

Lemma empty_inv : Inv ∅.
Proof. split_and!; [done|apply map_Forall_empty|done]. Qed.

(** *** Dequeue order *)

#[global] Instance before_transitive : Transitive before.
Proof. intros a b c. unfold before. lia. Qed.
#[global] Instance before_total : Total before.
Proof. intros a b. unfold before. lia. Qed.

Lemma ready_maximal t scan locked p j :
  keyed t → scans scan t → t !! JobID j = Some j → runnable (dq_Type p) (dq_Now p) j →
  JobID j ∉ locked → j ∉ ready t scan locked p →
  length (ready t scan locked p) = Z.to_nat (dq_Limit p) ∧
  ∀ k, k ∈ ready t scan locked p → before k j.
Proof.
  intros Hk [_ Hall] Hj Hr Hl Hn. apply take_sorted; [| |done].
  - apply StronglySorted_filter, StronglySorted_merge_sort; apply _.
  - apply list_elem_of_filter. split; [done|].
    rewrite merge_sort_Permutation. apply list_elem_of_filter. split; [done|].
    apply list_elem_of_omap. exists (JobID j). split; [apply Hall; eauto|done].
Qed.

(** Reading back what [Dequeue] returned. *)
Lemma Dequeue_ok t scan locked p dbnow t' jobs :
  0 < dq_Limit p → Dequeue t scan locked p dbnow = (t', Ok jobs) →
  jobs = map (lease_job p dbnow) (ready t scan locked p) ∧
  t' = foldr (λ j (t : Jobs), <[JobID j := lease_job p dbnow j]> t) t (ready t scan locked p).
Proof.
  intros Hl. unfold Dequeue. destruct (Z.leb_spec (dq_Limit p) 0); [lia|].
  by case_bool_decide; intros ?; simplify_eq.
Qed.

Lemma Dequeue_returned t scan locked p dbnow t' jobs :
  keyed t → NoDup scan → Dequeue t scan locked p dbnow = (t', Ok jobs) →
  Z.of_nat (length jobs) ≤ Z.max 0 (dq_Limit p) ∧
  ∀ j', j' ∈ jobs → ∃ j, t !! JobID j' = Some j ∧ runnable (dq_Type p) (dq_Now p) j ∧
    JobID j ∉ locked ∧ j' = lease_job p dbnow j.
Proof.
  intros Hk Hnd HD. destruct (decide (0 < dq_Limit p)) as [Hl|Hl].
  - destruct (Dequeue_ok _ _ _ _ _ _ _ Hl HD) as [-> _]. split.
    + rewrite length_map. unfold ready. rewrite length_take. lia.
    + intros j' Hj'. apply list_elem_of_fmap in Hj' as (j & -> & Hj).
      destruct (ready_rows t scan locked p Hk Hnd) as [_ Hrows].
      rewrite Forall_forall in Hrows. destruct (Hrows j Hj) as (? & ? & ?). by exists j.
  - unfold Dequeue in HD. destruct (Z.leb_spec (dq_Limit p) 0); [|lia]. simplify_eq.
    split; [cbn; lia|]. intros j' []%elem_of_nil.
Qed.

(** The table after a dequeue: the returned rows, and the rest as before. *)
Lemma Dequeue_stored t scan locked p dbnow t' jobs :
  keyed t → NoDup scan → 0 < dq_Limit p → Dequeue t scan locked p dbnow = (t', Ok jobs) →
  (∀ j', j' ∈ jobs → t' !! JobID j' = Some j') ∧
  (∀ id, (∀ j', j' ∈ jobs → JobID j' ≠ id) → t' !! id = t !! id).
Proof.
  intros Hk Hnd Hl HD.
  destruct (Dequeue_ok _ _ _ _ _ _ _ Hl HD) as [Hjobs Ht'].
  destruct (ready_rows t scan locked p Hk Hnd) as [Hids _].
  assert (∀ id, t' !! id = match list_find (λ j, JobID j = id) (ready t scan locked p) with
    | Some (_, j) => Some (lease_job p dbnow j) | None => t !! id end) as Hlook.
  { intros id. rewrite Ht'. by apply foldr_insert_lookup. }
  split.
  - intros j' Hj'. rewrite Hlook.
    rewrite Hjobs in Hj'. apply list_elem_of_fmap in Hj' as (j & -> & Hin). cbn.
    destruct (list_find _ _) as [[n k]|] eqn:E.
    + apply list_find_Some in E as (Hn & Heq & _). apply list_elem_of_lookup in Hin as [m Hm].
      assert (n = m) as ->; [|by simplify_eq].
      eapply NoDup_lookup; [exact Hids|by rewrite list_lookup_fmap, Hn|].
      rewrite list_lookup_fmap, Hm. cbn. congruence.
    + apply list_find_None in E. rewrite Forall_forall in E. by destruct (E j Hin).
  - intros id Hne. rewrite Hlook. destruct (list_find _ _) as [[n k]|] eqn:E; [|done].
    apply list_find_Some in E as (Hn & Heq & _). apply list_elem_of_lookup_2 in Hn.
    destruct (Hne (lease_job p dbnow k)); [|done]. rewrite Hjobs. by apply list_elem_of_fmap_2.
Qed.

(** *** Leases *)

(** [id] is leased at least until [L]. *)
Definition leased (id : string) (L : Time) (t : Jobs) : Prop :=
  ∃ j l, t !! id = Some j ∧ JStatus j = StatusRunning ∧ LeasedUntil j = Some l ∧ L ≤ l.

(** A statement of another session before the lease ends: anything but reporting
    the outcome of [id] or shortening its lease. *)
Inductive other_step (id : string) (L : Time) (t : Jobs) : Jobs → Prop :=
| other_enqueue in_ newID wall dbnow :
    t !! newID = None → other_step id L t (Enqueue_insert t (new_job in_ newID wall dbnow)).1
| other_dequeue scan locked p dbnow :
    NoDup scan → dq_Now p < L → other_step id L t (Dequeue t scan locked p dbnow).1
| other_complete id' res dbnow : id' ≠ id → other_step id L t (Complete t id' res dbnow)
| other_retry id' at_ err dbnow : id' ≠ id → other_step id L t (Retry t id' at_ err dbnow)
| other_dead id' err dbnow : id' ≠ id → other_step id L t (DeadLetter t id' err dbnow)
| other_heartbeat id' until dbnow :
    id' ≠ id ∨ L ≤ until → other_step id L t (Heartbeat t id' until dbnow).1
| other_manual id' at_ dbnow : other_step id L t (ManualRetry t id' at_ dbnow).1.

Lemma other_step_jstep id L t t' : other_step id L t t' → jstep t t'.
Proof. destruct 1; by constructor. Qed.

Lemma leased_not_runnable id L t ty now j :
  leased id L t → now < L → t !! id = Some j → ¬ runnable ty now j.
Proof.
  intros (k & l & Hk & Hs & Hl & Hle) Hnow Hj. simplify_eq. unfold runnable.
  rewrite Hs, Hl. intros [_ [[? _]|[_ ?]]]; [done|lia].
Qed.

Lemma other_step_leased id L t t' :
  Inv t → other_step id L t t' → leased id L t → leased id L t'.
Proof.
  intros (Hk & _) Hstep Hl. pose proof Hl as (j & l & Hj & Hs & Hlu & Hle).
  assert (∀ id' s f, id' ≠ id → leased id L (update_where t id' s f).1) as Hother.
  { intros id' s f Hne. exists j, l. rewrite update_where_lookup, Hj.
    by rewrite decide_False by naive_solver. }
  destruct Hstep as [in_ newID wall dbnow Hnew|scan locked p dbnow Hnd Hnow|id' res dbnow Hne
    |id' at_ err dbnow Hne|id' err dbnow Hne|id' until dbnow Hne|id' at_ dbnow]; try by apply Hother.
  - unfold Enqueue_insert. case_decide; [|done]. destruct (live_rows _ _ _); [|done].
    exists j, l. cbn [fst]. rewrite lookup_insert_ne; [done|]. cbn. congruence.
  - pose proof (Dequeue_rowwise t scan locked p dbnow Hk Hnd id) as H. rewrite Hj in H.
    destruct ((Dequeue t scan locked p dbnow).1 !! id) as [j'|] eqn:E; [|done].
    destruct H as [->|(_ & Hr & _)]; [by exists j, l|].
    by destruct (leased_not_runnable id L t (dq_Type p) (dq_Now p) j).
  - rewrite Heartbeat_table. destruct (decide (id' = id)) as [->|]; [|by apply Hother].
    destruct Hne as [?|Hun]; [done|]. exists (set_lease until dbnow j), until.
    rewrite update_where_lookup, Hj. by rewrite decide_True.
  - destruct (ManualRetry_cases t id' at_ dbnow) as [[-> _]|(j' & Hj' & Hs' & _ & ->)]; [done|].
    exists j, l. cbn [fst]. rewrite lookup_insert_ne; [done|]. intros ->. congruence.
Qed.

(** *** Concurrency slots *)

Definition regs_ok (regs : gmap string registration) : Prop :=
  map_Forall (λ _ r, in_use r ≤ concurrency r) regs.

Definition of_type (ty : string) (jobs : list Job) : Z :=
  Z.of_nat (length (filter (λ j, JobType j = ty) jobs)).

Lemma of_type_app ty l k : of_type ty (l ++ k) = of_type ty l + of_type ty k.
Proof. unfold of_type. rewrite filter_app, length_app. lia. Qed.

Lemma of_type_all ty ty' l :
  Forall (λ j, JobType j = ty) l → of_type ty' l = if decide (ty = ty') then Z.of_nat (length l) else 0.
Proof.
  unfold of_type. induction 1 as [|j l Hj _ IH]; [cbn; by case_decide|].
  rewrite filter_cons, Hj. destruct (decide (ty = ty')); cbn [length]; lia.
Qed.

Lemma tick_slots c now dbnow ctxDone scan locked db_ok order : ∀ t regs,
  Inv t → (∀ ty, NoDup (scan ty)) → regs_ok regs →
  let '(t', regs', jobs) := tick c now dbnow ctxDone scan locked db_ok order t regs in
  Inv t' ∧ regs_ok regs' ∧
  ∀ ty, match regs !! ty, regs' !! ty with
        | Some r, Some r' => concurrency r' = concurrency r ∧ in_use r' = in_use r + of_type ty jobs
        | None, None => of_type ty jobs = 0
        | _, _ => False
        end.
Proof.
  induction order as [|jobType rest IH]; intros t regs HI Hsc Hok; cbn [tick].
  { split_and!; [done..|]. intros ty. destruct (regs !! ty); [|done]. split; [done|].
    change (of_type ty []) with 0. lia. }
  destruct (regs !! jobType) as [reg|] eqn:Ereg; [|by apply IH].
  cbv zeta. destruct (Z.leb_spec (concurrency reg - in_use reg) 0) as [|Hfree]; [by apply IH|].
  set (p := mkDequeue _ _ _ _).
  destruct (if db_ok jobType then _ else _) as [t1 r] eqn:E.
  assert (Inv t1) as HI1.
  { destruct (db_ok jobType); [|by simplify_eq]. eapply jstep_inv, HI.
    pose proof (step_dequeue t (scan jobType) (locked jobType) p dbnow (Hsc _)) as H'.
    by rewrite E in H'. }
  assert (∀ ty, match regs !! ty, regs !! ty with
    | Some r, Some r' => concurrency r' = concurrency r ∧ in_use r' = in_use r + of_type ty []
    | None, None => of_type ty [] = 0 | _, _ => False end) as Hsame.
  { intros ty. destruct (regs !! ty); [|done]. split; [done|].
    change (of_type ty []) with 0. lia. }
  destruct r as [jobs|e]; [|destruct ctxDone; [done|by apply IH]].
  destruct (db_ok jobType); [|done].
  destruct HI as (Hk & _). pose proof (Hsc jobType) as Hnd.
  destruct (Dequeue_returned _ _ _ _ _ _ _ Hk Hnd E) as [Hlen Hret].
  assert (Forall (λ j, JobType j = jobType) jobs) as Hty.
  { apply Forall_forall. intros j' Hj'. destruct (Hret j' Hj') as (j & _ & [Ht _] & _ & ->). done. }
  set (reg' := mkReg _ _). cbn in Hlen.
  specialize (IH t1 (<[jobType := reg']> regs) HI1 Hsc).
  destruct (tick _ _ _ _ _ _ _ rest t1 _) as [[t2 regs2] more].
  destruct IH as (HI2 & Hok2 & Hcount).
  { apply map_Forall_insert_2; [|done]. cbn. lia. }
  split_and!; [done..|]. intros ty. specialize (Hcount ty). rewrite of_type_app, (of_type_all _ _ _ Hty).
  destruct (decide (jobType = ty)) as [<-|Hne].
  - rewrite lookup_insert_eq in Hcount. rewrite Ereg. destruct (regs2 !! jobType); [|done].
    destruct Hcount as [-> ->]. cbn. split; [done|lia].
  - by rewrite lookup_insert_ne in Hcount by done.
Qed.

Lemma reachable_inv t t' : rtc jstep t t' → Inv t → Inv t'.
Proof. induction 1; eauto using jstep_inv. Qed.

(** What one statement does to a row that exists. *)
Lemma jstep_row t t' id j :
  Inv t → jstep t t' → t !! id = Some j →
  ∃ j', t' !! id = Some j' ∧ evolves j j' ∧
    (j' = j ∨ JStatus j ≠ StatusSucceeded ∧
       (JStatus j = StatusDead → JStatus j' = StatusPending ∧ Attempts j' = 0)).
Proof.
  intros (Hk & _) Hstep Hj.
  assert (∀ id' f, (∀ j, evolves j (f j)) →
    ∃ j', (update_where t id' StatusRunning f).1 !! id = Some j' ∧ evolves j j' ∧
      (j' = j ∨ JStatus j ≠ StatusSucceeded ∧
         (JStatus j = StatusDead → JStatus j' = StatusPending ∧ Attempts j' = 0))) as Hup.
  { intros id' f Hf. rewrite update_where_lookup, Hj. case_decide as Hd.
    - destruct Hd as [_ Hs]. exists (f j). split; [done|]. split; [done|]. right. by rewrite Hs.
    - exists j. split; [done|]. split; [done|by left]. }
  destruct Hstep as [in_ newID wall dbnow Hnew|scan locked p dbnow Hnd|id' res dbnow
    |id' at_ err dbnow|id' err dbnow|id' until dbnow|id' at_ dbnow]; try by apply Hup.
  - exists j. split; [|split; [done|by left]]. unfold Enqueue_insert.
    case_decide; [|done]. destruct (live_rows _ _ _); [|done].
    cbn [fst]. rewrite lookup_insert_ne; [done|]. cbn. congruence.
  - pose proof (Dequeue_rowwise t scan locked p dbnow Hk Hnd id) as H. rewrite Hj in H.
    destruct ((Dequeue t scan locked p dbnow).1 !! id) as [j'|]; [|done].
    exists j'. split; [done|]. destruct H as [->|(-> & [_ Hr] & _)]; [split; [done|by left]|].
    split; [done|]. right. by destruct Hr as [[-> _]|[-> _]].
  - rewrite Heartbeat_table. by apply Hup.
  - destruct (ManualRetry_cases t id' at_ dbnow) as [[-> _]|(k & Hk' & Hs & _ & ->)].
    + exists j. split; [done|]. split; [done|by left].
    + cbn [fst]. destruct (decide (id' = id)) as [->|].
      * simplify_eq. rewrite lookup_insert_eq. eexists. split; [done|]. split; [done|].
        right. by rewrite Hs.
      * exists j. rewrite lookup_insert_ne by done. split; [done|]. split; [done|by left].
Qed.

(** *** Claims *)

(** C39: the table stays well formed under any interleaving of statements by any
    number of workers, producers and operators, including reports by workers
    whose lease has expired: rows are stored under their own id, attempts never
    go negative, the attempt limit is at least one, a lease is set exactly on
    running jobs, and no two live jobs of a type share an idempotency key. *)
Theorem jobs_invariant t :
  rtc jstep ∅ t →
  (∀ id j, t !! id = Some j →
     JobID j = id ∧ 0 ≤ Attempts j ∧ 1 ≤ MaxAttempts j ∧
     (JStatus j = StatusRunning ↔ is_Some (LeasedUntil j))) ∧
  (∀ ty key id1 id2 j1 j2, t !! id1 = Some j1 → t !! id2 = Some j2 →
     live_key ty key j1 → live_key ty key j2 → id1 = id2).
Proof.
  intros Hr. destruct (reachable_inv _ _ Hr empty_inv) as (Hk & Hrow & Hu).
  split; [|exact Hu]. intros id j Hj. split; [by apply Hk|exact (Hrow id j Hj)].
Qed.

(** A job's life. Whatever statements run, a job is never deleted, its id,
    type, idempotency key and attempt limit never change, a succeeded job never
    changes again, and a dead one changes only by becoming pending with a fresh
    attempt counter, which only a manual retry does. *)
Lemma job_lifecycle t t' id j :
  Inv t → t !! id = Some j →
  (rtc jstep t t' → ∃ j', t' !! id = Some j' ∧ evolves j j' ∧
     (JStatus j = StatusSucceeded → j' = j)) ∧
  (jstep t t' → JStatus j = StatusDead → ∃ j', t' !! id = Some j' ∧
     (j' = j ∨ JStatus j' = StatusPending ∧ Attempts j' = 0)).
Proof.
  intros HI Hj. split.
  - intros Hr. revert j HI Hj. induction Hr as [t|t t1 t2 Hs _ IH]; intros j HI Hj.
    { by exists j. }
    destruct (jstep_row t t1 id j HI Hs Hj) as (j1 & Hj1 & He1 & Hc1).
    destruct (IH j1 (jstep_inv _ _ Hs HI) Hj1) as (j2 & Hj2 & He2 & Hc2).
    exists j2. split; [done|]. split.
    + unfold evolves in *. destruct_and!. split_and!; congruence.
    + intros Hsu. destruct Hc1 as [->|[Hn _]]; [by apply Hc2|done].
  - intros Hs Hd. destruct (jstep_row t t' id j HI Hs Hj) as (j1 & Hj1 & _ & Hc).
    exists j1. split; [done|]. destruct Hc as [->|[_ Hc]]; [by left|right; by apply Hc].
Qed.

(** What a dequeue leases. It returns at most the limit, each job once,
    only unlocked runnable jobs of the type, with status running, one more
    attempt and the new lease, which is also what the table now holds; no other
    row changes; and a runnable job left behind means the limit was used up on
    jobs that are no later in priority and due-time order. *)
Lemma Dequeue_leases t scan locked p dbnow t' jobs :
  Inv t → scans scan t → 0 < dq_Limit p → Dequeue t scan locked p dbnow = (t', Ok jobs) →
  Z.of_nat (length jobs) ≤ dq_Limit p ∧ NoDup (map JobID jobs) ∧
  (∀ j', j' ∈ jobs → t' !! JobID j' = Some j' ∧
     ∃ j, t !! JobID j' = Some j ∧ runnable (dq_Type p) (dq_Now p) j ∧ JobID j ∉ locked ∧
          j' = lease_job p dbnow j) ∧
  (∀ id, (∀ j', j' ∈ jobs → JobID j' ≠ id) → t' !! id = t !! id) ∧
  (∀ id j, t !! id = Some j → runnable (dq_Type p) (dq_Now p) j → id ∉ locked →
     (∀ j', j' ∈ jobs → JobID j' ≠ id) →
     Z.of_nat (length jobs) = dq_Limit p ∧ ∀ j', j' ∈ jobs → before j' j).
Proof.
  intros (Hk & _) Hsc Hl HD. pose proof Hsc as [Hnd _].
  destruct (Dequeue_returned _ _ _ _ _ _ _ Hk Hnd HD) as [Hlen Hret].
  destruct (Dequeue_ok _ _ _ _ _ _ _ Hl HD) as [Hjobs _].
  destruct (ready_rows t scan locked p Hk Hnd) as [Hids _].
  destruct (Dequeue_stored _ _ _ _ _ _ _ Hk Hnd Hl HD) as [Hst Hrest].
  split; [lia|]. split; [rewrite Hjobs, map_map; by erewrite map_ext|].
  split; [auto|]. split; [done|].
  intros id j Hj Hr Hlk Hne. pose proof (Hk _ _ Hj) as Hid. rewrite <- Hid in *.
    destruct (ready_maximal t scan locked p j) as [Hfull Hbef]; try done.
    { intros Hin. apply (Hne (lease_job p dbnow j)); [|done]. rewrite Hjobs. by apply list_elem_of_fmap_2. }
    rewrite Hjobs, length_map. split; [lia|]. intros j' Hj'.
    apply list_elem_of_fmap in Hj' as (k & -> & Hin). exact (Hbef k Hin).
Qed.

(** C29: leases are exclusive. From the moment a dequeue returns a job until its
    lease ends, and as long as nobody reports its outcome or shortens its lease,
    the job stays running and no dequeue before the end of the lease returns it
    again, whatever the other workers, producers and operators do. *)
Theorem lease_exclusive t scan locked p dbnow t1 jobs j t2 scan2 locked2 p2 dbnow2 t3 jobs2 :
  Inv t → scans scan t → 0 < dq_Limit p → Dequeue t scan locked p dbnow = (t1, Ok jobs) →
  j ∈ jobs → let L := dq_Now p + dq_Lease p in
  rtc (other_step (JobID j) L) t1 t2 →
  NoDup scan2 → dq_Now p2 < L → Dequeue t2 scan2 locked2 p2 dbnow2 = (t3, Ok jobs2) →
  JobStatus t2 (JobID j) = Ok StatusRunning ∧ ∀ k, k ∈ jobs2 → JobID k ≠ JobID j.
Proof.
  intros HI [Hnd _] Hl HD Hj L Hsteps Hnd2 Hnow HD2. pose proof HI as (Hk & _).
  assert (Inv t1) as HI1.
  { eapply jstep_inv, HI. pose proof (step_dequeue t scan locked p dbnow Hnd) as H'.
    by rewrite HD in H'. }
  assert (leased (JobID j) L t1) as Hleased.
  { destruct (Dequeue_returned _ _ _ _ _ _ _ Hk Hnd HD) as [_ Hret].
    destruct (Hret j Hj) as (k & _ & _ & _ & Hjk).
    destruct (Dequeue_stored _ _ _ _ _ _ _ Hk Hnd Hl HD) as [Hst _].
    exists j, L. split; [by apply Hst|]. by rewrite Hjk. }
  assert (Inv t2 ∧ leased (JobID j) L t2) as [HI2 Hl2].
  { clear HD2 Hj HD HI Hk. induction Hsteps as [|x y z Hs _ IH]; [done|].
    apply IH; [eapply jstep_inv; [by eapply other_step_jstep|done]|by eapply other_step_leased]. }
  pose proof Hl2 as (k & l & Hk2 & Hs2 & _). split; [unfold JobStatus; by rewrite Hk2, Hs2|].
  intros k2 Hin Hid. destruct HI2 as (Hkeyed & _).
  destruct (Dequeue_returned _ _ _ _ _ _ _ Hkeyed Hnd2 HD2) as [_ Hret2].
  destruct (Hret2 k2 Hin) as (k3 & Hk3 & Hrun & _). rewrite Hid in Hk3.
  by destruct (leased_not_runnable _ _ _ _ _ _ Hl2 Hnow Hk3 Hrun).
Qed.

Lemma backoff_bounds cfg attempt draw :
  let base := if Base cfg <=? 0 then Second else Base cfg in
  let max := if Max cfg <=? 0 then 5 * Minute else Max cfg in
  0 < base < 2 ^ 53 → 0 < max < 2 ^ 53 → 0 ≤ draw < 2 ^ 53 →
  0 ≤ backoffDuration cfg attempt draw ≤ Z.min max (base * 2 ^ (Z.max attempt 1 - 1)).
Proof.
  intros base max Hb Hm Hd. unfold backoffDuration. fold base max. cbv zeta.
  replace (if attempt <? 1 then 1 else attempt) with (Z.max attempt 1)
    by (destruct (Z.ltb_spec attempt 1); lia).
  assert (0 < 2 ^ (Z.max attempt 1 - 1)) as Hp by (apply Z.pow_pos_nonneg; lia).
  rewrite !(round53_small base), !(round53_small max) by lia.
  set (exp := base * 2 ^ (Z.max attempt 1 - 1)). assert (0 < exp) by (subst exp; nia).
  assert ((if exp <? max then exp else max) = Z.min max exp) as ->
    by (destruct (Z.ltb_spec exp max); lia).
  destruct (Z.ltb_spec (Z.min max exp) 0); [lia|]. set (cap := Z.min max exp) in *.
  assert (0 ≤ draw * cap ≤ cap * 2 ^ 53) by nia.
  pose proof (round53_nonneg (draw * cap)). pose proof (round53_le (draw * cap) cap).
  rewrite Z.quot_div_nonneg by lia. split; [apply Z.div_pos; lia|].
  apply Z.div_le_upper_bound; lia.
Qed.

Lemma newest_unique l (j : Job) : (∀ k, k ∈ l → k = j) → newest l = None ∧ l = [] ∨ newest l = Some j.
Proof.
  induction l as [|k l IH]; intros H; [by left|]. right.
  assert (newest (k :: l) = match newest l with
    | Some k0 => if CreatedAt k0 <? CreatedAt k then Some k else newest l
    | None => Some k end) as -> by done.
  rewrite (H k) by left.
  destruct IH as [[-> _]| ->]; [intros; apply H; by right|done|by destruct (_ <? _)].
Qed.

Lemma new_job_ints in_ id w d :
  in_i32 (in_Priority in_) → in_i32 (in_MaxAttempts in_) →
  in_i32 (Priority (new_job in_ id w d)) ∧ in_i32 (MaxAttempts (new_job in_ id w d)).
Proof. intros ? ?. split; [done|]. cbn. by destruct (_ <=? _). Qed.

(** Enqueueing a key a live job holds returns that job. *)
Lemma Enqueue_existing t in_ j newID wall dbnow :
  unique_live t → in_i32 (in_Priority in_) → in_i32 (in_MaxAttempts in_) →
  t !! JobID j = Some j → live_key (in_Type in_) (in_IdempotencyKey in_) j →
  Enqueue t in_ newID wall dbnow (λ t, t) = (t, Ok (j, false)).
Proof.
  intros Hu Hp Hm Hj Hl. unfold Enqueue, Enqueue_insert.
  rewrite decide_True by (by apply new_job_ints). cbn [JobType IdempotencyKey new_job].
  assert (∀ k, k ∈ live_rows t (in_Type in_) (in_IdempotencyKey in_) → k = j) as Hone.
  { intros k Hin. apply list_elem_of_filter in Hin as [Hlk Hin].
    apply list_elem_of_fmap in Hin as ([i k'] & -> & Hin). apply elem_of_map_to_list in Hin.
    cbn in *. pose proof (Hu _ _ _ _ _ _ Hin Hj Hlk Hl). by simplify_eq. }
  destruct (newest_unique _ _ Hone) as [[_ E]|Hn].
  { rewrite live_rows_nil in E. by destruct (E _ _ Hj). }
  destruct (live_rows _ _ _) as [|k l] eqn:E; [done|]. cbv beta zeta iota. by rewrite E, Hn.
Qed.

Lemma newest_elem l j : newest l = Some j → j ∈ l.
Proof.
  induction l as [|k l IH]; [done|].
  change (newest (k :: l)) with (match newest l with
    | Some k0 => if CreatedAt k0 <? CreatedAt k then Some k else newest l
    | None => Some k end).
  destruct (newest l); [destruct (_ <? _)|]; intros; simplify_eq; try by left. right. auto.
Qed.

(** What an enqueue that no other session disturbs returns. *)
Lemma Enqueue_live t in_ newID wall dbnow t' j created :
  Inv t → t !! newID = None → Enqueue t in_ newID wall dbnow (λ t, t) = (t', Ok (j, created)) →
  Inv t' ∧ t' !! JobID j = Some j ∧ live j ∧ JobType j = in_Type in_ ∧
  IdempotencyKey j = in_IdempotencyKey in_ ∧ in_i32 (in_Priority in_) ∧
  (t' = t ∨ t' = <[newID := j]> t).
Proof.
  intros HI Hnew HE.
  assert (Inv (Enqueue_insert t (new_job in_ newID wall dbnow)).1) as HI'
    by (eapply jstep_inv, HI; by apply step_enqueue).
  unfold Enqueue, Enqueue_insert in *. case_decide as Hi; [|done].
  cbn [JobType IdempotencyKey new_job] in *.
  destruct (live_rows t (in_Type in_) (in_IdempotencyKey in_)) as [|k l] eqn:E; cbn in HE, HI'.
  - simplify_eq. repeat (split; [first [done|apply lookup_insert_eq|by left|apply Hi]|]). by right.
  - rewrite E in HE. change (match newest (k :: l) with Some j => (t, Ok (j, false))
      | None => (t, Err ErrNotFound) end = (t', Ok (j, created))) in HE.
    destruct (newest (k :: l)) as [j'|] eqn:En; simplify_eq.
    apply newest_elem in En. rewrite <- E in En.
    apply list_elem_of_filter in En as [(Hl & Ht & Hk & _) Hin].
    apply list_elem_of_fmap in Hin as ([i j'] & -> & Hin). apply elem_of_map_to_list in Hin.
    cbn in *. destruct HI as (Hkeyed & ?). rewrite (Hkeyed _ _ Hin). split_and!; try done; try apply Hi.
    by left.
Qed.

Lemma Enqueue_failed t in_ newID wall dbnow t' e :
  Enqueue t in_ newID wall dbnow (λ t, t) = (t', Err e) → t' = t.
Proof.
  unfold Enqueue, Enqueue_insert. case_decide; [|by intros; simplify_eq].
  destruct (live_rows t _ _) as [|k l] eqn:E; [done|].
  cbv beta iota zeta. destruct (newest _); [done|by intros; simplify_eq].
Qed.

(** What executing a leased job leaves behind. When the outcome is written,
    a handler that returned marks the job succeeded; a permanent error, or any
    error or panic on the last allowed attempt, dead-letters it with the message;
    any other error or panic reschedules it as pending after a jittered delay
    between zero and the clamped exponential; the lease is cleared in every case,
    exactly one counter moves, and no other job changes. When the write fails the
    table is untouched and the job is runnable again once its lease has ended. *)
Lemma process_outcome c t job h write_ok draw now dbnow :
  t !! JobID job = Some job → JStatus job = StatusRunning →
  0 < Base (Backoff c) < 2 ^ 53 → 0 < Max (Backoff c) < 2 ^ 53 → 0 ≤ draw < 2 ^ 53 →
  let '(t', moved) := process c t job h write_ok draw now dbnow in
  (∀ id, id ≠ JobID job → t' !! id = t !! id) ∧
  if write_ok then
    ∃ j' label, t' !! JobID job = Some j' ∧ moved = [(JobType job, label)] ∧
      LeasedUntil j' = None ∧ Attempts j' = Attempts job ∧
      match runHandler h with
      | None => JStatus j' = StatusSucceeded ∧ LastError j' = "" ∧ label = "succeeded"
      | Some (permanent, msg) =>
          LastError j' = msg ∧
          if permanent || (MaxAttempts job <=? Attempts job)
          then JStatus j' = StatusDead ∧ label = "dead"
          else JStatus j' = StatusPending ∧ label = "retried" ∧
            now ≤ NextRunAt j' ≤ now + Z.min (Max (Backoff c))
              (Base (Backoff c) * 2 ^ (Z.max (Attempts job) 1 - 1))
      end
  else t' = t ∧ moved = [] ∧
    ∀ l at_, LeasedUntil job = Some l → l ≤ at_ → runnable (JobType job) at_ job.
Proof.
  intros Hj Hs Hb Hm Hd.
  pose proof (backoff_bounds (Backoff c) (Attempts job) draw) as Hback. cbv zeta in Hback.
  destruct (Z.leb_spec (Base (Backoff c)) 0) as [|_]; [lia|].
  destruct (Z.leb_spec (Max (Backoff c)) 0) as [|_]; [lia|].
  specialize (Hback Hb Hm Hd).
  assert (∀ l at_, LeasedUntil job = Some l → l ≤ at_ → runnable (JobType job) at_ job) as Hrun.
  { intros l at_ Hl Hle. split; [done|]. right. by rewrite Hl. }
  assert (∀ f id, id ≠ JobID job → (update_where t (JobID job) StatusRunning f).1 !! id = t !! id) as Hne.
  { intros f id Hid. rewrite update_where_lookup. destruct (t !! id); [|done].
    by rewrite decide_False by tauto. }
  assert (∀ f, (update_where t (JobID job) StatusRunning f).1 !! JobID job = Some (f job)) as Heq.
  { intros f. rewrite update_where_lookup, Hj. by rewrite decide_True. }
  unfold process. destruct (runHandler h) as [[permanent msg]|].
  - destruct (permanent || _) eqn:Hp; destruct write_ok; (split; [by try apply Hne|]); try done;
      eexists _, _; (split; [apply Heq|]); cbn; unfold time_add; split_and!; done || lia.
  - destruct write_ok; (split; [by try apply Hne|]); [|done].
    eexists _, _. split; [apply Heq|]. done.
Qed.

(** The backoff of a failed job is between zero and the smaller of the
    maximum and the base doubled per attempt, with the defaults in place of
    non-positive settings, for every attempt number and random draw: the float64
    products of the code never round past the cap. *)
Lemma backoffDuration_bounds cfg attempt draw :
  Base cfg < 2 ^ 53 → Max cfg < 2 ^ 53 → 0 ≤ draw < 2 ^ 53 →
  let base := if Base cfg <=? 0 then Second else Base cfg in
  let max := if Max cfg <=? 0 then 5 * Minute else Max cfg in
  0 ≤ backoffDuration cfg attempt draw ≤ Z.min max (base * 2 ^ (Z.max attempt 1 - 1)).
Proof.
  intros Hb Hm Hd. cbv zeta. apply backoff_bounds; [| |done].
  - destruct (Z.leb_spec (Base cfg) 0); [by vm_compute|lia].
  - destruct (Z.leb_spec (Max cfg) 0); [by vm_compute|lia].
Qed.

(** Enqueueing is idempotent per key. When no other session interferes, an
    enqueue always yields a job: a new one exactly when no live job of the type
    holds the key, and otherwise the live job that holds it, with the table
    unchanged; and enqueueing again, under any other generated id, yields the
    first job. *)
Lemma Enqueue_idempotent t in_ newID wall dbnow :
  Inv t → t !! newID = None → in_i32 (in_Priority in_) → in_i32 (in_MaxAttempts in_) →
  ∃ t' j created, Enqueue t in_ newID wall dbnow (λ t, t) = (t', Ok (j, created)) ∧
    (created = true ↔ ∀ id k, t !! id = Some k → ¬ live_key (in_Type in_) (in_IdempotencyKey in_) k) ∧
    (created = true → j = new_job in_ newID wall dbnow ∧ t' = <[newID := j]> t) ∧
    (created = false → t' = t ∧ t !! JobID j = Some j ∧
       live_key (in_Type in_) (in_IdempotencyKey in_) j) ∧
    (in_IdempotencyKey in_ ≠ "" → ∀ newID2 wall2 dbnow2,
       Enqueue t' in_ newID2 wall2 dbnow2 (λ t, t) = (t', Ok (j, false))).
Proof.
  intros HI Hnew Hp Hm. pose proof HI as (Hk & _ & Hu).
  destruct (live_rows t (in_Type in_) (in_IdempotencyKey in_)) as [|k l] eqn:E.
  - set (j := new_job in_ newID wall dbnow).
    exists (<[newID := j]> t), j, true.
    assert (Inv (<[newID := j]> t)) as (_ & _ & Hu').
    { apply Inv_insert; [done|done| |done]. split_and!; cbn; [done| |by split; [|intros [? ?]]].
      destruct (Z.leb_spec (in_MaxAttempts in_) 0); unfold DefaultMaxAttempts; lia. }
    split; [|split; [|split; [done|split; [done|]]]].
    + unfold Enqueue, Enqueue_insert. rewrite decide_True by (by apply new_job_ints).
      cbn [JobType IdempotencyKey new_job]. by rewrite E.
    + split; [|done]. intros _. by apply live_rows_nil.
    + intros Hne *. apply Enqueue_existing; [done..|apply lookup_insert_eq|].
      split_and!; try done. by left.
  - assert (k ∈ live_rows t (in_Type in_) (in_IdempotencyKey in_)) as Hin by (rewrite E; left).
    apply list_elem_of_filter in Hin as [Hl Hin].
    apply list_elem_of_fmap in Hin as ([i k'] & -> & Hin). apply elem_of_map_to_list in Hin.
    cbn in Hl. pose proof (Hk _ _ Hin) as Hid. rewrite <- Hid in Hin.
    exists t, k', false. split; [by apply Enqueue_existing|].
    split; [|split; [done|split; [done|intros _ *; by apply Enqueue_existing]]].
    split; [done|]. intros Hno. by destruct (Hno _ _ Hin).
Qed.

(** The worker never runs more jobs of a type at once than its concurrency
    limit. A poll dequeues at most the free slots of each type, so taking a slot
    for each dispatched job never blocks; it takes exactly one slot per job it
    dispatches of that type, and changes no limit. *)
Lemma tick_respects_concurrency c now dbnow ctxDone scan locked db_ok order t regs :
  Inv t → (∀ ty, NoDup (scan ty)) → regs_ok regs →
  let '(t', regs', jobs) := tick c now dbnow ctxDone scan locked db_ok order t regs in
  ∀ ty, match regs !! ty, regs' !! ty with
        | Some r, Some r' =>
            in_use r' ≤ concurrency r' ∧ concurrency r' = concurrency r ∧
            in_use r' = in_use r + of_type ty jobs
        | None, None => of_type ty jobs = 0
        | _, _ => False
        end.
Proof.
  intros HI Hnd Hok.
  pose proof (tick_slots c now dbnow ctxDone scan locked db_ok order t regs HI Hnd Hok) as H.
  destruct (tick _ _ _ _ _ _ _ _ _ _) as [[t' regs'] jobs]. destruct H as (_ & Hok' & H).
  intros ty. specialize (H ty). destruct (regs !! ty), (regs' !! ty) eqn:E; try done.
  split; [exact (Hok' _ _ E)|done].
Qed.

(** *** A worker whose lease has expired *)

Definition sample_input (max : Z) : EnqueueInput :=
  mkEnqueue "settlement" "" PriorityBalance max "settle-1" "" (100 * Hour).
Definition sample_params (now : Time) : DequeueParams := mkDequeue "settlement" 5 (30 * Second) now.
Definition lease_run (max : Z) : Jobs * list Job * Jobs * list Job :=
  let t0 := (Enqueue_insert ∅ (new_job (sample_input max) "j1" 0 0)).1 in
  let '(t1, r1) := Dequeue t0 ["j1"] ∅ (sample_params (100 * Hour)) 0 in
  let '(t2, r2) := Dequeue t1 ["j1"] ∅ (sample_params (100 * Hour + 30 * Second)) 0 in
  (t1, match r1 with Ok l => l | _ => [] end, t2, match r2 with Ok l => l | _ => [] end).

(** What the leases do not guarantee. A report is checked against the
    status only, not against the lease, so a worker whose lease has expired and
    whose job has been reclaimed still completes the job under the worker that
    holds the new lease; and reclaiming does not look at the attempt limit, so a
    job limited to one attempt is leased for a second one. *)
Lemma expired_lease_still_reports :
  ∃ t1 t2 j1 j2, rtc jstep ∅ t1 ∧ rtc jstep t1 t2 ∧
    t1 !! "j1" = Some j1 ∧ t2 !! "j1" = Some j2 ∧
    LeasedUntil j1 = Some (100 * Hour + 30 * Second) ∧
    LeasedUntil j2 = Some (100 * Hour + 60 * Second) ∧
    JobStatus (Complete t2 (JobID j1) "" 0) "j1" = Ok StatusSucceeded ∧
    MaxAttempts j2 = 1 ∧ Attempts j2 = 2.
Proof.
  set (t0 := (Enqueue_insert ∅ (new_job (sample_input 1) "j1" 0 0)).1).
  set (t1 := (Dequeue t0 ["j1"] ∅ (sample_params (100 * Hour)) 0).1).
  set (t2 := (Dequeue t1 ["j1"] ∅ (sample_params (100 * Hour + 30 * Second)) 0).1).
  assert (NoDup ["j1"]) as Hnd by apply NoDup_singleton.
  destruct (t1 !! "j1") as [j1|] eqn:E1; [|by vm_compute in E1].
  destruct (t2 !! "j1") as [j2|] eqn:E2; [|by vm_compute in E2].
  exists t1, t2, j1, j2.
  split; [eapply rtc_l; [by apply step_enqueue|]; eapply rtc_once; by apply step_dequeue|].
  split; [eapply rtc_once; by apply step_dequeue|]. split; [done|]. split; [done|].
  vm_compute in E1, E2. simplify_eq. split_and!; try reflexivity.
Qed.

(** *** Witnesses *)

Definition sample_table : Jobs := (Enqueue_insert ∅ (new_job (sample_input 3) "j1" 0 0)).1.
Definition sample_leased : Jobs := (lease_run 3).1.1.1.

Lemma sample_reachable : rtc jstep ∅ sample_table.
Proof. apply rtc_once. by apply step_enqueue. Qed.

Lemma sample_inv : Inv sample_table.
Proof. exact (reachable_inv _ _ sample_reachable empty_inv). Qed.

Lemma sample_scans : scans ["j1"] sample_table.
Proof.
  split; [apply NoDup_singleton|]. intros id. unfold sample_table.
  change (is_Some ((<["j1" := new_job (sample_input 3) "j1" 0 0]> ∅ : Jobs) !! id) → id ∈ ["j1"]).
  destruct (decide (id = "j1")) as [->|Hne]; [intros _; by left|].
  rewrite lookup_insert_ne by done. rewrite lookup_empty. by intros [? ?].
Qed.

Lemma jobs_invariant_witness : JobID (new_job (sample_input 3) "j1" 0 0) = "j1".
Proof.
  destruct (jobs_invariant sample_table sample_reachable) as [H _].
  apply (H "j1"). vm_compute. reflexivity.
Defined.

Lemma job_lifecycle_witness :
  ∃ j', sample_leased !! "j1" = Some j' ∧ evolves (new_job (sample_input 3) "j1" 0 0) j'.
Proof.
  destruct (job_lifecycle sample_table sample_leased "j1" (new_job (sample_input 3) "j1" 0 0) sample_inv)
    as [H _]; [vm_compute; reflexivity|].
  destruct H as (j' & Hj' & He & _); [|by exists j'].
  apply rtc_once.
  replace sample_leased with (Dequeue sample_table ["j1"] ∅ (sample_params (100 * Hour)) 0).1
    by (vm_compute; reflexivity).
  apply (step_dequeue sample_table ["j1"] ∅ (sample_params (100 * Hour)) 0).
  apply NoDup_singleton.
Defined.

Lemma Dequeue_leases_witness :
  ∃ jobs, Dequeue sample_table ["j1"] ∅ (sample_params (100 * Hour)) 0 = (sample_leased, Ok jobs) ∧
    Z.of_nat (length jobs) ≤ 5 ∧ NoDup (map JobID jobs).
Proof.
  exists (lease_run 3).1.1.2.
  destruct (Dequeue_leases sample_table ["j1"] ∅ (sample_params (100 * Hour)) 0 sample_leased
    (lease_run 3).1.1.2 sample_inv sample_scans) as (H1 & H2 & _);
    [by vm_compute|vm_compute; reflexivity|].
  split; [vm_compute; reflexivity|]. split; [exact H1|exact H2].
Defined.

Lemma lease_exclusive_witness :
  JobStatus sample_leased "j1" = Ok StatusRunning ∧ ∀ k, k ∈ @nil Job → JobID k ≠ "j1".
Proof.
  pose proof (lease_exclusive sample_table ["j1"] ∅ (sample_params (100 * Hour)) 0 sample_leased
    (lease_run 3).1.1.2 (lease_job (sample_params (100 * Hour)) 0 (new_job (sample_input 3) "j1" 0 0))
    sample_leased ["j1"] ∅ (sample_params (100 * Hour + 29 * Second)) 0 sample_leased [] sample_inv
    sample_scans) as H.
  apply H; [by vm_compute|vm_compute; reflexivity|vm_compute; by left|apply rtc_refl
    |apply NoDup_singleton|by vm_compute|vm_compute; reflexivity].
Defined.

Definition sample_worker : Config :=
  withDefaults (mkConfig true 0 0 0 0 0 (mkBackoff Second (5 * Minute)) 0 0).

Lemma process_outcome_witness :
  ∃ job, sample_leased !! "j1" = Some job ∧
    (process sample_worker sample_leased job (HandlerPanic "boom") false 7 (100 * Hour) 0).1
      = sample_leased.
Proof.
  exists (lease_job (sample_params (100 * Hour)) 0 (new_job (sample_input 3) "j1" 0 0)).
  split; [vm_compute; reflexivity|].
  pose proof (process_outcome sample_worker sample_leased
    (lease_job (sample_params (100 * Hour)) 0 (new_job (sample_input 3) "j1" 0 0))
    (HandlerPanic "boom") false 7 (100 * Hour) 0) as H.
  destruct (process _ _ _ _ _ _ _ _) as [t' moved].
  apply H; [vm_compute; reflexivity|reflexivity|by vm_compute|by vm_compute|lia].
Defined.

Lemma backoffDuration_bounds_witness :
  0 ≤ backoffDuration (mkBackoff 0 0) 4 12345 ≤ 8 * Second.
Proof.
  exact (backoffDuration_bounds (mkBackoff 0 0) 4 12345 ltac:(by vm_compute) ltac:(by vm_compute)
    ltac:(lia)).
Defined.

Lemma Enqueue_idempotent_witness :
  ∃ t' j created, Enqueue sample_table (sample_input 3) "j2" 0 0 (λ t, t) = (t', Ok (j, created)).
Proof.
  destruct (Enqueue_idempotent sample_table (sample_input 3) "j2" 0 0 sample_inv)
    as (t' & j & created & H & _); [vm_compute; reflexivity|by vm_compute|by vm_compute|].
  by exists t', j, created.
Defined.

Lemma tick_respects_concurrency_witness :
  let regs : gmap string registration := {[ "settlement" := mkReg 2 1 ]} in
  match regs !! "settlement",
    (tick sample_worker (100 * Hour) 0 false (λ _, ["j1"]) (λ _, ∅) (λ _, true) ["settlement"]
       sample_table regs).1.2 !! "settlement" with
  | Some r, Some r' => in_use r' ≤ concurrency r'
  | _, _ => False
  end.
Proof.
  cbv zeta. set (regs := {[ "settlement" := mkReg 2 1 ]} : gmap string registration).
  pose proof (tick_respects_concurrency sample_worker (100 * Hour) 0 false (λ _, ["j1"]) (λ _, ∅)
    (λ _, true) ["settlement"] sample_table regs sample_inv (λ _, NoDup_singleton "j1")) as H.
  destruct (tick _ _ _ _ _ _ _ _ _ _) as [[t' regs'] jobs]. cbn [fst snd].
  specialize (H ltac:(by apply map_Forall_singleton) "settlement").
  replace (regs !! "settlement") with (Some (mkReg 2 1)) in * by (vm_compute; reflexivity).
  destruct (regs' !! "settlement"); [apply H|done].
Defined.

End JobQueue.
