(* ===== verification/Outbox.v ===== *)
(** The transactional outbox: the outbox table and its statements
    (src/apps/api/internal/repository/postgres/outbox_repository.go), the
    producer's writer (src/apps/api/internal/domain/outbox/model.go) and the
    retention job (retention.go). *)
From S2P Require Import Prelude JobQueue.
Import JobQueue(in_i32, in_i32_dec).

Module Outbox.

(** *** Data *)

Inductive Status := StatusPending | StatusDispatching | StatusDispatched | StatusDead.

#[global] Instance OutboxStatus_eq_dec : EqDecision Status.
Proof. solve_decision. Defined.

Definition DefaultMaxAttempts : Z := 5.

(** Event ids are UUIDs, which the database orders as 128-bit numbers; job ids
    are those of the job queue. The empty string stands for NULL text. *)
Record Event := mkEvent {
  EvID : Z;
  AggregateType : string;
  AggregateID : string;
  EventType : string;
  EvPayload : string;
  DedupeKey : string;
  EvStatus : Status;
  EvAttempts : Z;
  EvMaxAttempts : Z;
  NextAttemptAt : Time;
  EvLeasedUntil : option Time;
  EvJobID : option string;
  EvLastError : string;
  EvCreatedAt : Time;
  EvUpdatedAt : Time;
  DispatchedAt : option Time;
}.

#[global] Instance Event_eq_dec : EqDecision Event.
Proof. solve_decision. Defined.

Inductive OutboxError :=
| ErrAggregateType | ErrAggregateID | ErrEventType | ErrDedupeKey | ErrPayload
| ErrMarshal | ErrNoRepository | ErrIntRange | ErrDB.

(** [Validate]; [json_valid] is [json.Valid]. *)
Definition Validate (json_valid : string → bool) (e : Event) : option OutboxError :=
  if AggregateType e =s? "" then Some ErrAggregateType
  else if AggregateID e =s? "" then Some ErrAggregateID
  else if EventType e =s? "" then Some ErrEventType
  else if DedupeKey e =s? "" then Some ErrDedupeKey
  else if (0 <? str_len (EvPayload e)) && negb (json_valid (EvPayload e)) then Some ErrPayload
  else None.

(** [NewEvent]: [raw] is the marshalled payload, [None] when marshalling fails. *)
Definition NewEvent (json_valid : string → bool) (newID : Z)
    (aggregateType aggregateID eventType dedupeKey : string) (raw : option string)
  : result OutboxError Event :=
  match raw with
  | None => Err ErrMarshal
  | Some raw =>
      let e := mkEvent newID aggregateType aggregateID eventType raw dedupeKey StatusPending 0
        DefaultMaxAttempts 0 None None "" 0 0 None in
      match Validate json_valid e with Some err => Err err | None => Ok e end
  end.

(** The outbox table by primary key. *)
Abbreviation Table := (gmap Z Event).

Definition rows (t : Table) : list Event := map snd (map_to_list t).

(** *** Statements *)

(** The row [Insert] writes: [wall] is the process clock, [txnow] the start of
    the transaction. *)
Definition new_row (e : Event) (wall txnow : Time) : Event :=
  {| EvID := EvID e; AggregateType := AggregateType e; AggregateID := AggregateID e;
     EventType := EventType e;
     EvPayload := if EvPayload e =s? "" then "{}" else EvPayload e;
     DedupeKey := DedupeKey e; EvStatus := StatusPending; EvAttempts := 0;
     EvMaxAttempts := if EvMaxAttempts e <=? 0 then DefaultMaxAttempts else EvMaxAttempts e;
     NextAttemptAt := if time_is_zero (NextAttemptAt e) then wall else NextAttemptAt e;
     EvLeasedUntil := None; EvJobID := None; EvLastError := ""; EvCreatedAt := txnow;
     EvUpdatedAt := txnow; DispatchedAt := None |}.

Definition Insert (t : Table) (e : Event) (wall txnow : Time) : Table * option OutboxError :=
  let r := new_row e wall txnow in
  if bool_decide (in_i32 (EvMaxAttempts r)) then
    if bool_decide (Exists (λ k, DedupeKey k = DedupeKey r) (rows t)) then (t, None)
    else (<[EvID r := r]> t, None)
  else (t, Some ErrIntRange).

(** [Writer.Insert]: [hasRepo] is false for a writer without a repository; the
    nil UUID is 0. *)
Definition Writer_Insert (json_valid : string → bool) (hasRepo : bool) (newID : Z)
    (t : Table) (e : Event) (wall txnow : Time) : Table * option OutboxError :=
  if negb hasRepo then (t, Some ErrNoRepository)
  else match Validate json_valid e with
  | Some err => (t, Some err)
  | None =>
      let e := mkEvent (if EvID e =? 0 then newID else EvID e) (AggregateType e) (AggregateID e)
        (EventType e) (EvPayload e) (DedupeKey e) (EvStatus e) (EvAttempts e)
        (if EvMaxAttempts e <=? 0 then DefaultMaxAttempts else EvMaxAttempts e)
        (NextAttemptAt e) (EvLeasedUntil e) (EvJobID e) (EvLastError e) (EvCreatedAt e)
        (EvUpdatedAt e) (DispatchedAt e) in
      Insert t e wall txnow
  end.

Definition Publish (json_valid : string → bool) (hasRepo : bool) (newID newID2 : Z) (t : Table)
    (aggregateType aggregateID eventType dedupeKey : string) (raw : option string)
    (wall txnow : Time) : Table * option OutboxError :=
  match NewEvent json_valid newID aggregateType aggregateID eventType dedupeKey raw with
  | Err err => (t, Some err)
  | Ok e => Writer_Insert json_valid hasRepo newID2 t e wall txnow
  end.

Definition nonterminal (e : Event) : Prop :=
  EvStatus e = StatusPending ∨ EvStatus e = StatusDispatching.
#[global] Instance nonterminal_dec e : Decision (nonterminal e).
Proof. unfold nonterminal. apply _. Defined.

Definition same_aggregate (a b : Event) : Prop :=
  AggregateType a = AggregateType b ∧ AggregateID a = AggregateID b.
#[global] Instance same_aggregate_dec : RelDecision same_aggregate.
Proof. intros a b. unfold same_aggregate. apply _. Defined.

(** [ORDER BY created_at, id]. *)
Definition older (a b : Event) : Prop :=
  EvCreatedAt a < EvCreatedAt b ∨ (EvCreatedAt a = EvCreatedAt b ∧ EvID a ≤ EvID b).
#[global] Instance older_dec : RelDecision older.
Proof. intros a b. unfold older. apply _. Defined.

(** The [heads] subquery: the oldest row of its aggregate that is not terminal. *)
Definition is_head (t : Table) (e : Event) : Prop :=
  nonterminal e ∧
  Forall (λ k, nonterminal k → same_aggregate e k → older e k) (rows t).
#[global] Instance is_head_dec t e : Decision (is_head t e).
Proof. unfold is_head. apply _. Defined.

(** The due-ness filter of the [ready] subquery. *)
Definition claimable (now : Time) (e : Event) : Prop :=
  (EvStatus e = StatusPending ∧ NextAttemptAt e ≤ now) ∨
  (EvStatus e = StatusDispatching ∧ EvJobID e = None ∧
   match EvLeasedUntil e with Some l => l ≤ now | None => False end).
#[global] Instance claimable_dec now e : Decision (claimable now e).
Proof. unfold claimable. destruct (EvLeasedUntil e); apply _. Defined.

Record ClaimParams := mkClaim { cp_Limit : Z; cp_Lease : Duration; cp_Now : Time }.

Definition ready (t : Table) (locked : gset Z) (limit : Z) (now : Time) : list Event :=
  take (Z.to_nat limit)
    (filter (λ e, EvID e ∉ locked)
      (merge_sort older (filter (λ e, is_head t e ∧ claimable now e) (rows t)))).

Definition claim_row (until dbnow : Time) (e : Event) : Event :=
  {| EvID := EvID e; AggregateType := AggregateType e; AggregateID := AggregateID e;
     EventType := EventType e; EvPayload := EvPayload e; DedupeKey := DedupeKey e;
     EvStatus := StatusDispatching; EvAttempts := EvAttempts e + 1;
     EvMaxAttempts := EvMaxAttempts e; NextAttemptAt := NextAttemptAt e;
     EvLeasedUntil := Some until; EvJobID := None; EvLastError := EvLastError e;
     EvCreatedAt := EvCreatedAt e; EvUpdatedAt := dbnow; DispatchedAt := DispatchedAt e |}.

(** [ClaimDue]; [wall] replaces a zero reference time. *)
Definition ClaimDue (t : Table) (locked : gset Z) (p : ClaimParams) (wall dbnow : Time)
  : Table * result OutboxError (list Event) :=
  if cp_Limit p <=? 0 then (t, Ok [])
  else
    let now := if time_is_zero (cp_Now p) then wall else cp_Now p in
    let claimed := ready t locked (cp_Limit p) now in
    let upd := claim_row (time_add now (cp_Lease p)) dbnow in
    if bool_decide (Forall (λ e, in_i32 (EvAttempts e + 1)) claimed) then
      (foldr (λ e (t : Table), <[EvID e := upd e]> t) t claimed, Ok (map upd claimed))
    else (t, Err ErrIntRange).

(** [UPDATE outbox SET ... WHERE id = $1 AND P]. *)
Definition update_where (t : Table) (id : Z) (P : Event → bool) (f : Event → Event) : Table :=
  match t !! id with
  | Some e => if P e then <[id := f e]> t else t
  | None => t
  end.

Definition set_status (s : Status) (next : Event → Time) (lease : Event → option Time)
    (job : Event → option string) (err : Event → string) (disp : Event → option Time)
    (dbnow : Time) (e : Event) : Event :=
  {| EvID := EvID e; AggregateType := AggregateType e; AggregateID := AggregateID e;
     EventType := EventType e; EvPayload := EvPayload e; DedupeKey := DedupeKey e;
     EvStatus := s; EvAttempts := EvAttempts e; EvMaxAttempts := EvMaxAttempts e;
     NextAttemptAt := next e; EvLeasedUntil := lease e; EvJobID := job e; EvLastError := err e;
     EvCreatedAt := EvCreatedAt e; EvUpdatedAt := dbnow; DispatchedAt := disp e |}.

Definition has_status (s : Status) (e : Event) : bool := bool_decide (EvStatus e = s).

Definition MarkDispatching (t : Table) (id : Z) (jobID : string) (dbnow : Time) : Table :=
  update_where t id (has_status StatusDispatching)
    (λ e, set_status (EvStatus e) NextAttemptAt EvLeasedUntil (λ _, Some jobID) EvLastError
            DispatchedAt dbnow e).

Definition MarkDispatched (t : Table) (id : Z) (at_ wall dbnow : Time) : Table :=
  let at_ := if time_is_zero at_ then wall else at_ in
  update_where t id (λ e, negb (has_status StatusDispatched e))
    (set_status StatusDispatched NextAttemptAt (λ _, None) EvJobID (λ _, "") (λ _, Some at_) dbnow).

Definition MarkDead (t : Table) (id : Z) (lastErr : string) (dbnow : Time) : Table :=
  update_where t id (λ e, negb (has_status StatusDead e))
    (set_status StatusDead NextAttemptAt (λ _, None) EvJobID (λ _, lastErr) DispatchedAt dbnow).

Definition Release (t : Table) (id : Z) (nextAttemptAt : Time) (lastErr : string) (dbnow : Time)
  : Table :=
  update_where t id (has_status StatusDispatching)
    (set_status StatusPending (λ _, nextAttemptAt) (λ _, None) (λ _, None) (λ _, lastErr)
       DispatchedAt dbnow).

Definition InFlight (t : Table) (limit : Z) : list Event :=
  if limit <=? 0 then []
  else take (Z.to_nat limit)
    (merge_sort older
      (filter (λ e, EvStatus e = StatusDispatching ∧ EvJobID e ≠ None) (rows t))).

Record Stats := mkStats { Pending : Z; Dispatching : Z; Dead : Z; OldestPendingAge : Duration }.

Definition count_rows (P : Event → Prop) `{∀ e, Decision (P e)} (t : Table) : Z :=
  Z.of_nat (length (filter P (rows t))).

Definition min_created (l : list Event) : option Time :=
  foldr (λ e acc, Some (match acc with Some m => Z.min m (EvCreatedAt e) | None => EvCreatedAt e end))
    None l.

Definition OutboxStats (t : Table) (now0 wall : Time) : Stats :=
  let now := if time_is_zero now0 then wall else now0 in
  {| Pending := count_rows (λ e, EvStatus e = StatusPending ∧ NextAttemptAt e ≤ now) t;
     Dispatching := count_rows (λ e, EvStatus e = StatusDispatching) t;
     Dead := count_rows (λ e, EvStatus e = StatusDead) t;
     OldestPendingAge :=
       match min_created (filter nonterminal (rows t)) with
       | Some c => if 0 <? time_sub now c then time_sub now c else 0
       | None => 0
       end |}.

(** [DELETE FROM outbox WHERE status = s AND updated_at < cutoff]. *)
Definition prune_status (t : Table) (s : Status) (cutoff : Time) : Table * Z :=
  (filter (λ kv, ¬ (EvStatus kv.2 = s ∧ EvUpdatedAt kv.2 < cutoff)) t,
   count_rows (λ e, EvStatus e = s ∧ EvUpdatedAt e < cutoff) t).

(** [PruneTerminal]: two statements, the second of which [ok2] says reached the
    database. *)
Definition PruneTerminal (t : Table) (dispatchedBefore deadBefore : Time) (ok1 ok2 : bool)
  : Table * (Z * Z * option OutboxError) :=
  if negb ok1 then (t, (0, 0, Some ErrDB))
  else
    let '(t1, dispatched) := prune_status t StatusDispatched dispatchedBefore in
    if negb ok2 then (t1, (dispatched, 0, Some ErrDB))
    else
      let '(t2, dead) := prune_status t1 StatusDead deadBefore in
      (t2, (dispatched, dead, None)).

(** *** Retention *)

Definition DefaultDispatchedRetention : Duration := 7 * 24 * Hour.
Definition DefaultDeadRetention : Duration := 30 * 24 * Hour.

Record RetentionConfig := mkRetention { DispatchedRetention : Duration; DeadRetention : Duration }.

Definition RetentionConfig_withDefaults (c : RetentionConfig) : RetentionConfig :=
  {| DispatchedRetention := if DispatchedRetention c <=? 0 then DefaultDispatchedRetention
                            else DispatchedRetention c;
     DeadRetention := if DeadRetention c <=? 0 then DefaultDeadRetention else DeadRetention c |}.

(** [RetentionJob.Tick]: the rows removed, and the pruned counters moved. *)
Definition RetentionJob_Tick (c : RetentionConfig) (isLeader : bool) (t : Table) (now : Time)
    (ok1 ok2 : bool) : Table * Z * list (Status * Z) :=
  if negb isLeader then (t, 0, [])
  else
    let '(t', (dispatched, dead, err)) :=
      PruneTerminal t (time_add now (i64 (- DispatchedRetention c)))
        (time_add now (i64 (- DeadRetention c))) ok1 ok2 in
    match err with
    | Some _ => (t', 0, [])
    | None =>
        (t', i64 (dispatched + dead),
         (if 0 <? dispatched then [(StatusDispatched, dispatched)] else []) ++
         (if 0 <? dead then [(StatusDead, dead)] else []))
    end.

(** ** Interleaved statements *)

(** One statement of some producer, relay or retention job, at any time and for
    any id: relays act on events they read earlier. [insert_ok] restricts the
    rows producers insert. *)
Inductive ostep (insert_ok : Table → Event → Prop) (t : Table) : Table → Prop :=
| step_insert e wall txnow :
    t !! EvID e = None → insert_ok t (new_row e wall txnow) →
    ostep insert_ok t (Insert t e wall txnow).1
| step_claim locked p wall dbnow : ostep insert_ok t (ClaimDue t locked p wall dbnow).1
| step_dispatching id job dbnow : ostep insert_ok t (MarkDispatching t id job dbnow)
| step_dispatched id at_ wall dbnow : ostep insert_ok t (MarkDispatched t id at_ wall dbnow)
| step_dead id err dbnow : ostep insert_ok t (MarkDead t id err dbnow)
| step_release id next err dbnow : ostep insert_ok t (Release t id next err dbnow)
| step_prune dispatchedBefore deadBefore ok1 ok2 :
    ostep insert_ok t (PruneTerminal t dispatchedBefore deadBefore ok1 ok2).1.

Definition any_insert (_ : Table) (_ : Event) : Prop := True.

(** Producers of one aggregate insert in the order of their timestamps. *)
Definition in_order (t : Table) (r : Event) : Prop :=
  ∀ k, k ∈ rows t → same_aggregate k r → older k r.

Definition keyed (t : Table) : Prop := ∀ id e, t !! id = Some e → EvID e = id.

Lemma elem_of_rows t e : e ∈ rows t ↔ ∃ id, t !! id = Some e.
Proof.
  unfold rows. split.
  - intros H. apply list_elem_of_fmap in H as ([id e'] & -> & H).
    exists id. by apply elem_of_map_to_list.
  - intros [id H]. apply list_elem_of_fmap. exists (id, e). by rewrite elem_of_map_to_list.
Qed.

Lemma rows_NoDup t : keyed t → NoDup (map EvID (rows t)).
Proof.
  intros Hk. unfold rows. rewrite map_map.
  assert (map (λ x : Z * Event, EvID x.2) (map_to_list t) = map fst (map_to_list t)) as ->.
  { apply map_ext_in. intros [id e] Hin. cbn. apply Hk, elem_of_map_to_list.
    by apply list_elem_of_In. }
  apply NoDup_fst_map_to_list.
Qed.

(** What every statement but an insert or a prune keeps of a row. *)
Definition same_event (e e' : Event) : Prop :=
  EvID e' = EvID e ∧ AggregateType e' = AggregateType e ∧ AggregateID e' = AggregateID e ∧
  EventType e' = EventType e ∧ EvPayload e' = EvPayload e ∧ DedupeKey e' = DedupeKey e ∧
  EvMaxAttempts e' = EvMaxAttempts e ∧ EvCreatedAt e' = EvCreatedAt e.

(** Terminal rows stay terminal, attempts never go down, and only a head enters
    dispatching. *)
Definition evolves (t : Table) (e e' : Event) : Prop :=
  same_event e e' ∧ (nonterminal e' → nonterminal e) ∧ EvAttempts e ≤ EvAttempts e' ∧
  (EvStatus e' = StatusDispatching → EvStatus e = StatusDispatching ∨ is_head t e).

Definition rowwise (R : Event → Event → Prop) (t t' : Table) : Prop :=
  ∀ id, match t !! id, t' !! id with
        | Some e, Some e' => e' = e ∨ R e e'
        | None, None => True
        | _, _ => False
        end.

Lemma update_event_lookup t id P f i :
  update_where t id P f !! i =
    match t !! i with
    | Some e => if decide (i = id ∧ P e = true) then Some (f e) else Some e
    | None => None
    end.
Proof.
  unfold update_where. destruct (t !! id) as [e|] eqn:E.
  - destruct (P e) eqn:HP.
    + destruct (decide (i = id)) as [->|Hne].
      * rewrite lookup_insert_eq, E. by rewrite decide_True.
      * rewrite lookup_insert_ne by done. destruct (t !! i); [|done].
        by rewrite decide_False by tauto.
    + destruct (t !! i) eqn:Ei; [|done]. case_decide as Hd; [|done].
      destruct Hd as [-> HPe]. rewrite E in Ei. simplify_eq. by rewrite HP in HPe.
  - destruct (t !! i) eqn:Ei; [|done]. case_decide as Hd; [|done]. naive_solver.
Qed.

Lemma rowwise_update_event R t id P f :
  (∀ e, t !! id = Some e → P e = true → R e (f e)) → rowwise R t (update_where t id P f).
Proof.
  intros Hf i. rewrite update_event_lookup. destruct (t !! i) as [e|] eqn:E; [|done].
  case_decide as Hd; [|by left]. destruct Hd as [-> Hs]. right. by apply Hf.
Qed.

(** The claimed rows: rows of the table that are unlocked claimable heads. *)
Lemma ready_events t locked limit now :
  keyed t →
  Forall (λ e, t !! EvID e = Some e ∧ is_head t e ∧ claimable now e ∧ EvID e ∉ locked)
    (ready t locked limit now).
Proof.
  intros Hk. unfold ready. apply Forall_forall. intros e He.
  apply elem_of_take in He as (n & He & _). apply list_elem_of_lookup_2 in He.
  apply list_elem_of_filter in He as [Hl He]. rewrite merge_sort_Permutation in He.
  apply list_elem_of_filter in He as [[Hh Hc] He]. apply elem_of_rows in He as [id Hid].
  split; [by rewrite (Hk _ _ Hid)|done].
Qed.

Lemma ClaimDue_rowwise t locked p wall dbnow :
  keyed t → rowwise (evolves t) t (ClaimDue t locked p wall dbnow).1.
Proof.
  intros Hk id. unfold ClaimDue. destruct (_ <=? _); [cbn; destruct (t !! id); by try left|].
  cbv zeta. case_bool_decide; [|cbn; destruct (t !! id); by try left].
  cbn [fst]. rewrite foldr_insert_lookup. set (now := if time_is_zero _ then _ else _).
  pose proof (ready_events t locked (cp_Limit p) now Hk) as Hrows. rewrite Forall_forall in Hrows.
  destruct (list_find _ _) as [[n e]|] eqn:E; [|destruct (t !! id); by try left].
  apply list_find_Some in E as (Hin & <- & _). apply list_elem_of_lookup_2 in Hin.
  destruct (Hrows e Hin) as (-> & Hh & _ & _). right. split; [done|].
  split; [intros _; apply Hh|]. split; [cbn; lia|by right].
Qed.

Lemma nonterminal_terminal e s :
  s = StatusDispatched ∨ s = StatusDead → EvStatus e = s → ¬ nonterminal e.
Proof. intros [-> | ->] Hs [?|?]; congruence. Qed.

(** Every statement but an insert or a prune acts row by row. *)
Lemma ostep_rowwise ok t t' :
  keyed t → ostep ok t t' →
  rowwise (evolves t) t t' ∨
  (∃ e wall txnow, t !! EvID e = None ∧ ok t (new_row e wall txnow) ∧ t' = (Insert t e wall txnow).1) ∨
  (∃ d1 d2 ok1 ok2, t' = (PruneTerminal t d1 d2 ok1 ok2).1).
Proof.
  intros Hk Hs. destruct Hs as [e wall txnow Hn Hok|locked p wall dbnow|id job dbnow
    |id at_ wall dbnow|id err dbnow|id next err dbnow|d1 d2 ok1 ok2].
  - right. left. eauto 10.
  - left. by apply ClaimDue_rowwise.
  - left. apply rowwise_update_event. intros e He HP. apply bool_decide_eq_true in HP.
    split; [done|]. split; [by intros _; right|]. split; [cbn; lia|by left].
  - left. apply rowwise_update_event. intros e He HP. split; [done|].
    split; [by intros [?|?]|]. split; [cbn; lia|done].
  - left. apply rowwise_update_event. intros e He HP. split; [done|].
    split; [by intros [?|?]|]. split; [cbn; lia|done].
  - left. apply rowwise_update_event. intros e He HP. apply bool_decide_eq_true in HP.
    split; [done|]. split; [by intros _; right|]. split; [cbn; lia|done].
  - right. right. eauto 10.
Qed.

Lemma Insert_cases t e wall txnow :
  (Insert t e wall txnow).1 = t ∨
  (Insert t e wall txnow).1 = <[EvID e := new_row e wall txnow]> t ∧
    ∀ k, k ∈ rows t → DedupeKey k ≠ DedupeKey e.
Proof.
  unfold Insert. case_bool_decide; [|by left]. case_bool_decide as Hd; [by left|right].
  split; [done|]. intros k Hk Heq. apply Hd, Exists_exists. by exists k.
Qed.

Lemma prune_lookup t s cutoff id :
  (prune_status t s cutoff).1 !! id =
    match t !! id with
    | Some e => if decide (EvStatus e = s ∧ EvUpdatedAt e < cutoff) then None else Some e
    | None => None
    end.
Proof.
  unfold prune_status. cbn [fst]. rewrite map_lookup_filter. destruct (t !! id) as [e|]; [|done].
  cbn. destruct (decide (EvStatus e = s ∧ EvUpdatedAt e < cutoff)); cbn;
    case_guard; naive_solver.
Qed.

(** A prune only removes terminal rows past their cutoff. *)
Lemma PruneTerminal_lookup t d1 d2 ok1 ok2 id e :
  t !! id = Some e →
  (PruneTerminal t d1 d2 ok1 ok2).1 !! id = Some e ∨
  (PruneTerminal t d1 d2 ok1 ok2).1 !! id = None ∧
    (EvStatus e = StatusDispatched ∧ EvUpdatedAt e < d1 ∨ EvStatus e = StatusDead ∧ EvUpdatedAt e < d2).
Proof.
  intros He. unfold PruneTerminal. destruct ok1; [|by left]. cbn [negb].
  pose proof (prune_lookup t StatusDispatched d1 id) as H1. rewrite He in H1.
  destruct (prune_status t StatusDispatched d1) as [t1 n1]. cbn in H1.
  destruct ok2; cbn [negb fst].
  - pose proof (prune_lookup t1 StatusDead d2 id) as H2. rewrite H1 in H2.
    destruct (prune_status t1 StatusDead d2) as [t2 n2]. cbn in H2. cbn. rewrite H2.
    repeat case_decide; auto.
  - rewrite H1. case_decide; auto.
Qed.

Lemma PruneTerminal_subset t d1 d2 ok1 ok2 id :
  t !! id = None → (PruneTerminal t d1 d2 ok1 ok2).1 !! id = None.
Proof.
  intros He. unfold PruneTerminal. destruct ok1; [|done]. cbn [negb].
  pose proof (prune_lookup t StatusDispatched d1 id) as H1. rewrite He in H1.
  destruct (prune_status t StatusDispatched d1) as [t1 n1]. cbn in H1.
  destruct ok2; [|done]. cbn [negb].
  pose proof (prune_lookup t1 StatusDead d2 id) as H2. rewrite H1 in H2.
  by destruct (prune_status t1 StatusDead d2).
Qed.

(** *** Invariants *)

(** Rows are stored under their id, with non-negative attempts and distinct
    dedupe keys. *)
Definition Inv (t : Table) : Prop :=
  keyed t ∧ map_Forall (λ _ e, 0 ≤ EvAttempts e) t ∧
  ∀ id1 id2 e1 e2, t !! id1 = Some e1 → t !! id2 = Some e2 → DedupeKey e1 = DedupeKey e2 → id1 = id2.

(** While an event is being dispatched, every older event of its aggregate is
    terminal. *)
Definition Ordered (t : Table) : Prop :=
  ∀ e k, e ∈ rows t → k ∈ rows t → same_aggregate k e → older k e → EvID k ≠ EvID e →
    EvStatus e = StatusDispatching → ¬ nonterminal k.

Lemma rowwise_back R t t' id e' :
  rowwise R t t' → t' !! id = Some e' → ∃ e, t !! id = Some e ∧ (e' = e ∨ R e e').
Proof. intros H He. specialize (H id). rewrite He in H. destruct (t !! id) as [e|]; [by exists e|done]. Qed.

Lemma events_Inv_rowwise t t' : rowwise (evolves t) t t' → Inv t → Inv t'.
Proof.
  intros Hrow (Hk & Ha & Hd). split_and!.
  - intros id e' He'. destruct (rowwise_back _ _ _ _ _ Hrow He') as (e & He & [->|((-> & _) & _)]);
      by apply Hk.
  - intros id e' He'. destruct (rowwise_back _ _ _ _ _ Hrow He') as (e & He & [->|(_ & _ & ? & _)]);
      pose proof (Ha _ _ He) as H0; cbn in H0; lia.
  - assert (∀ id e', t' !! id = Some e' → ∃ e, t !! id = Some e ∧ DedupeKey e' = DedupeKey e) as Hb.
    { intros id e' He'. destruct (rowwise_back _ _ _ _ _ Hrow He') as (e & He & [->|(Hs & _)]);
        exists e; [done|]. split; [done|apply Hs]. }
    intros id1 id2 e1 e2 H1 H2 Heq. destruct (Hb _ _ H1) as (k1 & ? & E1), (Hb _ _ H2) as (k2 & ? & E2).
    apply (Hd id1 id2 k1 k2); congruence.
Qed.

Lemma Inv_subset t t' : (∀ id e, t' !! id = Some e → t !! id = Some e) → Inv t → Inv t'.
Proof.
  intros Hsub (Hk & Ha & Hd). split_and!.
  - intros id e He. by apply Hk, Hsub.
  - intros id e He. apply (Ha id). by apply Hsub.
  - intros id1 id2 e1 e2 H1 H2. by apply Hd; apply Hsub.
Qed.

Lemma prune_subset t d1 d2 ok1 ok2 id e :
  (PruneTerminal t d1 d2 ok1 ok2).1 !! id = Some e → t !! id = Some e.
Proof.
  intros He. destruct (t !! id) as [k|] eqn:E.
  - destruct (PruneTerminal_lookup t d1 d2 ok1 ok2 id k E) as [H|[H _]]; congruence.
  - rewrite (PruneTerminal_subset t d1 d2 ok1 ok2 id E) in He. done.
Qed.

Lemma ostep_inv ok t t' : ostep ok t t' → Inv t → Inv t'.
Proof.
  intros Hs HI. pose proof HI as (Hk & Ha & Hd).
  destruct (ostep_rowwise ok t t' Hk Hs) as [Hrow|[(e & wall & txnow & Hn & _ & ->)|(d1 & d2 & ok1 & ok2 & ->)]].
  - by eapply events_Inv_rowwise.
  - destruct (Insert_cases t e wall txnow) as [->|[-> Hkey]]; [done|]. split_and!.
    + intros id k. rewrite lookup_insert_Some. intros [[<- <-]|[_ ?]]; [done|by apply Hk].
    + apply map_Forall_insert_2; [done|done].
    + assert (∀ id k, t !! id = Some k → DedupeKey k ≠ DedupeKey e) as Hne
        by (intros id k Hid; apply Hkey, elem_of_rows; eauto).
      intros id1 id2 e1 e2. rewrite !lookup_insert_Some.
      intros [[<- <-]|[_ H1]] [[<- <-]|[_ H2]] Heq; [done| | |by eapply Hd].
      * by destruct (Hne _ _ H2).
      * by destruct (Hne _ _ H1).
  - eapply Inv_subset, HI. intros id e. apply prune_subset.
Qed.

Lemma older_antisym a b : older a b → older b a → EvID a = EvID b.
Proof. unfold older. lia. Qed.

Lemma Ordered_rowwise t t' : keyed t → rowwise (evolves t) t t' → Ordered t → Ordered t'.
Proof.
  intros Hk Hrow HO e' k' He' Hk' Hag Hold Hne Hst Hnt.
  apply elem_of_rows in He' as [i He'], Hk' as [j Hk'].
  assert (∀ id x', t' !! id = Some x' → ∃ x, t !! id = Some x ∧ same_event x x' ∧
    (nonterminal x' → nonterminal x) ∧
    (EvStatus x' = StatusDispatching → EvStatus x = StatusDispatching ∨ is_head t x)) as Hb.
  { intros id x' Hx'. destruct (rowwise_back _ _ _ _ _ Hrow Hx') as (x & Hx & [->|(? & ? & _ & ?)]);
      exists x; split_and!; try done. auto. }
  destruct (Hb _ _ He') as (e & He & (Eid & Eat & Eai & _ & _ & _ & _ & Ecr) & _ & Hd).
  destruct (Hb _ _ Hk') as (k & Hkk & (Kid & Kat & Kai & _ & _ & _ & _ & Kcr) & Hnk & _).
  unfold same_aggregate, older in *. rewrite Eat, Eai, Ecr, Eid, Kat, Kai, Kcr, Kid in *.
  specialize (Hnk Hnt).
  assert (e ∈ rows t ∧ k ∈ rows t) as [Hein Hkin] by (rewrite !elem_of_rows; eauto).
  destruct (Hd Hst) as [Hdisp|[_ Hhead]].
  - by apply (HO e k Hein Hkin).
  - rewrite Forall_forall in Hhead. apply Hne.
    assert (older e k) as Hek by (apply Hhead; [done|done|]; unfold same_aggregate; naive_solver).
    unfold older in Hek. lia.
Qed.

Lemma ostep_ordered t t' : Inv t → ostep in_order t t' → Ordered t → Ordered t'.
Proof.
  intros (Hk & _) Hs HO.
  destruct (ostep_rowwise _ t t' Hk Hs) as [Hrow|[(e & wall & txnow & Hn & Hord & ->)|(d1 & d2 & ok1 & ok2 & ->)]].
  - by eapply Ordered_rowwise.
  - destruct (Insert_cases t e wall txnow) as [->|[-> _]]; [done|].
    set (r := new_row e wall txnow) in *.
    assert (∀ x, x ∈ rows (<[EvID e := r]> t) → x = r ∨ x ∈ rows t) as Hr.
    { intros x. rewrite !elem_of_rows. intros [id Hid]. rewrite lookup_insert_Some in Hid.
      destruct Hid as [[_ <-]|[_ Hid]]; [by left|right; eauto]. }
    intros x k Hx Hkk Hag Hold Hne Hst.
    destruct (Hr _ Hx) as [->|Hx'], (Hr _ Hkk) as [->|Hk']; try done.
    + assert (older x r) as Hxr by (apply Hord; [done|]; unfold same_aggregate in *; naive_solver).
      destruct Hne. by apply older_antisym.
    + by apply (HO x k).
  - intros x k Hx Hkk. apply HO; rewrite elem_of_rows in *; destruct Hx as [i Hi], Hkk as [j Hj];
      eauto using prune_subset.
Qed.

Lemma no_events_inv : Inv ∅.
Proof. split_and!; [done|apply map_Forall_empty|done]. Qed.

Lemma reachable_events_inv ok t : rtc (ostep ok) ∅ t → Inv t.
Proof.
  intros Hr. apply rtc_ind_r with (P := Inv) in Hr; [done|apply no_events_inv|].
  intros x y _ Hs HI. by eapply ostep_inv.
Qed.

Lemma reachable_ordered t : rtc (ostep in_order) ∅ t → Ordered t.
Proof.
  intros Hr. assert (Inv t ∧ Ordered t) as [_ ?]; [|done].
  apply rtc_ind_r with (P := λ t, Inv t ∧ Ordered t) in Hr; [done| |].
  - split; [apply no_events_inv|]. intros e k He. apply elem_of_rows in He as [? []%lookup_empty_Some].
  - intros x y _ Hs [HI HO]. split; [by eapply ostep_inv|by eapply ostep_ordered].
Qed.

#[global] Instance older_transitive : Transitive older.
Proof. intros a b c. unfold older. lia. Qed.
#[global] Instance older_total : Total older.
Proof. intros a b. unfold older. lia. Qed.

(** *** Claims *)

(** C35: ordering per aggregate. If the events of each aggregate are inserted in
    timestamp order, then under any interleaving of producers, relays and
    retention sweeps, including relays that act on events they read earlier, an
    event is being dispatched only when every older event of its aggregate has
    reached a terminal state; in particular at most one event of an aggregate
    is being dispatched at any time. *)
Theorem aggregate_order t e k :
  rtc (ostep in_order) ∅ t → e ∈ rows t → k ∈ rows t → same_aggregate k e → EvID k ≠ EvID e →
  EvStatus e = StatusDispatching →
  (older k e → EvStatus k = StatusDispatched ∨ EvStatus k = StatusDead) ∧
  EvStatus k ≠ StatusDispatching.
Proof.
  intros Hr He Hk Hag Hne Hst. pose proof (reachable_ordered t Hr) as HO. split.
  - intros Hold. pose proof (HO e k He Hk Hag Hold Hne Hst) as Hnt. unfold nonterminal in Hnt.
    destruct (EvStatus k); naive_solver.
  - intros Hk2. destruct (total older e k) as [Hold|Hold].
    + apply (HO k e Hk He); try done; [unfold same_aggregate in *; naive_solver|by right].
    + apply (HO e k He Hk); try done. by right.
Qed.

(** No side effect is lost or revived. Whatever statement runs, an event
    that has not reached a terminal state stays in the table with its id,
    aggregate, type, payload and dedupe key, and never with fewer attempts; a
    terminal event never becomes pending or dispatching again, and disappears
    only when a sweep finds it terminal and last updated before that status's
    cutoff. *)
Lemma events_not_lost ok t t' id e :
  rtc (ostep ok) ∅ t → ostep ok t t' → t !! id = Some e →
  (∃ e', t' !! id = Some e' ∧ same_event e e' ∧ EvAttempts e ≤ EvAttempts e' ∧
     (¬ nonterminal e → ¬ nonterminal e')) ∨
  (∃ d1 d2 ok1 ok2, t' = (PruneTerminal t d1 d2 ok1 ok2).1 ∧ t' !! id = None ∧ ¬ nonterminal e ∧
     (EvStatus e = StatusDispatched ∧ EvUpdatedAt e < d1 ∨ EvStatus e = StatusDead ∧ EvUpdatedAt e < d2)).
Proof.
  intros Hr Hs He. destruct (reachable_events_inv ok t Hr) as (Hk & _).
  assert (∃ e', Some e = Some e' ∧ same_event e e' ∧ EvAttempts e ≤ EvAttempts e' ∧
     (¬ nonterminal e → ¬ nonterminal e')) as Hsame by (exists e; done).
  destruct (ostep_rowwise ok t t' Hk Hs) as [Hrow|[(x & wall & txnow & Hn & _ & ->)|(d1 & d2 & ok1 & ok2 & ->)]].
  - left. specialize (Hrow id). rewrite He in Hrow. destruct (t' !! id) as [e'|]; [|done].
    destruct Hrow as [->|(? & Hnt & Ha & _)]; [done|]. exists e'. split_and!; try done. auto.
  - left. destruct (Insert_cases t x wall txnow) as [->|[-> _]]; [by rewrite He|].
    rewrite lookup_insert_ne by congruence. by rewrite He.
  - destruct (PruneTerminal_lookup t d1 d2 ok1 ok2 id e He) as [->|[Hnone Hcut]]; [by left|right].
    exists d1, d2, ok1, ok2. split_and!; try done.
    destruct Hcut as [[Hst _]|[Hst _]].
    + apply (nonterminal_terminal e StatusDispatched); [by left|done].
    + apply (nonterminal_terminal e StatusDead); [by right|done].
Qed.

(** What a claim returns. At most the limit, only claimable heads (the
    oldest non-terminal event of their aggregate, so at most one per aggregate),
    each in state dispatching with one more attempt, a fresh lease and no job; a
    claimable unlocked head left behind means the limit was used up on older
    events. *)
Lemma ClaimDue_heads t locked p wall dbnow t' claimed :
  Inv t → 0 < cp_Limit p → ClaimDue t locked p wall dbnow = (t', Ok claimed) →
  let now := if time_is_zero (cp_Now p) then wall else cp_Now p in
  Z.of_nat (length claimed) ≤ cp_Limit p ∧
  (∀ e', e' ∈ claimed → ∃ e, t !! EvID e' = Some e ∧ is_head t e ∧ claimable now e ∧
     EvID e ∉ locked ∧ e' = claim_row (now + cp_Lease p) dbnow e) ∧
  (∀ e1 e2, e1 ∈ claimed → e2 ∈ claimed → same_aggregate e1 e2 → EvID e1 = EvID e2) ∧
  (∀ e, e ∈ rows t → is_head t e → claimable now e → EvID e ∉ locked →
     (∀ e', e' ∈ claimed → EvID e' ≠ EvID e) →
     Z.of_nat (length claimed) = cp_Limit p ∧ ∀ e', e' ∈ claimed → older e' e).
Proof.
  intros (Hk & _) Hl HC now. unfold ClaimDue in HC. fold now in HC.
  destruct (Z.leb_spec (cp_Limit p) 0); [lia|]. cbv zeta in HC. case_bool_decide; [|done].
  injection HC as <- <-. pose proof (ready_events t locked (cp_Limit p) now Hk) as Hrows.
  rewrite Forall_forall in Hrows.
  assert (∀ e', e' ∈ map (claim_row (time_add now (cp_Lease p)) dbnow) (ready t locked (cp_Limit p) now) →
    ∃ e, e ∈ ready t locked (cp_Limit p) now ∧ e' = claim_row (now + cp_Lease p) dbnow e) as Hm.
  { intros e' He'. apply list_elem_of_fmap in He' as (e & -> & He). by exists e. }
  split; [rewrite length_map; unfold ready; rewrite length_take; lia|]. split; [|split].
  - intros e' He'. destruct (Hm e' He') as (e & He & ->).
    destruct (Hrows e He) as (? & ? & ? & ?). by exists e.
  - intros e1 e2 H1 H2 Hag. destruct (Hm _ H1) as (k1 & K1 & ->), (Hm _ H2) as (k2 & K2 & ->).
    destruct (Hrows _ K1) as (Ht1 & [Hn1 Hh1] & _), (Hrows _ K2) as (Ht2 & [Hn2 Hh2] & _).
    rewrite Forall_forall in Hh1, Hh2. change (same_aggregate k1 k2) in Hag. cbn.
    apply older_antisym; [apply Hh1|apply Hh2]; try done; try (apply elem_of_rows; eauto).
    unfold same_aggregate in *. naive_solver.
  - intros e He Hh Hc Hlk Hne. rewrite length_map.
    destruct (take_sorted older (Z.to_nat (cp_Limit p))
      (filter (λ e, EvID e ∉ locked) (merge_sort older (filter (λ e, is_head t e ∧ claimable now e) (rows t)))) e)
      as [Hfull Hbef].
    + apply StronglySorted_filter, StronglySorted_merge_sort; apply _.
    + apply list_elem_of_filter. split; [done|]. rewrite merge_sort_Permutation.
      by apply list_elem_of_filter.
    + intros Hin. apply (Hne (claim_row (time_add now (cp_Lease p)) dbnow e)); [|done].
      by apply list_elem_of_fmap_2.
    + unfold ready. split; [lia|]. intros e' He'. destruct (Hm e' He') as (k & Hkin & ->).
      exact (Hbef k Hkin).
Qed.

(** *** Overlapping producers *)

Definition sample_event (id : Z) (key : string) : Event :=
  mkEvent id "vault" "v-1" "webhook.fanout" "{}" key StatusPending 0 5 0 None None "" 0 0 None.

(** An event is inserted at hour 20 and claimed; another of the same aggregate,
    whose transaction began at hour 10 and commits only now, follows. *)
Definition overlap_1 : Table := (Insert ∅ (sample_event 2 "k2") (20 * Hour) (20 * Hour)).1.
Definition overlap_2 : Table :=
  (ClaimDue overlap_1 ∅ (mkClaim 10 (30 * Second) (21 * Hour)) 0 (21 * Hour)).1.
Definition overlap_3 : Table := (Insert overlap_2 (sample_event 1 "k1") (20 * Hour) (10 * Hour)).1.
Definition overlap_4 : Table :=
  (ClaimDue overlap_3 ∅ (mkClaim 10 (30 * Second) (21 * Hour)) 0 (21 * Hour)).1.

(** The ordering guarantee needs producers of an aggregate not to overlap.
    Events are ordered by the start of the inserting transaction, so when a
    transaction that started earlier commits after a later event was already
    claimed, both events of the aggregate are dispatched at the same time and
    the newer one was handed over first. *)
Lemma overlapping_producers_break_order :
  ∃ t e k, rtc (ostep any_insert) ∅ t ∧ e ∈ rows t ∧ k ∈ rows t ∧ same_aggregate k e ∧
    older k e ∧ EvID k ≠ EvID e ∧
    EvStatus e = StatusDispatching ∧ EvStatus k = StatusDispatching.
Proof.
  destruct (overlap_4 !! 2) as [e|] eqn:E; [|by vm_compute in E].
  destruct (overlap_4 !! 1) as [k|] eqn:K; [|by vm_compute in K].
  exists overlap_4, e, k. split.
  { eapply rtc_l; [by apply (step_insert _ ∅ (sample_event 2 "k2"))|].
    eapply rtc_l; [apply (step_claim _ overlap_1)|].
    eapply rtc_l; [apply (step_insert _ overlap_2 (sample_event 1 "k1")); [by vm_compute|done]|].
    eapply rtc_once. apply (step_claim _ overlap_3). }
  split; [apply elem_of_rows; by exists 2|]. split; [apply elem_of_rows; by exists 1|].
  vm_compute in E, K. simplify_eq. by split_and!; vm_compute; try left.
Qed.

(** *** Witnesses *)

Definition sample_claim : ClaimParams := mkClaim 10 (30 * Second) (21 * Hour).
Definition sample_table : Table := overlap_2.
Definition sample_claimed : Event :=
  claim_row (21 * Hour + 30 * Second) (21 * Hour)
    (new_row (sample_event 2 "k2") (20 * Hour) (20 * Hour)).

Lemma sample_events_reach : rtc (ostep in_order) ∅ overlap_1.
Proof.
  apply rtc_once. apply step_insert; [done|]. intros k Hk.
  apply elem_of_rows in Hk as [? []%lookup_empty_Some].
Qed.

Lemma sample_reach_claimed : rtc (ostep in_order) ∅ sample_table.
Proof. eapply rtc_r; [exact sample_events_reach|]. apply step_claim. Qed.

(** Two events of one aggregate in order: the first is being dispatched. *)
Definition sample_two : Table := (Insert sample_table (sample_event 3 "k3") (22 * Hour) (22 * Hour)).1.

Lemma sample_two_reach : rtc (ostep in_order) ∅ sample_two.
Proof.
  eapply rtc_r; [exact sample_reach_claimed|]. apply step_insert; [by vm_compute|].
  intros k Hk _. apply elem_of_rows in Hk as [id Hid].
  assert (id = 2) as ->.
  { destruct (decide (id = 2)); [done|]. exfalso.
    change (<[2 := sample_claimed]> (<[2 := new_row (sample_event 2 "k2") (20 * Hour) (20 * Hour)]> ∅ : Table) !! id = Some k) in Hid.
    by rewrite !lookup_insert_ne in Hid by congruence. }
  vm_compute in Hid. simplify_eq. by left.
Qed.

Lemma aggregate_order_witness :
  EvStatus (new_row (sample_event 3 "k3") (22 * Hour) (22 * Hour)) ≠ StatusDispatching.
Proof.
  apply (aggregate_order sample_two sample_claimed _ sample_two_reach).
  - apply elem_of_rows. exists 2. vm_compute. reflexivity.
  - apply elem_of_rows. exists 3. vm_compute. reflexivity.
  - done.
  - done.
  - done.
Defined.

Lemma events_not_lost_witness :
  (MarkDead sample_table 2 "poison" 0 !! 2) ≠ None.
Proof.
  destruct (events_not_lost in_order sample_table (MarkDead sample_table 2 "poison" 0) 2 sample_claimed
    sample_reach_claimed) as [(e' & -> & _)|(d1 & d2 & ok1 & ok2 & _ & Hnone & _)].
  - apply step_dead.
  - vm_compute. reflexivity.
  - done.
  - by vm_compute in Hnone.
Defined.

Lemma ClaimDue_heads_witness :
  Z.of_nat (length [sample_claimed]) ≤ 10.
Proof.
  apply (ClaimDue_heads overlap_1 ∅ sample_claim 0 (21 * Hour) sample_table [sample_claimed]).
  - exact (reachable_events_inv _ _ sample_events_reach).
  - done.
  - vm_compute. reflexivity.
Defined.

End Outbox.
