(* ===== verification/OutboxRelay.v ===== *)
(** The relay that hands outbox events to the job queue and reconciles them with
    their jobs (src/apps/api/internal/domain/outbox/relay.go), against an
    interface of the job queue and with the queue of JobQueue.v as instance. *)
From S2P Require Import Prelude JobQueue Outbox.
Import Outbox.

Module OutboxRelay.

(** *** The job queue as the relay sees it *)

Inductive LookupError := JobNotFound | JobReadFailed.

(** [Enqueuer] and [JobStatusReader]. The error of an
    enqueue is its message. *)
Class JobPort (Q : Type) := {
  port_enqueue : Q → JobQueue.EnqueueInput → Q * result string JobQueue.Job;
  port_status : Q → string → result LookupError JobQueue.Status;
}.

Definition live_status (s : JobQueue.Status) : Prop :=
  s = JobQueue.StatusPending ∨ s = JobQueue.StatusRunning.

(** What the relay relies on: on states satisfying [port_ok], an accepted
    enqueue yields a live job, and enqueueing the same type and non-empty key
    again while that job is live yields the same job. *)
Class JobPortLaws (Q : Type) `{JobPort Q} := {
  port_ok : Q → Prop;
  port_enqueue_ok q i : port_ok q → port_ok (port_enqueue q i).1;
  port_enqueue_live q i q' j :
    port_ok q → port_enqueue q i = (q', Ok j) →
    ∃ s, port_status q' (JobQueue.JobID j) = Ok s ∧ live_status s;
  port_enqueue_joins q i i' q' j q'' j' :
    port_ok q → port_enqueue q i = (q', Ok j) →
    JobQueue.in_Type i' = JobQueue.in_Type i →
    JobQueue.in_IdempotencyKey i' = JobQueue.in_IdempotencyKey i →
    JobQueue.in_IdempotencyKey i ≠ "" →
    port_enqueue q' i' = (q'', Ok j') → JobQueue.JobID j' = JobQueue.JobID j;
}.

(** *** Configuration *)

Record RelayConfig := mkRelayConfig {
  Enabled : bool;
  PollInterval : Duration;
  BatchSize : Z;
  Lease : Duration;
  Backoff : Duration;
  StatsInterval : Duration;
}.

Definition withDefaults (c : RelayConfig) : RelayConfig :=
  {| Enabled := Enabled c;
     PollInterval := if PollInterval c <=? 0 then Second else PollInterval c;
     BatchSize := if BatchSize c <=? 0 then 100 else BatchSize c;
     Lease := if Lease c <=? 0 then 30 * Second else Lease c;
     Backoff := if Backoff c <=? 0 then 5 * Second else Backoff c;
     StatsInterval := StatsInterval c |}.

(** The metrics calls of the relay. *)
Inductive Metric :=
| IncDispatched (ty : string)
| ObserveTimeToDelivery (ty : string) (d : Duration)
| IncDeadLettered (ty : string)
| IncRelayed (ty : string)
| ObserveTimeToFirstAttempt (ty : string) (d : Duration).

(** [%q] of printable text without quotes or backslashes. *)
Definition quoted (s : string) : string := (of_bytes [byte 34] +:+ s +:+ of_bytes [byte 34])%string.

Section Relay.
Context {Q : Type} `{JobPort Q}.
Context (cfg : RelayConfig) (routes : gmap string string).
(** The relay's clock and the database's, and for each event whether the
    statement that records its fate reaches the database. *)
Context (now dbnow : Time) (write_ok : Z → bool).

(** What a step of the relay carries: the table, the queue, the metrics and the
    number of events moved. *)
Record RelayState := mkRelay {
  outbox : Table;
  queue : Q;
  metrics : list Metric;
  moved : Z;
}.

Definition deadLetter (s : RelayState) (e : Event) (reason : string) : RelayState :=
  if write_ok (EvID e)
  then mkRelay (MarkDead (outbox s) (EvID e) reason dbnow) (queue s)
         (metrics s ++ [IncDeadLettered (EventType e)]) (moved s)
  else s.

Definition release (s : RelayState) (e : Event) (reason : string) : RelayState :=
  if write_ok (EvID e)
  then mkRelay (Release (outbox s) (EvID e) (time_add now (Backoff cfg)) reason dbnow) (queue s)
         (metrics s) (moved s)
  else s.

Definition count (s : RelayState) : RelayState :=
  mkRelay (outbox s) (queue s) (metrics s) (moved s + 1).

(** One iteration of the loop of [reconcile]. *)
Definition reconcile_one (s : RelayState) (e : Event) : RelayState :=
  match EvJobID e with
  | None => s
  | Some job =>
    match port_status (queue s) job with
    | Err JobNotFound => count (release s e ("job " +:+ job +:+ " no longer exists")%string)
    | Err JobReadFailed => s
    | Ok JobQueue.StatusSucceeded =>
        if write_ok (EvID e)
        then count (mkRelay (MarkDispatched (outbox s) (EvID e) now now dbnow) (queue s)
               (metrics s ++ [IncDispatched (EventType e);
                              ObserveTimeToDelivery (EventType e) (time_sub now (EvCreatedAt e))])
               (moved s))
        else s
    | Ok JobQueue.StatusDead =>
        count (deadLetter s e ("delivery job " +:+ job +:+ " dead-lettered")%string)
    | Ok _ => s
    end
  end.

(** [reconcile]: [read_ok] tells whether the listing reached the database. *)
Definition reconcile (read_ok : bool) (s : RelayState) : RelayState :=
  if read_ok then foldl reconcile_one s (InFlight (outbox s) (BatchSize cfg)) else s.

Definition handoff (jobType : string) (e : Event) : JobQueue.EnqueueInput :=
  JobQueue.mkEnqueue jobType (EvPayload e) 0 0 (DedupeKey e) (DedupeKey e) 0.

(** One iteration of the loop of [dispatch]. *)
Definition dispatch_one (s : RelayState) (e : Event) : RelayState :=
  if EvMaxAttempts e <? EvAttempts e
  then deadLetter s e ("exhausted " +:+ pretty (EvMaxAttempts e) +:+ " hand-off attempts")%string
  else
    match routes !! EventType e with
    | None => deadLetter s e ("no route registered for event type " +:+ quoted (EventType e))%string
    | Some jobType =>
      let '(q, r) := port_enqueue (queue s) (handoff jobType e) in
      let s := mkRelay (outbox s) q (metrics s) (moved s) in
      match r with
      | Err err =>
          if EvMaxAttempts e <=? EvAttempts e
          then deadLetter s e ("enqueue failed after " +:+ pretty (EvAttempts e) +:+ " attempts: " +:+ err)%string
          else release s e err
      | Ok job =>
          if write_ok (EvID e)
          then count (mkRelay (MarkDispatching (outbox s) (EvID e) (JobQueue.JobID job) dbnow) (queue s)
                 (metrics s ++ IncRelayed (EventType e) ::
                    if EvAttempts e =? 0
                    then [ObserveTimeToFirstAttempt (EventType e) (time_sub now (EvCreatedAt e))]
                    else [])
                 (moved s))
          else s
      end
    end.

(** [dispatch]: [locked] are the rows other relays hold, [claim_ok] tells whether
    the claim reached the database. *)
Definition dispatch (locked : gset Z) (claim_ok : bool) (s : RelayState) : RelayState :=
  if claim_ok then
    match ClaimDue (outbox s) locked (mkClaim (BatchSize cfg) (Lease cfg) now) now dbnow with
    | (t, Ok claimed) => foldl dispatch_one (mkRelay t (queue s) (metrics s) (moved s)) claimed
    | (t, Err _) => mkRelay t (queue s) (metrics s) (moved s)
    end
  else s.

(** [Tick]: reconcile, then claim and hand over. *)
Definition Tick (locked : gset Z) (read_ok claim_ok : bool) (s : RelayState) : RelayState :=
  dispatch locked claim_ok (reconcile read_ok s).

(** *** Lemmas *)

Lemma rtc_id {A} (R : A → A → Prop) x y : x = y → rtc R x y.
Proof. intros ->. apply rtc_refl. Qed.

Lemma deadLetter_step ok s e reason : rtc (ostep ok) (outbox s) (outbox (deadLetter s e reason)).
Proof.
  unfold deadLetter. destruct (write_ok _); [|by apply rtc_id]. apply rtc_once, step_dead.
Qed.

Lemma release_step ok s e reason : rtc (ostep ok) (outbox s) (outbox (release s e reason)).
Proof.
  unfold release. destruct (write_ok _); [|by apply rtc_id]. apply rtc_once, step_release.
Qed.

Lemma reconcile_one_step ok s e : rtc (ostep ok) (outbox s) (outbox (reconcile_one s e)).
Proof.
  unfold reconcile_one. destruct (EvJobID e); [|by apply rtc_id].
  destruct (port_status _ _) as [[]|[]]; try by apply rtc_id.
  - destruct (write_ok _); [|by apply rtc_id]. apply rtc_once, step_dispatched.
  - apply deadLetter_step.
  - apply release_step.
Qed.

Lemma dispatch_one_step ok s e : rtc (ostep ok) (outbox s) (outbox (dispatch_one s e)).
Proof.
  unfold dispatch_one. destruct (_ <? _); [apply deadLetter_step|].
  destruct (routes !! _); [|apply deadLetter_step].
  destruct (port_enqueue _ _) as [q [job|err]]; cbv zeta.
  - destruct (write_ok _); [|by apply rtc_id]. cbn. apply rtc_once, step_dispatching.
  - set (s1 := mkRelay _ q _ _).
    destruct (_ <=? _); [apply (deadLetter_step ok s1)|apply (release_step ok s1)].
Qed.

Lemma foldl_step ok (f : RelayState → Event → RelayState) l :
  (∀ s e, rtc (ostep ok) (outbox s) (outbox (f s e))) →
  ∀ s, rtc (ostep ok) (outbox s) (outbox (foldl f s l)).
Proof.
  intros Hf. induction l as [|e l IH]; intros s; cbn; [apply rtc_refl|].
  etrans; [apply Hf|apply IH].
Qed.

(** *** Claims *)

(** The relay implements the outbox protocol. Whatever the queue answers,
    whichever statements fail and whatever rows other relays hold, one tick of
    the relay changes the outbox only through a sequence of its statements, so
    the ordering and durability guarantees hold for any number of relays that
    interleave their statements. *)
Lemma Tick_follows_protocol ok locked read_ok claim_ok s :
  rtc (ostep ok) (outbox s) (outbox (Tick locked read_ok claim_ok s)).
Proof.
  unfold Tick. transitivity (outbox (reconcile read_ok s)).
  - unfold reconcile. destruct read_ok; [|apply rtc_refl]. apply foldl_step, reconcile_one_step.
  - set (s1 := reconcile read_ok s). unfold dispatch. destruct claim_ok; [|apply rtc_refl].
    pose proof (step_claim ok (outbox s1) locked (mkClaim (BatchSize cfg) (Lease cfg) now) now dbnow)
      as Hc.
    destruct (ClaimDue _ _ _ _ _) as [t [claimed|e]]; cbn [fst] in Hc; [|by apply rtc_once].
    eapply rtc_l; [exact Hc|].
    exact (foldl_step ok dispatch_one claimed (dispatch_one_step ok) (mkRelay t (queue s1) (metrics s1) (moved s1))).
Qed.

Lemma update_where_same (t : Table) id P f e :
  t !! id = Some e → P e = true → update_where t id P f !! id = Some (f e).
Proof. intros He HP. rewrite update_event_lookup, He. by rewrite decide_True. Qed.

(** Reconciliation follows the job. For an in-flight event whose statements
    reach the database: it becomes dispatched exactly when its job succeeded, dead
    when the job is dead, pending again without a job after the backoff when the
    job row is gone, and stays as it is, blocking its aggregate, while the job is
    pending or running or cannot be read. The queue is not touched. *)
Lemma reconcile_follows_job s e job :
  outbox s !! EvID e = Some e → EvStatus e = StatusDispatching → EvJobID e = Some job →
  write_ok (EvID e) = true →
  let s' := reconcile_one s e in
  queue s' = queue s ∧
  match port_status (queue s) job with
  | Ok JobQueue.StatusSucceeded =>
      ∃ e', outbox s' !! EvID e = Some e' ∧ EvStatus e' = StatusDispatched ∧ moved s' = moved s + 1
  | Ok JobQueue.StatusDead =>
      ∃ e', outbox s' !! EvID e = Some e' ∧ EvStatus e' = StatusDead ∧ moved s' = moved s + 1
  | Err JobNotFound =>
      ∃ e', outbox s' !! EvID e = Some e' ∧ EvStatus e' = StatusPending ∧ EvJobID e' = None ∧
        NextAttemptAt e' = now + Backoff cfg ∧ EvAttempts e' = EvAttempts e ∧ moved s' = moved s + 1
  | _ => s' = s
  end.
Proof.
  intros He Hst Hj Hw. cbv zeta. unfold reconcile_one. rewrite Hj.
  assert (∀ d, has_status d e = bool_decide (StatusDispatching = d)) as Hhas
    by (intros; unfold has_status; by rewrite Hst).
  destruct (port_status (queue s) job) as [[]|[]]; try done; unfold release, deadLetter;
    rewrite Hw; (split; [done|]); cbn; unfold MarkDispatched, MarkDead, Release;
    rewrite (update_where_same _ _ _ _ e He) by (cbv beta; by rewrite Hhas);
    eexists; split_and!; done.
Qed.

(** A claimed event is never stranded. When its statements reach the
    database, handing it over leaves it dead if its hand-off budget is exhausted,
    if no route exists for its type, or if the enqueue failed on the last
    attempt; pending again after the backoff if the enqueue failed earlier; and
    otherwise dispatching under exactly the job the queue returned. *)
Lemma dispatch_settles s e :
  outbox s !! EvID e = Some e → EvStatus e = StatusDispatching → write_ok (EvID e) = true →
  let s' := dispatch_one s e in
  ∃ e', outbox s' !! EvID e = Some e' ∧ EvAttempts e' = EvAttempts e ∧
  if EvMaxAttempts e <? EvAttempts e then EvStatus e' = StatusDead
  else match routes !! EventType e with
  | None => EvStatus e' = StatusDead
  | Some jobType =>
    match (port_enqueue (queue s) (handoff jobType e)).2 with
    | Ok job => EvStatus e' = StatusDispatching ∧ EvJobID e' = Some (JobQueue.JobID job) ∧
                moved s' = moved s + 1
    | Err _ =>
        if EvMaxAttempts e =? EvAttempts e then EvStatus e' = StatusDead
        else EvStatus e' = StatusPending ∧ EvJobID e' = None ∧
             NextAttemptAt e' = now + Backoff cfg
    end
  end.
Proof.
  intros He Hst Hw. cbv zeta. unfold dispatch_one.
  assert (∀ d, has_status d e = bool_decide (StatusDispatching = d)) as Hhas
    by (intros; unfold has_status; by rewrite Hst).
  assert (∀ q m n reason, ∃ e', outbox (deadLetter (mkRelay (outbox s) q m n) e reason) !! EvID e = Some e' ∧
    EvAttempts e' = EvAttempts e ∧ EvStatus e' = StatusDead) as Hdead.
  { intros. unfold deadLetter. rewrite Hw. cbn. unfold MarkDead.
    rewrite (update_where_same _ _ _ _ e He) by (cbv beta; by rewrite Hhas). eexists. split_and!; done. }
  assert (s = mkRelay (outbox s) (queue s) (metrics s) (moved s)) as Hs by (by destruct s).
  destruct (Z.ltb_spec (EvMaxAttempts e) (EvAttempts e)) as [|Hle]; [rewrite Hs; apply Hdead|].
  destruct (routes !! EventType e) as [jobType|]; [|rewrite Hs; apply Hdead].
  destruct (port_enqueue _ _) as [q [job|err]]; cbn [snd]; cbv zeta.
  - rewrite Hw. cbn. unfold MarkDispatching.
    rewrite (update_where_same _ _ _ _ e He) by (cbv beta; by rewrite Hhas).
    eexists. split_and!; done.
  - assert ((EvMaxAttempts e <=? EvAttempts e) = (EvMaxAttempts e =? EvAttempts e)) as ->.
    { destruct (Z.eqb_spec (EvMaxAttempts e) (EvAttempts e)); [apply Z.leb_le|apply Z.leb_gt]; lia. }
    destruct (_ =? _); [apply Hdead|]. unfold release. cbn. rewrite Hw. cbn. unfold Release.
    rewrite (update_where_same _ _ _ _ e He) by (cbv beta; by rewrite Hhas).
    eexists. split_and!; done.
Qed.

(** *** The first-attempt metric *)

Definition first_attempt (m : Metric) : bool :=
  match m with ObserveTimeToFirstAttempt _ _ => true | _ => false end.

Lemma dispatch_one_metrics s e :
  EvAttempts e ≠ 0 →
  ∃ ms, metrics (dispatch_one s e) = metrics s ++ ms ∧ Forall (λ m, first_attempt m = false) ms.
Proof.
  intros Hne. assert (∀ s reason, ∃ ms, metrics (deadLetter s e reason) = metrics s ++ ms ∧
    Forall (λ m, first_attempt m = false) ms) as Hdead.
  { intros. unfold deadLetter. destruct (write_ok _); eexists; [by repeat constructor|].
    rewrite app_nil_r. by split; [|constructor]. }
  unfold dispatch_one. destruct (_ <? _); [apply Hdead|]. destruct (routes !! _); [|apply Hdead].
  destruct (port_enqueue _ _) as [q [job|err]]; cbv zeta.
  - destruct (write_ok _); cbn; [|exists []; by rewrite app_nil_r].
    destruct (Z.eqb_spec (EvAttempts e) 0); [done|]. eexists. split; [done|]. by repeat constructor.
  - set (s1 := mkRelay _ q _ _). destruct (_ <=? _); [apply (Hdead s1)|].
    unfold release. destruct (write_ok _); exists []; by rewrite app_nil_r.
Qed.

Lemma foldl_metrics l : ∀ s,
  Forall (λ e, EvAttempts e ≠ 0) l →
  ∃ ms, metrics (foldl dispatch_one s l) = metrics s ++ ms ∧
    Forall (λ m, first_attempt m = false) ms.
Proof.
  induction l as [|e l IH]; intros s Hl; cbn.
  - exists []. by rewrite app_nil_r.
  - apply Forall_cons in Hl as [He Hl]. destruct (IH (dispatch_one s e) Hl) as (ms2 & -> & H2).
    destruct (dispatch_one_metrics s e He) as (ms1 & -> & H1).
    exists (ms1 ++ ms2). rewrite app_assoc. split; [done|]. by apply Forall_app.
Qed.

(** The time-to-first-attempt metric is never recorded. Claiming counts the
    attempt before the relay looks at it, so every event the relay hands over
    has at least one attempt, and the branch that records the metric for events
    with none is never taken. *)
Lemma first_attempt_never_observed locked claim_ok s :
  Inv (outbox s) →
  ∃ ms, metrics (dispatch locked claim_ok s) = metrics s ++ ms ∧
    Forall (λ m, first_attempt m = false) ms.
Proof.
  intros (Hk & Ha & _). unfold dispatch. destruct claim_ok; [|exists []; by rewrite app_nil_r].
  destruct (ClaimDue _ _ _ _ _) as [t [claimed|e]] eqn:HC; cbn; [|exists []; by rewrite app_nil_r].
  apply (foldl_metrics claimed (mkRelay t (queue s) (metrics s) (moved s))).
  unfold ClaimDue in HC. destruct (_ <=? _); [by simplify_eq|]. cbv zeta in HC.
  case_bool_decide; [|done]. injection HC as _ <-. apply Forall_forall. intros e' He'.
  apply list_elem_of_fmap in He' as (e & -> & He).
  pose proof (ready_events (outbox s) locked (cp_Limit (mkClaim (BatchSize cfg) (Lease cfg) now))
    (if time_is_zero now then now else now) Hk) as Hrows.
  rewrite Forall_forall in Hrows. destruct (Hrows e He) as (Hrow & _).
  pose proof (Ha _ _ Hrow) as Hat. cbn in *. lia.
Qed.
End Relay.

(** *** Handing an event over again *)

Section Rehandoff.
Context {Q : Type} `{JobPortLaws Q}.

(** Handing an event over twice does not deliver it twice. When the relay
    enqueued a job for an event but the statement recording it was lost, and the
    event is claimed and handed over again, by this relay or another, the row
    ends up under the same job: the dedupe key makes the second enqueue join the
    live job of the first. *)
Lemma rehandoff_joins_job cfg cfg2 routes now dbnow now2 dbnow2 write_ok write_ok2
    (s s2 : RelayState) e e2 jobType q job q2 job2 :
  port_ok (queue s) → routes !! EventType e = Some jobType → DedupeKey e ≠ "" →
  EvAttempts e ≤ EvMaxAttempts e → write_ok (EvID e) = false →
  port_enqueue (queue s) (handoff jobType e) = (q, Ok job) →
  queue s2 = queue (dispatch_one cfg routes now dbnow write_ok s e) →
  EventType e2 = EventType e → DedupeKey e2 = DedupeKey e → EvAttempts e2 ≤ EvMaxAttempts e2 →
  outbox s2 !! EvID e2 = Some e2 → EvStatus e2 = StatusDispatching → write_ok2 (EvID e2) = true →
  port_enqueue (queue s2) (handoff jobType e2) = (q2, Ok job2) →
  outbox (dispatch_one cfg routes now dbnow write_ok s e) = outbox s ∧
  ∃ e', outbox (dispatch_one cfg2 routes now2 dbnow2 write_ok2 s2 e2) !! EvID e2 = Some e' ∧
    EvStatus e' = StatusDispatching ∧ EvJobID e' = Some (JobQueue.JobID job).
Proof.
  intros Hok Hroute Hkey Hle Hw Henq Hq Hty Hdk Hle2 Hrow Hst Hw2 Henq2.
  assert (dispatch_one cfg routes now dbnow write_ok s e = mkRelay (outbox s) q (metrics s) (moved s))
    as Hd.
  { unfold dispatch_one. destruct (Z.ltb_spec (EvMaxAttempts e) (EvAttempts e)); [lia|].
    rewrite Hroute, Henq. cbv zeta. by rewrite Hw. }
  rewrite Hd in *. split; [done|]. cbn in Hq. rewrite Hq in Henq2.
  assert (JobQueue.JobID job2 = JobQueue.JobID job) as Hsame.
  { eapply (port_enqueue_joins (queue s) (handoff jobType e) (handoff jobType e2)); try done. }
  unfold dispatch_one. destruct (Z.ltb_spec (EvMaxAttempts e2) (EvAttempts e2)); [lia|].
  rewrite Hty, Hroute, Hq, Henq2. cbv zeta. rewrite Hw2. cbn. unfold MarkDispatching.
  rewrite (update_where_same _ _ _ _ e2 Hrow) by (apply bool_decide_eq_true; done).
  eexists. split; [done|]. cbn. by rewrite Hsame.
Qed.
End Rehandoff.

(** *** The job queue as a port *)

(** The jobs table behind the client, with the supply of fresh ids and the
    clocks its statements read. *)
Record PgQueue := mkPgQueue { pg_jobs : JobQueue.Jobs; pg_next : nat; pg_wall : Time }.

Definition client_error (e : JobQueue.ClientError) : string :=
  match e with
  | JobQueue.ErrTypeRequired => "jobqueue: enqueue requires a type"
  | JobQueue.ErrRepo _ => "database error"
  end.

Definition pg_enqueue (q : PgQueue) (i : JobQueue.EnqueueInput) : PgQueue * result string JobQueue.Job :=
  let '(t, r, _) := JobQueue.Client_Enqueue (pg_jobs q) i "" (pretty (pg_next q)) (pg_wall q)
    (pg_wall q) (λ t, t) in
  (mkPgQueue t (S (pg_next q)) (pg_wall q),
   match r with Ok j => Ok j | Err e => Err (client_error e) end).

Definition pg_status (q : PgQueue) (id : string) : result LookupError JobQueue.Status :=
  match JobQueue.JobStatus (pg_jobs q) id with Ok s => Ok s | Err _ => Err JobNotFound end.

#[export] Instance PgQueue_port : JobPort PgQueue :=
  { port_enqueue := pg_enqueue; port_status := pg_status }.

Definition pg_ok (q : PgQueue) : Prop :=
  JobQueue.Inv (pg_jobs q) ∧ ∀ n, (pg_next q ≤ n)%nat → pg_jobs q !! pretty n = None.

(** An accepted enqueue of the client. *)
Lemma pg_enqueue_ok q i q' j :
  pg_ok q → pg_enqueue q i = (q', Ok j) →
  pg_ok q' ∧ pg_jobs q' !! JobQueue.JobID j = Some j ∧ JobQueue.live j ∧
  JobQueue.JobType j = JobQueue.in_Type i ∧ JobQueue.in_Type i ≠ "" ∧
  JobQueue.IdempotencyKey j = JobQueue.in_IdempotencyKey i ∧
  ∀ id k, pg_jobs q !! id = Some k → pg_jobs q' !! id = Some k.
Proof.
  intros [HI Hfresh] HE. unfold pg_enqueue, JobQueue.Client_Enqueue in HE.
  destruct (JobQueue.in_Type i =s? "") eqn:Et; [by simplify_eq|]. apply string_eqb_neq in Et.
  set (i' := JobQueue.mkEnqueue _ _ _ _ _ _ _) in HE.
  destruct (JobQueue.Enqueue _ _ _ _ _ _) as [t [[j0 created]|e]] eqn:E; simplify_eq.
  apply JobQueue.Enqueue_live in E as (HI' & Hj & Hl & Ht & Hk & _ & Hcase); [|done|by apply Hfresh].
  split; [split; [done|]|split_and!; try done].
  - cbn. intros n Hn. destruct Hcase as [->| ->]; [apply Hfresh; lia|].
    rewrite lookup_insert_ne; [apply Hfresh; lia|]. intros Heq%(inj pretty). lia.
  - cbn. intros id k Hk'. destruct Hcase as [->| ->]; [done|].
    rewrite lookup_insert_ne; [done|]. intros <-. by rewrite Hfresh in Hk'.
Qed.

#[export] Program Instance PgQueue_laws : JobPortLaws PgQueue := { port_ok := pg_ok }.
Next Obligation.
  intros q i Hok. cbn. destruct (pg_enqueue q i) as [q' [j|e]] eqn:E.
  - by destruct (pg_enqueue_ok q i q' j Hok E) as [? _].
  - destruct Hok as [HI Hfresh]. unfold pg_enqueue, JobQueue.Client_Enqueue in E.
    assert (∀ t, t = pg_jobs q → pg_ok (mkPgQueue t (S (pg_next q)) (pg_wall q))) as Hsame
      by (intros t ->; split; [done|]; cbn; intros n Hn; apply Hfresh; lia).
    destruct (_ =s? _); [simplify_eq; by apply Hsame|].
    destruct (JobQueue.Enqueue _ _ _ _ _ _) as [t [[j0 created]|e0]] eqn:EE; simplify_eq.
    apply Hsame. by eapply JobQueue.Enqueue_failed.
Qed.
Next Obligation.
  intros q i q' j Hok HE. destruct (pg_enqueue_ok q i q' j Hok HE) as (_ & Hj & Hl & _).
  exists (JobQueue.JStatus j). split; [|done]. cbn. unfold pg_status, JobQueue.JobStatus. by rewrite Hj.
Qed.
Next Obligation.
  intros q i i' q' j q'' j' Hok HE Hty Hkey Hne HE'.
  destruct (pg_enqueue_ok q i q' j Hok HE) as (Hok' & Hj & Hl & Ht & Hnt & Hk & _).
  destruct (pg_enqueue_ok q' i' q'' j' Hok' HE') as (((_ & _ & Hu) & _) & Hj' & Hl' & Ht' & _ & Hk' & Hkeep).
  apply (Hu (JobQueue.in_Type i) (JobQueue.in_IdempotencyKey i) _ _ j' j); [done|by apply Hkeep| |].
  - unfold JobQueue.live_key. by rewrite Ht', Hk'.
  - by unfold JobQueue.live_key.
Qed.

(** *** Witnesses *)

Definition sample_cfg : RelayConfig := withDefaults (mkRelayConfig true 0 0 0 0 0).
Definition sample_routes : gmap string string := {[ "webhook.fanout" := "webhook" ]}.
Definition sample_queue : PgQueue := mkPgQueue ∅ 0 (21 * Hour).
Definition sample_state : RelayState := mkRelay sample_table sample_queue [] 0.

(** The event of [sample_table] handed over, and with its job's identity. *)
Definition handed : RelayState :=
  dispatch_one sample_cfg sample_routes (21 * Hour) 0 (λ _, true) sample_state sample_claimed.
Definition handed_event : Event := default sample_claimed (outbox handed !! 2).
Definition lost : RelayState :=
  dispatch_one sample_cfg sample_routes (21 * Hour) 0 (λ _, false) sample_state sample_claimed.
Definition the_job : JobQueue.Job :=
  JobQueue.new_job (JobQueue.mkEnqueue "webhook" "{}" 0 0 "k2" "k2" 0) "0" (21 * Hour) (21 * Hour).

Lemma sample_queue_ok : pg_ok sample_queue.
Proof. split; [apply JobQueue.empty_inv|]. intros n _. apply lookup_empty. Qed.

Lemma reconcile_follows_job_witness :
  queue (reconcile_one sample_cfg (22 * Hour) 0 (λ _, true) handed handed_event) = queue handed.
Proof.
  apply (reconcile_follows_job sample_cfg (22 * Hour) 0 (λ _, true) handed handed_event "0");
    vm_compute; reflexivity.
Defined.

Lemma dispatch_settles_witness :
  ∃ e', outbox handed !! 2 = Some e' ∧ EvAttempts e' = 1.
Proof.
  destruct (dispatch_settles sample_cfg sample_routes (21 * Hour) 0 (λ _, true) sample_state
    sample_claimed) as (e' & He' & Ha & _); [vm_compute; reflexivity..|].
  exists e'. split; [exact He'|exact Ha].
Defined.

Lemma first_attempt_never_observed_witness :
  ∃ ms, metrics (dispatch sample_cfg sample_routes (21 * Hour) 0 (λ _, true) ∅ true
    (mkRelay overlap_1 sample_queue [] 0)) = [] ++ ms ∧ Forall (λ m, first_attempt m = false) ms.
Proof.
  apply (first_attempt_never_observed sample_cfg sample_routes (21 * Hour) 0 (λ _, true) ∅ true
    (mkRelay overlap_1 sample_queue [] 0)).
  exact (reachable_events_inv _ _ sample_events_reach).
Defined.

Lemma rehandoff_joins_job_witness :
  ∃ e', outbox (dispatch_one sample_cfg sample_routes (22 * Hour) 0 (λ _, true) lost sample_claimed) !! 2
    = Some e' ∧ EvJobID e' = Some "0".
Proof.
  pose proof (rehandoff_joins_job sample_cfg sample_cfg sample_routes (21 * Hour) 0 (22 * Hour) 0
    (λ _, false) (λ _, true) sample_state lost sample_claimed sample_claimed "webhook" (queue lost)
    the_job (pg_enqueue (queue lost) (handoff "webhook" sample_claimed)).1 the_job) as H.
  destruct H as (_ & e' & He' & _ & Hj).
  - exact sample_queue_ok.
  - vm_compute. reflexivity.
  - done.
  - vm_compute. done.
  - done.
  - vm_compute. reflexivity.
  - reflexivity.
  - done.
  - done.
  - vm_compute. done.
  - vm_compute. reflexivity.
  - vm_compute. reflexivity.
  - done.
  - vm_compute. reflexivity.
  - exists e'. split; [exact He'|exact Hj].
Defined.

End OutboxRelay.
