(* ===== verification/Decimals.v ===== *)
(** The decimal arithmetic the services compute with: the operations of the
    decimal package they call, the laws its documentation states, and exact
    rationals as an instance of both. *)
From Stdlib Require Export QArith Qabs.
From S2P Require Import Prelude.
Open Scope Z_scope.

Module Decimals.

(** The decimal package's operations the services call. *)
Class Decimal := {
  decimal : Type;
  NewFromInt : Z → decimal;
  Mul : decimal → decimal → decimal;
  Div : decimal → decimal → decimal;
  Round : decimal → Z → decimal;
  IntPart : decimal → Z;
}.

(** Rounding to the nearest integer, halves away from zero. *)
Definition half_away (q : Q) : Z :=
  let n := Qnum q in let d := Z.pos (Qden q) in
  Z.sgn n * ((2 * Z.abs n + d) / (2 * d)).

(** Rounding to [p] decimal places, halves away from zero. *)
Definition round_to (p : Z) (q : Q) : Q :=
  (inject_Z (half_away (q * Qpower 10 p)) / Qpower 10 p)%Q.

(** What the package documents: exact products, [Round] half away from zero,
    [IntPart] the low 64 bits of the truncated value, and quotients rounded to
    sixteen decimal places; dividing by zero panics. *)
Class DecimalLaws `{Decimal} := {
  value : decimal → Q;
  NewFromInt_value n : in_i64 n → (value (NewFromInt n) == inject_Z n)%Q;
  Mul_value a b : (value (Mul a b) == value a * value b)%Q;
  Round_places a p : (value (Round a p) == round_to p (value a))%Q;
  IntPart_value a : IntPart a = i64 (Z.quot (Qnum (value a)) (Z.pos (Qden (value a))));
  Div_places a b : ¬ (value b == 0)%Q → (value (Div a b) == round_to 16 (value a / value b))%Q;
}.

(** Sums and comparisons; [Cmp] and [Sign] give -1, 0 or 1. *)
Class DecimalOrder `{Decimal} := {
  Zero : decimal;
  Add : decimal → decimal → decimal;
  Sub : decimal → decimal → decimal;
  Cmp : decimal → decimal → Z;
  Sign : decimal → Z;
  (** [None]: the text is not a decimal number. *)
  NewFromString : string → option decimal;
}.

(** Printing: [StringFixed d p] has [p] decimals; [Exponent] is the stored power of
    ten. *)
Class DecimalFormat `{Decimal} := {
  Abs : decimal → decimal;
  StringFixed : decimal → Z → string;
  Exponent : decimal → Z;
}.

Definition cmp_Z (c : comparison) : Z := match c with Lt => -1 | Eq => 0 | Gt => 1 end.

(** Sums are exact and comparisons are by value. *)
Class DecimalOrderLaws `{L : DecimalLaws} {O : DecimalOrder} := {
  Zero_value : (value Zero == 0)%Q;
  Add_value a b : (value (Add a b) == value a + value b)%Q;
  Sub_value a b : (value (Sub a b) == value a - value b)%Q;
  Cmp_value a b : Cmp a b = cmp_Z (value a ?= value b)%Q;
  Sign_value a : Sign a = cmp_Z (value a ?= 0)%Q;
}.

Section comparisons.
  Context `{DecimalOrder}.

Definition GreaterThan (a b : decimal) : bool := Cmp a b =? 1.
Definition GreaterThanOrEqual (a b : decimal) : bool := 0 <=? Cmp a b.
Definition LessThan (a b : decimal) : bool := Cmp a b =? -1.
Definition dec_Equal (a b : decimal) : bool := Cmp a b =? 0.
Definition IsPositive (a : decimal) : bool := Sign a =? 1.
Definition IsNegative (a : decimal) : bool := Sign a =? -1.
Definition IsZero (a : decimal) : bool := Sign a =? 0.

End comparisons.

(** *** Comparisons by value *)

Section comparison_laws.
  Context `{DecimalOrderLaws}.
  Open Scope Q_scope.

Lemma GreaterThan_value a b : GreaterThan a b = true ↔ value b < value a.
Proof.
  unfold GreaterThan. rewrite Cmp_value, Z.eqb_eq, Qgt_alt. by destruct (value a ?= value b).
Qed.

Lemma LessThan_value a b : LessThan a b = true ↔ value a < value b.
Proof.
  unfold LessThan. rewrite Cmp_value, Z.eqb_eq, Qlt_alt. by destruct (value a ?= value b).
Qed.

Lemma GreaterThanOrEqual_value a b : GreaterThanOrEqual a b = true ↔ value b <= value a.
Proof.
  unfold GreaterThanOrEqual. rewrite Cmp_value, Z.leb_le, Qge_alt.
  destruct (value a ?= value b); cbn; split; try done; lia.
Qed.

Lemma dec_Equal_value a b : dec_Equal a b = true ↔ value a == value b.
Proof.
  unfold dec_Equal. rewrite Cmp_value, Z.eqb_eq, Qeq_alt. by destruct (value a ?= value b).
Qed.

Lemma IsPositive_value a : IsPositive a = true ↔ 0 < value a.
Proof.
  unfold IsPositive. rewrite Sign_value, Z.eqb_eq, Qgt_alt. by destruct (value a ?= 0).
Qed.

Lemma Cmp_Zero_le a : (Cmp a Zero <=? 0)%Z = true ↔ value a <= 0.
Proof.
  rewrite Cmp_value, Z.leb_le, Qle_alt, Zero_value. destruct (value a ?= 0); cbn; split; try done; lia.
Qed.

Lemma Sign_le_0 a : (Sign a <=? 0)%Z = true ↔ value a <= 0.
Proof.
  rewrite Sign_value, Z.leb_le, Qle_alt. destruct (value a ?= 0); cbn; split; try done; lia.
Qed.

End comparison_laws.

(** *** Rounding *)

Lemma half_away_proper a b : (a == b)%Q → half_away a = half_away b.
Proof.
  unfold half_away, Qeq. destruct a as [n1 d1], b as [n2 d2]; simpl. intros Heq.
  assert (Z.sgn n1 = Z.sgn n2) as ->.
  { pose proof (f_equal Z.sgn Heq) as Hs. rewrite !Z.sgn_mul in Hs. simpl in Hs. lia. }
  f_equal.
  assert (Z.abs n1 * Z.pos d2 = Z.abs n2 * Z.pos d1) as Ha.
  { pose proof (f_equal Z.abs Heq) as Hs. rewrite !Z.abs_mul in Hs. simpl in Hs. lia. }
  rewrite <- (Z.div_mul_cancel_r (2 * Z.abs n1 + Z.pos d1) (2 * Z.pos d1) (Z.pos d2)) by lia.
  rewrite <- (Z.div_mul_cancel_r (2 * Z.abs n2 + Z.pos d2) (2 * Z.pos d2) (Z.pos d1)) by lia.
  f_equal; nia.
Qed.

Lemma half_away_integer n : half_away (inject_Z n) = n.
Proof.
  unfold half_away, inject_Z, Qnum, Qden.
  replace (2 * Z.abs n + 1) with (1 + Z.abs n * 2) by lia. rewrite Z.mul_1_r, Z.div_add by lia.
  change (1 / 2) with 0. pose proof (Z.abs_sgn n). lia.
Qed.

(** The nearest integer is at most one half away. *)
Lemma half_away_near q : (Qabs (inject_Z (half_away q) - q) <= 1 # 2)%Q.
Proof.
  destruct q as [n d]. unfold half_away, Qnum, Qden.
  set (D := Z.pos d). set (a := Z.abs n).
  pose proof (Z.div_mod (2 * a + D) (2 * D) ltac:(lia)) as Hd.
  pose proof (Z.mod_pos_bound (2 * a + D) (2 * D) ltac:(lia)) as Hm.
  set (k := (2 * a + D) / (2 * D)) in *. set (m := (2 * a + D) mod (2 * D)) in *.
  assert (Z.abs (Z.sgn n * k * D - n) * 2 <= D) as Hb.
  { assert (n = Z.sgn n * a) as Hn by (pose proof (Z.sgn_abs n); unfold a; lia).
    destruct (Z.sgn_spec n) as [[_ Hs]|[[_ Hs]|[_ Hs]]]; rewrite Hs in *; nia. }
  unfold Qabs, Qminus, Qplus, Qopp, Qle, inject_Z; cbn [Qnum Qden].
  rewrite Z.mul_1_r, Pos.mul_1_l. fold D. fold D in Hb. lia.
Qed.

Lemma round_to_proper p a b : (a == b)%Q → (round_to p a == round_to p b)%Q.
Proof. intros Heq. unfold round_to. by rewrite (half_away_proper _ (b * Qpower 10 p)) by by rewrite Heq. Qed.

Lemma round_to_integer q : (round_to 0 q == inject_Z (half_away q))%Q.
Proof. unfold round_to. cbn. rewrite (half_away_proper _ q) by apply Qmult_1_r. by field. Qed.

(** A number of sixteen decimal places is its own rounding. *)
Lemma round_to_sixteen q k : (q == k # 10000000000000000)%Q → (round_to 16 q == k # 10000000000000000)%Q.
Proof.
  intros Hq. unfold round_to. rewrite (half_away_proper _ (inject_Z k)), half_away_integer.
  - by rewrite (Qmake_Qdiv k).
  - rewrite Hq. by rewrite (Qmake_Qdiv k); field.
Qed.

Section rounding_laws.
  Context `{DecimalLaws}.

Lemma Round_value a : (value (Round a 0) == inject_Z (half_away (value a)))%Q.
Proof. by rewrite Round_places, round_to_integer. Qed.

(** Quotients that sixteen decimal places are enough to write are exact. *)
Lemma Div_value a b k : ¬ (value b == 0)%Q →
  (value a == (k # 10000000000000000) * value b)%Q →
  (value (Div a b) == (k # 10000000000000000))%Q.
Proof.
  intros Hb Ha. rewrite Div_places by done. apply round_to_sixteen. rewrite Ha. by field.
Qed.

End rounding_laws.

(** *** Exact rationals *)

(** Exact rationals are a decimal type that meets the laws. *)
Definition QDecimal : Decimal := {|
  decimal := Q;
  NewFromInt := inject_Z;
  Mul := Qmult;
  Div a b := round_to 16 (a / b)%Q;
  Round q p := round_to p q;
  IntPart q := i64 (Z.quot (Qnum q) (Z.pos (Qden q)));
|}.

Definition QDecimal_laws : DecimalLaws (H := QDecimal).
Proof. by refine {| value := λ q : @decimal QDecimal, q |}. Defined.

(** Integers in decimal notation, with an optional minus sign: enough of a parser
    for the concrete instance. *)
Fixpoint parse_digits (acc : Z) (l : list Ascii.ascii) : option Z :=
  match l with
  | [] => Some acc
  | c :: l' =>
      let d := Z.of_nat (Ascii.nat_of_ascii c) - 48 in
      if (0 <=? d) && (d <? 10) then parse_digits (10 * acc + d) l' else None
  end.

Definition parse_integer (s : string) : option Z :=
  match bytes_of s with
  | [] => None
  | c :: l => if decide (c = byte 45 ∧ l ≠ []) then Z.opp <$> parse_digits 0 l
              else parse_digits 0 (c :: l)
  end.

Definition QDecimalOrder : @DecimalOrder QDecimal := {|
  Zero := 0%Q : @decimal QDecimal;
  Add := Qplus : @decimal QDecimal → @decimal QDecimal → @decimal QDecimal;
  Sub := Qminus : @decimal QDecimal → @decimal QDecimal → @decimal QDecimal;
  Cmp a b := cmp_Z (a ?= b)%Q;
  Sign a := cmp_Z (a ?= 0)%Q;
  NewFromString s := inject_Z <$> parse_integer s : option (@decimal QDecimal);
|}.

Definition QDecimalOrder_laws : @DecimalOrderLaws QDecimal QDecimal_laws QDecimalOrder.
Proof. by split. Defined.

(** The digits of [k] with a point before the last [p] of them. *)
Definition fixed_digits (k p : Z) : string :=
  let ds := pretty k in
  let padded := (String.concat "" (repeat "0"%string (Z.to_nat p + 1 - String.length ds)) +:+ ds)%string in
  let n := (String.length padded - Z.to_nat p)%nat in
  if p =? 0 then padded
  else (String.substring 0 n padded +:+ "." +:+ String.substring n (Z.to_nat p) padded)%string.

Definition fixed_rational (q : Q) (p : Z) : string :=
  let k := half_away (q * inject_Z (10 ^ p)) in
  ((if (k <? 0)%Z then "-" else "") +:+ fixed_digits (Z.abs k) p)%string.

(** The exponent of [q] written with as few places as possible. *)
Definition rational_exponent (q : Q) : Z :=
  match find (λ n, Z.pos (Qden (Qred (q * inject_Z (10 ^ Z.of_nat n)))) =? 1) (seq 0 19) with
  | Some n => - Z.of_nat n
  | None => -19
  end.

Definition QDecimalFormat : @DecimalFormat QDecimal := {|
  Abs := Qabs : @decimal QDecimal → @decimal QDecimal;
  StringFixed := fixed_rational : @decimal QDecimal → Z → string;
  Exponent := rational_exponent : @decimal QDecimal → Z;
|}.

End Decimals.
