(* ===== verification/Ledger.v ===== *)
(** The double-entry ledger: accounts, entries and balances
    (src/apps/api/internal/domain/ledger/model.go) and the tables that hold them
    (migrations 113-116 and 122), with the statements the repository runs
    (src/apps/api/internal/repository/postgres/ledger_repository.go) as functions
    on the tables. *)
From S2P Require Import Prelude.

Module Ledger.

(** *** Data *)

Definition AccountTypeUserVaultPosition : string := "user_vault_position".
Definition AccountTypeVaultAssetPool : string := "vault_asset_pool".
Definition AccountTypeFee : string := "fee_account".
Definition AccountTypePenaltyEscrow : string := "penalty_escrow".
Definition AccountTypeTreasury : string := "treasury".
Definition AccountTypeYieldSource : string := "yield_source".
Definition AccountTypeSystemSuspense : string := "system_suspense".
Definition AccountTypeExternal : string := "external".

Definition ValidAccountTypes : list string :=
  [AccountTypeUserVaultPosition; AccountTypeVaultAssetPool; AccountTypeFee;
   AccountTypePenaltyEscrow; AccountTypeTreasury; AccountTypeYieldSource;
   AccountTypeSystemSuspense; AccountTypeExternal].

(** A UUID is a number; [0] is [uuid.Nil]. *)
Record Account := mkAccount {
  AccID : Z;
  AccountType : string;
  VaultID : option Z;
  UserID : option Z;
  AdapterName : option string;
  AccAssetCode : string;
  AccAssetUnit : string;
  Description : string;
  AccCreatedAt : Time;
  AccUpdatedAt : Time;
}.

Record Entry := mkEntry {
  EntID : Z;
  TransactionID : Z;
  AccountID : Z;
  Amount : Z;
  Direction : string;
  EntCreatedAt : Time;
  DomainEventType : string;
  DomainEventID : string;
  EntAssetCode : string;
  EntAssetUnit : string;
}.

Record Balance := mkBalance {
  BalanceOf : Z;
  BalAssetCode : string;
  BalAssetUnit : string;
  BalUpdatedAt : Time;
  Version : Z;
}.

Record ReconciliationRecord := mkRec {
  RecID : Z;
  RecVaultID : Z;
  LedgerVaultPoolBalance : Z;
  OnChainBalance : Z;
  RecDifference : Z;
  Tolerance : Z;
  RecStatus : string;
  Details : string;
  RecCreatedAt : Time;
}.

Record BalanceMismatch := mkMismatch {
  MisAccountID : Z; Cached : Z; Computed : Z; Difference : Z }.

(** Errors the database reports. *)
Inductive PgError :=
| CheckViolation
| UniqueViolation (constraint : string)
| ForeignKeyViolation
| NumericOutOfRange
| InvalidTextRepresentation
| InFailedTransaction
| ConnectionFailure.

Inductive LedgerError :=
| ErrInvalidAccountType | ErrUnbalanced | ErrTooFewEntries | ErrEmptyTransactionID
| ErrZeroAmount | ErrAlreadyPosted | ErrMixedTransactionIDs | ErrAccountIDRequired
| ErrVaultAndUserRequired | ErrVaultRequired | ErrAdapterRequired | ErrTxRequired
| ErrNotPositive | ErrSameAdapter | ErrNoRows | ErrScan | ErrBooks (sum : Z)
| ErrPg (e : PgError).

#[global] Instance Entry_eq_dec : EqDecision Entry.
Proof. solve_decision. Defined.
#[global] Instance PgError_eq_dec : EqDecision PgError.
Proof. solve_decision. Defined.
#[global] Instance LedgerError_eq_dec : EqDecision LedgerError.
Proof. solve_decision. Defined.

(** *** Validation *)

Definition ValidateAccountType (t : string) : option LedgerError :=
  if bool_decide (t ∈ ValidAccountTypes) then None else Some ErrInvalidAccountType.

(** The loop of [ValidateBalanced]: [sum] is a wrapping [int64]. *)
Fixpoint ValidateBalanced_loop (txID : Z) (es : list Entry) (sum : Z) : option LedgerError :=
  match es with
  | [] => if negb (sum =? 0) then Some ErrUnbalanced else None
  | e :: es' =>
      if negb (TransactionID e =? txID) then Some ErrMixedTransactionIDs
      else if Amount e =? 0 then Some ErrZeroAmount
      else if AccountID e =? 0 then Some ErrAccountIDRequired
      else ValidateBalanced_loop txID es' (i64 (sum + Amount e))
  end.

Definition ValidateBalanced (entries : list Entry) : option LedgerError :=
  if Z.of_nat (length entries) <? 2 then Some ErrTooFewEntries
  else
    match entries with
    | [] => Some ErrTooFewEntries
    | e :: _ =>
        let txID := TransactionID e in
        if txID =? 0 then Some ErrEmptyTransactionID
        else ValidateBalanced_loop txID entries 0
    end.

Definition DirectionFromAmount (amount : Z) : string :=
  if 0 <=? amount then "debit" else "credit".

(** *** Tables *)

Record Store := mkStore {
  vaults : list Z;
  users : list Z;
  accounts : list Account;
  entries : list Entry;
  balances : gmap Z Balance;
  records : list ReconciliationRecord;
}.

Definition with_accounts (st : Store) l :=
  mkStore (vaults st) (users st) l (entries st) (balances st) (records st).
Definition with_entries (st : Store) l :=
  mkStore (vaults st) (users st) (accounts st) l (balances st) (records st).
Definition with_balances (st : Store) m :=
  mkStore (vaults st) (users st) (accounts st) (entries st) m (records st).
Definition with_records (st : Store) l :=
  mkStore (vaults st) (users st) (accounts st) (entries st) (balances st) l.

(** The columns of the partial unique index that covers an account of this
    type; [None] when no index does, a NULL column included. *)
Definition key : Type := string * option Z * option Z * option string * string.

Definition account_key (a : Account) : option key :=
  let t := AccountType a in
  let c := AccAssetCode a in
  if t =s? AccountTypeUserVaultPosition then
    match VaultID a, UserID a with
    | Some v, Some u => Some (t, Some v, Some u, None, c) | _, _ => None end
  else if (t =s? AccountTypeVaultAssetPool) || (t =s? AccountTypePenaltyEscrow) then
    match VaultID a with Some v => Some (t, Some v, None, None, c) | None => None end
  else if t =s? AccountTypeYieldSource then
    match AdapterName a with Some n => Some (t, None, None, Some n, c) | None => None end
  else if bool_decide (t ∈ [AccountTypeFee; AccountTypeTreasury; AccountTypeSystemSuspense;
                            AccountTypeExternal])
  then Some (t, None, None, None, c)
  else None.

(** The [WHERE] clause [getOrCreateAccountTx] builds for the account type. *)
Definition select_key (accountType : string) (vaultID userID : option Z)
    (adapterName : option string) (assetCode : string) : result LedgerError key :=
  if accountType =s? AccountTypeUserVaultPosition then
    match vaultID, userID with
    | Some v, Some u => Ok (accountType, Some v, Some u, None, assetCode)
    | _, _ => Err ErrVaultAndUserRequired end
  else if accountType =s? AccountTypeVaultAssetPool then
    match vaultID with Some v => Ok (accountType, Some v, None, None, assetCode)
    | None => Err ErrVaultRequired end
  else if accountType =s? AccountTypeYieldSource then
    match adapterName with
    | Some n => if n =s? "" then Err ErrAdapterRequired
                else Ok (accountType, None, None, Some n, assetCode)
    | None => Err ErrAdapterRequired end
  else if bool_decide (accountType ∈ [AccountTypeFee; AccountTypeTreasury;
                                      AccountTypeSystemSuspense; AccountTypeExternal])
  then Ok (accountType, None, None, None, assetCode)
  else if accountType =s? AccountTypePenaltyEscrow then
    match vaultID with Some v => Ok (accountType, Some v, None, None, assetCode)
    | None => Err ErrVaultRequired end
  else Err ErrInvalidAccountType.

Definition has_key (k : key) (a : Account) : bool := bool_decide (account_key a = Some k).

Definition select_account (k : key) (st : Store) : option Account :=
  head (filter (λ a, has_key k a = true) (accounts st)).

(** Two account rows that one of the unique indexes, or the primary key,
    refuses to hold together. *)
Definition conflicts (a b : Account) : bool :=
  (AccID a =? AccID b) ||
  match account_key a with Some k => has_key k b | None => false end.

Definition references (x : option Z) (l : list Z) : bool :=
  match x with Some i => bool_decide (i ∈ l) | None => true end.

(** [INSERT INTO ledger_accounts ... ON CONFLICT DO NOTHING]; the flag says
    whether the row was inserted. *)
Definition insert_account (a : Account) (st : Store) : result PgError (Store * bool) :=
  if negb (bool_decide (AccountType a ∈ ValidAccountTypes)) then Err CheckViolation
  else if existsb (conflicts a) (accounts st) then Ok (st, false)
  else if negb (references (VaultID a) (vaults st) && references (UserID a) (users st))
  then Err ForeignKeyViolation
  else Ok (with_accounts st (accounts st ++ [a]), true).

Definition account_exists (id : Z) (st : Store) : bool :=
  existsb (λ a, AccID a =? id) (accounts st).

Definition same_event_leg (a b : Entry) : bool :=
  (DomainEventType a =s? DomainEventType b) && (DomainEventID a =s? DomainEventID b) &&
  (AccountID a =? AccountID b).

(** [INSERT INTO ledger_entries]: column checks, then the two unique indexes,
    then the foreign key. *)
Definition insert_entry (e : Entry) (st : Store) : result PgError Store :=
  if (Amount e =? 0) || negb ((Direction e =s? "debit") || (Direction e =s? "credit"))
  then Err CheckViolation
  else if existsb (λ x, EntID x =? EntID e) (entries st)
  then Err (UniqueViolation "ledger_entries_pkey")
  else if negb (DomainEventID e =s? "") && existsb (same_event_leg e) (entries st)
  then Err (UniqueViolation "uq_ledger_entries_domain_event_account")
  else if negb (account_exists (AccountID e) st) then Err ForeignKeyViolation
  else Ok (with_entries st (entries st ++ [e])).

(** The balance upsert: [balance + EXCLUDED.balance] is a [BIGINT] addition,
    which fails out of range. *)
Definition upsert_balance (e : Entry) (now : Time) (st : Store) : result PgError Store :=
  match balances st !! AccountID e with
  | None =>
      if negb (account_exists (AccountID e) st) then Err ForeignKeyViolation
      else Ok (with_balances st
        (<[AccountID e := mkBalance (Amount e) (EntAssetCode e) (EntAssetUnit e) now 1]>
          (balances st)))
  | Some b =>
      let s := BalanceOf b + Amount e in
      if bool_decide (in_i64 s) then
        Ok (with_balances st
          (<[AccountID e := mkBalance s (BalAssetCode b) (BalAssetUnit b) now (Version b + 1)]>
            (balances st)))
      else Err NumericOutOfRange
  end.

(** *** Reads *)

Definition amounts_of (id : Z) (st : Store) : list Z :=
  map Amount (filter (λ e, AccountID e = id) (entries st)).

Definition balance_of (id : Z) (st : Store) : Z :=
  match balances st !! id with Some b => BalanceOf b | None => 0 end.

Definition GetBalance (id : Z) (st : Store) : result LedgerError Balance :=
  match balances st !! id with Some b => Ok b | None => Err ErrNoRows end.

(** The account rows of a type and vault joined with their balances. *)
Definition vault_balances (p : Account → bool) (st : Store) : list Z :=
  omap (λ a, if p a then BalanceOf <$> balances st !! AccID a else None) (accounts st).

Definition GetUserVaultBalance (userID vaultID : Z) (st : Store) : Z :=
  match vault_balances (has_key (AccountTypeUserVaultPosition, Some vaultID, Some userID, None,
                                 "USDC")) st with
  | b :: _ => b | [] => 0 end.

Definition GetVaultPoolBalance (vaultID : Z) (st : Store) : Z :=
  match vault_balances (has_key (AccountTypeVaultAssetPool, Some vaultID, None, None, "USDC")) st
  with b :: _ => b | [] => 0 end.

(** Scanning a [numeric] into an [int64]. *)
Definition scan_i64 (z : Z) : result LedgerError Z :=
  if bool_decide (in_i64 z) then Ok z else Err ErrScan.

Definition is_position (vaultID : Z) (a : Account) : bool :=
  (AccountType a =s? AccountTypeUserVaultPosition) && bool_decide (VaultID a = Some vaultID).

Definition SumUserPositionBalances (vaultID : Z) (st : Store) : result LedgerError Z :=
  scan_i64 (sum_Z (vault_balances (is_position vaultID) st)).

Definition SumAllEntries (st : Store) : result LedgerError Z :=
  scan_i64 (sum_Z (map Amount (entries st))).

(** [RecomputeBalances] scans the accounts row by row and stops at a sum that
    does not fit. *)
Fixpoint RecomputeBalances_rows (l : list Account) (st : Store)
  : result LedgerError (list BalanceMismatch) :=
  match l with
  | [] => Ok []
  | a :: l' =>
      let cached := balance_of (AccID a) st in
      let? computed := scan_i64 (sum_Z (amounts_of (AccID a) st)) in
      let? rest := RecomputeBalances_rows l' st in
      Ok (if negb (cached =? computed)
          then mkMismatch (AccID a) cached computed (i64 (computed - cached)) :: rest
          else rest)
  end.

Definition RecomputeBalances (st : Store) : result LedgerError (list BalanceMismatch) :=
  RecomputeBalances_rows (accounts st) st.

(** *** Posting rows *)

(** The loop of [postEntriesTx] on completed rows. *)
Fixpoint apply_rows (rows : list Entry) (now : Time) (st : Store) : result PgError Store :=
  match rows with
  | [] => Ok st
  | e :: rows' =>
      let? st1 := insert_entry e st in
      let? st2 := upsert_balance e now st1 in
      apply_rows rows' now st2
  end.

(** *** Invariant of the tables *)

(** What every statement maintains on its own: the indexes and foreign keys,
    and that a balance row is the sum of its account's entries. *)
Record Core (st : Store) : Prop := {
  core_ids : NoDup (map AccID (accounts st));
  core_keys : NoDup (omap account_key (accounts st));
  core_refs : ∀ e, e ∈ entries st → AccountID e ∈ map AccID (accounts st);
  core_row : ∀ id b, balances st !! id = Some b →
    BalanceOf b = sum_Z (amounts_of id st) ∧ id ∈ map AccID (accounts st);
  core_none : ∀ id, balances st !! id = None → amounts_of id st = [];
  core_range : (∀ e, e ∈ entries st → in_i64 (Amount e)) ∧
    ∀ id b, balances st !! id = Some b → in_i64 (BalanceOf b);
}.

(** The sum of the entries of one transaction. *)
Definition group_sum (tx : Z) (es : list Entry) : Z :=
  sum_Z (map Amount (filter (λ e, TransactionID e = tx) es)).

(** What every posting maintains: each transaction sums to zero in [int64]. *)
Definition Balanced (st : Store) : Prop := ∀ tx, i64 (group_sum tx (entries st)) = 0.

(** The cached balances of the accounts that satisfy [p]. *)
Definition sum_over (p : Account → bool) (st : Store) : Z :=
  sum_Z (map (λ a, balance_of (AccID a) st) (filter (λ a, p a = true) (accounts st))).

Definition is_pool (v : Z) : Account → bool :=
  has_key (AccountTypeVaultAssetPool, Some v, None, None, "USDC").

Definition PositionsArePool (st : Store) : Prop :=
  ∀ v, sum_over (is_position v) st = sum_over (is_pool v) st.

(** *** Lemmas *)

Lemma account_exists_in id st : account_exists id st = true ↔ id ∈ map AccID (accounts st).
Proof.
  unfold account_exists. rewrite existsb_elem, list_elem_of_fmap. split.
  - intros (a & Ha & He). exists a. split; [lia|done].
  - intros (a & -> & Ha). exists a. split; [done|lia].
Qed.

Lemma amounts_of_app id st l :
  amounts_of id (with_entries st (entries st ++ l)) =
  amounts_of id st ++ map Amount (filter (λ e, AccountID e = id) l).
Proof. unfold amounts_of. simpl. by rewrite filter_app, map_app. Qed.

Lemma balance_of_sum st id : Core st → balance_of id st = sum_Z (amounts_of id st).
Proof.
  intros H. unfold balance_of. destruct (balances st !! id) eqn:E.
  - by destruct (core_row _ H _ _ E).
  - by rewrite (core_none _ H _ E).
Qed.

Lemma balance_of_range st id : Core st → in_i64 (balance_of id st).
Proof.
  intros H. unfold balance_of. destruct (balances st !! id) eqn:E; [|done].
  by apply (proj2 (core_range _ H) id).
Qed.

Lemma insert_entry_ok e st st1 :
  insert_entry e st = Ok st1 →
  st1 = with_entries st (entries st ++ [e]) ∧ AccountID e ∈ map AccID (accounts st) ∧
  (∀ x, x ∈ entries st → EntID x ≠ EntID e) ∧
  (DomainEventID e ≠ "" → ∀ x, x ∈ entries st → same_event_leg e x = false).
Proof.
  unfold insert_entry. intros H.
  destruct (_ || _); [done|]. destruct (existsb _ _) eqn:Hid; [done|].
  destruct (_ && _) eqn:Hev; [done|].
  destruct (account_exists _ _) eqn:Ha; [|done]. simpl in H. injection H as <-.
  apply account_exists_in in Ha. rewrite existsb_none in Hid. split_and!; try done.
  - intros x Hx Heq. specialize (Hid x Hx). lia.
  - intros Hne. destruct (string_eqb (DomainEventID e) "") eqn:Hd; [reflect_bools; done|].
    simpl in Hev. by rewrite existsb_none in Hev.
Qed.

Definition same_frame (st st' : Store) : Prop :=
  vaults st' = vaults st ∧ users st' = users st ∧ accounts st' = accounts st ∧
  records st' = records st.

Lemma upsert_balance_ok e now st st1 :
  upsert_balance e now st = Ok st1 →
  ∃ b, st1 = with_balances st (<[AccountID e := b]> (balances st)) ∧
    BalanceOf b = balance_of (AccountID e) st + Amount e ∧
    (in_i64 (Amount e) → in_i64 (BalanceOf b)).
Proof.
  unfold upsert_balance, balance_of. intros H. destruct (balances st !! AccountID e) as [b|].
  - case_bool_decide; [|done]. injection H as <-. eexists; split_and!; [done|simpl; lia|done].
  - destruct (account_exists _ _); [|done]. injection H as <-.
    eexists; split_and!; [done|simpl; lia|done].
Qed.

Lemma post_row e now st st1 st2 :
  Core st → in_i64 (Amount e) →
  insert_entry e st = Ok st1 → upsert_balance e now st1 = Ok st2 →
  Core st2 ∧ same_frame st st2 ∧ entries st2 = entries st ++ [e].
Proof.
  intros HC Hr (-> & Hacc & _)%insert_entry_ok (b & -> & Hb & Hbr)%upsert_balance_ok.
  split; [|done]. destruct HC as [H1 H2 H3 H4 H5 [H6 H6']] eqn:EC. clear EC.
  assert (∀ id, amounts_of id (with_entries st (entries st ++ [e])) =
    amounts_of id st ++ (if decide (AccountID e = id) then [Amount e] else [])) as Ham.
  { intros id. rewrite amounts_of_app. f_equal. rewrite filter_cons. by case_decide. }
  change (balance_of (AccountID e) (with_entries st (entries st ++ [e])))
    with (balance_of (AccountID e) st) in Hb.
  rewrite balance_of_sum in Hb by done.
  constructor; simpl; try done.
  - intros x Hx. apply elem_of_app in Hx as [Hx|Hx]; [by apply H3|].
    by apply list_elem_of_singleton in Hx as ->.
  - intros id b' Hb'. change (amounts_of id _) with (amounts_of id (with_entries st (entries st ++ [e]))).
    rewrite Ham, sum_Z_app. apply lookup_insert_Some in Hb' as [[<- <-]|[Hne Hb']].
    + rewrite decide_True by done. simpl. split; [lia|done].
    + rewrite decide_False by done. destruct (H4 _ _ Hb') as [-> ?]. simpl. split; [lia|done].
  - intros id Hn. change (amounts_of id _) with (amounts_of id (with_entries st (entries st ++ [e]))).
    apply lookup_insert_None in Hn as [Hn Hne]. rewrite Ham, decide_False by done.
    by rewrite (H5 _ Hn).
  - split.
    + intros x Hx. apply elem_of_app in Hx as [Hx|Hx]; [by apply H6|].
      by apply list_elem_of_singleton in Hx as ->.
    + intros id b' Hb'. apply lookup_insert_Some in Hb' as [[<- <-]|[Hne Hb']]; [auto|].
      by eapply H6'.
Qed.

Lemma apply_rows_ok rows now st st' :
  Core st → Forall (λ e, in_i64 (Amount e)) rows → apply_rows rows now st = Ok st' →
  Core st' ∧ same_frame st st' ∧ entries st' = entries st ++ rows ∧
  Forall (λ e, AccountID e ∈ map AccID (accounts st)) rows.
Proof.
  revert st. induction rows as [|e rows IH]; intros st HC Hr H; simpl in H.
  { injection H as <-. rewrite app_nil_r. done. }
  inversion Hr as [|?? Hr1 Hr2]; subst.
  apply result_bind_ok in H as (st1 & H1 & H). apply result_bind_ok in H as (st2 & H2 & H).
  pose proof (insert_entry_ok _ _ _ H1) as (_ & Hacc & _).
  destruct (post_row _ _ _ _ _ HC Hr1 H1 H2) as (HC2 & (Hv & Hu & Ha & Hrec) & He).
  destruct (IH _ HC2 Hr2 H) as (HC' & (Hv' & Hu' & Ha' & Hrec') & He' & Hf).
  split_and!; [done|unfold same_frame; split_and!; congruence| |].
  - rewrite He', He, <- app_assoc. done.
  - constructor; [done|]. by rewrite Ha in Hf.
Qed.

(** The part of a posting that falls on the accounts satisfying [p]. *)
Definition leg (p : Account → bool) (l : list Account) (e : Entry) : Z :=
  if existsb (λ a, (AccID a =? AccountID e) && p a) l then Amount e else 0.

Lemma account_by_id l a b :
  NoDup (map AccID l) → a ∈ l → b ∈ l → AccID a = AccID b → a = b.
Proof.
  intros Hnd Ha Hb Hid. apply list_elem_of_lookup in Ha as [i Hi], Hb as [j Hj].
  assert (i = j) as ->; [|congruence]. eapply (NoDup_lookup _ _ _ (AccID a) Hnd);
    rewrite list_lookup_fmap; [by rewrite Hi|rewrite Hj; simpl; congruence].
Qed.

Lemma leg_of p l e a :
  NoDup (map AccID l) → a ∈ l → AccID a = AccountID e →
  leg p l e = if p a then Amount e else 0.
Proof.
  intros Hnd Ha Hid. unfold leg. destruct (existsb _ l) eqn:H.
  - apply existsb_elem in H as (b & Hb & Hp). apply andb_true_iff in Hp as [Hbi Hp].
    apply Z.eqb_eq in Hbi. assert (b = a) as ->; [|by rewrite Hp].
    eapply account_by_id; [done|done|done|congruence].
  - rewrite existsb_none in H. specialize (H a Ha). simpl in H.
    rewrite Hid, Z.eqb_refl in H. simpl in H. by rewrite H.
Qed.

Lemma leg_absent p l e : AccountID e ∉ map AccID l → leg p l e = 0.
Proof.
  intros H. unfold leg. destruct (existsb _ l) eqn:Hx; [|done]. exfalso. apply H.
  apply existsb_elem in Hx as (a & Ha & Hp). apply andb_true_iff in Hp as [Hp _].
  apply Z.eqb_eq in Hp. rewrite <- Hp. by apply list_elem_of_fmap_2.
Qed.

Lemma leg_cons p a l e :
  NoDup (map AccID (a :: l)) →
  leg p (a :: l) e = (if decide (AccountID e = AccID a) then if p a then Amount e else 0 else 0)
                     + leg p l e.
Proof.
  intros Hnd. pose proof Hnd as [Hni Hnd']%NoDup_cons. case_decide as Hd.
  - rewrite (leg_of p (a :: l) e a), leg_absent by (done || by left || by rewrite Hd). lia.
  - unfold leg. simpl. destruct (Z.eqb_spec (AccID a) (AccountID e)); [congruence|]. simpl. lia.
Qed.

(** Posting [rows] moves the total over [p] by the legs that fall on [p]. *)
Lemma sum_over_rows p st st' rows :
  Core st → Core st' → accounts st' = accounts st → entries st' = entries st ++ rows →
  sum_over p st' = sum_over p st + sum_Z (map (leg p (accounts st)) rows).
Proof.
  intros HC HC' Ha He. unfold sum_over. rewrite Ha. pose proof (core_ids _ HC) as Hnd.
  assert (∀ id, balance_of id st' =
    balance_of id st + sum_Z (map Amount (filter (λ e, AccountID e = id) rows))) as Hb.
  { intros id. rewrite !balance_of_sum by done. unfold amounts_of.
    by rewrite He, filter_app, map_app, sum_Z_app. }
  clear Ha. induction (accounts st) as [|a l IH]; simpl.
  - unfold leg. simpl. clear. induction rows; simpl; lia.
  - rewrite filter_cons. pose proof Hnd as [_ Hnd']%NoDup_cons. specialize (IH Hnd').
    assert (sum_Z (map (leg p (a :: l)) rows) =
      (if p a then sum_Z (map Amount (filter (λ e, AccountID e = AccID a) rows)) else 0)
      + sum_Z (map (leg p l) rows)) as ->.
    { clear - Hnd. induction rows as [|e rows IH]; simpl; [by destruct (p a)|].
      rewrite IH, leg_cons, filter_cons by done.
      repeat case_decide; destruct (p a); simpl; lia. }
    destruct (p a) eqn:Hp; [rewrite decide_True by done|rewrite decide_False by done]; simpl;
      rewrite IH, ?Hb; lia.
Qed.

Lemma insert_account_ok a st st' ins :
  insert_account a st = Ok (st', ins) →
  (ins = false ∧ st' = st) ∨
  (ins = true ∧ st' = with_accounts st (accounts st ++ [a]) ∧
   AccID a ∉ map AccID (accounts st) ∧
   (∀ k, account_key a = Some k → ∀ b, b ∈ accounts st → account_key b ≠ Some k)).
Proof.
  unfold insert_account. intros H. case_bool_decide; [|done]. simpl in H.
  destruct (existsb _ _) eqn:Hc; [injection H as <- <-; by left|].
  destruct (references _ _ && _); [|done]. injection H as <- <-. right.
  rewrite existsb_none in Hc. split_and!; try done.
  - intros (b & Hb & Hin)%list_elem_of_fmap. specialize (Hc b Hin).
    apply orb_false_iff in Hc as [Hc _]. lia.
  - intros k Hk b Hb Hkb. specialize (Hc b Hb). apply orb_false_iff in Hc as [_ Hc].
    rewrite Hk in Hc. unfold has_key in Hc. by rewrite bool_decide_true in Hc.
Qed.

Lemma insert_account_core a st st' ins :
  insert_account a st = Ok (st', ins) → Core st → Core st'.
Proof.
  intros [[_ ->]|(_ & -> & Hid & Hk)]%insert_account_ok [H1 H2 H3 H4 H5 H6]; [by constructor|].
  constructor; simpl; try done.
  - rewrite map_app. apply NoDup_app. split_and!; [done| |apply NoDup_singleton].
    intros x Hx ->%list_elem_of_singleton. done.
  - rewrite omap_app. apply NoDup_app. simpl. split_and!; [done| |].
    + intros k (b & Hb & Hkb)%list_elem_of_omap. destruct (account_key a) as [k'|] eqn:E;
        [|by intros ?%elem_of_nil]. intros ->%list_elem_of_singleton. by eapply Hk.
    + destruct (account_key a); [apply NoDup_singleton|constructor].
  - intros e He. rewrite map_app. apply elem_of_app. left. auto.
  - intros id b Hb. rewrite map_app. destruct (H4 _ _ Hb). split; [done|].
    apply elem_of_app. by left.
Qed.

Lemma insert_account_sum a st st' ins p :
  insert_account a st = Ok (st', ins) → Core st → sum_over p st' = sum_over p st.
Proof.
  intros [[_ ->]|(_ & -> & Hid & _)]%insert_account_ok HC; [done|]. unfold sum_over. simpl.
  rewrite filter_app, map_app, sum_Z_app, filter_cons.
  assert (balance_of (AccID a) st = 0) as Hz.
  { unfold balance_of. destruct (balances st !! AccID a) eqn:E; [|done].
    by destruct (core_row _ HC _ _ E). }
  change (balance_of ?i (with_accounts _ _)) with (balance_of i st).
  case_decide; simpl; [unfold balance_of in *; simpl; lia|].
  unfold balance_of. simpl. lia.
Qed.

Lemma ValidateBalanced_loop_ok tx es sum :
  in_i64 sum →
  ValidateBalanced_loop tx es sum = None ↔
  Forall (λ e, TransactionID e = tx ∧ Amount e ≠ 0 ∧ AccountID e ≠ 0) es ∧
  i64 (sum + sum_Z (map Amount es)) = 0.
Proof.
  revert sum. induction es as [|e es IH]; intros sum Hs; simpl.
  - rewrite Z.add_0_r, (i64_id _ Hs), guard_none, negb_false_iff, Z.eqb_eq.
    rewrite Forall_nil. naive_solver.
  - rewrite !guard_none, negb_false_iff, Z.eqb_eq, !Z.eqb_neq, IH by apply i64_range.
    rewrite i64_add_l, Forall_cons, Z.add_assoc. tauto.
Qed.

(** The sum is zero in [int64] exactly when 2^64 divides it. *)
Lemma i64_zero z : i64 z = 0 ↔ ∃ k, z = k * 2 ^ 64.
Proof.
  destruct (i64_eqm z) as [k Hk]. split; [intros; exists (-k); lia|].
  intros [j ->]. unfold i64. rewrite Z.add_comm, Z_mod_plus_full. done.
Qed.

Lemma ValidateBalanced_exact_sum es :
  ValidateBalanced es = None →
  ∃ tx, Forall (λ e, TransactionID e = tx) es ∧ i64 (sum_Z (map Amount es)) = 0.
Proof.
  unfold ValidateBalanced. intros [_ H]%guard_none. destruct es as [|e es]; [done|].
  apply guard_none in H as [_ H]. apply ValidateBalanced_loop_ok in H as [Hf Hs]; [|done].
  exists (TransactionID e). split; [|done]. eapply Forall_impl; [done|]. naive_solver.
Qed.

Lemma ValidateBalanced_iff es :
  ValidateBalanced es = None ↔
  (2 ≤ length es)%nat ∧
  (∃ tx, tx ≠ 0 ∧ Forall (λ e, TransactionID e = tx ∧ Amount e ≠ 0 ∧ AccountID e ≠ 0) es) ∧
  ∃ k, sum_Z (map Amount es) = k * 2 ^ 64.
Proof.
  unfold ValidateBalanced. rewrite guard_none, Z.ltb_ge.
  destruct es as [|e es]; [simpl; split; [naive_solver|intros [? _]; lia]|].
  rewrite guard_none, Z.eqb_neq, ValidateBalanced_loop_ok by done. rewrite i64_zero. split.
  - intros (Hl & Htx & Hf & Hk). split_and!; [simpl in *; lia|by eexists|done].
  - intros (Hl & (tx & Htx & Hf) & Hk). pose proof Hf as [[<- _] _]%Forall_cons.
    split_and!; [simpl in *; lia|done|done|done].
Qed.

(** [ValidateBalanced] accepts a posting exactly when it has two entries or
    more, all with the same non-nil transaction id, a non-zero amount and a
    non-nil account, and amounts whose sum is a multiple of 2^64; a posting it
    accepts whose true sum is below 2^64 in absolute value sums to zero. *)
Lemma ValidateBalanced_exact es :
  (ValidateBalanced es = None ↔
   (2 ≤ length es)%nat ∧
   (∃ tx, tx ≠ 0 ∧
      Forall (λ e, TransactionID e = tx ∧ Amount e ≠ 0 ∧ AccountID e ≠ 0) es) ∧
   ∃ k, sum_Z (map Amount es) = k * 2 ^ 64) ∧
  (ValidateBalanced es = None → Z.abs (sum_Z (map Amount es)) < 2 ^ 64 →
   sum_Z (map Amount es) = 0).
Proof.
  split; [apply ValidateBalanced_iff|].
  intros (_ & _ & k & Hk)%ValidateBalanced_iff Hlt. assert (k = 0) by nia. lia.
Qed.

Lemma ValidateBalanced_exact_witness :
  let es := [mkEntry 0 1 1 5 "debit" 0 "deposit" "" "USDC" "stroops";
             mkEntry 0 1 2 (-5) "credit" 0 "deposit" "" "USDC" "stroops"] in
  ValidateBalanced es = None ∧ sum_Z (map Amount es) = 0.
Proof.
  intros es. split; [by vm_compute|]. by apply (ValidateBalanced_exact es).
Defined.

(** The check accepts postings that create money: a deposit of more than 2^62
    stroops doubles past the [int64] range, and its wrapped legs pass. *)
Lemma ValidateBalanced_accepts_overflow s :
  2 ^ 62 < s ≤ max_i64 →
  let es := [mkEntry 0 1 1 s "debit" 0 "deposit" "" "USDC" "stroops";
             mkEntry 0 1 2 s "debit" 0 "deposit" "" "USDC" "stroops";
             mkEntry 0 1 3 (i64 (-2 * s)) "debit" 0 "deposit" "" "USDC" "stroops"] in
  ValidateBalanced es = None ∧ sum_Z (map Amount es) = 2 ^ 64.
Proof.
  intros Hs es. unfold max_i64 in Hs. assert (i64 (-2 * s) = -2 * s + 2 ^ 64) as Hw.
  { unfold i64. replace (-2 * s + 2 ^ 63) with ((-2 * s + 2 ^ 64 + 2 ^ 63) + (-1) * 2 ^ 64) by lia.
    rewrite Z_mod_plus_full, Z.mod_small; lia. }
  assert (sum_Z (map Amount es) = 2 ^ 64) as Hsum by (cbn -[i64 Z.mul Z.pow]; rewrite Hw; lia).
  split; [|done]. apply ValidateBalanced_iff. split; [simpl; lia|]. split; [|exists 1; lia].
  exists 1. split; [done|]. unfold es. rewrite Hw. repeat (apply Forall_cons; split; [simpl; lia|]).
  by apply Forall_nil.
Qed.

(** A stored row completes the entry it was posted from: the defaults fill the
    id, direction and asset columns only. *)
Definition completes (e r : Entry) : Prop :=
  TransactionID r = TransactionID e ∧ AccountID r = AccountID e ∧ Amount r = Amount e ∧
  DomainEventType r = DomainEventType e ∧ DomainEventID r = DomainEventID e.

Lemma completes_amounts es rows :
  Forall2 completes es rows → map Amount rows = map Amount es.
Proof. induction 1 as [|??? ? (?&?&?&?)]; simpl; congruence. Qed.

Lemma group_sum_app tx l k : group_sum tx (l ++ k) = group_sum tx l + group_sum tx k.
Proof. unfold group_sum. by rewrite filter_app, map_app, sum_Z_app. Qed.

Lemma balanced_post es rows st st' :
  ValidateBalanced es = None → Forall2 completes es rows → Balanced st →
  entries st' = entries st ++ rows → Balanced st'.
Proof.
  intros Hv Hc HB He tx. rewrite He, group_sum_app. apply ValidateBalanced_exact_sum in Hv.
  destruct Hv as (t & Ht & Hz).
  assert (group_sum tx rows = if decide (t = tx) then sum_Z (map Amount es) else 0) as ->.
  { clear - Hc Ht. unfold group_sum. induction Hc as [|e r es rows (H1&H2&H3&_) _ IH].
    - by case_decide.
    - apply Forall_cons in Ht as [<- Ht]. specialize (IH Ht). rewrite filter_cons, H1.
      destruct (decide (TransactionID e = tx)); simpl; lia. }
  specialize (HB tx). case_decide; [|by rewrite Z.add_0_r].
  by rewrite <- i64_add_l, HB, Z.add_0_l.
Qed.

Lemma RecomputeBalances_core st : Core st → RecomputeBalances st = Ok [].
Proof.
  intros HC. unfold RecomputeBalances. induction (accounts st) as [|a l IH]; simpl; [done|].
  rewrite <- balance_of_sum by done. unfold scan_i64.
  rewrite bool_decide_true by by apply balance_of_range. simpl. rewrite IH. simpl.
  by rewrite Z.eqb_refl.
Qed.

Lemma sum_vault_balances p st : sum_Z (vault_balances p st) = sum_over p st.
Proof.
  unfold vault_balances, sum_over. induction (accounts st) as [|a l IH]; simpl; [done|].
  rewrite filter_cons. destruct (p a) eqn:Hp.
  - rewrite decide_True by done. simpl. unfold balance_of at 1.
    destruct (balances st !! AccID a) eqn:E; simpl; rewrite <- IH; done.
  - by rewrite decide_False by done.
Qed.

Lemma one_key k st : Core st → (length (vault_balances (has_key k) st) ≤ 1)%nat.
Proof.
  intros HC. pose proof (core_keys _ HC) as Hnd. unfold vault_balances. clear HC.
  assert (∀ l, NoDup (omap account_key l) →
    (length (omap (λ a, if has_key k a then BalanceOf <$> balances st !! AccID a else None) l) ≤
     length (filter (λ x, x = k) (omap account_key l)))%nat) as Hle.
  { induction l as [|a l IH]; [simpl; lia|]. intros Hl. cbn [omap list_omap] in Hl |- *.
    destruct (has_key k a) eqn:Hk.
    - apply bool_decide_eq_true in Hk. rewrite Hk in Hl |- *. apply NoDup_cons in Hl as [_ Hl].
      specialize (IH Hl). rewrite filter_cons, decide_True by done.
      destruct (balances st !! AccID a); simpl; lia.
    - destruct (account_key a) as [k'|]; [|by apply IH]. apply NoDup_cons in Hl as [_ Hl].
      specialize (IH Hl). rewrite filter_cons. case_decide; simpl; lia. }
  etrans; [by apply Hle|]. apply (NoDup_filter (λ x, x = k)) in Hnd.
  assert (∀ x, x ∈ filter (λ x, x = k) (omap account_key (accounts st)) → x = k) as Hk
    by (intros x Hx; by apply list_elem_of_filter in Hx as [? _]).
  destruct (filter _ _) as [|x [|y l]]; simpl; [lia|lia|].
  exfalso. apply NoDup_cons in Hnd as [Hnd _]. apply Hnd.
  rewrite (Hk x), (Hk y) by set_solver. by left.
Qed.

Lemma single_balance k st :
  Core st →
  match vault_balances (has_key k) st with b :: _ => b | [] => 0 end = sum_over (has_key k) st.
Proof.
  intros HC. rewrite <- sum_vault_balances. pose proof (one_key k st HC).
  destruct (vault_balances _ _) as [|b [|]]; simpl in *; lia.
Qed.

Lemma pool_in_range v st : Core st → in_i64 (sum_over (is_pool v) st).
Proof.
  intros HC. rewrite <- sum_vault_balances.
  pose proof (one_key (AccountTypeVaultAssetPool, Some v, None, None, "USDC") st HC) as Hl.
  fold (is_pool v) in Hl.
  match goal with |- context [vault_balances ?p st] =>
    assert (∀ x, x ∈ vault_balances p st → in_i64 x) as Hr end.
  { unfold vault_balances. intros x (a & _ & Hx)%list_elem_of_omap. case_match; [|done].
    destruct (balances st !! AccID a) as [b|] eqn:E; [|done]. injection Hx as <-.
    by eapply (proj2 (core_range _ HC)). }
  destruct (vault_balances _ _) as [|b [|]]; simpl in *; [done| |lia].
  rewrite Z.add_0_r. apply Hr. by left.
Qed.

(** Where the positions add up to the pool, the two reads agree. *)
Lemma positions_reads v st :
  Core st → PositionsArePool st →
  SumUserPositionBalances v st = Ok (GetVaultPoolBalance v st).
Proof.
  intros HC HP. unfold SumUserPositionBalances, GetVaultPoolBalance, scan_i64.
  rewrite single_balance, sum_vault_balances, HP by done. fold (is_pool v).
  by rewrite bool_decide_true by by apply pool_in_range.
Qed.

Lemma divide_total es :
  (∀ tx, ∃ k, group_sum tx es = k * 2 ^ 64) → ∃ k, sum_Z (map Amount es) = k * 2 ^ 64.
Proof.
  remember (length es) as n eqn:Hn. revert es Hn.
  induction (lt_wf n) as [n _ IH]; intros es -> Hg. destruct es as [|e es]; [by exists 0|].
  set (t := TransactionID e). set (rest := filter (λ x, ¬ TransactionID x = t) (e :: es)).
  assert (e :: es ≡ₚ filter (λ x, TransactionID x = t) (e :: es) ++ rest) as Hp
    by (symmetry; apply filter_app_complement).
  pose proof (sum_Z_perm _ _ (fmap_Permutation Amount _ _ Hp)) as Hsum.
  rewrite fmap_app, sum_Z_app in Hsum. destruct (Hg t) as [k1 Hk1].
  destruct (IH (length rest)) with (es := rest) as [k2 Hk2]; [|done| |].
  - unfold rest. rewrite filter_cons, decide_False by auto.
    pose proof (length_filter (λ x, ¬ TransactionID x = t) es). simpl. lia.
  - intros tx. destruct (decide (tx = t)) as [->|Hne].
    + exists 0. unfold group_sum, rest. rewrite (elem_of_nil_inv (filter _ _)); [done|].
      intros x (Hx & [Hx' _]%list_elem_of_filter)%list_elem_of_filter. done.
    + destruct (Hg tx) as [k Hk]. exists k. rewrite <- Hk. unfold group_sum, rest.
      rewrite list_filter_filter_l; [done|]. intros x -> ?. done.
  - exists (k1 + k2). rewrite Z.mul_add_distr_r, <- Hk2, <- Hk1. exact Hsum.
Qed.

(** The total over a key is the balance of its one account. *)
Lemma sum_over_key st a k :
  Core st → a ∈ accounts st → account_key a = Some k →
  sum_over (has_key k) st = balance_of (AccID a) st.
Proof.
  intros HC Ha Hk. pose proof (core_keys _ HC) as Hnd. clear HC. unfold sum_over.
  assert (∀ l, k ∉ omap account_key l → filter (λ x, has_key k x = true) l = []) as Hnone.
  { intros l Hl. apply elem_of_nil_inv. intros x [Hx Hin]%list_elem_of_filter.
    apply bool_decide_eq_true in Hx. apply Hl, list_elem_of_omap. by exists x. }
  induction (accounts st) as [|x l IH]; [by apply elem_of_nil in Ha|].
  apply elem_of_cons in Ha as [->|Ha]; rewrite filter_cons.
  - simpl in Hnd. rewrite Hk in Hnd. apply NoDup_cons in Hnd as [Hni _].
    rewrite decide_True by by apply bool_decide_eq_true. rewrite Hnone by done. simpl. lia.
  - assert (account_key x ≠ Some k) as Hx.
    { intros Hx. simpl in Hnd. rewrite Hx in Hnd. apply NoDup_cons in Hnd as [Hni _].
      apply Hni, list_elem_of_omap. by exists a. }
    rewrite decide_False by by intros ?%bool_decide_eq_true. apply IH; [done|].
    simpl in Hnd. by destruct (account_key x); [apply NoDup_cons in Hnd as [_ ?]|].
Qed.

End Ledger.
