(* ===== verification/LedgerRepo.v ===== *)
(** The ledger repository
    (src/apps/api/internal/repository/postgres/ledger_repository.go): sessions
    with transactions that roll back, the get-or-create of accounts and the
    posting of entries, and a small program logic for the repository's clients. *)
From S2P Require Import Prelude Ledger.

Module LedgerRepo.
Import Ledger.

(** *** Sessions *)

(** An open transaction: its view of the tables, and whether a statement in it
    has failed, after which the database refuses every further statement. *)
Record Tx := mkTx { work : Store; aborted : bool }.

(** What the process sees: the committed tables, the transaction it holds open,
    the source of [uuid.New] (which never repeats itself), the connection
    failures to come, and the clock. *)
Record Session := mkSession {
  store : Store;
  txn : option Tx;
  seed : Z;
  faults : list bool;
  clock : Time;
}.

Definition with_store s x := mkSession x (txn s) (seed s) (faults s) (clock s).
Definition with_txn s x := mkSession (store s) x (seed s) (faults s) (clock s).
Definition with_seed s x := mkSession (store s) (txn s) x (faults s) (clock s).
Definition with_faults s x := mkSession (store s) (txn s) (seed s) x (clock s).

Definition M (A : Type) : Type := Session → Session * result LedgerError A.

#[global] Instance M_ret : MRet M := λ A a s, (s, Ok a).
#[global] Instance M_bind : MBind M := λ A B k m s,
  match m s with
  | (s1, Ok a) => k a s1
  | (s1, Err e) => (s1, Err e)
  end.

Definition throw {A} (e : LedgerError) : M A := λ s, (s, Err e).
Definition of_result {A} (r : result LedgerError A) : M A := λ s, (s, r).
Definition of_error (e : option LedgerError) : M unit :=
  match e with Some e => throw e | None => mret () end.
Definition map_err {A} (f : LedgerError → LedgerError) (m : M A) : M A := λ s,
  match m s with (s1, Ok a) => (s1, Ok a) | (s1, Err e) => (s1, Err (f e)) end.

Definition uuid_New : M Z := λ s, (with_seed s (seed s + 1), Ok (seed s)).

(** Each round trip to the database may fail. *)
Definition round_trip (s : Session) : bool * Session :=
  match faults s with
  | b :: fs => (b, with_faults s fs)
  | [] => (false, s)
  end.

(** A statement inside the open transaction ([tx.ExecContext],
    [tx.QueryRowContext]). *)
Definition exec {A} (f : Time → Store → result PgError (Store * A)) : M A := λ s,
  match txn s with
  | None => (s, Err ErrTxRequired)
  | Some t =>
      let '(lost, s1) := round_trip s in
      if lost then (with_txn s1 (Some (mkTx (work t) true)), Err (ErrPg ConnectionFailure))
      else if aborted t then (s1, Err (ErrPg InFailedTransaction))
      else match f (clock s) (work t) with
           | Ok (st, a) => (with_txn s1 (Some (mkTx st false)), Ok a)
           | Err e => (with_txn s1 (Some (mkTx (work t) true)), Err (ErrPg e))
           end
  end.

(** A statement on its own ([db.ExecContext]): it commits at once. *)
Definition exec_db {A} (f : Time → Store → result PgError (Store * A)) : M A := λ s,
  let '(lost, s1) := round_trip s in
  if lost then (s1, Err (ErrPg ConnectionFailure))
  else match f (clock s) (store s) with
       | Ok (st, a) => (with_store s1 st, Ok a)
       | Err e => (s1, Err (ErrPg e))
       end.

Definition query {A} (f : Store → A) : Time → Store → result PgError (Store * A) :=
  λ _ st, Ok (st, f st).

Definition BeginTx : M unit := λ s,
  let '(lost, s1) := round_trip s in
  if lost then (s1, Err (ErrPg ConnectionFailure))
  else (with_txn s1 (Some (mkTx (store s) false)), Ok ()).

Definition Commit : M unit := λ s,
  match txn s with
  | None => (s, Err ErrTxRequired)
  | Some t =>
      let '(lost, s1) := round_trip s in
      if lost then (with_txn s1 None, Err (ErrPg ConnectionFailure))
      else if aborted t then (with_txn s1 None, Err (ErrPg InFailedTransaction))
      else (with_store (with_txn s1 None) (work t), Ok ())
  end.

Definition Rollback (s : Session) : Session := with_txn s None.

(** [BeginTx], the deferred [Rollback], the body, [Commit]. *)
Definition withTx {A} (m : M A) : M A := λ s,
  match BeginTx s with
  | (s1, Err e) => (s1, Err e)
  | (s1, Ok _) =>
      match m s1 with
      | (s2, Err e) => (Rollback s2, Err e)
      | (s2, Ok a) =>
          match Commit s2 with
          | (s3, Ok _) => (s3, Ok a)
          | (s3, Err e) => (s3, Err e)
          end
      end
  end.

(** *** Accounts *)

Definition default_asset (assetCode : string) : string :=
  if assetCode =s? "" then "USDC" else assetCode.

Definition getOrCreateAccountTx (accountType : string) (vaultID userID : option Z)
    (adapterName : option string) (assetCode : string) : M Account :=
  of_error (ValidateAccountType accountType) ;;
  k ← of_result (select_key accountType vaultID userID adapterName assetCode);
  found ← exec (query (select_account k));
  match found with
  | Some acc => mret acc
  | None =>
      newID ← uuid_New;
      exec (λ now st, insert_account
        (mkAccount newID accountType vaultID userID adapterName assetCode "stroops" "" now now) st) ;;
      again ← exec (query (select_account k));
      match again with Some acc => mret acc | None => throw ErrNoRows end
  end.

Definition GetOrCreateAccountTx (accountType : string) (vaultID userID : option Z)
    (adapterName : option string) (assetCode : string) : M Account :=
  getOrCreateAccountTx accountType vaultID userID adapterName (default_asset assetCode).

Definition GetOrCreateAccount (accountType : string) (vaultID userID : option Z)
    (adapterName : option string) (assetCode : string) : M Account :=
  withTx (getOrCreateAccountTx accountType vaultID userID adapterName (default_asset assetCode)).

Definition CreateAccount (acc : Account) : M Account :=
  of_error (ValidateAccountType (AccountType acc)) ;;
  id ← (if AccID acc =? 0 then uuid_New else mret (AccID acc));
  let code := default_asset (AccAssetCode acc) in
  let unit' := if AccAssetUnit acc =s? "" then "stroops" else AccAssetUnit acc in
  let row now := mkAccount id (AccountType acc) (VaultID acc) (UserID acc) (AdapterName acc)
                   code unit' (Description acc) now now in
  r ← exec_db (λ now st, let? (st', ins) := insert_account (row now) st in
                         Ok (st', (ins, row now)));
  let '(ins, a) := (r : bool * Account) in
  if ins then mret a
  else GetOrCreateAccount (AccountType acc) (VaultID acc) (UserID acc) (AdapterName acc) code.

(** *** Entries *)

Definition mapLedgerError (e : LedgerError) : LedgerError :=
  match e with
  | ErrPg (UniqueViolation c) =>
      if Contains c "ledger_entries_domain_event_account" then ErrAlreadyPosted else e
  | _ => e
  end.

(** The columns [postEntriesTx] fills in before it inserts an entry. *)
Definition complete (id : Z) (now : Time) (e : Entry) : Entry :=
  mkEntry id (TransactionID e) (AccountID e) (Amount e)
    (if Direction e =s? "" then DirectionFromAmount (Amount e) else Direction e) now
    (DomainEventType e) (DomainEventID e) (default_asset (EntAssetCode e))
    (if EntAssetUnit e =s? "" then "stroops" else EntAssetUnit e).

Definition unit_of (r : result PgError Store) : result PgError (Store * unit) :=
  let? st := r in Ok (st, ()).

Fixpoint postEntriesTx (es : list Entry) : M unit :=
  match es with
  | [] => mret ()
  | e :: es' =>
      id ← (if EntID e =? 0 then uuid_New else mret (EntID e));
      exec (λ now st, unit_of (insert_entry (complete id now e) st)) ;;
      exec (λ now st, unit_of (upsert_balance (complete id now e) now st)) ;;
      postEntriesTx es'
  end.

Definition PostEntries (es : list Entry) : M unit :=
  of_error (ValidateBalanced es) ;;
  withTx (map_err mapLedgerError (postEntriesTx es)).

Definition PostEntriesTx (es : list Entry) : M unit :=
  of_error (ValidateBalanced es) ;;
  (λ s, match txn s with None => (s, Err ErrTxRequired) | Some _ => (s, Ok ()) end) ;;
  map_err mapLedgerError (postEntriesTx es).

(** [details] is a [jsonb] column: [json_valid] says which texts the database
    accepts there. *)
Definition CreateReconciliationRecord (json_valid : string → bool)
    (rec : ReconciliationRecord) : M unit :=
  id ← (if RecID rec =? 0 then uuid_New else mret (RecID rec));
  exec_db (λ now st,
    if negb (json_valid (Details rec)) then Err InvalidTextRepresentation
    else if negb (bool_decide (RecStatus rec ∈ ["ok"; "drift"; "error"])) then Err CheckViolation
    else if existsb (λ x, RecID x =? id) (records st) then
      Err (UniqueViolation "ledger_reconciliation_records_pkey")
    else if negb (bool_decide (RecVaultID rec ∈ vaults st)) then Err ForeignKeyViolation
    else Ok (with_records st (records st ++
      [mkRec id (RecVaultID rec) (LedgerVaultPoolBalance rec) (OnChainBalance rec)
         (RecDifference rec) (Tolerance rec) (RecStatus rec) (Details rec) now]), ())).

(** *** Reasoning about repository programs *)

(** A program runs either inside the caller's open transaction or on the
    database handle. *)
Inductive Mode := InTx | OnDb.

Definition at_mode (md : Mode) (s : Session) (st : Store) : Prop :=
  match md with
  | InTx => txn s = Some (mkTx st false)
  | OnDb => txn s = None ∧ store s = st
  end.

(** A transaction that can no longer commit. *)
Definition broken (md : Mode) (s : Session) : Prop :=
  match md with InTx => ∃ st, txn s = Some (mkTx st true) | OnDb => False end.

Definition frame (md : Mode) (s s' : Session) : Prop :=
  seed s ≤ seed s' ∧ clock s' = clock s ∧ (faults s = [] → faults s' = []) ∧
  match md with InTx => store s' = store s | OnDb => True end.

(** Assertions read the id source and the tables in view. *)
Definition Assert : Type := Z → Store → Prop.

(** [triple md now P m Q E B]: run at time [now] from a state in [P], [m]
    returns a value in [Q]; or an error, and then leaves tables in [E] or a
    broken transaction, and gives one of the errors [B] when no connection
    fails. *)
Definition triple {A} (md : Mode) (now : Time) (P : Assert) (m : M A) (Q : A → Assert)
    (E : Assert) (B : LedgerError → Prop) : Prop :=
  ∀ s st, clock s = now → at_mode md s st → P (seed s) st →
    let '(s', r) := m s in
    frame md s s' ∧
    match r with
    | Ok a => ∃ st', at_mode md s' st' ∧ Q a (seed s') st'
    | Err e => ((∃ st', at_mode md s' st' ∧ E (seed s') st') ∨ broken md s') ∧
               (faults s = [] → B e)
    end.

Section rules.
  Context (md : Mode) (now : Time).

Lemma frame_refl s : frame md s s.
Proof. unfold frame. destruct md; split_and!; (done || lia). Qed.

Lemma frame_trans s1 s2 s3 : frame md s1 s2 → frame md s2 s3 → frame md s1 s3.
Proof.
  intros (H1 & H2 & H3 & H4) (H1' & H2' & H3' & H4').
  split_and!; [lia|congruence|auto|destruct md; congruence].
Qed.

Lemma triple_ret {A} (a : A) P Q E B :
  (∀ n st, P n st → Q a n st) → triple md now P (mret a) Q E B.
Proof. intros H s st _ Hat HP. split; [apply frame_refl|]. exists st. auto. Qed.

Lemma triple_throw {A} e P (Q : A → Assert) (E : Assert) (B : LedgerError → Prop) :
  (∀ n st, P n st → E n st ∧ B e) → triple md now P (throw e) Q E B.
Proof.
  intros H s st _ Hat HP. destruct (H _ _ HP) as [HE HB]. split; [apply frame_refl|].
  split; [left; exists st; auto|auto].
Qed.

Lemma triple_bind {A C} (m : M A) (k : A → M C) P R Q E B :
  triple md now P m R E B → (∀ a, triple md now (R a) (k a) Q E B) →
  triple md now P (m ≫= k) Q E B.
Proof.
  intros Hm Hk s st Hnow Hat HP. specialize (Hm s st Hnow Hat HP).
  unfold mbind, M_bind. destruct (m s) as [s1 [a|e]].
  - destruct Hm as (Hf & st1 & Hat1 & HR).
    assert (clock s1 = now) as Hnow1 by (destruct Hf as (_ & ? & _); congruence).
    specialize (Hk a s1 st1 Hnow1 Hat1 HR). destruct (k a s1) as [s2 r].
    destruct Hk as [Hf2 Hr]. split; [by eapply frame_trans|]. destruct r as [c|e]; [done|].
    destruct Hr as [Hr HB]. split; [done|]. intros Hnf. apply HB. by apply Hf.
  - done.
Qed.

Lemma triple_consequence {A} (m : M A) (P P' : Assert) (Q Q' : A → Assert) (E E' : Assert)
    (B B' : LedgerError → Prop) :
  triple md now P' m Q' E' B' →
  (∀ n st, P n st → P' n st) → (∀ a n st, Q' a n st → Q a n st) →
  (∀ n st, E' n st → E n st) → (∀ e, B' e → B e) → triple md now P m Q E B.
Proof.
  intros Hm HP HQ HE HB s st Hnow Hat HPs. specialize (Hm s st Hnow Hat (HP _ _ HPs)).
  destruct (m s) as [s1 [a|e]]; naive_solver.
Qed.

Lemma triple_pre {A} (m : M A) (P P' : Assert) Q E B :
  (∀ n st, P n st → P' n st) → triple md now P' m Q E B → triple md now P m Q E B.
Proof. intros HP Hm. by eapply triple_consequence. Qed.

(** Facts that do not depend on the state move out of the precondition. *)
Lemma triple_pure {A} (φ : Prop) (m : M A) P Q E B :
  (φ → triple md now P m Q E B) → triple md now (λ n st, φ ∧ P n st) m Q E B.
Proof. intros H s st Hnow Hat [Hφ HP]. by apply (H Hφ s st). Qed.

Lemma triple_of_error e P (Q : unit → Assert) (E : Assert) (B : LedgerError → Prop) :
  (e = None → ∀ n st, P n st → Q () n st) →
  (∀ x, e = Some x → ∀ n st, P n st → E n st ∧ B x) →
  triple md now P (of_error e) Q E B.
Proof.
  intros H1 H2. destruct e as [x|]; simpl; [apply triple_throw|apply triple_ret]; eauto.
Qed.

Lemma triple_map_err {A} f (m : M A) P Q E (B : LedgerError → Prop) :
  triple md now P m Q E (λ e, B (f e)) → triple md now P (map_err f m) Q E B.
Proof.
  intros Hm s st Hnow Hat HP. specialize (Hm s st Hnow Hat HP). unfold map_err.
  by destruct (m s) as [s1 [a|e]].
Qed.

Lemma triple_uuid (P : Assert) (Q : Z → Assert) E B :
  (∀ n st, P n st → Q n (n + 1) st) → triple md now P uuid_New Q E B.
Proof.
  intros H s st _ Hat HP. unfold uuid_New. split.
  - unfold frame; simpl. destruct md; split_and!; (done || lia).
  - exists st. split; [by destruct md|]. by apply H.
Qed.

End rules.

Lemma triple_exec {A} now (f : Time → Store → result PgError (Store * A)) (P : Assert)
    (Q : A → Assert) (E : Assert) (B : LedgerError → Prop) :
  (∀ n st, P n st →
     match f now st with Ok (st', a) => Q a n st' | Err e => B (ErrPg e) end) →
  triple InTx now P (exec f) Q E B.
Proof.
  intros H s st Hnow Hat HP. simpl in Hat. unfold exec. rewrite Hat. unfold round_trip.
  specialize (H _ _ HP). destruct (faults s) as [|[|] fs] eqn:Hfs; simpl.
  - rewrite Hnow. destruct (f now st) as [[st' a]|e].
    + split; [split_and!; simpl; (done || lia || congruence)|]. exists st'. done.
    + split; [split_and!; simpl; (done || lia || congruence)|]. split; [right; by exists st|done].
  - split; [split_and!; simpl; (done || lia || congruence)|]. split; [right; by exists st|done].
  - rewrite Hnow. destruct (f now st) as [[st' a]|e].
    + split; [split_and!; simpl; (done || lia || congruence)|]. exists st'. done.
    + split; [split_and!; simpl; (done || lia || congruence)|]. split; [right; by exists st|done].
Qed.

Lemma triple_withTx {A} now (m : M A) (P : Assert) (Q : A → Assert) (E E' : Assert) B :
  triple InTx now P m Q E' B → (∀ n n' st, P n st → n ≤ n' → E n' st) →
  triple OnDb now P (withTx m) Q E B.
Proof.
  intros Hm HE s st Hnow [Htx Hst] HP. unfold withTx, BeginTx, round_trip.
  assert (∀ fs, let s1 := with_txn (with_faults s fs) (Some (mkTx st false)) in
    (faults s = [] → fs = []) →
    let '(s', r) := match m s1 with
      | (s2, Err e) => (Rollback s2, Err e)
      | (s2, Ok a) => match Commit s2 with
          | (s3, Ok _) => (s3, Ok a) | (s3, Err e) => (s3, Err e) end end in
    frame OnDb s s' ∧
    match r with
    | Ok a => ∃ st', at_mode OnDb s' st' ∧ Q a (seed s') st'
    | Err e => ((∃ st', at_mode OnDb s' st' ∧ E (seed s') st') ∨ broken OnDb s') ∧
               (faults s = [] → B e)
    end) as Hgo.
  { intros fs s1 Hfs. specialize (Hm s1 st Hnow eq_refl HP).
    destruct (m s1) as [s2 [a|e]]; simpl in Hm.
    - destruct Hm as ((Hf1 & Hf2 & Hf3 & Hf4) & st' & Hat & HQ). simpl in Hat.
      unfold Commit. rewrite Hat. unfold round_trip. simpl in *.
      destruct (faults s2) as [|[|] fs'] eqn:Hfs2; simpl;
        (split; [split_and!; simpl; auto; try lia; try congruence; intros; auto;
                 exfalso; by specialize (Hf3 (Hfs ltac:(assumption)))|]).
      + exists st'. done.
      + split; [left; exists st; split; [split; [done|congruence]|by eapply HE]|].
        intros Hnf. by specialize (Hf3 (Hfs Hnf)).
      + exists st'. done.
    - destruct Hm as ((Hf1 & Hf2 & Hf3 & Hf4) & _ & HB). simpl in *. split.
      + split_and!; simpl; auto.
      + split; [|auto]. left. exists st. split; [split; [done|congruence]|by eapply HE]. }
  subst st. destruct (faults s) as [|[|] fs] eqn:Hfs; simpl.
  - specialize (Hgo [] (λ _, eq_refl)).
    assert (with_faults s [] = s) as Heq by (unfold with_faults; destruct s; simpl in *; by subst).
    by rewrite Heq in Hgo.
  - split; [split_and!; simpl; (done || lia || congruence)|]. split; [|done]. left. exists (store s).
    split; [done|]. eapply HE; [done|simpl; lia].
  - by apply Hgo.
Qed.

(** A statement on the database handle. *)
Lemma triple_exec_db {A} now (f : Time → Store → result PgError (Store * A)) (P : Assert)
    (Q : A → Assert) (E : Assert) (B : LedgerError → Prop) :
  (∀ n st, P n st →
     E n st ∧ match f now st with Ok (st', a) => Q a n st' | Err e => B (ErrPg e) end) →
  triple OnDb now P (exec_db f) Q E B.
Proof.
  intros H s st Hnow [Htx <-] HP. unfold exec_db, round_trip. destruct (H _ _ HP) as [HE Hf].
  destruct (faults s) as [|[|] fs] eqn:Hfs; simpl; rewrite ?Hnow;
    try destruct (f now (store s)) as [[st' a]|e];
    (split; [split_and!; simpl; (done || lia || congruence)|]);
    solve [exists st'; done | split; [left; by exists (store s)|done]].
Qed.

(** Nothing revives a transaction in which a statement has failed. *)
Definition stays_broken {A} (m : M A) : Prop :=
  ∀ s t, txn s = Some t → aborted t = true →
    let s' := fst (m s) in
    store s' = store s ∧ seed s ≤ seed s' ∧ ∃ t', txn s' = Some t' ∧ aborted t' = true.

Lemma stays_broken_pure {A} (r : result LedgerError A) : stays_broken (λ s, (s, r)).
Proof. intros s t Ht Ha. simpl. split_and!; [done|lia|by exists t]. Qed.

Lemma stays_broken_uuid : stays_broken uuid_New.
Proof. intros s t Ht Ha. simpl. split_and!; [done|lia|by exists t]. Qed.

Lemma stays_broken_bind {A C} (m : M A) (k : A → M C) :
  stays_broken m → (∀ a, stays_broken (k a)) → stays_broken (m ≫= k).
Proof.
  intros Hm Hk s t Ht Ha. specialize (Hm s t Ht Ha). unfold mbind, M_bind.
  destruct (m s) as [s1 [a|e]]; simpl in *; [|done]. destruct Hm as (H1 & H2 & t1 & Ht1 & Ha1).
  specialize (Hk a s1 t1 Ht1 Ha1). simpl in Hk. destruct Hk as (H3 & H4 & H5).
  split_and!; [congruence|lia|done].
Qed.

Lemma stays_broken_exec {A} f : stays_broken (exec (A := A) f).
Proof.
  intros s t Ht Ha. unfold exec, round_trip. rewrite Ht, Ha.
  destruct (faults s) as [|[|] fs]; simpl; split_and!; try done; try lia; by eexists.
Qed.

Lemma stays_broken_map_err {A} f (m : M A) : stays_broken m → stays_broken (map_err f m).
Proof.
  intros Hm s t Ht Ha. specialize (Hm s t Ht Ha). unfold map_err. by destruct (m s) as [s1 [a|e]].
Qed.

Lemma stays_broken_of_error e : stays_broken (of_error e).
Proof. destruct e; apply stays_broken_pure. Qed.

Lemma stays_broken_getOrCreate ty v u ad code :
  stays_broken (getOrCreateAccountTx ty v u ad code).
Proof.
  apply stays_broken_bind; [apply stays_broken_of_error|intros _].
  apply stays_broken_bind; [apply stays_broken_pure|intros k].
  apply stays_broken_bind; [apply stays_broken_exec|intros [a|]]; [apply stays_broken_pure|].
  apply stays_broken_bind; [apply stays_broken_uuid|intros id].
  apply stays_broken_bind; [apply stays_broken_exec|intros _].
  apply stays_broken_bind; [apply stays_broken_exec|intros [a|]]; apply stays_broken_pure.
Qed.

Lemma stays_broken_post es : stays_broken (PostEntriesTx es).
Proof.
  apply stays_broken_bind; [apply stays_broken_of_error|intros _].
  apply stays_broken_bind; [intros s t Ht Ha; rewrite Ht; simpl; split_and!; [done|lia|by exists t]|].
  intros _. apply stays_broken_map_err. induction es as [|e es IH]; [apply stays_broken_pure|].
  apply stays_broken_bind; [destruct (EntID e =? 0); [apply stays_broken_uuid|apply stays_broken_pure]|].
  intros id. apply stays_broken_bind; [apply stays_broken_exec|intros _].
  apply stays_broken_bind; [apply stays_broken_exec|by intros _].
Qed.

(** *** Get-or-create *)

(** Every id in the tables was drawn before [n]. *)
Definition below (n : Z) (st : Store) : Prop :=
  0 < n ∧ (∀ a, a ∈ accounts st → 0 < AccID a < n) ∧ ∀ e, e ∈ entries st → EntID e < n.

(** [a] is the account of key [k] in [st], found in [st0] or inserted there. *)
Definition resolved (k : key) (st0 : Store) (a : Account) (st : Store) : Prop :=
  account_key a = Some k ∧ a ∈ accounts st ∧
  (st = st0 ∨ insert_account a st0 = Ok (st, true)).

Lemma select_account_some k st a :
  select_account k st = Some a → a ∈ accounts st ∧ account_key a = Some k.
Proof.
  unfold select_account. intros H%head_Some_elem_of.
  apply list_elem_of_filter in H as [Hk Ha]. split; [done|]. by apply bool_decide_eq_true in Hk.
Qed.

Lemma select_account_none k st a :
  select_account k st = None → a ∈ accounts st → account_key a ≠ Some k.
Proof.
  unfold select_account. intros H Ha Hk. apply head_None in H.
  assert (a ∈ filter (λ a, has_key k a = true) (accounts st)) as Hin.
  { apply list_elem_of_filter. split; [by apply bool_decide_eq_true|done]. }
  rewrite H in Hin. by apply elem_of_nil in Hin.
Qed.

(** The row [getOrCreateAccountTx] inserts is one its query finds. *)
Lemma select_key_of_row ty v u ad code k id unit' desc c m :
  select_key ty v u ad code = Ok k →
  account_key (mkAccount id ty v u ad code unit' desc c m) = Some k.
Proof.
  unfold select_key, account_key. simpl. intros H.
  destruct (ty =s? AccountTypeUserVaultPosition); [by destruct v, u; simplify_eq|].
  destruct (ty =s? AccountTypeVaultAssetPool) eqn:E1; [by destruct v; simplify_eq|].
  destruct (ty =s? AccountTypeYieldSource) eqn:E2.
  { apply string_eqb_eq in E2 as ->. simpl. destruct ad as [s|]; [|done].
    destruct (s =s? ""); by simplify_eq. }
  destruct (bool_decide _) eqn:E3.
  { assert (ty =s? AccountTypePenaltyEscrow = false) as ->; [|by simplify_eq].
    apply bool_decide_eq_true in E3. apply string_eqb_neq. intros ->. set_solver. }
  destruct (ty =s? AccountTypePenaltyEscrow); [|done]. simpl. by destruct v; simplify_eq.
Qed.

Lemma below_insert n a st st' ins :
  insert_account a st = Ok (st', ins) → below n st → 0 < AccID a ≤ n → below (n + 1) st'.
Proof.
  intros [[_ ->]|(_ & -> & _)]%insert_account_ok (H0 & Ha & He) Hid; simpl.
  - split_and!; [lia| |]; intros x Hx; [specialize (Ha x Hx)|specialize (He x Hx)]; lia.
  - split_and!; [lia| |]; intros x Hx; [|specialize (He x Hx); simpl; lia].
    simpl in Hx. apply elem_of_app in Hx as [Hx|Hx]; [specialize (Ha x Hx); lia|].
    apply list_elem_of_singleton in Hx as ->. lia.
Qed.

Definition refs_ok (v u : option Z) (st : Store) : bool :=
  references v (vaults st) && references u (users st).

(** A fresh row is inserted unless a key or a reference stands in the way. *)
Lemma insert_fresh a st :
  AccountType a ∈ ValidAccountTypes → (∀ b, b ∈ accounts st → AccID b ≠ AccID a) →
  (∀ k b, account_key a = Some k → b ∈ accounts st → account_key b ≠ Some k) →
  insert_account a st =
    if refs_ok (VaultID a) (UserID a) st then Ok (with_accounts st (accounts st ++ [a]), true)
    else Err ForeignKeyViolation.
Proof.
  intros Ht Hid Hk. unfold insert_account. rewrite bool_decide_true by done. simpl.
  assert (existsb (conflicts a) (accounts st) = false) as ->.
  { apply existsb_none. intros b Hb. unfold conflicts. apply orb_false_iff. split.
    - specialize (Hid b Hb). lia.
    - destruct (account_key a) eqn:E; [|done]. apply bool_decide_eq_false. by apply Hk. }
  unfold refs_ok. by destruct (_ && _).
Qed.

Lemma select_inserted k a st :
  select_account k st = None → account_key a = Some k →
  select_account k (with_accounts st (accounts st ++ [a])) = Some a.
Proof.
  intros Hn Hk. unfold select_account in *. simpl. rewrite filter_app.
  apply head_None in Hn. rewrite Hn. simpl. rewrite filter_cons, decide_True; [done|].
  by apply bool_decide_eq_true.
Qed.

Lemma getOrCreateAccountTx_triple now st0 ty v u ad code k :
  select_key ty v u ad code = Ok k → ty ∈ ValidAccountTypes →
  triple InTx now (λ n st, st = st0 ∧ below n st) (getOrCreateAccountTx ty v u ad code)
    (λ a n st, below n st ∧ resolved k st0 a st) (λ n st, st = st0 ∧ below n st)
    (λ e, e = ErrPg ForeignKeyViolation ∧ select_account k st0 = None ∧ refs_ok v u st0 = false).
Proof.
  intros Hk Hty. unfold getOrCreateAccountTx, ValidateAccountType.
  rewrite bool_decide_true, Hk by done.
  apply (triple_bind _ _ _ _ _ (λ _ n st, st = st0 ∧ below n st)); [by apply triple_ret|intros _].
  apply (triple_bind _ _ _ _ _ (λ x n st, x = k ∧ st = st0 ∧ below n st));
    [by apply (triple_ret _ _ k)|intros x].
  apply triple_pure. intros ->.
  apply (triple_bind _ _ _ _ _ (λ r n st, r = select_account k st0 ∧ st = st0 ∧ below n st)).
  { apply triple_exec. by intros n st [-> ?]. }
  intros r. apply triple_pure. intros ->. destruct (select_account k st0) as [a|] eqn:Hsel.
  { apply triple_ret. intros n st [-> Hb]. apply select_account_some in Hsel as [??].
    split; [done|]. split_and!; auto. }
  apply (triple_bind _ _ _ _ _ (λ id n st, n = id + 1 ∧ st = st0 ∧ below id st)).
  { apply triple_uuid. naive_solver. }
  intros id. set (a := mkAccount id ty v u ad code "stroops" "" now now).
  assert (account_key a = Some k) as Hka by by apply select_key_of_row.
  apply (triple_bind _ _ _ _ _ (λ _ n st, below n st ∧ insert_account a st0 = Ok (st, true) ∧
    st = with_accounts st0 (accounts st0 ++ [a]))).
  - apply triple_exec. intros n st (-> & -> & Hb). fold a.
    assert (insert_account a st0 = if refs_ok v u st0
      then Ok (with_accounts st0 (accounts st0 ++ [a]), true) else Err ForeignKeyViolation) as Hi.
    { apply insert_fresh; [done| |].
      - intros b Hin. destruct Hb as (_ & Hb & _). specialize (Hb b Hin). simpl. lia.
      - intros k' b Hk' Hin. simplify_eq. by eapply select_account_none. }
    rewrite Hi. destruct (refs_ok v u st0); [|done].
    split; [|done]. eapply below_insert; [done|done|destruct Hb; simpl; lia].
  - intros _. apply (triple_bind _ _ _ _ _ (λ r n st, r = Some a ∧ below n st ∧ resolved k st0 a st)).
    + apply triple_exec. intros n st (Hb & Hi & ->). simpl.
      rewrite select_inserted by done. split; [done|]. split; [done|].
      split_and!; [done| |by right]. apply elem_of_app. right. by left.
    + intros r. apply triple_pure. intros ->. by apply triple_ret.
Qed.

(** *** Posting *)

(** [r] is the row [postEntriesTx] writes at time [now] for entry [e]. *)
Definition row_of (now : Time) (e r : Entry) : Prop :=
  ∃ id, r = complete id now e ∧ (EntID e ≠ 0 → id = EntID e).

Lemma rows_complete now es rows :
  Forall2 (row_of now) es rows → Forall2 completes es rows.
Proof. intros H. eapply Forall2_impl; [done|]. intros e r (id & -> & _). done. Qed.

(** No row reuses the id of a row before it. *)
Fixpoint fresh_ids (before rows : list Entry) : Prop :=
  match rows with
  | [] => True
  | r :: rows' => (∀ x, x ∈ before → EntID x ≠ EntID r) ∧ fresh_ids (before ++ [r]) rows'
  end.

Lemma insert_entry_below n e st st' :
  insert_entry e st = Ok st' → below n st → EntID e < n → below n st'.
Proof.
  intros (-> & _)%insert_entry_ok (H0 & Ha & He) Hid. split_and!; [done|done|].
  intros x Hx. simpl in Hx. apply elem_of_app in Hx as [Hx|Hx]; [auto|].
  by apply list_elem_of_singleton in Hx as ->.
Qed.

Lemma upsert_below n e now st st' :
  upsert_balance e now st = Ok st' → below n st → below n st'.
Proof. by intros (b & -> & _)%upsert_balance_ok Hb. Qed.

Lemma unit_of_cases r :
  (∃ st, r = Ok st ∧ unit_of r = Ok (st, ())) ∨ (∃ pe, r = Err pe ∧ unit_of r = Err pe).
Proof. destruct r; [left|right]; eauto. Qed.

(** What a failing loop reports: the error of the first row that fails. *)
Definition post_failure (now : Time) (st0 : Store) (es : list Entry) (e : LedgerError) : Prop :=
  ∃ k rows pe, Forall2 (row_of now) (take k es) rows ∧
    (Forall (λ e, EntID e = 0) es → fresh_ids (entries st0) rows) ∧
    apply_rows rows now st0 = Err pe ∧ e = ErrPg pe.

Lemma postEntriesTx_triple now st0 es :
  triple InTx now (λ n st, st = st0 ∧ below n st ∧ Forall (λ e, EntID e < n) es)
    (postEntriesTx es)
    (λ _ n st, below n st ∧
       ∃ rows, Forall2 (row_of now) es rows ∧ apply_rows rows now st0 = Ok st)
    (λ _ _, False) (post_failure now st0 es).
Proof.
  revert st0. induction es as [|e es IH]; intros st0; simpl.
  { apply triple_ret. intros n st (-> & Hb & _). split; [done|]. by exists []. }
  apply (triple_bind _ _ _ _ _ (λ id n st, (EntID e ≠ 0 → id = EntID e) ∧
    (EntID e = 0 → ∀ x, x ∈ entries st0 → EntID x ≠ id) ∧
    (st = st0 ∧ below n st ∧ id < n ∧ Forall (λ e, EntID e < n) es))).
  { destruct (Z.eqb_spec (EntID e) 0) as [Hz|Hz].
    - apply triple_uuid. intros n st (-> & Hb & Hf%Forall_cons). split; [done|].
      destruct Hb as (H0 & Ha & He). split; [intros _ x Hx; specialize (He x Hx); lia|].
      split; [done|]. split; [split_and!; [lia| |]; intros x Hx;
        [specialize (Ha x Hx)|specialize (He x Hx)]; lia|]. split; [lia|].
      eapply Forall_impl; [apply Hf|]. simpl. lia.
    - apply triple_ret. intros n st (-> & Hb & Hf%Forall_cons). naive_solver. }
  intros id. apply triple_pure. intros Hid. apply triple_pure. intros Hfresh.
  set (r := complete id now e). assert (row_of now e r) as Hrow by by exists id.
  destruct (unit_of_cases (insert_entry r st0)) as [(st1 & Hi & Hu)|(pe & Hi & Hu)].
  2:{ eapply triple_bind with (R := λ _ _ _, False); [|intros ? s st _ _ []].
      apply triple_exec. intros n st (-> & _). fold r. rewrite Hu. exists 1%nat, [r], pe.
      simpl. rewrite Hi. split_and!; [by repeat constructor| |done|done].
      intros [Hz _]%Forall_cons. split; [by apply Hfresh|done]. }
  apply (triple_bind _ _ _ _ _ (λ _ n st, st = st1 ∧ below n st ∧ Forall (λ e, EntID e < n) es)).
  { apply triple_exec. intros n st (-> & Hb & Hlt & Hf). fold r. rewrite Hu. split_and!; try done.
    by eapply insert_entry_below. }
  intros _.
  destruct (unit_of_cases (upsert_balance r now st1)) as [(st2 & Hi2 & Hu2)|(pe & Hi2 & Hu2)].
  2:{ eapply triple_bind with (R := λ _ _ _, False); [|intros ? s st _ _ []].
      apply triple_exec. intros n st (-> & _). fold r. rewrite Hu2. exists 1%nat, [r], pe.
      simpl. rewrite Hi. simpl. rewrite Hi2. split_and!; [by repeat constructor| |done|done].
      intros [Hz _]%Forall_cons. split; [by apply Hfresh|done]. }
  apply (triple_bind _ _ _ _ _ (λ _ n st, st = st2 ∧ below n st ∧ Forall (λ e, EntID e < n) es)).
  { apply triple_exec. intros n st (-> & Hb & Hf). fold r. rewrite Hu2. split_and!; try done.
    by eapply upsert_below. }
  intros _. eapply triple_consequence; [apply (IH st2)|done| |by intros ??|].
  - intros _ n st (Hb & rows & Hr & Happ). split; [done|]. exists (r :: rows).
    split; [by constructor|]. simpl. rewrite Hi. simpl. rewrite Hi2. done.
  - intros x (k & rows & pe & Hr & Hfr & Happ & ->). exists (S k), (r :: rows), pe.
    split_and!; [by constructor| | |done].
    + intros [Hz Hzs]%Forall_cons. split; [by apply Hfresh|].
      apply insert_entry_ok in Hi as (-> & _). apply upsert_balance_ok in Hi2 as (b & -> & _).
      by apply Hfr.
    + simpl. rewrite Hi. simpl. by rewrite Hi2.
Qed.

(** A row that no constraint refuses and whose balance stays in range. *)
Definition postable (st : Store) (r : Entry) : Prop :=
  Amount r ≠ 0 ∧ (Direction r =s? "debit") || (Direction r =s? "credit") = true ∧
  AccountID r ∈ map AccID (accounts st) ∧ in_i64 (Amount r) ∧
  in_i64 (balance_of (AccountID r) st + Amount r) ∧
  (DomainEventID r ≠ "" → ∀ x, x ∈ entries st → same_event_leg r x = false).

Lemma postable_row now st r :
  postable st r → (∀ x, x ∈ entries st → EntID x ≠ EntID r) →
  ∃ st1 st2, insert_entry r st = Ok st1 ∧ upsert_balance r now st1 = Ok st2.
Proof.
  intros (Hz & Hdir & Hacc & _ & Hbal & Hev) Hid. apply account_exists_in in Hacc.
  exists (with_entries st (entries st ++ [r])). unfold insert_entry.
  rewrite (proj2 (Z.eqb_neq _ _) Hz), Hdir. simpl.
  assert (existsb (λ x, EntID x =? EntID r) (entries st) = false) as ->
    by (apply existsb_none; intros x Hx; specialize (Hid x Hx); lia).
  assert (negb (DomainEventID r =s? "") && existsb (same_event_leg r) (entries st) = false) as ->.
  { destruct (DomainEventID r =s? "") eqn:E; [done|]. apply string_eqb_neq in E. simpl.
    by apply existsb_none, Hev. }
  rewrite Hacc. simpl. unfold upsert_balance. simpl. unfold balance_of in Hbal.
  change (account_exists (AccountID r) (with_entries st (entries st ++ [r])))
    with (account_exists (AccountID r) st). rewrite Hacc.
  destruct (balances st !! AccountID r); [rewrite bool_decide_true by done|]; by eexists.
Qed.

Lemma apply_rows_succeed rows now st :
  Core st → NoDup (map AccountID rows) → Forall (postable st) rows → fresh_ids (entries st) rows →
  ∃ st', apply_rows rows now st = Ok st'.
Proof.
  revert st. induction rows as [|r rows IH]; intros st HC Hnd Hp Hf; [by eexists|].
  apply Forall_cons in Hp as [Hr Hp]. destruct Hf as [Hid Hf]. simpl in Hnd.
  apply NoDup_cons in Hnd as [Hni Hnd].
  destruct (postable_row now st r Hr Hid) as (st1 & st2 & H1 & H2). simpl. rewrite H1. simpl. rewrite H2.
  simpl. destruct (post_row _ _ _ _ _ HC ltac:(apply Hr) H1 H2) as (HC2 & (_ & _ & Ha & _) & He).
  apply IH; [done|done| |by rewrite He].
  apply Forall_forall. intros x Hx. eapply Forall_forall in Hp as (P1 & P2 & P3 & P4 & P5 & P6); [|done].
  assert (AccountID r ≠ AccountID x) as Hne.
  { intros Heq. apply Hni. rewrite Heq. by apply list_elem_of_fmap_2. }
  split_and!; [done|done|by rewrite Ha|done| |].
  - rewrite balance_of_sum in P5 |- * by done. unfold amounts_of in *. rewrite He, filter_app, map_app.
    rewrite filter_cons, decide_False by done. by rewrite app_nil_r.
  - intros Hev y Hy. rewrite He in Hy. apply elem_of_app in Hy as [Hy|Hy]; [by apply P6|].
    apply list_elem_of_singleton in Hy as ->. unfold same_event_leg.
    rewrite (proj2 (Z.eqb_neq (AccountID x) (AccountID r))) by congruence. apply andb_false_r.
Qed.

(** *** The interface clients use *)

(** Resolving an account and posting entries, inside the caller's transaction
    or each in a transaction of its own. *)
Class LedgerPort := {
  getAccount : string → option Z → option Z → option string → string → M Account;
  post : list Entry → M unit;
}.

Definition why_unresolved (st0 : Store) (k : key) (v u : option Z) (e : LedgerError) : Prop :=
  e = ErrPg ForeignKeyViolation ∧ select_account k st0 = None ∧ refs_ok v u st0 = false.

Definition why_not_posted (now : Time) (st0 : Store) (es : list Entry) (e : LedgerError) : Prop :=
  ValidateBalanced es = Some e ∨
  (ValidateBalanced es = None ∧ ∃ e', post_failure now st0 es e' ∧ e = mapLedgerError e').

(** [st0] with [es] posted. *)
Definition posted (now : Time) (st0 : Store) (es : list Entry) (st : Store) : Prop :=
  ValidateBalanced es = None ∧
  ∃ rows, Forall2 (row_of now) es rows ∧ apply_rows rows now st0 = Ok st.

Class LedgerPortLaws (md : Mode) `{LedgerPort} : Prop := {
  getAccount_spec now st0 ty v u ad code k :
    select_key ty v u ad (default_asset code) = Ok k → ty ∈ ValidAccountTypes →
    triple md now (λ n st, st = st0 ∧ below n st) (getAccount ty v u ad code)
      (λ a n st, below n st ∧ resolved k st0 a st) (λ n st, st = st0 ∧ below n st)
      (why_unresolved st0 k v u);
  getAccount_invalid now st0 ty v u ad code x :
    select_key ty v u ad (default_asset code) = Err x → ty ∈ ValidAccountTypes →
    triple md now (λ n st, st = st0 ∧ below n st) (getAccount ty v u ad code)
      (λ _ _ _, False) (λ n st, st = st0 ∧ below n st) (λ e, e = x);
  post_spec now st0 es :
    triple md now (λ n st, st = st0 ∧ below n st ∧ Forall (λ e, EntID e < n) es) (post es)
      (λ _ n st, below n st ∧ posted now st0 es st) (λ n st, st = st0 ∧ below n st)
      (why_not_posted now st0 es);
}.

Definition TxPort : LedgerPort := {| getAccount := GetOrCreateAccountTx; post := PostEntriesTx |}.
Definition DirectPort : LedgerPort := {| getAccount := GetOrCreateAccount; post := PostEntries |}.

Lemma below_le n n' st : below n st → n ≤ n' → below n' st.
Proof.
  intros (H0 & Ha & He) Hle. split_and!; [lia| |]; intros x Hx;
    [specialize (Ha x Hx)|specialize (He x Hx)]; lia.
Qed.

Lemma getOrCreateAccountTx_invalid now st0 ty v u ad code x :
  select_key ty v u ad code = Err x → ty ∈ ValidAccountTypes →
  triple InTx now (λ n st, st = st0 ∧ below n st) (getOrCreateAccountTx ty v u ad code)
    (λ _ _ _, False) (λ n st, st = st0 ∧ below n st) (λ e, e = x).
Proof.
  intros Hk Hty. unfold getOrCreateAccountTx, ValidateAccountType.
  rewrite bool_decide_true, Hk by done.
  apply (triple_bind _ _ _ _ _ (λ _ n st, st = st0 ∧ below n st)); [by apply triple_ret|intros _].
  eapply triple_bind with (R := λ _ _ _, False); [|intros ? s st _ _ []].
  by apply (triple_throw _ _ x).
Qed.

(** The body both posting operations share after their validation. *)
Lemma post_body_triple now st0 es :
  ValidateBalanced es = None →
  triple InTx now (λ n st, st = st0 ∧ below n st ∧ Forall (λ e, EntID e < n) es)
    (map_err mapLedgerError (postEntriesTx es))
    (λ _ n st, below n st ∧ posted now st0 es st) (λ n st, st = st0 ∧ below n st)
    (why_not_posted now st0 es).
Proof.
  intros Hv. apply triple_map_err.
  eapply triple_consequence; [apply (postEntriesTx_triple now st0 es)|done| |by intros ??|].
  - intros _ n st (Hb & rows & Hr & Ha). split; [done|]. split; [done|]. by exists rows.
  - intros e He. right. split; [done|]. by exists e.
Qed.

#[global] Instance TxPort_laws : LedgerPortLaws InTx (H := TxPort).
Proof.
  constructor.
  - intros. by apply getOrCreateAccountTx_triple.
  - intros. by apply getOrCreateAccountTx_invalid.
  - intros now st0 es. simpl. unfold PostEntriesTx.
    apply (triple_bind _ _ _ _ _ (λ _ n st, ValidateBalanced es = None ∧
      (st = st0 ∧ below n st ∧ Forall (λ e, EntID e < n) es))).
    { apply triple_of_error; [done|]. intros x Hx n st (? & ? & _). split; [done|by left]. }
    intros _. apply triple_pure. intros Hv.
    eapply triple_bind with (R := λ _ n st, st = st0 ∧ below n st ∧ Forall (λ e, EntID e < n) es);
      [|intros _; by apply post_body_triple].
    intros s st Hnow Hat HP. simpl in Hat. rewrite Hat. split; [apply frame_refl|]. by exists st.
Qed.

#[global] Instance DirectPort_laws : LedgerPortLaws OnDb (H := DirectPort).
Proof.
  constructor.
  - intros. eapply triple_withTx; [by apply getOrCreateAccountTx_triple|].
    intros n n' st [-> ?] ?. split; [done|by eapply below_le].
  - intros. eapply triple_withTx; [by apply getOrCreateAccountTx_invalid|].
    intros n n' st [-> ?] ?. split; [done|by eapply below_le].
  - intros now st0 es. simpl. unfold PostEntries.
    apply (triple_bind _ _ _ _ _ (λ _ n st, ValidateBalanced es = None ∧
      (st = st0 ∧ below n st ∧ Forall (λ e, EntID e < n) es))).
    { apply triple_of_error; [done|]. intros x Hx n st (? & ? & _). split; [done|by left]. }
    intros _. apply triple_pure. intros Hv.
    eapply triple_withTx; [by apply post_body_triple|].
    intros n n' st (-> & ? & _) ?. split; [done|by eapply below_le].
Qed.

(** *** Resolving several accounts, then posting *)

(** The accounts table grew by get-or-create alone. *)
Definition grown (st0 st : Store) : Prop :=
  rtc (λ a b, ∃ acc, insert_account acc a = Ok (b, true)) st0 st.

Definition knows (l : list (key * Account)) (st : Store) : Prop :=
  Forall (λ '(k, a), account_key a = Some k ∧ a ∈ accounts st) l.

Lemma grown_facts st0 st :
  grown st0 st →
  entries st = entries st0 ∧ balances st = balances st0 ∧ vaults st = vaults st0 ∧
  users st = users st0 ∧ records st = records st0 ∧
  (∀ a, a ∈ accounts st0 → a ∈ accounts st) ∧
  (Core st0 → Core st ∧ ∀ p, sum_over p st = sum_over p st0).
Proof.
  induction 1 as [st|st0 st1 st [acc Hi] _ (H1 & H2 & H3 & H4 & H5 & H6 & H7)];
    [by split_and!|].
  pose proof Hi as [[? _]|(_ & Heq & _)]%insert_account_ok; [done|].
  rewrite Heq in H1, H2, H3, H4, H5, H6. simpl in *. split_and!; try done.
  - intros a Ha. apply H6. apply elem_of_app. by left.
  - intros HC. destruct (H7 (insert_account_core _ _ _ _ Hi HC)) as [HC' Hs].
    split; [done|]. intros p. rewrite Hs. by eapply insert_account_sum.
Qed.

Lemma knows_mono l st st' :
  (∀ a, a ∈ accounts st → a ∈ accounts st') → knows l st → knows l st'.
Proof. intros H Hk. eapply Forall_impl; [done|]. intros [k a] []. auto. Qed.

End LedgerRepo.
