(* ===== verification/LedgerService.v ===== *)
(** The posting service over the ledger
    (src/apps/api/internal/service/ledger_service.go): deposits, withdrawals,
    harvests and rebalances as balanced postings, and what they keep true of the
    books. *)
From S2P Require Import Prelude Decimals Ledger LedgerRepo.
Open Scope Z_scope.

Module LedgerService.
Import Decimals Ledger LedgerRepo.

Section service.
  Context `{Decimal}.

Definition decimalToStroops (d : decimal) : Z :=
  let mult := Mul d (NewFromInt 10000000) in
  let rounded := Round mult 0 in
  IntPart rounded.

Definition stroopsToDecimal (s : Z) : decimal := Div (NewFromInt s) (NewFromInt 10000000).

(** *** Postings *)

Definition mk_leg (txID : Z) (acc : Account) (amount : Z) (ty ev : string) : Entry :=
  mkEntry 0 txID (AccID acc) amount (DirectionFromAmount amount) 0 ty ev "USDC" "stroops".

(** [postDepositDirect] and [postDepositWithTx] differ in the repository
    methods they call: the port. *)
Definition postDeposit `{LedgerPort} (vaultID userID stroops : Z) (domainEventID : string)
  : M unit :=
  userAcc ← getAccount AccountTypeUserVaultPosition (Some vaultID) (Some userID) None "USDC";
  vaultAcc ← getAccount AccountTypeVaultAssetPool (Some vaultID) None None "USDC";
  suspenseAcc ← getAccount AccountTypeSystemSuspense None None None "USDC";
  txID ← uuid_New;
  post [mk_leg txID userAcc stroops "deposit" domainEventID;
        mk_leg txID vaultAcc stroops "deposit" domainEventID;
        mk_leg txID suspenseAcc (i64 (-2 * stroops)) "deposit" domainEventID].

Definition postWithdrawal `{LedgerPort} (vaultID userID stroops : Z) (domainEventID : string)
  : M unit :=
  userAcc ← getAccount AccountTypeUserVaultPosition (Some vaultID) (Some userID) None "USDC";
  vaultAcc ← getAccount AccountTypeVaultAssetPool (Some vaultID) None None "USDC";
  suspenseAcc ← getAccount AccountTypeSystemSuspense None None None "USDC";
  txID ← uuid_New;
  post [mk_leg txID userAcc (i64 (- stroops)) "withdraw" domainEventID;
        mk_leg txID vaultAcc (i64 (- stroops)) "withdraw" domainEventID;
        mk_leg txID suspenseAcc (i64 (2 * stroops)) "withdraw" domainEventID].

Definition nonzero (e : Entry) : bool := negb (Amount e =? 0).

Definition postHarvest `{LedgerPort} (vaultID userID netStroops feeStroops grossStroops : Z)
    (adapterName domainEventID : string) : M unit :=
  vaultAcc ← getAccount AccountTypeVaultAssetPool (Some vaultID) None None "USDC";
  userAcc ← getAccount AccountTypeUserVaultPosition (Some vaultID) (Some userID) None "USDC";
  feeAcc ← getAccount AccountTypeFee None None None "USDC";
  yieldAcc ← getAccount AccountTypeYieldSource None None (Some adapterName) "USDC";
  suspenseAcc ← getAccount AccountTypeSystemSuspense None None None "USDC";
  txID ← uuid_New;
  let filtered := filter (λ e, nonzero e = true)
    [mk_leg txID vaultAcc netStroops "harvest" domainEventID;
     mk_leg txID userAcc netStroops "harvest" domainEventID;
     mk_leg txID feeAcc feeStroops "harvest" domainEventID;
     mk_leg txID yieldAcc (i64 (- grossStroops)) "harvest" domainEventID;
     mk_leg txID suspenseAcc (i64 (- netStroops)) "harvest" domainEventID] in
  if Z.of_nat (length filtered) <? 2 then mret () else post filtered.

Definition postRebalance `{LedgerPort} (fromAdapter toAdapter : string) (stroops : Z)
    (domainEventID : string) : M unit :=
  fromAcc ← getAccount AccountTypeYieldSource None None (Some fromAdapter) "USDC";
  toAcc ← getAccount AccountTypeYieldSource None None (Some toAdapter) "USDC";
  txID ← uuid_New;
  post [mk_leg txID fromAcc (i64 (- stroops)) "rebalance" domainEventID;
        mk_leg txID toAcc stroops "rebalance" domainEventID].

(** [tx != nil]: the caller's transaction; else a transaction of the service's
    own when it has a database handle, else the repository's transactions. *)
Definition on_handle (tx has_db : bool) (body : LedgerPort → M unit) : M unit :=
  if tx then body TxPort
  else if has_db then withTx (body TxPort)
  else body DirectPort.

Definition PostDeposit (tx has_db : bool) (vaultID userID : Z) (amount : decimal)
    (domainEventID : string) : M unit :=
  let stroops := decimalToStroops amount in
  if stroops <=? 0 then throw ErrNotPositive
  else on_handle tx has_db (λ _, postDeposit vaultID userID stroops domainEventID).

Definition PostWithdrawal (tx has_db : bool) (vaultID userID : Z) (amount : decimal)
    (domainEventID : string) : M unit :=
  let stroops := decimalToStroops amount in
  if stroops <=? 0 then throw ErrNotPositive
  else on_handle tx has_db (λ _, postWithdrawal vaultID userID stroops domainEventID).

(** The source compares gross with net plus fee but does nothing when they differ. *)
Definition PostHarvest (tx has_db : bool) (vaultID userID : Z) (netYield fee grossYield : decimal)
    (adapterName domainEventID : string) : M unit :=
  let netStroops := decimalToStroops netYield in
  let feeStroops := decimalToStroops fee in
  let grossStroops := decimalToStroops grossYield in
  on_handle tx has_db (λ _, postHarvest vaultID userID netStroops feeStroops grossStroops
                              adapterName domainEventID).

Definition PostRebalance (tx has_db : bool) (vaultID : Z) (fromAdapter toAdapter : string)
    (amount : decimal) (domainEventID : string) : M unit :=
  let stroops := decimalToStroops amount in
  if stroops <=? 0 then throw ErrNotPositive
  else if fromAdapter =s? toAdapter then throw ErrSameAdapter
  else on_handle tx has_db (λ _, postRebalance fromAdapter toAdapter stroops domainEventID).

(** *** Reads *)

Definition Service_GetUserVaultBalance (userID vaultID : Z) (st : Store) : decimal :=
  stroopsToDecimal (GetUserVaultBalance userID vaultID st).

Definition Service_GetVaultPoolBalance (vaultID : Z) (st : Store) : decimal :=
  stroopsToDecimal (GetVaultPoolBalance vaultID st).

Definition ValidateBooks (st : Store) : result LedgerError unit :=
  let? sum := SumAllEntries st in
  if negb (sum =? 0) then Err (ErrBooks sum) else Ok ().

Definition VerifyBalances (st : Store) : result LedgerError (list BalanceMismatch) :=
  RecomputeBalances st.

End service.

(** *** Resolving accounts *)

Record Req := mkReq { rty : string; rv : option Z; ru : option Z; rad : option string }.

Definition req_key (r : Req) : result LedgerError key :=
  select_key (rty r) (rv r) (ru r) (rad r) "USDC".

(** The shape all postings share. *)
Fixpoint resolve_all `{LedgerPort} (rs : list Req) (accs : list Account)
    (k : list Account → M unit) : M unit :=
  match rs with
  | [] => k accs
  | r :: rs' => a ← getAccount (rty r) (rv r) (ru r) (rad r) "USDC";
                resolve_all rs' (accs ++ [a]) k
  end.

Definition posting `{LedgerPort} (rs : list Req) (mk : Z → list Account → list Entry) : M unit :=
  resolve_all rs [] (λ accs,
    txID ← uuid_New;
    if Z.of_nat (length (mk txID accs)) <? 2 then mret () else post (mk txID accs)).

(** *** What a posting does, on either handle *)

Definition Resolving (st0 : Store) (rs : list Req) (accs : list Account) (n : Z) (st : Store) : Prop :=
  below n st ∧ grown st0 st ∧
  Forall2 (λ r a, ∃ k, req_key r = Ok k ∧ account_key a = Some k ∧ a ∈ accounts st) rs accs.

(** Why an account cannot be resolved. *)
Definition unresolvable (st0 : Store) (r : Req) (e : LedgerError) : Prop :=
  req_key r = Err e ∨ ∃ k, req_key r = Ok k ∧ why_unresolved st0 k (rv r) (ru r) e.

Definition valid_req (r : Req) : Prop := rty r ∈ ValidAccountTypes.

(** [st0] with the accounts of [rs] resolved in [st1]. *)
Definition ready (st0 : Store) (rs : list Req) (accs : list Account) (st1 : Store) : Prop :=
  grown st0 st1 ∧
  Forall2 (λ r a, ∃ k, req_key r = Ok k ∧ account_key a = Some k ∧ a ∈ accounts st1) rs accs.

Definition posting_done (now : Time) (st0 : Store) (rs : list Req)
    (mk : Z → list Account → list Entry) (st : Store) : Prop :=
  ∃ txID accs st1, 0 < txID ∧ ready st0 rs accs st1 ∧
    if Z.of_nat (length (mk txID accs)) <? 2 then st = st1 else posted now st1 (mk txID accs) st.

Definition posting_error (now : Time) (st0 : Store) (rs : list Req)
    (mk : Z → list Account → list Entry) (e : LedgerError) : Prop :=
  (∃ r, r ∈ rs ∧ unresolvable st0 r e) ∨
  (∃ txID accs n st1, 0 < txID ∧ below n st1 ∧ ready st0 rs accs st1 ∧
     why_not_posted now st1 (mk txID accs) e).

Definition no_ids (mk : Z → list Account → list Entry) : Prop :=
  ∀ txID accs, Forall (λ e, EntID e = 0) (mk txID accs).

Lemma unresolved_mono st0 st k v u e :
  grown st0 st → why_unresolved st k v u e → why_unresolved st0 k v u e.
Proof.
  intros Hg (-> & Hs & Hr). pose proof (grown_facts _ _ Hg) as (_ & _ & Hv & Hu & _ & Hm & _).
  split_and!; [done| |].
  - destruct (select_account k st0) as [b|] eqn:Hb0; [|done]. exfalso.
    apply select_account_some in Hb0 as [Hin Hkb].
    by eapply select_account_none; [exact Hs|apply Hm|].
  - unfold refs_ok in *. by rewrite <- Hv, <- Hu.
Qed.

Section posting.
  Context (md : Mode) `{P : LedgerPort, !LedgerPortLaws md} (now : Time).

(** Resolving one more account. *)
Lemma resolve_one st0 rs accs r (E : Assert) (B : LedgerError → Prop) :
  valid_req r →
  (∀ n st, below n st → grown st0 st → E n st) → (∀ e, unresolvable st0 r e → B e) →
  triple md now (Resolving st0 rs accs) (getAccount (rty r) (rv r) (ru r) (rad r) "USDC")
    (λ a, Resolving st0 (rs ++ [r]) (accs ++ [a])) E B.
Proof.
  intros Hty HE HB s st Hnow Hat (Hb & Hg & Hf). destruct (req_key r) as [k|x] eqn:Hk.
  - pose proof (getAccount_spec now st _ _ _ _ "USDC" _ Hk Hty s st Hnow Hat (conj eq_refl Hb)) as H.
    destruct (getAccount _ _ _ _ _ s) as [s' [a|e]]; destruct H as [Hfr H]; (split; [done|]).
    + destruct H as (st' & Hat' & Hb' & Hka & Hin & Hst). exists st'. split; [done|].
      assert (grown st st') as Hg'.
      { destruct Hst as [->|Hi]; [apply rtc_refl|apply rtc_once; by exists a]. }
      split_and!; [done|unfold grown; by etrans|]. apply Forall2_app.
      * eapply Forall2_impl; [done|]. intros r' a' (k' & ? & ? & Ha'). exists k'. split_and!; try done.
        by apply (grown_facts _ _ Hg').
      * constructor; [by exists k|constructor].
    + destruct H as [H HBe]. split.
      * destruct H as [(st' & Hat' & -> & Hb')|?]; [left; exists st; auto|by right].
      * intros Hnf. apply HB. right. exists k. split; [done|]. eapply unresolved_mono; eauto.
  - pose proof (getAccount_invalid now st _ _ _ _ "USDC" _ Hk Hty s st Hnow Hat (conj eq_refl Hb)) as H.
    destruct (getAccount _ _ _ _ _ s) as [s' [a|e]]; destruct H as [Hfr H]; (split; [done|]).
    + by destruct H as (? & ? & []).
    + destruct H as [H HBe]. split; [|intros Hnf; apply HB; left; by rewrite (HBe Hnf)].
      destruct H as [(st' & Hat' & -> & Hb')|?]; [left; exists st; auto|by right].
Qed.

Lemma resolve_all_triple st0 rs0 accs rs k (Q : unit → Assert) (E : Assert) (B : LedgerError → Prop) :
  Forall valid_req rs →
  (∀ n st, below n st → grown st0 st → E n st) →
  (∀ r e, r ∈ rs → unresolvable st0 r e → B e) →
  (∀ accs', triple md now (Resolving st0 (rs0 ++ rs) accs') (k accs') Q E B) →
  triple md now (Resolving st0 rs0 accs) (resolve_all rs accs k) Q E B.
Proof.
  revert rs0 accs. induction rs as [|r rs IH]; intros rs0 accs Hv HE HB Hk; simpl.
  { specialize (Hk accs). by rewrite app_nil_r in Hk. }
  apply Forall_cons in Hv as [Hr Hv]. eapply triple_bind.
  - apply resolve_one; [done|done|]. intros e. apply HB. by left.
  - intros a. apply IH; [done|done|intros r' e Hin; apply HB; by right|].
    intros accs'. by rewrite <- app_assoc.
Qed.

(** Every posting resolves its accounts, then posts all its legs or none. *)
Lemma posting_triple st0 rs mk :
  Forall valid_req rs → no_ids mk →
  triple md now (λ n st, st = st0 ∧ below n st) (posting rs mk)
    (λ _ n st, below n st ∧ posting_done now st0 rs mk st)
    (λ n st, below n st ∧ grown st0 st) (posting_error now st0 rs mk).
Proof.
  intros Hv Hid. apply triple_pre with (P' := Resolving st0 [] []);
    [intros n st [-> ?]; split; [done|]; split; [apply rtc_refl|by apply Forall2_nil]|].
  apply resolve_all_triple; [done|done|intros r e Hr Hu; left; by exists r|].
  intros accs. simpl. eapply triple_bind with
    (R := λ txID n st, (0 < txID) ∧ (below n st ∧ ready st0 rs accs st)).
  { apply triple_uuid. intros n st (Hb & Hg). destruct Hb as (H0 & Ha & He).
    split; [done|]. split; [|done]. eapply below_le; [by split_and!|lia]. }
  intros txID. apply triple_pure. intros Htx.
  destruct (Z.of_nat (length (mk txID accs)) <? 2) eqn:Hlen.
  { apply triple_ret. intros n st [Hb Hr]. split; [done|]. exists txID, accs, st.
    by rewrite Hlen. }
  intros s st Hnow Hat (Hb & Hr).
  pose proof (post_spec now st (mk txID accs) s st Hnow Hat) as H.
  destruct (post _ s) as [s' [[]|e]]; (destruct H as [Hfr H];
    [split_and!; [done|done|]; eapply Forall_impl; [apply Hid|];
     intros e' ->; destruct Hb; lia|]); (split; [done|]).
  - destruct H as (st' & Hat' & Hb' & Hp). exists st'. split; [done|]. split; [done|].
    exists txID, accs, st. by rewrite Hlen.
  - destruct H as [H HBe]. split.
    + destruct H as [(st' & Hat' & -> & Hb')|?]; [left; exists st|by right].
      split; [done|]. split; [done|]. apply Hr.
    + intros Hnf. right. exists txID, accs, (seed s), st. split_and!; auto.
Qed.

End posting.

(** On any handle: with a transaction of the service's own a failure leaves
    the tables as they were; otherwise it may leave accounts behind. *)
Definition handle_mode (tx : bool) : Mode := if tx then InTx else OnDb.

Lemma on_handle_triple tx has_db now st0 rs mk (body : LedgerPort → M unit) :
  (∀ P : LedgerPort, body P = posting rs mk) → Forall valid_req rs → no_ids mk →
  triple (handle_mode tx) now (λ n st, st = st0 ∧ below n st) (on_handle tx has_db body)
    (λ _ n st, below n st ∧ posting_done now st0 rs mk st)
    (λ n st, below n st ∧ if has_db && negb tx then st = st0 else grown st0 st)
    (posting_error now st0 rs mk).
Proof.
  intros Hbody Hv Hid. unfold on_handle. destruct tx; simpl; [|destruct has_db; simpl].
  - rewrite Hbody, andb_false_r. by apply (posting_triple InTx).
  - rewrite Hbody. eapply triple_withTx; [by apply (posting_triple InTx)|].
    intros n n' st [-> ?] ?. split; [by eapply below_le|done].
  - rewrite Hbody. by apply (posting_triple OnDb).
Qed.

(** *** The four postings *)

Definition req_user (v u : Z) := mkReq AccountTypeUserVaultPosition (Some v) (Some u) None.
Definition req_pool (v : Z) := mkReq AccountTypeVaultAssetPool (Some v) None None.
Definition req_suspense := mkReq AccountTypeSystemSuspense None None None.
Definition req_fee := mkReq AccountTypeFee None None None.
Definition req_yield (n : string) := mkReq AccountTypeYieldSource None None (Some n).

Definition legs (txID : Z) (accs : list Account) (amounts : list Z) (ty ev : string) : list Entry :=
  zip_with (λ a x, mk_leg txID a x ty ev) accs amounts.

Lemma legs_no_ids amounts ty ev : no_ids (λ txID accs, legs txID accs amounts ty ev).
Proof.
  intros txID accs. unfold legs. revert amounts.
  induction accs as [|a accs IH]; intros [|x amounts]; constructor; [done|apply IH].
Qed.

(** The amounts of each posting, in the order its accounts are resolved. *)
Definition deposit_rs v u := [req_user v u; req_pool v; req_suspense].
Definition deposit_amounts s : list Z := [s; s; i64 (-2 * s)].
Definition deposit_mk s ev txID accs := legs txID accs (deposit_amounts s) "deposit" ev.

Definition withdrawal_amounts s : list Z := [i64 (- s); i64 (- s); i64 (2 * s)].
Definition withdrawal_mk s ev txID accs := legs txID accs (withdrawal_amounts s) "withdraw" ev.

Definition harvest_rs v u ad :=
  [req_pool v; req_user v u; req_fee; req_yield ad; req_suspense].
Definition harvest_amounts net fee gross : list Z :=
  [net; net; fee; i64 (- gross); i64 (- net)].
Definition harvest_mk net fee gross ev txID accs :=
  filter (λ e, nonzero e = true) (legs txID accs (harvest_amounts net fee gross) "harvest" ev).

Definition rebalance_rs a b := [req_yield a; req_yield b].
Definition rebalance_amounts s : list Z := [i64 (- s); s].
Definition rebalance_mk s ev txID accs := legs txID accs (rebalance_amounts s) "rebalance" ev.

Lemma postDeposit_shape (P : LedgerPort) v u s ev :
  postDeposit v u s ev = posting (deposit_rs v u) (deposit_mk s ev).
Proof. reflexivity. Qed.

Lemma postWithdrawal_shape (P : LedgerPort) v u s ev :
  postWithdrawal v u s ev = posting (deposit_rs v u) (withdrawal_mk s ev).
Proof. reflexivity. Qed.

Lemma postHarvest_shape (P : LedgerPort) v u n f g ad ev :
  postHarvest v u n f g ad ev = posting (harvest_rs v u ad) (harvest_mk n f g ev).
Proof. reflexivity. Qed.

Lemma postRebalance_shape (P : LedgerPort) a b s ev :
  postRebalance a b s ev = posting (rebalance_rs a b) (rebalance_mk s ev).
Proof. reflexivity. Qed.

Lemma requests_valid v u ad a b :
  Forall valid_req (deposit_rs v u) ∧ Forall valid_req (harvest_rs v u ad) ∧
  Forall valid_req (rebalance_rs a b).
Proof. unfold valid_req. split_and!; repeat constructor; set_solver. Qed.

Lemma mk_no_ids s n f g ev :
  no_ids (deposit_mk s ev) ∧ no_ids (withdrawal_mk s ev) ∧ no_ids (harvest_mk n f g ev) ∧
  no_ids (rebalance_mk s ev).
Proof.
  split_and!; try apply legs_no_ids. intros txID accs. apply Forall_forall.
  intros e [_ He]%list_elem_of_filter. revert e He. apply Forall_forall, legs_no_ids.
Qed.

(** *** The books *)

Definition Books (st : Store) : Prop := Core st ∧ Balanced st.

Lemma grown_books st0 st : grown st0 st → Books st0 → Books st.
Proof.
  intros Hg [HC HB]. pose proof (grown_facts _ _ Hg) as (He & _ & _ & _ & _ & _ & Hs).
  split; [by apply Hs|]. intros tx. rewrite He. apply HB.
Qed.

Lemma grown_positions st0 st :
  grown st0 st → Core st0 → PositionsArePool st0 → PositionsArePool st.
Proof.
  intros Hg HC HP v. pose proof (grown_facts _ _ Hg) as (_ & _ & _ & _ & _ & _ & Hs).
  destruct (Hs HC) as [_ Hsum]. by rewrite !Hsum.
Qed.

Lemma posted_facts now st0 es st :
  Core st0 → Forall (λ e, in_i64 (Amount e)) es → posted now st0 es st →
  Core st ∧ same_frame st0 st ∧ ValidateBalanced es = None ∧
  ∃ rows, Forall2 (row_of now) es rows ∧ Forall2 completes es rows ∧
    entries st = entries st0 ++ rows ∧
    ∀ p, sum_over p st = sum_over p st0 + sum_Z (map (leg p (accounts st0)) es).
Proof.
  intros HC Hr (Hv & rows & Hrows & Happ). pose proof (rows_complete _ _ _ Hrows) as Hc.
  assert (Forall (λ e, in_i64 (Amount e)) rows) as Hr'.
  { clear - Hc Hr. induction Hc as [|e r es rows (_&_&Ha&_)]; [constructor|].
    apply Forall_cons in Hr as [? ?]. constructor; [by rewrite Ha|auto]. }
  destruct (apply_rows_ok _ _ _ _ HC Hr' Happ) as (HC' & Hf & He & _).
  split_and!; try done. exists rows. split_and!; try done. intros p.
  destruct Hf as (_ & _ & Ha & _). rewrite (sum_over_rows p st0 st rows) by done. f_equal. f_equal.
  clear - Hc. induction Hc as [|e r es rows (_&Hid&Ham&_)]; [done|].
  simpl. f_equal; [|done]. unfold leg. by rewrite Hid, Ham.
Qed.

Lemma posted_books now st0 es st :
  Books st0 → Forall (λ e, in_i64 (Amount e)) es → posted now st0 es st → Books st.
Proof.
  intros [HC HB] Hr Hp. destruct (posted_facts _ _ _ _ HC Hr Hp)
    as (HC' & _ & Hv & rows & _ & Hc & He & _). split; [done|]. by eapply balanced_post.
Qed.

(** What falls on the accounts of [p], by the accounts the legs were resolved to. *)
Lemma legs_on p txID l accs amounts ty ev :
  NoDup (map AccID l) → Forall (λ a, a ∈ l) accs →
  sum_Z (map (leg p l) (legs txID accs amounts ty ev)) =
  sum_Z (zip_with (λ a x, if p a then x else 0) accs amounts).
Proof.
  intros Hnd. revert amounts. induction accs as [|a accs IH]; intros amounts Hin; [done|].
  apply Forall_cons in Hin as [Ha Hin]. destruct amounts as [|x amounts]; [done|].
  simpl. f_equal; [by apply leg_of|by apply IH].
Qed.

Lemma legs_nonzero p l es :
  sum_Z (map (leg p l) (filter (λ e, nonzero e = true) es)) = sum_Z (map (leg p l) es).
Proof.
  induction es as [|e es IH]; [done|]. rewrite filter_cons.
  destruct (nonzero e) eqn:Hn; [rewrite decide_True by done; simpl; by f_equal|].
  rewrite decide_False by congruence. rewrite IH. simpl. unfold nonzero in Hn.
  apply negb_false_iff, Z.eqb_eq in Hn. unfold leg at 2. rewrite Hn. by destruct (existsb _ _).
Qed.

(** Which accounts are positions, and which are the pool, of a vault. *)
Definition position_of (v : Z) (r : Req) : bool :=
  (rty r =s? AccountTypeUserVaultPosition) && bool_decide (rv r = Some v).
Definition pool_of (v : Z) (r : Req) : bool :=
  (rty r =s? AccountTypeVaultAssetPool) && bool_decide (rv r = Some v).

Lemma account_key_type a k : account_key a = Some k → AccountType a = k.1.1.1.1.
Proof. unfold account_key. intros. repeat (case_match; simplify_eq); done. Qed.

Lemma req_key_type r k : req_key r = Ok k → rty r = k.1.1.1.1.
Proof. unfold req_key, select_key. intros. repeat (case_match; simplify_eq); done. Qed.

Lemma resolved_kind v r a k :
  valid_req r → req_key r = Ok k → account_key a = Some k →
  is_position v a = position_of v r ∧ is_pool v a = pool_of v r.
Proof.
  intros Hv Hr Ha. unfold is_position, is_pool, has_key, position_of, pool_of.
  pose proof (account_key_type _ _ Ha) as Ht. pose proof (req_key_type _ _ Hr) as Ht'.
  rewrite Ht, <- Ht', Ha.
  destruct (rty r =s? AccountTypeUserVaultPosition) eqn:E1.
  { apply string_eqb_eq in E1. rewrite E1 in *.
    unfold req_key, select_key in Hr. rewrite E1 in Hr. simpl in Hr.
    destruct (rv r) as [v'|] eqn:Ev, (ru r) as [u|]; simplify_eq.
    unfold account_key in Ha. rewrite Ht in Ha. simpl in Ha.
    destruct (VaultID a), (UserID a); simplify_eq. by simpl. }
  simpl. split; [done|]. destruct (rty r =s? AccountTypeVaultAssetPool) eqn:E2.
  { apply string_eqb_eq in E2. unfold req_key, select_key in Hr. rewrite E2 in Hr. simpl in Hr.
    destruct (rv r) as [v'|] eqn:Ev; simplify_eq. simpl. apply bool_decide_ext. naive_solver. }
  simpl. apply bool_decide_eq_false. intros [= ->]. simpl in Ht'. by rewrite Ht' in E2.
Qed.

Definition share (f : Req → bool) (rs : list Req) (amounts : list Z) : Z :=
  sum_Z (zip_with (λ r x, if f r then x else 0) rs amounts).

(** A posting that moves the positions of every vault as it moves its pool. *)
Definition neutral (rs : list Req) (amounts : list Z) : Prop :=
  ∀ v, share (position_of v) rs amounts = share (pool_of v) rs amounts.

Lemma legs_share v st0 st1 rs accs txID amounts ty ev :
  Core st1 → Forall valid_req rs → ready st0 rs accs st1 →
  sum_Z (map (leg (is_position v) (accounts st1)) (legs txID accs amounts ty ev)) =
    share (position_of v) rs amounts ∧
  sum_Z (map (leg (is_pool v) (accounts st1)) (legs txID accs amounts ty ev)) =
    share (pool_of v) rs amounts.
Proof.
  intros HC Hv [_ Hf].
  assert (Forall (λ a, a ∈ accounts st1) accs) as Hin.
  { clear - Hf. induction Hf as [|r a rs accs (k & _ & _ & Ha)]; by constructor. }
  rewrite !legs_on by (done || apply (core_ids _ HC)). unfold share. clear Hin.
  revert amounts. induction Hf as [|r a rs accs (k & Hr & Ha & _) Hf IH]; intros amounts; [done|].
  apply Forall_cons in Hv as [Hv1 Hv]. destruct amounts as [|x amounts]; [done|]. simpl.
  destruct (IH Hv amounts) as [-> ->].
  by destruct (resolved_kind v r a k Hv1 Hr Ha) as [-> ->].
Qed.

(** [mk] posts the non-zero [amounts] to the accounts of its requests. *)
Definition posts (mk : Z → list Account → list Entry) (amounts : list Z) (ty ev : string) : Prop :=
  (∀ txID accs, mk txID accs = legs txID accs amounts ty ev) ∨
  (∀ txID accs, mk txID accs = filter (λ e, nonzero e = true) (legs txID accs amounts ty ev)).

Lemma posts_range mk amounts ty ev txID accs :
  posts mk amounts ty ev → Forall in_i64 amounts →
  Forall (λ e, in_i64 (Amount e)) (mk txID accs).
Proof.
  intros Hp Hr.
  assert (Forall (λ e, in_i64 (Amount e)) (legs txID accs amounts ty ev)) as Hl.
  { clear - Hr. unfold legs. revert accs. induction Hr as [|x amounts Hx _ IH]; intros [|a accs];
      constructor; [done|apply IH]. }
  destruct Hp as [->| ->]; [done|]. apply Forall_forall. intros e [_ He]%list_elem_of_filter.
  revert e He. by apply Forall_forall.
Qed.

Lemma posting_done_keeps now st0 rs mk amounts ty ev st :
  Forall valid_req rs → posts mk amounts ty ev → Forall in_i64 amounts →
  Books st0 → posting_done now st0 rs mk st →
  Books st ∧ (neutral rs amounts → PositionsArePool st0 → PositionsArePool st).
Proof.
  intros Hv Hp Hr HB (txID & accs & st1 & _ & Hrd & H).
  assert (grown st0 st1) as Hg by apply Hrd. pose proof (grown_books _ _ Hg HB) as HB1.
  pose proof (grown_positions _ _ Hg (proj1 HB)) as HP1. destruct (_ <? 2); [by subst|].
  assert (Forall (λ e, in_i64 (Amount e)) (mk txID accs)) as Hr' by by eapply posts_range.
  split; [by eapply posted_books|]. intros Hn HP v.
  destruct (posted_facts _ _ _ _ (proj1 HB1) Hr' H) as (_ & _ & _ & rows & _ & _ & _ & Hs).
  rewrite !Hs, (HP1 HP). f_equal.
  assert (∀ p, sum_Z (map (leg p (accounts st1)) (mk txID accs)) =
    sum_Z (map (leg p (accounts st1)) (legs txID accs amounts ty ev))) as Heq.
  { intros p. destruct Hp as [->| ->]; [done|]. apply legs_nonzero. }
  rewrite !Heq. destruct (legs_share v st0 st1 rs accs txID amounts ty ev (proj1 HB1) Hv Hrd)
    as [-> ->]. apply Hn.
Qed.

Lemma four_neutral v u ad a b s n f g :
  neutral (deposit_rs v u) (deposit_amounts s) ∧
  neutral (deposit_rs v u) (withdrawal_amounts s) ∧
  neutral (harvest_rs v u ad) (harvest_amounts n f g) ∧
  neutral (rebalance_rs a b) (rebalance_amounts s).
Proof.
  split_and!; intros w; unfold share, position_of, pool_of; simpl;
    repeat case_bool_decide; lia.
Qed.

(** *** Histories of the ledger *)

Section histories.
  Context `{DecimalLaws}.

Lemma stroops_range d : in_i64 (decimalToStroops d).
Proof. unfold decimalToStroops. rewrite IntPart_value. apply i64_range. Qed.

(** A call of the posting service. *)
Inductive call :=
| CDeposit (v u : Z) (amount : decimal) (ev : string)
| CWithdrawal (v u : Z) (amount : decimal) (ev : string)
| CHarvest (v u : Z) (net fee gross : decimal) (adapter ev : string)
| CRebalance (v : Z) (a b : string) (amount : decimal) (ev : string).

Definition run (tx has_db : bool) (c : call) : M unit :=
  match c with
  | CDeposit v u amount ev => PostDeposit tx has_db v u amount ev
  | CWithdrawal v u amount ev => PostWithdrawal tx has_db v u amount ev
  | CHarvest v u net fee gross ad ev => PostHarvest tx has_db v u net fee gross ad ev
  | CRebalance v a b amount ev => PostRebalance tx has_db v a b amount ev
  end.

Definition call_rs (c : call) : list Req :=
  match c with
  | CDeposit v u _ _ | CWithdrawal v u _ _ => deposit_rs v u
  | CHarvest v u _ _ _ ad _ => harvest_rs v u ad
  | CRebalance _ a b _ _ => rebalance_rs a b
  end.

Definition call_amounts (c : call) : list Z :=
  match c with
  | CDeposit _ _ d _ => deposit_amounts (decimalToStroops d)
  | CWithdrawal _ _ d _ => withdrawal_amounts (decimalToStroops d)
  | CHarvest _ _ n f g _ _ =>
      harvest_amounts (decimalToStroops n) (decimalToStroops f) (decimalToStroops g)
  | CRebalance _ _ _ d _ => rebalance_amounts (decimalToStroops d)
  end.

Definition call_event (c : call) : string * string :=
  match c with
  | CDeposit _ _ _ ev => ("deposit", ev)
  | CWithdrawal _ _ _ ev => ("withdraw", ev)
  | CHarvest _ _ _ _ _ _ ev => ("harvest", ev)
  | CRebalance _ _ _ _ ev => ("rebalance", ev)
  end.

Definition call_mk (c : call) : Z → list Account → list Entry :=
  match c with
  | CDeposit _ _ d ev => deposit_mk (decimalToStroops d) ev
  | CWithdrawal _ _ d ev => withdrawal_mk (decimalToStroops d) ev
  | CHarvest _ _ n f g _ ev =>
      harvest_mk (decimalToStroops n) (decimalToStroops f) (decimalToStroops g) ev
  | CRebalance _ _ _ d ev => rebalance_mk (decimalToStroops d) ev
  end.

(** The guards a call fails before it touches the ledger. *)
Definition call_guard (c : call) : option LedgerError :=
  match c with
  | CDeposit _ _ d _ | CWithdrawal _ _ d _ =>
      if decimalToStroops d <=? 0 then Some ErrNotPositive else None
  | CHarvest _ _ _ _ _ _ _ => None
  | CRebalance _ a b d _ =>
      if decimalToStroops d <=? 0 then Some ErrNotPositive
      else if a =s? b then Some ErrSameAdapter else None
  end.

Lemma call_facts c :
  Forall valid_req (call_rs c) ∧ no_ids (call_mk c) ∧ Forall in_i64 (call_amounts c) ∧
  posts (call_mk c) (call_amounts c) (call_event c).1 (call_event c).2 ∧
  neutral (call_rs c) (call_amounts c).
Proof.
  assert (Forall in_i64 (call_amounts c)) as Hr.
  { destruct c; repeat (apply Forall_cons; split; [apply stroops_range || apply i64_range|]);
      by apply Forall_nil. }
  split_and!; try done.
  - destruct c as [v u ? ?|v u ? ?|v u ? ? ? ad ?|v a b ? ?];
      [apply (requests_valid v u "" "" "")|apply (requests_valid v u "" "" "")
      |apply (requests_valid v u ad "" "")|apply (requests_valid 0 0 "" a b)].
  - destruct c as [? ? d ev|? ? d ev|? ? n f g ? ev|? ? ? d ev];
      [apply (mk_no_ids _ 0 0 0 ev)|apply (mk_no_ids _ 0 0 0 ev)
      |apply (mk_no_ids 0 _ _ _ ev)|apply (mk_no_ids _ 0 0 0 ev)].
  - destruct c; [by left|by left|by right|by left].
  - destruct c as [v u ? ?|v u ? ?|v u ? ? ? ad ?|v a b ? ?];
      [apply (four_neutral v u "" "" "" _ 0 0 0)|apply (four_neutral v u "" "" "" _ 0 0 0)
      |apply (four_neutral v u ad "" "" 0)|apply (four_neutral 0 0 "" a b _ 0 0 0)].
Qed.

Lemma run_shape tx has_db c :
  run tx has_db c =
    match call_guard c with
    | Some e => throw e
    | None => on_handle tx has_db (λ P, posting (call_rs c) (call_mk c))
    end.
Proof.
  destruct c as [v u d ev|v u d ev|v u n f g ad ev|v a b d ev]; simpl;
    unfold PostDeposit, PostWithdrawal, PostHarvest, PostRebalance; cbv zeta;
    try destruct (_ <=? 0); try destruct (_ =s? _); reflexivity.
Qed.

(** The contract of every call, on every handle. *)
Lemma run_triple tx has_db c now st0 :
  triple (handle_mode tx) now (λ n st, st = st0 ∧ below n st) (run tx has_db c)
    (λ _ n st, call_guard c = None ∧ below n st ∧ posting_done now st0 (call_rs c) (call_mk c) st)
    (λ n st, below n st ∧ if has_db && negb tx then st = st0 else grown st0 st)
    (λ e, call_guard c = Some e ∨
          (call_guard c = None ∧ posting_error now st0 (call_rs c) (call_mk c) e)).
Proof.
  rewrite run_shape. destruct (call_guard c) as [e|].
  - apply triple_throw. intros n st [-> Hb]. split; [|by left]. split; [done|].
    destruct (_ && _); [done|apply rtc_refl].
  - destruct (call_facts c) as (Hv & Hid & _).
    intros s st Hnow Hat HP. pose proof (on_handle_triple tx has_db now st0 _ _
      (λ P, posting (call_rs c) (call_mk c)) (λ _, eq_refl) Hv Hid s st Hnow Hat HP) as Ht.
    destruct (on_handle _ _ _ s) as [s' [a|e]]; naive_solver.
Qed.

End histories.

End LedgerService.
