(* ===== verification/LedgerBooks.v ===== *)
(** What holds of the ledger over its whole life: histories of service calls,
    raw postings, transactions that commit or roll back, and lost connections,
    and the theorems about the books, the balances and repeated requests. *)
From S2P Require Import Prelude Decimals Ledger LedgerRepo LedgerService.
Open Scope Z_scope.

Module LedgerBooks.
Import Decimals Ledger LedgerRepo LedgerService.

Section histories.
  Context `{DecimalLaws}.

(** *** Histories *)

(** Entries a caller of the repository may post: amounts are [int64], ids are
    nil or were drawn before. *)
Definition raw_entries (s : Session) (es : list Entry) : Prop :=
  Forall (λ e, in_i64 (Amount e) ∧ EntID e < seed s) es.

Definition raw_account (s : Session) (a : Account) : Prop := 0 ≤ AccID a < seed s.

(** One step; [raw] says whether the repository's own operations are used
    besides the service. The caller's transaction is open exactly when the call
    is given one. *)
Inductive step (raw : bool) : Session → Session → Prop :=
| step_call (tx has_db : bool) (c : call) (s : Session) :
    (if tx then txn s ≠ None else txn s = None) →
    step raw s (fst (run tx has_db c s))
| step_post (es : list Entry) (s : Session) :
    raw = true → raw_entries s es → txn s = None → step raw s (fst (PostEntries es s))
| step_post_tx (es : list Entry) (s : Session) :
    raw = true → raw_entries s es → txn s ≠ None → step raw s (fst (PostEntriesTx es s))
| step_create a s :
    raw_account s a → txn s = None → step raw s (fst (CreateAccount a s))
| step_begin s : txn s = None → step raw s (fst (BeginTx s))
| step_commit s : txn s ≠ None → step raw s (fst (Commit s))
| step_rollback s : step raw s (Rollback s)
| step_outside s vs us rs fs t :
    txn s = None →
    step raw s (mkSession (mkStore vs us (accounts (store s)) (entries (store s))
                             (balances (store s)) rs) None (seed s) fs t).

Definition empty_store (vs us : list Z) : Store := mkStore vs us [] [] ∅ [].
Definition start (vs us : list Z) : Session := mkSession (empty_store vs us) None 1 [] 0.

Inductive reach (raw : bool) : Session → Prop :=
| reach_start vs us : reach raw (start vs us)
| reach_step s s' : reach raw s → step raw s s' → reach raw s'.

(** *** Their invariant *)

Definition Inv (raw : bool) : Assert := λ n st,
  below n st ∧ Books st ∧ (raw = false → PositionsArePool st).

Definition SInv (raw : bool) (s : Session) : Prop :=
  Inv raw (seed s) (store s) ∧
  ∀ t, txn s = Some t → aborted t = false → Inv raw (seed s) (work t).

Lemma Inv_le raw n n' st : Inv raw n st → n ≤ n' → Inv raw n' st.
Proof. intros (Hb & HB & HP) Hle. split; [by eapply below_le|done]. Qed.

(** A program that keeps the invariant of the tables in view, in every mode
    and from every state of the transaction, keeps that of the session. *)
Lemma triple_keeps raw {A} (md : Mode) (m : M A) s :
  (md = InTx → stays_broken m) →
  (md = InTx → txn s ≠ None) → (md = OnDb → txn s = None) →
  (∀ now st0, triple md now (λ n st, st = st0 ∧ Inv raw n st ∧ n = seed s) m
     (λ _, Inv raw) (Inv raw) (λ _, True)) →
  SInv raw s → SInv raw (fst (m s)).
Proof.
  intros Hsb Hin Hdb Hm [Hst Htx]. destruct md.
  - destruct (txn s) as [t|] eqn:Ht; [|by destruct (Hin eq_refl)].
    destruct (aborted t) eqn:Ha.
    + destruct (Hsb eq_refl s t Ht Ha) as (H1 & H2 & t' & Ht' & Ha'). split.
      * rewrite H1. by eapply Inv_le.
      * intros t2 Ht2 Ha2. congruence.
    + specialize (Hm (clock s) (work t) s (work t) eq_refl). simpl in Hm.
      rewrite Ht in Hm. destruct t as [st ab]. simpl in *. subst ab.
      specialize (Hm eq_refl (conj eq_refl (conj (Htx _ eq_refl eq_refl) eq_refl))).
      destruct (m s) as [s' r]. destruct Hm as ((Hle & _ & _ & Hs) & Hr). simpl. split.
      * rewrite Hs. by eapply Inv_le.
      * intros t2 Ht2 Ha2. destruct r as [a|e].
        -- destruct Hr as (st' & Hat & HI). simpl in Hat. rewrite Ht2 in Hat. by simplify_eq.
        -- destruct Hr as [[(st' & Hat & HI)|[st' Hbr]] _];
             [simpl in Hat; rewrite Ht2 in Hat|rewrite Ht2 in Hbr]; by simplify_eq.
  - specialize (Hdb eq_refl). specialize (Hm (clock s) (store s) s (store s) eq_refl
      (conj Hdb eq_refl) (conj eq_refl (conj Hst eq_refl))).
    destruct (m s) as [s' r]. destruct Hm as (_ & Hr). simpl.
    assert (∃ st', at_mode OnDb s' st' ∧ Inv raw (seed s') st') as (st' & [Hn Hs] & HI)
      by (destruct r as [a|e]; [done|by destruct Hr as [[?|[]] _]]).
    split; [by rewrite Hs|]. intros t Ht. congruence.
Qed.

Lemma stays_broken_resolve (rs : list Req) (accs : list Account) (k : list Account → M unit) :
  (∀ accs : list Account, stays_broken (k accs : M unit)) → stays_broken (@resolve_all TxPort rs accs k).
Proof.
  intros Hk. revert accs. induction rs as [|r rs IH]; intros accs; simpl; [done|].
  apply stays_broken_bind; [apply stays_broken_getOrCreate|done].
Qed.

Lemma stays_broken_run has_db (c : call) : stays_broken (run true has_db c).
Proof.
  rewrite run_shape. destruct (call_guard c); [apply stays_broken_pure|]. simpl.
  apply stays_broken_resolve. intros accs. apply stays_broken_bind; [apply stays_broken_uuid|].
  intros txID. destruct (_ <? 2); [apply stays_broken_pure|apply stays_broken_post].
Qed.

Lemma call_keeps raw (tx has_db : bool) (c : call) s :
  (if tx then txn s ≠ None else txn s = None) → SInv raw s → SInv raw (fst (run tx has_db c s)).
Proof.
  intros Htx. apply (triple_keeps raw (handle_mode tx)).
  - destruct tx; [intros _; apply stays_broken_run|done].
  - by destruct tx.
  - by destruct tx.
  - intros now st0 s1 st Hnow Hat (-> & (Hb & HB & HP) & _).
    pose proof (run_triple tx has_db c now st0 s1 st0 Hnow Hat (conj eq_refl Hb)) as Ht.
    destruct (run tx has_db c s1) as [s' [a|e]]; destruct Ht as [Hf Ht]; (split; [done|]).
    + destruct Ht as (st' & Hat' & _ & Hb' & Hd). exists st'. split; [done|].
      destruct (call_facts c) as (Hv & Hid & Hr & Hp & Hn).
      destruct (posting_done_keeps _ _ _ _ _ _ _ _ Hv Hp Hr HB Hd) as [HB' HP'].
      split_and!; auto.
    + destruct Ht as [Ht _]. split; [|done]. destruct Ht as [(st' & Hat' & Hb' & Hg)|?]; [left|by right].
      exists st'. split; [done|]. destruct (has_db && negb tx); [subst|]; [done|].
      split; [done|]. split; [by eapply grown_books|].
      intros Hraw. eapply grown_positions; [done|apply HB|auto].
Qed.

(** Raw postings keep the books, not the positions. *)
Lemma post_keeps `{P : LedgerPort} md `{!LedgerPortLaws md} es s :
  (md = InTx → stays_broken (post es)) → (md = InTx → txn s ≠ None) →
  (md = OnDb → txn s = None) → raw_entries s es →
  SInv true s → SInv true (fst (post es s)).
Proof.
  intros Hsb Hin Hdb Hraw. apply (triple_keeps true md); [done..|].
  intros now st0 s1 st Hnow Hat (-> & (Hb & HB & _) & Hseed).
  assert (Forall (λ e, EntID e < seed s1) es) as Hids.
  { rewrite Hseed. eapply Forall_impl; [exact Hraw|]. simpl. tauto. }
  pose proof (post_spec now st0 es s1 st0 Hnow Hat (conj eq_refl (conj Hb Hids))) as Ht.
  destruct (post es s1) as [s' [a|e]]; destruct Ht as [Hf Ht]; (split; [done|]).
  - destruct Ht as (st' & Hat' & Hb' & Hp). exists st'. split; [done|]. split; [done|].
    split; [|done]. eapply posted_books; [done| |done].
    eapply Forall_impl; [exact Hraw|]. simpl. tauto.
  - destruct Ht as [Ht _]. split; [|done].
    destruct Ht as [(st' & Hat' & -> & Hb')|?]; [left; exists st0; done|by right].
Qed.

Lemma insert_Inv raw a n st st' ins :
  insert_account a st = Ok (st', ins) → 0 < AccID a < n → Inv raw n st → Inv raw n st'.
Proof.
  intros Hi Hid ((Hn & Ha & He) & [HC HB] & HP).
  pose proof (insert_account_core _ _ _ _ Hi HC) as HC'.
  pose proof (λ p, insert_account_sum _ _ _ _ p Hi HC) as Hs.
  apply insert_account_ok in Hi as [[_ ->]|(_ & -> & _)]; [done|].
  split; [split; [done|]; split|split; [split|]]; simpl; try done.
  - intros x Hx. apply elem_of_app in Hx as [Hx|Hx]; [auto|].
    by apply list_elem_of_singleton in Hx as ->.
  - intros Hraw v. rewrite !Hs. by apply HP.
Qed.

Lemma create_keeps raw a s :
  raw_account s a → txn s = None → SInv raw s → SInv raw (fst (CreateAccount a s)).
Proof.
  intros Ha Htx. apply (triple_keeps raw OnDb); [done|done|done|].
  intros now st0. unfold CreateAccount, ValidateAccountType.
  case_bool_decide as Hty; [|apply (triple_bind _ _ _ _ _ (λ _ _ _, False));
    [by apply triple_throw; intros n st (-> & HI & _)|intros ? s1 st _ _ []]].
  apply (triple_bind _ _ _ _ _ (λ _ n st, st = st0 ∧ Inv raw n st ∧ n = seed s));
    [by apply triple_ret|intros _].
  apply (triple_bind _ _ _ _ _ (λ id n st, 0 < id ∧ (id < n ∧ Inv raw n st))).
  { unfold raw_account in Ha. destruct (Z.eqb_spec (AccID a) 0) as [Hz|Hz].
    - apply triple_uuid. intros n st (-> & HI & ->). pose proof HI as ((? & _) & _).
      split; [lia|]. split; [lia|]. eapply Inv_le; [done|lia].
    - apply triple_ret. intros n st (-> & HI & ->). split; [lia|]. split; [lia|done]. }
  intros id. apply triple_pure. intros Hid. cbv zeta.
  apply (triple_bind _ _ _ _ _ (λ _, Inv raw)).
  { apply triple_exec_db. intros n st (Hlt & HI). split; [done|].
    match goal with |- context [insert_account ?r st] =>
      destruct (insert_account r st) as [[st' ins]|e] eqn:Hi end; simpl; [|done].
    eapply insert_Inv; [done|simpl; lia|done]. }
  intros [[] acc]; [by apply triple_ret|].
  intros s1 st Hnow Hat (Hb & HB & HP).
  destruct (select_key (AccountType a) (VaultID a) (UserID a) (AdapterName a)
    (default_asset (default_asset (AccAssetCode a)))) as [k|e] eqn:Hk.
  - pose proof (getAccount_spec (H := DirectPort) now st _ _ _ _ _ _ Hk Hty s1 st Hnow Hat
      (conj eq_refl Hb)) as Ht. simpl in Ht.
    destruct (GetOrCreateAccount _ _ _ _ _ s1) as [s' [x|e]]; destruct Ht as [Hf Ht]; (split; [done|]).
    + destruct Ht as (st' & Hat' & Hb' & _ & _ & Hst). exists st'. split; [done|]. split; [done|].
      assert (grown st st') as Hg.
      { destruct Hst as [->|Hi]; [apply rtc_refl|apply rtc_once; by exists x]. }
      split; [by eapply grown_books|]. intros Hr. eapply grown_positions; [done|apply HB|auto].
    + destruct Ht as [[(st' & Hat' & -> & Hb')|[]] _]. split; [|done]. left. by exists st.
  - pose proof (getAccount_invalid (H := DirectPort) now st _ _ _ _ _ _ Hk Hty s1 st Hnow Hat
      (conj eq_refl Hb)) as Ht. simpl in Ht.
    destruct (GetOrCreateAccount _ _ _ _ _ s1) as [s' [x|e']]; destruct Ht as [Hf Ht]; (split; [done|]).
    + by destruct Ht as (? & _ & []).
    + destruct Ht as [[(st' & Hat' & -> & Hb')|[]] _]. split; [|done]. left. by exists st.
Qed.

Lemma reach_inv raw s : reach raw s → SInv raw s.
Proof.
  induction 1 as [vs us|s s' _ IH Hst].
  { split; [|done]. split; [split_and!; [simpl; lia| |]; by intros x ?%elem_of_nil|].
    split; [|done]. split; [|done].
    constructor; simpl; [by apply NoDup_nil|by apply NoDup_nil|by intros e ?%elem_of_nil|done|done|].
    split; [by intros e ?%elem_of_nil|done]. }
  destruct Hst as [tx has_db c s Htx|es s -> Hr Htx|es s -> Hr Htx|a s Ha Htx|s Htx|s Htx|s
    |s vs us rs fs t Htx].
  - by apply call_keeps.
  - by apply (post_keeps (P := DirectPort) OnDb).
  - by apply (post_keeps (P := TxPort) InTx); [intros _; apply stays_broken_post|..].
  - by apply create_keeps.
  - unfold BeginTx, round_trip. destruct IH as [Hst Hw].
    destruct (faults s) as [|[|] fs]; simpl; (split; [done|]); simpl; intros t Ht; simplify_eq; done.
  - destruct IH as [Hst Hw]. unfold Commit, round_trip. destruct (txn s) as [t|] eqn:Et; [|done].
    destruct (faults s) as [|[|] fs]; simpl;
      try (destruct (aborted t) eqn:Ea); simpl; split; simpl; try done; by apply Hw.
  - destruct IH as [Hst _]. by split.
  - destruct IH as [(Hb & [HC HB] & HP) _]. split; [|done]. split; [by destruct Hb|].
    split; [|done]. split; [|done]. by destruct HC.
Qed.

(** *** The theorems *)

(** C34: whatever is called, committed, rolled back or lost, the committed ledger stays
    consistent: recomputing the balances from the entries finds no mismatch, every
    transaction's entries and all entries together sum to a multiple of 2^64, and the
    books check passes exactly when the exact total fits an [int64]; beyond, it fails on
    reading the total. *)
Theorem books_stay_balanced raw s :
  reach raw s →
  let st := store s in
  VerifyBalances st = Ok [] ∧
  (∀ id, balance_of id st = sum_Z (amounts_of id st)) ∧
  (∀ tx, ∃ k, group_sum tx (entries st) = k * 2 ^ 64) ∧
  (∃ k, sum_Z (map Amount (entries st)) = k * 2 ^ 64) ∧
  ValidateBooks st =
    if bool_decide (in_i64 (sum_Z (map Amount (entries st)))) then Ok () else Err ErrScan.
Proof.
  intros [(_ & [HC HB] & _) _]%reach_inv st.
  assert (∀ tx, ∃ k, group_sum tx (entries st) = k * 2 ^ 64) as Hg
    by (intros tx; by apply i64_zero).
  pose proof (divide_total _ Hg) as [k Hk]. split_and!; try done.
  - by apply RecomputeBalances_core.
  - intros id. by apply balance_of_sum.
  - by exists k.
  - unfold ValidateBooks, SumAllEntries, scan_i64. case_bool_decide as Hr; [|done]. simpl.
    assert (sum_Z (map Amount (entries st)) = 0) as ->; [|done].
    unfold in_i64, min_i64, max_i64 in Hr. nia.
Qed.

(** C10: When only the service posts, the positions of a vault's users always
    add up to exactly the vault's pool, and the sum fits the column it is read
    into. *)
Theorem positions_equal_pool s v :
  reach false s →
  SumUserPositionBalances v (store s) = Ok (GetVaultPoolBalance v (store s)).
Proof. intros [(_ & [HC _] & HP) _]%reach_inv. apply positions_reads; [done|by apply HP]. Qed.

(** What a successful call adds to a user's position and to a pool. *)
Definition user_delta (c : call) (u v : Z) : Z :=
  match c with
  | CDeposit v' u' d _ => if (v' =? v) && (u' =? u) then decimalToStroops d else 0
  | CWithdrawal v' u' d _ => if (v' =? v) && (u' =? u) then - decimalToStroops d else 0
  | CHarvest v' u' net _ _ _ _ => if (v' =? v) && (u' =? u) then decimalToStroops net else 0
  | CRebalance _ _ _ _ _ => 0
  end.

Definition pool_delta (c : call) (v : Z) : Z :=
  match c with
  | CDeposit v' _ d _ => if v' =? v then decimalToStroops d else 0
  | CWithdrawal v' _ d _ => if v' =? v then - decimalToStroops d else 0
  | CHarvest v' _ net _ _ _ _ => if v' =? v then decimalToStroops net else 0
  | CRebalance _ _ _ _ _ => 0
  end.

Definition user_key (u v : Z) : key :=
  (AccountTypeUserVaultPosition, Some v, Some u, None, "USDC").
Definition pool_key (v : Z) : key := (AccountTypeVaultAssetPool, Some v, None, None, "USDC").

Definition on_key (k : key) (r : Req) : bool := bool_decide (req_key r = Ok k).

Lemma legs_on_key k st0 st1 rs accs txID amounts ty ev :
  Core st1 → ready st0 rs accs st1 →
  sum_Z (map (leg (has_key k) (accounts st1)) (legs txID accs amounts ty ev)) =
    share (on_key k) rs amounts.
Proof.
  intros HC [_ Hf].
  assert (Forall (λ a, a ∈ accounts st1) accs) as Hin.
  { clear - Hf. induction Hf as [|r a rs accs (k' & _ & _ & Ha)]; by constructor. }
  rewrite legs_on by (done || apply (core_ids _ HC)). unfold share. clear Hin.
  revert amounts. induction Hf as [|r a rs accs (k' & Hr & Ha & _) Hf IH]; intros amounts; [done|].
  destruct amounts as [|x amounts]; [done|]. simpl. rewrite IH. f_equal.
  unfold has_key, on_key. rewrite Hr, Ha.
  by rewrite (bool_decide_ext (Some k' = Some k) (@Ok LedgerError _ k' = Ok k)) by naive_solver.
Qed.

Lemma on_user_key u v v' u' ad :
  on_key (user_key u v) (req_user v' u') = (v' =? v) && (u' =? u) ∧
  on_key (user_key u v) (req_pool v') = false ∧ on_key (user_key u v) req_suspense = false ∧
  on_key (user_key u v) req_fee = false ∧ on_key (user_key u v) (req_yield ad) = false.
Proof.
  unfold on_key. split_and!; try (apply bool_decide_eq_false; by intros [=]).
  - unfold req_key, select_key, user_key. simpl.
    destruct (Z.eqb_spec v' v), (Z.eqb_spec u' u); simpl;
      (apply bool_decide_eq_true || apply bool_decide_eq_false); naive_solver.
  - apply bool_decide_eq_false. unfold req_key, select_key. simpl. case_match; by intros [=].
Qed.

Lemma on_pool_key v v' u' ad :
  on_key (pool_key v) (req_pool v') = (v' =? v) ∧
  on_key (pool_key v) (req_user v' u') = false ∧ on_key (pool_key v) req_suspense = false ∧
  on_key (pool_key v) req_fee = false ∧ on_key (pool_key v) (req_yield ad) = false.
Proof.
  unfold on_key. split_and!; try (apply bool_decide_eq_false; by intros [=]).
  - unfold req_key, select_key, pool_key. simpl. destruct (Z.eqb_spec v' v); simpl;
      (apply bool_decide_eq_true || apply bool_decide_eq_false); naive_solver.
  - apply bool_decide_eq_false. unfold req_key, select_key. simpl. case_match; by intros [=].
Qed.

Lemma neg_i64 d : 0 < d → in_i64 d → i64 (- d) = - d.
Proof. intros Hd Hr. apply i64_id. unfold in_i64, min_i64, max_i64 in *. lia. Qed.

Lemma call_shares (c : call) u v :
  call_guard c = None →
  share (on_key (user_key u v)) (call_rs c) (call_amounts c) = user_delta c u v ∧
  share (on_key (pool_key v)) (call_rs c) (call_amounts c) = pool_delta c v.
Proof.
  intros Hg. unfold share.
  destruct c as [v' u' d ev|v' u' d ev|v' u' n f g ad ev|v' a b d ev]; cbn in Hg |- *.
  - destruct (on_user_key u v v' u' "") as (-> & -> & -> & _).
    destruct (on_pool_key v v' u' "") as (-> & -> & -> & _). split; repeat case_match; lia.
  - apply guard_none in Hg as [Hg%Z.leb_gt _].
    destruct (on_user_key u v v' u' "") as (-> & -> & -> & _).
    destruct (on_pool_key v v' u' "") as (-> & -> & -> & _).
    rewrite neg_i64 by (done || apply stroops_range). split; repeat case_match; lia.
  - destruct (on_user_key u v v' u' ad) as (-> & -> & -> & -> & ->).
    destruct (on_pool_key v v' u' ad) as (-> & -> & -> & -> & ->). split; repeat case_match; lia.
  - destruct (on_user_key u v 0 0 a) as (_ & _ & _ & _ & ->).
    destruct (on_user_key u v 0 0 b) as (_ & _ & _ & _ & ->).
    destruct (on_pool_key v 0 0 a) as (_ & _ & _ & _ & ->).
    destruct (on_pool_key v 0 0 b) as (_ & _ & _ & _ & ->). split; lia.
Qed.

(** A harvest that posts nothing had nothing to add. *)
Lemma posting_small (c : call) txID accs u v :
  length accs = length (call_rs c) → Z.of_nat (length (call_mk c txID accs)) < 2 →
  user_delta c u v = 0 ∧ pool_delta c v = 0.
Proof.
  intros Hl Hlen.
  destruct c as [v' u' d ev|v' u' d ev|v' u' n f g ad ev|v' a b d ev]; simpl in Hl;
    destruct accs as [|a1 [|a2 accs]]; try done;
    try (destruct accs as [|a3 accs]; [done|]); try (simpl in Hlen; lia).
  destruct accs as [|a4 [|a5 [|]]]; try done. simpl in Hlen. unfold harvest_mk, harvest_amounts in Hlen.
  simpl in Hlen. rewrite !filter_cons in Hlen. unfold nonzero in Hlen. simpl in Hlen |- *.
  destruct (Z.eqb_spec (decimalToStroops n) 0) as [Hz|Hz].
  - rewrite Hz. split; repeat case_match; done.
  - exfalso. simpl in Hlen. repeat case_decide; simpl in Hlen; lia || done.
Qed.

(** What a posting does to the balance of any key. *)
Lemma posting_moves now st0 (c : call) k st :
  Books st0 → posting_done now st0 (call_rs c) (call_mk c) st →
  sum_over (has_key k) st = sum_over (has_key k) st0 + share (on_key k) (call_rs c) (call_amounts c) ∨
  (sum_over (has_key k) st = sum_over (has_key k) st0 ∧
   ∀ u v, user_delta c u v = 0 ∧ pool_delta c v = 0).
Proof.
  intros HB (txID & accs & st1 & _ & Hrd & Hp).
  destruct (call_facts c) as (Hv & Hid & Hr & Hposts & _).
  assert (grown st0 st1) as Hg by apply Hrd.
  pose proof (grown_facts _ _ Hg) as (_ & _ & _ & _ & _ & _ & Hs). destruct (Hs (proj1 HB)) as [HC1 Hsum].
  destruct (Z.ltb_spec (Z.of_nat (length (call_mk c txID accs))) 2) as [Hlt|Hge].
  - subst st. right. split; [apply Hsum|]. intros u v. eapply posting_small; [|done].
    destruct Hrd as [_ Hf]. symmetry. by eapply Forall2_length.
  - left. destruct (posted_facts _ _ _ _ HC1 (posts_range _ _ _ _ txID accs Hposts Hr) Hp)
      as (_ & _ & _ & rows & _ & _ & _ & Hmove).
    rewrite Hmove, Hsum. f_equal. rewrite <- (legs_on_key k st0 st1 (call_rs c) accs txID
      (call_amounts c) (call_event c).1 (call_event c).2) by done.
    destruct Hposts as [->| ->]; [done|]. apply legs_nonzero.
Qed.

Lemma posting_deltas now st0 (c : call) u v st :
  Books st0 → call_guard c = None → posting_done now st0 (call_rs c) (call_mk c) st →
  sum_over (has_key (user_key u v)) st =
    sum_over (has_key (user_key u v)) st0 + user_delta c u v ∧
  sum_over (has_key (pool_key v)) st = sum_over (has_key (pool_key v)) st0 + pool_delta c v.
Proof.
  intros HB Hg Hd. destruct (call_shares c u v Hg) as [<- <-].
  split.
  - destruct (posting_moves _ _ c (user_key u v) _ HB Hd) as [?|[-> Hz]]; [done|].
    destruct (call_shares c u v Hg) as [-> _]. destruct (Hz u v) as [-> _]. lia.
  - destruct (posting_moves _ _ c (pool_key v) _ HB Hd) as [?|[-> Hz]]; [done|].
    destruct (call_shares c u v Hg) as [_ ->]. destruct (Hz u v) as [_ ->]. lia.
Qed.

(** A successful deposit adds its stroops to the depositor's position and to
    the vault's pool, a withdrawal takes them off both, a harvest adds its net
    to both, a rebalance moves neither, and no other user's position and no
    other vault's pool moves; a call that fails posts nothing, and with a
    transaction of the service's own it leaves the tables as they were. *)
Lemma call_moves_money raw has_db (c : call) s s' r :
  reach raw s → txn s = None → run false has_db c s = (s', r) →
  match r with
  | Ok _ =>
      call_guard c = None ∧
      (∀ u v, GetUserVaultBalance u v (store s') =
              GetUserVaultBalance u v (store s) + user_delta c u v) ∧
      ∀ v, GetVaultPoolBalance v (store s') = GetVaultPoolBalance v (store s) + pool_delta c v
  | Err _ =>
      entries (store s') = entries (store s) ∧ balances (store s') = balances (store s) ∧
      (has_db = true → store s' = store s)
  end.
Proof.
  intros Hreach Htx Hrun.
  pose proof (reach_inv _ _ Hreach) as [(Hb & HB & _) _].
  pose proof (reach_inv _ _ (reach_step _ _ _ Hreach (step_call raw false has_db c s Htx)))
    as [(_ & [HC' _] & _) _]. rewrite Hrun in HC'. simpl in HC'.
  pose proof (run_triple false has_db c (clock s) (store s) s (store s) eq_refl (conj Htx eq_refl)
    (conj eq_refl Hb)) as Ht. rewrite Hrun in Ht. destruct Ht as [_ Ht]. destruct r as [[]|e].
  - destruct Ht as (st' & [_ <-] & Hg & _ & Hd). split; [done|].
    unfold GetUserVaultBalance, GetVaultPoolBalance.
    split; [intros u v|intros v]; rewrite !single_balance by (done || apply HB).
    + by apply (posting_deltas _ _ _ u v _ HB Hg Hd).
    + by apply (posting_deltas _ _ _ 0 v _ HB Hg Hd).
  - destruct Ht as [[(st' & [_ <-] & _ & Hst)|[]] _]. rewrite andb_true_r in Hst.
    destruct has_db; [by rewrite Hst|].
    pose proof (grown_facts _ _ Hst) as (He & Hbal & _). by split_and!.
Qed.

(** *** Repeated requests *)

(** The account of key [k] already carries an entry of this domain event. *)
Definition posted_before (ty ev : string) (k : key) (st : Store) : Prop :=
  ∃ a e, a ∈ accounts st ∧ account_key a = Some k ∧ e ∈ entries st ∧
    AccountID e = AccID a ∧ DomainEventType e = ty ∧ DomainEventID e = ev.

Lemma DirectionFromAmount_valid x :
  (DirectionFromAmount x =s? "debit") || (DirectionFromAmount x =s? "credit") = true.
Proof. unfold DirectionFromAmount. by destruct (0 <=? x). Qed.

Lemma mk_leg_row now txID a x ty ev r :
  row_of now (mk_leg txID a x ty ev) r →
  AccountID r = AccID a ∧ Amount r = x ∧ DomainEventType r = ty ∧ DomainEventID r = ev ∧
  TransactionID r = txID ∧ (Direction r =s? "debit") || (Direction r =s? "credit") = true.
Proof.
  intros (id & -> & _). split_and!; try done. simpl.
  destruct (DirectionFromAmount x =s? "") eqn:E; apply DirectionFromAmount_valid.
Qed.

(** A first leg whose event is already on its account stops the posting. *)
Lemma first_leg_rejected now st txID a x ty ev es e0 :
  x ≠ 0 → ev ≠ "" → e0 ∈ entries st → AccountID e0 = AccID a → DomainEventType e0 = ty →
  DomainEventID e0 = ev → Forall (λ e, EntID e = 0) (mk_leg txID a x ty ev :: es) →
  let all := mk_leg txID a x ty ev :: es in
  (∀ st', ¬ posted now st all st') ∧
  ∀ e, post_failure now st all e → mapLedgerError e = ErrAlreadyPosted.
Proof.
  intros Hx Hev Hin Hacc Hty Hid Hz all.
  assert (∀ r, row_of now (mk_leg txID a x ty ev) r → same_event_leg r e0 = true) as Hsame.
  { intros r (Ha & _ & Ht & Hi & _)%mk_leg_row. unfold same_event_leg.
    rewrite Ha, Ht, Hi, Hacc, Hty, Hid, Z.eqb_refl.
    by rewrite !(proj2 (string_eqb_eq _ _) eq_refl). }
  split.
  - intros st' (_ & rows & Hr & Happ). inversion Hr as [|? r ? rows' Hrow _]; subst. simpl in Happ.
    apply result_bind_ok in Happ as (st1 & (_ & _ & _ & Hno)%insert_entry_ok & _).
    pose proof (mk_leg_row _ _ _ _ _ _ _ Hrow) as (_ & _ & _ & Hi & _).
    pose proof (Hno ltac:(by rewrite Hi) e0 Hin) as Hn. by rewrite (Hsame r Hrow) in Hn.
  - intros e (k & rows & pe & Hr & Hfresh & Happ & ->). specialize (Hfresh Hz).
    destruct k; [by inversion Hr; subst|]. inversion Hr as [|? r ? rows' Hrow _]; subst.
    pose proof (mk_leg_row _ _ _ _ _ _ _ Hrow) as (_ & Hamt & _ & Hi & _ & Hdir).
    simpl in Happ. destruct Hfresh as [Hf _]. unfold insert_entry in Happ.
    rewrite Hamt, Hdir, Hi in Happ. rewrite (proj2 (Z.eqb_neq _ _) Hx) in Happ. simpl in Happ.
    assert (existsb (λ x, EntID x =? EntID r) (entries st) = false) as Hn.
    { apply existsb_none. intros y Hy. specialize (Hf y Hy). lia. }
    assert (existsb (same_event_leg r) (entries st) = true) as Hs
      by (apply existsb_elem; exists e0; auto).
    rewrite Hn, Hs, (proj2 (string_eqb_neq _ _) Hev) in Happ. simpl in Happ.
    simpl in Happ. by simplify_eq.
Qed.

Lemma legs_valid txID accs amounts ty ev k :
  0 < txID → Forall (λ a, 0 < AccID a) accs → length accs = length amounts →
  (2 ≤ length amounts)%nat → Forall (λ x, x ≠ 0) amounts → sum_Z amounts = k * 2 ^ 64 →
  ValidateBalanced (legs txID accs amounts ty ev) = None.
Proof.
  intros Htx Ha Hl H2 Hz Hk. apply ValidateBalanced_iff. split; [|split].
  - unfold legs. rewrite length_zip_with. lia.
  - exists txID. split; [lia|]. clear H2 Hk. unfold legs. revert amounts Hl Hz.
    induction Ha as [|a accs Ha _ IH]; intros [|x amounts] Hl Hz; try by apply Forall_nil.
    apply Forall_cons in Hz as [Hx Hz]. simpl in *.
    apply Forall_cons. split; [simpl; lia|]. apply IH; [lia|done].
  - exists k. rewrite <- Hk. f_equal. clear - Hl. unfold legs. revert amounts Hl.
    induction accs as [|a accs IH]; intros [|x amounts] Hl; try done. simpl in *.
    f_equal. apply IH. lia.
Qed.

(** The two movements of a user's money. *)
Inductive movement (v u : Z) (d : decimal) (ev : string) : call → Prop :=
| is_deposit : movement v u d ev (CDeposit v u d ev)
| is_withdrawal : movement v u d ev (CWithdrawal v u d ev).

Lemma i64_nonzero z : Z.abs z < 2 ^ 64 → z ≠ 0 → i64 z ≠ 0.
Proof. intros Ha Hz [k Hk]%i64_zero. assert (k = 0) by nia. lia. Qed.

Lemma movement_amounts v u d ev c :
  movement v u d ev c → 0 < decimalToStroops d →
  call_guard c = None ∧ call_rs c = deposit_rs v u ∧
  (∀ txID accs, call_mk c txID accs = legs txID accs (call_amounts c) (call_event c).1 ev) ∧
  length (call_amounts c) = 3%nat ∧ Forall (λ x, x ≠ 0) (call_amounts c) ∧
  ∃ k, sum_Z (call_amounts c) = k * 2 ^ 64.
Proof.
  intros Hm Hd. pose proof (stroops_range d) as Hr. unfold in_i64, max_i64, min_i64 in Hr.
  destruct Hm; simpl; (split_and!;
    [apply guard_none; split; [apply Z.leb_gt; lia|done]|done|done|done| |]).
  - repeat (apply Forall_cons; split; [try lia; try (apply i64_nonzero; lia)|]). by apply Forall_nil.
  - destruct (i64_eqm (-2 * decimalToStroops d)) as [k ->]. exists k. lia.
  - repeat (apply Forall_cons; split; [apply i64_nonzero; lia|]). by apply Forall_nil.
  - rewrite neg_i64 by (lia || apply stroops_range).
    destruct (i64_eqm (2 * decimalToStroops d)) as [k ->]. exists k. lia.
Qed.

(** With its references in place a movement resolves its accounts, so only its
    posting can fail. *)
Definition resolvable (v u : Z) (st : Store) : Prop :=
  v ∈ vaults st ∧ (u ∈ users st ∨ select_account (user_key u v) st ≠ None).

Lemma movement_resolves v u st r e :
  resolvable v u st → r ∈ deposit_rs v u → ¬ unresolvable st r e.
Proof.
  intros [Hv Hu] Hr [Hk|(k & Hk & _ & Hs & Hrefs)].
  - repeat (apply elem_of_cons in Hr as [->|Hr]; [done|]). by apply elem_of_nil in Hr.
  - unfold refs_ok in Hrefs.
    repeat (apply elem_of_cons in Hr as [->|Hr]; [cbn in Hk; injection Hk as <-; simpl in Hrefs;
      rewrite ?(bool_decide_true (v ∈ _)) in Hrefs by done; try done|]); [|by apply elem_of_nil in Hr].
    destruct Hu as [Hu|Hu]; [|by apply Hu]. by rewrite bool_decide_true in Hrefs.
Qed.

Lemma ready_positive n st0 rs accs st1 :
  below n st1 → ready st0 rs accs st1 → Forall (λ a, 0 < AccID a) accs ∧ length accs = length rs.
Proof.
  intros (_ & Ha & _) [_ Hf]. split; [|symmetry; by eapply Forall2_length].
  induction Hf as [|r a rs accs (k & _ & _ & Hin)]; constructor; [|done]. by apply Ha.
Qed.

Lemma movement_failure raw has_db v u d ev c s :
  reach raw s → txn s = None → faults s = [] → movement v u d ev c → 0 < decimalToStroops d →
  resolvable v u (store s) →
  let '(s', r) := run false has_db c s in
  match r with
  | Ok _ => posting_done (clock s) (store s) (deposit_rs v u) (call_mk c) (store s')
  | Err e => ∃ txID accs n st1 e', 0 < txID ∧ below n st1 ∧
      ready (store s) (deposit_rs v u) accs st1 ∧
      post_failure (clock s) st1 (call_mk c txID accs) e' ∧ e = mapLedgerError e'
  end.
Proof.
  intros Hreach Htx Hnf Hm Hd Href. pose proof (reach_inv _ _ Hreach) as [(Hb & _) _].
  destruct (movement_amounts _ _ _ _ _ Hm Hd) as (Hg & Hrs & Hmk & Hlen & Hnz & k & Hk).
  pose proof (run_triple false has_db c (clock s) (store s) s (store s) eq_refl (conj Htx eq_refl)
    (conj eq_refl Hb)) as Ht. destruct (run false has_db c s) as [s' [[]|e]]; destruct Ht as [_ Ht].
  - destruct Ht as (st' & [_ <-] & _ & _ & Hp). by rewrite Hrs in Hp.
  - destruct Ht as [_ He]. destruct (He Hnf) as [He'|[_ He']]; [congruence|].
    rewrite Hrs in He'. destruct He' as [(r & Hr & Hu)|(txID & accs & n & st1 & Htid & Hb1 & Hrd & Hw)].
    + by destruct (movement_resolves v u (store s) r e).
    + exists txID, accs, n, st1. destruct (ready_positive _ _ _ _ _ Hb1 Hrd) as [Hpos Hl].
      assert (ValidateBalanced (call_mk c txID accs) = None) as Hv.
      { rewrite Hmk. eapply legs_valid; try done; rewrite Hlen; [done|lia]. }
      destruct Hw as [Hw|(_ & e' & Hpf & ->)]; [congruence|]. by exists e'.
Qed.

(** The accounts a movement resolves, its first being the user's position. *)
Lemma ready_movement v u st0 accs st1 :
  ready st0 (deposit_rs v u) accs st1 →
  ∃ a1 a2 a3, accs = [a1; a2; a3] ∧ account_key a1 = Some (user_key u v) ∧ a1 ∈ accounts st1 ∧
    account_key a2 = Some (pool_key v) ∧ a2 ∈ accounts st1 ∧
    account_key a3 = Some (AccountTypeSystemSuspense, None, None, None, "USDC") ∧
    a3 ∈ accounts st1.
Proof.
  intros [_ Hf]. inversion Hf as [|? a1 ? ? (k1 & E1 & ? & ?) Hf1]; subst.
  inversion Hf1 as [|? a2 ? ? (k2 & E2 & ? & ?) Hf2]; subst.
  inversion Hf2 as [|? a3 ? ? (k3 & E3 & ? & ?) Hf3]; subst. inversion Hf3; subst.
  injection E1 as <-. injection E2 as <-. injection E3 as <-. exists a1, a2, a3. by split_and!.
Qed.

Lemma same_key_account st a b k :
  Core st → a ∈ accounts st → b ∈ accounts st → account_key a = Some k → account_key b = Some k →
  a = b.
Proof.
  intros HC Ha Hb Hka Hkb. pose proof (core_keys _ HC) as Hnd. clear HC.
  induction (accounts st) as [|x l IH]; [by apply elem_of_nil in Ha|].
  apply elem_of_cons in Ha, Hb. simpl in Hnd.
  destruct Ha as [->|Ha], Hb as [->|Hb]; try done.
  - rewrite Hka in Hnd. apply NoDup_cons in Hnd as [Hni _]. destruct Hni.
    apply list_elem_of_omap. by exists b.
  - rewrite Hkb in Hnd. apply NoDup_cons in Hnd as [Hni _]. destruct Hni.
    apply list_elem_of_omap. by exists a.
  - apply IH; [done|done|]. by destruct (account_key x); [apply NoDup_cons in Hnd as [_ ?]|].
Qed.

Section movement.
  Context (raw has_db : bool) (v u : Z) (d : decimal) (ev : string) (c : call) (s : Session).
  Context (Hreach : reach raw s) (Htx : txn s = None) (Hm : movement v u d ev c)
    (Hd : 0 < decimalToStroops d).

(** Success leaves the event on the user's position. *)
Lemma movement_records s' :
  run false has_db c s = (s', Ok ()) →
  posted_before (call_event c).1 ev (user_key u v) (store s').
Proof.
  intros Hrun. pose proof (reach_inv _ _ Hreach) as [(Hb & HB & _) _].
  destruct (movement_amounts _ _ _ _ _ Hm Hd) as (Hg & Hrs & Hmk & Hlen & _).
  pose proof (call_facts c) as (_ & _ & Hrng & Hposts & _).
  pose proof (run_triple false has_db c (clock s) (store s) s (store s) eq_refl (conj Htx eq_refl)
    (conj eq_refl Hb)) as Ht. rewrite Hrun, Hrs in Ht.
  destruct Ht as (_ & st' & [_ <-] & _ & _ & txID & accs & st1 & _ & Hrd & Hp).
  destruct (ready_movement _ _ _ _ _ Hrd) as (a1 & a2 & a3 & -> & Hk1 & Hin1 & _).
  destruct (grown_books _ _ (proj1 Hrd) HB) as [HC1 _].
  pose proof (posts_range _ _ _ _ txID [a1; a2; a3] Hposts Hrng) as Hr. rewrite Hmk in Hr, Hp.
  destruct (call_amounts c) as [|x1 [|x2 [|x3 [|]]]]; try done. simpl in Hp.
  destruct (posted_facts _ _ _ _ HC1 Hr Hp) as (_ & (_ & _ & Hacc & _) & _ & rows & Hrows & _ & He & _).
  inversion Hrows as [|? r1 ? rows' Hr1 _]; subst. apply mk_leg_row in Hr1 as (Ha & _ & Hty & Hi & _).
  exists a1, r1. rewrite Hacc, He. split_and!; try done. apply elem_of_app. right. by left.
Qed.

(** With the event there, nothing can be posted, and the reason is known. *)
Lemma movement_collides txID accs st1 :
  ev ≠ "" → posted_before (call_event c).1 ev (user_key u v) (store s) →
  ready (store s) (deposit_rs v u) accs st1 →
  (∀ st', ¬ posted (clock s) st1 (call_mk c txID accs) st') ∧
  ∀ e, post_failure (clock s) st1 (call_mk c txID accs) e → mapLedgerError e = ErrAlreadyPosted.
Proof.
  intros Hev (a & e0 & Ha & Hka & Hin & Hacc & Hty & Hi) Hrd.
  pose proof (reach_inv _ _ Hreach) as [(_ & HB & _) _].
  destruct (movement_amounts _ _ _ _ _ Hm Hd) as (_ & _ & Hmk & Hlen & Hnz & _).
  pose proof (call_facts c) as (_ & Hids & _).
  destruct (ready_movement _ _ _ _ _ Hrd) as (a1 & a2 & a3 & -> & Hk1 & Hin1 & _).
  destruct (grown_books _ _ (proj1 Hrd) HB) as [HC1 _].
  pose proof (grown_facts _ _ (proj1 Hrd)) as (He & _ & _ & _ & _ & Hmono & _).
  assert (a = a1) as <- by (eapply same_key_account; [exact HC1|by apply Hmono|done|done|done]).
  pose proof (Hids txID [a; a2; a3]) as Hz. rewrite Hmk in Hz |- *.
  destruct (call_amounts c) as [|x1 [|x2 [|x3 [|]]]]; try done.
  apply (first_leg_rejected _ _ _ _ _ _ _ _ e0); try done.
  - by apply Forall_cons in Hnz as [? _].
  - by rewrite He.
Qed.

Lemma movement_rejected s' r :
  ev ≠ "" → faults s = [] → v ∈ vaults (store s) →
  posted_before (call_event c).1 ev (user_key u v) (store s) →
  run false has_db c s = (s', r) → r = Err ErrAlreadyPosted.
Proof.
  intros Hev Hnf Hv Hpb Hrun. assert (resolvable v u (store s)) as Href.
  { split; [done|]. right. intros Hn. destruct Hpb as (a & e & Ha & Hka & _).
    by eapply select_account_none. }
  pose proof (movement_failure raw has_db v u d ev c s Hreach Htx Hnf Hm Hd Href) as Hf.
  rewrite Hrun in Hf. destruct r as [[]|e].
  - destruct Hf as (txID & accs & st1 & _ & Hrd & Hp). exfalso.
    destruct (movement_collides txID accs st1 Hev Hpb Hrd) as [Hno _].
    destruct (movement_amounts _ _ _ _ _ Hm Hd) as (_ & _ & Hmk & Hlen & _).
    destruct (ready_movement _ _ _ _ _ Hrd) as (a1 & a2 & a3 & -> & _).
    apply (Hno (store s')). rewrite Hmk in Hp |- *.
    by destruct (call_amounts c) as [|x1 [|x2 [|x3 [|]]]].
  - destruct Hf as (txID & accs & n & st1 & e' & _ & _ & Hrd & Hpf & ->). f_equal.
    by apply (movement_collides txID accs st1 Hev Hpb Hrd).
Qed.

End movement.

(** A deposit or withdrawal that succeeded leaves its domain event on the
    user's position; while no connection fails, a request that finds its event
    there answers [ErrAlreadyPosted] whatever its amount. *)
Lemma repeated_request_rejected raw has_db v u d ev c s :
  reach raw s → txn s = None → movement v u d ev c → ev ≠ "" → 0 < decimalToStroops d →
  let '(s', r) := run false has_db c s in
  (r = Ok () → posted_before (call_event c).1 ev (user_key u v) (store s')) ∧
  (faults s = [] → v ∈ vaults (store s) →
   posted_before (call_event c).1 ev (user_key u v) (store s) → r = Err ErrAlreadyPosted).
Proof.
  intros Hreach Htx Hm Hev Hd. destruct (run false has_db c s) as [s' r] eqn:Hrun. split.
  - intros ->. by eapply movement_records.
  - intros. by eapply movement_rejected.
Qed.

Definition suspense_key : key := (AccountTypeSystemSuspense, None, None, None, "USDC").
Definition movement_keys (v u : Z) : list key := [user_key u v; pool_key v; suspense_key].

Lemma legs_rows now txID accs amounts ty ev rows :
  Forall2 (row_of now) (legs txID accs amounts ty ev) rows → length accs = length amounts →
  map AccountID rows = map AccID accs ∧
  Forall (λ r, DomainEventType r = ty ∧ DomainEventID r = ev ∧
     (Direction r =s? "debit") || (Direction r =s? "credit") = true ∧
     ∃ a x, (a, x) ∈ zip accs amounts ∧ AccountID r = AccID a ∧ Amount r = x) rows.
Proof.
  revert amounts rows. induction accs as [|a accs IH]; intros [|x amounts] rows Hr Hl; try done.
  - inversion Hr; subst. by split; [|apply Forall_nil].
  - simpl in Hr. inversion Hr as [|? r ? rows' Hrow Hrs]; subst. simpl in Hl.
    destruct (IH amounts rows' Hrs ltac:(lia)) as [Hids Hall].
    apply mk_leg_row in Hrow as (Ha & Hx & Hty & Hev & _ & Hdir). split; [simpl; congruence|].
    apply Forall_cons. split.
    + split_and!; try done. exists a, x. split_and!; try done. by left.
    + eapply Forall_impl; [exact Hall|]. intros r' (? & ? & ? & a' & x' & Hin & ?).
      split_and!; try done. exists a', x'. split; [by right|done].
Qed.

(** An account resolved for a posting, and the amount it gets, can take its row. *)
Lemma resolved_postable st0 st1 a k x r ty ev :
  Books st0 → grown st0 st1 → a ∈ accounts st1 → account_key a = Some k → x ≠ 0 → in_i64 x →
  in_i64 (sum_over (has_key k) st0 + x) → (ev = "" ∨ ¬ posted_before ty ev k st0) →
  AccountID r = AccID a → Amount r = x → DomainEventType r = ty → DomainEventID r = ev →
  (Direction r =s? "debit") || (Direction r =s? "credit") = true → postable st1 r.
Proof.
  intros HB Hg Ha Hk Hz Hx Hfit Hev Hacc Hamt Hty Hid Hdir.
  destruct (grown_books _ _ Hg HB) as [HC1 _].
  pose proof (grown_facts _ _ Hg) as (He & _ & _ & _ & _ & Hmono & Hs).
  destruct (Hs (proj1 HB)) as [_ Hsum]. split_and!.
  - by rewrite Hamt.
  - done.
  - rewrite Hacc. by apply list_elem_of_fmap_2.
  - by rewrite Hamt.
  - rewrite Hacc, Hamt, <- (sum_over_key _ _ _ HC1 Ha Hk), Hsum. done.
  - rewrite He. intros Hne y Hy. destruct (same_event_leg r y) eqn:Hsame; [|done]. exfalso.
    destruct Hev as [->|Hnp]; [congruence|]. apply Hnp. unfold same_event_leg in Hsame.
    apply andb_true_iff in Hsame as [Hsame Hya]. apply andb_true_iff in Hsame as [Hyt Hyi].
    apply string_eqb_eq in Hyt, Hyi. apply Z.eqb_eq in Hya.
    pose proof (core_refs _ (proj1 HB) _ Hy) as (b & Hb & Hin)%list_elem_of_fmap.
    assert (b = a) as -> by (eapply account_by_id; [apply (core_ids _ HC1)|by apply Hmono|done|congruence]).
    exists a, y. split_and!; try done; congruence.
Qed.

Lemma movement_accounts v u st0 accs st1 :
  Core st1 → ready st0 (deposit_rs v u) accs st1 →
  Forall2 (λ k a, account_key a = Some k ∧ a ∈ accounts st1) (movement_keys v u) accs ∧
  NoDup (map AccID accs).
Proof.
  intros HC Hrd.
  destruct (ready_movement _ _ _ _ _ Hrd) as (a1 & a2 & a3 & -> & K1 & I1 & K2 & I2 & K3 & I3).
  assert (∀ a b ka kb, account_key a = Some ka → account_key b = Some kb → ka ≠ kb →
    a ∈ accounts st1 → b ∈ accounts st1 → AccID a ≠ AccID b) as Hdiff.
  { intros a b ka kb Ha Hb Hne Ia Ib Hid. apply Hne.
    assert (a = b) as -> by (by eapply account_by_id; [apply (core_ids _ HC)|..]). congruence. }
  split; [by repeat constructor|]. simpl.
  repeat (apply NoDup_cons; split); [| | |by apply NoDup_nil].
  - intros [Hx|Hx]%elem_of_cons; [by eapply (Hdiff a1 a2)|].
    apply list_elem_of_singleton in Hx. by eapply (Hdiff a1 a3).
  - intros Hx%list_elem_of_singleton. by eapply (Hdiff a2 a3).
  - by intros ?%elem_of_nil.
Qed.

(** The prefix of a posting whose every row is postable does not fail. *)
Lemma movement_postable raw v u d ev c s txID accs st1 e' :
  reach raw s → movement v u d ev c → 0 < decimalToStroops d →
  (ev = "" ∨ Forall (λ k, ¬ posted_before (call_event c).1 ev k (store s)) (movement_keys v u)) →
  Forall2 (λ k x, in_i64 (sum_over (has_key k) (store s) + x)) (movement_keys v u) (call_amounts c) →
  ready (store s) (deposit_rs v u) accs st1 →
  ¬ post_failure (clock s) st1 (call_mk c txID accs) e'.
Proof.
  intros Hreach Hm Hd Hev Hfit Hrd (n & rows & pe & Hr & Hfresh & Happ & _).
  pose proof (reach_inv _ _ Hreach) as [(_ & HB & _) _].
  destruct (movement_amounts _ _ _ _ _ Hm Hd) as (_ & Hrs & Hmk & Hlen & Hnz & _).
  pose proof (call_facts c) as (_ & Hids & Hrng & _).
  destruct (grown_books _ _ (proj1 Hrd) HB) as [HC1 _].
  destruct (movement_accounts _ _ _ _ _ HC1 Hrd) as [Hkeys Hnd].
  specialize (Hfresh (Hids txID accs)). rewrite Hmk in Hr. unfold legs in Hr.
  rewrite zip_with_take in Hr. pose proof (Forall2_length _ _ _ Hkeys) as Hl. simpl in Hl.
  apply legs_rows in Hr as [Hacc Hall]; [|rewrite !length_take; lia].
  destruct (apply_rows_succeed rows (clock s) st1 HC1) as [st' Hok]; [| |done|congruence].
  - rewrite Hacc. rewrite <- (take_drop n accs), map_app in Hnd. by apply NoDup_app in Hnd as [? _].
  - eapply Forall_impl; [exact Hall|]. intros r (Hty & Hi & Hdir & a & x & Hin & Ha & Hx).
    assert (∃ k, k ∈ movement_keys v u ∧ account_key a = Some k ∧ a ∈ accounts st1 ∧ x ≠ 0 ∧
      in_i64 x ∧ in_i64 (sum_over (has_key k) (store s) + x)) as (k & Hkin & Hk & Hia & Hxz & Hxr & Hxf).
    { apply list_elem_of_lookup in Hin as [i Hi']. apply lookup_zip_Some in Hi' as [La Lx].
      apply lookup_take_Some in La as [La _], Lx as [Lx _].
      destruct (Forall2_lookup_r _ _ _ _ _ Hkeys La) as (k & Lk & Hk & Hia).
      destruct (Forall2_lookup_r _ _ _ _ _ Hfit Lx) as (k' & Lk' & Hxf).
      rewrite Lk in Lk'. injection Lk' as <-. exists k. split_and!; try done.
      - by eapply list_elem_of_lookup_2.
      - by eapply (Forall_lookup_1 _ _ _ _ Hnz Lx).
      - by eapply (Forall_lookup_1 _ _ _ _ Hrng Lx). }
    eapply (resolved_postable (store s) st1 a k x r); try done; [apply Hrd|].
    destruct Hev as [?|Hnp]; [by left|right]. by eapply Forall_forall in Hnp.
Qed.

(** While no connection fails, a deposit or withdrawal of a known user and
    vault, not posted before on any of its accounts, and whose three balances
    stay in the [int64] range, succeeds. *)
Lemma movement_succeeds raw has_db v u d ev c s :
  reach raw s → txn s = None → faults s = [] → movement v u d ev c →
  0 < decimalToStroops d → v ∈ vaults (store s) → u ∈ users (store s) →
  (ev = "" ∨ Forall (λ k, ¬ posted_before (call_event c).1 ev k (store s)) (movement_keys v u)) →
  Forall2 (λ k x, in_i64 (sum_over (has_key k) (store s) + x)) (movement_keys v u) (call_amounts c) →
  snd (run false has_db c s) = Ok ().
Proof.
  intros Hreach Htx Hnf Hm Hd Hv Hu Hev Hfit.
  pose proof (movement_failure raw has_db v u d ev c s Hreach Htx Hnf Hm Hd) as Hf.
  destruct (run false has_db c s) as [s' [[]|e]]; [done|]. exfalso.
  destruct Hf as (txID & accs & n & st1 & e' & Htid & Hb1 & Hrd & Hpf & _); [by split; [|left]|].
  by eapply movement_postable.
Qed.

(** *** Harvests *)

Lemma nonzero_legs txID accs amounts ty ev :
  length accs = length amounts →
  map Amount (filter (λ e, nonzero e = true) (legs txID accs amounts ty ev)) =
  filter (λ x, x ≠ 0) amounts.
Proof.
  revert amounts. induction accs as [|a accs IH]; intros [|x amounts] Hl; try done.
  assert (nonzero (mk_leg txID a x ty ev) = negb (x =? 0)) as Hz by done.
  unfold legs in *. cbn [zip_with]. rewrite !filter_cons. simpl in Hl.
  destruct (decide (x = 0)) as [->|Hne].
  - rewrite decide_False by by rewrite Hz. rewrite decide_False by auto. apply IH. lia.
  - rewrite decide_True by (rewrite Hz; apply negb_true_iff; lia).
    rewrite decide_True by done. simpl. f_equal. apply IH. lia.
Qed.

Lemma sum_nonzero l : sum_Z (filter (λ x, x ≠ 0) l) = sum_Z l.
Proof.
  induction l as [|x l IH]; [done|]. rewrite filter_cons. case_decide as Hd; simpl; [by rewrite IH|].
  assert (x = 0) as -> by (destruct (decide (x = 0)); [done|by destruct Hd]). lia.
Qed.

(** The amounts a harvest posts: those that are not zero. *)
Definition harvest_legs (n f g : Z) : list Z := filter (λ x : Z, x ≠ 0) (harvest_amounts n f g).

Lemma harvest_legs_small n f g :
  in_i64 g → Z.of_nat (length (harvest_legs n f g)) < 2 → n = 0 ∧ (f = 0 ∨ g = 0).
Proof.
  intros Hr Hlt. unfold harvest_legs, harvest_amounts in Hlt.
  destruct (decide (n = 0)) as [->|Hn].
  - split; [done|]. destruct (decide (f = 0)) as [->|Hf]; [by left|]. right.
    destruct (decide (g = 0)) as [->|Hg]; [done|]. exfalso.
    assert (i64 (- g) ≠ 0) by (apply i64_nonzero; unfold in_i64, min_i64, max_i64 in Hr; lia).
    rewrite !filter_cons in Hlt. rewrite !(decide_False (P := 0 ≠ 0)) in Hlt by auto.
    rewrite !decide_True in Hlt by done. simpl in Hlt. lia.
  - exfalso. rewrite !filter_cons, !(decide_True (P := n ≠ 0)) in Hlt by done. simpl in Hlt. lia.
Qed.

(** A harvest that reports success either posted its legs, and then its
    gross is net plus fee modulo 2^64; or had at most one non-zero leg, fee or
    gross with no net, and then posted nothing whatever the amounts. *)
Lemma harvest_outcome raw has_db v u net fee gross ad ev s s' :
  reach raw s → txn s = None →
  run false has_db (CHarvest v u net fee gross ad ev) s = (s', Ok ()) →
  let n := decimalToStroops net in
  let f := decimalToStroops fee in
  let g := decimalToStroops gross in
  (i64 (n + f - g) = 0 ∧
   length (entries (store s')) =
     (length (entries (store s)) + length (harvest_legs n f g))%nat) ∨
  (n = 0 ∧ (f = 0 ∨ g = 0) ∧
   entries (store s') = entries (store s) ∧ balances (store s') = balances (store s)).
Proof.
  intros Hreach Htx Hrun n f g. unfold harvest_legs. set (c := CHarvest v u net fee gross ad ev) in *.
  pose proof (reach_inv _ _ Hreach) as [(Hb & HB & _) _].
  pose proof (run_triple false has_db c (clock s) (store s) s (store s) eq_refl (conj Htx eq_refl)
    (conj eq_refl Hb)) as Ht. rewrite Hrun in Ht.
  destruct Ht as (_ & st' & [_ <-] & _ & _ & txID & accs & st1 & _ & Hrd & Hp).
  assert (length accs = 5%nat) as Hl by (destruct Hrd as [_ Hf]; by apply Forall2_length in Hf).
  pose proof (nonzero_legs txID accs (harvest_amounts n f g) "harvest" ev Hl) as Hamt.
  change (filter (λ e, nonzero e = true) (legs txID accs (harvest_amounts n f g) "harvest" ev))
    with (call_mk c txID accs) in Hamt.
  pose proof (f_equal length Hamt) as Hlen. rewrite length_map in Hlen.
  pose proof (call_facts c) as (_ & _ & Hrng & Hposts & _).
  destruct (grown_books _ _ (proj1 Hrd) HB) as [HC1 _].
  pose proof (grown_facts _ _ (proj1 Hrd)) as (He & Hbal & _).
  rewrite Hlen in Hp. destruct (Z.ltb_spec (Z.of_nat (length (filter (λ x, x ≠ 0) (harvest_amounts n f g)))) 2) as [Hlt|Hge].
  - right. rewrite Hp, He, Hbal. destruct (harvest_legs_small n f g (stroops_range _) Hlt).
    by split_and!.
  - left. destruct (posted_facts _ _ _ _ HC1 (posts_range _ _ _ _ txID accs Hposts Hrng) Hp)
      as (_ & _ & Hv & rows & _ & Hc & He' & _). split.
    + apply ValidateBalanced_iff in Hv as (_ & _ & k & Hk). rewrite Hamt, sum_nonzero in Hk.
      unfold harvest_amounts in Hk. simpl in Hk. destruct (i64_eqm (- g)) as [k1 H1].
      destruct (i64_eqm (- n)) as [k2 H2']. apply i64_zero. exists (k - k1 - k2). lia.
    + rewrite He', He, length_app. f_equal. rewrite <- Hlen. symmetry. by eapply Forall2_length.
Qed.

(** *** Amounts *)

Lemma quot_integer q z : (q == inject_Z z)%Q → Z.quot (Qnum q) (Z.pos (Qden q)) = z.
Proof.
  unfold Qeq, inject_Z. destruct q as [n d]. simpl. rewrite Z.mul_1_r. intros ->.
  apply Z.quot_mul. lia.
Qed.

(** An amount is converted to the nearest stroop, halves away from zero,
    wrapping at 64 bits; an amount read from the ledger converts back to itself. *)
Lemma stroops_exact d n :
  decimalToStroops d = i64 (half_away (value d * 10000000)) ∧
  (in_i64 n → decimalToStroops (stroopsToDecimal n) = n).
Proof.
  assert (∀ d, decimalToStroops d = i64 (half_away (value d * 10000000))) as Hd.
  { clear d. intros d. unfold decimalToStroops. rewrite IntPart_value. f_equal. apply quot_integer.
    rewrite Round_value. by rewrite (half_away_proper _ (value d * 10000000)%Q)
      by (rewrite Mul_value, NewFromInt_value by done; reflexivity). }
  split; [apply Hd|]. intros Hn. rewrite Hd. unfold stroopsToDecimal.
  assert (value (Div (NewFromInt n) (NewFromInt 10000000)) ==
    (n * 1000000000 # 10000000000000000))%Q as Hv.
  { apply Div_value.
    - rewrite NewFromInt_value by done. by unfold Qeq.
    - rewrite !NewFromInt_value by done. unfold Qeq, inject_Z. simpl. lia. }
  rewrite (half_away_proper _ (inject_Z n)); [by rewrite half_away_integer, i64_id|].
  rewrite Hv. unfold Qeq, inject_Z. simpl. lia.
Qed.

End histories.

(** *** Witnesses *)

#[local] Existing Instances QDecimal QDecimal_laws.

Definition w0 : Session := start [7] [9].
Definition w_deposit : call := CDeposit 7 9 (3 # 2)%Q "dep-1".
Definition w1 : Session := fst (run false true w_deposit w0).

Lemma w0_reach raw : reach raw w0.
Proof. apply reach_start. Qed.

Lemma w1_reach raw : reach raw w1.
Proof. eapply reach_step; [apply (w0_reach raw)|]. by apply (step_call raw false true w_deposit w0). Qed.

Lemma books_stay_balanced_witness :
  length (entries (store w1)) = 3%nat ∧ VerifyBalances (store w1) = Ok [].
Proof.
  split; [by vm_compute|]. apply (books_stay_balanced true w1 (w1_reach true)).
Defined.

Lemma positions_equal_pool_witness :
  GetVaultPoolBalance 7 (store w1) = 15000000 ∧
  SumUserPositionBalances 7 (store w1) = Ok (GetVaultPoolBalance 7 (store w1)).
Proof.
  split; [by vm_compute|]. apply (positions_equal_pool w1 7 (w1_reach false)).
Defined.

Lemma call_moves_money_witness :
  snd (run false true w_deposit w0) = Ok () ∧
  GetUserVaultBalance 9 7 (store w1) = GetUserVaultBalance 9 7 (store w0) + 15000000.
Proof.
  split; [by vm_compute|].
  pose proof (call_moves_money true true w_deposit w0 w1 (Ok ()) (w0_reach true) eq_refl) as H.
  destruct H as (_ & H & _); [by vm_compute|]. apply (H 9 7).
Defined.

Lemma repeated_request_rejected_witness :
  snd (run false true w_deposit w1) = Err ErrAlreadyPosted.
Proof.
  pose proof (repeated_request_rejected true true 7 9 (3 # 2)%Q "dep-1" w_deposit w0
    (w0_reach true) eq_refl (is_deposit _ _ _ _) ltac:(done) eq_refl) as H0.
  pose proof (repeated_request_rejected true true 7 9 (3 # 2)%Q "dep-1" w_deposit w1
    (w1_reach true) eq_refl (is_deposit _ _ _ _) ltac:(done) eq_refl) as H1.
  assert (run false true w_deposit w0 = (w1, Ok ())) as E0 by by vm_compute.
  rewrite E0 in H0. destruct H0 as [H0 _]. specialize (H0 eq_refl).
  destruct (run false true w_deposit w1) as [s2 r2] eqn:E1. destruct H1 as [_ H1].
  apply H1; [by vm_compute|by left|exact H0].
Defined.

Lemma movement_succeeds_witness :
  0 < @decimalToStroops QDecimal (3 # 2)%Q ∧ snd (run false true w_deposit w0) = Ok ().
Proof.
  split; [by vm_compute|].
  apply (movement_succeeds (H := QDecimal) true true 7 9 (3 # 2)%Q "dep-1" w_deposit w0); try done.
  - apply w0_reach.
  - apply is_deposit.
  - by left.
  - by left.
  - right. repeat (apply Forall_cons; split; [intros (a & e & Ha & _); by apply elem_of_nil in Ha|]).
    by apply Forall_nil.
  - repeat (apply Forall2_cons; split; [by vm_compute|]). by apply Forall2_nil.
Defined.

Lemma harvest_outcome_witness :
  let c := CHarvest 7 9 2%Q 1%Q 3%Q "blend" "h-1" in
  snd (run false true c w0) = Ok () ∧
  length (entries (store (fst (run false true c w0)))) = 5%nat.
Proof.
  intros c. split; [by vm_compute|].
  pose proof (harvest_outcome (H := QDecimal) true true 7 9 2%Q 1%Q 3%Q "blend" "h-1" w0 (fst (run false true c w0))
    (w0_reach true) eq_refl) as H.
  destruct H as [[_ H]|[H _]]; [by vm_compute|rewrite H; by vm_compute|by vm_compute in H].
Defined.

(** A harvest whose only non-zero amount is its gross posts nothing and
    reports success, although gross is not net plus fee. *)
Lemma harvest_dropped :
  let c := CHarvest 7 9 0%Q 0%Q 3%Q "blend" "h-2" in
  snd (run false true c w0) = Ok () ∧ entries (store (fst (run false true c w0))) = [].
Proof. by vm_compute. Qed.

Lemma stroops_exact_witness :
  decimalToStroops (H := QDecimal) (3 # 2)%Q = 15000000 ∧
  decimalToStroops (stroopsToDecimal (H := QDecimal) 15000000) = 15000000.
Proof.
  split; [by vm_compute|]. by apply (stroops_exact (H := QDecimal) (3 # 2)%Q 15000000).
Defined.

(** A deposit of more than 2^62 stroops is posted although its legs sum to
    2^64: the two credits are not matched by the wrapped third leg. *)
Lemma overflowing_deposit_posted :
  let c := CDeposit 7 9 (inject_Z 461168601843) "big" in
  let s := fst (run false true c w0) in
  snd (run false true c w0) = Ok () ∧
  sum_Z (map Amount (entries (store s))) = 2 ^ 64 ∧ ValidateBooks (store s) = Err ErrScan.
Proof. by vm_compute. Qed.

(** Inside the caller's transaction the duplicate key that gives
    [ErrAlreadyPosted] also aborts the transaction: the caller cannot go on and
    commit as if the request were a no-op. *)
Lemma already_posted_aborts :
  let s1 := fst (BeginTx w1) in
  let '(s2, r) := run true true w_deposit s1 in
  r = Err ErrAlreadyPosted ∧ snd (Commit s2) = Err (ErrPg InFailedTransaction).
Proof. by vm_compute. Qed.

End LedgerBooks.
