(* ===== verification/LedgerReconcile.v ===== *)
(** Reconciliation of the ledger's pools with the balances on chain
    (src/apps/api/internal/domain/ledger/reconciliation.go). *)
From S2P Require Import Prelude Ledger LedgerRepo.

Module LedgerReconcile.
Import Ledger LedgerRepo.

Record ReconciliationConfig := mkConfig {
  Enabled : bool;
  ToleranceStroops : Z;
}.

(** The calls on [ReconciliationMetrics]. *)
Inductive Metric :=
| IncReconciliationRun (status : string)
| IncReconciliationDrift
| ObserveDriftAmount (vaultID diff : Z).

Section reconcile.
  (** [json_valid]: the texts a [jsonb] column accepts. [readVaultBalance]: the
      chain reader, [None] for an error. *)
  Context (json_valid : string → bool) (readVaultBalance : string → option Z).
  Context (cfg : ReconciliationConfig).

Definition absDiff (diff : Z) : Z := if diff <? 0 then i64 (- diff) else diff.

Definition drift_details (diff : Z) : string :=
  "drift of " +:+ pretty diff +:+ " stroops exceeds tolerance " +:+ pretty (ToleranceStroops cfg).

(** The record and the metrics of a vault whose two balances were read. *)
Definition assess (vaultID ledgerBal onChainBal recID now : Z)
  : ReconciliationRecord * list Metric :=
  let diff := i64 (ledgerBal - onChainBal) in
  let abs := absDiff diff in
  let '(status, details, ms) :=
    if ToleranceStroops cfg <? abs
    then ("drift", drift_details diff, [IncReconciliationDrift; ObserveDriftAmount vaultID abs])
    else ("ok", "", [IncReconciliationRun "ok"]) in
  (mkRec recID vaultID ledgerBal onChainBal diff (ToleranceStroops cfg) status details now, ms).

Definition read_pool (vaultID : Z) : M Z := exec_db (query (GetVaultPoolBalance vaultID)).

(** One turn of the loop. *)
Definition reconcile_one (contractAddresses : gmap Z string) (s : Session) (vaultID : Z)
  : Session * list Metric :=
  match contractAddresses !! vaultID with
  | None => (s, [])
  | Some contractAddr =>
      if contractAddr =s? "" then (s, [])
      else
        match read_pool vaultID s with
        | (s1, Err _) => (s1, [IncReconciliationRun "error"])
        | (s1, Ok ledgerBal) =>
            match readVaultBalance contractAddr with
            | None => (s1, [IncReconciliationRun "error"])
            | Some onChainBal =>
                let '(s2, recID) := (with_seed s1 (seed s1 + 1), seed s1) in
                let '(rec, ms) := assess vaultID ledgerBal onChainBal recID (clock s2) in
                (fst (CreateReconciliationRecord json_valid rec s2), ms)
            end
        end
  end.

Fixpoint reconcile_loop (contractAddresses : gmap Z string) (s : Session) (vaultIDs : list Z)
  : Session * list Metric :=
  match vaultIDs with
  | [] => (s, [])
  | v :: vs =>
      let '(s1, ms) := reconcile_one contractAddresses s v in
      let '(s2, ms') := reconcile_loop contractAddresses s1 vs in
      (s2, ms ++ ms')
  end.

Definition ReconcileVaults (vaultIDs : list Z) (contractAddresses : gmap Z string) (s : Session)
  : Session * list Metric :=
  if negb (Enabled cfg) then (s, []) else reconcile_loop contractAddresses s vaultIDs.

(** *** What a run reports *)

(** A vault's verdict from its exact balances. *)
Definition verdict (contractAddresses : gmap Z string) (st : Store) (v : Z) : list Metric :=
  match contractAddresses !! v with
  | None | Some "" => []
  | Some c =>
      match readVaultBalance c with
      | None => [IncReconciliationRun "error"]
      | Some onChain =>
          let d := Z.abs (GetVaultPoolBalance v st - onChain) in
          if ToleranceStroops cfg <? d then [IncReconciliationDrift; ObserveDriftAmount v d]
          else [IncReconciliationRun "ok"]
      end
  end.

(** The balances compared differ by less than 2^63. *)
Definition comparable (contractAddresses : gmap Z string) (st : Store) (v : Z) : Prop :=
  ∀ c onChain, contractAddresses !! v = Some c → readVaultBalance c = Some onChain →
    Z.abs (GetVaultPoolBalance v st - onChain) ≤ max_i64.

Definition same_books (s s' : Session) : Prop :=
  accounts (store s') = accounts (store s) ∧ entries (store s') = entries (store s) ∧
  balances (store s') = balances (store s).

Lemma create_record_books rec s :
  let s' := fst (CreateReconciliationRecord json_valid rec s) in
  same_books s s' ∧ txn s' = txn s ∧ (faults s = [] → faults s' = []).
Proof.
  unfold CreateReconciliationRecord, exec_db, round_trip, mbind, M_bind.
  destruct (RecID rec =? 0); simpl;
    (destruct (faults s) as [|[|] fs] eqn:E; simpl; rewrite ?E; simpl;
     [destruct (negb (json_valid _)); [done|]; destruct (negb _); [done|];
      destruct (existsb _ _); [done|]; destruct (negb _); done
     |done
     |destruct (negb (json_valid _)); [done|]; destruct (negb _); [done|];
      destruct (existsb _ _); [done|]; destruct (negb _); done]).
Qed.

Lemma absDiff_exact a b :
  Z.abs (a - b) ≤ max_i64 → absDiff (i64 (a - b)) = Z.abs (a - b).
Proof.
  intros H. unfold absDiff. rewrite i64_id by (unfold in_i64, min_i64, max_i64 in *; lia).
  destruct (Z.ltb_spec (a - b) 0); [rewrite i64_id|]; unfold in_i64, min_i64, max_i64 in *; lia.
Qed.

Lemma pool_same s s' v : same_books s s' → GetVaultPoolBalance v (store s') = GetVaultPoolBalance v (store s).
Proof. intros (Ha & _ & Hb). unfold GetVaultPoolBalance, vault_balances. by rewrite Ha, Hb. Qed.

Lemma reconcile_one_spec cs s v :
  faults s = [] → comparable cs (store s) v →
  let '(s', ms) := reconcile_one cs s v in
  ms = verdict cs (store s) v ∧ same_books s s' ∧ faults s' = [].
Proof.
  intros Hf Hc. unfold reconcile_one, verdict. destruct (cs !! v) as [c|] eqn:Hv; [|done].
  destruct (c =s? "") eqn:Hce.
  { apply string_eqb_eq in Hce as ->. done. }
  apply string_eqb_neq in Hce. unfold read_pool, exec_db, round_trip, query. rewrite Hf. simpl.
  destruct (readVaultBalance c) as [oc|] eqn:Hr.
  - specialize (Hc c oc Hv Hr). unfold assess. rewrite absDiff_exact by done.
    destruct (ToleranceStroops cfg <? _);
      match goal with |- context [CreateReconciliationRecord _ ?r ?s1] =>
        destruct (create_record_books r s1) as (Hb & _ & Hff) end;
      (split; [by destruct c|]); (split; [exact Hb|by apply Hff]).
  - split; [by destruct c|]. split; [done|done].
Qed.

Lemma same_books_trans s1 s2 s3 : same_books s1 s2 → same_books s2 s3 → same_books s1 s3.
Proof. intros (?&?&?) (?&?&?). split_and!; congruence. Qed.

Lemma reconcile_loop_spec cs s vs :
  faults s = [] → Forall (comparable cs (store s)) vs →
  let '(s', ms) := reconcile_loop cs s vs in
  ms = concat (map (verdict cs (store s)) vs) ∧ same_books s s'.
Proof.
  revert s. induction vs as [|v vs IH]; intros s Hf Hc; [done|].
  apply Forall_cons in Hc as [Hv Hc]. simpl.
  pose proof (reconcile_one_spec cs s v Hf Hv) as H1.
  destruct (reconcile_one cs s v) as [s1 ms]. destruct H1 as (-> & Hb & Hf1).
  assert (∀ w, verdict cs (store s1) w = verdict cs (store s) w) as Hw
    by (intros w; unfold verdict; by rewrite (pool_same s s1 w Hb)).
  specialize (IH s1 Hf1). destruct (reconcile_loop cs s1 vs) as [s2 ms'].
  destruct IH as [-> Hb2].
  - eapply Forall_impl; [exact Hc|]. intros w Hcw c oc. rewrite (pool_same s s1 w Hb). apply Hcw.
  - split; [|by eapply same_books_trans]. f_equal. f_equal. apply map_ext. apply Hw.
Qed.

(** A reconciliation run reports every vault by its exact balances, a drift
    exactly when they differ by more than the tolerance, as long as they differ
    by less than 2^63; and it never corrects the ledger. *)
Lemma reconcile_reports cs s vs :
  faults s = [] → Forall (comparable cs (store s)) vs →
  let '(s', ms) := ReconcileVaults vs cs s in
  ms = (if Enabled cfg then concat (map (verdict cs (store s)) vs) else []) ∧ same_books s s'.
Proof.
  intros Hf Hc. unfold ReconcileVaults. destruct (Enabled cfg); [|done].
  by apply reconcile_loop_spec.
Qed.

(** A JSON text starts with white space or the first byte of a JSON value. *)
Definition json_first : list Ascii.ascii :=
  map byte [9; 10; 13; 32; 34; 45; 48; 49; 50; 51; 52; 53; 54; 55; 56; 57; 91; 102; 110; 116; 123]%nat.

Definition json_rule : Prop :=
  ∀ s, json_valid s = true → ∃ c rest, s = String c rest ∧ c ∈ json_first.

Lemma assess_details v l o r now :
  json_rule → json_valid (Details (fst (assess v l o r now))) = false.
Proof.
  intros Hj. apply not_true_is_false. intros (c & rest & Hs & Hin)%Hj. unfold assess in Hs.
  destruct (_ <? _); simpl in Hs; [|done]. injection Hs as <- _.
  apply list_elem_of_In in Hin. vm_compute in Hin. naive_solver.
Qed.

Lemma create_record_rejected rec s :
  json_valid (Details rec) = false →
  store (fst (CreateReconciliationRecord json_valid rec s)) = store s.
Proof.
  intros Hd. unfold CreateReconciliationRecord, exec_db, round_trip, mbind, M_bind.
  destruct (RecID rec =? 0); simpl; destruct (faults s) as [|[|] fs] eqn:E; simpl;
    rewrite ?E; simpl; rewrite ?Hd; done.
Qed.

(** No run ever stores a reconciliation record: the details it writes, the
    empty string or an English sentence, are not JSON, and the column is. *)
Lemma reconcile_stores_nothing cs s vs :
  json_rule → store (fst (ReconcileVaults vs cs s)) = store s.
Proof.
  intros Hj. unfold ReconcileVaults. destruct (negb (Enabled cfg)); [done|].
  revert s. induction vs as [|v vs IH]; intros s; [done|]. simpl.
  assert (store (fst (reconcile_one cs s v)) = store s) as H1.
  { unfold reconcile_one, read_pool, exec_db, round_trip, query.
    destruct (cs !! v) as [c|]; [|done]. destruct (c =s? ""); [done|].
    destruct (faults s) as [|[|] fs]; simpl; [|done|];
      (destruct (readVaultBalance c) as [oc|]; [|done]);
      match goal with |- context [assess ?a ?b ?c ?d ?e] =>
        pose proof (assess_details a b c d e Hj); destruct (assess a b c d e) as [rec ms] end;
      simpl; by rewrite create_record_rejected. }
  specialize (IH (fst (reconcile_one cs s v))).
  destruct (reconcile_one cs s v) as [s1 ms]. simpl in *.
  destruct (reconcile_loop cs s1 vs) as [s2 ms']. simpl in *. congruence.
Qed.

End reconcile.

(** *** Witnesses *)

(** A reading of the column type that accepts objects only. *)
Definition objects_only (s : string) : bool :=
  match s with String c _ => bool_decide (c = byte 123) | EmptyString => false end.

Definition w_store : Store :=
  mkStore [7] [] [mkAccount 1 AccountTypeVaultAssetPool (Some 7) None None "USDC" "stroops" "" 0 0] []
    {[1 := mkBalance 500 "USDC" "stroops" 0 1]} [].
Definition w_session : Session := mkSession w_store None 2 [] 0.
Definition w_contracts : gmap Z string := {[7 := "CVAULT"]}.

Lemma reconcile_reports_witness :
  snd (ReconcileVaults objects_only (λ _, Some 380) (mkConfig true 100) [7] w_contracts w_session) =
    [IncReconciliationDrift; ObserveDriftAmount 7 120].
Proof.
  pose proof (reconcile_reports objects_only (λ _, Some 380) (mkConfig true 100) w_contracts
    w_session [7] eq_refl) as H.
  destruct (ReconcileVaults _ _ _ _ _ _) as [s' ms]. destruct H as [-> _]; [|by vm_compute].
  apply Forall_cons. split; [|by apply Forall_nil]. intros c oc _ [= <-]. by vm_compute.
Defined.

Lemma reconcile_stores_nothing_witness :
  json_rule objects_only ∧
  records (store (fst (ReconcileVaults objects_only (λ _, Some 380) (mkConfig true 100) [7]
    w_contracts w_session))) = [].
Proof.
  assert (json_rule objects_only) as Hj.
  { intros [|c rest]; [done|]. intros ->%bool_decide_eq_true. exists (byte 123), rest.
    split; [done|]. apply list_elem_of_In. vm_compute. tauto. }
  split; [exact Hj|]. by rewrite (reconcile_stores_nothing objects_only).
Defined.

(** When the two balances differ by exactly 2^63 the difference is its own
    negation, and the largest possible drift is reported as no drift. *)
Lemma drift_wraps :
  snd (assess (mkConfig true 100) 7 (- 2 ^ 63) 0 1 0) = [IncReconciliationRun "ok"].
Proof. by vm_compute. Qed.

End LedgerReconcile.
