(* ===== verification/AuditChain.v ===== *)
(** The tamper-evident audit log (src/apps/api/internal/audit/audit.go), the
    other writer of its table (repository/postgres/audit_log_repository.go) and
    the scheduled verifier (scheduler/audit_chain_verifier.go): the hash chain,
    its verification, redaction and anchoring. *)
From S2P Require Import Prelude TimeFormat.

Module AuditChain.
Import TimeFormat.

(** *** JSON and JSONB *)

(** [encoding/json] over the values of type [any], and what a JSONB column gives
    back for a text written to it ([None]: the text is refused). *)
Class JSON := {
  json : Type;
  of_string : string → json;
  of_int : Z → json;
  of_strings : list string → json;
  of_map : gmap string json → json;
  (** [json.Unmarshal] into a [map[string]any]: [null] gives the empty map. *)
  as_map : json → option (gmap string json);
  Unmarshal : string → option json;
  Marshal : json → option string;
  has_negative_zero : json → bool;
  jsonb : string → option string;
}.

(** A marshalled text reads back as a value that marshals to the same text, and
    JSONB keeps the value of a document, except that its numbers have no
    negative zero. *)
Class JSONLaws {J : JSON} := {
  Marshal_stable j s : Marshal j = Some s →
    ∃ j', Unmarshal s = Some j' ∧ Marshal j' = Some s;
  jsonb_value s s' j : Unmarshal s = Some j → has_negative_zero j = false →
    jsonb s = Some s' → ∃ j', Unmarshal s' = Some j' ∧ Marshal j' = Marshal j;
  empty_object : ∃ j, Unmarshal "{}" = Some j ∧ Marshal j = Some "{}"%string;
}.

(** *** Entries *)

(** A row of [audit_logs]; the columns migration 097 added are nullable. *)
Record Entry := mkEntry {
  ID : Z;
  UserID : option Z;
  Action : string;
  EntityType : string;
  EntityID : Z;
  OldValue : option string;
  NewValue : option string;
  IPAddress : option string;
  CreatedAt : Time;
  CorrelationID : option string;
  Sequence : option Z;
  Actor : option string;
  Target : option string;
  Detail : option string;
  DetailHash : option string;
  PrevHash : option string;
  EntryHash : option string;
  Anchored : bool;
  AnchorTxHash : option string;
  Redacted : bool;
}.

Definition nl : Ascii.ascii := byte 10.
Definition newline : string := String nl "".

(** The seven lines that are hashed. *)
Definition serial_fields (seq : Z) (ts : Time) (actor action target detailHash prevHash : string)
  : list string :=
  ["SEQ:" +:+ itoa seq; "TS:" +:+ rfc3339nano ts; "ACTOR:" +:+ actor; "ACTION:" +:+ action;
   "TARGET:" +:+ target; "DETAIL_HASH:" +:+ detailHash; "PREV_HASH:" +:+ prevHash]%string.

Fixpoint join_lines (fs : list string) : string :=
  match fs with
  | [] => ""
  | [f] => f
  | f :: rest => (f +:+ newline +:+ join_lines rest)%string
  end.

Definition CanonicalSerialize (seq : Z) (ts : Time)
    (actor action target detailHash prevHash : string) : string :=
  join_lines (serial_fields seq ts actor action target detailHash prevHash).

(** [time.Truncate(time.Microsecond)], which is also what a [timestamptz] column
    keeps of an instant. *)
Definition Truncate_us (t : Time) : Time := t - t mod 1000.

Section audit.
  Context {J : JSON} (sha256_hex : string → string).

Definition HashData (data : string) : string := sha256_hex data.

(** The dynamic types [CanonicalizeDetail] distinguishes; any other value comes
    with the outcome of marshalling it. *)
Inductive AnyDetail :=
| DetailNil
| DetailString (s : string)
| DetailBytes (b : string)
| DetailRaw (r : string)
| DetailOther (marshalled : option string).

Definition empty_detail : string * string := ("{}", HashData "{}").

Definition normalize (raw : string) : option (string * string) :=
  let parsed := match Unmarshal raw with
                | Some v => v
                | None => of_map {["raw" := of_string raw]}
                end in
  match Marshal parsed with
  | Some normalized => Some (normalized, HashData normalized)
  | None => None
  end.

Definition CanonicalizeDetail (detail : AnyDetail) : option (string * string) :=
  match detail with
  | DetailNil => Some empty_detail
  | DetailString s => if s =s? "" then Some empty_detail else normalize s
  | DetailBytes b => if b =s? "" then Some empty_detail else normalize b
  | DetailRaw r => normalize r
  | DetailOther None => None
  | DetailOther (Some b) => normalize b
  end.

(** *** The table *)

Inductive AuditErr :=
| ErrBegin | ErrQuery | ErrDetail | ErrInsert | ErrCommit
| ErrNotFound | ErrUnmarshal | ErrMarshal | ErrUpdate | ErrNoEntries | ErrFile.

(** Where the database fails during a transaction; a commit may be lost after it
    took effect. *)
Inductive Fault :=
| FaultBegin | FaultQuery | FaultWrite | FaultCommit | FaultCommitApplied.

#[global] Instance Fault_eq_dec : EqDecision Fault.
Proof. solve_decision. Defined.

Definition fails (fault : option Fault) (f : Fault) : bool := bool_decide (fault = Some f).

(** [ORDER BY sequence DESC LIMIT 1] scanned into an [int64] and a [string]: a
    NULL sequence sorts first, and no NULL can be scanned. *)
Inductive Latest := NoRows | ScanFails | LatestRow (seq : Z) (hash : string).

Definition later (e : Entry) (best : option Entry) : option Entry :=
  match best with
  | None => Some e
  | Some b => if default 0 (Sequence b) <? default 0 (Sequence e) then Some e else Some b
  end.

Definition latest (table : list Entry) : Latest :=
  if existsb (λ e, bool_decide (Sequence e = None)) table then ScanFails
  else match foldl (λ b e, later e b) None table with
       | None => NoRows
       | Some e => match Sequence e, EntryHash e with
                   | Some s, Some h => LatestRow s h
                   | _, _ => ScanFails
                   end
       end.

(** A nullable JSONB column. *)
Definition jsonb_column (v : option string) : option (option string) :=
  match v with
  | None => Some None
  | Some s => match jsonb s with Some s' => Some (Some s') | None => None end
  end.

(** [INSERT INTO audit_logs]: the primary key, the unique index on [sequence],
    the JSONB and timestamp columns. *)
Definition insert_row (table : list Entry) (e : Entry) : option (list Entry) :=
  if existsb (λ r, (ID r =? ID e) ||
       bool_decide (Sequence e ≠ None ∧ Sequence r = Sequence e)) table then None
  else
    match jsonb_column (OldValue e), jsonb_column (NewValue e), jsonb_column (Detail e) with
    | Some o, Some n, Some d =>
        Some (table ++
          [mkEntry (ID e) (UserID e) (Action e) (EntityType e) (EntityID e) o n (IPAddress e)
             (Truncate_us (CreatedAt e)) (CorrelationID e) (Sequence e) (Actor e) (Target e) d
             (DetailHash e) (PrevHash e) (EntryHash e) (Anchored e) (AnchorTxHash e) (Redacted e)])
    | _, _, _ => None
    end.

Record LogArgs := mkLogArgs {
  LUserID : option Z;
  LActor : string;
  LAction : string;
  LTarget : string;
  LDetail : AnyDetail;
  LOldValue : option string;
  LNewValue : option string;
  LIPAddress : option string;
}.

Definition commit {A} (fault : option Fault) (before after : list Entry) (a : A)
  : result AuditErr A * list Entry :=
  if fails fault FaultCommit then (Err ErrCommit, before)
  else if fails fault FaultCommitApplied then (Err ErrCommit, after)
  else (Ok a, after).

(** [LogAction] under the service's mutex; [clock] and [id] are what [time.Now]
    and [uuid.New] give. *)
Definition LogAction (table : list Entry) (a : LogArgs) (clock : Time) (id : Z)
    (fault : option Fault) : result AuditErr Entry * list Entry :=
  if fails fault FaultBegin then (Err ErrBegin, table)
  else if fails fault FaultQuery then (Err ErrQuery, table)
  else
    match latest table with
    | ScanFails => (Err ErrQuery, table)
    | row =>
        let nextSeq := match row with LatestRow lastSeq _ => i64 (lastSeq + 1) | _ => 1 end in
        let prevHash := match row with LatestRow _ lastHash => lastHash | _ => ""%string end in
        match CanonicalizeDetail (LDetail a) with
        | None => (Err ErrDetail, table)
        | Some (detailJSON, detailHash) =>
            let now := Truncate_us clock in
            let serialData :=
              CanonicalSerialize nextSeq now (LActor a) (LAction a) (LTarget a) detailHash prevHash in
            let entryHash := HashData serialData in
            let entry := mkEntry id (LUserID a) (LAction a) "audit" id (LOldValue a) (LNewValue a)
                           (LIPAddress a) now None (Some nextSeq) (Some (LActor a))
                           (Some (LTarget a)) (Some detailJSON) (Some detailHash) (Some prevHash)
                           (Some entryHash) false None false in
            if fails fault FaultWrite then (Err ErrInsert, table)
            else match insert_row table entry with
                 | None => (Err ErrInsert, table)
                 | Some table' => commit fault table table' entry
                 end
        end
    end.

(** [PostgresAuditLogger.Log]: the session and admin events' writer, which fills
    none of the chain's columns. *)
Definition PostgresAuditLogger_Log (table : list Entry) (id : Z) (user : option Z)
    (action entityType : string) (entityID : Z) (oldJSON newJSON : option string)
    (ip corr : option string) (now : Time) (fault : option Fault)
  : result AuditErr unit * list Entry :=
  match oldJSON, newJSON with
  | Some o, Some n =>
      if fails fault FaultWrite then (Err ErrInsert, table)
      else match insert_row table (mkEntry id user action entityType entityID (Some o) (Some n) ip
                   now corr None None None None None None None false None false) with
           | None => (Err ErrInsert, table)
           | Some table' => (Ok tt, table')
           end
  | _, _ => (Err ErrMarshal, table)
  end.

(** *** Verification *)

Inductive VerifyErr :=
| VErrQuery | VErrRows | VErrScan | VErrGap | VErrPrevHash | VErrFirstPrevHash
| VErrDetail | VErrDetailHash | VErrEntryHash.

(** The columns [VerifyChain] selects, scanned into the fields of an [Entry]
    variable; [Detail] is a [json.RawMessage], for which NULL is the empty
    slice. *)
Record Link := mkLink {
  lk_seq : Z;
  lk_created : Time;
  lk_actor : string;
  lk_action : string;
  lk_target : string;
  lk_detail : string;
  lk_detail_hash : string;
  lk_prev_hash : string;
  lk_entry_hash : string;
  lk_redacted : bool;
}.

Definition scan_link (e : Entry) : option Link :=
  match Sequence e, Actor e, Target e, DetailHash e, PrevHash e, EntryHash e with
  | Some s, Some a, Some t, Some dh, Some ph, Some eh =>
      Some (mkLink s (CreatedAt e) a (Action e) t (default ""%string (Detail e)) dh ph eh (Redacted e))
  | _, _, _, _, _, _ => None
  end.

Definition seq_of (e : Entry) : Z := default 0 (Sequence e).

Definition in_range (fromSeq toSeq : Z) (e : Entry) : bool :=
  match Sequence e with Some s => (fromSeq <=? s) && (s <=? toSeq) | None => false end.

Definition seq_le (a b : Entry) : Prop := seq_of a ≤ seq_of b.
#[global] Instance seq_le_dec a b : Decision (seq_le a b).
Proof. unfold seq_le. apply _. Defined.
#[global] Instance seq_le_trans : Transitive seq_le.
Proof. intros a b c. unfold seq_le. lia. Qed.
#[global] Instance seq_le_total : Total seq_le.
Proof. intros a b. unfold seq_le. lia. Qed.

(** [WHERE sequence >= $1 AND sequence <= $2 ORDER BY sequence ASC]. *)
Definition select_range (table : list Entry) (fromSeq toSeq : Z) : list Entry :=
  merge_sort seq_le (filter (λ e, in_range fromSeq toSeq e = true) table).

Definition link_serial (l : Link) : string :=
  CanonicalSerialize (lk_seq l) (lk_created l) (lk_actor l) (lk_action l) (lk_target l)
    (lk_detail_hash l) (lk_prev_hash l).

(** The checks of one row, in the loop's order. *)
Definition check_link (expectedSeq : Z) (expectedPrev : option string) (l : Link)
  : option VerifyErr :=
  if negb (lk_seq l =? expectedSeq) then Some VErrGap
  else if match expectedPrev with
          | Some p => negb (lk_prev_hash l =s? p)
          | None => false
          end then Some VErrPrevHash
  else if match expectedPrev with
          | Some _ => false
          | None => (lk_seq l =? 1) && negb (lk_prev_hash l =s? "")
          end then Some VErrFirstPrevHash
  else match (if lk_redacted l then None
              else match CanonicalizeDetail (DetailRaw (lk_detail l)) with
                   | None => Some VErrDetail
                   | Some (_, h) => if h =s? lk_detail_hash l then None else Some VErrDetailHash
                   end) with
       | Some err => Some err
       | None => if HashData (link_serial l) =s? lk_entry_hash l then None else Some VErrEntryHash
       end.

Fixpoint verify_rows (rows : list Entry) (expectedSeq : Z) (expectedPrev : option string)
  : bool * Z * option VerifyErr :=
  match rows with
  | [] => (true, 0, None)
  | e :: rest =>
      match scan_link e with
      | None => (false, 0, Some VErrScan)
      | Some l =>
          match check_link expectedSeq expectedPrev l with
          | Some err => (false, lk_seq l, Some err)
          | None => verify_rows rest (i64 (expectedSeq + 1)) (Some (lk_entry_hash l))
          end
      end
  end.

(** The query fails, or the connection is lost after some rows have been read. *)
Inductive VerifyFault := VFaultQuery | VFaultRows (n : nat).

Definition VerifyChain (table : list Entry) (fromSeq toSeq : Z) (fault : option VerifyFault)
  : bool * Z * option VerifyErr :=
  let fromSeq := if fromSeq <=? 0 then 1 else fromSeq in
  let rows := select_range table fromSeq toSeq in
  match fault with
  | Some VFaultQuery => (false, 0, Some VErrQuery)
  | Some (VFaultRows n) =>
      match verify_rows (take n rows) fromSeq None with
      | (true, _, _) => (false, 0, Some VErrRows)
      | broken => broken
      end
  | None => verify_rows rows fromSeq None
  end.

(** *** Redaction *)

Definition set_redacted (s : Z) (newDetail : string) (e : Entry) : Entry :=
  if bool_decide (Sequence e = Some s) then
    mkEntry (ID e) (UserID e) (Action e) (EntityType e) (EntityID e) (OldValue e) (NewValue e)
      (IPAddress e) (CreatedAt e) (CorrelationID e) (Sequence e) (Actor e) (Target e)
      (Some newDetail) (DetailHash e) (PrevHash e) (EntryHash e) (Anchored e) (AnchorTxHash e) true
  else e.

(** The loop over the keys: the map and whether anything was redacted. *)
Definition redact_keys (keys : list string) (m : gmap string json) : gmap string json * bool :=
  foldl (λ st key, match st.1 !! key with
                   | Some _ => (<[key := of_string "[REDACTED]"]> st.1, true)
                   | None => st
                   end) (m, false) keys.

(** [redactDetail]: whether anything was redacted. The entry's hash is scanned
    into a [string], so it may not be NULL. *)
Definition redactDetail (table : list Entry) (s : Z) (keys : list string) (fault : option Fault)
  : result AuditErr bool * list Entry :=
  if fails fault FaultBegin then (Err ErrBegin, table)
  else if fails fault FaultQuery then (Err ErrQuery, table)
  else
    match list_find (λ e, Sequence e = Some s) table with
    | None => (Err ErrNotFound, table)
    | Some (_, e) =>
        match DetailHash e with
        | None => (Err ErrQuery, table)
        | Some _ =>
            match Unmarshal (default ""%string (Detail e)) ≫= as_map with
            | None => (Err ErrUnmarshal, table)
            | Some detailMap =>
                let '(detailMap', redactedAny) := redact_keys keys detailMap in
                if negb redactedAny then (Ok false, table)
                else match Marshal (of_map detailMap') with
                     | None => (Err ErrMarshal, table)
                     | Some newDetail =>
                         match (if fails fault FaultWrite then None else jsonb newDetail) with
                         | None => (Err ErrUpdate, table)
                         | Some stored =>
                             commit fault table (map (set_redacted s stored) table) true
                         end
                     end
            end
        end
    end.

(** The entry that records a redaction. *)
Definition redaction_args (s : Z) (keys : list string) : LogArgs :=
  mkLogArgs None "system" "redaction" ("audit_logs:sequence:" +:+ itoa s)
    (DetailOther (Marshal (of_map {["target_sequence" := of_int s;
                                    "redacted_fields" := of_strings keys]})))
    None None None.

(** [RedactEntry]: the redaction and, once the mutex is free again, its own
    entry, whose failure is ignored. Other operations may run in between, which
    [between] does to the table. *)
Definition RedactEntry (table : list Entry) (s : Z) (keys : list string) (fault : option Fault)
    (between : list Entry → list Entry) (clock : Time) (id : Z) (logFault : option Fault)
  : option AuditErr * list Entry :=
  match redactDetail table s keys fault with
  | (Err e, t) => (Some e, t)
  | (Ok false, t) => (None, t)
  | (Ok true, t) => (None, (LogAction (between t) (redaction_args s keys) clock id logFault).2)
  end.

(** *** Anchoring *)

Record AuditStore := mkAuditStore {
  audit_logs : list Entry;
  anchor_file : list string;
}.

Inductive AnchorFault := AnchorQuery | AnchorOpen | AnchorWrite | AnchorUpdate.

#[global] Instance AnchorFault_eq_dec : EqDecision AnchorFault.
Proof. solve_decision. Defined.

Definition set_anchored (s : Z) (ref : string) (e : Entry) : Entry :=
  if bool_decide (Sequence e = Some s) then
    mkEntry (ID e) (UserID e) (Action e) (EntityType e) (EntityID e) (OldValue e) (NewValue e)
      (IPAddress e) (CreatedAt e) (CorrelationID e) (Sequence e) (Actor e) (Target e)
      (Detail e) (DetailHash e) (PrevHash e) (EntryHash e) true (Some ref) (Redacted e)
  else e.

(** [time.RFC3339] has no fraction. *)
Definition rfc3339 (t : Time) : string := rfc3339nano (t - t mod 1000000000).

Definition anchorRecord (clock : Time) (s : Z) (hash : string) : string :=
  ("[" +:+ rfc3339 clock +:+ "] SEQ:" +:+ itoa s +:+ " HASH:" +:+ hash +:+ newline)%string.

Definition AnchorLatestEntry (st : AuditStore) (filePath : string) (clock : Time)
    (fault : option AnchorFault) : result AuditErr string * AuditStore :=
  if bool_decide (fault = Some AnchorQuery) then (Err ErrQuery, st)
  else
    match latest (audit_logs st) with
    | NoRows => (Err ErrNoEntries, st)
    | ScanFails => (Err ErrQuery, st)
    | LatestRow s h =>
        if bool_decide (fault = Some AnchorOpen ∨ fault = Some AnchorWrite) then (Err ErrFile, st)
        else
          let st' := mkAuditStore (audit_logs st) (anchor_file st ++ [anchorRecord clock s h]) in
          if bool_decide (fault = Some AnchorUpdate) then (Err ErrUpdate, st')
          else let ref := ("file:" +:+ filePath)%string in
               (Ok ref, mkAuditStore (map (set_anchored s ref) (audit_logs st)) (anchor_file st'))
    end.

(** *** The scheduled verifier *)

Record AuditChainVerifierConfig := mkVerifierConfig {
  Enabled : bool;
  Interval : Duration;
  BatchSize : Z;
}.

Definition RunOnce (cfg : AuditChainVerifierConfig) (table : list Entry)
    (fault : option VerifyFault) : bool * Z * option VerifyErr :=
  let from := 1 in
  let to := if 0 <? BatchSize cfg then i64 (i64 (from + BatchSize cfg) - 1) else max_i64 in
  VerifyChain table from to fault.

(** [runOnce]: the alert raised, if any. *)
Definition runOnce (cfg : AuditChainVerifierConfig) (table : list Entry)
    (fault : option VerifyFault) : option (Z * option VerifyErr) :=
  match RunOnce cfg table fault with
  | (ok, brokenSeq, err) =>
      if bool_decide (err ≠ None) || negb ok then Some (brokenSeq, err) else None
  end.

(** *** Specification: a hash chain *)

(** A row carries the hash of its own contents, and of its detail unless that
    was redacted. *)
Definition link_ok (l : Link) : Prop :=
  (lk_redacted l = false → ∃ text, CanonicalizeDetail (DetailRaw (lk_detail l)) =
                             Some (text, lk_detail_hash l)) ∧
  lk_entry_hash l = HashData (link_serial l).

(** [rows] are numbered from [s] without a gap, each links to the hash before it,
    the first one to [prev]. *)
Fixpoint chain_from (prev : string) (s : Z) (rows : list Entry) : Prop :=
  match rows with
  | [] => True
  | e :: rest =>
      ∃ l, scan_link e = Some l ∧ lk_seq l = s ∧ lk_prev_hash l = prev ∧ link_ok l ∧
           chain_from (lk_entry_hash l) (i64 (s + 1)) rest
  end.

(** *** Verification accepts exactly the chains *)

Definition prev_fits (expected : option string) (s : Z) (prev : string) : Prop :=
  match expected with Some p => prev = p | None => s = 1 → prev = ""%string end.

Lemma check_link_none s p l :
  check_link s p l = None ↔ lk_seq l = s ∧ prev_fits p s (lk_prev_hash l) ∧ link_ok l.
Proof.
  unfold check_link, link_ok, prev_fits.
  destruct (lk_seq l =? s) eqn:Es; reflect_bools; [subst s|naive_solver]. cbn [negb].
  assert (∀ b : bool, (match (if b then None else
      match CanonicalizeDetail (DetailRaw (lk_detail l)) with
      | Some (_, h) => if h =s? lk_detail_hash l then None else Some VErrDetailHash
      | None => Some VErrDetail end) with
    | Some err => Some err
    | None => if HashData (link_serial l) =s? lk_entry_hash l then None else Some VErrEntryHash
    end = None) ↔
    (b = false → ∃ text, CanonicalizeDetail (DetailRaw (lk_detail l)) = Some (text, lk_detail_hash l)) ∧
    lk_entry_hash l = HashData (link_serial l)) as Hrest.
  { intros b. destruct b.
    - destruct (_ =s? _) eqn:E; reflect_bools; naive_solver.
    - destruct (CanonicalizeDetail _) as [[t h]|]; [|naive_solver].
      destruct (h =s? _) eqn:Eh; reflect_bools; [|naive_solver].
      destruct (_ =s? lk_entry_hash l) eqn:E; reflect_bools; naive_solver. }
  specialize (Hrest (lk_redacted l)). destruct p as [p|].
  - destruct (lk_prev_hash l =s? p) eqn:Ep; reflect_bools; cbn [negb]; [|naive_solver].
    rewrite Hrest. naive_solver.
  - destruct ((lk_seq l =? 1) && _) eqn:Ep; reflect_bools; [naive_solver|].
    rewrite Hrest. split; [|naive_solver]. intros [H1 H2]. split_and!; try done.
    intros H3. destruct Ep as [Ep|Ep]; reflect_bools; done.
Qed.

Lemma verify_rows_link s p e rest l :
  scan_link e = Some l → check_link s p l = None →
  verify_rows (e :: rest) s p = verify_rows rest (i64 (s + 1)) (Some (lk_entry_hash l)).
Proof. intros Hs Hc. cbn. by rewrite Hs, Hc. Qed.

Lemma verify_rows_chain rows : ∀ s p,
  verify_rows rows s p = (true, 0, None) ↔
    ∃ prev, chain_from prev s rows ∧ prev_fits p s prev.
Proof.
  induction rows as [|e rest IH]; intros s p; cbn.
  { split; [|done]. intros _. exists (default "" p)%string. by destruct p. }
  destruct (scan_link e) as [l|]; [|split; [done|naive_solver]].
  destruct (check_link s p l) as [err|] eqn:Ec.
  - split; [done|]. intros (prev & (l' & Hl & Hs & Hp & Hok & _) & Hf). simplify_eq.
    assert (check_link (lk_seq l') p l' = None) by by apply check_link_none. congruence.
  - apply check_link_none in Ec as (Hs & Hp & Hok). rewrite IH. split.
    + intros (prev & Hc & ->). exists (lk_prev_hash l). naive_solver.
    + intros (prev & (l' & Hl & _ & _ & _ & Hc) & _). simplify_eq. by eexists.
Qed.

(** What a failing verification reports. *)
Lemma verify_rows_broken rows : ∀ s p b seq err,
  verify_rows rows s p = (b, seq, Some err) →
  b = false ∧ ∃ good e rest prev, rows = good ++ e :: rest ∧
    chain_from prev s good ∧ prev_fits p s prev ∧
    (match scan_link e with Some l => seq = lk_seq l | None => seq = 0 end) ∧
    ¬ ∃ prev', chain_from prev' s (good ++ [e]) ∧ prev_fits p s prev'.
Proof.
  induction rows as [|e rest IH]; intros s p b seq err H; cbn in H; [done|].
  destruct (scan_link e) as [l|] eqn:El.
  2:{ simplify_eq. split; [done|]. exists [], e, rest, (default "" p)%string.
      split_and!; try done; [by destruct p|by rewrite El|]. cbn. rewrite El. naive_solver. }
  destruct (check_link s p l) as [er|] eqn:Ec.
  - simplify_eq. split; [done|]. exists [], e, rest, (default "" p)%string.
    split_and!; try done; [by destruct p|by rewrite El|]. cbn. rewrite El.
    intros (prev & (l' & ? & Hs & Hp & Hok & _) & Hf). simplify_eq.
    assert (check_link (lk_seq l') p l' = None) by by apply check_link_none. congruence.
  - apply IH in H as (Hb & good & e' & rest' & prev & -> & Hc & Hf & Hseq & Hn).
    cbn in Hf. subst prev. apply check_link_none in Ec as (Hs & Hp & Hok).
    split; [done|]. exists (e :: good), e', rest', (lk_prev_hash l).
    split_and!; try done; [cbn; naive_solver|].
    intros (prev' & (l' & ? & ? & ? & ? & Hc') & Hf'). simplify_eq. apply Hn. by eexists.
Qed.

(** *** The serialization can be read back when no field has a line break *)

Definition newline_free (s : string) : Prop := nl ∉ bytes_of s.

Definition nl_count (s : string) : nat := length (filter (λ c, c = nl) (bytes_of s)).

Lemma nl_count_app a b : nl_count (a +:+ b)%string = (nl_count a + nl_count b)%nat.
Proof. unfold nl_count. by rewrite bytes_of_app, filter_app, length_app. Qed.

Lemma nl_count_free s : nl_count s = 0%nat ↔ newline_free s.
Proof.
  unfold nl_count, newline_free. induction (bytes_of s) as [|c l IH].
  - cbn. set_solver.
  - rewrite filter_cons, not_elem_of_cons. case_decide; cbn; naive_solver.
Qed.

Definition nl_total (fs : list string) : nat := foldr (λ f n, nl_count f + n)%nat 0%nat fs.

Lemma nl_total_free fs : nl_total fs = 0%nat ↔ Forall newline_free fs.
Proof.
  induction fs as [|f fs IH]; [by split|]. cbn [nl_total foldr]. fold (nl_total fs).
  rewrite Forall_cons, <- IH, <- nl_count_free. lia.
Qed.

Lemma nl_count_join fs : fs ≠ [] → nl_count (join_lines fs) = (pred (length fs) + nl_total fs)%nat.
Proof.
  induction fs as [|f [|g fs] IH]; intros Hne; [done|cbn [join_lines length nl_total foldr pred]; lia|].
  change (join_lines (f :: g :: fs)) with (f +:+ newline +:+ join_lines (g :: fs))%string.
  rewrite !nl_count_app, IH by done. change (nl_count newline) with 1%nat. cbn [length nl_total foldr pred]. lia.
Qed.

(** Texts of as many lines are equal only line by line: one side has no line
    break in a field, so by counting the other has none either. *)
Lemma join_lines_inj fs : ∀ gs,
  length fs = length gs → Forall newline_free fs → join_lines fs = join_lines gs → fs = gs.
Proof.
  assert (∀ gs, length fs = length gs → Forall newline_free fs → Forall newline_free gs →
    join_lines fs = join_lines gs → fs = gs) as Hfree.
  { induction fs as [|f [|f' fs] IH]; intros [|g [|g' gs]] Hlen Hf Hg Heq; try done.
    - cbn in Heq. by subst.
    - apply Forall_cons in Hf as [Hf Hfs], Hg as [Hg Hgs].
      change (f +:+ newline +:+ join_lines (f' :: fs) = g +:+ newline +:+ join_lines (g' :: gs))%string in Heq.
      apply (f_equal bytes_of) in Heq. rewrite !bytes_of_app in Heq.
      apply split_first in Heq as [E1 E2]; [|done..]. apply bytes_of_inj in E1, E2.
      subst g. f_equal. apply IH; try done. cbn in Hlen |- *. lia. }
  intros gs Hlen Hf Heq. apply Hfree; try done. apply nl_total_free.
  apply nl_total_free in Hf. destruct (decide (fs = [])) as [->|Hne]; [by destruct gs|].
  assert (gs ≠ []) as Hne' by (destruct fs, gs; done).
  apply (f_equal nl_count) in Heq. rewrite !nl_count_join in Heq by done. lia.
Qed.

Lemma newline_free_plain s : plain_text s → newline_free s.
Proof. intros H. by apply plain_not_in. Qed.

Lemma newline_free_app a b : newline_free (a +:+ b)%string ↔ newline_free a ∧ newline_free b.
Proof. unfold newline_free. rewrite bytes_of_app. set_solver. Qed.

Lemma prefix_inj (p a b : string) : (p +:+ a)%string = (p +:+ b)%string → a = b.
Proof.
  intros H. apply (f_equal bytes_of) in H. rewrite !bytes_of_app in H.
  by apply app_inv_head, bytes_of_inj in H.
Qed.

Lemma CanonicalSerialize_inj s t a c g d p s' t' a' c' g' d' p' :
  Forall newline_free [a; c; g; d; p] → renderable t → renderable t' →
  CanonicalSerialize s t a c g d p = CanonicalSerialize s' t' a' c' g' d' p' →
  s = s' ∧ t = t' ∧ a = a' ∧ c = c' ∧ g = g' ∧ d = d' ∧ p = p'.
Proof.
  intros Hf Ht Ht' H. apply join_lines_inj in H; [|done|].
  - unfold serial_fields, itoa in H. injection H as Hs Hts ? ? ? ? ?.
    apply prefix_inj, (inj (pretty (A := Z))) in Hs. apply rfc3339nano_inj in Hts; [|exact Ht|exact Ht']. by split_and!.
  - rewrite !Forall_cons in Hf. destruct_and!.
    assert (newline_free (itoa s)) by apply newline_free_plain, plain_pretty.
    assert (newline_free (rfc3339nano t)) by apply newline_free_plain, plain_rfc3339nano.
    repeat (apply Forall_cons; split); try (by apply Forall_nil);
      apply newline_free_app; (split; [by apply nl_count_free|done]).
Qed.

(** *** Two chains that end in the same hash are the same *)

Definition collision : Prop := ∃ a b, a ≠ b ∧ sha256_hex a = sha256_hex b.

(** What a verified row commits to: everything but the text of its detail, and
    that too when neither copy has been redacted. *)
Definition same_record (l l' : Link) : Prop :=
  lk_seq l = lk_seq l' ∧ lk_created l = lk_created l' ∧ lk_actor l = lk_actor l' ∧
  lk_action l = lk_action l' ∧ lk_target l = lk_target l' ∧
  lk_detail_hash l = lk_detail_hash l' ∧ lk_prev_hash l = lk_prev_hash l' ∧
  (lk_redacted l = false → lk_redacted l' = false →
   ∃ text h, CanonicalizeDetail (DetailRaw (lk_detail l)) = Some (text, h) ∧
             CanonicalizeDetail (DetailRaw (lk_detail l')) = Some (text, h)).

(** The fields of an honest row, on which [CanonicalSerialize] is unambiguous. *)
Definition clean_link (l : Link) : Prop :=
  Forall newline_free [lk_actor l; lk_action l; lk_target l; lk_detail_hash l; lk_prev_hash l].

Lemma CanonicalizeDetail_hash d t h : CanonicalizeDetail d = Some (t, h) → h = HashData t.
Proof.
  unfold CanonicalizeDetail, normalize, empty_detail. intros H.
  destruct d as [|s|s|s|[s|]]; repeat case_match; by simplify_eq.
Qed.

Lemma links_agree l l' :
  clean_link l → renderable (lk_created l) → renderable (lk_created l') →
  link_ok l → link_ok l' → lk_entry_hash l = lk_entry_hash l' →
  same_record l l' ∨ collision.
Proof.
  intros Hc Ht Ht' [Hd Hh] [Hd' Hh'] Heq. rewrite Hh, Hh' in Heq.
  destruct (decide (link_serial l = link_serial l')) as [E|]; [|right; by do 2 eexists].
  unfold link_serial in E. apply CanonicalSerialize_inj in E as (? & ? & ? & ? & ? & Edh & ?); try done.
  destruct (lk_redacted l) eqn:Er; [left; unfold same_record; rewrite Er; naive_solver|].
  destruct (lk_redacted l') eqn:Er'; [left; unfold same_record; rewrite Er'; naive_solver|].
  destruct (Hd eq_refl) as [x Hx], (Hd' eq_refl) as [x' Hx'].
  destruct (decide (x = x')) as [<-|Hne].
  - left. unfold same_record. split_and!; try done. intros _ _. exists x. eexists.
    split; [done|]. by rewrite Hx', Edh.
  - right. exists x, x'. split; [done|].
    apply CanonicalizeDetail_hash in Hx, Hx'. unfold HashData in *. congruence.
Qed.

Definition last_hash (rows : list Entry) : option string := last rows ≫= EntryHash.

Definition renderable_row (e : Entry) : Prop := renderable (CreatedAt e).
Definition clean_row (e : Entry) : Prop :=
  match scan_link e with Some l => clean_link l | None => True end.

#[global] Instance renderable_row_dec e : Decision (renderable_row e).
Proof. unfold renderable_row, renderable. apply _. Defined.

#[global] Instance clean_row_dec e : Decision (clean_row e).
Proof.
  unfold clean_row. destruct (scan_link e); [|apply _].
  unfold clean_link, newline_free. apply _.
Defined.

Definition rows_agree (e e' : Entry) : Prop :=
  ∃ l l', scan_link e = Some l ∧ scan_link e' = Some l' ∧ same_record l l'.

Lemma scan_link_fields e l : scan_link e = Some l →
  Sequence e = Some (lk_seq l) ∧ CreatedAt e = lk_created l ∧ EntryHash e = Some (lk_entry_hash l) ∧
  PrevHash e = Some (lk_prev_hash l) ∧ lk_redacted l = Redacted e.
Proof. unfold scan_link. intros H. repeat case_match; by simplify_eq. Qed.

(** Going backwards from the common last hash, each row's [prev_hash] fixes the
    hash of the row before it. *)
Lemma chains_agree rows : ∀ rows' prev prev' s,
  chain_from prev s rows → chain_from prev' s rows' → length rows = length rows' →
  Forall clean_row rows → Forall renderable_row rows → Forall renderable_row rows' →
  last_hash rows = last_hash rows' →
  (Forall2 rows_agree rows rows' ∧ (rows ≠ [] → prev = prev')) ∨ collision.
Proof.
  induction rows as [|e rest IH]; intros [|e' rest'] prev prev' s Hc Hc' Hlen Hcl Hr Hr' Hlast;
    try done; [by left|].
  destruct Hc as (l & Hl & Hs & Hp & Hok & Hc), Hc' as (l' & Hl' & Hs' & Hp' & Hok' & Hc').
  apply Forall_cons in Hcl as [Hcl Hcls], Hr as [Hr Hrs], Hr' as [Hr' Hrs'].
  pose proof (scan_link_fields _ _ Hl) as (_ & Et & Eh & _).
  pose proof (scan_link_fields _ _ Hl') as (_ & Et' & Eh' & _).
  unfold renderable_row in Hr, Hr'. rewrite Et in Hr. rewrite Et' in Hr'.
  assert (rest = [] ∨ last_hash rest = last_hash rest' ∧ rest ≠ []) as Hcase.
  { destruct rest as [|x r], rest' as [|x' r']; try done; [by left|]. right. done. }
  assert ((Forall2 rows_agree rest rest' ∧ lk_entry_hash l = lk_entry_hash l') ∨ collision)
    as [[HF Hh]|]; [|clear IH|by right].
  { destruct Hcase as [->|[Hl2 Hne]].
    - destruct rest'; [|done]. left. split; [constructor|].
      unfold last_hash in Hlast. cbn in Hlast. congruence.
    - edestruct (IH rest') as [[HF Hh]|]; try done; [by injection Hlen|left; auto|by right]. }
  unfold clean_row in Hcl. rewrite Hl in Hcl.
  destruct (links_agree l l' Hcl Hr Hr' Hok Hok' Hh) as [Hsame|]; [|by right].
  left. split; [constructor; [by exists l, l'|done]|]. intros _.
  unfold same_record in Hsame. destruct_and!. congruence.
Qed.

(** *** Chains as lists *)

Fixpoint end_hash (prev : string) (rows : list Entry) : string :=
  match rows with
  | [] => prev
  | e :: rest => end_hash (default "" (EntryHash e))%string rest
  end.

Definition advance (s : Z) (n : nat) : Z := Nat.iter n (λ x, i64 (x + 1)) s.

Lemma advance_S s n : advance (i64 (s + 1)) n = advance s (S n).
Proof. symmetry. exact (Nat.iter_succ_r n (λ x, i64 (x + 1)) s). Qed.

Lemma advance_small s n : 0 ≤ s → s + Z.of_nat n ≤ max_i64 → advance s n = s + Z.of_nat n.
Proof.
  intros Hs. induction n as [|n IH]; intros Hn; [cbn; lia|].
  change (advance s (S n)) with (i64 (advance s n + 1)). rewrite IH, i64_id; unfold in_i64, min_i64, max_i64 in *; lia.
Qed.

Lemma i64_succ s : 0 ≤ s < max_i64 → i64 (s + 1) = s + 1.
Proof. intros. apply i64_id. unfold in_i64, min_i64, max_i64 in *. lia. Qed.

Lemma chain_from_app rows rows' : ∀ prev s,
  chain_from prev s (rows ++ rows') ↔
  chain_from prev s rows ∧ chain_from (end_hash prev rows) (advance s (length rows)) rows'.
Proof.
  induction rows as [|e rest IH]; intros prev s; [cbn; tauto|].
  cbn [chain_from app length end_hash]. setoid_rewrite IH. setoid_rewrite advance_S.
  split.
  - intros (l & Hl & ? & ? & ? & ? & Hc). pose proof (scan_link_fields _ _ Hl) as (_ & _ & -> & _).
    eauto 10.
  - intros [(l & Hl & ? & ? & ? & ?) Hc]. pose proof (scan_link_fields _ _ Hl) as (_ & _ & Eh & _).
    rewrite Eh in Hc. eauto 10.
Qed.

(** The rows of a chain are numbered consecutively. *)
Lemma chain_from_seq rows : ∀ prev s i e,
  chain_from prev s rows → 0 ≤ s → s + Z.of_nat (length rows) ≤ max_i64 + 1 →
  rows !! i = Some e → Sequence e = Some (s + Z.of_nat i).
Proof.
  induction rows as [|e' rest IH]; intros prev s i e Hc Hs Hmax Hi; [done|].
  destruct Hc as (l & Hl & Hseq & _ & _ & Hc). destruct i as [|i]; cbn in Hi.
  - simplify_eq. apply scan_link_fields in Hl as (-> & _). f_equal. lia.
  - cbn [length] in Hmax. destruct rest as [|e2 rest]; [done|]. cbn [length] in Hmax.
    rewrite i64_succ in Hc by lia.
    rewrite (IH _ _ i e Hc) by (try done; cbn [length]; lia). f_equal. lia.
Qed.

Definition fits (s : Z) (rows : list Entry) : Prop := 0 ≤ s ∧ s + Z.of_nat (length rows) ≤ max_i64.

Lemma chain_from_in rows prev s e :
  chain_from prev s rows → fits s rows → e ∈ rows →
  ∃ i, rows !! i = Some e ∧ Sequence e = Some (s + Z.of_nat i) ∧ (i < length rows)%nat.
Proof.
  intros Hc [Hs Hm] [i Hi]%list_elem_of_lookup. exists i. split_and!; [done| |].
  - eapply chain_from_seq; [done..|lia|done].
  - by apply lookup_lt_Some in Hi.
Qed.

(** Selecting a range of a chain gives a chain. *)
Lemma chain_above rows : ∀ prev s f t,
  chain_from prev s rows → fits s rows → t < s → filter (λ e, in_range f t e = true) rows = [].
Proof.
  intros prev s f t Hc Hf Ht. apply filter_none. intros e He.
  destruct (chain_from_in _ _ _ _ Hc Hf He) as (i & _ & Hseq & _).
  unfold in_range. rewrite Hseq. intros Hr. reflect_bools. lia.
Qed.

Lemma chain_from_range rows : ∀ prev s f t,
  chain_from prev s rows → fits s rows →
  ∃ prev', chain_from prev' (Z.max f s) (filter (λ e, in_range f t e = true) rows) ∧
           (f ≤ s → prev' = prev).
Proof.
  induction rows as [|e rest IH]; intros prev s f t Hc Hfit; [by exists prev|].
  pose proof Hc as (l & Hl & Hseq & Hp & Hok & Hc').
  destruct Hfit as [Hs Hm]. cbn [length] in Hm. rewrite i64_succ in Hc' by lia.
  assert (fits (s + 1) rest) as Hfit' by (unfold fits; lia).
  pose proof (scan_link_fields _ _ Hl) as (Es & _). rewrite Hseq in Es.
  destruct (decide (t < s)).
  { exists prev. rewrite (chain_above _ prev s) by (try done; unfold fits; cbn [length]; lia). done. }
  assert (in_range f t e = (f <=? s) && (s <=? t)) as Hr by (unfold in_range; by rewrite Es).
  rewrite filter_cons.
  destruct (IH _ _ f t Hc' Hfit') as (prev' & Hc2 & Hp2).
  destruct (decide (f ≤ s)) as [Hfs|Hfs].
  - rewrite decide_True by (rewrite Hr, (proj2 (Z.leb_le f s)), (proj2 (Z.leb_le s t)) by lia; done).
    exists prev. split; [|done]. exists l. rewrite Z.max_r by lia.
    rewrite i64_succ by lia. split_and!; try done.
    rewrite Z.max_r, Hp2 in Hc2 by lia. done.
  - rewrite decide_False by (rewrite Hr, (proj2 (Z.leb_gt f s)) by lia; done).
    exists prev'. split; [|lia]. by replace (Z.max f s) with (Z.max f (s + 1)) by lia.
Qed.

(** A chain is strictly sorted, so ordering it again changes nothing. *)
Lemma chain_from_sorted rows : ∀ prev s,
  chain_from prev s rows → fits s rows → StronglySorted (λ a b, seq_of a < seq_of b) rows.
Proof.
  induction rows as [|e rest IH]; intros prev s Hc [Hs Hm]; constructor.
  - destruct Hc as (l & _ & _ & _ & _ & Hc). cbn [length] in Hm. rewrite i64_succ in Hc by lia.
    eapply IH; [done|]. unfold fits. lia.
  - apply Forall_forall. intros x [i Hi]%list_elem_of_lookup.
    pose proof (chain_from_seq (e :: rest) _ _ 0%nat e Hc Hs) as H0.
    pose proof (chain_from_seq (e :: rest) _ _ (S i) x Hc Hs) as H1.
    specialize (H0 ltac:(lia) eq_refl). specialize (H1 ltac:(lia) Hi).
    unfold seq_of. rewrite H0, H1. simpl. lia.
Qed.

Lemma merge_sort_sorted rows :
  StronglySorted (λ a b, seq_of a < seq_of b) rows → merge_sort seq_le rows = rows.
Proof.
  intros Hs. apply (StronglySorted_unique_strong seq_le).
  - intros x y Hx Hy Hxy Hyx. rewrite merge_sort_Permutation in Hx. unfold seq_le in *.
    revert x y Hx Hy Hxy Hyx. induction Hs as [|e rest Hs IH Hall]; [set_solver|].
    rewrite Forall_forall in Hall. intros x y [->|Hx]%elem_of_cons [->|Hy]%elem_of_cons Hxy Hyx.
    + done.
    + specialize (Hall _ Hy). lia.
    + specialize (Hall _ Hx). lia.
    + by apply IH.
  - apply (StronglySorted_merge_sort seq_le).
  - induction Hs as [|e rest Hs IH Hall]; constructor; [done|].
    eapply Forall_impl; [done|]. intros x. unfold seq_le. lia.
  - apply merge_sort_Permutation.
Qed.

(** *** Histories of the log *)

(** No number of the detail is a negative zero, which JSONB would not give
    back. *)
Definition portable (d : AnyDetail) : Prop :=
  ∀ text h j, CanonicalizeDetail d = Some (text, h) → Unmarshal text = Some j →
    has_negative_zero j = false.

(** What may happen to the table: either writer, a redaction, an anchoring. *)
Inductive step : list Entry → list Entry → Prop :=
| step_log t a clock id fault : portable (LDetail a) → step t (LogAction t a clock id fault).2
| step_plain t id user action ty eid o n ip corr now fault :
    step t (PostgresAuditLogger_Log t id user action ty eid o n ip corr now fault).2
| step_redact t s keys fault : step t (redactDetail t s keys fault).2
| step_anchor t file path clock fault :
    step t (audit_logs (AnchorLatestEntry (mkAuditStore t file) path clock fault).2).

Definition reach : list Entry → Prop := rtc step [].

(** The rows of the chain, in the order they were written. *)
Definition sequenced (table : list Entry) : list Entry := filter (λ e, Sequence e ≠ None) table.

Lemma sequenced_all table :
  existsb (λ e, bool_decide (Sequence e = None)) table = false → sequenced table = table.
Proof.
  rewrite existsb_none. intros H. apply filter_all. intros e He Hn.
  specialize (H e He). reflect_bools. done.
Qed.

Lemma sequenced_map f table :
  (∀ e, Sequence (f e) = Sequence e) → sequenced (map f table) = map f (sequenced table).
Proof.
  intros Hf. unfold sequenced. induction table as [|e t IH]; [done|].
  cbn [map]. rewrite !filter_cons, IH, Hf. by case_decide.
Qed.

(** An update that leaves the hashed columns alone keeps a chain, provided that a
    row whose detail changed is marked redacted. *)
Definition keeps (e e' : Entry) : Prop :=
  ∀ l, scan_link e = Some l → ∃ l', scan_link e' = Some l' ∧
    lk_seq l' = lk_seq l ∧ lk_prev_hash l' = lk_prev_hash l ∧
    lk_entry_hash l' = lk_entry_hash l ∧ (link_ok l → link_ok l').

Lemma chain_from_keeps f rows : ∀ prev s,
  (∀ e, keeps e (f e)) → chain_from prev s rows → chain_from prev s (map f rows).
Proof.
  induction rows as [|e rest IH]; intros prev s Hf Hc; [done|].
  destruct Hc as (l & Hl & Hs & Hp & Hok & Hc).
  destruct (Hf e l Hl) as (l' & Hl' & Hs' & Hp' & Hh' & Hok').
  exists l'. rewrite Hh'. split_and!; auto; congruence.
Qed.

Lemma set_redacted_keeps s d e : keeps e (set_redacted s d e).
Proof.
  intros l Hl. unfold set_redacted. case_bool_decide; [|exists l; auto].
  unfold scan_link in *. cbn. repeat case_match; simplify_eq. eexists. split; [done|]. cbn.
  split_and!; try done. intros [_ Hh]. split; [by intros [=]|exact Hh].
Qed.

Lemma set_anchored_keeps s r e : keeps e (set_anchored s r e).
Proof.
  intros l Hl. unfold set_anchored. case_bool_decide; [|exists l; auto].
  unfold scan_link in *. cbn. repeat case_match; simplify_eq. by eexists.
Qed.

Lemma set_redacted_seq s d e : Sequence (set_redacted s d e) = Sequence e.
Proof. unfold set_redacted. by case_bool_decide. Qed.

Lemma set_anchored_seq s d e : Sequence (set_anchored s d e) = Sequence e.
Proof. unfold set_anchored. by case_bool_decide. Qed.

Lemma Truncate_us_idem t : Truncate_us (Truncate_us t) = Truncate_us t.
Proof. unfold Truncate_us. Z.to_euclidean_division_equations; lia. Qed.

(** *** The latest row of a chain *)

Lemma foldl_later_last rows :
  StronglySorted (λ a b, seq_of a < seq_of b) rows → foldl (λ b e, later e b) None rows = last rows.
Proof.
  induction rows as [|e rows IH] using rev_ind; intros Hs; [done|].
  apply StronglySorted_app in Hs as (Hlt & Hs & _).
  rewrite foldl_app, last_snoc. cbn. rewrite (IH Hs).
  unfold later. destruct (last rows) as [b|] eqn:Eb; [|done].
  apply last_Some_elem_of in Eb. specialize (Hlt b e Eb ltac:(set_solver)).
  unfold seq_of in Hlt. by rewrite (proj2 (Z.ltb_lt _ _)).
Qed.

Lemma chain_last rows e prev s : chain_from prev s (rows ++ [e]) → fits s (rows ++ [e]) →
  Sequence e = Some (s + Z.of_nat (length rows)) ∧ EntryHash e = Some (end_hash prev (rows ++ [e])).
Proof.
  intros Hc [Hs Hm]. split.
  - eapply chain_from_seq; [done..|lia|]. apply list_lookup_middle. done.
  - apply chain_from_app in Hc as [_ (l & Hl & _)].
    apply scan_link_fields in Hl as (_ & _ & Hh & _).
    assert (∀ p, end_hash p (rows ++ [e]) = default "" (EntryHash e))%string as ->; [|by rewrite Hh].
    induction rows as [|r rows IH]; intros p; [done|]. apply IH. rewrite length_app in *. cbn in *. lia.
Qed.

Lemma latest_chain table :
  chain_from "" 1 (sequenced table) → Z.of_nat (length table) < max_i64 →
  latest table = ScanFails ∨
  (sequenced table = table ∧
   latest table = match table with
                  | [] => NoRows
                  | _ => LatestRow (Z.of_nat (length table)) (end_hash "" table)
                  end).
Proof.
  intros Hc Hm. unfold latest.
  destruct (existsb _ table) eqn:Ex; [by left|right]. pose proof (sequenced_all _ Ex) as Hall.
  rewrite Hall in Hc. split; [done|].
  rewrite foldl_later_last by (eapply chain_from_sorted; [done|unfold fits; lia]).
  destruct table as [|e0 t0 _] using rev_ind; [done|]. rewrite last_snoc.
  destruct (chain_last _ _ _ _ Hc) as [Hs Hh]; [unfold fits; lia|]. rewrite Hs, Hh.
  assert (1 + Z.of_nat (length t0) = Z.of_nat (length (t0 ++ [e0]))) as ->
    by (rewrite length_app; cbn; lia). by destruct t0.
Qed.

(** *** Every operation keeps the chain *)

Definition chain_inv (table : list Entry) : Prop := chain_from "" 1 (sequenced table).

Lemma insert_row_app table e table' : insert_row table e = Some table' →
  ∃ r, table' = table ++ [r] ∧ Sequence r = Sequence e ∧ CreatedAt r = Truncate_us (CreatedAt e) ∧
    Actor r = Actor e ∧ Action r = Action e ∧ Target r = Target e ∧
    jsonb_column (Detail e) = Some (Detail r) ∧ DetailHash r = DetailHash e ∧
    PrevHash r = PrevHash e ∧ EntryHash r = EntryHash e ∧ Redacted r = Redacted e.
Proof.
  unfold insert_row. intros H. repeat case_match; simplify_eq. by eexists.
Qed.

Lemma commit_table {A} fault before after (a : A) :
  (commit fault before after a).2 = before ∨ (commit fault before after a).2 = after.
Proof. unfold commit. repeat case_match; auto. Qed.

Lemma commit_ok {A} fault before after (a b : A) t :
  commit fault before after a = (Ok b, t) → a = b ∧ t = after.
Proof. unfold commit. intros H. repeat case_match; by simplify_eq. Qed.

(** The canonical detail survives the JSONB column. *)
Lemma detail_survives `{!JSONLaws} d text h stored :
  CanonicalizeDetail d = Some (text, h) → portable d → jsonb text = Some stored →
  CanonicalizeDetail (DetailRaw stored) = Some (text, h).
Proof.
  intros Hd Hp Hj. pose proof (CanonicalizeDetail_hash _ _ _ Hd) as ->.
  assert (∃ j, Unmarshal text = Some j ∧ Marshal j = Some text) as (j & Hu & Hm).
  { unfold CanonicalizeDetail, empty_detail, normalize in Hd.
    destruct d as [|s|s|s|[s|]]; repeat case_match; simplify_eq;
      first [by eapply Marshal_stable | apply empty_object]. }
  destruct (jsonb_value _ _ _ Hu (Hp _ _ _ Hd Hu) Hj) as (j' & Hu' & Hm').
  cbn. unfold normalize. by rewrite Hu', Hm', Hm.
Qed.

(** The row [LogAction] appends to a chain. *)
Definition appended (table : list Entry) (a : LogArgs) (clock : Time) (r : Entry) : Prop :=
  ∃ text h, CanonicalizeDetail (LDetail a) = Some (text, h) ∧
  ∃ stored, jsonb text = Some stored ∧
  scan_link r =
    Some (mkLink (Z.of_nat (length table) + 1) (Truncate_us clock) (LActor a) (LAction a)
            (LTarget a) stored h (end_hash "" table)
            (HashData (CanonicalSerialize (Z.of_nat (length table) + 1) (Truncate_us clock)
               (LActor a) (LAction a) (LTarget a) h (end_hash "" table))) false).

Lemma LogAction_appends table a clock id fault :
  chain_inv table → Z.of_nat (length table) < max_i64 →
  (LogAction table a clock id fault).2 = table ∨
  (sequenced table = table ∧ ∃ r, (LogAction table a clock id fault).2 = table ++ [r] ∧
   appended table a clock r).
Proof.
  intros Hc Hm. unfold LogAction.
  destruct (fails fault FaultBegin); [by left|]. destruct (fails fault FaultQuery); [by left|].
  destruct (latest_chain _ Hc Hm) as [->|[Hall Hlatest]]; [by left|].
  assert (∃ row, latest table = row ∧ row ≠ ScanFails ∧
    match row with LatestRow lastSeq _ => i64 (lastSeq + 1) | _ => 1 end =
      Z.of_nat (length table) + 1 ∧
    match row with LatestRow _ h => h | _ => ""%string end = end_hash "" table) as (row & -> & Hrow & Hseq & Hhash).
  { exists (latest table). split; [done|]. rewrite Hlatest. destruct table; [done|].
    split; [done|]. split; [apply i64_succ; lia|done]. }
  destruct row; [|done|]; rewrite Hseq, Hhash; clear Hseq Hhash Hrow;
    (destruct (CanonicalizeDetail (LDetail a)) as [[text h]|] eqn:Ed; [|by left];
     destruct (fails fault FaultWrite); [by left|];
     destruct (insert_row _ _) as [t'|] eqn:Ei; [|by left];
     match goal with |- context [commit ?f ?b ?t ?x] => destruct (commit_table f b t x) as [-> | ->] end;
     [by left|right]; split; [done|];
     apply insert_row_app in Ei as (r & -> & Hs & Hc' & Ha & Hact & Ht & Hj & Hdh & Hp & Hh & Hr);
     exists r; split; [done|]; exists text, h; split; [done|]; cbn in Hj;
     destruct (jsonb text) as [stored|]; [|done]; exists stored; split; [done|];
     injection Hj as Hj; unfold scan_link; rewrite Hs, Hc', Ha, Hact, Ht, <- Hj, Hdh, Hp, Hh, Hr; cbn;
     by rewrite Truncate_us_idem).
Qed.

Lemma appended_keeps_chain `{!JSONLaws} table a clock r :
  chain_inv table → sequenced table = table → Z.of_nat (length table) < max_i64 →
  portable (LDetail a) → appended table a clock r → chain_inv (table ++ [r]).
Proof.
  intros Hc Hall Hm Hp (text & h & Hd & stored & Hj & Hl). unfold chain_inv in *.
  assert (sequenced (table ++ [r]) = table ++ [r]) as ->.
  { unfold sequenced in *. rewrite filter_app, Hall. f_equal. apply filter_all.
    intros x Hx. assert (x = r) as -> by set_solver.
    apply scan_link_fields in Hl as (-> & _). done. }
  rewrite Hall in Hc. apply chain_from_app. split; [done|].
  rewrite advance_small by lia. eexists. split; [exact Hl|]. cbn.
  split_and!; [lia|done| |done]. split; [|done]. intros _. exists text.
  pose proof (CanonicalizeDetail_hash _ _ _ Hd) as ->. by eapply detail_survives.
Qed.

Lemma step_grows t t' : step t t' → (length t ≤ length t')%nat.
Proof.
  assert (∀ t e t', insert_row t e = Some t' → (length t ≤ length t')%nat) as Hins.
  { intros u e u' (r & -> & _)%insert_row_app. rewrite length_app. lia. }
  destruct 1 as [t a clock id fault|t|t s keys fault|t file path clock fault].
  - unfold LogAction, commit. repeat case_match; cbn; try done; eauto.
  - unfold PostgresAuditLogger_Log. repeat case_match; cbn; try done; eauto.
  - unfold redactDetail, commit. repeat case_match; cbn; try done; by rewrite length_map.
  - unfold AnchorLatestEntry. repeat case_match; cbn; try done; by rewrite length_map.
Qed.

Lemma step_keeps_chain `{!JSONLaws} t t' :
  step t t' → Z.of_nat (length t) < max_i64 → chain_inv t → chain_inv t'.
Proof.
  destruct 1 as [t a clock id fault Hp|t|t s keys fault|t file path clock fault]; intros Hm Hc.
  - destruct (LogAction_appends t a clock id fault Hc Hm) as [->|(Hall & r & -> & Ha)]; [done|].
    by eapply appended_keeps_chain.
  - unfold PostgresAuditLogger_Log. repeat case_match; cbn; try done.
    match goal with H : insert_row _ _ = Some _ |- _ => apply insert_row_app in H as (r & -> & Hs & _) end.
    unfold chain_inv, sequenced. rewrite filter_app, filter_cons_False, filter_nil, app_nil_r; [done|].
    rewrite Hs. naive_solver.
  - unfold redactDetail, commit. repeat case_match; cbn; try done.
    all: unfold chain_inv; rewrite sequenced_map by (intros; apply set_redacted_seq);
      apply chain_from_keeps; auto using set_redacted_keeps.
  - unfold AnchorLatestEntry. repeat case_match; cbn; try done.
    unfold chain_inv; rewrite sequenced_map by (intros; apply set_anchored_seq);
      apply chain_from_keeps; auto using set_anchored_keeps.
Qed.

Lemma reach_chain `{!JSONLaws} t : reach t → Z.of_nat (length t) < max_i64 → chain_inv t.
Proof.
  intros Hr. apply (rtc_ind_r (R := step) (λ t, Z.of_nat (length t) < max_i64 → chain_inv t) []);
    [done| |exact Hr]. clear t Hr. intros t t' Hr Hs IH Hm.
  pose proof (step_grows _ _ Hs). eapply step_keeps_chain; [done|lia|]. apply IH. lia.
Qed.

(** What [VerifyChain] reads of a chain. *)
Lemma select_range_chain table f t :
  chain_inv table → Z.of_nat (length table) < max_i64 →
  select_range table f t = filter (λ e, in_range f t e = true) (sequenced table) ∧
  ∃ prev, chain_from prev (Z.max f 1) (select_range table f t) ∧ (f ≤ 1 → prev = ""%string).
Proof.
  intros Hc Hm. assert (fits 1 (sequenced table)) as Hfit.
  { unfold fits. pose proof (length_filter (λ e, Sequence e ≠ None) table).
    unfold sequenced. lia. }
  assert (filter (λ e, in_range f t e = true) table =
          filter (λ e, in_range f t e = true) (sequenced table)) as Hf.
  { unfold sequenced. rewrite list_filter_filter. apply list_filter_iff. intros e.
    unfold in_range. destruct (Sequence e); naive_solver. }
  assert (select_range table f t = filter (λ e, in_range f t e = true) (sequenced table)) as Hsel.
  { unfold select_range. rewrite Hf. apply merge_sort_sorted, StronglySorted_filter.
    by eapply chain_from_sorted. }
  split; [done|]. rewrite Hsel. by apply (chain_from_range _ _ 1).
Qed.

(** C26: the log never breaks its own chain. After any history of entries by
    either writer, redactions and anchorings, with the database failing at any
    point of any of them, [VerifyChain] over any range succeeds. (Details hold no
    negative zero, and fewer than 2^63-1 rows have been written.) *)
Theorem chain_verifies `{!JSONLaws} table fromSeq toSeq :
  reach table → Z.of_nat (length table) < max_i64 →
  VerifyChain table fromSeq toSeq None = (true, 0, None).
Proof.
  intros Hr Hm. pose proof (reach_chain _ Hr Hm) as Hc. unfold VerifyChain.
  set (f := if fromSeq <=? 0 then 1 else fromSeq).
  assert (1 ≤ f) by (subst f; destruct (fromSeq <=? 0) eqn:E; reflect_bools; lia).
  destruct (select_range_chain table f toSeq Hc Hm) as (_ & prev & Hch & Hp).
  apply verify_rows_chain. exists prev. rewrite Z.max_l in Hch by lia.
  split; [done|]. intros ->. apply Hp. lia.
Qed.

(** What [VerifyChain] accepts. It succeeds exactly when the selected rows,
    in order, are numbered without a gap from the first sequence asked for, each
    carries the hash of its own contents and (unless redacted) of its detail, and
    each links to the entry hash before it, sequence 1 to the empty hash. *)
Lemma VerifyChain_exact table fromSeq toSeq :
  VerifyChain table fromSeq toSeq None = (true, 0, None) ↔
  ∃ prev, chain_from prev (Z.max fromSeq 1) (select_range table (Z.max fromSeq 1) toSeq) ∧
          (fromSeq ≤ 1 → prev = ""%string).
Proof.
  unfold VerifyChain.
  assert ((if fromSeq <=? 0 then 1 else fromSeq) = Z.max fromSeq 1) as ->
    by (destruct (fromSeq <=? 0) eqn:E; reflect_bools; lia).
  rewrite verify_rows_chain. unfold prev_fits.
  split; intros (prev & Hc & Hp); exists prev; (split; [done|]); intros; apply Hp; lia.
Qed.

(** A failed check names the row it failed at, everything selected before it
    being a chain. *)
Lemma VerifyChain_reports_first_break table fromSeq toSeq b seq err :
  VerifyChain table fromSeq toSeq None = (b, seq, Some err) →
  b = false ∧ ∃ good e rest prev,
    select_range table (Z.max fromSeq 1) toSeq = good ++ e :: rest ∧
    chain_from prev (Z.max fromSeq 1) good ∧
    (match scan_link e with Some l => seq = lk_seq l | None => seq = 0 end) ∧
    ¬ ∃ prev', chain_from prev' (Z.max fromSeq 1) (good ++ [e]) ∧ (fromSeq ≤ 1 → prev' = ""%string).
Proof.
  unfold VerifyChain.
  assert ((if fromSeq <=? 0 then 1 else fromSeq) = Z.max fromSeq 1) as ->
    by (destruct (fromSeq <=? 0) eqn:E; reflect_bools; lia).
  intros H. apply verify_rows_broken in H as (Hb & good & e & rest & prev & He & Hc & _ & Hs & Hn).
  split; [done|]. exists good, e, rest, prev. split_and!; try done.
  intros (prev' & Hc' & Hp). apply Hn. exists prev'. split; [done|]. intros H1. apply Hp. lia.
Qed.

(** *** Tampering *)

Lemma elem_select_range table f t e :
  e ∈ select_range table f t ↔ e ∈ table ∧ in_range f t e = true.
Proof. unfold select_range. rewrite merge_sort_Permutation, list_elem_of_filter. naive_solver. Qed.

(** A verified range from 1 that holds a row numbered [n], its last number, has
    exactly the rows 1 to [n]. *)
Lemma verified_rows table n e :
  VerifyChain table 1 n None = (true, 0, None) → 1 ≤ n < max_i64 →
  e ∈ table → Sequence e = Some n →
  chain_from "" 1 (select_range table 1 n) ∧ length (select_range table 1 n) = Z.to_nat n ∧
  last (select_range table 1 n) = Some e.
Proof.
  intros Hv Hn He Hse. apply VerifyChain_exact in Hv as (prev & Hc & Hp).
  rewrite Z.max_l in Hc by lia. rewrite Hp in Hc by lia. split; [done|].
  set (rows := select_range table 1 n) in *.
  assert (∀ k rows prev s, chain_from prev s rows → 1 ≤ s → s + Z.of_nat k ≤ max_i64 + 1 →
    (k ≤ length rows)%nat → ∀ i x, (i < k)%nat → rows !! i = Some x → Sequence x = Some (s + Z.of_nat i)) as Hpre.
  { intros k l p s Hl Hs Hk Hlen i x Hi Hx.
    rewrite <- (take_drop k l) in Hl. apply chain_from_app in Hl as [Hl _].
    apply (chain_from_seq (take k l) p); [done|lia|rewrite length_take; lia|].
    by rewrite lookup_take_lt by lia. }
  assert (e ∈ rows) as Hin.
  { apply elem_select_range. split; [done|]. unfold in_range. rewrite Hse.
    rewrite (proj2 (Z.leb_le 1 n)), (proj2 (Z.leb_le n n)) by lia. done. }
  assert (length rows ≤ Z.to_nat n)%nat as Hle.
  { destruct (decide (length rows ≤ Z.to_nat n)%nat) as [|Hgt]; [done|exfalso].
    destruct (lookup_lt_is_Some_2 rows (Z.to_nat n) ltac:(lia)) as [x Hx].
    assert (Sequence x = Some (1 + n)) as Hsx.
    { rewrite (Hpre (S (Z.to_nat n)) rows "" 1 Hc ltac:(lia) ltac:(lia) ltac:(lia)
                 (Z.to_nat n) x ltac:(lia) Hx). f_equal. lia. }
    apply list_elem_of_lookup_2, elem_select_range in Hx as [_ Hr].
    unfold in_range in Hr. rewrite Hsx in Hr. reflect_bools. lia. }
  apply list_elem_of_lookup in Hin as [i Hi]. pose proof (lookup_lt_Some _ _ _ Hi).
  assert (1 + Z.of_nat i = n) as Hin.
  { pose proof (Hpre (length rows) rows "" 1 Hc ltac:(lia) ltac:(lia) ltac:(lia) i e ltac:(lia) Hi).
    congruence. }
  split; [lia|]. rewrite last_lookup. replace (pred (length rows)) with i by lia. done.
Qed.

(** C37: tampering is evident. If two tables verify up to sequence [n] and hold the
    same entry hash at [n], say because one is the log and the other what an
    anchored hash was taken of, then they hold the same records up to [n]: the
    same timestamps, actors, actions, targets, detail hashes and links, and the
    same canonical details wherever neither is redacted. Otherwise two texts
    collide under the hash. Only one table need be honest (no line breaks in its
    fields); timestamps lie in the years 1 to 9999. *)
Theorem tampering_is_evident table table' n e e' :
  1 ≤ n < max_i64 →
  Forall clean_row table → Forall renderable_row table → Forall renderable_row table' →
  VerifyChain table 1 n None = (true, 0, None) → VerifyChain table' 1 n None = (true, 0, None) →
  e ∈ table → e' ∈ table' → Sequence e = Some n → Sequence e' = Some n →
  EntryHash e = EntryHash e' →
  (∀ k, 1 ≤ k ≤ n → ∃ r r', r ∈ table ∧ r' ∈ table' ∧
     Sequence r = Some k ∧ Sequence r' = Some k ∧ rows_agree r r') ∨ collision.
Proof.
  intros Hn Hcl Hr Hr' Hv Hv' He He' Hs Hs' Hh.
  assert (∀ P t, Forall P t → Forall P (select_range t 1 n)) as Hsub.
  { intros P t HP. rewrite Forall_forall in HP. apply Forall_forall.
    intros x [Hx _]%elem_select_range. auto. }
  destruct (verified_rows table n e) as (Hc & Hlen & Hlast); try done.
  destruct (verified_rows table' n e') as (Hc' & Hlen' & Hlast'); try done.
  destruct (chains_agree _ _ _ _ _ Hc Hc') as [[HF _]|]; [congruence|auto..| |by right].
  { unfold last_hash. by rewrite Hlast, Hlast'. }
  left. intros k Hk.
  destruct (lookup_lt_is_Some_2 (select_range table 1 n) (Z.to_nat (k - 1)) ltac:(lia)) as [r Hrk].
  destruct (Forall2_lookup_l _ _ _ _ _ HF Hrk) as (r' & Hrk' & Hag).
  exists r, r'. split_and!; try done.
  - by apply list_elem_of_lookup_2, elem_select_range in Hrk as [? _].
  - by apply list_elem_of_lookup_2, elem_select_range in Hrk' as [? _].
  - erewrite chain_from_seq; [|exact Hc|lia|lia|exact Hrk]. f_equal. lia.
  - erewrite chain_from_seq; [|exact Hc'|lia|lia|exact Hrk']. f_equal. lia.
Qed.

(** What [VerifyChain] cannot see: with its newest entries gone a log verifies as
    before, so only a comparison with an anchored hash reveals a truncation. *)
Lemma truncated_log_verifies `{!JSONLaws} table k toSeq :
  reach table → Z.of_nat (length table) < max_i64 →
  VerifyChain (filter (λ e, seq_of e ≤ k) table) 1 toSeq None = (true, 0, None).
Proof.
  intros Hr Hm. pose proof (reach_chain _ Hr Hm) as Hc.
  set (t' := filter _ table).
  assert (select_range t' 1 toSeq = select_range table 1 (Z.min toSeq k)) as Hsel.
  { unfold select_range, t'. f_equal. rewrite list_filter_filter. apply list_filter_iff. intros e.
    unfold in_range, seq_of. destruct (Sequence e) as [s|]; [|naive_solver]. cbn.
    rewrite !andb_true_iff, !Z.leb_le. lia. }
  apply VerifyChain_exact. rewrite Z.max_l, Hsel by lia.
  destruct (select_range_chain table 1 (Z.min toSeq k) Hc Hm) as (_ & prev & Hch & Hp).
  rewrite Z.max_l in Hch by lia. eauto.
Qed.

(** *** Redaction *)

Definition redacted_map (keys : list string) (m : gmap string json) (k : string) : option json :=
  if bool_decide (k ∈ keys ∧ m !! k ≠ None) then Some (of_string "[REDACTED]") else m !! k.

Lemma redact_step (m m1 : gmap string json) keys any key :
  (∀ k, m1 !! k = redacted_map keys m k) → (any = false ↔ ∀ k, k ∈ keys → m !! k = None) →
  ∀ m2 any2,
  (match m1 !! key with
   | Some _ => (<[key := of_string "[REDACTED]"]> m1, true)
   | None => (m1, any)
   end) = (m2, any2) →
  (∀ k, m2 !! k = redacted_map (keys ++ [key]) m k) ∧
  (any2 = false ↔ ∀ k, k ∈ keys ++ [key] → m !! k = None).
Proof.
  intros Hl Ha m2 any2. unfold redacted_map in *.
  destruct (m !! key) as [v|] eqn:Em.
  - destruct (m1 !! key) as [v1|] eqn:E1.
    + intros [= <- <-]. split.
      * intros k. destruct (decide (k = key)) as [->|Hne].
        { rewrite lookup_insert_eq, bool_decide_eq_true_2; [done|]. rewrite Em. set_solver. }
        rewrite lookup_insert_ne, Hl by done. repeat case_bool_decide; set_solver.
      * split; [done|]. intros H. rewrite (H key) in Em by set_solver. done.
    + rewrite Hl, Em in E1. by case_bool_decide.
  - rewrite (Hl key), Em, bool_decide_eq_false_2 by naive_solver. intros [= <- <-]. split.
    + intros k. rewrite Hl. destruct (decide (k = key)) as [->|Hne].
      * rewrite Em. rewrite !bool_decide_eq_false_2 by naive_solver. done.
      * repeat case_bool_decide; set_solver.
    + rewrite Ha. set_solver.
Qed.

Lemma redact_keys_lookup keys m m' any :
  redact_keys keys m = (m', any) →
  (∀ k, m' !! k = redacted_map keys m k) ∧ (any = false ↔ ∀ k, k ∈ keys → m !! k = None).
Proof.
  revert m' any. induction keys as [|key keys IH] using rev_ind; intros m' any H.
  - cbn in H. simplify_eq. split; [|set_solver]. intros k. unfold redacted_map.
    by rewrite bool_decide_eq_false_2 by set_solver.
  - unfold redact_keys in *. rewrite foldl_app in H. cbn in H.
    destruct (foldl _ (m, false) keys) as [m1 any1] eqn:E. destruct (IH _ _ eq_refl) as [Hl Ha].
    by eapply redact_step.
Qed.

(** What a redaction does. When it reports a change, the entry's detail is the
    old one with every named key that was present replaced by the marker, the
    entry is flagged, and nothing else of it or of any other row changes, hashes
    included; when it reports none, none of the keys was present. Any error but a
    lost commit leaves the table alone. *)
Lemma redaction_outcome table s keys fault :
  match redactDetail table s keys fault with
  | (Ok changed, table') =>
      ∃ e m, e ∈ table ∧ Sequence e = Some s ∧
        Unmarshal (default ""%string (Detail e)) ≫= as_map = Some m ∧
        (changed = false ↔ ∀ k, k ∈ keys → m !! k = None) ∧
        (changed = false → table' = table) ∧
        (changed = true → ∃ m' text stored,
           (∀ k, m' !! k = redacted_map keys m k) ∧ Marshal (of_map m') = Some text ∧
           jsonb text = Some stored ∧ table' = map (set_redacted s stored) table)
  | (Err ErrCommit, table') => table' = table ∨ fault = Some FaultCommitApplied
  | (Err _, table') => table' = table
  end.
Proof.
  unfold redactDetail. destruct (fails fault FaultBegin); [done|].
  destruct (fails fault FaultQuery); [done|].
  destruct (list_find _ table) as [[i e]|] eqn:Ef; [|done].
  apply list_find_Some in Ef as (Hi & Hs & _). apply list_elem_of_lookup_2 in Hi.
  destruct (DetailHash e); [|done].
  destruct (Unmarshal _ ≫= as_map) as [m|] eqn:Em; [|done].
  destruct (redact_keys keys m) as [m' any] eqn:Ek. apply redact_keys_lookup in Ek as [Hl Ha].
  destruct any; cbn [negb].
  - destruct (Marshal (of_map m')) as [text|] eqn:Et; [|done].
    destruct (if fails fault FaultWrite then None else jsonb text) as [stored|] eqn:Ej; [|done].
    destruct (fails fault FaultWrite); [done|]. unfold commit.
    destruct (fails fault FaultCommit); [by left|].
    destruct (fails fault FaultCommitApplied) eqn:Ec; [right; unfold fails in Ec; by reflect_bools|].
    exists e, m. split_and!; try done. intros _. by exists m', text, stored.
  - exists e, m. by split_and!.
Qed.

(** *** One ordinary audit event stops the chain *)

Definition unsequenced (table : list Entry) : Prop := ∃ e, e ∈ table ∧ Sequence e = None.

Lemma unsequenced_latest table : unsequenced table → latest table = ScanFails.
Proof.
  intros (e & He & Hs). unfold latest. destruct (existsb _ table) eqn:Ex; [done|].
  rewrite existsb_none in Ex. specialize (Ex e He). by reflect_bools.
Qed.

Lemma step_unsequenced t t' : step t t' → unsequenced t → unsequenced t'.
Proof.
  assert (∀ t e t', insert_row t e = Some t' → unsequenced t → unsequenced t') as Hins.
  { intros u e u' (r & -> & _)%insert_row_app (x & ? & ?). exists x. set_solver. }
  assert (∀ t f, (∀ e, Sequence (f e) = Sequence e) → unsequenced t → unsequenced (map f t)) as Hmap.
  { intros u f Hf (x & Hx & Hsx). exists (f x). rewrite Hf. split; [|done].
    apply list_elem_of_In, in_map. by apply list_elem_of_In. }
  destruct 1 as [t a clock id fault|t|t s keys fault|t file path clock fault]; intros Hu.
  - unfold LogAction. rewrite (unsequenced_latest _ Hu). by repeat case_match.
  - unfold PostgresAuditLogger_Log. repeat case_match; cbn; eauto.
  - unfold redactDetail, commit. repeat case_match; cbn; try done; apply Hmap; auto using set_redacted_seq.
  - unfold AnchorLatestEntry. repeat case_match; cbn; try done; apply Hmap; auto using set_anchored_seq.
Qed.

(** The two writers of [audit_logs] do not get along. Once
    [PostgresAuditLogger.Log] has stored an event, whose [sequence] is NULL, every
    later [LogAction] and [AnchorLatestEntry] fails and stores nothing, whatever
    happens in between. *)
Lemma plain_row_stops_chain t t' t'' id user action ty eid o n ip corr now fault :
  PostgresAuditLogger_Log t id user action ty eid o n ip corr now fault = (Ok tt, t') →
  rtc step t' t'' →
  (∀ a clock id' fault', ∃ err, LogAction t'' a clock id' fault' = (Err err, t'')) ∧
  (∀ file path clock fault', ∃ err,
     AnchorLatestEntry (mkAuditStore t'' file) path clock fault' = (Err err, mkAuditStore t'' file)).
Proof.
  intros Hlog Hs. assert (unsequenced t') as Hu.
  { unfold PostgresAuditLogger_Log in Hlog. repeat case_match; simplify_eq.
    match goal with H : insert_row _ _ = Some _ |- _ => apply insert_row_app in H as (r & -> & Hr & _) end.
    exists r. split; [set_solver|done]. }
  assert (unsequenced t'') as Hu'.
  { clear Hlog. induction Hs; eauto using step_unsequenced. }
  apply unsequenced_latest in Hu'. split.
  - intros. unfold LogAction. rewrite Hu'. repeat case_match; eauto.
  - intros. unfold AnchorLatestEntry. cbn. rewrite Hu'. case_match; eauto.
Qed.

(** *** The scheduled verifier *)

(** With a batch size, every run checks the same first entries: whatever is
    stored after them is never verified. *)
Lemma RunOnce_checks_first_batch cfg table rest fault :
  0 < BatchSize cfg < max_i64 → (∀ e, e ∈ rest → BatchSize cfg < seq_of e) →
  RunOnce cfg (table ++ rest) fault = RunOnce cfg table fault.
Proof.
  intros Hb Hrest. unfold RunOnce. rewrite (proj2 (Z.ltb_lt 0 _)) by lia.
  assert (i64 (i64 (1 + BatchSize cfg) - 1) = BatchSize cfg) as ->.
  { rewrite (i64_id (1 + BatchSize cfg)), i64_id;
      unfold in_i64, min_i64, max_i64 in *; lia. }
  unfold VerifyChain. change (1 <=? 0) with false. cbn iota.
  assert (select_range (table ++ rest) 1 (BatchSize cfg) = select_range table 1 (BatchSize cfg)) as ->;
    [|done].
  unfold select_range. f_equal. rewrite filter_app, (filter_none _ rest), app_nil_r; [done|].
  intros e He Hr. specialize (Hrest e He). unfold in_range, seq_of in *.
  destruct (Sequence e); [|done]. cbn in *. reflect_bools. lia.
Qed.

(** An alert is raised exactly when the verification fails. *)
Lemma runOnce_alerts cfg table fault :
  runOnce cfg table fault = None ↔ ∃ s, RunOnce cfg table fault = (true, s, None).
Proof.
  unfold runOnce. destruct (RunOnce cfg table fault) as [[[] s] [err|]]; cbn; naive_solver.
Qed.

End audit.

(** *** The serialization is ambiguous across line breaks *)

(** Text moved from one field to the next can leave the hashed bytes as they
    were, so the entry hash does not separate actor from action. *)
Lemma CanonicalSerialize_ambiguous :
  CanonicalSerialize 1 0 ("root" +:+ newline +:+ "ACTION:read") "all" "t" "d" "p" =
  CanonicalSerialize 1 0 "root" ("read" +:+ newline +:+ "ACTION:all") "t" "d" "p".
Proof. vm_compute. reflexivity. Qed.

(** *** A concrete instance *)

(** JSON values as trees (a leaf is a string, node 1 an object, node 0 [null]),
    marshalled as the bits of their code, the empty object as [{}]. *)
Fixpoint bits (p : positive) : string :=
  match p with
  | xH => ""
  | xO p => String (byte 48) (bits p)
  | xI p => String (byte 49) (bits p)
  end.

Fixpoint of_bits (s : string) : option positive :=
  match s with
  | EmptyString => Some xH
  | String c s' => p ← of_bits s'; if decide (c = byte 48) then Some (xO p)
                   else if decide (c = byte 49) then Some (xI p) else None
  end.

Lemma of_bits_bits p : of_bits (bits p) = Some p.
Proof. induction p as [p IH|p IH|]; cbn; by rewrite ?IH. Qed.

Fixpoint pairs_of (l : list (gen_tree string)) : list (string * gen_tree string) :=
  match l with
  | GenLeaf k :: v :: rest => (k, v) :: pairs_of rest
  | _ => []
  end.

Definition tree_text (j : gen_tree string) : string :=
  if decide (j = GenNode 1 []) then "{}" else bits (encode j).

Definition tree_read (s : string) : option (gen_tree string) :=
  if decide (s = "{}"%string) then Some (GenNode 1 []) else of_bits s ≫= decode.

Lemma tree_read_text j : tree_read (tree_text j) = Some j.
Proof.
  unfold tree_text, tree_read. destruct (decide (j = GenNode 1 [])) as [->|]; [done|].
  generalize (decode_encode j). generalize (encode j). intros p Hp.
  rewrite decide_False by by destruct p. by rewrite of_bits_bits.
Qed.

#[export] Instance TreeJSON : JSON := {|
  json := gen_tree string;
  of_string s := GenLeaf s;
  of_int z := GenNode 2 [GenLeaf (pretty z)];
  of_strings l := GenNode 3 (map GenLeaf l);
  of_map m := GenNode 1 (concat (map (λ p, [GenLeaf p.1; p.2]) (map_to_list m)));
  as_map j := match j with
              | GenNode 1 l => Some (list_to_map (pairs_of l))
              | GenNode 0 [] => Some ∅
              | _ => None
              end;
  Unmarshal := tree_read;
  Marshal j := Some (tree_text j);
  has_negative_zero _ := false;
  jsonb s := Some s;
|}.

#[export] Instance TreeJSONLaws : JSONLaws.
Proof.
  split.
  - intros j s Hm. exists j. split; [|done]. cbn in *. simplify_eq. apply tree_read_text.
  - intros s s' j Hu _ Hj. cbn in Hj. simplify_eq. eauto.
  - by exists (GenNode 1 []).
Qed.

Definition toy_hash (s : string) : string := pretty (Z.of_nat (String.length s)).

Definition demo_args (actor : string) : LogArgs :=
  mkLogArgs (Some 5) actor "update_role" "user_123"
    (DetailOther (Marshal (of_map {["role" := of_string "admin"; "token" := of_string "x"]})))
    None None (Some "127.0.0.1").

Definition demo_log : list Entry :=
  (LogAction toy_hash (LogAction toy_hash [] (demo_args "alice") 1234567 1 None).2
     (demo_args "bob") 2234567 2 None).2.

Definition demo_redacted : list Entry := (redactDetail demo_log 1 ["token"] None).2.

Lemma demo_portable actor : portable toy_hash (LDetail (demo_args actor)).
Proof. by intros text h j _ _. Qed.

Lemma chain_verifies_witness :
  length demo_redacted = 2%nat ∧ VerifyChain toy_hash demo_redacted 1 2 None = (true, 0, None).
Proof.
  split; [vm_compute; reflexivity|]. apply (chain_verifies toy_hash).
  - eapply rtc_r; [eapply rtc_r; [eapply rtc_r; [apply rtc_refl|]|]|].
    + apply (step_log toy_hash [] (demo_args "alice") 1234567 1 None), demo_portable.
    + apply (step_log toy_hash _ (demo_args "bob") 2234567 2 None), demo_portable.
    + apply (step_redact toy_hash _ 1 ["token"]%string None).
  - vm_compute. reflexivity.
Defined.

Lemma tampering_is_evident_witness :
  (∀ k, 1 ≤ k ≤ 2 → ∃ r r', r ∈ demo_log ∧ r' ∈ demo_redacted ∧
    Sequence r = Some k ∧ Sequence r' = Some k ∧ rows_agree toy_hash r r') ∨ collision toy_hash.
Proof.
  apply (tampering_is_evident toy_hash demo_log demo_redacted 2
    (default (mkEntry 0 None "" "" 0 None None None 0 None None None None None None None None false None false)
       (demo_log !! 1%nat))
    (default (mkEntry 0 None "" "" 0 None None None 0 None None None None None None None None false None false)
       (demo_redacted !! 1%nat))).
  - done.
  - apply (bool_decide_unpack _). vm_compute. exact I.
  - apply (bool_decide_unpack _). vm_compute. exact I.
  - apply (bool_decide_unpack _). vm_compute. exact I.
  - vm_compute. reflexivity.
  - vm_compute. reflexivity.
  - vm_compute. repeat constructor.
  - vm_compute. repeat constructor.
  - vm_compute. reflexivity.
  - vm_compute. reflexivity.
  - vm_compute. reflexivity.
Defined.

Lemma plain_row_stops_chain_witness :
  let t' := (PostgresAuditLogger_Log [] 1 None "session.created" "session" 7 (Some "null"%string)
               (Some "null"%string) None None 5 None).2 in
  ∃ err, LogAction toy_hash t' (demo_args "alice") 9 2 None = (Err err, t').
Proof.
  cbv zeta.
  eapply (plain_row_stops_chain toy_hash [] _ _ 1 None "session.created" "session" 7
    (Some "null"%string) (Some "null"%string) None None 5 None).
  - reflexivity.
  - apply rtc_refl.
Defined.

End AuditChain.
