(* ===== verification/MoneyPath.v ===== *)
(** The pause switches of the money path (src/apps/api/internal/domain/moneypath/,
    service/money_path_switch_service.go, service/vault_money_path_switch_service.go
    and their repositories in repository/postgres/): who may move money while an
    operator's switch is engaged, with the services' caches and every interleaving
    of their requests. *)
From S2P Require Import Prelude.

Module MoneyPath.

(** *** Operations and errors *)

Definition OperationDeposit : string := "deposit".
Definition OperationWithdrawal : string := "withdrawal".

Definition Operations : list string := [OperationDeposit; OperationWithdrawal].

Definition Operation_Valid (o : string) : bool := existsb (λ known, o =s? known) Operations.

(** A repository error, told apart only by [errors.Is]. *)
Inductive Cause := UnknownOperationRow | ReadFailed (msg : string).

Record PausedError := mkPausedError {
  PEOperation : string;
  PEReason : string;
  PECause : option Cause;
}.

Definition PausedError_Error (e : PausedError) : string :=
  if PEReason e =s? "" then (PEOperation e +:+ " is paused")%string
  else (PEOperation e +:+ " is paused: " +:+ PEReason e)%string.

Inductive Sentinel := ErrPaused | ErrCause (c : Cause).

Definition PausedError_Unwrap (e : PausedError) : list Sentinel :=
  match PECause e with Some c => [ErrPaused; ErrCause c] | None => [ErrPaused] end.

(** What an [EnsureAllowed] answers: [nil], [ErrUnknownOperation] or a
    [*PausedError]. *)
Inductive Decision := Allowed | UnknownOperation | Refused (e : PausedError).

Definition unreadable : string :=
  "pause state is currently unreadable; refusing the operation until it can be confirmed".

(** *** Switch rows *)

(** One row, without the columns of its primary key. *)
Record Switch := mkSwitch {
  Paused : bool;
  Reason : string;
  ChangedBy : option Z;
  UpdatedAt : Time;
}.

(** What the two services differ in. A precheck of [SetPaused] fails whenever that
    of a request has something to say. *)
Class SwitchKind := {
  Key : Type;
  Key_eq_dec :: EqDecision Key;
  Key_countable :: Countable Key;
  op_of : Key → string;
  (** The guards before the switch is looked up. *)
  precheck : Key → option Decision;
  (** The repository's [Get...Switch] and [Set...Switch] statements. *)
  get_row : gmap Key Switch → Key → result Cause Switch;
  set_row : gmap Key Switch → Key → Switch → result Cause (gmap Key Switch * Switch);
  (** Whether [SetPaused] gives up when the previous state cannot be read. *)
  previous_required : bool;
  (** What [SetPaused] does to the cache entry: delete it, or store the row. *)
  overwrite_cache : bool;
}.

(** *** The global switches *)

Definition MoneyPath_precheck (op : string) : option Decision :=
  if negb (Operation_Valid op) then Some UnknownOperation else None.

Definition GetSwitch (rows : gmap string Switch) (op : string) : result Cause Switch :=
  match rows !! op with Some s => Ok s | None => Err UnknownOperationRow end.

(** [UPDATE ... RETURNING]: there is no row for an unknown operation. *)
Definition SetSwitch (rows : gmap string Switch) (op : string) (s : Switch)
  : result Cause (gmap string Switch * Switch) :=
  match rows !! op with
  | Some _ => Ok (<[op := s]> rows, s)
  | None => Err UnknownOperationRow
  end.

#[export] Instance GlobalSwitches : SwitchKind := {|
  Key := string;
  op_of op := op;
  precheck := MoneyPath_precheck;
  get_row := GetSwitch;
  set_row := SetSwitch;
  previous_required := true;
  overwrite_cache := false;
|}.

(** The rows migration 106 seeds. *)
Definition seeded (now : Time) : gmap string Switch :=
  {[OperationDeposit := mkSwitch false "" None now; OperationWithdrawal := mkSwitch false "" None now]}.

(** *** The per-vault switches *)

Record VaultSwitchKey := mkVaultSwitchKey { VSVaultID : Z; VSOperation : string }.

#[export] Instance VaultSwitchKey_eq_dec : EqDecision VaultSwitchKey.
Proof. solve_decision. Defined.
#[export] Instance VaultSwitchKey_countable : Countable VaultSwitchKey.
Proof.
  refine (inj_countable' (λ k, (VSVaultID k, VSOperation k)) (λ p, mkVaultSwitchKey p.1 p.2) _).
  by intros [].
Defined.

Definition VaultMoneyPath_precheck (k : VaultSwitchKey) : option Decision :=
  if negb (Operation_Valid (VSOperation k)) then Some UnknownOperation
  else if VSVaultID k =? 0 then Some Allowed
  else None.

(** A vault without a row is not paused. *)
Definition released : Switch := mkSwitch false "" None 0.

Definition GetVaultSwitch (rows : gmap VaultSwitchKey Switch) (k : VaultSwitchKey)
  : result Cause Switch := Ok (default released (rows !! k)).

Definition SetVaultSwitch (rows : gmap VaultSwitchKey Switch) (k : VaultSwitchKey) (s : Switch)
  : result Cause (gmap VaultSwitchKey Switch * Switch) := Ok (<[k := s]> rows, s).

#[export] Instance VaultSwitches : SwitchKind := {|
  Key := VaultSwitchKey;
  op_of := VSOperation;
  precheck := VaultMoneyPath_precheck;
  get_row := GetVaultSwitch;
  set_row := SetVaultSwitch;
  previous_required := false;
  overwrite_cache := true;
|}.

(** [List]: every operation's state on one vault, rows or not; [None] is
    [ErrInvalidAdminInput]. *)
Definition ListVaultSwitches (rows : gmap VaultSwitchKey Switch) (vaultID : Z)
  : list (string * Switch) :=
  omap (λ op, (λ s, (op, s)) <$> rows !! mkVaultSwitchKey vaultID op) Operations.

Definition VaultMoneyPath_List (rows : gmap VaultSwitchKey Switch) (vaultID : Z)
  : option (list (VaultSwitchKey * Switch)) :=
  if vaultID =? 0 then None
  else
    let stored : gmap string Switch := list_to_map (ListVaultSwitches rows vaultID) in
    Some (map (λ op, (mkVaultSwitchKey vaultID op, default released (stored !! op))) Operations).

(** *** One instance of a service, with its requests in flight *)

Definition switchCacheTTL : Duration := 2 * Second.

Section gate.
  Context `{SwitchKind}.

(** A request between the steps of [get]: its cache lookup missed, or it has read
    the row and not stored it yet. *)
Inductive Request := Missed (k : Key) | Fetched (k : Key) (s : Switch).

(** A [SetPaused] between its steps: it has read the previous state, or written
    the new one and not touched the cache yet. *)
Inductive Writer :=
| Previous (k : Key) (paused : bool) (reason : string) (actor : option Z) (ip : string)
    (previous : option Switch)
| Written (k : Key) (paused : bool) (actor : option Z) (ip : string)
    (previous : option Switch) (updated : Switch).

Record AuditNote := mkAuditNote {
  NoteActor : option Z;
  NotePause : bool;
  NoteKey : Key;
  (** [None]: the old value is recorded as unknown. *)
  NoteOld : option (bool * string);
  NoteNew : bool * string;
  NoteIP : string;
}.

Record Gate := mkGate {
  rows : gmap Key Switch;
  cache : gmap Key (Switch * Time);
  requests : gmap nat Request;
  writers : gmap nat Writer;
  audit : list AuditNote;
}.

Inductive Event :=
(** A request looks at the cache. *)
| EvStart (rid : nat) (k : Key)
(** It reads the row, or fails to. *)
| EvFetch (rid : nat) (failure : option string)
(** It stores what it read and answers. *)
| EvStore (rid : nat)
(** A [SetPaused] reads the previous state, or fails to. *)
| EvSetRead (wid : nat) (k : Key) (paused : bool) (reason : string) (actor : option Z)
    (ip : string) (failure : option string)
(** It writes the row, or fails to. *)
| EvSetWrite (wid : nat) (failure : option string)
(** It updates the cache and logs the change. *)
| EvSetDone (wid : nat)
(** Another instance writes a row. *)
| EvElsewhere (k : Key) (s : Switch).

Definition verdict (k : Key) (s : Switch) : Decision :=
  if Paused s then Refused (mkPausedError (op_of k) (Reason s) None) else Allowed.

Definition refuse_unreadable (k : Key) (c : Cause) : Decision :=
  Refused (mkPausedError (op_of k) unreadable (Some c)).

(** A repository read that the connection may fail. *)
Definition read_row (t : gmap Key Switch) (k : Key) (failure : option string)
  : result Cause Switch :=
  match failure with Some msg => Err (ReadFailed msg) | None => get_row t k end.

Definition write_row (t : gmap Key Switch) (k : Key) (s : Switch) (failure : option string)
  : result Cause (gmap Key Switch * Switch) :=
  match failure with Some msg => Err (ReadFailed msg) | None => set_row t k s end.

(** The cache entry that answers a lookup at [now]. *)
Definition fresh (c : gmap Key (Switch * Time)) (k : Key) (now : Time) : option Switch :=
  match c !! k with
  | Some (s, expiresAt) => if time_before now expiresAt then Some s else None
  | None => None
  end.

(** One step of the instance, and the answer it gives, if any. *)
Definition gate_step (g : Gate) (now : Time) (ev : Event) : Gate * option (Key * Decision) :=
  match ev with
  | EvStart rid k =>
      match precheck k with
      | Some d => (g, Some (k, d))
      | None =>
          match fresh (cache g) k now with
          | Some s => (g, Some (k, verdict k s))
          | None => (mkGate (rows g) (cache g) (<[rid := Missed k]> (requests g)) (writers g) (audit g), None)
          end
      end
  | EvFetch rid failure =>
      match requests g !! rid with
      | Some (Missed k) =>
          match read_row (rows g) k failure with
          | Ok s => (mkGate (rows g) (cache g) (<[rid := Fetched k s]> (requests g)) (writers g) (audit g), None)
          | Err c => (mkGate (rows g) (cache g) (delete rid (requests g)) (writers g) (audit g),
                      Some (k, refuse_unreadable k c))
          end
      | _ => (g, None)
      end
  | EvStore rid =>
      match requests g !! rid with
      | Some (Fetched k s) =>
          (mkGate (rows g) (<[k := (s, time_add now switchCacheTTL)]> (cache g))
             (delete rid (requests g)) (writers g) (audit g), Some (k, verdict k s))
      | _ => (g, None)
      end
  | EvSetRead wid k paused reason actor ip failure =>
      match precheck k, read_row (rows g) k failure with
      | Some _, _ => (g, None)
      | None, Ok s => (mkGate (rows g) (cache g) (requests g)
                   (<[wid := Previous k paused (TrimSpace reason) actor ip (Some s)]> (writers g)) (audit g), None)
      | None, Err _ =>
          if previous_required then (g, None)
          else (mkGate (rows g) (cache g) (requests g)
                  (<[wid := Previous k paused (TrimSpace reason) actor ip None]> (writers g)) (audit g), None)
      end
  | EvSetWrite wid failure =>
      match writers g !! wid with
      | Some (Previous k paused reason actor ip previous) =>
          match write_row (rows g) k (mkSwitch paused reason actor now) failure with
          | Ok (rows', updated) =>
              (mkGate rows' (cache g) (requests g)
                 (<[wid := Written k paused actor ip previous updated]> (writers g)) (audit g), None)
          | Err _ => (mkGate (rows g) (cache g) (requests g) (delete wid (writers g)) (audit g), None)
          end
      | _ => (g, None)
      end
  | EvSetDone wid =>
      match writers g !! wid with
      | Some (Written k paused actor ip previous updated) =>
          (mkGate (rows g)
             (if overwrite_cache then <[k := (updated, time_add now switchCacheTTL)]> (cache g)
              else delete k (cache g))
             (requests g) (delete wid (writers g))
             (audit g ++ [mkAuditNote actor paused k ((λ s, (Paused s, Reason s)) <$> previous)
                            (Paused updated, Reason updated) ip]), None)
      | _ => (g, None)
      end
  | EvElsewhere k s =>
      match set_row (rows g) k s with
      | Ok (rows', _) => (mkGate rows' (cache g) (requests g) (writers g) (audit g), None)
      | Err _ => (g, None)
      end
  end.

(** A schedule of steps, and the answers given along it with their times. *)
Fixpoint run (g : Gate) (evs : list (Time * Event)) : Gate * list (Time * (Key * Decision)) :=
  match evs with
  | [] => (g, [])
  | (now, ev) :: rest =>
      let '(g', d) := gate_step g now ev in
      let '(g'', ds) := run g' rest in
      (g'', match d with Some x => (now, x) :: ds | None => ds end)
  end.

(** [EnsureAllowed] with no other step in between. *)
Definition EnsureAllowed (g : Gate) (rid : nat) (k : Key) (now : Time) (failure : option string)
  : Gate * list (Time * (Key * Decision)) :=
  run g [(now, EvStart rid k); (now, EvFetch rid failure); (now, EvStore rid)].

(** *** Specification *)

(** A write changes the row it names and no other. *)
Class SwitchLaws := {
  set_get t k s t' u : set_row t k s = Ok (t', u) → u = s ∧ get_row t' k = Ok s;
  set_get_other t k s t' u k' : set_row t k s = Ok (t', u) → k' ≠ k →
    get_row t' k' = get_row t k';
}.

Definition row_paused (g : Gate) (k : Key) : Prop :=
  ∃ s, get_row (rows g) k = Ok s ∧ Paused s = true.

(** No request holds a released state of [k] it has read and not stored. *)
Definition no_stale_read (g : Gate) (k : Key) : Prop :=
  ∀ rid s, requests g !! rid = Some (Fetched k s) → Paused s = true.

(** No [SetPaused] in flight on this instance releases [k]. *)
Definition no_release_pending (g : Gate) (k : Key) : Prop :=
  ∀ wid w, writers g !! wid = Some w →
    match w with
    | Previous k' paused _ _ _ _ => k' = k → paused = true
    | Written k' _ _ _ _ updated => k' = k → Paused updated = true
    end.

(** Every released entry of [k] in the cache has expired by [t]. *)
Definition expired_by (g : Gate) (k : Key) (t : Time) : Prop :=
  ∀ s expiresAt, cache g !! k = Some (s, expiresAt) → Paused s = true ∨ expiresAt ≤ t.

(** A step that does not release [k]. *)
Definition harmless (k : Key) (ev : Time * Event) : Prop :=
  match ev.2 with
  | EvSetRead _ k' paused _ _ _ _ => k' = k → paused = true
  | EvElsewhere k' s => k' = k → Paused s = true
  | _ => True
  end.

Record settled (g : Gate) (k : Key) (t : Time) : Prop := mkSettled {
  st_row : row_paused g k;
  st_read : no_stale_read g k;
  st_writers : no_release_pending g k;
  st_cache : expired_by g k t;
}.

Lemma write_row_ok `{!SwitchLaws} t k s failure t' u : write_row t k s failure = Ok (t', u) →
  u = s ∧ get_row t' k = Ok s ∧ ∀ k', k' ≠ k → get_row t' k' = get_row t k'.
Proof.
  unfold write_row. destruct failure; [done|]. intros Hw.
  destruct (set_get _ _ _ _ _ Hw). split_and!; eauto using set_get_other.
Qed.

Lemma row_paused_write `{!SwitchLaws} t k k' s failure t' u :
  write_row t k' s failure = Ok (t', u) → (k' = k → Paused s = true) →
  (∃ r, get_row t k = Ok r ∧ Paused r = true) → ∃ r, get_row t' k = Ok r ∧ Paused r = true.
Proof.
  intros Hw Hs (r & Hr & Hp). destruct (write_row_ok _ _ _ _ _ _ Hw) as (_ & Hg & Ho).
  destruct (decide (k = k')) as [->|Hne]; [exists s; auto|]. exists r. by rewrite Ho.
Qed.

Lemma gate_step_settled `{!SwitchLaws} g now ev k t :
  settled g k t → harmless k (now, ev) → settled (gate_step g now ev).1 k t.
Proof.
  intros [Hrow Hread Hwr Hc] Hh. unfold harmless in Hh. cbn in Hh.
  destruct ev as [rid k'|rid failure|rid|wid k' paused reason actor ip failure|wid failure|wid|k' s];
    cbn [gate_step].
  - destruct (precheck k'); [done|]. destruct (fresh _ _ _); [done|]. split; cbn; try done.
    intros rid' s. cbn. destruct (decide (rid' = rid)) as [->|Hne];
      [by rewrite lookup_insert_eq|rewrite lookup_insert_ne by done; apply Hread].
  - destruct (requests g !! rid) as [[k'|]|] eqn:Er; [|done..].
    destruct (read_row (rows g) k' failure) as [s|c] eqn:Ef; split; cbn; try done.
    + intros rid' s'. cbn. destruct (decide (rid' = rid)) as [->|Hne];
        [|rewrite lookup_insert_ne by done; apply Hread].
      rewrite lookup_insert_eq. intros [= -> ->]. destruct Hrow as (r & Hr & Hp).
      unfold read_row in Ef. destruct failure; [done|]. congruence.
    + intros rid' s'. cbn. rewrite lookup_delete_Some. intros [_ Hl]. by eapply Hread.
  - destruct (requests g !! rid) as [[|k' s]|] eqn:Er; [done| |done]. split; cbn; try done.
    + intros rid' s'. cbn. rewrite lookup_delete_Some. intros [_ Hl]. by eapply Hread.
    + intros s' e. cbn. destruct (decide (k = k')) as [->|Hne];
        [|rewrite lookup_insert_ne by done; apply Hc].
      rewrite lookup_insert_eq. intros [= <- <-]. left. by eapply Hread.
  - destruct (precheck k'); [done|].
    assert (∀ prev, no_release_pending (mkGate (rows g) (cache g) (requests g)
      (<[wid := Previous k' paused (TrimSpace reason) actor ip prev]> (writers g)) (audit g)) k) as Hn.
    { intros prev wid' w. cbn. destruct (decide (wid' = wid)) as [->|Hne].
      - rewrite lookup_insert_eq. by intros [= <-].
      - rewrite lookup_insert_ne by done. apply Hwr. }
    destruct (read_row _ _ _); [|destruct previous_required]; split; cbn; auto.
  - destruct (writers g !! wid) as [[k' paused reason actor ip prev|]|] eqn:Ew; [|done..].
    pose proof (Hwr _ _ Ew) as Hp. cbn in Hp.
    destruct (write_row _ _ _ failure) as [[rows' u]|c] eqn:Ewr; split; cbn; try done.
    + by eapply row_paused_write.
    + intros wid' w. cbn. destruct (decide (wid' = wid)) as [->|Hne].
      * rewrite lookup_insert_eq. intros [= <-]. by destruct (write_row_ok _ _ _ _ _ _ Ewr) as [-> _].
      * rewrite lookup_insert_ne by done. apply Hwr.
    + intros wid' w. cbn. rewrite lookup_delete_Some. intros [_ Hl]. by eapply Hwr.
  - destruct (writers g !! wid) as [[|k' paused actor ip prev u]|] eqn:Ew; [done| |done].
    pose proof (Hwr _ _ Ew) as Hp. cbn in Hp. split; cbn; try done.
    + intros wid' w. cbn. rewrite lookup_delete_Some. intros [_ Hl]. by eapply Hwr.
    + intros s e. cbn. destruct (decide (k = k')) as [->|Hne]; destruct overwrite_cache;
        rewrite ?lookup_insert_eq, ?lookup_delete_eq, ?lookup_insert_ne, ?lookup_delete_ne by done;
        try apply Hc; [intros [= <- <-]; left; auto|done].
  - destruct (set_row (rows g) k' s) as [[rows' u]|] eqn:Es; [|done]. split; cbn; try done.
    by apply (row_paused_write (rows g) k k' s None rows' u).
Qed.

(** What a settled instance can still answer. *)
Lemma settled_answer `{!SwitchLaws} g now ev k t :
  precheck k = None → settled g k t → (gate_step g now ev).2 = Some (k, Allowed) → now < t.
Proof.
  intros Hpre [Hrow Hread Hwr Hc] Hd.
  assert (∀ s, Paused s = true → verdict k s ≠ Allowed) as Hv
    by (intros s Hs; unfold verdict; by rewrite Hs).
  destruct ev as [rid k'|rid failure|rid|wid k' paused reason actor ip failure|wid failure|wid|k' s];
    cbn [gate_step] in Hd.
  - destruct (precheck k') eqn:Ep; [cbn in Hd; simplify_eq|].
    unfold fresh in Hd. destruct (cache g !! k') as [[s e]|] eqn:Ec; [|done].
    destruct (time_before now e) eqn:Eb; [|done]. cbn in Hd. injection Hd as -> Hd.
    apply Z.ltb_lt in Eb. destruct (Hc _ _ Ec) as [Hs|He]; [by destruct (Hv s Hs)|lia].
  - destruct (requests g !! rid) as [[k'|]|]; [|done..].
    by destruct (read_row (rows g) k' failure).
  - destruct (requests g !! rid) as [[|k' s]|] eqn:Er; [done| |done]. cbn in Hd.
    injection Hd as -> Hd. by destruct (Hv s (Hread _ _ Er)).
  - destruct (precheck k'); [done|]. by destruct (read_row _ _ _); [|destruct previous_required].
  - destruct (writers g !! wid) as [[|]|]; [|done..]. by destruct (write_row _ _ _ _) as [[]|].
  - by destruct (writers g !! wid) as [[|]|].
  - by destruct (set_row _ _ _) as [[]|].
Qed.

Lemma settled_run `{!SwitchLaws} evs : ∀ g k t now,
  precheck k = None → settled g k t → Forall (harmless k) evs →
  (now, (k, Allowed)) ∈ (run g evs).2 → now < t.
Proof.
  induction evs as [|[now' ev] evs IH]; intros g k t now Hpre Hg Hh Hin; cbn in Hin.
  { by apply elem_of_nil in Hin. }
  apply Forall_cons in Hh as [Hev Hh].
  pose proof (gate_step_settled g now' ev k t Hg Hev) as Hg'.
  pose proof (settled_answer g now' ev k t Hpre Hg) as Ha.
  destruct (gate_step g now' ev) as [g' d]. cbn in Hg', Ha.
  destruct (run g' evs) as [g'' ds] eqn:Er. cbn in Hin.
  assert ((now, (k, Allowed)) ∈ ds → now < t) as Hds.
  { intros Hx. eapply (IH g'); try done. by rewrite Er. }
  destruct d as [x|]; [|auto]. apply elem_of_cons in Hin as [[= <- <-]|]; auto.
Qed.

(** Cache entries never outlive the TTL of the step that stored them. *)
Lemma run_cache_bounded evs : ∀ g t,
  (∀ k s e, cache g !! k = Some (s, e) → e ≤ t + switchCacheTTL) →
  Forall (λ ev, ev.1 ≤ t) evs →
  ∀ k s e, cache (run g evs).1 !! k = Some (s, e) → e ≤ t + switchCacheTTL.
Proof.
  induction evs as [|[now ev] evs IH]; intros g t Hg Ht; [done|].
  apply Forall_cons in Ht as [Hnow Ht]. cbn in Hnow |- *.
  assert (∀ k s e, cache (gate_step g now ev).1 !! k = Some (s, e) → e ≤ t + switchCacheTTL) as Hg'.
  { intros k s e. destruct ev; cbn [gate_step].
    - destruct (precheck _); [apply Hg|]. destruct (fresh _ _ _); apply Hg.
    - destruct (requests g !! _) as [[]|]; [|apply Hg..].
      destruct (read_row _ _ _); apply Hg.
    - destruct (requests g !! _) as [[|k' s']|]; [apply Hg| |apply Hg]. cbn.
      rewrite lookup_insert_Some. intros [[_ [= <- <-]]|[_ Hl]]; [unfold time_add; lia|by eapply Hg].
    - destruct (precheck _); [apply Hg|]. destruct (read_row _ _ _); [|destruct previous_required]; apply Hg.
    - destruct (writers g !! _) as [[]|]; [|apply Hg..]. destruct (write_row _ _ _ _) as [[]|]; apply Hg.
    - destruct (writers g !! _) as [[|k' p a ip pr u]|]; [apply Hg| |apply Hg]. cbn.
      destruct overwrite_cache.
      + rewrite lookup_insert_Some. intros [[_ [= <- <-]]|[_ Hl]]; [unfold time_add; lia|by eapply Hg].
      + rewrite lookup_delete_Some. intros [_ Hl]. by eapply Hg.
    - destruct (set_row _ _ _) as [[]|]; apply Hg. }
  destruct (gate_step g now ev) as [g' d]. specialize (IH g' t Hg' Ht).
  by destruct (run g' evs).
Qed.

(** A pause reaches every instance within the TTL. Take an instance that has
    run any schedule of requests and changes up to time [t] from an empty cache,
    at a moment where the row of [k] is paused, by this instance or another, and
    no request of this one still holds an older state it has read. As long as
    nobody releases [k], no request on [k] is allowed from [t] plus two seconds
    on, and none at all if the cache holds no released state of [k]. *)
Lemma pause_reaches_every_instance `{!SwitchLaws} rows0 before after k t :
  let g := (run (mkGate rows0 ∅ ∅ ∅ []) before).1 in
  precheck k = None → Forall (λ ev, ev.1 ≤ t) before →
  row_paused g k → no_stale_read g k → no_release_pending g k → Forall (harmless k) after →
  ∀ now, (now, (k, Allowed)) ∈ (run g after).2 →
    now < t + switchCacheTTL ∧ ∃ s e, cache g !! k = Some (s, e) ∧ Paused s = false ∧ now < e.
Proof.
  intros g Hpre Hb Hrow Hread Hwr Hafter now Hin.
  assert (∀ s e, cache g !! k = Some (s, e) → e ≤ t + switchCacheTTL) as Hc.
  { intros s e. apply run_cache_bounded; [|done]. intros ? ? ? Hl. cbn in Hl. by rewrite lookup_empty in Hl. }
  destruct (cache g !! k) as [[s e]|] eqn:Ec; [destruct (Paused s) eqn:Es|].
  2:{ assert (now < e).
      { eapply settled_run; [done| |done|done]. split; try done. intros s' e'. rewrite Ec. intros [= <- <-]. by right. }
      specialize (Hc s e eq_refl). split; [lia|]. by exists s, e. }
  all: exfalso; assert (now < now); [|lia]; eapply settled_run; [done| |done|done];
    split; try done; intros s' e'; rewrite Ec; intros [=]; simplify_eq; by left.
Qed.

(** The three steps of a [SetPaused] that nothing interrupts. *)
Definition SetPaused (g : Gate) (wid : nat) (k : Key) (paused : bool) (reason : string)
    (actor : option Z) (ip : string) (now : Time) (readFailure writeFailure : option string) : Gate :=
  (run g [(now, EvSetRead wid k paused reason actor ip readFailure);
          (now, EvSetWrite wid writeFailure); (now, EvSetDone wid)]).1.

(** C28: on the instance where it is made a pause holds from the next request on. Once
    [SetPaused] has engaged the switch of [k], with no request of this instance holding an
    older, released state of [k] and no other change in flight here that releases it,
    every request on [k] is refused for as long as nobody, here or on another instance,
    releases it. Without the first condition a request that read before the pause puts
    the released state back into the cache. *)
Theorem pause_is_immediate `{!SwitchLaws} g wid k reason actor ip now evs r :
  precheck k = None → get_row (rows g) k = Ok r → (∃ x, set_row (rows g) k (mkSwitch true (TrimSpace reason) actor now) = Ok x) →
  writers g !! wid = None → no_stale_read g k → no_release_pending g k → Forall (harmless k) evs →
  let g' := SetPaused g wid k true reason actor ip now None None in
  row_paused g' k ∧ ∀ t, (t, (k, Allowed)) ∉ (run g' evs).2.
Proof.
  intros Hpre Hr [[rows' u] Hs] Hw Hread Hwr Hevs g'.
  assert (g' = mkGate rows'
    (if overwrite_cache then <[k := (u, time_add now switchCacheTTL)]> (cache g) else delete k (cache g))
    (requests g) (writers g)
    (audit g ++ [mkAuditNote actor true k (Some (Paused r, Reason r)) (Paused u, Reason u) ip])) as Hg'.
  { subst g'. unfold SetPaused. cbn. rewrite Hpre, Hr. cbn.
    rewrite lookup_insert_eq, Hs. cbn. rewrite lookup_insert_eq. cbn.
    by rewrite !insert_insert_eq, delete_insert_id by done. }
  destruct (set_get _ _ _ _ _ Hs) as [-> Hget]. rewrite Hg'. split; [by eexists|].
  intros t Hin. assert (t < t); [|lia]. eapply settled_run; [done| |done|exact Hin].
  split; cbn; try done; [by eexists|]. intros s e. cbn.
  destruct overwrite_cache; rewrite ?lookup_insert_eq, ?lookup_delete_eq; [|done].
  intros [= <- <-]. by left.
Qed.

(** What one undisturbed [EnsureAllowed] answers: the precheck if it has
    something to say, else the state the cache still vouches for, else the row's;
    when the row cannot be read the operation is refused, with the cause kept. *)
Lemma EnsureAllowed_fails_closed g rid k now failure :
  requests g !! rid = None →
  (EnsureAllowed g rid k now failure).2 =
  [(now, (k, match precheck k with
             | Some d => d
             | None => match fresh (cache g) k now with
                       | Some s => verdict k s
                       | None => match read_row (rows g) k failure with
                                 | Ok s => verdict k s
                                 | Err c => refuse_unreadable k c
                                 end
                       end
             end))].
Proof.
  intros Hr. unfold EnsureAllowed. cbn.
  destruct (precheck k); cbn; [by rewrite Hr; cbn; rewrite Hr|].
  destruct (fresh (cache g) k now); cbn; [by rewrite Hr; cbn; rewrite Hr|].
  rewrite lookup_insert_eq. destruct (read_row (rows g) k failure); cbn.
  - by rewrite lookup_insert_eq.
  - by rewrite lookup_delete_eq.
Qed.
End gate.

(** *** Both services satisfy the laws *)

#[export] Instance GlobalSwitches_laws : @SwitchLaws GlobalSwitches.
Proof.
  split; cbn; unfold SetSwitch, GetSwitch; intros t k s t' u; [|intros k'];
    destruct (t !! k) eqn:E; try done; intros [= <- <-].
  - by rewrite lookup_insert_eq.
  - intros Hne. by rewrite lookup_insert_ne.
Qed.

#[export] Instance VaultSwitches_laws : @SwitchLaws VaultSwitches.
Proof.
  split; cbn; unfold SetVaultSwitch, GetVaultSwitch; intros t k s t' u; [|intros k'];
    intros [= <- <-].
  - by rewrite lookup_insert_eq.
  - intros Hne. by rewrite lookup_insert_ne.
Qed.

(** *** The stale read *)

(** An instance that has just started. *)
Definition idle (K : SwitchKind) (rows : gmap (@Key K) Switch) : @Gate K :=
  @mkGate K rows ∅ ∅ ∅ [].

Definition stale_schedule (K : SwitchKind) (k : @Key K) : list (Time * @Event K) :=
  [(10, @EvStart K 1 k); (11, @EvFetch K 1 None);
   (12, @EvSetRead K 1 k true "incident" (Some 9) "" None); (13, @EvSetWrite K 1 None);
   (14, @EvSetDone K 1); (15, @EvStore K 1); (16, @EvStart K 2 k)].

(** A request that has read the released row but not stored it yet when a pause
    completes puts the old state back into the cache, and the next request is
    allowed although the switch is engaged. This is so for both services: storing
    the new row does not keep a later store from replacing it. *)
Lemma stale_read_undoes_pause :
  let g := run (idle GlobalSwitches (seeded 0)) (stale_schedule GlobalSwitches OperationDeposit) in
  row_paused g.1 OperationDeposit ∧ last g.2 = Some (16, (OperationDeposit, Allowed)).
Proof.
  vm_compute. split; [by eexists|reflexivity].
Qed.

Lemma stale_read_undoes_vault_pause :
  let k := mkVaultSwitchKey 7 OperationDeposit in
  let g := run (idle VaultSwitches ∅) (stale_schedule VaultSwitches k) in
  row_paused g.1 k ∧ last g.2 = Some (16, (k, Allowed)).
Proof.
  vm_compute. split; [by eexists|reflexivity].
Qed.

(** *** Listing *)

(** The admin view shows both switches of a vault, a missing row as released. *)
Lemma VaultMoneyPath_List_complete rows vaultID : vaultID ≠ 0 →
  VaultMoneyPath_List rows vaultID =
    Some (map (λ op, (mkVaultSwitchKey vaultID op,
                      default released (rows !! mkVaultSwitchKey vaultID op))) Operations).
Proof.
  intros Hv. unfold VaultMoneyPath_List. rewrite (proj2 (Z.eqb_neq _ _)) by done.
  unfold ListVaultSwitches. cbn.
  destruct (rows !! mkVaultSwitchKey vaultID OperationDeposit),
    (rows !! mkVaultSwitchKey vaultID OperationWithdrawal); reflexivity.
Qed.

(** *** Witnesses *)

Definition paused_elsewhere : list (Time * @Event GlobalSwitches) :=
  [(5, @EvStart GlobalSwitches 1 OperationDeposit); (5, @EvFetch GlobalSwitches 1 None);
   (6, @EvStore GlobalSwitches 1);
   (7, @EvElsewhere GlobalSwitches OperationDeposit (mkSwitch true "incident" None 7))].

(** A request at 8 still sees the cached state; the bound holds of it. *)
Lemma pause_reaches_every_instance_witness :
  let g := (run (idle GlobalSwitches (seeded 0)) paused_elsewhere).1 in
  (run g [(8, @EvStart GlobalSwitches 2 OperationDeposit)]).2 = [(8, (OperationDeposit, Allowed))] ∧
  ∀ now, (now, (OperationDeposit, Allowed)) ∈
           (run g [(8, @EvStart GlobalSwitches 2 OperationDeposit)]).2 →
    now < 7 + switchCacheTTL.
Proof.
  intros g. split; [vm_compute; reflexivity|]. intros now Hin.
  eapply (pause_reaches_every_instance (H := GlobalSwitches) (seeded 0) paused_elsewhere
    [(8, @EvStart GlobalSwitches 2 OperationDeposit)] OperationDeposit 7).
  - reflexivity.
  - repeat (apply Forall_cons; split); try apply Forall_nil; done.
  - vm_compute. by eexists.
  - intros rid s. vm_compute. done.
  - intros wid w. vm_compute. done.
  - repeat (apply Forall_cons; split); try apply Forall_nil; done.
  - exact Hin.
Defined.

Lemma pause_is_immediate_witness :
  let k := mkVaultSwitchKey 7 OperationDeposit in
  let g := SetPaused (idle VaultSwitches ∅) 1 k true " incident " None "" 5 None None in
  row_paused g k ∧
  ∀ t, (t, (k, Allowed)) ∉ (run g [(6, @EvStart VaultSwitches 2 k); (7, @EvFetch VaultSwitches 2 None)]).2.
Proof.
  cbv zeta. eapply (pause_is_immediate (H := VaultSwitches) _ _ _ _ _ _ _ _ released).
  - reflexivity.
  - reflexivity.
  - by eexists.
  - reflexivity.
  - intros rid s. vm_compute. done.
  - intros wid w. vm_compute. done.
  - repeat (apply Forall_cons; split); try apply Forall_nil; done.
Defined.

Lemma EnsureAllowed_fails_closed_witness :
  (EnsureAllowed (idle GlobalSwitches (seeded 0)) 1 OperationDeposit 5 (Some "down"%string)).2 =
  [(5, (OperationDeposit, Refused (mkPausedError OperationDeposit unreadable (Some (ReadFailed "down")))))].
Proof.
  by rewrite (EnsureAllowed_fails_closed (H := GlobalSwitches) (idle GlobalSwitches (seeded 0))).
Defined.

End MoneyPath.
