(* ===== verification/Idempotency.v ===== *)
(** Idempotency keys (src/apps/api/internal/middleware/idempotency.go, the route
    matching of middleware/ratelimit_routes.go and the store in
    repository/postgres/idempotency_repository.go): any number of requests on any
    number of instances over one table, step by step. *)
From S2P Require Import Prelude TimeFormat.

Module Idempotency.
Import TimeFormat.

(** *** Route matching *)

Definition slash : Ascii.ascii := byte 47.

Fixpoint trim_left_slash (l : list Ascii.ascii) : list Ascii.ascii :=
  match l with
  | c :: l' => if decide (c = slash) then trim_left_slash l' else l
  | [] => []
  end.

(** [strings.Trim(p, "/")]. *)
Definition trim_slashes (l : list Ascii.ascii) : list Ascii.ascii :=
  rev (trim_left_slash (rev (trim_left_slash l))).

(** [strings.Split(p, "/")]. *)
Fixpoint split_slash (l : list Ascii.ascii) : list (list Ascii.ascii) :=
  match l with
  | [] => [[]]
  | c :: l' =>
      if decide (c = slash) then [] :: split_slash l'
      else match split_slash l' with
           | seg :: segs => (c :: seg) :: segs
           | [] => [[c]]
           end
  end.

Definition splitPath (p : string) : list (list Ascii.ascii) :=
  match trim_slashes (bytes_of p) with
  | [] => []
  | t => split_slash t
  end.

Definition isPathWildcard (seg : list Ascii.ascii) : bool :=
  (2 <=? Z.of_nat (length seg)) && bool_decide (head seg = Some (byte 123))
  && bool_decide (last seg = Some (byte 125)).

Fixpoint match_segments (pSegs pathSegs : list (list Ascii.ascii)) : bool :=
  match pSegs, pathSegs with
  | [], _ => true
  | p :: ps, s :: ss =>
      if isPathWildcard p then
        if bool_decide (s = []) then false else match_segments ps ss
      else if bool_decide (p ≠ s) then false
      else match_segments ps ss
  | _ :: _, [] => false
  end.

Definition matchPathPattern (pattern path : string) : bool :=
  if pattern =s? path then true
  else
    let pSegs := splitPath pattern in
    let pathSegs := splitPath path in
    if negb (bool_decide (length pSegs = length pathSegs)) then false
    else match_segments pSegs pathSegs.

Record RouteMatch := mkRouteMatch { RMMethod : string; RMPath : string }.

Definition matchesRoute (routes : list RouteMatch) (method path : string) : bool :=
  existsb (λ rt, (method =s? RMMethod rt) && matchPathPattern (RMPath rt) path) routes.

Definition VaultMoneyPathIdempotencyRoutes : list RouteMatch :=
  [mkRouteMatch "POST" "/api/v1/vaults/{id}/deposit";
   mkRouteMatch "POST" "/api/v1/vaults/{id}/withdraw";
   mkRouteMatch "POST" "/api/v1/vaults/{id}/harvest";
   mkRouteMatch "POST" "/api/v1/vaults/{id}/rebalance";
   mkRouteMatch "POST" "/api/v1/vault/rebalance"].

Example routes_match :
  map (matchesRoute VaultMoneyPathIdempotencyRoutes "POST")
    ["/api/v1/vaults/7f/deposit"; "/api/v1/vaults//deposit"; "/api/v1/vaults/7f/pause";
     "/api/v1/vault/rebalance/"]%string = [true; false; false; true].
Proof. vm_compute. reflexivity. Qed.

(** *** Keys and fingerprints *)

Definition US : Ascii.ascii := byte 31.

Definition scopedIdempotencyKey (method path clientKey : string) : string :=
  (method +:+ " " +:+ path +:+ String US clientKey)%string.

Definition fingerprintRequest (sha256_hex : string → string) (method path body : string) : string :=
  sha256_hex (method +:+ String (byte 0) (path +:+ String (byte 0) body))%string.

(** *** Responses and the recording writer *)

Record Response := mkResponse {
  RespStatus : Z;
  RespBody : string;
  RespContentType : string;
}.

(** The calls a handler makes on its [http.ResponseWriter]. *)
Inductive WriterCall := CallWriteHeader (status : Z) | CallWrite (p : string).

Record Recorder := mkRecorder { RecStatus : Z; RecBody : string; WroteHeader : bool }.

Definition newRecordingResponseWriter : Recorder := mkRecorder 200 "" false.

Definition Recorder_WriteHeader (rw : Recorder) (status : Z) : Recorder :=
  if WroteHeader rw then rw else mkRecorder status (RecBody rw) true.

Definition Recorder_Write (rw : Recorder) (p : string) : Recorder :=
  let rw := if WroteHeader rw then rw else Recorder_WriteHeader rw 200 in
  mkRecorder (RecStatus rw) (RecBody rw +:+ p)%string (WroteHeader rw).

Definition Recorder_call (rw : Recorder) (c : WriterCall) : Recorder :=
  match c with
  | CallWriteHeader s => Recorder_WriteHeader rw s
  | CallWrite p => Recorder_Write rw p
  end.

(** What the middleware stores of a handler that made [calls] and left [ct] in
    its Content-Type header. *)
Definition recorded (calls : list WriterCall) (ct : string) : Response :=
  let rec := foldl Recorder_call newRecordingResponseWriter calls in
  mkResponse (RecStatus rec) (RecBody rec) ct.

(** *** The table *)

Inductive Status := in_progress | completed.
#[global] Instance Status_eq_dec : EqDecision Status.
Proof. solve_decision. Defined.

(** A row of [idempotency_keys]; the response columns are NULL until it is
    completed. *)
Record KeyRow := mkKeyRow {
  RowFingerprint : string;
  RowStatus : Status;
  RowResponse : option Response;
  RowExpiresAt : Time;
}.

(** Rows are keyed by user and scoped key. *)
Definition RowKey : Type := Z * string.

Record IdempotencyRecord := mkRecord {
  RFingerprint : string;
  RStatus : Status;
  RResponseStatus : Z;
  RResponseBody : string;
  RResponseContentType : string;
}.

(** [INSERT ... ON CONFLICT (user_id, key) DO NOTHING]: whether a row was
    inserted. *)
Definition insert_claim (t : gmap RowKey KeyRow) (k : RowKey) (fp : string) (expiresAt : Time)
  : gmap RowKey KeyRow * bool :=
  match t !! k with
  | Some _ => (t, false)
  | None => (<[k := mkKeyRow fp in_progress None expiresAt]> t, true)
  end.

Definition Store_Get (t : gmap RowKey KeyRow) (k : RowKey) : option IdempotencyRecord :=
  match t !! k with
  | None => None
  | Some r => Some (mkRecord (RowFingerprint r) (RowStatus r)
                      (from_option RespStatus 0 (RowResponse r))
                      (from_option RespBody "" (RowResponse r))
                      (from_option RespContentType "" (RowResponse r)))
  end.

Definition Store_Complete (t : gmap RowKey KeyRow) (k : RowKey) (resp : Response)
  : gmap RowKey KeyRow :=
  match t !! k with
  | Some r => <[k := mkKeyRow (RowFingerprint r) completed (Some resp) (RowExpiresAt r)]> t
  | None => t
  end.

Definition Store_Release (t : gmap RowKey KeyRow) (k : RowKey) : gmap RowKey KeyRow :=
  match t !! k with
  | Some r => if bool_decide (RowStatus r = in_progress) then delete k t else t
  | None => t
  end.

(** [PurgeExpired]: [DELETE ... WHERE expires_at < NOW()]. *)
Definition PurgeExpired (t : gmap RowKey KeyRow) (now : Time) : gmap RowKey KeyRow :=
  filter (λ kr, now ≤ RowExpiresAt kr.2) t.

(** *** The middleware *)

Definition maxIdempotencyBodyBytes : Z := 1048576.
Definition defaultIdempotencyTTL : Duration := 24 * Hour.
Definition concurrentWaitTotal : Duration := 2 * Second.
Definition completeMaxRetries : nat := 3.

Record Req := mkReq {
  Method : string;
  Path : string;
  (** The authenticated user ([None]: not authenticated) and the parse of its id. *)
  User : option (option Z);
  IdemKey : string;
  (** [None]: the body cannot be read. *)
  Body : option string;
}.

Inductive Answer :=
| Passed                          (* handed on, the route is not covered *)
| HttpError (code : Z)
| Executed (r : Response)         (* what the handler wrote *)
| Panicked
| Replayed (status : Z) (body : string) (contentType : string).

Definition writeStoredResponse (rec : IdempotencyRecord) : Answer :=
  let status := RResponseStatus rec in
  let status := if status =? 0 then 200 else status in
  Replayed status (RResponseBody rec) (RResponseContentType rec).

(** A request past the checks: its row key and fingerprint. *)
Record Call := mkCall { CKey : RowKey; CFingerprint : string }.

(** The checks before the claim. *)
Definition admit_request (sha256_hex : string → string) (routes : list RouteMatch) (r : Req)
  : Answer + Call :=
  if negb (matchesRoute routes (Method r) (Path r)) then inl Passed
  else match User r with
       | None | Some None => inl (HttpError 500)
       | Some (Some userID) =>
           if IdemKey r =s? "" then inl (HttpError 400)
           else
             let key := scopedIdempotencyKey (Method r) (Path r) (IdemKey r) in
             match Body r with
             | None => inl (HttpError 400)
             | Some bodyBytes =>
                 if maxIdempotencyBodyBytes <? str_len bodyBytes then inl (HttpError 413)
                 else inr (mkCall (userID, key)
                             (fingerprintRequest sha256_hex (Method r) (Path r) bodyBytes))
             end
       end.

(** Where an admitted request stands between its steps. *)
Inductive Phase :=
| Claiming (c : Call)
(** The insert hit a conflict; the existing row is read next. *)
| Conflicting (c : Call)
(** Waiting for a concurrent request until the deadline. *)
| Waiting (c : Call) (deadline : Time)
| Running (c : Call)
(** The handler has answered; [attempt] tries of [Complete] have failed. *)
| Completing (c : Call) (resp : Response) (attempt : nat)
| Releasing (c : Call).

(** How a database write fails. *)
Inductive WriteFault := NotApplied | AppliedButError.

Inductive Event :=
| EvRequest (rid : nat) (r : Req)
| EvClaim (rid : nat) (fault : option WriteFault)
| EvExisting (rid : nat) (fails : bool)
(** One turn of the wait loop: the clock when the deadline is checked, and
    whether the read that follows fails. *)
| EvPoll (rid : nat) (checked : Time) (fails : bool)
(** The handler returns, or panics. *)
| EvHandler (rid : nat) (outcome : option (list WriterCall * string))
(** One [Complete]; before a retry the request's context may be done. *)
| EvComplete (rid : nat) (ctxDone : bool) (fault : option WriteFault)
| EvRelease (rid : nat) (fault : option WriteFault)
| EvPurge.

(** What a step leaves behind for the specification to look at. *)
Inductive LogItem :=
| LClaimed (rid : nat) (k : RowKey) (fp : string)
| LExecuted (rid : nat) (k : RowKey) (fp : string) (resp : option Response)
| LDeleted (k : RowKey)
| LAnswer (rid : nat) (k : option RowKey) (fp : string) (waited : bool) (a : Answer).

Record World := mkWorld {
  table : gmap RowKey KeyRow;
  phases : gmap nat Phase;
  history : list LogItem;
}.

Section middleware.
  Context (sha256_hex : string → string) (routes : list RouteMatch).

Definition goto (w : World) (rid : nat) (p : Phase) : World :=
  mkWorld (table w) (<[rid := p]> (phases w)) (history w).

Definition answer (w : World) (rid : nat) (k : option RowKey) (fp : string) (waited : bool)
    (a : Answer) : World :=
  mkWorld (table w) (delete rid (phases w)) (history w ++ [LAnswer rid k fp waited a]).

(** The rows of [t] that [t'] no longer has. *)
Definition deleted (t t' : gmap RowKey KeyRow) : list LogItem :=
  map (λ kr, LDeleted kr.1) (filter (λ kr, t' !! kr.1 = None) (map_to_list t)).

Definition set_table (w : World) (t : gmap RowKey KeyRow) : World :=
  mkWorld t (phases w) (history w ++ deleted (table w) t).

Definition tooEarly : Answer := HttpError 425.

Definition step (w : World) (now : Time) (ev : Event) : World :=
  match ev with
  | EvRequest rid r =>
      match phases w !! rid with
      | Some _ => w
      | None =>
          match admit_request sha256_hex routes r with
          | inl a => answer w rid None "" false a
          | inr c => goto w rid (Claiming c)
          end
      end
  | EvClaim rid fault =>
      match phases w !! rid with
      | Some (Claiming c) =>
          let '(t', claimed) :=
            insert_claim (table w) (CKey c) (CFingerprint c) (time_add now defaultIdempotencyTTL) in
          match fault with
          | Some NotApplied => answer w rid (Some (CKey c)) (CFingerprint c) false (HttpError 500)
          | Some AppliedButError =>
              let w' := mkWorld t' (phases w)
                          (history w ++ if claimed then [LClaimed rid (CKey c) (CFingerprint c)] else []) in
              answer w' rid (Some (CKey c)) (CFingerprint c) false (HttpError 500)
          | None =>
              if claimed then
                mkWorld t' (<[rid := Running c]> (phases w))
                  (history w ++ [LClaimed rid (CKey c) (CFingerprint c)])
              else goto w rid (Conflicting c)
          end
      | _ => w
      end
  | EvExisting rid fails =>
      match phases w !! rid with
      | Some (Conflicting c) =>
          match (if fails then None else Store_Get (table w) (CKey c)) with
          | None => answer w rid (Some (CKey c)) (CFingerprint c) false (HttpError 500)
          | Some existing =>
              if negb (RFingerprint existing =s? CFingerprint c) then
                answer w rid (Some (CKey c)) (CFingerprint c) false (HttpError 409)
              else if bool_decide (RStatus existing = completed) then
                answer w rid (Some (CKey c)) (CFingerprint c) false (writeStoredResponse existing)
              else goto w rid (Waiting c (time_add now concurrentWaitTotal))
          end
      | _ => w
      end
  | EvPoll rid checked fails =>
      match phases w !! rid with
      | Some (Waiting c deadline) =>
          if negb (time_before checked deadline) then
            answer w rid (Some (CKey c)) (CFingerprint c) true tooEarly
          else if fails then w
          else match Store_Get (table w) (CKey c) with
               | None => answer w rid (Some (CKey c)) (CFingerprint c) true tooEarly
               | Some rec =>
                   if bool_decide (RStatus rec = completed) then
                     answer w rid (Some (CKey c)) (CFingerprint c) true (writeStoredResponse rec)
                   else w
               end
      | _ => w
      end
  | EvHandler rid outcome =>
      match phases w !! rid with
      | Some (Running c) =>
          match outcome with
          | Some (calls, ct) =>
              let resp := recorded calls ct in
              mkWorld (table w) (<[rid := Completing c resp 0]> (phases w))
                (history w ++ [LExecuted rid (CKey c) (CFingerprint c) (Some resp);
                               LAnswer rid (Some (CKey c)) (CFingerprint c) false (Executed resp)])
          | None =>
              mkWorld (table w) (<[rid := Releasing c]> (phases w))
                (history w ++ [LExecuted rid (CKey c) (CFingerprint c) None;
                               LAnswer rid (Some (CKey c)) (CFingerprint c) false Panicked])
          end
      | _ => w
      end
  | EvComplete rid ctxDone fault =>
      match phases w !! rid with
      | Some (Completing c resp attempt) =>
          if ctxDone && negb (bool_decide (attempt = 0%nat)) then goto w rid (Releasing c)
          else
            let t' := Store_Complete (table w) (CKey c) resp in
            let failed t :=
              let w' := mkWorld t (phases w) (history w) in
              if bool_decide (S attempt = completeMaxRetries) then goto w' rid (Releasing c)
              else goto w' rid (Completing c resp (S attempt)) in
            match fault with
            | None => mkWorld t' (delete rid (phases w)) (history w)
            | Some NotApplied => failed (table w)
            | Some AppliedButError => failed t'
            end
      | _ => w
      end
  | EvRelease rid fault =>
      match phases w !! rid with
      | Some (Releasing c) =>
          let w' := match fault with
                    | Some NotApplied => w
                    | _ => set_table w (Store_Release (table w) (CKey c))
                    end in
          mkWorld (table w') (delete rid (phases w')) (history w')
      | _ => w
      end
  | EvPurge => set_table w (PurgeExpired (table w) now)
  end.

Fixpoint run (w : World) (evs : list (Time * Event)) : World :=
  match evs with
  | [] => w
  | (now, ev) :: rest => run (step w now ev) rest
  end.

Definition fresh_world : World := mkWorld ∅ ∅ [].

(** *** Counting claims, executions and deletions *)

Definition is_claim (k : RowKey) (i : LogItem) : bool :=
  match i with LClaimed _ k' _ => bool_decide (k' = k) | _ => false end.
Definition is_exec (k : RowKey) (i : LogItem) : bool :=
  match i with LExecuted _ k' _ _ => bool_decide (k' = k) | _ => false end.
Definition is_delete (k : RowKey) (i : LogItem) : bool :=
  match i with LDeleted k' => bool_decide (k' = k) | _ => false end.

Definition count (p : LogItem → bool) (l : list LogItem) : nat := length (filter (λ i, p i = true) l).

#[local] Arguments count : simpl never.

Lemma count_app p l l' : count p (l ++ l') = (count p l + count p l')%nat.
Proof. unfold count. by rewrite filter_app, length_app. Qed.

Lemma count_none p l : (∀ i, i ∈ l → p i = false) → count p l = 0%nat.
Proof.
  intros Hp. unfold count. rewrite filter_none; [done|]. intros i Hi. by rewrite Hp.
Qed.

Lemma count_cons p i l : count p (i :: l) = ((if p i then 1 else 0) + count p l)%nat.
Proof. unfold count. rewrite filter_cons. destruct (p i); [by rewrite decide_True|by rewrite decide_False]. Qed.

Lemma count_nil p : count p [] = 0%nat.
Proof. done. Qed.

Lemma count_one p i : count p [i] = if p i then 1%nat else 0%nat.
Proof. unfold count. rewrite filter_cons. destruct (p i); [by rewrite decide_True|by rewrite decide_False]. Qed.

Definition is_running (k : RowKey) (p : Phase) : bool :=
  match p with Running c => bool_decide (CKey c = k) | _ => false end.

Definition running (k : RowKey) (ps : gmap nat Phase) : nat :=
  size (filter (λ rp, is_running k rp.2 = true) ps).

Definition run_at (k : RowKey) (ps : gmap nat Phase) (rid : nat) : nat :=
  match ps !! rid with Some p => if is_running k p then 1 else 0 | None => 0 end.

#[local] Arguments running : simpl never.

Lemma running_delete k ps rid : (running k (delete rid ps) + run_at k ps rid = running k ps)%nat.
Proof.
  unfold running, run_at. rewrite map_filter_delete. destruct (ps !! rid) as [p|] eqn:E.
  - destruct (is_running k p) eqn:Ep.
    + rewrite map_size_delete_Some; [|exists p; by apply map_lookup_filter_Some].
      assert (size (filter (λ rp, is_running k rp.2 = true) ps) ≠ 0%nat) as Hn; [|lia].
      apply map_size_ne_0_lookup_2 with rid. exists p. by apply map_lookup_filter_Some.
    + rewrite delete_id; [lia|]. apply map_lookup_filter_None. right. intros x Hx.
      cbn. congruence.
  - rewrite delete_id; [lia|]. apply map_lookup_filter_None. by left.
Qed.

Lemma running_insert k ps rid p :
  (running k (<[rid := p]> ps) + run_at k ps rid = running k ps + if is_running k p then 1 else 0)%nat.
Proof.
  rewrite <- (running_delete k ps rid), <- insert_delete_eq. unfold running at 1.
  destruct (is_running k p) eqn:Ep.
  - rewrite map_filter_insert_True by done. rewrite map_size_insert_None; [unfold running; lia|].
    apply map_lookup_filter_None. left. apply lookup_delete_eq.
  - rewrite map_filter_insert_False by (cbn; by rewrite Ep). rewrite delete_delete_eq.
    unfold running. lia.
Qed.

Definition present (t : gmap RowKey KeyRow) (k : RowKey) : nat :=
  match t !! k with Some _ => 1 | None => 0 end.

Lemma deleted_count t t' k :
  t' ⊆ t ∨ (∀ k', t' !! k' = None ↔ t !! k' = None) →
  (count (is_delete k) (deleted t t') + present t' k = present t k)%nat.
Proof.
  intros Hsub. unfold deleted, present.
  assert (∀ l, NoDup l.*1 → count (is_delete k) (map (λ kr : RowKey * KeyRow, LDeleted kr.1) l) =
    if decide (k ∈ l.*1) then 1%nat else 0%nat) as Hcount.
  { induction l as [|[k' r] l IH]; intros Hnd; [done|]. cbn in Hnd. apply NoDup_cons in Hnd as [Hn Hnd].
    unfold count in *. cbn [map fst]. rewrite filter_cons. cbn [is_delete].
    destruct (decide (k' = k)) as [->|Hne].
    - rewrite (decide_True (P := bool_decide (k = k) = true)) by (by apply bool_decide_eq_true_2).
      cbn [length]. rewrite IH by done. rewrite !decide_False, decide_True by (cbn; set_solver). done.
    - rewrite (decide_False (P := bool_decide (k' = k) = true)) by (by rewrite bool_decide_eq_false_2).
      rewrite IH by done. destruct (decide (k ∈ l.*1)); [rewrite decide_True by (cbn; set_solver)|
        rewrite decide_False by (cbn; set_solver)]; done. }
  rewrite Hcount.
  - destruct (t !! k) as [r|] eqn:Et.
    + destruct (t' !! k) as [r'|] eqn:Et'; [rewrite decide_False|rewrite decide_True]; try done.
      * intros ([k1 r1] & -> & Hx)%list_elem_of_fmap. apply list_elem_of_filter in Hx as [Hx _].
        cbn in *. congruence.
      * apply list_elem_of_fmap. exists (k, r). split; [done|]. apply list_elem_of_filter.
        split; [done|]. by apply elem_of_map_to_list.
    + rewrite decide_False.
      * destruct Hsub as [Hsub|Hsub]; [|by rewrite (proj2 (Hsub k) Et)].
        destruct (t' !! k) eqn:E; [|done]. eapply lookup_weaken in E; [|done]. congruence.
      * intros ([k1 r1] & -> & Hx)%list_elem_of_fmap. apply list_elem_of_filter in Hx as [_ Hx].
        apply elem_of_map_to_list in Hx. cbn in *. congruence.
  - eapply sublist_NoDup; [apply (NoDup_fst_map_to_list t)|].
    apply fmap_sublist. apply sublist_filter.
Qed.

Record counted (k : RowKey) (w : World) : Prop := mkCounted {
  claims_eq : count (is_claim k) (history w) =
              (count (is_delete k) (history w) + present (table w) k)%nat;
  execs_le : (count (is_exec k) (history w) + running k (phases w)
              ≤ count (is_claim k) (history w))%nat;
}.

(** Phases that do not run a handler may come and go. *)
Lemma counted_goto k w rid p : is_running k p = false → counted k w → counted k (goto w rid p).
Proof.
  intros Hp [H1 H2]. split; cbn; [done|].
  pose proof (running_insert k (phases w) rid p) as Hr. rewrite Hp in Hr. lia.
Qed.

Lemma counted_answer k w rid k' fp waited a : counted k w → counted k (answer w rid k' fp waited a).
Proof.
  intros [H1 H2]. pose proof (running_delete k (phases w) rid).
  split; cbn; rewrite !count_app, !count_one; cbn; lia.
Qed.

Lemma counted_delete_phase k w rid : counted k w → counted k (mkWorld (table w) (delete rid (phases w)) (history w)).
Proof. intros [H1 H2]. pose proof (running_delete k (phases w) rid). split; cbn; lia. Qed.

Lemma counted_same_rows k w t : (∀ k', t !! k' = None ↔ table w !! k' = None) →
  counted k w → counted k (mkWorld t (phases w) (history w)).
Proof.
  intros Ht [H1 H2]. split; cbn; [|done]. rewrite H1. unfold present. specialize (Ht k).
  destruct (t !! k), (table w !! k); naive_solver.
Qed.

Lemma counted_set_table k w t : t ⊆ table w → counted k w → counted k (set_table w t).
Proof.
  intros Ht [H1 H2]. pose proof (deleted_count (table w) t k (or_introl Ht)) as Hd.
  assert (∀ p, (∀ k', p (LDeleted k') = false) → count p (deleted (table w) t) = 0%nat) as Hz.
  { intros p Hp. apply count_none. intros i (kr & -> & _)%list_elem_of_fmap. apply Hp. }
  split; cbn; rewrite !count_app, ?Hz by done; lia.
Qed.

Lemma Store_Release_sub t k : Store_Release t k ⊆ t.
Proof.
  unfold Store_Release. destruct (t !! k); [|done]. case_bool_decide; [apply delete_subseteq|done].
Qed.

Lemma Store_Complete_rows t k resp k' : Store_Complete t k resp !! k' = None ↔ t !! k' = None.
Proof.
  unfold Store_Complete. destruct (t !! k) as [r|] eqn:E; [|done].
  destruct (decide (k' = k)) as [->|]; [rewrite lookup_insert_eq, E; done|by rewrite lookup_insert_ne].
Qed.

Lemma counted_claim k w rid c expiresAt t' claimed :
  insert_claim (table w) (CKey c) (CFingerprint c) expiresAt = (t', claimed) →
  counted k w →
  counted k (mkWorld t' (phases w) (history w ++ if claimed then [LClaimed rid (CKey c) (CFingerprint c)] else []))
  ∧ (claimed = true → CKey c = k →
     (count (is_exec k) (history w) + running k (phases w) < count (is_claim k) (history w ++ [LClaimed rid (CKey c) (CFingerprint c)]))%nat).
Proof.
  unfold insert_claim. intros Hi [H1 H2].
  destruct (table w !! CKey c) as [r|] eqn:Et; simplify_eq.
  - split; [|done]. rewrite app_nil_r. by split.
  - split.
    + split; cbn; rewrite !count_app, !count_one; cbn; unfold present in *.
      * destruct (decide (CKey c = k)) as [<-|Hne].
        -- rewrite bool_decide_eq_true_2, lookup_insert_eq by done. rewrite Et in H1. lia.
        -- rewrite bool_decide_eq_false_2, lookup_insert_ne by done. lia.
      * lia.
    + intros _ Hk. rewrite count_app, count_one. cbn. rewrite bool_decide_eq_true_2 by done. lia.
Qed.

Lemma step_counted k w now ev : counted k w → counted k (step w now ev).
Proof.
  intros Hc. destruct ev as [rid r|rid fault|rid fails|rid checked fails|rid outcome|rid ctxDone fault|rid fault|];
    cbn [step].
  - destruct (phases w !! rid) eqn:Er; [done|]. destruct (admit_request _ _ _) as [a|c].
    + by apply counted_answer.
    + by apply counted_goto.
  - destruct (phases w !! rid) as [[c| | | | |]|] eqn:Er; try done.
    destruct (insert_claim _ _ _ _) as [t' claimed] eqn:Ei.
    destruct (counted_claim k w rid c _ _ _ Ei Hc) as [Hc' Hlt].
    destruct fault as [[]|].
    + by apply counted_answer.
    + by apply (counted_answer k (mkWorld t' (phases w) _)).
    + destruct claimed; [|by apply counted_goto].
      destruct Hc' as [H1 H2]. split; cbn in *; [done|].
      pose proof (running_insert k (phases w) rid (Running c)) as Hr.
      unfold run_at in Hr. rewrite Er in Hr. cbn in Hr.
      rewrite !count_app, !count_one in H2. rewrite count_app, count_one in Hlt.
      rewrite !count_app, !count_one. cbn in *.
      destruct (bool_decide (CKey c = k)) eqn:Hk; [|lia].
      apply bool_decide_eq_true in Hk. specialize (Hlt eq_refl Hk). lia.
  - destruct (phases w !! rid) as [[ |c| | | |]|] eqn:Er; try done.
    destruct (if fails then None else _) as [rec|]; [|by apply counted_answer].
    destruct (negb _); [by apply counted_answer|]. case_bool_decide; [by apply counted_answer|].
    by apply counted_goto.
  - destruct (phases w !! rid) as [[ | |c deadline| | |]|] eqn:Er; try done.
    destruct (negb _); [by apply counted_answer|]. destruct fails; [done|].
    destruct (Store_Get _ _) as [rec|]; [|by apply counted_answer].
    case_bool_decide; [by apply counted_answer|done].
  - destruct (phases w !! rid) as [[ | | |c| |]|] eqn:Er; try done.
    assert (∀ p resp i, is_running k p = false → is_exec k i = false → is_claim k i = false → is_delete k i = false →
      counted k (mkWorld (table w) (<[rid := p]> (phases w))
        (history w ++ [LExecuted rid (CKey c) (CFingerprint c) resp; i]))) as Hdone.
    { intros p resp i Hp Hi1 Hi2 Hi3. destruct Hc as [H1 H2].
      pose proof (running_insert k (phases w) rid p) as Hr. unfold run_at in Hr. rewrite Er, Hp in Hr.
      split; cbn in *; rewrite !count_app, !count_cons, !count_nil, ?Hi1, ?Hi2, ?Hi3; cbn; [lia|].
      destruct (bool_decide (CKey c = k)); lia. }
    destruct outcome as [[calls ct]|]; by apply Hdone.
  - destruct (phases w !! rid) as [[ | | | |c resp attempt|]|] eqn:Er; try done.
    destruct (ctxDone && _); [by apply counted_goto|].
    assert (counted k (mkWorld (Store_Complete (table w) (CKey c) resp) (phases w) (history w))) as Hs
      by (apply counted_same_rows; [intros; apply Store_Complete_rows|done]).
    assert (counted k (mkWorld (table w) (phases w) (history w))) as Hn by by destruct w.
    destruct fault as [[]|]; [| |by apply (counted_delete_phase k (mkWorld _ _ _) rid Hs)];
      case_bool_decide; by apply counted_goto.
  - destruct (phases w !! rid) as [[ | | | | |c]|] eqn:Er; try done.
    assert (counted k (set_table w (Store_Release (table w) (CKey c)))) as Hs
      by (apply counted_set_table; [apply Store_Release_sub|done]).
    destruct fault as [[]|]; by apply counted_delete_phase.
  - apply counted_set_table; [|done]. apply map_filter_subseteq.
Qed.

Lemma run_counted k evs : ∀ w, counted k w → counted k (run w evs).
Proof. induction evs as [|[now ev] evs IH]; intros w Hw; cbn; auto using step_counted. Qed.

Lemma fresh_counted k : counted k fresh_world.
Proof. by split. Qed.

(** *** What replays give back *)

(** The call whose claim a phase still answers for. *)
Definition holds (p : Phase) : option Call :=
  match p with
  | Running c | Completing c _ _ | Releasing c => Some c
  | _ => None
  end.

(** What [writeStoredResponse] makes of a stored response. *)
Definition replay_of (resp : Response) : Answer :=
  Replayed (if RespStatus resp =? 0 then 200 else RespStatus resp) (RespBody resp) (RespContentType resp).

Definition executed (h : list LogItem) (k : RowKey) (fp : string) (resp : Response) : Prop :=
  ∃ rid, LExecuted rid k fp (Some resp) ∈ h.

(** A replayed answer was produced by the handler for the same row key and, if the
    request did not wait, for the same request contents. *)
Definition replay_ok (h : list LogItem) (i : LogItem) : Prop :=
  match i with
  | LAnswer _ (Some k) fp waited (Replayed s b ct) =>
      ∃ fp' resp, executed h k fp' resp ∧ Replayed s b ct = replay_of resp ∧
                  (waited = false → fp' = fp)
  | _ => True
  end.

Record faithful (t : gmap RowKey KeyRow) (ps : gmap nat Phase) (h : list LogItem) : Prop := mkFaithful {
  f_single : ∀ rid rid' p p' c c', ps !! rid = Some p → ps !! rid' = Some p' →
    holds p = Some c → holds p' = Some c' → CKey c = CKey c' → rid = rid';
  f_row : ∀ rid p c, ps !! rid = Some p → holds p = Some c →
    ∃ r, t !! CKey c = Some r ∧ RowFingerprint r = CFingerprint c;
  f_completing : ∀ rid c resp n, ps !! rid = Some (Completing c resp n) →
    executed h (CKey c) (CFingerprint c) resp;
  f_completed : ∀ k r, t !! k = Some r → RowStatus r = completed →
    ∃ resp, RowResponse r = Some resp ∧ executed h k (RowFingerprint r) resp;
  f_replays : Forall (replay_ok h) h;
}.

Lemma executed_app h x k fp resp : executed h k fp resp → executed (h ++ x) k fp resp.
Proof. intros [rid Hr]. exists rid. set_solver. Qed.

Lemma replay_ok_app h x i : replay_ok h i → replay_ok (h ++ x) i.
Proof.
  unfold replay_ok. repeat case_match; try done.
  intros (fp' & resp & ? & ? & ?). exists fp', resp. auto using executed_app.
Qed.

Lemma faithful_history t ps h x :
  faithful t ps h → Forall (replay_ok (h ++ x)) x → faithful t ps (h ++ x).
Proof.
  intros [H1 H2 H3 H4 H5] Hx. split; eauto using executed_app.
  - intros k r Hk Hs. destruct (H4 k r Hk Hs) as (resp & ? & ?). eauto using executed_app.
  - apply Forall_app. split; [|done]. eapply Forall_impl; [exact H5|]. eauto using replay_ok_app.
Qed.

Lemma faithful_delete_phase t ps h rid : faithful t ps h → faithful t (delete rid ps) h.
Proof.
  intros [H1 H2 H3 H4 H5]. split; try done.
  - intros r r' p p' c c' [_ Hp]%lookup_delete_Some [_ Hp']%lookup_delete_Some. eauto.
  - intros r p c [_ Hp]%lookup_delete_Some. eauto.
  - intros r c resp n [_ Hp]%lookup_delete_Some. eauto.
Qed.

(** A phase that holds nothing, or the same claim as before, may be entered. *)
Lemma faithful_phase t ps h rid p :
  faithful t ps h →
  (∀ c, holds p = Some c → ∃ p0, ps !! rid = Some p0 ∧ holds p0 = Some c) →
  (∀ c resp n, p = Completing c resp n → executed h (CKey c) (CFingerprint c) resp) →
  faithful t (<[rid := p]> ps) h.
Proof.
  intros [H1 H2 H3 H4 H5] Hp He.
  assert (∀ r q c, <[rid := p]> ps !! r = Some q → holds q = Some c →
    ∃ q0, ps !! r = Some q0 ∧ holds q0 = Some c) as Hold.
  { intros r q c [[-> ->]|[Hne Hq]]%lookup_insert_Some Hc; eauto. }
  split; try done.
  - intros r r' q q' c c' Hq Hq' Hc Hc'.
    destruct (Hold _ _ _ Hq Hc) as (? & ? & ?), (Hold _ _ _ Hq' Hc') as (? & ? & ?). eauto.
  - intros r q c Hq Hc. destruct (Hold _ _ _ Hq Hc) as (? & ? & ?). eauto.
  - intros r c resp n [[-> ->]|[_ Hq]]%lookup_insert_Some; eauto.
Qed.

Lemma faithful_claim t ps h rid c e x :
  faithful t ps h → t !! CKey c = None → Forall (replay_ok (h ++ x)) x →
  faithful (<[CKey c := mkKeyRow (CFingerprint c) in_progress None e]> t) ps (h ++ x) ∧
  faithful (<[CKey c := mkKeyRow (CFingerprint c) in_progress None e]> t)
    (<[rid := Running c]> ps) (h ++ x).
Proof.
  intros Hf Hn Hx. destruct (faithful_history _ _ _ _ Hf Hx) as [H1 H2 H3 H4 H5].
  assert (∀ r p c', ps !! r = Some p → holds p = Some c' → CKey c' ≠ CKey c) as Hfree.
  { intros r p c' Hp Hc Heq. destruct (H2 _ _ _ Hp Hc) as (? & Hr & _). congruence. }
  assert (∀ k r, <[CKey c := mkKeyRow (CFingerprint c) in_progress None e]> t !! k = Some r →
    RowStatus r = completed →
    ∃ resp, RowResponse r = Some resp ∧ executed (h ++ x) k (RowFingerprint r) resp) as Hcomp.
  { intros k r [[<- <-]|[_ Hr]]%lookup_insert_Some; [done|eauto]. }
  split; split; try done.
  - intros r p c' Hp Hc. rewrite lookup_insert_ne by (symmetry; eauto). eauto.
  - intros r r' p p' c1 c2 [[-> <-]|[_ Hp]]%lookup_insert_Some [[-> <-]|[_ Hp']]%lookup_insert_Some Hc Hc' Heq;
      try done; simplify_eq/=.
    + by destruct (Hfree _ _ _ Hp' Hc').
    + by destruct (Hfree _ _ _ Hp Hc).
    + eauto.
  - intros r p c' [[-> <-]|[_ Hp]]%lookup_insert_Some Hc; simplify_eq/=.
    + rewrite lookup_insert_eq. eauto.
    + rewrite lookup_insert_ne by (symmetry; eauto). eauto.
  - intros r c' resp n [[-> ?]|[_ Hp]]%lookup_insert_Some; [done|eauto].
Qed.

Lemma faithful_complete t ps h rid c resp n :
  faithful t ps h → ps !! rid = Some (Completing c resp n) →
  faithful (Store_Complete t (CKey c) resp) ps h.
Proof.
  intros [H1 H2 H3 H4 H5] Hp. destruct (H2 _ _ c Hp eq_refl) as (r & Hr & Hfp).
  unfold Store_Complete. rewrite Hr. split; try done.
  - intros r' p c' Hp' Hc. destruct (H2 _ _ _ Hp' Hc) as (r2 & Hr2 & Hfp2).
    destruct (decide (CKey c' = CKey c)) as [He|Hne]; [|rewrite lookup_insert_ne by done; eauto].
    rewrite He in *. rewrite lookup_insert_eq. eexists. split; [done|]. cbn. congruence.
  - intros k r' [[<- <-]|[_ Hr']]%lookup_insert_Some Hs; [|eauto]. exists resp. cbn.
    rewrite Hfp. eauto.
Qed.

(** Rows may go as long as no request still holds their claim. *)
Lemma faithful_remove t t' ps h :
  faithful t ps h → t' ⊆ t →
  (∀ rid p c, ps !! rid = Some p → holds p = Some c → t' !! CKey c = t !! CKey c) →
  faithful t' ps h.
Proof.
  intros [H1 H2 H3 H4 H5] Hsub Hh. split; try done.
  - intros rid p c Hp Hc. rewrite (Hh _ _ _ Hp Hc). eauto.
  - intros k r Hr. eapply H4, lookup_weaken; eauto.
Qed.

Lemma faithful_deleted t ps h t0 t1 : faithful t ps h → faithful t ps (h ++ deleted t0 t1).
Proof.
  intros Hf. apply faithful_history; [done|]. apply Forall_forall.
  by intros i (kr & -> & _)%list_elem_of_fmap.
Qed.

Definition world_faithful (w : World) : Prop := faithful (table w) (phases w) (history w).

(** No purge removes the row of a request that is still being handled: handlers
    finish within the key's lifetime. *)
Definition purge_timely (w : World) (now : Time) : Prop :=
  ∀ rid p c r, phases w !! rid = Some p → holds p = Some c → table w !! CKey c = Some r →
    now ≤ RowExpiresAt r.

Fixpoint timely (w : World) (evs : list (Time * Event)) : Prop :=
  match evs with
  | [] => True
  | (now, ev) :: rest => (ev = EvPurge → purge_timely w now) ∧ timely (step w now ev) rest
  end.

Lemma faithful_answer w rid k fp waited a :
  world_faithful w → replay_ok (history w) (LAnswer rid k fp waited a) →
  world_faithful (answer w rid k fp waited a).
Proof.
  intros Hf Ha. apply faithful_history; [by apply faithful_delete_phase|].
  apply Forall_singleton. by apply replay_ok_app.
Qed.

Lemma faithful_goto w rid p :
  world_faithful w → holds p = None → world_faithful (goto w rid p).
Proof.
  intros Hf Hp. apply faithful_phase; [done|..]; rewrite ?Hp; [done|].
  intros c resp n ->. done.
Qed.

(** The record read of a completed row replays what the handler wrote. *)
Lemma replay_of_row w rid c waited rec :
  world_faithful w → Store_Get (table w) (CKey c) = Some rec → RStatus rec = completed →
  (waited = false → RFingerprint rec = CFingerprint c) →
  replay_ok (history w) (LAnswer rid (Some (CKey c)) (CFingerprint c) waited (writeStoredResponse rec)).
Proof.
  intros Hf Hg Hs Hw. unfold Store_Get in Hg.
  destruct (table w !! CKey c) as [r|] eqn:Er; [|done]. simplify_eq/=.
  destruct (f_completed _ _ _ Hf _ _ Er Hs) as (resp & Hr & He). rewrite Hr.
  exists (RowFingerprint r), resp. split_and!; try done. 
Qed.

Lemma step_faithful w now ev :
  (ev = EvPurge → purge_timely w now) → world_faithful w → world_faithful (step w now ev).
Proof.
  intros Htime Hf.
  destruct ev as [rid r|rid fault|rid fails|rid checked fails|rid outcome|rid ctxDone fault|rid fault|];
    cbn [step].
  - destruct (phases w !! rid) eqn:Er; [done|]. destruct (admit_request _ _ _) as [a|c].
    + by apply faithful_answer.
    + by apply faithful_goto.
  - destruct (phases w !! rid) as [[c| | | | |]|] eqn:Er; try done.
    unfold insert_claim. destruct (table w !! CKey c) as [r|] eqn:Et.
    + destruct fault as [[]|]; [by apply faithful_answer| |by apply faithful_goto].
      rewrite app_nil_r. by apply (faithful_answer (mkWorld (table w) (phases w) (history w))).
    + destruct (faithful_claim _ _ _ rid c (time_add now defaultIdempotencyTTL)
        [LClaimed rid (CKey c) (CFingerprint c)] Hf Et ltac:(by apply Forall_singleton)) as [H1 H2].
      destruct fault as [[]|]; [by apply faithful_answer| |exact H2].
      by apply (faithful_answer (mkWorld _ (phases w) _)).
  - destruct (phases w !! rid) as [[ |c| | | |]|] eqn:Er; try done.
    destruct fails; [by apply faithful_answer|].
    destruct (Store_Get _ _) as [rec|] eqn:Eg; [|by apply faithful_answer].
    destruct (_ =s? _) eqn:Ef; reflect_bools; cbn [negb]; [|by apply faithful_answer].
    case_bool_decide; [|by apply faithful_goto]. apply faithful_answer; [done|].
    by apply replay_of_row.
  - destruct (phases w !! rid) as [[ | |c deadline| | |]|] eqn:Er; try done.
    destruct (negb _); [by apply faithful_answer|]. destruct fails; [done|].
    destruct (Store_Get _ _) as [rec|] eqn:Eg; [|by apply faithful_answer].
    case_bool_decide; [|done]. apply faithful_answer; [done|]. by apply replay_of_row.
  - destruct (phases w !! rid) as [[ | | |c| |]|] eqn:Er; try done.
    destruct outcome as [[calls ct]|]; apply faithful_phase.
    1, 4: apply faithful_history; [done|]; by repeat (apply Forall_cons; split).
    1, 3: intros c' [= <-]; by exists (Running c).
    + intros c' resp n [= <- <- <-]. exists rid. set_solver.
    + done.
  - destruct (phases w !! rid) as [[ | | | |c resp attempt|]|] eqn:Er; try done.
    assert (∀ t p, faithful t (phases w) (history w) →
      p = Releasing c ∨ (∃ n, p = Completing c resp n) →
      faithful t (<[rid := p]> (phases w)) (history w)) as Hgo.
    { intros t p Ht Hp. apply faithful_phase; [done|..].
      - intros c' Hc. exists (Completing c resp attempt). split; [done|].
        by destruct Hp as [-> |[n ->]].
      - intros c' resp' n' ->. destruct Hp as [|[n [= <- <- <-]]]; [done|].
        by apply (f_completing _ _ _ Ht rid _ _ attempt). }
    destruct (ctxDone && _); [apply Hgo; auto|].
    pose proof (faithful_complete _ _ _ _ _ _ _ Hf Er) as Hc.
    destruct fault as [[]|]; [case_bool_decide; apply Hgo; eauto..|by apply faithful_delete_phase].
  - destruct (phases w !! rid) as [[ | | | | |c]|] eqn:Er; try done.
    destruct fault as [[]|]; [by apply faithful_delete_phase| |].
    all: unfold world_faithful; cbn; apply faithful_deleted; eapply faithful_remove;
      [by apply faithful_delete_phase|apply Store_Release_sub|];
      intros rid' p c' [Hne Hp]%lookup_delete_Some Hc; unfold Store_Release;
      destruct (table w !! CKey c); [|done]; case_bool_decide; [|done];
      apply lookup_delete_ne; intros Heq; apply Hne;
      by eapply (f_single _ _ _ Hf rid rid' (Releasing c) p).
  - unfold world_faithful. cbn. apply faithful_deleted. eapply faithful_remove; [exact Hf|apply map_filter_subseteq|].
    intros rid p c Hp Hc. unfold PurgeExpired.
    destruct (table w !! CKey c) as [r|] eqn:Er.
    + apply map_lookup_filter_Some. split; [done|]. by apply (Htime eq_refl rid p c).
    + apply map_lookup_filter_None. by left.
Qed.

Lemma run_faithful evs : ∀ w, world_faithful w → timely w evs → world_faithful (run w evs).
Proof.
  induction evs as [|[now ev] evs IH]; intros w Hf Ht; [done|]. destruct Ht as [Hp Ht].
  apply IH; [|done]. by apply step_faithful.
Qed.

Lemma fresh_faithful : world_faithful fresh_world.
Proof. split; cbn; try (intros *; by rewrite lookup_empty). by apply Forall_nil. Qed.

(** C11: the handler runs at most once per claim. Whatever requests, retries,
    crashes of handlers and database failures are interleaved on whatever number
    of instances, the handler has been run for a user's key at most once more
    than that key's row has been deleted, by a release or by a purge. *)
Theorem executions_bounded k evs :
  let w := run fresh_world evs in
  (count (is_exec k) (history w) ≤ 1 + count (is_delete k) (history w))%nat.
Proof.
  pose proof (run_counted k evs _ (fresh_counted k)) as [H1 H2]. cbv zeta.
  unfold present in H1. destruct (table (run fresh_world evs) !! k); lia.
Qed.

(** A replayed response is the handler's. Every response a request gets
    replayed was written by an earlier run of the handler for the same user, key,
    method and path, and, when the request did not have to wait for a concurrent
    one, for the same fingerprint. *)
Lemma replay_is_faithful evs rid k fp waited s b ct :
  timely fresh_world evs →
  LAnswer rid (Some k) fp waited (Replayed s b ct) ∈ history (run fresh_world evs) →
  ∃ rid' fp' resp, LExecuted rid' k fp' (Some resp) ∈ history (run fresh_world evs) ∧
    Replayed s b ct = replay_of resp ∧ (waited = false → fp' = fp).
Proof.
  intros Ht Hin. pose proof (run_faithful evs _ fresh_faithful Ht) as [_ _ _ _ H5].
  rewrite Forall_forall in H5. destruct (H5 _ Hin) as (fp' & resp & [rid' Hx] & Hr & Hw).
  by exists rid', fp', resp.
Qed.

(** With the two together: while a key's row is not deleted, all its requests see
    one execution. *)
Lemma executions_agree k h rid fp resp rid' fp' resp' :
  (count (is_exec k) h ≤ 1)%nat →
  LExecuted rid k fp resp ∈ h → LExecuted rid' k fp' resp' ∈ h →
  rid = rid' ∧ fp = fp' ∧ resp = resp'.
Proof.
  unfold count. intros Hc H1 H2.
  assert (∀ i, i ∈ h → is_exec k i = true → i ∈ filter (λ i, is_exec k i = true) h) as Hin
    by (intros; by apply list_elem_of_filter).
  specialize (Hin _ H1 ltac:(cbn; by rewrite bool_decide_eq_true_2)) as Ha.
  specialize (Hin _ H2 ltac:(cbn; by rewrite bool_decide_eq_true_2)) as Hb.
  destruct (filter _ h) as [|x [|y l]]; [set_solver| |cbn in Hc; lia].
  apply list_elem_of_singleton in Ha, Hb. by simplify_eq.
Qed.

(** Repeats of a request get one answer. As long as a key's row has not been
    deleted, the handler has run at most once for it, and every replay gives back
    what that one run wrote. *)
Lemma repeats_get_one_answer evs k rid fp resp rid' fp' waited s b ct :
  let w := run fresh_world evs in
  timely fresh_world evs → count (is_delete k) (history w) = 0%nat →
  LExecuted rid k fp (Some resp) ∈ history w →
  LAnswer rid' (Some k) fp' waited (Replayed s b ct) ∈ history w →
  count (is_exec k) (history w) = 1%nat ∧ Replayed s b ct = replay_of resp ∧ (waited = false → fp' = fp).
Proof.
  intros w Ht Hd He Ha.
  pose proof (run_faithful evs _ fresh_faithful Ht) as [_ _ _ _ H5]. fold w in H5.
  pose proof (run_counted k evs _ (fresh_counted k)) as [H1 H2]. fold w in H1, H2.
  assert (count (is_exec k) (history w) ≤ 1)%nat as Hle
    by (unfold present in H1; destruct (table w !! k); lia).
  assert (count (is_exec k) (history w) ≠ 0)%nat as Hne.
  { unfold count. intros Hz%length_zero_iff_nil.
    refine (filter_nil_not_elem_of _ _ _ Hz _ He). cbn. by rewrite bool_decide_eq_true_2. }
  rewrite Forall_forall in H5. destruct (H5 _ Ha) as (fp2 & resp2 & [rid2 Hx] & Hr & Hw).
  destruct (executions_agree _ _ _ _ _ _ _ _ Hle He Hx) as (_ & -> & [= ->]).
  split_and!; [lia|done|]. intros Hf. symmetry. auto.
Qed.

(** With the same method and path, equal fingerprints mean equal bodies, or a
    collision. *)
Lemma fingerprint_determines_body method path body body' :
  fingerprintRequest sha256_hex method path body = fingerprintRequest sha256_hex method path body' →
  body = body' ∨ ∃ a b, a ≠ b ∧ sha256_hex a = sha256_hex b.
Proof.
  unfold fingerprintRequest. intros H. destruct (decide (body = body')) as [|Hne]; [by left|right].
  do 2 eexists. split; [|exact H]. intros He. apply Hne. apply (f_equal bytes_of) in He.
  rewrite !bytes_of_app in He. apply app_inv_head in He. injection He as He.
  change (bytes_of (path +:+ String (byte 0) body)%string = bytes_of (path +:+ String (byte 0) body')%string) in He.
  rewrite !bytes_of_app in He. apply app_inv_head in He. injection He as He. by apply bytes_of_inj.
Qed.

End middleware.

(** Row keys of different endpoints, or of different client keys, differ: methods
    hold no space, and header values no control characters. *)
Lemma scopedIdempotencyKey_inj method path clientKey method' path' clientKey' :
  byte 32 ∉ bytes_of method → byte 32 ∉ bytes_of method' →
  US ∉ bytes_of clientKey → US ∉ bytes_of clientKey' →
  scopedIdempotencyKey method path clientKey = scopedIdempotencyKey method' path' clientKey' →
  method = method' ∧ path = path' ∧ clientKey = clientKey'.
Proof.
  intros Hm Hm' Hk Hk' H. apply (f_equal bytes_of) in H. unfold scopedIdempotencyKey in H.
  rewrite !bytes_of_app in H.
  change (bytes_of " ") with [byte 32] in H. cbn [app] in H.
  apply split_first in H as [Em H]; [|done..]. apply bytes_of_inj in Em.
  apply (f_equal (@rev _)) in H.
  change (bytes_of (String US clientKey)) with (US :: bytes_of clientKey) in H.
  change (bytes_of (String US clientKey')) with (US :: bytes_of clientKey') in H.
  rewrite !rev_app_distr in H. cbn [rev] in H. rewrite <- !app_assoc in H. cbn [app] in H.
  apply split_first in H as [Ek Ep]; [|by rewrite list_elem_of_In, <- in_rev, <- list_elem_of_In..].
  apply rev_inj, bytes_of_inj in Ek, Ep. done.
Qed.

(** *** The answer to a request that waited *)

Definition deposit (body : string) : Req :=
  mkReq "POST" "/api/v1/vaults/7f/deposit" (Some (Some 1)) "key-1" (Some body).

Definition toy_sha (s : string) : string := s.

(** A first request for 100 runs, a second one for 100 waits for it. The first
    handler panics and gives the key up; a request for 999 under the same key
    claims it and completes before the waiter looks again. The waiter is then
    given the answer to the request for 999: the wait loop does not compare
    fingerprints. *)
Definition waiter_schedule : list (Time * Event) :=
  [(0, EvRequest 1 (deposit "100")); (0, EvClaim 1 None);
   (1, EvRequest 2 (deposit "100")); (1, EvClaim 2 None); (1, EvExisting 2 false);
   (2, EvHandler 1 None); (3, EvRelease 1 None);
   (4, EvRequest 3 (deposit "999")); (4, EvClaim 3 None);
   (5, EvHandler 3 (Some ([CallWriteHeader 201; CallWrite "deposited 999"], "text/plain")%string));
   (6, EvComplete 3 false None); (7, EvPoll 2 6 false)].

Lemma waiter_gets_other_answer :
  last (history (run toy_sha VaultMoneyPathIdempotencyRoutes fresh_world waiter_schedule)) =
  Some (LAnswer 2 (Some (1, scopedIdempotencyKey "POST" "/api/v1/vaults/7f/deposit" "key-1"))
          (fingerprintRequest toy_sha "POST" "/api/v1/vaults/7f/deposit" "100") true
          (Replayed 201 "deposited 999" "text/plain")).
Proof. vm_compute. reflexivity. Qed.

(** *** Witnesses *)

Definition demo : list (Time * Event) :=
  [(0, EvRequest 1 (deposit "100")); (0, EvClaim 1 None);
   (5, EvHandler 1 (Some ([CallWrite "ok"], "text/plain")%string)); (6, EvComplete 1 false None);
   (7, EvRequest 2 (deposit "100")); (7, EvClaim 2 None); (8, EvExisting 2 false)].

Definition demo_history : list LogItem :=
  history (run toy_sha VaultMoneyPathIdempotencyRoutes fresh_world demo).

Definition demo_key : RowKey := (1, scopedIdempotencyKey "POST" "/api/v1/vaults/7f/deposit" "key-1").
Definition demo_fp : string := fingerprintRequest toy_sha "POST" "/api/v1/vaults/7f/deposit" "100".

Lemma replay_is_faithful_witness :
  ∃ rid' fp' resp, LExecuted rid' demo_key fp' (Some resp) ∈ demo_history ∧
    Replayed 200 "ok" "text/plain" = replay_of resp ∧ (false = false → fp' = demo_fp).
Proof.
  apply (replay_is_faithful toy_sha VaultMoneyPathIdempotencyRoutes demo 2).
  - repeat (split; [by intros [=]|]). exact I.
  - apply list_elem_of_lookup. exists 3%nat. vm_compute. reflexivity.
Defined.

Lemma repeats_get_one_answer_witness :
  count (is_exec demo_key) demo_history = 1%nat ∧
  Replayed 200 "ok" "text/plain" = replay_of (mkResponse 200 "ok" "text/plain") ∧
  (false = false → demo_fp = demo_fp).
Proof.
  apply (repeats_get_one_answer toy_sha VaultMoneyPathIdempotencyRoutes demo demo_key 1 demo_fp
    (mkResponse 200 "ok" "text/plain") 2).
  - repeat (split; [by intros [=]|]). exact I.
  - vm_compute. reflexivity.
  - apply list_elem_of_lookup. exists 1%nat. vm_compute. reflexivity.
  - apply list_elem_of_lookup. exists 3%nat. vm_compute. reflexivity.
Defined.

End Idempotency.
