(* ===== verification/Caps.v ===== *)
(** Deposit limits (src/apps/api/internal/domain/caps/model.go and
    service/vault_tvl_cap.go): the launch caps per user and in total with their
    approach warnings, a vault's capacity, a user's daily cap and the mainnet
    ceiling. *)
From S2P Require Import Prelude Decimals.

Module Caps.
Import Decimals.

Inductive Kind := KindPerUser | KindGlobal.
#[global] Instance Kind_eq_dec : EqDecision Kind.
Proof. solve_decision. Defined.

(** The sentinels a rejected deposit unwraps to. *)
Inductive CapSentinel :=
| ErrPerUserCapExceeded | ErrGlobalCapExceeded | ErrVaultCapExceeded
| ErrUserDailyCapExceeded | ErrTVLCapExceeded.

Section caps.
  Context `{DecimalOrder}.

Record CapExceededError := mkCapExceeded {
  ErrKind : Kind;
  ErrCap : decimal;
  CurrentTotal : decimal;
  Attempted : decimal;
}.

Definition CapExceededError_Unwrap (e : CapExceededError) : CapSentinel :=
  match ErrKind e with
  | KindPerUser => ErrPerUserCapExceeded
  | _ => ErrGlobalCapExceeded
  end.

Record Warning := mkWarning {
  WarnKind : Kind;
  WarnUserID : Z;
  WarnCap : decimal;
  NewTotal : decimal;
  ThresholdPct : Z;
}.

Record Config := mkConfig {
  PerUserCap : decimal;
  GlobalCap : decimal;
  WarnThresholdsPct : list Z;
}.

Definition perUserEnabled (c : Config) : bool := IsPositive (PerUserCap c).
Definition globalEnabled (c : Config) : bool := IsPositive (GlobalCap c).

(** [ParseCapValue]: blank or zero disables the cap, anything else must be a
    non-negative decimal. *)
Definition ParseCapValue (raw : string) : result string decimal :=
  let trimmed := TrimSpace raw in
  if (trimmed =s? "") || (trimmed =s? "0") then Ok Zero
  else match NewFromString trimmed with
       | None => Err "invalid cap value"%string
       | Some v => if IsNegative v then Err "must not be negative"%string else Ok v
       end.

Definition collectWarnings (cfg : Config) (kind : Kind) (userID : Z)
    (cap_ priorTotal newTotal : decimal) : list Warning :=
  if Sign cap_ <=? 0 then []
  else
    omap (λ pct,
      let threshold := Div (Mul cap_ (NewFromInt pct)) (NewFromInt 100) in
      if LessThan priorTotal threshold && GreaterThanOrEqual newTotal threshold
      then Some (mkWarning kind userID cap_ newTotal pct) else None) (WarnThresholdsPct cfg).

Inductive CapErr := ErrCapExceeded (e : CapExceededError) | ErrTotals.

(** The outcome of a check: its error, and the warnings handed to [warn]. *)
Definition Outcome : Type := option CapErr * list Warning.

(** [CheckDeposit]; [None] is a nil checker, [totals] is nil or answers the two
    queries ([None]: the query fails). *)
Definition CheckDeposit (c : option Config) (totals : option (option decimal * option decimal))
    (userID : Z) (amount : decimal) : Outcome :=
  match c, totals with
  | Some cfg, Some (userTotal, globalTotal) =>
      if negb (perUserEnabled cfg) && negb (globalEnabled cfg) then (None, [])
      else if Sign amount <=? 0 then (None, [])
      else
        let perUser : CapErr + list Warning :=
          if perUserEnabled cfg then
            match userTotal with
            | None => inl ErrTotals
            | Some current =>
                let newTotal := Add current amount in
                if GreaterThan newTotal (PerUserCap cfg)
                then inl (ErrCapExceeded (mkCapExceeded KindPerUser (PerUserCap cfg) current amount))
                else inr (collectWarnings cfg KindPerUser userID (PerUserCap cfg) current newTotal)
            end
          else inr [] in
        match perUser with
        | inl err => (Some err, [])
        | inr warnings =>
            if globalEnabled cfg then
              match globalTotal with
              | None => (Some ErrTotals, [])
              | Some current =>
                  let newTotal := Add current amount in
                  if GreaterThan newTotal (GlobalCap cfg)
                  then (Some (ErrCapExceeded (mkCapExceeded KindGlobal (GlobalCap cfg) current amount)), [])
                  else (None, warnings ++ collectWarnings cfg KindGlobal 0 (GlobalCap cfg) current newTotal)
              end
            else (None, warnings)
        end
  | _, _ => (None, [])
  end.

(** [EvaluateTotals]: the same decision on totals the caller read under its
    locks. *)
Definition EvaluateTotals (c : option Config) (userID : Z)
    (amount currentUserTotal currentGlobalTotal : decimal) : Outcome :=
  match c with
  | None => (None, [])
  | Some cfg =>
      if negb (perUserEnabled cfg) && negb (globalEnabled cfg) then (None, [])
      else if Sign amount <=? 0 then (None, [])
      else
        let perUser : CapErr + list Warning :=
          if perUserEnabled cfg then
            let newTotal := Add currentUserTotal amount in
            if GreaterThan newTotal (PerUserCap cfg)
            then inl (ErrCapExceeded (mkCapExceeded KindPerUser (PerUserCap cfg) currentUserTotal amount))
            else inr (collectWarnings cfg KindPerUser userID (PerUserCap cfg) currentUserTotal newTotal)
          else inr [] in
        match perUser with
        | inl err => (Some err, [])
        | inr warnings =>
            if globalEnabled cfg then
              let newTotal := Add currentGlobalTotal amount in
              if GreaterThan newTotal (GlobalCap cfg)
              then (Some (ErrCapExceeded (mkCapExceeded KindGlobal (GlobalCap cfg) currentGlobalTotal amount)), [])
              else (None, warnings ++ collectWarnings cfg KindGlobal 0 (GlobalCap cfg) currentGlobalTotal newTotal)
            else (None, warnings)
        end
  end.

Definition Checker_Enabled (c : option Config) : bool :=
  match c with None => false | Some cfg => perUserEnabled cfg || globalEnabled cfg end.

Definition CheckVaultCap (currentBalance : decimal) (cap : option decimal) (amount : decimal)
  : option CapSentinel :=
  match cap with
  | None => None
  | Some c => if GreaterThan (Add currentBalance amount) c then Some ErrVaultCapExceeded else None
  end.

Definition CheckUserDailyCap (rolling24hTotal : decimal) (cap : option decimal) (amount : decimal)
  : option CapSentinel :=
  match cap with
  | None => None
  | Some c => if GreaterThan (Add rolling24hTotal amount) c then Some ErrUserDailyCapExceeded else None
  end.

Definition CheckTVLCap (currentTVL : decimal) (cap : option decimal) (amount : decimal)
  : option CapSentinel :=
  match cap with
  | None => None
  | Some c =>
      if Sign c <=? 0 then None
      else if GreaterThan (Add currentTVL amount) c then Some ErrTVLCapExceeded else None
  end.

Record MainnetTVLCapManager := mkTVLCapManager { mainnet : bool; tvl_cap : decimal }.

Definition CheckDepositCap (m : option MainnetTVLCapManager) (currentTVL depositAmount : decimal)
  : option CapSentinel :=
  match m with
  | None => None
  | Some m => if negb (mainnet m) then None
              else CheckTVLCap currentTVL (Some (tvl_cap m)) depositAmount
  end.

(** *** Specification *)

(** The two decisions agree on the same totals. *)
Lemma CheckDeposit_EvaluateTotals c u g userID amount :
  CheckDeposit c (Some (Some u, Some g)) userID amount = EvaluateTotals c userID amount u g.
Proof.
  unfold CheckDeposit, EvaluateTotals. destruct c as [cfg|]; [|done].
  destruct (negb _ && _); [done|]. destruct (Sign amount <=? 0); [done|].
  destruct (perUserEnabled cfg); [destruct (GreaterThan _ _)|]; done.
Qed.

End caps.

Section laws.
  Context `{DecimalOrderLaws}.
  Open Scope Q_scope.

(** A cap that is positive, and whether a total stays within it. *)
Definition within (cap total amount : decimal) : Prop :=
  0 < value cap → value total + value amount <= value cap.

Lemma within_check cap total amount :
  (if IsPositive cap then GreaterThan (Add total amount) cap else false) = false ↔
  within cap total amount.
Proof.
  unfold within. destruct (IsPositive cap) eqn:Ep.
  - apply IsPositive_value in Ep. rewrite <- not_true_iff_false, GreaterThan_value, Add_value.
    split; [intros Hn _|intros Hn]; [by apply Qnot_lt_le|].
    apply Qle_not_lt. auto.
  - split; [|done]. intros _ Hc. apply IsPositive_value in Hc. congruence.
Qed.

(** Warnings are for thresholds the deposit crosses, and only those. *)
Lemma collectWarnings_spec cfg kind userID cap_ prior new w :
  0 < value cap_ →
  w ∈ collectWarnings cfg kind userID cap_ prior new ↔
  ∃ pct, pct ∈ WarnThresholdsPct cfg ∧ w = mkWarning kind userID cap_ new pct ∧
    value prior < value (Div (Mul cap_ (NewFromInt pct)) (NewFromInt 100)) <= value new.
Proof.
  intros Hc. unfold collectWarnings.
  destruct (Sign cap_ <=? 0)%Z eqn:Es.
  { apply Sign_le_0 in Es. destruct (Qlt_not_le _ _ Hc Es). }
  rewrite list_elem_of_omap. split.
  - intros (pct & Hp & Hw). destruct (LessThan _ _ && _) eqn:E; [|done]. simplify_eq.
    apply andb_true_iff in E as [E1 E2].
    rewrite LessThan_value in E1. rewrite GreaterThanOrEqual_value in E2. eauto.
  - intros (pct & Hp & -> & Hlo & Hhi). exists pct. split; [done|].
    rewrite (proj2 (LessThan_value _ _) Hlo), (proj2 (GreaterThanOrEqual_value _ _) Hhi). done.
Qed.

(** An accepted deposit leaves both totals within their caps. *)
Lemma EvaluateTotals_within cfg userID amount u g :
  0 < value amount → fst (EvaluateTotals (Some cfg) userID amount u g) = None →
  within (PerUserCap cfg) u amount ∧ within (GlobalCap cfg) g amount.
Proof.
  intros Ha. rewrite <- !within_check. unfold EvaluateTotals, perUserEnabled, globalEnabled.
  assert ((Sign amount <=? 0)%Z = false) as ->.
  { apply not_true_iff_false. rewrite Sign_le_0. by apply Qlt_not_le. }
  destruct (IsPositive (PerUserCap cfg)), (IsPositive (GlobalCap cfg));
    cbn [negb andb orb]; repeat destruct (GreaterThan _ _); cbn; naive_solver.
Qed.

(** The launch caps refuse exactly the deposits that would exceed one. A
    positive amount is accepted exactly when it keeps the user's total within the
    per-user cap and the protocol's within the global one, a cap that is not
    positive allowing anything; a refused deposit emits no warning. *)
Lemma EvaluateTotals_exact cfg userID amount u g :
  0 < value amount →
  let '(err, warnings) := EvaluateTotals (Some cfg) userID amount u g in
  (err = None ↔ within (PerUserCap cfg) u amount ∧ within (GlobalCap cfg) g amount) ∧
  (err ≠ None → warnings = []) ∧
  (∀ e, err = Some (ErrCapExceeded e) →
     Attempted e = amount ∧
     match ErrKind e with
     | KindPerUser => ErrCap e = PerUserCap cfg ∧ CurrentTotal e = u ∧ ¬ within (PerUserCap cfg) u amount
     | KindGlobal => ErrCap e = GlobalCap cfg ∧ CurrentTotal e = g ∧
         within (PerUserCap cfg) u amount ∧ ¬ within (GlobalCap cfg) g amount
     end).
Proof.
  intros Ha. unfold EvaluateTotals, perUserEnabled, globalEnabled.
  assert ((Sign amount <=? 0)%Z = false) as ->.
  { apply not_true_iff_false. rewrite Sign_le_0. by apply Qlt_not_le. }
  pose proof (within_check (PerUserCap cfg) u amount) as Hu.
  pose proof (within_check (GlobalCap cfg) g amount) as Hg.
  destruct (IsPositive (PerUserCap cfg)), (IsPositive (GlobalCap cfg));
    cbn [negb andb orb] in *; repeat destruct (GreaterThan _ _); cbn in *;
    split_and!; naive_solver.
Qed.

(** A vault's capacity, a user's daily cap and the mainnet ceiling each
    refuse exactly the deposits that would exceed them; an absent cap, a mainnet
    cap that is not positive and any network but mainnet refuse nothing. *)
Lemma single_caps_exact balance cap amount m :
  (CheckVaultCap balance cap amount = None ↔
     ∀ c, cap = Some c → value balance + value amount <= value c) ∧
  (CheckUserDailyCap balance cap amount = None ↔
     ∀ c, cap = Some c → value balance + value amount <= value c) ∧
  (CheckDepositCap m balance amount = None ↔
     ∀ mgr, m = Some mgr → mainnet mgr = true → within (tvl_cap mgr) balance amount).
Proof.
  assert (∀ c, GreaterThan (Add balance amount) c = false ↔ value balance + value amount <= value c) as Hg.
  { intros c. rewrite <- not_true_iff_false, GreaterThan_value, Add_value.
    split; [apply Qnot_lt_le|apply Qle_not_lt]. }
  split_and!.
  - unfold CheckVaultCap. destruct cap as [c|]; [|naive_solver]. specialize (Hg c).
    destruct (GreaterThan _ _); naive_solver.
  - unfold CheckUserDailyCap. destruct cap as [c|]; [|naive_solver]. specialize (Hg c).
    destruct (GreaterThan _ _); naive_solver.
  - unfold CheckDepositCap, CheckTVLCap. destruct m as [[[] c]|]; cbn;
      [|split; [intros _ mgr [= <-]; discriminate|done]|split; [intros _ mgr; discriminate|done]].
    unfold within. destruct (Sign c <=? 0)%Z eqn:Es.
    + apply Sign_le_0 in Es. split; [|done]. intros _ mgr [= <-] _ Hc. cbn in Hc.
      destruct (Qlt_not_le _ _ Hc Es).
    + assert (0 < value c) as Hc.
      { apply Qnot_le_lt. rewrite <- Sign_le_0. congruence. }
      specialize (Hg c).
      destruct (GreaterThan _ _); [split; [done|]|split; [|done]].
      2: { intros _ mgr [= <-] _ _. by apply Hg. }
      intros Hn.
      exfalso; enough (true = false) by done. apply Hg, (Hn _ eq_refl eq_refl Hc).
Qed.

End laws.

#[local] Existing Instances QDecimal QDecimal_laws QDecimalOrder QDecimalOrder_laws.

Definition demo_config : Config := mkConfig 100%Q 1000%Q [80; 90].

Lemma EvaluateTotals_exact_witness :
  map ThresholdPct (snd (EvaluateTotals (Some demo_config) 7 30%Q 60%Q 500%Q)) = [80; 90] ∧
  (fst (EvaluateTotals (Some demo_config) 7 30%Q 60%Q 500%Q) = None ↔
   within (PerUserCap demo_config) 60%Q 30%Q ∧ within (GlobalCap demo_config) 500%Q 30%Q).
Proof.
  split; [vm_compute; reflexivity|].
  pose proof (EvaluateTotals_exact demo_config 7 30%Q 60%Q 500%Q eq_refl) as Hx.
  destruct (EvaluateTotals _ _ _ _ _) as [err w]. exact (proj1 Hx).
Defined.

Example parse_caps :
  map ParseCapValue ["  "; "0"; "250"; "-3"; "abc"]%string =
  [Ok 0%Q; Ok 0%Q; Ok 250%Q; Err "must not be negative"; Err "invalid cap value"]%string.
Proof. vm_compute. reflexivity. Qed.

End Caps.
