(* ===== verification/VaultRepo.v ===== *)
(** The vault repository's money paths
    (src/apps/api/internal/repository/postgres/vault_repository.go) over the
    vault, transaction and balance-audit tables (migrations 002, 008, 014, 033,
    036, 075, 103, 104, 111 and 121), with the balance audit trail
    (domain/balanceaudit and repository/postgres/balance_audit_repository.go) and
    the ledger postings each path makes in its own transaction. *)
From S2P Require Import Prelude Decimals Ledger LedgerRepo LedgerService Caps.
Open Scope Z_scope.

Module VaultRepo.
Import Decimals Ledger.

(** *** Tables *)

(** A [NUMERIC(p, 8)] column holds a whole number of hundred-millionths. *)
Definition col (z : Z) : Q := (z # 100000000)%Q.

Record VaultRow := mkVaultRow {
  RowUserID : Z;
  TotalDeposited : Z;
  CurrentBalance : Z;
  YieldEarned : Z;
  FeesPaid : Z;
  SoftCapacity : option Z;
  LastHarvestedAt : option Time;
  RowUpdatedAt : Time;
  DeletedAt : option Time;
}.

(** [updated_at] is set, and nothing else. *)
Definition touch (now : Time) (r : VaultRow) : VaultRow :=
  mkVaultRow (RowUserID r) (TotalDeposited r) (CurrentBalance r) (YieldEarned r) (FeesPaid r)
    (SoftCapacity r) (LastHarvestedAt r) now (DeletedAt r).

Record TxRow := mkTxRow {
  TxID : Z;
  TxVaultID : Z;
  TxUserID : option Z;
  TxType : string;
  TxAmount : Z;
  TxHash : option string;
  TxShares : option Z;
  TxSharePrice : option Z;
  TxFee : option Z;
  TxCreatedAt : Time;
}.

Record AuditRow := mkAuditRow {
  AuID : Z;
  Seq : Z;
  AuVaultID : Z;
  AuUserID : Z;
  AuActor : string;
  AuOperation : string;
  AuAmount : Z;
  AuBefore : Z;
  AuAfter : Z;
  AuChainReference : option string;
  AuMetadata : option string;
  AuCreatedAt : Time;
}.

(** The tables; [vaults] and [users] of the ledger's tables list the ids the
    foreign keys may name, and [daily_caps] holds [users.daily_deposit_cap]. *)
Record DB := mkDB {
  rows : gmap Z VaultRow;
  daily_caps : gmap Z Z;
  txs : list TxRow;
  audit : list AuditRow;
  ledger : Store;
}.

Definition with_rows (d : DB) x := mkDB x (daily_caps d) (txs d) (audit d) (ledger d).
Definition with_txs (d : DB) x := mkDB (rows d) (daily_caps d) x (audit d) (ledger d).
Definition with_audit (d : DB) x := mkDB (rows d) (daily_caps d) (txs d) x (ledger d).
Definition with_ledger (d : DB) x := mkDB (rows d) (daily_caps d) (txs d) (audit d) x.

(** A foreign-key violation names its constraint. *)
Inductive DbError := DbFk (constraint : string) | DbPg (e : PgError).

Definition live (r : VaultRow) : bool := match DeletedAt r with None => true | Some _ => false end.

(** [WHERE id = $1 AND deleted_at IS NULL] *)
Definition live_vault (id : Z) (d : DB) : option VaultRow :=
  match rows d !! id with
  | Some r => if live r then Some r else None
  | None => None
  end.

(** Storing a number in a [NUMERIC(p, 8)] column rounds it to eight places,
    halves away from zero, and fails when it has too many digits. *)
Definition numeric (p : Z) (q : Q) : result DbError Z :=
  let z := half_away (q * 100000000)%Q in
  if Z.abs z <? 10 ^ p then Ok z else Err (DbPg NumericOutOfRange).

Definition numeric_opt (p : Z) (q : option Q) : result DbError (option Z) :=
  match q with
  | None => Ok None
  | Some q => let? z := numeric p q in Ok (Some z)
  end.

(** The [CHECK] constraints of [vaults]. *)
Definition check_row (r : VaultRow) : bool :=
  (0 <=? TotalDeposited r) && (0 <=? CurrentBalance r) && (0 <=? YieldEarned r) &&
  (0 <=? FeesPaid r).

(** [UPDATE vaults SET ... WHERE id = $1 AND deleted_at IS NULL]: the rows
    affected. *)
Definition update_vault (id : Z) (f : VaultRow → result DbError VaultRow) (d : DB)
  : result DbError (DB * Z) :=
  match live_vault id d with
  | None => Ok (d, 0)
  | Some r =>
      let? r' := f r in
      if check_row r' then Ok (with_rows d (<[id := r']> (rows d)), 1)
      else Err (DbPg CheckViolation)
  end.

(** The SET clauses of the money paths, on parameters of value [p] and [f]. *)
Definition set_credit (now : Time) (p : Q) (r : VaultRow) : result DbError VaultRow :=
  let? total := numeric 48 (col (TotalDeposited r) + p)%Q in
  let? current := numeric 48 (col (CurrentBalance r) + p)%Q in
  Ok (mkVaultRow (RowUserID r) total current (YieldEarned r) (FeesPaid r) (SoftCapacity r)
        (LastHarvestedAt r) now (DeletedAt r)).

Definition set_debit (now : Time) (p : Q) (r : VaultRow) : result DbError VaultRow :=
  let? current := numeric 48 (col (CurrentBalance r) - p)%Q in
  Ok (mkVaultRow (RowUserID r) (TotalDeposited r) current (YieldEarned r) (FeesPaid r)
        (SoftCapacity r) (LastHarvestedAt r) now (DeletedAt r)).

(** [GREATEST(yield_earned - (net + fee), 0)] *)
Definition left_yield (r : VaultRow) (p f : Q) : Q :=
  let y := (col (YieldEarned r) - (p + f))%Q in if Qle_bool 0 y then y else 0%Q.

Definition set_harvest_compounded (now : Time) (p f : Q) (r : VaultRow)
  : result DbError VaultRow :=
  let? total := numeric 48 (col (TotalDeposited r) + p)%Q in
  let? current := numeric 48 (col (CurrentBalance r) + p)%Q in
  let? yield := numeric 48 (left_yield r p f) in
  let? fees := numeric 48 (col (FeesPaid r) + f)%Q in
  Ok (mkVaultRow (RowUserID r) total current yield fees (SoftCapacity r) (Some now) now
        (DeletedAt r)).

Definition set_harvest_paid_out (now : Time) (p f : Q) (r : VaultRow)
  : result DbError VaultRow :=
  let? current := numeric 48 (col (CurrentBalance r) - p)%Q in
  let? yield := numeric 48 (left_yield r p f) in
  let? fees := numeric 48 (col (FeesPaid r) + f)%Q in
  Ok (mkVaultRow (RowUserID r) (TotalDeposited r) current yield fees (SoftCapacity r) (Some now)
        now (DeletedAt r)).

Definition valid_types : list string := ["deposit"; "withdrawal"; "harvest"; "rebalance"].

Definition nullif_empty (h : string) : option string := if h =s? "" then None else Some h.

(** The unique index on [transaction_hash]: NULLs are distinct. *)
Definition hash_taken (h : option string) (d : DB) : bool :=
  match h with
  | None => false
  | Some h => existsb (λ t, bool_decide (TxHash t = Some h)) (txs d)
  end.

(** [INSERT INTO vault_transactions]: the column types and checks, the unique
    index ([do_nothing]: [ON CONFLICT DO NOTHING]), then the foreign keys. *)
Definition insert_tx (do_nothing : bool) (id vaultID : Z) (userID : option Z) (type : string)
    (amount : Q) (hash : option string) (shares price fee : option Q) (now : Time) (d : DB)
  : result DbError (DB * Z) :=
  let? a := numeric 48 amount in
  let? s := numeric_opt 28 shares in
  let? p := numeric_opt 28 price in
  let? f := numeric_opt 48 fee in
  if negb (bool_decide (type ∈ valid_types)) || (a <=? 0) ||
     match s with Some s => s <? 0 | None => false end ||
     match p with Some p => p <=? 0 | None => false end
  then Err (DbPg CheckViolation)
  else if hash_taken hash d then
    if do_nothing then Ok (d, 0)
    else Err (DbPg (UniqueViolation "idx_vault_transactions_transaction_hash_unique"))
  else if negb (bool_decide (vaultID ∈ vaults (ledger d)))
  then Err (DbFk "vault_transactions_vault_id_fkey")
  else if negb (references userID (users (ledger d)))
  then Err (DbFk "vault_transactions_user_id_fkey")
  else Ok (with_txs d (txs d ++ [mkTxRow id vaultID userID type a hash s p f now]), 1).

(** [INSERT INTO balance_audit_log]; [seq] is the next value of its sequence. *)
Definition insert_audit (id seq : Z) (vaultID userID : Z) (actor operation : string)
    (amount before after : Q) (chainRef metadata : option string) (now : Time) (d : DB)
  : result DbError (DB * unit) :=
  let? a := numeric 48 amount in
  let? b := numeric 48 before in
  let? c := numeric 48 after in
  if existsb (λ e, AuID e =? id) (audit d)
  then Err (DbPg (UniqueViolation "balance_audit_log_pkey"))
  else if negb (bool_decide (vaultID ∈ vaults (ledger d)))
  then Err (DbFk "balance_audit_log_vault_id_fkey")
  else if negb (bool_decide (userID ∈ users (ledger d)))
  then Err (DbFk "balance_audit_log_user_id_fkey")
  else Ok (with_audit d (audit d ++
         [mkAuditRow id seq vaultID userID actor operation a b c chainRef metadata now]), ()).

(** *** Errors *)

Section repository.
  Context `{DecimalOrderLaws}.

Inductive VaultErr :=
| ErrInvalidAmount | ErrInvalidVault | ErrVaultNotFound | ErrUserNotFound
| ErrWithdrawalExceedsPosition | ErrDuplicateTransaction | ErrContractAddressRegistered
| ErrCap (c : Caps.CapSentinel) | ErrCapCheck (e : Caps.CapErr)
| ErrMarshal | ErrLedgerPosting (e : LedgerError) | ErrDb (e : DbError).

Definition mapRepositoryError (e : VaultErr) : VaultErr :=
  match e with
  | ErrDb (DbFk c) =>
      if Contains c "user" then ErrUserNotFound
      else if Contains c "vault" then ErrVaultNotFound else e
  | ErrDb (DbPg (UniqueViolation c)) =>
      if Contains c "transaction_hash" then ErrDuplicateTransaction
      else if Contains c "vaults_contract_address" then ErrContractAddressRegistered else e
  | _ => e
  end.

(** *** Sessions *)

(** What the process sees: the committed tables, its open transaction (its view
    and whether a statement in it has failed), the audit sequence, which no
    rollback takes back, the source of [uuid.New], the connection failures to
    come, and the time [NOW()] gives. *)
Record Session := mkSession {
  db : DB;
  txn : option (DB * bool);
  seq_next : Z;
  seed : Z;
  faults : list bool;
  clock : Time;
}.

Definition with_db s x := mkSession x (txn s) (seq_next s) (seed s) (faults s) (clock s).
Definition with_txn s x := mkSession (db s) x (seq_next s) (seed s) (faults s) (clock s).
Definition with_seq s x := mkSession (db s) (txn s) x (seed s) (faults s) (clock s).
Definition with_seed s x := mkSession (db s) (txn s) (seq_next s) x (faults s) (clock s).
Definition with_faults s x := mkSession (db s) (txn s) (seq_next s) (seed s) x (clock s).

Definition M (A : Type) : Type := Session → Session * result VaultErr A.

#[global] Instance M_ret : MRet M := λ A a s, (s, Ok a).
#[global] Instance M_bind : MBind M := λ A B k m s,
  match m s with
  | (s1, Ok a) => k a s1
  | (s1, Err e) => (s1, Err e)
  end.

Definition throw {A} (e : VaultErr) : M A := λ s, (s, Err e).
Definition of_option (e : option VaultErr) : M unit :=
  match e with Some e => throw e | None => mret () end.
Definition map_err {A} (f : VaultErr → VaultErr) (m : M A) : M A := λ s,
  match m s with (s1, Ok a) => (s1, Ok a) | (s1, Err e) => (s1, Err (f e)) end.

Definition uuid_New : M Z := λ s, (with_seed s (seed s + 1), Ok (seed s)).
Definition statement_time : M Time := λ s, (s, Ok (clock s)).
Definition nextval : M Z := λ s, (with_seq s (seq_next s + 1), Ok (seq_next s)).

Definition round_trip (s : Session) : bool * Session :=
  match faults s with
  | b :: fs => (b, with_faults s fs)
  | [] => (false, s)
  end.

(** A statement inside the open transaction. *)
Definition exec {A} (f : Time → DB → result DbError (DB * A)) : M A := λ s,
  match txn s with
  | None => (s, Err (ErrDb (DbPg ConnectionFailure)))
  | Some (w, ab) =>
      let '(lost, s1) := round_trip s in
      if lost then (with_txn s1 (Some (w, true)), Err (ErrDb (DbPg ConnectionFailure)))
      else if ab then (s1, Err (ErrDb (DbPg InFailedTransaction)))
      else match f (clock s) w with
           | Ok (d, a) => (with_txn s1 (Some (d, false)), Ok a)
           | Err e => (with_txn s1 (Some (w, true)), Err (ErrDb e))
           end
  end.

(** A statement on its own: it commits at once. *)
Definition exec_db {A} (f : Time → DB → result DbError (DB * A)) : M A := λ s,
  let '(lost, s1) := round_trip s in
  if lost then (s1, Err (ErrDb (DbPg ConnectionFailure)))
  else match f (clock s) (db s) with
       | Ok (d, a) => (with_db s1 d, Ok a)
       | Err e => (s1, Err (ErrDb e))
       end.

Definition query {A} (f : Time → DB → A) : Time → DB → result DbError (DB * A) :=
  λ now d, Ok (d, f now d).

Definition BeginTx : M unit := λ s,
  let '(lost, s1) := round_trip s in
  if lost then (s1, Err (ErrDb (DbPg ConnectionFailure)))
  else (with_txn s1 (Some (db s, false)), Ok ()).

Definition Commit : M unit := λ s,
  match txn s with
  | None => (s, Err (ErrDb (DbPg ConnectionFailure)))
  | Some (w, ab) =>
      let '(lost, s1) := round_trip s in
      if lost then (with_txn s1 None, Err (ErrDb (DbPg ConnectionFailure)))
      else if ab then (with_txn s1 None, Err (ErrDb (DbPg InFailedTransaction)))
      else (with_db (with_txn s1 None) w, Ok ())
  end.

(** [BeginTx], the deferred [Rollback], the body, [Commit]. *)
Definition withTx {A} (m : M A) : M A := λ s,
  match BeginTx s with
  | (s1, Err e) => (s1, Err e)
  | (s1, Ok _) =>
      match m s1 with
      | (s2, Err e) => (with_txn s2 None, Err e)
      | (s2, Ok a) =>
          match Commit s2 with
          | (s3, Ok _) => (s3, Ok a)
          | (s3, Err e) => (s3, Err e)
          end
      end
  end.

(** The ledger's statements run on the same transaction. *)
Definition on_ledger (m : LedgerRepo.M unit) : M unit := λ s,
  match txn s with
  | None => (s, Err (ErrDb (DbPg ConnectionFailure)))
  | Some (w, ab) =>
      let '(ls, r) := m (LedgerRepo.mkSession (ledger (db s))
                           (Some (LedgerRepo.mkTx (ledger w) ab)) (seed s) (faults s) (clock s)) in
      let s1 := with_faults (with_seed s (LedgerRepo.seed ls)) (LedgerRepo.faults ls) in
      let s2 := match LedgerRepo.txn ls with
                | Some t => with_txn s1 (Some (with_ledger w (LedgerRepo.work t), LedgerRepo.aborted t))
                | None => with_txn s1 None
                end in
      (s2, match r with Ok _ => Ok () | Err e => Err (ErrLedgerPosting e) end)
  end.

(** *** Ledger postings *)

Definition decimalToStroops (d : decimal) : Z :=
  let mult := Mul d (NewFromInt 10000000) in IntPart (Round mult 0).

(** A selection that fails or finds nothing falls back to the new id. *)
Definition found_or (newID : Z) (m : LedgerRepo.M (option Account)) : LedgerRepo.M Z := λ s,
  match m s with
  | (s', Ok (Some acc)) => (s', Ok (AccID acc))
  | (s', _) => (s', Ok newID)
  end.

Definition ledgerGetOrCreateAccountTx (accountType : string) (vaultID userID : option Z)
    (adapterName : option string) (assetCode : string) : LedgerRepo.M Z :=
  let code := LedgerRepo.default_asset assetCode in
  let adapter :=
    if accountType =s? AccountTypeYieldSource then
      match adapterName with
      | Some n => if n =s? "" then Some "blend"%string else adapterName
      | None => Some "blend"%string
      end
    else adapterName in
  k ← LedgerRepo.of_result (select_key accountType vaultID userID adapter code);
  found ← LedgerRepo.exec (LedgerRepo.query (select_account k));
  match found with
  | Some acc => mret (AccID acc)
  | None =>
      newID ← LedgerRepo.uuid_New;
      LedgerRepo.exec (λ now st, insert_account
        (mkAccount newID accountType vaultID userID adapter code "stroops" "" now now) st) ;;
      found_or newID (LedgerRepo.exec (LedgerRepo.query (select_account k)))
  end.

Record Posting := mkPosting {
  PostAccountID : Z;
  PostAmount : Z;
  PostEventType : string;
  PostEventID : string;
}.

(** The running [int64] sum, zero amounts refused on the way. *)
Fixpoint posting_sum (es : list Posting) (sum : Z) : result LedgerError Z :=
  match es with
  | [] => Ok sum
  | e :: es' =>
      if PostAmount e =? 0 then Err ErrZeroAmount else posting_sum es' (i64 (sum + PostAmount e))
  end.

Definition posting_row (entryID txID : Z) (now : Time) (e : Posting) : Entry :=
  mkEntry entryID txID (PostAccountID e) (PostAmount e)
    (if PostAmount e <? 0 then "credit" else "debit") now (PostEventType e) (PostEventID e)
    "USDC" "stroops".

Fixpoint post_rows (txID : Z) (es : list Posting) : LedgerRepo.M unit :=
  match es with
  | [] => mret ()
  | e :: es' =>
      entryID ← LedgerRepo.uuid_New;
      LedgerRepo.exec (λ now st,
        LedgerRepo.unit_of (insert_entry (posting_row entryID txID now e) st)) ;;
      LedgerRepo.exec (λ now st,
        LedgerRepo.unit_of (upsert_balance (posting_row entryID txID now e) now st)) ;;
      post_rows txID es'
  end.

Definition ledgerPostEntriesTx (es : list Posting) : LedgerRepo.M unit :=
  if Z.of_nat (length es) <? 2 then LedgerRepo.throw ErrTooFewEntries
  else
    sum ← LedgerRepo.of_result (posting_sum es 0);
    if negb (sum =? 0) then LedgerRepo.throw ErrUnbalanced
    else
      txID ← LedgerRepo.uuid_New;
      post_rows txID es.

Definition postDepositLedgerTx (vaultID userID : Z) (amount : decimal) (domainEventID : string)
  : LedgerRepo.M unit :=
  let stroops := decimalToStroops amount in
  if stroops <=? 0 then mret ()
  else
    userAccID ← ledgerGetOrCreateAccountTx "user_vault_position" (Some vaultID) (Some userID) None "USDC";
    vaultAccID ← ledgerGetOrCreateAccountTx "vault_asset_pool" (Some vaultID) None None "USDC";
    suspenseID ← ledgerGetOrCreateAccountTx "system_suspense" None None None "USDC";
    ledgerPostEntriesTx
      [mkPosting userAccID stroops "deposit" domainEventID;
       mkPosting vaultAccID stroops "deposit" domainEventID;
       mkPosting suspenseID (i64 (-2 * stroops)) "deposit" domainEventID].

Definition postWithdrawalLedgerTx (vaultID userID : Z) (amount : decimal) (domainEventID : string)
  : LedgerRepo.M unit :=
  let stroops := decimalToStroops amount in
  if stroops <=? 0 then mret ()
  else
    userAccID ← ledgerGetOrCreateAccountTx "user_vault_position" (Some vaultID) (Some userID) None "USDC";
    vaultAccID ← ledgerGetOrCreateAccountTx "vault_asset_pool" (Some vaultID) None None "USDC";
    suspenseID ← ledgerGetOrCreateAccountTx "system_suspense" None None None "USDC";
    ledgerPostEntriesTx
      [mkPosting userAccID (i64 (- stroops)) "withdraw" domainEventID;
       mkPosting vaultAccID (i64 (- stroops)) "withdraw" domainEventID;
       mkPosting suspenseID (i64 (2 * stroops)) "withdraw" domainEventID].

Definition postHarvestLedgerTx (vaultID userID : Z) (netYield perfFee : decimal)
    (adapterName domainEventID : string) : LedgerRepo.M unit :=
  let netStroops := decimalToStroops netYield in
  let feeStroops := decimalToStroops perfFee in
  if (netStroops <=? 0) && (feeStroops <=? 0) then mret ()
  else
    let grossStroops := i64 (netStroops + feeStroops) in
    vaultAccID ← ledgerGetOrCreateAccountTx "vault_asset_pool" (Some vaultID) None None "USDC";
    userAccID ← ledgerGetOrCreateAccountTx "user_vault_position" (Some vaultID) (Some userID) None "USDC";
    feeAccID ← ledgerGetOrCreateAccountTx "fee_account" None None None "USDC";
    yieldAccID ← ledgerGetOrCreateAccountTx "yield_source" None None (Some adapterName) "USDC";
    suspenseID ← ledgerGetOrCreateAccountTx "system_suspense" None None None "USDC";
    ledgerPostEntriesTx
      ((if negb (netStroops =? 0) then
          [mkPosting vaultAccID netStroops "harvest" domainEventID;
           mkPosting userAccID netStroops "harvest" domainEventID;
           mkPosting suspenseID (i64 (- netStroops)) "harvest" domainEventID] else []) ++
       (if negb (feeStroops =? 0) then
          [mkPosting feeAccID feeStroops "harvest" domainEventID] else []) ++
       (if negb (grossStroops =? 0) then
          [mkPosting yieldAccID (i64 (- grossStroops)) "harvest" domainEventID] else [])).

Definition postRebalanceLedgerTx (vaultID : Z) (fromProtocol toProtocol : string)
    (amount : decimal) (domainEventID : string) : LedgerRepo.M unit :=
  let stroops := decimalToStroops amount in
  if stroops <=? 0 then mret ()
  else if fromProtocol =s? toProtocol then mret ()
  else
    fromID ← ledgerGetOrCreateAccountTx "yield_source" None None (Some fromProtocol) "USDC";
    toID ← ledgerGetOrCreateAccountTx "yield_source" None None (Some toProtocol) "USDC";
    ledgerPostEntriesTx
      [mkPosting fromID (i64 (- stroops)) "rebalance" domainEventID;
       mkPosting toID stroops "rebalance" domainEventID].

(** *** The balance audit trail *)

(** A ledger entry of domain/balanceaudit. [Metadata] is [None] for an empty
    map, else what [json.Marshal] makes of it ([None]: it fails). *)
Record AuditEntry := mkAuditEntry {
  EntryID : Z;
  EntrySeq : Z;
  VaultID : Z;
  UserID : Z;
  Actor : string;
  Operation : string;
  Amount : decimal;
  BalanceBefore : decimal;
  BalanceAfter : decimal;
  ChainReference : string;
  Metadata : option (option string);
  CreatedAt : Time;
}.

Definition SystemActor (source : string) : string := "system:" +:+ source.

(** How the driver reads a numeric column, and how an id prints. *)
Context (scan_numeric : Z → decimal) (uuid_String : Z → string).

Definition appendBalanceAuditEntry (entry : AuditEntry) : M AuditEntry :=
  id ← (if EntryID entry =? 0 then uuid_New else mret (EntryID entry));
  metadata ← (match Metadata entry with
              | None => mret None
              | Some None => throw ErrMarshal
              | Some (Some b) => mret (Some b)
              end : M (option string));
  let chainRef := nullif_empty (ChainReference entry) in
  seq ← nextval;
  exec (λ now d, insert_audit id seq (VaultID entry) (UserID entry) (Actor entry)
    (Operation entry) (value (Amount entry)) (value (BalanceBefore entry))
    (value (BalanceAfter entry)) chainRef metadata now d) ;;
  created ← statement_time;
  mret (mkAuditEntry id seq (VaultID entry) (UserID entry) (Actor entry) (Operation entry)
    (Amount entry) (BalanceBefore entry) (BalanceAfter entry) (ChainReference entry)
    (Metadata entry) created).

(** [BalanceAuditRepository.Append]: the same insert, on its own. *)
Definition Append (entry : AuditEntry) : M unit :=
  id ← (if EntryID entry =? 0 then uuid_New else mret (EntryID entry));
  metadata ← (match Metadata entry with
              | None => mret None
              | Some None => throw ErrMarshal
              | Some (Some b) => mret (Some b)
              end : M (option string));
  let chainRef := nullif_empty (ChainReference entry) in
  seq ← nextval;
  exec_db (λ now d, insert_audit id seq (VaultID entry) (UserID entry) (Actor entry)
    (Operation entry) (value (Amount entry)) (value (BalanceBefore entry))
    (value (BalanceAfter entry)) chainRef metadata now d).

(** [BalanceBefore], [BalanceAfter] and [VaultID] filled in by a repository. *)
Definition fill_template (t : AuditEntry) (vaultID : Z) (before after : decimal) : AuditEntry :=
  mkAuditEntry (EntryID t) (EntrySeq t) vaultID (UserID t) (Actor t) (Operation t) (Amount t)
    before after (ChainReference t) (Metadata t) (CreatedAt t).

(** *** Deposits *)

Record TransactionRecord := mkRecord {
  RecUserID : Z;
  RecAmount : decimal;
  TransactionHash : string;
  SharesMintedOrBurned : decimal;
  SharePriceAtTime : decimal;
  FeeCharged : decimal;
}.

(** [SELECT current_balance ... FOR UPDATE] *)
Definition select_balance (id : Z) (_ : Time) (d : DB) : option Z :=
  CurrentBalance <$> live_vault id d.

Definition insert_record (do_nothing : bool) (vaultID : Z) (type : string)
    (record : TransactionRecord) : M Z :=
  id ← uuid_New;
  map_err mapRepositoryError (exec (insert_tx do_nothing id vaultID (Some (RecUserID record)) type
    (value (RecAmount record)) (nullif_empty (TransactionHash record))
    (Some (value (SharesMintedOrBurned record))) (Some (value (SharePriceAtTime record)))
    (Some (value (FeeCharged record))))).

(** An [UPDATE vaults] whose affected rows are checked. *)
Definition update_balances (id : Z) (f : Time → VaultRow → result DbError VaultRow) : M unit :=
  n ← map_err mapRepositoryError (exec (λ now d, update_vault id (f now) d));
  if n =? 0 then throw ErrVaultNotFound else mret ().

Definition sum_deposits_since (userID : Z) (since : Time) (d : DB) : Z :=
  sum_Z (map TxAmount (filter (λ t, bool_decide (TxUserID t = Some userID) &&
    (TxType t =s? "deposit") && (since <=? TxCreatedAt t) = true) (txs d))).

Definition CheckVaultCap_row (balance : decimal) (cap : option Z) (amount : decimal)
  : option VaultErr :=
  match cap with
  | None => None
  | Some c => ErrCap <$> Caps.CheckVaultCap balance (Some (scan_numeric c)) amount
  end.

Definition RecordDeposit (id : Z) (record : TransactionRecord) : M unit :=
  if Cmp (RecAmount record) Zero <=? 0 then throw ErrInvalidAmount
  else withTx (
    row ← map_err mapRepositoryError (exec (query (λ _ d, live_vault id d)));
    match row with
    | None => throw ErrVaultNotFound
    | Some r =>
        of_option (CheckVaultCap_row (scan_numeric (CurrentBalance r)) (SoftCapacity r)
                     (RecAmount record)) ;;
        (if negb (RecUserID record =? 0) then
           userCap ← map_err mapRepositoryError
             (exec (query (λ _ d, daily_caps d !! RecUserID record)));
           match userCap with
           | None => mret ()
           | Some c =>
               rolling ← map_err mapRepositoryError (exec (query (λ now d,
                 sum_deposits_since (RecUserID record) (now - 24 * Hour) d)));
               of_option (ErrCap <$> Caps.CheckUserDailyCap (scan_numeric rolling)
                            (Some (scan_numeric c)) (RecAmount record))
           end
         else mret ()) ;;
        update_balances id (λ now, set_credit now (value (RecAmount record))) ;;
        inserted ← insert_record true id "deposit" record;
        if inserted =? 0 then throw ErrDuplicateTransaction
        else on_ledger (postDepositLedgerTx id (RecUserID record) (RecAmount record)
                          (TransactionHash record))
    end).

(** The caller's launch-cap check: [None] when there is none, else the totals'
    verdict. *)
Definition CapCheck : Type := option (decimal → decimal → option Caps.CapErr).

Definition user_total (userID : Z) (d : DB) : Z :=
  sum_Z (map CurrentBalance (filter (λ r, (RowUserID r =? userID) && live r = true)
    (map snd (map_to_list (rows d))))).

Definition global_total (d : DB) : Z :=
  sum_Z (map CurrentBalance (filter (λ r, live r = true) (map snd (map_to_list (rows d))))).

(** The totals are read under the advisory locks, each its own statement. *)
Definition read_totals (userID : Z) : M (decimal * decimal) :=
  exec (query (λ _ _, ())) ;;
  exec (query (λ _ _, ())) ;;
  userTotal ← exec (query (λ _, user_total userID));
  globalTotal ← exec (query (λ _, global_total));
  mret (scan_numeric userTotal, scan_numeric globalTotal).

Definition check_caps (capCheck : CapCheck) (userID : Z) : M unit :=
  match capCheck with
  | None => mret ()
  | Some check =>
      totals ← read_totals userID;
      of_option (ErrCapCheck <$> check totals.1 totals.2)
  end.

Definition RecordDepositWithAudit (vaultID : Z) (record : TransactionRecord) (capCheck : CapCheck)
    (auditTemplate : AuditEntry) : M AuditEntry :=
  if Cmp (RecAmount record) Zero <=? 0 then throw ErrInvalidAmount
  else withTx (
    row ← exec (query (select_balance vaultID));
    match row with
    | None => throw ErrVaultNotFound
    | Some raw =>
        let before := scan_numeric raw in
        check_caps capCheck (RecUserID record) ;;
        update_balances vaultID (λ now, set_credit now (value (RecAmount record))) ;;
        insert_record false vaultID "deposit" record ;;
        inserted ← appendBalanceAuditEntry (fill_template auditTemplate vaultID before
                     (Add before (RecAmount record)));
        on_ledger (postDepositLedgerTx vaultID (RecUserID record) (RecAmount record)
                     (TransactionHash record)) ;;
        mret inserted
    end).

(** *** Withdrawals *)

Definition RecordWithdrawalWithAudit (vaultID : Z) (record : TransactionRecord)
    (auditTemplate : AuditEntry) : M AuditEntry :=
  if Cmp (RecAmount record) Zero <=? 0 then throw ErrInvalidAmount
  else withTx (
    row ← exec (query (select_balance vaultID));
    match row with
    | None => throw ErrVaultNotFound
    | Some raw =>
        let before := scan_numeric raw in
        if LessThan before (RecAmount record) then throw ErrWithdrawalExceedsPosition
        else
          update_balances vaultID (λ now, set_debit now (value (RecAmount record))) ;;
          insert_record false vaultID "withdrawal" record ;;
          inserted ← appendBalanceAuditEntry (fill_template auditTemplate vaultID before
                       (Sub before (RecAmount record)));
          on_ledger (postWithdrawalLedgerTx vaultID (RecUserID record) (RecAmount record)
                       (TransactionHash record)) ;;
          mret inserted
    end).

Definition RecordWithdrawal (id : Z) (record : TransactionRecord) : M unit :=
  if Cmp (RecAmount record) Zero <=? 0 then throw ErrInvalidAmount
  else withTx (
    row ← map_err mapRepositoryError (exec (query (select_balance id)));
    match row with
    | None => throw ErrVaultNotFound
    | Some raw =>
        if LessThan (scan_numeric raw) (RecAmount record) then throw ErrWithdrawalExceedsPosition
        else
          map_err mapRepositoryError
            (exec (λ now d, update_vault id (set_debit now (value (RecAmount record))) d)) ;;
          insert_record false id "withdrawal" record ;;
          on_ledger (postWithdrawalLedgerTx id (RecUserID record) (RecAmount record)
                       (TransactionHash record))
    end).

(** *** Harvests and rebalances *)

Record HarvestRecordInput := mkHarvest {
  HarvestVaultID : Z;
  HarvestUserID : Z;
  NetYield : decimal;
  PerformanceFee : decimal;
  Compounded : bool;
  NewSharesMinted : option decimal;
  HarvestTxHash : string;
}.

Definition harvest_refused (input : HarvestRecordInput) : bool :=
  (Cmp (NetYield input) Zero <? 0) || (Cmp (PerformanceFee input) Zero <? 0).

Definition update_harvest (input : HarvestRecordInput) : M unit :=
  let p := value (NetYield input) in
  let f := value (PerformanceFee input) in
  if Compounded input
  then update_balances (HarvestVaultID input) (λ now, set_harvest_compounded now p f)
  else update_balances (HarvestVaultID input) (λ now, set_harvest_paid_out now p f).

Definition insert_harvest (input : HarvestRecordInput) : M Z :=
  id ← uuid_New;
  map_err mapRepositoryError (exec (insert_tx false id (HarvestVaultID input)
    (Some (HarvestUserID input)) "harvest" (value (NetYield input))
    (nullif_empty (HarvestTxHash input)) (value <$> NewSharesMinted input) None
    (Some (value (PerformanceFee input))))).

Definition post_harvest (input : HarvestRecordInput) : M unit :=
  on_ledger (postHarvestLedgerTx (HarvestVaultID input) (HarvestUserID input) (NetYield input)
    (PerformanceFee input) "blend" (HarvestTxHash input)).

Definition RecordHarvestWithAudit (input : HarvestRecordInput) (auditTemplate : AuditEntry)
  : M AuditEntry :=
  if harvest_refused input then throw ErrInvalidAmount
  else withTx (
    row ← exec (query (select_balance (HarvestVaultID input)));
    match row with
    | None => throw ErrVaultNotFound
    | Some raw =>
        let before := scan_numeric raw in
        let after := if Compounded input then Add before (NetYield input)
                     else Sub before (NetYield input) in
        update_harvest input ;;
        insert_harvest input ;;
        inserted ← appendBalanceAuditEntry
          (fill_template auditTemplate (HarvestVaultID input) before after);
        post_harvest input ;;
        mret inserted
    end).

Definition RecordHarvest (input : HarvestRecordInput) : M unit :=
  if harvest_refused input then throw ErrInvalidAmount
  else withTx (
    update_harvest input ;;
    insert_harvest input ;;
    post_harvest input).

Record RebalanceRecordInput := mkRebalance {
  RebalanceVaultID : Z;
  RebalanceUserID : Z;
  FromProtocol : string;
  ToProtocol : string;
  RebalanceAmount : decimal;
  RebalanceTxHash : string;
}.

(** The rows these updates affect are not checked. *)
Definition RecordRebalance (input : RebalanceRecordInput)
    (withdrawRecord depositRecord : TransactionRecord) : M unit :=
  withTx (
    map_err mapRepositoryError (exec (λ now d,
      update_vault (RebalanceVaultID input) (set_debit now (value (RecAmount withdrawRecord))) d)) ;;
    insert_record false (RebalanceVaultID input) "withdrawal" withdrawRecord ;;
    map_err mapRepositoryError (exec (λ now d,
      update_vault (RebalanceVaultID input) (set_credit now (value (RecAmount depositRecord))) d)) ;;
    insert_record false (RebalanceVaultID input) "deposit" depositRecord ;;
    id ← uuid_New;
    map_err mapRepositoryError (exec (insert_tx false id (RebalanceVaultID input)
      (Some (RebalanceUserID input)) "rebalance" (value (RebalanceAmount input))
      (nullif_empty (RebalanceTxHash input)) None None None)) ;;
    on_ledger (postRebalanceLedgerTx (RebalanceVaultID input) (FromProtocol input)
      (ToProtocol input) (RebalanceAmount input) (RebalanceTxHash input))).

(** *** Movements confirmed on chain *)

(** The warning of the cap check, which never refuses the credit. *)
Definition cap_warning (txType : string) (capCheck : CapCheck) (userID : Z)
  : M (option Caps.CapErr) :=
  match capCheck with
  | Some check =>
      if (txType =s? "deposit") && negb (userID =? 0) then
        totals ← read_totals userID; mret (check totals.1 totals.2)
      else mret None
  | None => mret None
  end.

Definition applyConfirmedBalanceChange (id userID : Z) (amount : decimal) (txHash txType : string)
    (capCheck : CapCheck) : M (option Caps.CapErr) :=
  if Cmp amount Zero <=? 0 then throw ErrInvalidAmount
  else if TrimSpace txHash =s? "" then throw ErrInvalidVault
  else withTx (
    rowID ← uuid_New;
    inserted ← map_err mapRepositoryError (exec (insert_tx true rowID id
      (if negb (userID =? 0) then Some userID else None) txType (value amount) (Some txHash)
      None None None));
    if inserted =? 0 then mret None
    else
      row ← exec (query (select_balance id));
      match row with
      | None => throw ErrVaultNotFound
      | Some raw =>
          let before := scan_numeric raw in
          capWarning ← cap_warning txType capCheck userID;
          update_balances id (λ now r,
            if txType =s? "deposit" then set_credit now (value amount) r
            else set_debit now (value amount) r) ;;
          let after := if txType =s? "deposit" then Add before amount else Sub before amount in
          let auditOp := if txType =s? "deposit" then "deposit"%string else "withdrawal"%string in
          let actor := if negb (userID =? 0) then uuid_String userID
                       else SystemActor "chain_confirmation" in
          appendBalanceAuditEntry
            (mkAuditEntry 0 0 id userID actor auditOp amount before after txHash None 0) ;;
          (if negb (userID =? 0) then
             if txType =s? "deposit"
             then on_ledger (postDepositLedgerTx id userID amount txHash)
             else on_ledger (postWithdrawalLedgerTx id userID amount txHash)
           else mret ()) ;;
          mret capWarning
      end).

Definition ApplyConfirmedDeposit (id userID : Z) (amount : decimal) (txHash : string)
    (capCheck : CapCheck) : M (option Caps.CapErr) :=
  applyConfirmedBalanceChange id userID amount txHash "deposit" capCheck.

Definition ApplyConfirmedWithdrawal (id userID : Z) (amount : decimal) (txHash : string)
  : M unit :=
  applyConfirmedBalanceChange id userID amount txHash "withdrawal" None ;; mret ().

(** *** Single statements *)

Definition set_deleted (now : Time) (r : VaultRow) : result DbError VaultRow :=
  Ok (mkVaultRow (RowUserID r) (TotalDeposited r) (CurrentBalance r) (YieldEarned r) (FeesPaid r)
        (SoftCapacity r) (LastHarvestedAt r) (RowUpdatedAt r) (Some now)).

Definition SoftDeleteVault (id : Z) : M unit :=
  n ← map_err mapRepositoryError (exec_db (λ now d, update_vault id (set_deleted now) d));
  if n =? 0 then throw ErrVaultNotFound else mret ().

Definition set_balances (now : Time) (total current : Q) (r : VaultRow) : result DbError VaultRow :=
  let? t := numeric 48 total in
  let? c := numeric 48 current in
  Ok (mkVaultRow (RowUserID r) t c (YieldEarned r) (FeesPaid r) (SoftCapacity r)
        (LastHarvestedAt r) now (DeletedAt r)).

Definition UpdateVaultBalances (id : Z) (totalDeposited currentBalance : decimal) : M unit :=
  n ← map_err mapRepositoryError (exec_db (λ now d,
        update_vault id (set_balances now (value totalDeposited) (value currentBalance)) d));
  if n =? 0 then throw ErrVaultNotFound else mret ().

Definition UserDepositTotal (userID : Z) : M decimal :=
  total ← exec_db (query (λ _, user_total userID)); mret (scan_numeric total).

Definition GlobalDepositTotal : M decimal :=
  total ← exec_db (query (λ _, global_total)); mret (scan_numeric total).

(** *** Reading the audit trail *)

Definition normalizeListPage (limit offset : Z) : Z * Z :=
  (if limit <=? 0 then 500 else limit, if offset <? 0 then 0 else offset).

Definition scan_audit (r : AuditRow) : AuditEntry :=
  mkAuditEntry (AuID r) (Seq r) (AuVaultID r) (AuUserID r) (AuActor r) (AuOperation r)
    (scan_numeric (AuAmount r)) (scan_numeric (AuBefore r)) (scan_numeric (AuAfter r))
    (default "" (AuChainReference r)) (Some <$> AuMetadata r) (AuCreatedAt r).

(** Rows are appended in the order of their sequence. *)
Definition list_page (p : AuditRow → bool) (limit offset : Z) : M (option (list AuditEntry) * Z) :=
  let '(l, o) := normalizeListPage limit offset in
  total ← exec_db (query (λ _ d, Z.of_nat (length (filter (λ r, p r = true) (audit d)))));
  page ← exec_db (query (λ _ d,
    take (Z.to_nat l) (drop (Z.to_nat o) (filter (λ r, p r = true) (audit d)))));
  mret (if total =? 0 then None else Some (map scan_audit page), total).

(** [None]: [balanceaudit.ErrNotFound]. *)
Definition ListByVault (vaultID limit offset : Z) : M (option (list AuditEntry) * Z) :=
  list_page (λ r, AuVaultID r =? vaultID) limit offset.

Definition ListByUser (userID limit offset : Z) : M (option (list AuditEntry) * Z) :=
  list_page (λ r, AuUserID r =? userID) limit offset.

(** [Reconcile]; [None] is [ErrReconciliationGap]. *)
Fixpoint Reconcile_loop (entries : list AuditEntry) (prevByVault : gmap Z decimal)
    (total : decimal) : option decimal :=
  match entries with
  | [] => Some total
  | e :: entries' =>
      let gap := match prevByVault !! VaultID e with
                 | Some prev => negb (dec_Equal (BalanceBefore e) prev)
                 | None => false
                 end in
      if gap then None
      else Reconcile_loop entries' (<[VaultID e := BalanceAfter e]> prevByVault)
             (Add total (Sub (BalanceAfter e) (BalanceBefore e)))
  end.

Definition Reconcile (entries : list AuditEntry) : option decimal :=
  Reconcile_loop entries ∅ Zero.

End repository.

End VaultRepo.
