(* ===== verification/VaultBooks.v ===== *)
(** What holds of the vaults' books over their whole life: histories of the
    vault repository's operations with transactions that roll back and
    connections that fail, and the theorems about balances, the audit trail, the
    transaction hashes, the caps and the ledger. *)
From S2P Require Import Prelude Decimals Ledger LedgerRepo LedgerService LedgerBooks Caps VaultRepo.
Open Scope Z_scope.

Module VaultBooks.
Import Decimals Ledger VaultRepo.

(** *** Postings inside a caller's transaction *)

(** Assertions on the ledger read the id source and the tables in view. A
    program meets a contract when it does so in every transaction that can still
    commit at its end. *)
Definition lensures {A} (now : Time) (P : LedgerRepo.Assert) (m : LedgerRepo.M A)
    (Q : A → LedgerRepo.Assert) : Prop :=
  ∀ s t, LedgerRepo.txn s = Some t →
    (LedgerRepo.aborted t = false →
       LedgerRepo.clock s = now ∧ P (LedgerRepo.seed s) (LedgerRepo.work t)) →
    let '(s', r) := m s in
    LedgerRepo.seed s ≤ LedgerRepo.seed s' ∧
    ∃ t', LedgerRepo.txn s' = Some t' ∧
      (LedgerRepo.aborted t' = false →
         LedgerRepo.aborted t = false ∧ LedgerRepo.clock s' = now ∧
         match r with Ok a => Q a (LedgerRepo.seed s') (LedgerRepo.work t') | Err _ => True end).

Section lensures_rules.
  Context (now : Time).
  Import LedgerRepo.

Lemma lensures_ret {A} (a : A) P (Q : A → Assert) :
  (∀ n st, P n st → Q a n st) → lensures now P (mret a) Q.
Proof.
  intros H s t Ht HP. cbn. split; [lia|]. exists t. split; [done|]. intros Ha.
  destruct (HP Ha). auto.
Qed.

Lemma lensures_throw {A} e P (Q : A → Assert) : lensures now P (throw e) Q.
Proof. intros s t Ht HP. cbn. split; [lia|]. exists t. naive_solver. Qed.

Lemma lensures_of_result {A} (r : result LedgerError A) P (Q : A → Assert) :
  (∀ a, r = Ok a → ∀ n st, P n st → Q a n st) → lensures now P (of_result r) Q.
Proof.
  intros H s t Ht HP. cbn. split; [lia|]. exists t. split; [done|]. intros Ha.
  destruct (HP Ha). split_and!; [done..|]. destruct r; eauto.
Qed.

Lemma lensures_bind {A C} (m : M A) (k : A → M C) P R Q :
  lensures now P m R → (∀ a, lensures now (R a) (k a) Q) → lensures now P (m ≫= k) Q.
Proof.
  intros Hm Hk s t Ht HP. specialize (Hm s t Ht HP). unfold mbind, M_bind.
  destruct (m s) as [s1 [a|e]]; destruct Hm as (Hle & t1 & Ht1 & H1); [|eauto].
  assert (aborted t1 = false → clock s1 = now ∧ R a (seed s1) (work t1)) as HR by naive_solver.
  specialize (Hk a s1 t1 Ht1 HR). destruct (k a s1) as [s2 r].
  destruct Hk as (Hle2 & t2 & Ht2 & H2). split; [lia|]. exists t2. naive_solver.
Qed.

Lemma lensures_pre {A} (m : M A) (P P' : Assert) Q :
  (∀ n st, P n st → P' n st) → lensures now P' m Q → lensures now P m Q.
Proof. intros HP Hm s t Ht H. apply Hm; [done|]. naive_solver. Qed.

Lemma lensures_post {A} (m : M A) P (Q Q' : A → Assert) :
  (∀ a n st, Q' a n st → Q a n st) → lensures now P m Q' → lensures now P m Q.
Proof.
  intros HQ Hm s t Ht HP. specialize (Hm s t Ht HP). destruct (m s) as [s' r].
  destruct Hm as (Hle & t' & Ht' & H'). split; [done|]. exists t'. split; [done|].
  intros Ha. destruct (H' Ha) as (? & ? & ?). split_and!; [done..|]. destruct r; auto.
Qed.

(** The witness only matters while the transaction can commit. *)
Lemma lensures_exists {X A} (x0 : X) (P : X → Assert) (m : M A) (Q : A → Assert) :
  (∀ x, lensures now (P x) m Q) → lensures now (λ n st, ∃ x, P x n st) m Q.
Proof.
  intros H s t Ht HP. destruct (aborted t) eqn:Ha.
  - specialize (H x0 s t Ht). rewrite Ha in H. apply H. done.
  - destruct (HP eq_refl) as (Hc & x & Hx). specialize (H x s t Ht). rewrite Ha in H. by apply H.
Qed.

(** Facts that do not depend on the state survive. *)
Lemma lensures_frame {A} (φ : Prop) P (m : M A) (Q : A → Assert) :
  lensures now P m Q → lensures now (λ n st, φ ∧ P n st) m (λ a n st, φ ∧ Q a n st).
Proof.
  intros Hm s t Ht HP. specialize (Hm s t Ht). destruct (aborted t) eqn:Ha.
  - specialize (Hm ltac:(done)). destruct (m s) as [s' r].
    destruct Hm as (Hle & t' & Ht' & H'). split; [done|]. exists t'. split; [done|].
    intros Ha'. by destruct (H' Ha').
  - destruct (HP eq_refl) as (Hc & Hφ & HPs). specialize (Hm (λ _, conj Hc HPs)).
    destruct (m s) as [s' r]. destruct Hm as (Hle & t' & Ht' & H'). split; [done|].
    exists t'. split; [done|]. intros Ha'. destruct (H' Ha') as (? & ? & ?).
    split_and!; [done..|]. by destruct r.
Qed.

Lemma lensures_uuid (P : Assert) (Q : Z → Assert) :
  (∀ n st, P n st → Q n (n + 1) st) → lensures now P uuid_New Q.
Proof.
  intros H s t Ht HP. cbn. split; [lia|]. exists t. split; [done|]. intros Ha.
  destruct (HP Ha). auto.
Qed.

Lemma lensures_exec {A} (f : Time → Store → result PgError (Store * A)) (P : Assert)
    (Q : A → Assert) :
  (∀ n st st' a, P n st → f now st = Ok (st', a) → Q a n st') → lensures now P (exec f) Q.
Proof.
  intros H s t Ht HP. unfold exec. rewrite Ht. unfold round_trip.
  assert (∀ s1, clock s1 = clock s → seed s1 = seed s →
    let '(s', r) := if aborted t then (with_txn s1 (Some t), Err (ErrPg InFailedTransaction))
      else match f (clock s) (work t) with
           | Ok (st, a) => (with_txn s1 (Some (mkTx st false)), Ok a)
           | Err e => (with_txn s1 (Some (mkTx (work t) true)), Err (ErrPg e))
           end in
    seed s ≤ seed s' ∧ ∃ t', txn s' = Some t' ∧
      (aborted t' = false → aborted t = false ∧ clock s' = now ∧
       match r with Ok a => Q a (seed s') (work t') | Err _ => True end)) as Hgo.
  { intros s1 Hc Hs. destruct (aborted t) eqn:Ha.
    - split; [cbn; lia|]. exists t. split; [done|]. congruence.
    - destruct (HP eq_refl) as [Hnow HPs]. rewrite Hnow.
      destruct (f now (work t)) as [[st a]|e] eqn:Hf; cbn; (split; [lia|]);
        eexists; (split; [done|]); cbn; intros; [|done].
      split_and!; [done|congruence|]. rewrite Hs. by eapply H. }
  destruct (faults s) as [|[] fs]; cbn.
  - specialize (Hgo s eq_refl eq_refl). destruct (aborted t); [|exact Hgo].
    cbn in *. split; [lia|]. exists t. naive_solver.
  - split; [lia|]. exists (mkTx (work t) true). split; [done|]. cbn. done.
  - specialize (Hgo (with_faults s fs) eq_refl eq_refl). destruct (aborted t); [|exact Hgo].
    cbn in *. split; [lia|]. exists t. naive_solver.
Qed.

Lemma lensures_found_or newID (m : M (option Account)) P (Q : Z → Assert) (R : option Account → Assert) :
  lensures now P m R → (∀ a n st, R (Some a) n st → Q (AccID a) n st) →
  (∀ n st, ¬ R None n st) →
  (∀ s t e s', txn s = Some t → m s = (s', Err e) → ∃ t', txn s' = Some t' ∧ aborted t' = true) →
  lensures now P (found_or newID m) Q.
Proof.
  intros Hm HS HN HE s t Ht HP. specialize (Hm s t Ht HP). unfold found_or.
  destruct (m s) as [s' [[a|]|e]] eqn:Em; destruct Hm as (Hle & t' & Ht' & H'); (split; [done|]);
    exists t'; (split; [done|]); intros Ha.
  - destruct (H' Ha) as (? & ? & ?). auto.
  - destruct (H' Ha) as (? & ? & ?). by destruct (HN _ _ H1).
  - destruct (HE s t e s' Ht Em) as (t2 & Ht2 & Ha2). congruence.
Qed.

Lemma exec_error {A} (f : Time → Store → result PgError (Store * A)) s t e s' :
  txn s = Some t → exec f s = (s', Err e) → ∃ t', txn s' = Some t' ∧ aborted t' = true.
Proof.
  intros Ht. unfold exec. rewrite Ht. unfold round_trip.
  destruct (faults s) as [|[] fs]; cbn; destruct (aborted t) eqn:Ha; cbn;
    try destruct (f _ _) as [[st a]|pe]; intros [= <- <-]; cbn; eauto.
Qed.

End lensures_rules.

(** *** The vault repository's postings *)

Section postings.
  Context `{DecimalOrderLaws}.
  Context (now : Time).
  Import LedgerRepo LedgerService.

Definition resolved_ids (st0 : Store) (rs : list Req) (ids : list Z) (n : Z) (st : Store) : Prop :=
  ∃ accs, ids = map AccID accs ∧ Resolving st0 rs accs n st.

Definition adapter_of (ty : string) (ad : option string) : option string :=
  if ty =s? AccountTypeYieldSource then
    match ad with
    | Some n => if n =s? "" then Some "blend"%string else ad
    | None => Some "blend"%string
    end
  else ad.

Lemma resolved_snoc st0 rs ids n n' st st' r k a :
  resolved_ids st0 rs ids n st → below n' st' → grown st st' → req_key r = Ok k →
  account_key a = Some k → a ∈ accounts st' →
  resolved_ids st0 (rs ++ [r]) (ids ++ [AccID a]) n' st'.
Proof.
  intros (accs & -> & _ & Hg & Hf) Hb Hg' Hk Ha Hin. exists (accs ++ [a]).
  split; [by rewrite map_app|]. split; [done|]. split; [unfold grown in *; by etrans|].
  apply Forall2_app; [|by repeat econstructor].
  eapply Forall2_impl; [done|]. intros r' a' (k' & ? & ? & ?). exists k'.
  split_and!; [done..|]. by apply (grown_facts _ _ Hg').
Qed.

Lemma get_or_create_resolves st0 rs ids ty v u ad :
  lensures now (resolved_ids st0 rs ids) (ledgerGetOrCreateAccountTx ty v u ad "USDC")
    (λ id, resolved_ids st0 (rs ++ [mkReq ty v u (adapter_of ty ad)]) (ids ++ [id])).
Proof.
  unfold ledgerGetOrCreateAccountTx. fold (adapter_of ty ad). cbv zeta.
  change (default_asset "USDC") with "USDC"%string. set (r := mkReq ty v u (adapter_of ty ad)).
  apply (lensures_bind _ _ _ _ (λ k n st, req_key r = Ok k ∧ resolved_ids st0 rs ids n st)).
  { by apply lensures_of_result. }
  intros k.
  apply (lensures_bind _ _ _ _ (λ x n st, x = select_account k st ∧ req_key r = Ok k ∧
    resolved_ids st0 rs ids n st)).
  { apply lensures_exec. intros n st st' x [Hk HR] [= <- <-]. done. }
  intros [a|].
  { apply lensures_ret. intros n st (Hs & Hk & HR). symmetry in Hs.
    apply select_account_some in Hs as [Hin Ha].
    eapply resolved_snoc; try done; [by destruct HR as (? & _ & ? & _)|apply rtc_refl]. }
  apply (lensures_bind _ _ _ _ (λ id n st, n = id + 1 ∧ None = select_account k st ∧
    req_key r = Ok k ∧ resolved_ids st0 rs ids id st)).
  { apply lensures_uuid. naive_solver. }
  intros id. set (row := mkAccount id ty v u (adapter_of ty ad) "USDC" "stroops" "").
  apply (lensures_bind _ _ _ _ (λ _ n st, ∃ a, Some a = select_account k st ∧ AccID a = id ∧
    resolved_ids st0 (rs ++ [r]) (ids ++ [AccID a]) n st)).
  - apply lensures_exec. intros n st st' ins (-> & Hs & Hk & HR) Hi. fold row in Hi.
    symmetry in Hs. pose proof Hi as Hi'. pose proof HR as (_ & _ & Hb & _).
    assert (account_key (row now now) = Some k) as Hrow by by apply select_key_of_row.
    rewrite insert_fresh in Hi'.
    + destruct (refs_ok _ _ _); [|done]. injection Hi' as <- <-. exists (row now now).
      rewrite (select_inserted k) by done. split; [done|]. split; [done|].
      eapply resolved_snoc; [exact HR| | |exact Hk|exact Hrow|].
      * eapply below_insert; [exact Hi|done|]. destruct Hb. cbn. lia.
      * apply rtc_once. by eexists.
      * cbn. apply elem_of_app. right. by left.
    + unfold insert_account in Hi. by case_bool_decide.
    + intros b Hbin. destruct Hb as (_ & Hb & _). specialize (Hb b Hbin). cbn. lia.
    + intros k' b Hk' Hbin. simplify_eq. by eapply select_account_none.
  - intros _. apply (lensures_found_or _ _ _ _ _ (λ x n st, ∃ a, x = Some a ∧
      resolved_ids st0 (rs ++ [r]) (ids ++ [AccID a]) n st)).
    + apply lensures_exec. intros n st st' x (a & Hs & _ & HR) [= <- <-]. eauto.
    + intros a n st (? & [= <-] & ?). done.
    + intros n st (? & ? & ?). done.
    + intros s t e s'. apply exec_error.
Qed.

Definition to_entry (txID : Z) (p : Posting) : Entry :=
  mkEntry 0 txID (PostAccountID p) (PostAmount p) (DirectionFromAmount (PostAmount p)) 0
    (PostEventType p) (PostEventID p) "USDC" "stroops".

Lemma apply_rows_snoc rows r t st st1 st2 st3 :
  apply_rows rows t st = Ok st1 → insert_entry r st1 = Ok st2 →
  upsert_balance r t st2 = Ok st3 → apply_rows (rows ++ [r]) t st = Ok st3.
Proof.
  revert st. induction rows as [|x rows IH]; intros st; cbn.
  - intros [= ->] -> H3. cbn. by rewrite H3.
  - destruct (insert_entry x st) as [sa|]; [|done]. cbn.
    destruct (upsert_balance x t sa) as [sb|]; [|done]. cbn. apply IH.
Qed.

Definition posted_so_far (st0 : Store) (es : list Entry) (n : Z) (st : Store) : Prop :=
  below n st ∧ ∃ rows, Forall2 (row_of now) es rows ∧ apply_rows rows now st0 = Ok st.

Lemma unit_of_ok r st u : unit_of r = Ok (st, u) → r = Ok st.
Proof. destruct r; naive_solver. Qed.

Lemma post_rows_posts st0 txID es ps :
  lensures now (posted_so_far st0 es) (post_rows txID ps)
    (λ _, posted_so_far st0 (es ++ map (to_entry txID) ps)).
Proof.
  revert es. induction ps as [|p ps IH]; intros es; cbn.
  { rewrite app_nil_r. by apply lensures_ret. }
  apply (lensures_bind _ _ _ _ (λ id n st, id < n ∧ posted_so_far st0 es n st)).
  { apply lensures_uuid. intros n st ((H1 & H2 & H3) & HR). split; [lia|]. split; [|done].
    split_and!; [lia| |]; intros x Hx; [specialize (H2 x Hx)|specialize (H3 x Hx)]; lia. }
  intros id. set (row := posting_row id txID now p).
  apply (lensures_bind _ _ _ _ (λ _ n st, below n st ∧ ∃ st1 rows,
    Forall2 (row_of now) es rows ∧ apply_rows rows now st0 = Ok st1 ∧ insert_entry row st1 = Ok st)).
  { apply lensures_exec. intros n st st' x (Hlt & Hb & rows & Hr & Ha) Hi%unit_of_ok.
    split; [by eapply insert_entry_below|]. eauto. }
  intros _. apply (lensures_bind _ _ _ _ (λ _, posted_so_far st0 (es ++ [to_entry txID p]))).
  { apply lensures_exec. intros n st st' x (Hb & st1 & rows & Hr & Ha & Hi) Hu%unit_of_ok.
    split; [by eapply upsert_below|]. exists (rows ++ [row]). split.
    - apply Forall2_app; [done|]. repeat constructor. exists id. split; [|done].
      unfold row, posting_row, complete, to_entry, DirectionFromAmount. cbn.
      by destruct (Z.ltb_spec (PostAmount p) 0), (Z.leb_spec 0 (PostAmount p)); try lia.
    - by eapply apply_rows_snoc. }
  intros _. replace (es ++ to_entry txID p :: map (to_entry txID) ps)
    with ((es ++ [to_entry txID p]) ++ map (to_entry txID) ps) by by rewrite <- app_assoc.
  apply IH.
Qed.

(** The checks of [ledgerPostEntriesTx] are those of [ValidateBalanced]. *)
Lemma posting_sum_valid txID ps sum total :
  txID ≠ 0 → Forall (λ p, PostAccountID p ≠ 0) ps → posting_sum ps sum = Ok total →
  ValidateBalanced_loop txID (map (to_entry txID) ps) sum =
    if negb (total =? 0) then Some ErrUnbalanced else None.
Proof.
  intros Htx. revert sum. induction ps as [|p ps IH]; intros sum Hf; cbn; [by intros [= ->]|].
  apply Forall_cons in Hf as [Hp Hf]. rewrite Z.eqb_refl. cbn.
  destruct (PostAmount p =? 0); [done|]. rewrite (proj2 (Z.eqb_neq _ _) Hp). by apply IH.
Qed.

Lemma posting_valid txID ps total :
  0 < txID → Forall (λ p, PostAccountID p ≠ 0) ps → posting_sum ps 0 = Ok total →
  negb (total =? 0) = false → (Z.of_nat (length ps) <? 2) = false →
  ValidateBalanced (map (to_entry txID) ps) = None.
Proof.
  intros Htx Hf Hsum Ht Hl. assert (txID ≠ 0) as Hne by lia.
  pose proof (posting_sum_valid txID ps 0 total Hne Hf Hsum) as Hv. rewrite Ht in Hv.
  unfold ValidateBalanced. rewrite length_map, Hl. destruct ps as [|p ps]; [done|].
  cbn [map] in *. cbv zeta. change (TransactionID (to_entry txID p)) with txID.
  by rewrite (proj2 (Z.eqb_neq _ _) Hne), Hv.
Qed.

(** What a successful posting of [ps] did to [st0]. *)
Definition done_postings (st0 : Store) (ps : list Posting) (n : Z) (st : Store) : Prop :=
  below n st ∧ ∃ txID, 0 < txID ∧ posted now st0 (map (to_entry txID) ps) st.

Lemma ledgerPostEntriesTx_posts ps (P : Assert) :
  (∀ n st, P n st → below n st ∧ Forall (λ p, PostAccountID p ≠ 0) ps) →
  lensures now P (ledgerPostEntriesTx ps)
    (λ _ n st, ∃ st0, (∃ n0, P n0 st0) ∧ done_postings st0 ps n st).
Proof.
  intros HP. unfold ledgerPostEntriesTx. destruct (Z.of_nat (length ps) <? 2) eqn:Hl;
    [by apply lensures_throw|].
  apply (lensures_bind _ _ _ _ (λ sum n st, posting_sum ps 0 = Ok sum ∧ P n st));
    [by apply lensures_of_result|intros sum].
  destruct (negb (sum =? 0)) eqn:Hs; [by apply lensures_throw|].
  apply (lensures_bind _ _ _ _ (λ txID n st, ∃ st0, (∃ n0, P n0 st0) ∧ (0 < txID ∧
    posting_sum ps 0 = Ok sum ∧ Forall (λ p, PostAccountID p ≠ 0) ps) ∧
    posted_so_far st0 [] n st)).
  { apply lensures_uuid. intros n st [Hsum HPn]. destruct (HP _ _ HPn) as [(H1 & H2 & H3) Hf].
    exists st. split; [eauto|]. split; [done|]. split; [|by exists []].
    split_and!; [lia| |]; intros x Hx; [specialize (H2 x Hx)|specialize (H3 x Hx)]; lia. }
  intros txID. apply (lensures_exists _ (mkStore [] [] [] [] ∅ [])). intros st0.
  eapply lensures_post; [|apply lensures_frame; apply lensures_frame, post_rows_posts].
  intros _ n st (HP0 & (Htx & Hsum & Hf) & Hb & rows & Hr & Ha). cbn in Hr.
  exists st0. split; [done|]. split; [done|]. exists txID. split; [done|]. split; [|by exists rows].
  by eapply posting_valid.
Qed.

(** [st] is [st0] after a posting that moved the positions and the pool of
    vault [v] by [x]. *)
Record moved (st0 : Store) (v x : Z) (st : Store) : Prop := {
  moved_books : Books st;
  moved_vaults : vaults st = vaults st0;
  moved_users : users st = users st0;
  moved_sums w :
    sum_over (is_position w) st = sum_over (is_position w) st0 + (if w =? v then x else 0) ∧
    sum_over (is_pool w) st = sum_over (is_pool w) st0 + (if w =? v then x else 0);
}.

Lemma moved_none st v : Books st → moved st v 0 st.
Proof. intros HB. constructor; try done. intros w. destruct (w =? v); lia. Qed.

Definition leg_sum (p : Account → bool) (st : Store) (es : list Entry) : Z :=
  sum_Z (map (leg p (accounts st)) es).

Lemma postings_move st0 rs accs st1 txID ps amounts ty ev v x st :
  Books st0 → ready st0 rs accs st1 → posted now st1 (map (to_entry txID) ps) st →
  Forall valid_req rs → Forall in_i64 (map PostAmount ps) →
  (∀ p, leg_sum p st1 (map (to_entry txID) ps) = leg_sum p st1 (legs txID accs amounts ty ev)) →
  (∀ w, share (position_of w) rs amounts = (if w =? v then x else 0) ∧
        share (pool_of w) rs amounts = (if w =? v then x else 0)) →
  moved st0 v x st.
Proof.
  intros HB Hrd Hp Hv Hr Hl Hs. assert (grown st0 st1) as Hg by apply Hrd.
  pose proof (grown_books _ _ Hg HB) as HB1.
  destruct (grown_facts _ _ Hg) as (_ & _ & Hva & Hus & _ & _ & Hsum).
  destruct (Hsum (proj1 HB)) as [_ Hsum'].
  assert (Forall (λ e, in_i64 (Ledger.Amount e)) (map (to_entry txID) ps)) as Hr'.
  { clear - Hr. induction ps as [|p ps IH]; [constructor|].
    apply Forall_cons in Hr as [??]. constructor; [done|by apply IH]. }
  pose proof (posted_books _ _ _ _ HB1 Hr' Hp) as HB'.
  destruct (posted_facts _ _ _ _ (proj1 HB1) Hr' Hp) as (_ & (Hv1 & Hu1 & _) & _ & _ & _ & _ & _ & Hso).
  constructor; [done|congruence..|]. intros w. rewrite !Hso, !Hsum'.
  change (sum_Z (map (leg ?p (accounts st1)) ?es)) with (leg_sum p st1 es). rewrite !Hl.
  unfold leg_sum. destruct (legs_share w st0 st1 rs accs txID amounts ty ev (proj1 HB1) Hv Hrd)
    as [-> ->]. destruct (Hs w) as [-> ->]. done.
Qed.

(** The accounts a posting resolved, once they are all there. *)
Lemma ready_of st0 rs ids n st :
  resolved_ids st0 rs ids n st → ∃ accs, ids = map AccID accs ∧ ready st0 rs accs st ∧
    below n st ∧ Forall (λ i, i ≠ 0) ids.
Proof.
  intros (accs & -> & Hb & Hg & Hf). exists accs. split_and!; try done.
  clear Hg. induction Hf as [|r a rs accs (k & _ & _ & Ha) Hf IH]; [constructor|].
  constructor; [|done]. destruct Hb as (_ & Hb & _). specialize (Hb a Ha). lia.
Qed.

Definition start_at (st0 : Store) (n : Z) (st : Store) : Prop := st = st0 ∧ below n st.

Lemma start_resolved st0 n st : start_at st0 n st → resolved_ids st0 [] [] n st.
Proof.
  intros [-> Hb]. exists []. split; [done|]. split; [done|]. split; [apply rtc_refl|constructor].
Qed.

Lemma three_legs st txID a b c x y z ty ev p :
  leg_sum p st (map (to_entry txID)
    [mkPosting (AccID a) x ty ev; mkPosting (AccID b) y ty ev; mkPosting (AccID c) z ty ev]) =
  leg_sum p st (legs txID [a; b; c] [x; y; z] ty ev).
Proof. reflexivity. Qed.

Lemma stroops_in_range d : in_i64 (VaultRepo.decimalToStroops d).
Proof. unfold VaultRepo.decimalToStroops. rewrite IntPart_value. apply i64_range. Qed.

(** Evaluate comparisons of string constants. *)
Ltac eval_tests :=
  repeat match goal with
  | |- context [?a =s? ?b] =>
      let r := eval vm_compute in (a =s? b) in
      match r with true => idtac | false => idtac end;
      change (a =s? b) with r
  end; cbn [andb orb negb].

(** Resolving the accounts of a deposit or a withdrawal, then posting [x], [x]
    and [y] to them. *)
Lemma post_three st0 v u x y ty ev :
  Books st0 → in_i64 x → in_i64 y →
  lensures now (start_at st0)
    (userAccID ← ledgerGetOrCreateAccountTx "user_vault_position" (Some v) (Some u) None "USDC";
     vaultAccID ← ledgerGetOrCreateAccountTx "vault_asset_pool" (Some v) None None "USDC";
     suspenseID ← ledgerGetOrCreateAccountTx "system_suspense" None None None "USDC";
     ledgerPostEntriesTx
       [mkPosting userAccID x ty ev; mkPosting vaultAccID x ty ev; mkPosting suspenseID y ty ev])
    (λ _ n st, below n st ∧ moved st0 v x st).
Proof.
  intros HB Hx Hy. eapply lensures_pre; [apply start_resolved|].
  eapply lensures_bind; [apply get_or_create_resolves|intros i1].
  eapply lensures_bind; [apply get_or_create_resolves|intros i2].
  eapply lensures_bind; [apply get_or_create_resolves|intros i3]. cbn [app].
  eapply lensures_post; [|apply ledgerPostEntriesTx_posts].
  - intros _ n st (st1 & (n0 & HR) & Hb & txID & _ & Hp). split; [done|].
    apply ready_of in HR as (accs & Hids & Hrd & _ & _).
    destruct accs as [|a [|b [|c [|]]]]; try discriminate. injection Hids as -> -> ->.
    eapply (postings_move st0 _ _ _ txID _ [x; x; y] ty ev); [done|exact Hrd|exact Hp| | | |].
    + apply (requests_valid v u "" "" "").
    + cbn. by repeat first [apply Forall_nil_2|apply Forall_cons_2].
    + intros p. apply three_legs.
    + intros w. unfold share, position_of, pool_of. cbn. rewrite (Z.eqb_sym w v).
      destruct (Z.eqb_spec v w) as [->|Hne];
        repeat case_bool_decide; simplify_eq; try done; eval_tests; split; lia.
  - intros n st HR. apply ready_of in HR as (accs & Hids & _ & Hb & Hnz). split; [done|].
    do 3 apply Forall_cons in Hnz as [? Hnz].
    by repeat first [apply Forall_nil_2|apply Forall_cons_2].
Qed.

Definition positive (x : Z) : Z := if x <=? 0 then 0 else x.

Lemma postDeposit_moves st0 v u amount ev :
  Books st0 →
  lensures now (start_at st0) (postDepositLedgerTx v u amount ev)
    (λ _ n st, below n st ∧ moved st0 v (positive (VaultRepo.decimalToStroops amount)) st).
Proof.
  intros HB. unfold postDepositLedgerTx, positive. cbv zeta. pose proof (stroops_in_range amount).
  destruct (_ <=? 0).
  - apply lensures_ret. intros n st [-> Hb]. split; [done|]. by apply moved_none.
  - apply post_three; [done|done|apply i64_range].
Qed.

Lemma postWithdrawal_moves st0 v u amount ev :
  Books st0 →
  lensures now (start_at st0) (postWithdrawalLedgerTx v u amount ev)
    (λ _ n st, below n st ∧ moved st0 v (- positive (VaultRepo.decimalToStroops amount)) st).
Proof.
  intros HB. unfold postWithdrawalLedgerTx, positive. cbv zeta.
  pose proof (stroops_in_range amount) as Hr. destruct (Z.leb_spec (VaultRepo.decimalToStroops amount) 0).
  - apply lensures_ret. intros n st [-> Hb]. split; [done|]. by apply moved_none.
  - rewrite (LedgerBooks.neg_i64 (VaultRepo.decimalToStroops amount)) by done.
    apply post_three; [done| |apply i64_range]. unfold in_i64, min_i64, max_i64 in *. lia.
Qed.

Lemma leg_sum_app p st es1 es2 : leg_sum p st (es1 ++ es2) = leg_sum p st es1 + leg_sum p st es2.
Proof. unfold leg_sum. by rewrite map_app, sum_Z_app. Qed.

Lemma leg_zero p l txID acc ty ev : leg p l (mk_leg txID acc 0 ty ev) = 0.
Proof. unfold leg. by destruct (existsb _ _). Qed.

Lemma leg_sum_unless p st txID acc x ty ev :
  leg_sum p st (if negb (x =? 0) then [mk_leg txID acc x ty ev] else []) =
  leg p (accounts st) (mk_leg txID acc x ty ev).
Proof.
  destruct (Z.eqb_spec x 0) as [->|]; cbn; [by rewrite leg_zero|]. unfold leg_sum. cbn. lia.
Qed.

(** The harvest's legs, in the order the repository posts them, weigh what the
    ledger service's do. *)
Lemma harvest_legs_sum st txID a b c d e n f g ev p :
  leg_sum p st (map (to_entry txID)
    ((if negb (n =? 0) then
        [mkPosting (AccID a) n "harvest" ev; mkPosting (AccID b) n "harvest" ev;
         mkPosting (AccID e) (i64 (- n)) "harvest" ev] else []) ++
     (if negb (f =? 0) then [mkPosting (AccID c) f "harvest" ev] else []) ++
     (if negb (g =? 0) then [mkPosting (AccID d) (i64 (- g)) "harvest" ev] else []))) =
  leg_sum p st (legs txID [a; b; c; d; e] [n; n; f; i64 (- g); i64 (- n)] "harvest" ev).
Proof.
  rewrite !map_app, !leg_sum_app.
  transitivity (leg p (accounts st) (mk_leg txID a n "harvest" ev) +
    leg p (accounts st) (mk_leg txID b n "harvest" ev) +
    leg p (accounts st) (mk_leg txID e (i64 (- n)) "harvest" ev) +
    (leg p (accounts st) (mk_leg txID c f "harvest" ev) +
     leg p (accounts st) (mk_leg txID d (i64 (- g)) "harvest" ev))).
  - f_equal; [|f_equal].
    + destruct (Z.eqb_spec n 0) as [->|]; cbn [negb map].
      * change (i64 (- 0)) with 0. by rewrite !leg_zero.
      * unfold leg_sum. cbn [map]. cbn [sum_Z foldr].
        change (to_entry txID (mkPosting (AccID ?a) ?x ?ty ?ev)) with (mk_leg txID a x ty ev). lia.
    + destruct (Z.eqb_spec f 0) as [->|]; cbn [negb map]; [by rewrite leg_zero|].
      unfold leg_sum. cbn [map sum_Z foldr].
      change (to_entry txID (mkPosting (AccID ?a) ?x ?ty ?ev)) with (mk_leg txID a x ty ev). lia.
    + destruct (Z.eqb_spec g 0) as [->|]; cbn [negb map]; [change (i64 (- 0)) with 0; by rewrite leg_zero|].
      unfold leg_sum. cbn [map sum_Z foldr].
      change (to_entry txID (mkPosting (AccID ?a) ?x ?ty ?ev)) with (mk_leg txID a x ty ev). lia.
  - unfold leg_sum, legs. cbn [zip_with map sum_Z foldr]. lia.
Qed.

Lemma postHarvest_moves st0 v u net fee ad ev :
  Books st0 →
  lensures now (start_at st0) (postHarvestLedgerTx v u net fee ad ev)
    (λ _ n st, below n st ∧ moved st0 v
      (if (VaultRepo.decimalToStroops net <=? 0) && (VaultRepo.decimalToStroops fee <=? 0) then 0
       else VaultRepo.decimalToStroops net) st).
Proof.
  intros HB. unfold postHarvestLedgerTx. cbv zeta.
  pose proof (stroops_in_range net) as Hn. pose proof (stroops_in_range fee) as Hf.
  set (n := VaultRepo.decimalToStroops net) in *. set (f := VaultRepo.decimalToStroops fee) in *.
  destruct (_ && _).
  { apply lensures_ret. intros n' st [-> Hb]. split; [done|]. by apply moved_none. }
  set (g := i64 (n + f)). assert (in_i64 g) as Hg by apply i64_range.
  eapply lensures_pre; [apply start_resolved|].
  do 5 (eapply lensures_bind; [apply get_or_create_resolves|intros ?id]). cbn [app].
  eapply lensures_post; [|apply ledgerPostEntriesTx_posts].
  - intros _ n' st (st1 & (n0 & HR) & Hb & txID & _ & Hp). split; [done|].
    apply ready_of in HR as (accs & Hids & Hrd & _ & _).
    destruct accs as [|a [|b [|c [|d [|e [|]]]]]]; try discriminate.
    injection Hids as -> -> -> -> ->.
    eapply (postings_move st0 _ _ _ txID _ [n; n; f; i64 (- g); i64 (- n)] "harvest" ev);
      [done|exact Hrd|exact Hp| | | |].
    + unfold valid_req. repeat constructor; cbn; set_solver.
    + assert (in_i64 (i64 (- n)) ∧ in_i64 (i64 (- g))) as [? ?] by (split; apply i64_range).
      destruct (negb (n =? 0)), (negb (f =? 0)), (negb (g =? 0)); cbn;
        by repeat first [apply Forall_nil_2|apply Forall_cons_2].
    + intros p. apply harvest_legs_sum.
    + intros w. unfold share, position_of, pool_of. cbn. rewrite (Z.eqb_sym w v).
      destruct (Z.eqb_spec v w) as [->|Hne];
        repeat case_bool_decide; simplify_eq; try done; eval_tests; split; lia.
  - intros n' st HR. apply ready_of in HR as (accs & Hids & _ & Hb & Hnz). split; [done|].
    do 5 apply Forall_cons in Hnz as [? Hnz].
    destruct (negb (n =? 0)), (negb (f =? 0)), (negb (g =? 0)); cbn;
      by repeat first [apply Forall_nil_2|apply Forall_cons_2].
Qed.

Lemma postRebalance_moves st0 v a b amount ev :
  Books st0 →
  lensures now (start_at st0) (postRebalanceLedgerTx v a b amount ev)
    (λ _ n st, below n st ∧ moved st0 v 0 st).
Proof.
  intros HB. unfold postRebalanceLedgerTx. cbv zeta.
  pose proof (stroops_in_range amount) as Hr.
  assert (∀ n st, start_at st0 n st → below n st ∧ moved st0 v 0 st) as Hnone.
  { intros n st [-> Hb]. split; [done|]. by apply moved_none. }
  destruct (_ <=? 0); [by apply lensures_ret|]. destruct (_ =s? _); [by apply lensures_ret|].
  set (x := VaultRepo.decimalToStroops amount) in *.
  assert (in_i64 (i64 (- x))) as Hm by apply i64_range.
  eapply lensures_pre; [apply start_resolved|].
  do 2 (eapply lensures_bind; [apply get_or_create_resolves|intros ?id]). cbn [app].
  eapply lensures_post; [|apply ledgerPostEntriesTx_posts].
  - intros _ n' st (st1 & (n0 & HR) & Hb & txID & _ & Hp). split; [done|].
    apply ready_of in HR as (accs & Hids & Hrd & _ & _).
    destruct accs as [|c [|d [|]]]; try discriminate. injection Hids as -> ->.
    eapply (postings_move st0 _ _ _ txID _ [i64 (- x); x] "rebalance" ev);
      [done|exact Hrd|exact Hp| | | |].
    + unfold valid_req. repeat constructor; cbn; set_solver.
    + cbn. by repeat first [apply Forall_nil_2|apply Forall_cons_2].
    + reflexivity.
    + intros w. unfold share, position_of, pool_of. cbn. eval_tests. by destruct (w =? v).
  - intros n' st HR. apply ready_of in HR as (accs & Hids & _ & Hb & Hnz). split; [done|].
    do 2 apply Forall_cons in Hnz as [? Hnz].
    by repeat first [apply Forall_nil_2|apply Forall_cons_2].
Qed.

End postings.

(** *** Transactions of the vault repository *)

(** Assertions read the audit sequence, the id source and the tables in view. *)
Definition Assert : Type := Z → Z → DB → Prop.

Section ensures.
  Context `{DecimalOrderLaws}.
  Context (now : Time).

Definition ensures {A} (P : Assert) (m : M A) (Q : A → Assert) : Prop :=
  ∀ s w ab, txn s = Some (w, ab) →
    (ab = false → clock s = now ∧ P (seq_next s) (seed s) w) →
    let '(s', r) := m s in
    db s' = db s ∧ seq_next s ≤ seq_next s' ∧ seed s ≤ seed s' ∧
    ∃ w' ab', txn s' = Some (w', ab') ∧
      (ab' = false → ab = false ∧ clock s' = now ∧
         match r with Ok a => Q a (seq_next s') (seed s') w' | Err _ => True end).

Lemma ensures_ret {A} (a : A) P (Q : A → Assert) :
  (∀ q n d, P q n d → Q a q n d) → ensures P (mret a) Q.
Proof.
  intros H' s w ab Ht HP. cbn. split_and!; [done|lia|lia|]. exists w, ab. split; [done|].
  intros Ha. destruct (HP Ha). auto.
Qed.

Lemma ensures_throw {A} e P (Q : A → Assert) : ensures P (throw e) Q.
Proof. intros s w ab Ht HP. cbn. split_and!; [done|lia|lia|]. exists w, ab. naive_solver. Qed.

Lemma ensures_of_option e P (Q : unit → Assert) :
  (e = None → ∀ q n d, P q n d → Q () q n d) → ensures P (of_option e) Q.
Proof. destruct e; cbn; [intros _; apply ensures_throw|intros; apply ensures_ret; eauto]. Qed.

Lemma ensures_bind {A C} (m : M A) (k : A → M C) P R Q :
  ensures P m R → (∀ a, ensures (R a) (k a) Q) → ensures P (m ≫= k) Q.
Proof.
  intros Hm Hk s w ab Ht HP. specialize (Hm s w ab Ht HP). unfold mbind, M_bind.
  destruct (m s) as [s1 [a|e]]; destruct Hm as (Hd & Hq & Hn & w1 & ab1 & Ht1 & H1); [|eauto 10].
  assert (ab1 = false → clock s1 = now ∧ R a (seq_next s1) (seed s1) w1) as HR by naive_solver.
  specialize (Hk a s1 w1 ab1 Ht1 HR). destruct (k a s1) as [s2 r].
  destruct Hk as (Hd2 & Hq2 & Hn2 & w2 & ab2 & Ht2 & H2).
  split_and!; [congruence|lia|lia|]. exists w2, ab2. naive_solver.
Qed.

Lemma ensures_pre {A} (m : M A) (P P' : Assert) Q :
  (∀ q n d, P q n d → P' q n d) → ensures P' m Q → ensures P m Q.
Proof. intros HP Hm s w ab Ht H'. refine (Hm s w ab Ht _). naive_solver. Qed.

Lemma ensures_post {A} (m : M A) P (Q Q' : A → Assert) :
  (∀ a q n d, Q' a q n d → Q a q n d) → ensures P m Q' → ensures P m Q.
Proof.
  intros HQ Hm s w ab Ht HP. specialize (Hm s w ab Ht HP). destruct (m s) as [s' r].
  destruct Hm as (Hd & Hq & Hn & w' & ab' & Ht' & H'). split_and!; [done..|]. exists w', ab'.
  split; [done|]. intros Ha. destruct (H' Ha) as (? & ? & ?). split_and!; [done..|].
  destruct r; auto.
Qed.

(** Facts that do not depend on the state survive. *)
Lemma ensures_frame {A} (φ : Prop) P (m : M A) Q :
  ensures P m Q → ensures (λ q n d, φ ∧ P q n d) m (λ a q n d, φ ∧ Q a q n d).
Proof.
  intros Hm s w ab Ht HP. specialize (Hm s w ab Ht). destruct ab.
  - specialize (Hm ltac:(done)). destruct (m s) as [s' r0].
    destruct Hm as (? & ? & ? & w' & ab' & ? & H'). split_and!; [done..|]. exists w', ab'.
    split; [done|]. intros Ha. by destruct (H' Ha).
  - destruct (HP eq_refl) as (? & ? & ?). specialize (Hm ltac:(done)). destruct (m s) as [s' r0].
    destruct Hm as (? & ? & ? & w' & ab' & ? & H'). split_and!; [done..|]. exists w', ab'.
    split; [done|]. intros Ha. destruct (H' Ha) as (? & ? & ?). split_and!; [done..|]. by destruct r0.
Qed.

(** The strongest postconditions of the primitive operations. *)
Lemma ensures_uuid (P : Assert) :
  ensures P uuid_New (λ a q n d, a = n - 1 ∧ P q (n - 1) d).
Proof.
  intros s w ab Ht HP. cbn. split_and!; [done|lia|lia|]. exists w, ab. split; [done|].
  intros Ha. destruct (HP Ha). split_and!; [done|done|lia|]. by replace (seed s + 1 - 1) with (seed s) by lia.
Qed.

Lemma ensures_nextval (P : Assert) :
  ensures P nextval (λ a q n d, a = q - 1 ∧ P (q - 1) n d).
Proof.
  intros s w ab Ht HP. cbn. split_and!; [done|lia|lia|]. exists w, ab. split; [done|].
  intros Ha. destruct (HP Ha). split_and!; [done|done|lia|].
  by replace (seq_next s + 1 - 1) with (seq_next s) by lia.
Qed.

Lemma ensures_time (P : Assert) : ensures P statement_time (λ a q n d, a = now ∧ P q n d).
Proof.
  intros s w ab Ht HP. cbn. split_and!; [done|lia|lia|]. exists w, ab. split; [done|].
  intros Ha. destruct (HP Ha). done.
Qed.

Lemma ensures_exec {A} (f : Time → DB → result DbError (DB * A)) P :
  ensures P (exec f) (λ a q n d', ∃ d, P q n d ∧ f now d = Ok (d', a)).
Proof.
  intros s w ab Ht HP. unfold exec. rewrite Ht. unfold round_trip.
  assert (∀ s1, db s1 = db s → clock s1 = clock s → seed s1 = seed s → seq_next s1 = seq_next s →
    txn s1 = txn s →
    let '(s', r) := if ab then (s1, Err (ErrDb (DbPg InFailedTransaction)))
      else match f (clock s) w with
           | Ok (d, a) => (with_txn s1 (Some (d, false)), Ok a)
           | Err e => (with_txn s1 (Some (w, true)), Err (ErrDb e))
           end in
    db s' = db s ∧ seq_next s ≤ seq_next s' ∧ seed s ≤ seed s' ∧
    ∃ w' ab', txn s' = Some (w', ab') ∧
      (ab' = false → ab = false ∧ clock s' = now ∧
         match r with
         | Ok a => ∃ d, P (seq_next s') (seed s') d ∧ f now d = Ok (w', a)
         | Err _ => True end)) as Hgo.
  { intros s1 Hd Hc Hs Hq Ht1. destruct ab.
    - split_and!; [done|lia|lia|]. exists w, true. by rewrite Ht1.
    - destruct (HP eq_refl) as [Hnow HPs]. rewrite Hnow.
      destruct (f now w) as [[d a]|e] eqn:Hf; cbn; (split_and!; [done|lia|lia|]);
        do 2 eexists; (split; [done|]); intros; [|done].
      split_and!; [done|congruence|]. exists w. rewrite Hs, Hq. done. }
  destruct (faults s) as [|[] fs]; cbn.
  - by apply Hgo.
  - split_and!; [done|lia|lia|]. by exists w, true.
  - by apply Hgo.
Qed.

Lemma ensures_map_err {A} f (m : M A) P Q : ensures P m Q → ensures P (map_err f m) Q.
Proof.
  intros Hm s w ab Ht HP. specialize (Hm s w ab Ht HP). unfold map_err.
  by destruct (m s) as [s' [a|e]].
Qed.

Lemma ensures_on_ledger (m : LedgerRepo.M unit) (P : Assert) (K : Store → Store → Prop) :
  (∀ st0, LedgerService.Books st0 → lensures now (start_at st0) m (λ _ n st, LedgerRepo.below n st ∧ K st0 st)) →
  (∀ q n d, P q n d → LedgerRepo.below n (ledger d) ∧ LedgerService.Books (ledger d)) →
  ensures P (on_ledger m) (λ _ q n d', ∃ d n0 st, P q n0 d ∧ d' = with_ledger d st ∧
    LedgerRepo.below n st ∧ K (ledger d) st).
Proof.
  intros Hm HP s w ab Ht HPs. unfold on_ledger. rewrite Ht.
  set (ls0 := LedgerRepo.mkSession _ _ _ _ _).
  assert (∀ st0, LedgerService.Books st0 → (ab = false → ledger w = st0 ∧ LedgerRepo.below (seed s) st0) →
    let '(ls, r) := m ls0 in
    seed s ≤ LedgerRepo.seed ls ∧ ∃ t', LedgerRepo.txn ls = Some t' ∧
      (LedgerRepo.aborted t' = false → ab = false ∧ LedgerRepo.clock ls = now ∧
       match r with Ok a => LedgerRepo.below (LedgerRepo.seed ls) (LedgerRepo.work t') ∧
         K st0 (LedgerRepo.work t') | Err _ => True end)) as Hgo.
  { intros st0 HB Hst. apply (Hm st0 HB ls0 (LedgerRepo.mkTx (ledger w) ab) eq_refl). cbn.
    intros Ha. destruct (HPs Ha) as [Hc _]. split; [done|]. destruct (Hst Ha) as [<- ?]. done. }
  assert (LedgerService.Books (mkStore [] [] [] [] ∅ [])) as Hempty.
  { split; [|done]. constructor; cbn; [by apply NoDup_nil|by apply NoDup_nil|by intros e ?%elem_of_nil|done|done|].
    split; [by intros e ?%elem_of_nil|done]. }
  destruct ab.
  - specialize (Hgo _ Hempty ltac:(done)). destruct (m ls0) as [ls r].
    destruct Hgo as (Hle & t' & Ht' & H'). rewrite Ht'. cbn. split_and!; [done|lia|done|].
    do 2 eexists. split; [done|]. intros Ha. by destruct (H' Ha).
  - destruct (HPs eq_refl) as [Hc HPw]. destruct (HP _ _ _ HPw) as [Hb HB].
    specialize (Hgo _ HB (λ _, conj eq_refl Hb)). destruct (m ls0) as [ls r].
    destruct Hgo as (Hle & t' & Ht' & H'). rewrite Ht'. cbn. split_and!; [done|lia|done|].
    do 2 eexists. split; [done|]. intros Ha. destruct (H' Ha) as (_ & _ & HK).
    split; [done|]. split; [done|]. destruct r as [[]|]; [|done]. destruct HK.
    exists w, (seed s), (LedgerRepo.work t'). done.
Qed.

(** A transaction takes effect as a whole or not at all. *)
Lemma withTx_atomic {A} (m : M A) (s : Session) (Q : A → Assert) :
  clock s = now →
  ensures (λ q n d, q = seq_next s ∧ n = seed s ∧ d = db s) m Q →
  txn s = None →
  let '(s', r) := withTx m s in
  txn s' = None ∧ seq_next s ≤ seq_next s' ∧ seed s ≤ seed s' ∧
  match r with
  | Ok a => Q a (seq_next s') (seed s') (db s')
  | Err _ => db s' = db s
  end.
Proof.
  intros Hc Hm Hn. unfold withTx, BeginTx, round_trip.
  assert (∀ s1, s1 = s ∨ (∃ fs, s1 = with_faults s fs) →
    let '(s', r) := match m (with_txn s1 (Some (db s, false))) with
      | (s2, Err e) => (with_txn s2 None, Err e)
      | (s2, Ok a) => match Commit s2 with
          | (s3, Ok _) => (s3, Ok a) | (s3, Err e) => (s3, Err e) end
      end in
    txn s' = None ∧ seq_next s ≤ seq_next s' ∧ seed s ≤ seed s' ∧
    match r with Ok a => Q a (seq_next s') (seed s') (db s') | Err _ => db s' = db s end) as Hgo.
  { intros s1 Hs1. specialize (Hm (with_txn s1 (Some (db s, false))) (db s) false eq_refl).
    assert (clock s1 = clock s ∧ db s1 = db s ∧ seed s1 = seed s ∧ seq_next s1 = seq_next s)
      as (E1 & E2 & E3 & E4) by (destruct Hs1 as [->|[fs ->]]; done).
    cbn in Hm. rewrite E1, E2, E3, E4 in Hm. specialize (Hm ltac:(done)).
    destruct (m _) as [s2 [a|e]]; destruct Hm as (Hd & Hq & Hs & w & ab & Ht & H').
    - unfold Commit, round_trip. rewrite Ht.
      destruct (faults s2) as [|[] fs]; cbn; try destruct ab; cbn; split_and!; try done;
        by apply H'.
    - done. }
  destruct (faults s) as [|[] fs]; cbn; [by apply Hgo; left| |apply Hgo; eauto].
  split_and!; [done|lia|lia|done].
Qed.

End ensures.

(** *** What the statements do *)

Section statements.
  Context `{DecimalOrderLaws}.
  Context (scan_numeric : Z → decimal).
  Context (scan_numeric_value : ∀ z, (value (scan_numeric z) == col z)%Q).

Lemma numeric_proper p a b : (a == b)%Q → numeric p a = numeric p b.
Proof. intros Heq. unfold numeric. by rewrite (half_away_proper _ (b * 100000000)%Q) by by rewrite Heq. Qed.

Lemma numeric_col p z w : numeric p (col z) = Ok w → w = z.
Proof.
  unfold numeric. rewrite (half_away_proper _ (inject_Z z)).
  - rewrite half_away_integer. by destruct (_ <? _); intros [= ->].
  - unfold col, inject_Z, Qeq. cbn. lia.
Qed.

Lemma live_vault_rows v d r : live_vault v d = Some r → rows d !! v = Some r ∧ live r = true.
Proof. unfold live_vault. destruct (rows d !! v) as [r0|]; [|done]. destruct (live r0) eqn:E; naive_solver. Qed.

(** What every update of the money paths keeps of a row. *)
Definition kept (r r' : VaultRow) : Prop :=
  RowUserID r' = RowUserID r ∧ SoftCapacity r' = SoftCapacity r ∧ DeletedAt r' = DeletedAt r.

Lemma set_kept now p f r r' :
  set_credit now p r = Ok r' ∨ set_debit now p r = Ok r' ∨
  set_harvest_compounded now p f r = Ok r' ∨ set_harvest_paid_out now p f r = Ok r' →
  kept r r'.
Proof.
  unfold set_credit, set_debit, set_harvest_compounded, set_harvest_paid_out.
  intros [Hs|[Hs|[Hs|Hs]]]; repeat (apply result_bind_ok in Hs as (? & ? & Hs)); by injection Hs as <-.
Qed.

Definition updated (v : Z) (f : VaultRow → result DbError VaultRow) (d : DB) (r r' : VaultRow)
    (d' : DB) : Prop :=
  live_vault v d = Some r ∧ f r = Ok r' ∧ check_row r' = true ∧
  d' = with_rows d (<[v := r']> (rows d)).

Lemma update_vault_ok v f d d' k :
  update_vault v f d = Ok (d', k) →
  (k = 0 ∧ d' = d ∧ live_vault v d = None) ∨ (k = 1 ∧ ∃ r r', updated v f d r r' d').
Proof.
  unfold update_vault. destruct (live_vault v d) as [r|] eqn:Hl; [|intros [= <- <-]; by left].
  intros (r' & Hf & Hc)%result_bind_ok. destruct (check_row r') eqn:E; [|done].
  injection Hc as <- <-. right. split; [done|]. exists r, r'. done.
Qed.

Definition tx_row (t : TxRow) (v : Z) (u : option Z) (ty : string) (amount : Q)
    (h : option string) (now : Time) (d : DB) : Prop :=
  TxVaultID t = v ∧ TxUserID t = u ∧ TxType t = ty ∧ numeric 48 amount = Ok (TxAmount t) ∧
  0 < TxAmount t ∧ TxHash t = h ∧ TxCreatedAt t = now ∧ v ∈ vaults (ledger d) ∧
  references u (users (ledger d)) = true.

Lemma insert_tx_ok b id v u ty amount h sh pr fee now d d' k :
  insert_tx b id v u ty amount h sh pr fee now d = Ok (d', k) →
  (k = 0 ∧ d' = d ∧ b = true ∧ hash_taken h d = true) ∨
  (k = 1 ∧ hash_taken h d = false ∧
   ∃ t, d' = with_txs d (txs d ++ [t]) ∧ tx_row t v u ty amount h now d).
Proof.
  unfold insert_tx. intros (a & Ha & (s & Hs & (p & Hp & (f & Hf & Hr)%result_bind_ok)%result_bind_ok)%result_bind_ok)%result_bind_ok.
  destruct (_ || _ || _ || _) eqn:Hc; [done|]. destruct (hash_taken h d) eqn:Hh.
  { destruct b; [|done]. injection Hr as <- <-. by left. }
  case_bool_decide; [|done]. cbn in Hr. destruct (references u _) eqn:Hu; [|done].
  injection Hr as <- <-. right. split; [done|]. split; [done|]. eexists. split; [done|].
  repeat (apply orb_false_iff in Hc as [Hc ?]). split_and!; try done. cbn. lia.
Qed.

Definition audit_row (e : AuditRow) (seq v u : Z) (op : string) (amount before after : Q)
    (ref : option string) : Prop :=
  Seq e = seq ∧ AuVaultID e = v ∧ AuUserID e = u ∧ AuOperation e = op ∧
  numeric 48 amount = Ok (AuAmount e) ∧ numeric 48 before = Ok (AuBefore e) ∧
  numeric 48 after = Ok (AuAfter e) ∧ AuChainReference e = ref.

Lemma insert_audit_ok id seq v u actor op amount before after ref md now d d' x :
  insert_audit id seq v u actor op amount before after ref md now d = Ok (d', x) →
  u ∈ users (ledger d) ∧
  ∃ e, d' = with_audit d (audit d ++ [e]) ∧ audit_row e seq v u op amount before after ref ∧
    AuActor e = actor ∧ AuCreatedAt e = now.
Proof.
  unfold insert_audit. intros (a & Ha & (b & Hb & (c & Hc & Hr)%result_bind_ok)%result_bind_ok)%result_bind_ok.
  destruct (existsb _ _); [done|]. case_bool_decide; [|done]. cbn in Hr.
  case_bool_decide; [|done]. injection Hr as <- _. split; [done|]. eexists. split; [done|]. done.
Qed.

Section contracts.
  Context (now : Time).

Lemma update_balances_sp v f P :
  ensures now P (update_balances v f)
    (λ _ q n d', ∃ d r r', P q n d ∧ updated v (f now) d r r' d').
Proof.
  eapply ensures_bind; [apply ensures_map_err, ensures_exec|]. intros k. cbn.
  destruct (Z.eqb_spec k 0); [apply ensures_throw|]. apply ensures_ret.
  intros q n' d' (d & HP & [(? & _)|(_ & r & r' & Hu)]%update_vault_ok); [done|]. eauto.
Qed.

Lemma insert_record_sp b v ty rec P :
  ensures now P (insert_record b v ty rec)
    (λ k q n d', ∃ d, P q (n - 1) d ∧
      ((k = 0 ∧ d' = d ∧ b = true ∧ hash_taken (nullif_empty (TransactionHash rec)) d = true) ∨
       (k = 1 ∧ hash_taken (nullif_empty (TransactionHash rec)) d = false ∧
        ∃ t, d' = with_txs d (txs d ++ [t]) ∧
          tx_row t v (Some (RecUserID rec)) ty (value (RecAmount rec))
            (nullif_empty (TransactionHash rec)) now d))).
Proof.
  eapply ensures_bind; [apply ensures_uuid|]. intros id.
  eapply ensures_post; [|apply ensures_map_err, ensures_exec].
  intros k q n d' (d & (_ & HP) & Hi%insert_tx_ok). eauto.
Qed.

Lemma insert_record_strict v ty rec P :
  ensures now P (insert_record false v ty rec)
    (λ _ q n d', ∃ d t, P q (n - 1) d ∧
       hash_taken (nullif_empty (TransactionHash rec)) d = false ∧
       d' = with_txs d (txs d ++ [t]) ∧
       tx_row t v (Some (RecUserID rec)) ty (value (RecAmount rec))
         (nullif_empty (TransactionHash rec)) now d).
Proof.
  eapply ensures_post; [|apply insert_record_sp]. cbn.
  intros _ q n d' (d & HP & [(_ & _ & ? & _)|(_ & Hh & t & Hd & Ht)]); [done|]. eauto 10.
Qed.

Lemma append_audit_sp entry P :
  ensures now P (appendBalanceAuditEntry entry)
    (λ e q n d', ∃ d n0 a, P (q - 1) n0 d ∧ n0 ≤ n ∧ d' = with_audit d (audit d ++ [a]) ∧
       UserID entry ∈ users (ledger d) ∧
       audit_row a (q - 1) (VaultID entry) (UserID entry) (Operation entry)
         (value (Amount entry)) (value (BalanceBefore entry)) (value (BalanceAfter entry))
         (nullif_empty (ChainReference entry)) ∧ AuActor a = Actor entry ∧ AuCreatedAt a = now).
Proof.
  unfold appendBalanceAuditEntry.
  eapply ensures_bind with (R := λ _ q n d, ∃ n0, n0 ≤ n ∧ P q n0 d).
  { destruct (_ =? 0).
    - eapply ensures_post; [|apply ensures_uuid]. cbn. intros _ q n d [_ HP]. exists (n - 1). split; [lia|done].
    - apply ensures_ret. intros q n d HP. exists n. split; [lia|done]. }
  intros id. eapply ensures_bind with (R := λ _ q n d, ∃ n0, n0 ≤ n ∧ P q n0 d).
  { destruct (Metadata entry) as [[b|]|]; [by apply ensures_ret|apply ensures_throw|by apply ensures_ret]. }
  intros md. cbv zeta. eapply ensures_bind; [apply ensures_nextval|]. intros seq.
  eapply ensures_bind; [apply ensures_exec|]. intros x.
  eapply ensures_bind; [apply ensures_time|]. intros t. apply ensures_ret. cbn.
  intros q n d' (_ & d & (-> & n0 & Hle & HP) & (Hu & a & Hd & Ha & Hac & Hcr)%insert_audit_ok).
  exists d, n0, a. split_and!; try done; apply Ha.
Qed.

End contracts.

(** *** What an operation does to the tables *)

(** [d] is [d0] after one operation on vault [v]: its row went from [r] to
    [r'], the transactions [ts] and the audit entries [au] were appended, and
    the ledger moved the vault's pool by [x]. *)
Record effect (v : Z) (d0 d : DB) (r r' : VaultRow) (ts : list TxRow) (au : list AuditRow)
    (x : Z) : Prop := {
  ef_live : live_vault v d0 = Some r;
  ef_check : check_row r' = true;
  ef_kept : kept r r';
  ef_rows : rows d = <[v := r']> (rows d0);
  ef_caps : daily_caps d = daily_caps d0;
  ef_txs : txs d = txs d0 ++ ts;
  ef_fresh : NoDup (omap TxHash ts) ∧ ∀ t, t ∈ ts → hash_taken (TxHash t) d0 = false;
  ef_audit : audit d = audit d0 ++ au;
  ef_ledger : moved (ledger d0) v x (ledger d);
}.

(** The state an operation starts from. *)
Definition at_start (q0 n0 : Z) (d0 : DB) (q n : Z) (d : DB) : Prop := q = q0 ∧ n = n0 ∧ d = d0.

Definition ledger_ok (n : Z) (d : DB) : Prop :=
  LedgerRepo.below n (ledger d) ∧ LedgerService.Books (ledger d).

Lemma fresh_one t d : hash_taken (TxHash t) d = false →
  NoDup (omap TxHash [t]) ∧ ∀ t', t' ∈ [t] → hash_taken (TxHash t') d = false.
Proof.
  intros Hh. split; [cbn; destruct (TxHash t); [apply NoDup_singleton|by apply NoDup_nil]|].
  by intros t' ->%list_elem_of_singleton.
Qed.

(** An audited movement of vault [v]: one update, one transaction row, one
    audit entry whose balances are those of the row. *)
Definition audited (v : Z) (f : VaultRow → result DbError VaultRow) (u : option Z) (ty : string)
    (amount : Q) (h : option string) (x q0 : Z) (d0 : DB) (q : Z) (d : DB) : Prop :=
  ∃ r r' t a, effect v d0 d r r' [t] [a] x ∧ f r = Ok r' ∧
    TxVaultID t = v ∧ TxUserID t = u ∧ TxType t = ty ∧ numeric 48 amount = Ok (TxAmount t) ∧
    0 < TxAmount t ∧ TxHash t = h ∧
    AuVaultID a = v ∧ AuBefore a = CurrentBalance r ∧ AuAfter a = CurrentBalance r' ∧
    q0 ≤ Seq a < q.

Lemma sub_numeric z amount w w' :
  numeric 48 (value (Sub (scan_numeric z) amount)) = Ok w →
  numeric 48 (col z - value amount)%Q = Ok w' → w = w'.
Proof.
  rewrite (numeric_proper _ _ (col z - value amount)%Q); [congruence|].
  by rewrite Sub_value, scan_numeric_value.
Qed.

Lemma add_numeric z amount w w' :
  numeric 48 (value (Add (scan_numeric z) amount)) = Ok w →
  numeric 48 (col z + value amount)%Q = Ok w' → w = w'.
Proof.
  rewrite (numeric_proper _ _ (col z + value amount)%Q); [congruence|].
  by rewrite Add_value, scan_numeric_value.
Qed.

Lemma scan_numeric_same z w : numeric 48 (value (scan_numeric z)) = Ok w → w = z.
Proof. rewrite (numeric_proper _ _ (col z)) by apply scan_numeric_value. apply numeric_col. Qed.

Lemma current_after now p f r r' :
  (set_credit now p r = Ok r' ∨ set_harvest_compounded now p f r = Ok r' →
     numeric 48 (col (CurrentBalance r) + p)%Q = Ok (CurrentBalance r')) ∧
  (set_debit now p r = Ok r' ∨ set_harvest_paid_out now p f r = Ok r' →
     numeric 48 (col (CurrentBalance r) - p)%Q = Ok (CurrentBalance r')).
Proof.
  unfold set_credit, set_debit, set_harvest_compounded, set_harvest_paid_out.
  split; intros [Hs|Hs]; repeat (apply result_bind_ok in Hs as (? & ? & Hs)); by injection Hs as <-.
Qed.

Section operations.
  Context (now q0 n0 : Z) (d0 : DB).
  Context (Hl : ledger_ok n0 d0).

Lemma read_balance v :
  ensures now (at_start q0 n0 d0) (exec (query (select_balance v)))
    (λ a q n d, a = CurrentBalance <$> live_vault v d0 ∧ at_start q0 n0 d0 q n d).
Proof.
  eapply ensures_post; [|apply ensures_exec]. cbn. intros a q n d (d1 & HP & [= <- <-]).
  pose proof HP as (_ & _ & ->). done.
Qed.

Lemma ensures_read {A} (f : Time → DB → A) (P : Assert) :
  ensures now P (exec (query f)) (λ _, P).
Proof.
  eapply ensures_post; [|apply ensures_exec]. cbn. by intros a q n d (d1 & HP & [= <- <-]).
Qed.

Lemma read_totals_sp u P : ensures now P (read_totals scan_numeric u) (λ _, P).
Proof.
  unfold read_totals. do 4 (eapply ensures_bind; [apply ensures_read|intros ?]). by apply ensures_ret.
Qed.

(** The audit entry of a movement [f] that changes the balance by [amount]. *)
Lemma audit_balances (f : Time → VaultRow → result DbError VaultRow) v r r' a seq u op after amount ref :
  (f now r = Ok r' → ∀ w, numeric 48 (value after) = Ok w → w = CurrentBalance r') →
  f now r = Ok r' →
  audit_row a seq v u op amount (value (scan_numeric (CurrentBalance r))) (value after) ref →
  AuVaultID a = v ∧ AuBefore a = CurrentBalance r ∧ AuAfter a = CurrentBalance r' ∧ Seq a = seq.
Proof.
  intros Hw Hf (Hs & Hv & _ & _ & _ & Hb & Ha & _). split_and!; [done| | |done].
  - by apply scan_numeric_same.
  - by apply Hw.
Qed.

Lemma audited_intro v f u ty amount h x r r' t a dx st q d :
  live_vault v d0 = Some r → f r = Ok r' → check_row r' = true → kept r r' →
  hash_taken h d0 = false → tx_row t v u ty amount h now dx →
  AuVaultID a = v ∧ AuBefore a = CurrentBalance r ∧ AuAfter a = CurrentBalance r' ∧ Seq a = q0 →
  q = q0 + 1 → moved (ledger d0) v x st →
  d = mkDB (<[v := r']> (rows d0)) (daily_caps d0) (txs d0 ++ [t]) (audit d0 ++ [a]) st →
  audited v f u ty amount h x q0 d0 q d.
Proof.
  intros Hr Hf Hc Hk Hh (T1 & T2 & T3 & T4 & T5 & T6 & _) (A1 & A2 & A3 & A4) -> Hm ->.
  exists r, r', t, a. split; [|split_and!; try done; lia].
  constructor; try done. apply fresh_one. by rewrite T6.
Qed.

(** Everything before the ledger posting leaves the ledger alone. *)
Lemma before_ledger (P : Assert) :
  (∀ q n d, P q n d → n0 ≤ n ∧ ledger d = ledger d0) →
  ∀ q n d, P q n d → LedgerRepo.below n (ledger d) ∧ LedgerService.Books (ledger d).
Proof.
  intros HP q n d [Hle ->]%HP. destruct Hl. split; [|done]. by eapply LedgerRepo.below_le.
Qed.

(** The common tail of the audited deposits and withdrawals. *)
Lemma audited_tail v f rec ty tmpl raw after r post x :
  live_vault v d0 = Some r → raw = CurrentBalance r →
  (∀ r', f now r = Ok r' → kept r r' ∧
     ∀ w, numeric 48 (value after) = Ok w → w = CurrentBalance r') →
  (∀ st0, LedgerService.Books st0 → lensures now (start_at st0) post
     (λ _ n st, LedgerRepo.below n st ∧ moved st0 v x st)) →
  ensures now (at_start q0 n0 d0)
    (update_balances v f ;;
     insert_record false v ty rec ;;
     inserted ← appendBalanceAuditEntry (fill_template tmpl v (scan_numeric raw) after);
     on_ledger post ;;
     mret inserted)
    (λ _ q n d, LedgerRepo.below n (ledger d) ∧
       audited v (f now) (Some (RecUserID rec)) ty (value (RecAmount rec))
         (nullif_empty (TransactionHash rec)) x q0 d0 q d).
Proof.
  intros Hv -> Hf Hpost. eapply ensures_bind; [apply update_balances_sp|intros ?y].
  eapply ensures_bind; [apply insert_record_strict|intros ?y].
  eapply ensures_bind; [apply append_audit_sp|intros e].
  eapply ensures_bind; [apply ensures_on_ledger; [exact Hpost|apply before_ledger]|intros ?y].
  - intros q n d (d2 & n2 & a & (d1 & t & (d' & r1 & r' & (_ & Hn & Hd) & Hu) & _ & -> & _)
      & Hle & -> & _). destruct Hu as (_ & _ & _ & ->). cbn. split; [lia|by rewrite Hd].
  - apply ensures_ret.
    intros q n d (d3 & n3 & st & (d2 & n2 & a & (d1 & t & (d' & r1 & r' & (Hq & Hn & Hd) & Hu)
      & Hh & -> & Ht) & Hle & -> & _ & Ha & _) & -> & Hb & Hm).
    split; [done|]. subst d'. destruct Hu as (Hr & Hset & Hc & ->). rewrite Hv in Hr. injection Hr as <-.
    cbn in Hh, Ha, Hm.
    destruct (Hf _ Hset) as [Hk Hw].
    eapply audited_intro; try done; [|lia].
    rewrite <- Hq. by apply (audit_balances f v r r' _ _ _ _ after _ _ (λ _, Hw) Hset Ha).
Qed.

Lemma RecordDepositWithAudit_body v rec check tmpl raw r :
  live_vault v d0 = Some r → raw = CurrentBalance r →
  ensures now (at_start q0 n0 d0)
    (check_caps scan_numeric check (RecUserID rec) ;;
     update_balances v (λ now, set_credit now (value (RecAmount rec))) ;;
     insert_record false v "deposit" rec ;;
     inserted ← appendBalanceAuditEntry (fill_template tmpl v (scan_numeric raw)
                  (Add (scan_numeric raw) (RecAmount rec)));
     on_ledger (postDepositLedgerTx v (RecUserID rec) (RecAmount rec) (TransactionHash rec)) ;;
     mret inserted)
    (λ _ q n d, (∀ c, check = Some c →
         c (scan_numeric (user_total (RecUserID rec) d0)) (scan_numeric (global_total d0)) = None) ∧
       LedgerRepo.below n (ledger d) ∧
       audited v (set_credit now (value (RecAmount rec))) (Some (RecUserID rec)) "deposit"
         (value (RecAmount rec)) (nullif_empty (TransactionHash rec))
         (positive (VaultRepo.decimalToStroops (RecAmount rec))) q0 d0 q d).
Proof.
  intros Hv Hraw. apply (ensures_bind _ _ _ _ (λ _ q n d, (∀ c, check = Some c →
    c (scan_numeric (user_total (RecUserID rec) d0)) (scan_numeric (global_total d0)) = None) ∧
    at_start q0 n0 d0 q n d)).
  { destruct check as [check|]; cbn; [|by apply ensures_ret].
    apply (ensures_bind _ _ _ _ (λ t q n d, at_start q0 n0 d0 q n d ∧
      t = (scan_numeric (user_total (RecUserID rec) d0), scan_numeric (global_total d0)))).
    - unfold read_totals. do 2 (eapply ensures_bind; [apply ensures_read|intros ?y]).
      apply (ensures_bind _ _ _ _ (λ t q n d, at_start q0 n0 d0 q n d ∧ t = user_total (RecUserID rec) d0)).
      { eapply ensures_post; [|apply ensures_exec]. cbn.
        intros a q n d (d1 & HP & [= <- <-]). pose proof HP as (_ & _ & ->). done. }
      intros a. apply (ensures_bind _ _ _ _ (λ t q n d, (at_start q0 n0 d0 q n d ∧
        a = user_total (RecUserID rec) d0) ∧ t = global_total d0)).
      { eapply ensures_post; [|apply ensures_exec]. cbn.
        intros b q n d (d1 & [HP ->] & [= <- <-]). pose proof HP as (_ & _ & ->). done. }
      intros b. apply ensures_ret. intros q n d [[HP ->] ->]. done.
    - intros t. apply ensures_of_option. intros Hc q n d [HP ->]. split; [|done].
      intros c [= <-]. cbn in Hc. by destruct (check _ _). }
  intros ?y.
  eapply ensures_post; [|apply ensures_frame, (audited_tail v (λ now, set_credit now (value (RecAmount rec)))
    rec "deposit" tmpl raw (Add (scan_numeric raw) (RecAmount rec)) r); [exact Hv|exact Hraw| |]].
  - exact (λ _ _ _ _ HQ, HQ).
  - intros r' Hs. split; [by eapply (set_kept now _ 0%Q); left|]. intros w Hw. subst raw.
    eapply add_numeric; [done|]. apply (current_after now _ 0%Q r r'). by left.
  - intros st0 HB. by apply postDeposit_moves.
Qed.

Lemma RecordWithdrawalWithAudit_body v rec tmpl raw r :
  live_vault v d0 = Some r → raw = CurrentBalance r →
  ensures now (at_start q0 n0 d0)
    (update_balances v (λ now, set_debit now (value (RecAmount rec))) ;;
     insert_record false v "withdrawal" rec ;;
     inserted ← appendBalanceAuditEntry (fill_template tmpl v (scan_numeric raw)
                  (Sub (scan_numeric raw) (RecAmount rec)));
     on_ledger (postWithdrawalLedgerTx v (RecUserID rec) (RecAmount rec) (TransactionHash rec)) ;;
     mret inserted)
    (λ _ q n d, LedgerRepo.below n (ledger d) ∧
       audited v (set_debit now (value (RecAmount rec))) (Some (RecUserID rec)) "withdrawal"
         (value (RecAmount rec)) (nullif_empty (TransactionHash rec))
         (- positive (VaultRepo.decimalToStroops (RecAmount rec))) q0 d0 q d).
Proof.
  intros Hv Hraw. apply (audited_tail v (λ now, set_debit now (value (RecAmount rec)))
    rec "withdrawal" tmpl raw _ r); [exact Hv|exact Hraw| |].
  - intros r' Hs. split; [by eapply (set_kept now _ 0%Q); right; left|]. intros w Hw. subst raw.
    eapply sub_numeric; [done|]. apply (current_after now _ 0%Q r r'). by left.
  - intros st0 HB. by apply postWithdrawal_moves.
Qed.

Definition harvest_set (input : HarvestRecordInput) (now : Time) : VaultRow → result DbError VaultRow :=
  if Compounded input
  then set_harvest_compounded now (value (NetYield input)) (value (PerformanceFee input))
  else set_harvest_paid_out now (value (NetYield input)) (value (PerformanceFee input)).

Definition harvest_stroops (input : HarvestRecordInput) : Z :=
  if (VaultRepo.decimalToStroops (NetYield input) <=? 0) &&
     (VaultRepo.decimalToStroops (PerformanceFee input) <=? 0) then 0
  else VaultRepo.decimalToStroops (NetYield input).

Lemma update_harvest_sp input P :
  ensures now P (update_harvest input)
    (λ _ q n d', ∃ d r r', P q n d ∧ updated (HarvestVaultID input) (harvest_set input now) d r r' d').
Proof. unfold update_harvest, harvest_set. destruct (Compounded input); apply update_balances_sp. Qed.

Lemma insert_harvest_sp input P :
  ensures now P (insert_harvest input)
    (λ _ q n d', ∃ d t, P q (n - 1) d ∧ hash_taken (nullif_empty (HarvestTxHash input)) d = false ∧
       d' = with_txs d (txs d ++ [t]) ∧
       tx_row t (HarvestVaultID input) (Some (HarvestUserID input)) "harvest"
         (value (NetYield input)) (nullif_empty (HarvestTxHash input)) now d).
Proof.
  eapply ensures_bind; [apply ensures_uuid|]. intros id.
  eapply ensures_post; [|apply ensures_map_err, ensures_exec]. cbn.
  intros k q n d' (d & (_ & HP) & [(_ & _ & ? & _)|(_ & Hh & t & Hd & Ht)]%insert_tx_ok); [done|].
  eauto 10.
Qed.

Lemma harvest_set_facts input r r' :
  harvest_set input now r = Ok r' →
  kept r r' ∧
  numeric 48 (if Compounded input then col (CurrentBalance r) + value (NetYield input)
              else col (CurrentBalance r) - value (NetYield input))%Q = Ok (CurrentBalance r').
Proof.
  unfold harvest_set. destruct (Compounded input); intros Hs; split;
    try (by eapply set_kept; eauto); by eapply (current_after now); eauto.
Qed.

Lemma RecordHarvestWithAudit_body input tmpl raw r :
  live_vault (HarvestVaultID input) d0 = Some r → raw = CurrentBalance r →
  ensures now (at_start q0 n0 d0)
    (update_harvest input ;;
     insert_harvest input ;;
     inserted ← appendBalanceAuditEntry (fill_template tmpl (HarvestVaultID input)
       (scan_numeric raw) (if Compounded input then Add (scan_numeric raw) (NetYield input)
                           else Sub (scan_numeric raw) (NetYield input)));
     post_harvest input ;;
     mret inserted)
    (λ _ q n d, LedgerRepo.below n (ledger d) ∧
       audited (HarvestVaultID input) (harvest_set input now) (Some (HarvestUserID input)) "harvest"
         (value (NetYield input)) (nullif_empty (HarvestTxHash input)) (harvest_stroops input)
         q0 d0 q d).
Proof.
  intros Hv ->. set (after := if Compounded input then _ else _).
  eapply ensures_bind; [apply update_harvest_sp|intros ?y].
  eapply ensures_bind; [apply insert_harvest_sp|intros ?y].
  eapply ensures_bind; [apply append_audit_sp|intros ?y].
  eapply ensures_bind; [apply ensures_on_ledger;
    [intros st0 HB; by apply postHarvest_moves|apply before_ledger]|intros ?y].
  - intros q n d (d2 & n2 & a & (d1 & t & (d' & r1 & r' & (_ & Hn & Hd) & Hu) & _ & -> & _)
      & Hle & -> & _). destruct Hu as (_ & _ & _ & ->). cbn. split; [lia|by rewrite Hd].
  - apply ensures_ret.
    intros q n d (d3 & n3 & st & (d2 & n2 & a & (d1 & t & (d' & r1 & r' & (Hq & Hn & Hd) & Hu)
      & Hh & -> & Ht) & Hle & -> & _ & Ha & _) & -> & Hb & Hm).
    split; [done|]. subst d'. destruct Hu as (Hr & Hset & Hc & ->). rewrite Hv in Hr. injection Hr as <-.
    cbn in Hh, Ha, Hm. destruct (harvest_set_facts _ _ _ Hset) as [Hk Hw].
    eapply audited_intro; try done; [|lia]. rewrite <- Hq.
    apply (audit_balances (harvest_set input) _ r r' _ _ _ _ after _ _) with (2 := Hset) (3 := Ha).
    intros _ w. unfold after. destruct (Compounded input);
      [intros Hx; by eapply add_numeric|intros Hx; by eapply sub_numeric].
Qed.

(** Confirmed movements claim their hash first. *)
Definition confirmed_set (txType : string) (amount : decimal) (now : Time)
  : VaultRow → result DbError VaultRow := λ r,
  if txType =s? "deposit" then set_credit now (value amount) r else set_debit now (value amount) r.

Definition confirmed_stroops (txType : string) (userID : Z) (amount : decimal) : Z :=
  if userID =? 0 then 0
  else if txType =s? "deposit" then positive (VaultRepo.decimalToStroops amount)
  else - positive (VaultRepo.decimalToStroops amount).

Definition confirmed_user (userID : Z) : option Z := if negb (userID =? 0) then Some userID else None.

Lemma confirmed_set_facts txType amount r r' :
  confirmed_set txType amount now r = Ok r' →
  kept r r' ∧
  numeric 48 (if txType =s? "deposit" then col (CurrentBalance r) + value amount
              else col (CurrentBalance r) - value amount)%Q = Ok (CurrentBalance r').
Proof.
  unfold confirmed_set. destruct (_ =s? _); intros Hs;
    (split; [by eapply (set_kept now _ 0%Q); eauto|by eapply (current_after now _ 0%Q); eauto]).
Qed.

Context (uuid_String : Z → string).

Definition confirmed_body (id userID : Z) (amount : decimal) (txHash txType : string)
    (capCheck : CapCheck) : M (option Caps.CapErr) :=
  rowID ← uuid_New;
  inserted ← map_err mapRepositoryError (exec (insert_tx true rowID id
    (confirmed_user userID) txType (value amount) (Some txHash) None None None));
  if inserted =? 0 then mret None
  else
    row ← exec (query (select_balance id));
    match row with
    | None => throw ErrVaultNotFound
    | Some raw =>
        let before := scan_numeric raw in
        capWarning ← cap_warning scan_numeric txType capCheck userID;
        update_balances id (λ now, confirmed_set txType amount now) ;;
        let after := if txType =s? "deposit" then Add before amount else Sub before amount in
        let auditOp := if txType =s? "deposit" then "deposit"%string else "withdrawal"%string in
        let actor := if negb (userID =? 0) then uuid_String userID
                     else SystemActor "chain_confirmation" in
        appendBalanceAuditEntry
          (mkAuditEntry 0 0 id userID actor auditOp amount before after txHash None 0) ;;
        (if negb (userID =? 0) then
           if txType =s? "deposit"
           then on_ledger (postDepositLedgerTx id userID amount txHash)
           else on_ledger (postWithdrawalLedgerTx id userID amount txHash)
         else mret ()) ;;
        mret capWarning
    end.

(** The tables once the hash is claimed: [t] appended, nothing else. *)
Definition claimed (v u : Z) (ty : string) (amount : decimal) (h : string) (q n : Z) (d : DB) : Prop :=
  q = q0 ∧ n0 ≤ n ∧ hash_taken (Some h) d0 = false ∧
  ∃ t, d = with_txs d0 (txs d0 ++ [t]) ∧
    tx_row t v (confirmed_user u) ty (value amount) (Some h) now d0.

Lemma cap_warning_sp ty check u P : ensures now P (cap_warning scan_numeric ty check u) (λ _, P).
Proof.
  unfold cap_warning. destruct check as [c|]; [|by apply ensures_ret].
  destruct (_ && _); [|by apply ensures_ret].
  eapply ensures_bind; [apply read_totals_sp|intros ?y]. by apply ensures_ret.
Qed.

Lemma confirmed_posting u ty v amount h (P : Assert) :
  (∀ q n d, P q n d → n0 ≤ n ∧ ledger d = ledger d0) →
  ensures now P
    (if negb (u =? 0) then
       if ty =s? "deposit" then on_ledger (postDepositLedgerTx v u amount h)
       else on_ledger (postWithdrawalLedgerTx v u amount h)
     else mret ())
    (λ _ q n d', ∃ d n1 st, P q n1 d ∧ d' = with_ledger d st ∧ LedgerRepo.below n st ∧
       moved (ledger d) v (confirmed_stroops ty u amount) st).
Proof.
  intros HP. unfold confirmed_stroops. destruct (Z.eqb_spec u 0); cbn [negb].
  - apply ensures_ret. intros q n d HPd. exists d, n, (ledger d). destruct (HP _ _ _ HPd) as [Hle Hd].
    split_and!; [done|by destruct d| |].
    + rewrite Hd. eapply LedgerRepo.below_le; [apply Hl|done].
    + rewrite Hd. apply moved_none, Hl.
  - destruct (ty =s? "deposit");
      (apply (ensures_on_ledger now _ _ (λ st0 st, moved st0 v _ st)); [|by apply before_ledger]);
      intros st0 HB; [by apply postDeposit_moves|by apply postWithdrawal_moves].
Qed.

Lemma confirmed_body_spec v u amount h ty check :
  ensures now (at_start q0 n0 d0) (confirmed_body v u amount h ty check)
    (λ w q n d, (w = None ∧ d = d0 ∧ LedgerRepo.below n (ledger d) ∧ q = q0 ∧ hash_taken (Some h) d0 = true) ∨
       (LedgerRepo.below n (ledger d) ∧ u ∈ users (ledger d0) ∧
        hash_taken (Some h) d0 = false ∧
        audited v (confirmed_set ty amount now) (confirmed_user u) ty (value amount) (Some h)
          (confirmed_stroops ty u amount) q0 d0 q d)).
Proof.
  unfold confirmed_body. eapply ensures_bind; [apply ensures_uuid|intros ?y].
  eapply ensures_bind with (R := λ k q n d,
    (k = 0 ∧ q = q0 ∧ n0 ≤ n ∧ d = d0 ∧ hash_taken (Some h) d0 = true) ∨ (k = 1 ∧ claimed v u ty amount h q n d)).
  { eapply ensures_post; [|apply ensures_map_err, ensures_exec]. cbn.
    intros k q n d (d1 & (_ & Hq & Hn & Hd) & [(-> & -> & _ & Hh)|(-> & Hh & t & -> & Ht)]%insert_tx_ok);
      rewrite Hd in *.
    - left. split_and!; try done; lia.
    - right. split; [done|]. split; [done|]. split; [lia|]. split; [done|]. eauto. }
  intros k. destruct (Z.eqb_spec k 0) as [->|Hk].
  { apply ensures_ret. intros q n d [(_ & Hq & Hn & Hd & Hh)|[? _]]; [|done]. left.
    rewrite Hd. split_and!; try done. eapply LedgerRepo.below_le; [apply Hl|done]. }
  apply ensures_pre with (P' := claimed v u ty amount h); [intros q n d [[? _]|[_ ?]]; done|].
  eapply ensures_bind with (R := λ a q n d, a = CurrentBalance <$> live_vault v d0 ∧ claimed v u ty amount h q n d).
  { eapply ensures_post; [|apply ensures_exec]. cbn. intros a q n d (d1 & HP & [= <- <-]).
    split; [|done]. by destruct HP as (_ & _ & _ & t & -> & _). }
  intros [raw|]; [|apply ensures_throw]. cbv zeta.
  eapply ensures_bind; [apply cap_warning_sp|intros w].
  eapply ensures_bind; [apply update_balances_sp|intros ?y].
  eapply ensures_bind; [apply append_audit_sp|intros ?y].
  eapply ensures_bind; [apply confirmed_posting|intros ?y].
  - intros q n d (d2 & n2 & a & (d1 & r & r' & (_ & _ & Hn & _ & t & Hd & _) & (_ & _ & _ & ->))
      & Hle & -> & _). cbn. split; [lia|by rewrite Hd].
  - apply ensures_ret.
    intros q n d (d3 & n3 & st & (d2 & n2 & a & (d1 & r & r' & (Hraw & Hq & Hn & Hh & t & Hd & Ht)
      & (Hr & Hset & Hc & ->)) & Hle & -> & Hu & Ha & _) & -> & Hb & Hm).
    right. split; [done|]. cbn in Hu, Ha, Hm. rewrite Hd in *. cbn in Hm, Hu.
    split; [done|]. split; [done|].
    change (live_vault v (with_txs d0 (txs d0 ++ [t]))) with (live_vault v d0) in Hr.
    rewrite Hr in Hraw. cbn in Hraw. injection Hraw as ->.
    destruct (confirmed_set_facts _ _ _ _ Hset) as [Hk' Hw].
    eapply audited_intro; try done; [|lia]. rewrite <- Hq.
    apply (audit_balances (confirmed_set ty amount) v r r' _ _ _ _ _ _ _) with (2 := Hset) (3 := Ha).
    intros _ w'. destruct (ty =s? "deposit"); intros Hx; [by eapply add_numeric|by eapply sub_numeric].
Qed.

End operations.

(** *** What every operation keeps *)

(** [d] came from [d0] by operations that only write rows the constraints
    accept, append transactions with unclaimed hashes, and post balanced
    movements. *)
Record change (d0 d : DB) : Prop := {
  ch_rows id r : rows d !! id = Some r →
    rows d0 !! id = Some r ∨ (check_row r = true ∧ is_Some (rows d0 !! id));
  ch_txs : ∃ ts, txs d = txs d0 ++ ts ∧ NoDup (omap TxHash ts) ∧
    ∀ t, t ∈ ts → hash_taken (TxHash t) d0 = false;
  ch_books : LedgerService.Books (ledger d0) → LedgerService.Books (ledger d);
  ch_ids : vaults (ledger d) = vaults (ledger d0) ∧ users (ledger d) = users (ledger d0);
  ch_positions : PositionsArePool (ledger d0) → PositionsArePool (ledger d);
}.

Lemma change_same d0 d : rows d = rows d0 → txs d = txs d0 → ledger d = ledger d0 → change d0 d.
Proof.
  intros Hr Ht Hl. constructor; rewrite ?Hr, ?Ht, ?Hl; try done; [by left|].
  exists []. rewrite app_nil_r. split_and!; [done|by apply NoDup_nil|by intros t ?%elem_of_nil].
Qed.

Lemma hash_taken_false h d :
  hash_taken h d = false ↔ ∀ t x, t ∈ txs d → h = Some x → TxHash t ≠ Some x.
Proof.
  unfold hash_taken. destruct h as [x|]; [|naive_solver]. rewrite existsb_none. split.
  - intros Hf t y Ht [= <-] He. specialize (Hf t Ht). by apply bool_decide_eq_false in Hf.
  - intros Hf t Ht. apply bool_decide_eq_false. by apply Hf.
Qed.

Lemma change_trans d0 d1 d2 : change d0 d1 → change d1 d2 → change d0 d2.
Proof.
  intros [R1 (ts1 & T1 & N1 & F1) B1 [V1 U1] P1] [R2 (ts2 & T2 & N2 & F2) B2 [V2 U2] P2].
  constructor; [|..|auto]; [| |auto|split; congruence].
  - intros id r Hr. destruct (R2 id r Hr) as [Hr1|[Hc [x Hx]]]; [by apply R1|]. right.
    split; [done|]. destruct (R1 id x Hx) as [?|[_ ?]]; [by eexists|done].
  - exists (ts1 ++ ts2). split; [by rewrite T2, T1, app_assoc|].
    assert (∀ t x, t ∈ ts2 → TxHash t = Some x → ∀ t', t' ∈ txs d0 ++ ts1 → TxHash t' ≠ Some x) as Hsep.
    { intros t x Ht Hx t' Ht'. specialize (F2 t Ht). rewrite hash_taken_false in F2.
      apply (F2 t' x); [by rewrite T1|done]. }
    split.
    + rewrite omap_app. apply NoDup_app. split_and!; [done| |done].
      intros x (t1 & Ht1 & Hx1)%list_elem_of_omap (t2 & Ht2 & Hx2)%list_elem_of_omap.
      eapply (Hsep t2 x Ht2 Hx2 t1); [|done]. apply elem_of_app. by right.
    + intros t [Ht|Ht]%elem_of_app; [auto|]. apply hash_taken_false. intros t' x Ht' Hx.
      eapply Hsep; [done|done|]. apply elem_of_app. by left.
Qed.

Lemma update_change v f d d' k : update_vault v f d = Ok (d', k) → change d d' ∧ ledger d' = ledger d.
Proof.
  intros [(_ & -> & _)|(_ & r & r' & (Hl & _ & Hc & ->))]%update_vault_ok;
    [split; [by apply change_same|done]|]. split; [|done].
  apply live_vault_rows in Hl as [Hr _]. constructor; cbn; try done.
  - intros id x Hx. destruct (decide (id = v)) as [->|Hne].
    + rewrite lookup_insert_eq in Hx. injection Hx as <-. right. split; [done|by eexists].
    + rewrite lookup_insert_ne in Hx by done. by left.
  - exists []. rewrite app_nil_r. split_and!; [done|by apply NoDup_nil|by intros t ?%elem_of_nil].
Qed.

Lemma insert_change b id v u ty amount h sh pr fee now d d' k :
  insert_tx b id v u ty amount h sh pr fee now d = Ok (d', k) → change d d' ∧ ledger d' = ledger d.
Proof.
  intros [(_ & -> & _)|(_ & Hh & t & -> & Ht)]%insert_tx_ok; [split; [by apply change_same|done]|].
  split; [|done]. constructor; cbn; try done; [by left|]. exists [t]. split; [done|].
  destruct Ht as (_ & _ & _ & _ & _ & Hht & _). subst h. by apply fresh_one.
Qed.

(** An assertion that every statement of the repository's programs keeps. *)
Record stable (now : Time) (K : Assert) : Prop := {
  st_ledger_ok q n d : K q n d → ledger_ok n d;
  st_next q n q' n' d : K q n d → q ≤ q' → n ≤ n' → K q' n' d;
  st_update q n d v f d' k : K q n d → update_vault v f d = Ok (d', k) → K q n d';
  st_insert q n d b id v u ty amount h sh pr fee d' k :
    K q n d → insert_tx b id v u ty amount h sh pr fee now d = Ok (d', k) → K q n d';
  st_audit q n d a : K q n d → K q n (with_audit d (audit d ++ [a]));
  st_post q n n' d v x st :
    K q n d → moved (ledger d) v x st → LedgerRepo.below n' st → K q n' (with_ledger d st);
}.

Section keeps.
  Context (now : Time) (K : Assert) (HK : stable now K).

Lemma keep_query {A} (f : Time → DB → A) : ensures now K (exec (query f)) (λ _, K).
Proof.
  eapply ensures_post; [|apply ensures_exec]. cbn. by intros a q n d (d1 & HP & [= <- <-]).
Qed.

Lemma keep_update {f v} : ensures now K (exec (λ now d, update_vault v (f now) d)) (λ _, K).
Proof.
  eapply ensures_post; [|apply ensures_exec]. cbn. intros a q n d (d1 & HP & Hu).
  by eapply (st_update _ _ HK).
Qed.

Lemma keep_insert b id v u ty amount h sh pr fee :
  ensures now K (exec (insert_tx b id v u ty amount h sh pr fee)) (λ _, K).
Proof.
  eapply ensures_post; [|apply ensures_exec]. cbn. intros a q n d (d1 & HP & Hu).
  by eapply (st_insert _ _ HK).
Qed.

Lemma keep_uuid : ensures now K uuid_New (λ _, K).
Proof.
  eapply ensures_post; [|apply ensures_uuid]. cbn. intros _ q n d (_ & HP).
  eapply (st_next _ _ HK); [exact HP|lia|lia].
Qed.

Lemma keep_ledger m v x :
  (∀ st0, LedgerService.Books st0 →
     lensures now (start_at st0) m (λ _ n st, LedgerRepo.below n st ∧ moved st0 v x st)) →
  ensures now K (on_ledger m) (λ _, K).
Proof.
  intros Hm. eapply ensures_post; [|apply (ensures_on_ledger now m K (λ st0 st, moved st0 v x st) Hm)].
  - intros _ q n d (d1 & n1 & st & HP & -> & Hb & Hmv). by eapply (st_post _ _ HK).
  - intros q n d HP. by apply (st_ledger_ok _ _ HK q).
Qed.

Lemma keep_update_balances v f : ensures now K (update_balances v f) (λ _, K).
Proof.
  apply (ensures_bind now _ _ _ (λ _, K)); [apply ensures_map_err, keep_update|].
  intros k. destruct (k =? 0); [apply ensures_throw|by apply ensures_ret].
Qed.

Lemma keep_audit e : ensures now K (appendBalanceAuditEntry e) (λ _, K).
Proof.
  eapply ensures_post; [|apply append_audit_sp]. cbn.
  intros _ q n d (d1 & n1 & a & HP & Hle & -> & _). apply (st_audit _ _ HK).
  eapply (st_next _ _ HK); [exact HP|lia|lia].
Qed.

Lemma keep_record b v ty rec : ensures now K (insert_record b v ty rec) (λ _, K).
Proof.
  apply (ensures_bind now _ _ _ (λ _, K)); [apply keep_uuid|].
  intros id. apply ensures_map_err, keep_insert.
Qed.

Lemma keep_totals u : ensures now K (read_totals scan_numeric u) (λ _, K).
Proof. apply read_totals_sp. Qed.

Lemma keep_harvest input : ensures now K (update_harvest input) (λ _, K).
Proof. unfold update_harvest. destruct (Compounded input); apply keep_update_balances. Qed.

Lemma keep_harvest_row input : ensures now K (insert_harvest input) (λ _, K).
Proof.
  apply (ensures_bind now _ _ _ (λ _, K)); [apply keep_uuid|].
  intros id. apply ensures_map_err, keep_insert.
Qed.

End keeps.

(** The tables stay in order. *)
Definition Kept (d0 : DB) : Assert := λ _ n d, LedgerRepo.below n (ledger d) ∧ change d0 d.

Lemma Kept_stable now d0 : LedgerService.Books (ledger d0) → stable now (Kept d0).
Proof.
  intros HB0. constructor.
  - intros q n d [Hb Hc]. split; [done|]. by apply (ch_books _ _ Hc).
  - intros q n q' n' d [Hb Hc] _ Hn. split; [by eapply LedgerRepo.below_le|done].
  - intros q n d v f d' k [Hb Hc] [Hch Hld]%update_change.
    split; [by rewrite Hld|by eapply change_trans].
  - intros q n d b id v u ty amount h sh pr fee d' k [Hb Hc] [Hch Hld]%insert_change.
    split; [by rewrite Hld|by eapply change_trans].
  - intros q n d a [Hb Hc]. split; [done|]. eapply change_trans; [done|by apply change_same].
  - intros q n n' d v x st [_ Hc] Hmv Hb. split; [done|].
    eapply change_trans; [done|]. constructor; cbn; [by left| |..].
    + exists []. rewrite app_nil_r. split_and!; [done|by apply NoDup_nil|by intros t ?%elem_of_nil].
    + intros _. apply Hmv.
    + split; apply Hmv.
    + intros HP w. destruct (moved_sums _ _ _ _ Hmv w) as [-> ->]. by rewrite (HP w).
Qed.

(** A hash stays taken. *)
Definition Taken (d0 : DB) (h : string) : Assert := λ q n d,
  Kept d0 q n d ∧ hash_taken (Some h) d = true.

Lemma taken_more h d d' ts : txs d' = txs d ++ ts → hash_taken (Some h) d = true → hash_taken (Some h) d' = true.
Proof. unfold hash_taken. intros ->. rewrite existsb_app. by intros ->. Qed.

Lemma Taken_stable now d0 h : LedgerService.Books (ledger d0) → stable now (Taken d0 h).
Proof.
  intros HB0. pose proof (Kept_stable now d0 HB0) as HK. constructor.
  - intros q n d [Hb _]. by apply (st_ledger_ok _ _ HK q).
  - intros q n q' n' d [Hb Hh] Hq Hn. split; [by eapply (st_next _ _ HK)|done].
  - intros q n d v f d' k [Hb Hh] Hu. split; [by eapply (st_update _ _ HK)|].
    apply update_vault_ok in Hu as [(_ & -> & _)|(_ & r & r' & (_ & _ & _ & ->))]; done.
  - intros q n d b id v u ty amount h' sh pr fee d' k [Hb Hh] Hi. split; [by eapply (st_insert _ _ HK)|].
    apply insert_tx_ok in Hi as [(_ & -> & _)|(_ & _ & t & -> & _)]; [done|]. by eapply taken_more.
  - intros q n d a [Hb Hh]. split; [by apply (st_audit _ _ HK)|done].
  - intros q n n' d v x st [Hb Hh] Hmv Hb'. split; [by eapply (st_post _ _ HK)|done].
Qed.

(** No state. *)
Definition Never : Assert := λ _ _ _, False.

Lemma Never_stable now : stable now Never.
Proof. constructor; by intros. Qed.

(** Walk through a program whose every statement keeps the tables in order. *)
Ltac keep :=
  lazymatch goal with
  | |- ensures ?now ?K (mbind _ _) _ =>
      apply (ensures_bind now _ _ K (λ _, K)); [keep|intros ?; keep]
  | |- ensures _ _ (map_err _ _) _ => apply ensures_map_err; keep
  | |- ensures _ _ (mret _) _ => by apply ensures_ret
  | |- ensures _ _ (throw _) _ => apply ensures_throw
  | |- ensures _ _ (of_option _) _ => by apply ensures_of_option
  | |- ensures _ _ (on_ledger (postDepositLedgerTx _ _ _ _)) _ =>
      eapply keep_ledger; [done|]; intros ? ?; by apply postDeposit_moves
  | |- ensures _ _ (on_ledger (postWithdrawalLedgerTx _ _ _ _)) _ =>
      eapply keep_ledger; [done|]; intros ? ?; by apply postWithdrawal_moves
  | |- ensures _ _ (on_ledger (postHarvestLedgerTx _ _ _ _ _ _)) _ =>
      eapply keep_ledger; [done|]; intros ? ?; by apply postHarvest_moves
  | |- ensures _ _ (on_ledger (postRebalanceLedgerTx _ _ _ _ _)) _ =>
      eapply keep_ledger; [done|]; intros ? ?; by apply postRebalance_moves
  | |- ensures _ _ (exec (query _)) _ => by apply keep_query
  | |- ensures _ _ (exec (insert_tx _ _ _ _ _ _ _ _ _ _)) _ => by apply keep_insert
  | |- ensures ?now ?K (exec (λ _ _, update_vault _ (set_debit _ ?p) _)) _ =>
      apply (keep_update now K ltac:(assumption) (f := λ t, set_debit t p))
  | |- ensures ?now ?K (exec (λ _ _, update_vault _ (set_credit _ ?p) _)) _ =>
      apply (keep_update now K ltac:(assumption) (f := λ t, set_credit t p))
  | |- ensures _ _ uuid_New _ => by apply keep_uuid
  | |- ensures _ _ (update_balances _ _) _ => by apply keep_update_balances
  | |- ensures _ _ (appendBalanceAuditEntry _) _ => by apply keep_audit
  | |- ensures _ _ (insert_record _ _ _ _) _ => by apply keep_record
  | |- ensures _ _ (read_totals _ _) _ => by apply keep_totals
  | |- ensures _ _ (update_harvest _) _ => by apply keep_harvest
  | |- ensures _ _ (insert_harvest _) _ => by apply keep_harvest_row
  | |- ensures _ _ (match ?x with _ => _ end) _ => destruct x; keep
  | |- _ => idtac
  end.


(** The operations of the repository that change the tables. *)
Inductive Op :=
| OpDeposit (id : Z) (record : TransactionRecord)
| OpDepositWithAudit (id : Z) (record : TransactionRecord) (check : CapCheck) (template : AuditEntry)
| OpWithdrawal (id : Z) (record : TransactionRecord)
| OpWithdrawalWithAudit (id : Z) (record : TransactionRecord) (template : AuditEntry)
| OpHarvest (input : HarvestRecordInput)
| OpHarvestWithAudit (input : HarvestRecordInput) (template : AuditEntry)
| OpRebalance (input : RebalanceRecordInput) (withdraw deposit : TransactionRecord)
| OpConfirmedDeposit (id userID : Z) (amount : decimal) (txHash : string) (check : CapCheck)
| OpConfirmedWithdrawal (id userID : Z) (amount : decimal) (txHash : string)
| OpDelete (id : Z)
| OpSetBalances (id : Z) (total current : decimal)
| OpAppend (entry : AuditEntry).

Section runs.
  Context (uuid_String : Z → string).

Definition drop {A} (m : M A) : M unit := m ;; mret ().

Definition run_op (o : Op) : M unit :=
  match o with
  | OpDeposit id rec => RecordDeposit scan_numeric id rec
  | OpDepositWithAudit id rec check tmpl => drop (RecordDepositWithAudit scan_numeric id rec check tmpl)
  | OpWithdrawal id rec => RecordWithdrawal scan_numeric id rec
  | OpWithdrawalWithAudit id rec tmpl => drop (RecordWithdrawalWithAudit scan_numeric id rec tmpl)
  | OpHarvest input => RecordHarvest input
  | OpHarvestWithAudit input tmpl => drop (RecordHarvestWithAudit scan_numeric input tmpl)
  | OpRebalance input w d => RecordRebalance input w d
  | OpConfirmedDeposit id u amount h check =>
      drop (ApplyConfirmedDeposit scan_numeric uuid_String id u amount h check)
  | OpConfirmedWithdrawal id u amount h =>
      ApplyConfirmedWithdrawal scan_numeric uuid_String id u amount h
  | OpDelete id => SoftDeleteVault id
  | OpSetBalances id t c => UpdateVaultBalances id t c
  | OpAppend entry => Append entry
  end.

(** A session between operations. *)
Definition idle (s : Session) : Prop := txn s = None ∧ ledger_ok (seed s) (db s).

(** What one operation makes of an idle session. *)
Definition kept_session (s s' : Session) : Prop :=
  idle s' ∧ seq_next s ≤ seq_next s' ∧ seed s ≤ seed s' ∧ change (db s) (db s').

Lemma kept_refl s : idle s → kept_session s s.
Proof. intros Hi. split; [done|]. split; [lia|]. split; [lia|]. by apply change_same. Qed.

Lemma withTx_keeps {A} (m : M A) s :
  (∀ now d0, LedgerService.Books (ledger d0) → ensures now (Kept d0) m (λ _, Kept d0)) →
  idle s → kept_session s (fst (withTx m s)).
Proof.
  intros Hm (Hn & Hb & HB).
  pose proof (withTx_atomic (clock s) m s (λ _, Kept (db s)) eq_refl) as Ha.
  assert (ensures (clock s) (λ q n d, q = seq_next s ∧ n = seed s ∧ d = db s) m (λ _, Kept (db s))) as Hk.
  { eapply ensures_pre; [|by apply Hm]. intros q n d (-> & -> & ->). split; [done|by apply change_same]. }
  specialize (Ha Hk Hn). destruct (withTx m s) as [s' r]. destruct Ha as (Ht & Hq & Hs & Hr). cbn.
  assert (LedgerRepo.below (seed s') (ledger (db s')) ∧ change (db s) (db s')) as [Hb' Hc'].
  { destruct r as [a|e]; [done|]. rewrite Hr. split; [by eapply LedgerRepo.below_le|by apply change_same]. }
  split_and!; try done. split; [done|]. split; [done|]. by apply (ch_books _ _ Hc').
Qed.

Lemma fst_drop {A} (m : M A) s : fst (drop m s) = fst (m s).
Proof. unfold drop, mbind, M_bind. by destruct (m s) as [s' [a|e]]. Qed.

(** An [UPDATE] on its own: it commits what [update_vault] gives, or nothing. *)
Lemma update_db_outcome v f s :
  let s' := fst ((n ← map_err mapRepositoryError (exec_db (λ now d, update_vault v (f now) d));
                  if n =? 0 then throw ErrVaultNotFound else mret ()) s) in
  (txn s' = txn s ∧ seq_next s' = seq_next s ∧ seed s' = seed s) ∧
  (db s' = db s ∨ ∃ k, update_vault v (f (clock s)) (db s) = Ok (db s', k)).
Proof.
  unfold mbind, M_bind, map_err, exec_db, round_trip.
  destruct (faults s) as [|[] fs]; cbn; [|by split; [|left]|];
    (destruct (update_vault _ _ _) as [[d k]|e] eqn:Hu; [|by split; [|left]];
     destruct (k =? 0); cbn; (split; [done|right; by exists k])).
Qed.

Lemma update_db_keeps v f s :
  idle s →
  kept_session s (fst ((n ← map_err mapRepositoryError (exec_db (λ now d, update_vault v (f now) d));
                        if n =? 0 then throw ErrVaultNotFound else mret ()) s)).
Proof.
  intros (Hn & Hl). pose proof (update_db_outcome v f s) as Ho. cbv zeta in Ho.
  set (s' := fst _) in *. destruct Ho as ((H1 & H2 & H3) & Hd).
  assert (change (db s) (db s') ∧ ledger (db s') = ledger (db s)) as [Hc Hld].
  { destruct Hd as [->|[k Hu]]; [split; [by apply change_same|done]|by eapply update_change]. }
  unfold kept_session, idle, ledger_ok in *. rewrite H1, H2, H3, Hld. auto with lia.
Qed.

(** A body that [keep] walks through, behind a guard. *)
Ltac keep_body :=
  repeat match goal with |- context [fst ((if ?b then throw _ else _) _)] => destruct b; [done|] end;
  apply withTx_keeps; [intros now d0 HB0; pose proof (Kept_stable now d0 HB0); keep|done].

Lemma keep_confirmed v u amount h ty check s :
  idle s → kept_session s
    (fst (applyConfirmedBalanceChange scan_numeric uuid_String v u amount h ty check s)).
Proof.
  intros Hi. pose proof (kept_refl s Hi) as Hr. unfold applyConfirmedBalanceChange, cap_warning.
  repeat match goal with |- context [fst ((if ?b then throw _ else _) _)] => destruct b; [done|] end.
  apply withTx_keeps; [intros now d0 HB0|done]. pose proof (Kept_stable now d0 HB0). cbv zeta.
  keep.
Qed.

(** An appended entry changes the trail only. *)
Lemma append_keeps entry s : idle s → kept_session s (fst (Append entry s)).
Proof.
  intros Hi. pose proof Hi as (Hn & Hb & HB).
  assert (∀ s', txn s' = txn s → seq_next s ≤ seq_next s' → seed s ≤ seed s' →
    rows (db s') = rows (db s) → txs (db s') = txs (db s) → ledger (db s') = ledger (db s) →
    kept_session s s') as Hgo.
  { intros s' H1 H2 H3 H4 H5 H6. split_and!; [|done..|by apply change_same].
    unfold idle, ledger_ok. rewrite H1, H6. split; [done|]. split; [by eapply LedgerRepo.below_le|done]. }
  unfold Append, mbind, M_bind, exec_db, round_trip, nextval, uuid_New. cbv zeta.
  destruct (EntryID entry =? 0); cbn; (destruct (Metadata entry) as [[m|]|]; cbn; [| |];
    try (destruct (faults s) as [|[] fs]; cbn);
    try (destruct (insert_audit _ _ _ _ _ _ _ _ _ _ _ _ (db s)) as [[d []]|e] eqn:Ha; cbn);
    try (apply insert_audit_ok in Ha as (_ & a & -> & _)));
    apply Hgo; cbn; done || lia.
Qed.

Lemma run_op_keeps o s : idle s → kept_session s (fst (run_op o s)).
Proof.
  intros Hi. pose proof (kept_refl s Hi) as Hr.
  destruct o; cbn [run_op]; rewrite ?fst_drop; try (by apply update_db_keeps).
  - unfold RecordDeposit. keep_body.
  - unfold RecordDepositWithAudit, check_caps. keep_body.
  - unfold RecordWithdrawal. keep_body.
  - unfold RecordWithdrawalWithAudit. keep_body.
  - unfold RecordHarvest, post_harvest. keep_body.
  - unfold RecordHarvestWithAudit, post_harvest. keep_body.
  - unfold RecordRebalance. keep_body.
  - apply keep_confirmed; done.
  - change (ApplyConfirmedWithdrawal scan_numeric uuid_String id userID amount txHash)
      with (drop (applyConfirmedBalanceChange scan_numeric uuid_String id userID amount txHash
                    "withdrawal" None)).
    rewrite fst_drop. by apply keep_confirmed.
  - by apply append_keeps.
Qed.

(** *** Hashes *)

(** The transaction hashes an operation records. *)
Definition op_hashes (o : Op) : list (option string) :=
  match o with
  | OpDeposit _ rec | OpDepositWithAudit _ rec _ _ | OpWithdrawal _ rec
  | OpWithdrawalWithAudit _ rec _ => [nullif_empty (TransactionHash rec)]
  | OpHarvest input | OpHarvestWithAudit input _ => [nullif_empty (HarvestTxHash input)]
  | OpRebalance input w d =>
      [nullif_empty (TransactionHash w); nullif_empty (TransactionHash d);
       nullif_empty (RebalanceTxHash input)]
  | OpConfirmedDeposit _ _ _ h _ | OpConfirmedWithdrawal _ _ _ h => [Some h]
  | OpDelete _ | OpSetBalances _ _ _ | OpAppend _ => []
  end.

Section taken.
  Context (now : Time) (d0 : DB) (h : string) (HB0 : LedgerService.Books (ledger d0)).

Lemma record_refused v ty rec :
  nullif_empty (TransactionHash rec) = Some h →
  ensures now (Taken d0 h) (insert_record false v ty rec) (λ _, Never).
Proof.
  intros Hh. eapply ensures_post; [|apply insert_record_strict]. cbn.
  intros _ q n d (d1 & t & [_ Ht] & Hf & _). rewrite Hh in Hf. congruence.
Qed.

Lemma row_refused id v u ty amount sh pr fee :
  ensures now (Taken d0 h) (exec (insert_tx false id v u ty amount (Some h) sh pr fee)) (λ _, Never).
Proof.
  eapply ensures_post; [|apply ensures_exec]. cbn.
  by intros k q n d (d1 & [_ Ht] & [(_ & _ & ? & _)|(_ & Hf & _)]%insert_tx_ok); [|congruence].
Qed.

Lemma harvest_row_refused input :
  nullif_empty (HarvestTxHash input) = Some h →
  ensures now (Taken d0 h) (insert_harvest input) (λ _, Never).
Proof.
  intros Hh. unfold insert_harvest. rewrite Hh.
  apply (ensures_bind now _ _ _ (λ _, Taken d0 h)); [by apply keep_uuid, Taken_stable|].
  intros id. apply ensures_map_err, row_refused.
Qed.

Lemma refused_deposit v ty rec P :
  nullif_empty (TransactionHash rec) = Some h →
  (∀ q n d, P q n d → hash_taken (Some h) d = true) →
  ensures now P (insert_record true v ty rec) (λ k _ _ _, k = 0).
Proof.
  intros Hh HP. eapply ensures_post; [|apply insert_record_sp]. cbn.
  intros k q n d (d1 & Ht%HP & [(-> & _)|(_ & Hf & _)]); [done|]. rewrite Hh in Hf. congruence.
Qed.

End taken.

(** An operation that finds its hash taken commits nothing. *)
Lemma withTx_refused {A} (m : M A) s h :
  (∀ now d0, LedgerService.Books (ledger d0) → ensures now (Taken d0 h) m (λ _ _ _ d, d = d0)) →
  idle s → hash_taken (Some h) (db s) = true → db (fst (withTx m s)) = db s.
Proof.
  intros Hm (Hn & Hb & HB) Hh.
  pose proof (withTx_atomic (clock s) m s (λ _ _ _ d, d = db s) eq_refl) as Ha.
  assert (ensures (clock s) (λ q n d, q = seq_next s ∧ n = seed s ∧ d = db s) m (λ _ _ _ d, d = db s)) as Hk.
  { eapply ensures_pre; [|by apply Hm]. intros q n d (-> & -> & ->).
    split; [split; [done|by apply change_same]|done]. }
  specialize (Ha Hk Hn). destruct (withTx m s) as [s' [a|e]]; by destruct Ha as (_ & _ & _ & Hr).
Qed.

(** Walk to the insertion that is refused, then on from an impossible state. *)
Ltac refuse h :=
  lazymatch goal with
  | |- ensures ?now (Taken ?d0 h) (mbind _ ?m) _ =>
      first
        [ apply (ensures_bind now _ _ (Taken d0 h) (λ _, Never));
          [first [by apply record_refused|by apply harvest_row_refused|
                  by apply ensures_map_err, row_refused]
          |intros ?; apply (ensures_post now _ _ _ (λ _, Never)); [by intros|];
           pose proof (Never_stable now); keep]
        | apply (ensures_bind now _ _ (Taken d0 h) (λ _, Taken d0 h)); [keep|intros ?; refuse h] ]
  | |- ensures _ _ (match ?x with _ => _ end) _ => destruct x; refuse h
  | |- ensures _ _ (throw _) _ => apply ensures_throw
  | |- _ => idtac
  end.

Ltac refuse_body h :=
  repeat match goal with |- context [fst ((if ?b then throw _ else _) _)] => destruct b; [done|] end;
  apply (withTx_refused _ _ h); [intros now d0 HB0; pose proof (Taken_stable now d0 h HB0)|done|done].

Lemma deposit_refused id rec h s :
  nullif_empty (TransactionHash rec) = Some h → idle s → hash_taken (Some h) (db s) = true →
  db (fst (RecordDeposit scan_numeric id rec s)) = db s.
Proof.
  intros Hin Hi Hh. unfold RecordDeposit. refuse_body h.
  apply (ensures_bind now _ _ _ (λ _, Taken d0 h)); [keep|intros [r|]; [|apply ensures_throw]].
  apply (ensures_bind now _ _ _ (λ _, Taken d0 h)); [keep|intros ?].
  apply (ensures_bind now _ _ _ (λ _, Taken d0 h)); [keep|intros ?].
  apply (ensures_bind now _ _ _ (λ _, Taken d0 h)); [keep|intros ?].
  eapply ensures_bind; [by eapply refused_deposit; [|intros ? ? ? [_ ?]]|].
  intros k. destruct (Z.eqb_spec k 0); [apply ensures_throw|].
  eapply ensures_pre with (P' := Never); [intros q n' d ?; lia|].
  pose proof (Never_stable now).
  apply (ensures_post now _ _ _ (λ _, Never)); [by intros|keep].
Qed.

(** An operation fails and changes nothing, or succeeds and leaves [R]. *)
Definition outcome {A} (s : Session) (p : Session * result VaultErr A) (R : A → Z → DB → Prop) : Prop :=
  match p.2 with
  | Err _ => db p.1 = db s
  | Ok a => R a (seq_next p.1) (db p.1)
  end.

Lemma withTx_outcome {A} (m : M A) s (R : A → Z → DB → Prop) :
  idle s →
  ensures (clock s) (at_start (seq_next s) (seed s) (db s)) m (λ a q n d, R a q d) →
  outcome s (withTx m s) R.
Proof.
  intros (Hn & _) Hm. unfold outcome. pose proof (withTx_atomic (clock s) m s _ eq_refl Hm Hn) as Ha.
  destruct (withTx m s) as [s' [a|e]]; by destruct Ha as (_ & _ & _ & ?).
Qed.

(** What [applyConfirmedBalanceChange] leaves behind. *)
Lemma confirmed_outcome v u amount h ty check s :
  idle s →
  outcome s (applyConfirmedBalanceChange scan_numeric uuid_String v u amount h ty check s) (λ w q d,
    (d = db s ∧ w = None ∧ hash_taken (Some h) (db s) = true) ∨
    (u ∈ users (ledger (db s)) ∧ hash_taken (Some h) (db s) = false ∧
     audited v (confirmed_set ty amount (clock s)) (confirmed_user u) ty (value amount) (Some h)
       (confirmed_stroops ty u amount) (seq_next s) (db s) q d)).
Proof.
  intros Hi. unfold applyConfirmedBalanceChange.
  destruct (Cmp amount Zero <=? 0); [done|]. destruct (TrimSpace h =s? ""); [done|].
  apply (withTx_outcome (confirmed_body uuid_String v u amount h ty check) s _ Hi).
  eapply ensures_post; [|apply (confirmed_body_spec _ _ _ _ (proj2 Hi))]. cbn.
  intros w q n d [(-> & -> & _ & _ & Hh)|(_ & Hu & Hh & Ha)]; [by left|by right].
Qed.

Lemma confirmed_refused v u amount h ty check s :
  idle s → hash_taken (Some h) (db s) = true →
  db (fst (applyConfirmedBalanceChange scan_numeric uuid_String v u amount h ty check s)) = db s.
Proof.
  intros Hi Hh. pose proof (confirmed_outcome v u amount h ty check s Hi) as Ho.
  unfold outcome in Ho. destruct (applyConfirmedBalanceChange _ _ _ _ _ _ _ _ s) as [s' [w|e]]; [|done].
  destruct Ho as [(? & _)|(_ & ? & _)]; [done|]. cbn in *. congruence.
Qed.

Lemma taken_hash_refused o s h :
  Some h ∈ op_hashes o → idle s → hash_taken (Some h) (db s) = true →
  db (fst (run_op o s)) = db s.
Proof.
  intros Hin Hi Hh. destruct o; cbn [run_op op_hashes] in *; rewrite ?fst_drop;
    try (apply list_elem_of_singleton in Hin; symmetry in Hin).
  - by apply (deposit_refused _ _ h).
  - unfold RecordDepositWithAudit, check_caps. refuse_body h. refuse h.
  - unfold RecordWithdrawal. refuse_body h. refuse h.
  - unfold RecordWithdrawalWithAudit. refuse_body h. refuse h.
  - unfold RecordHarvest, post_harvest. refuse_body h. refuse h.
  - unfold RecordHarvestWithAudit, post_harvest. refuse_body h. refuse h.
  - unfold RecordRebalance. refuse_body h.
    apply list_elem_of_In in Hin as [Hin|[Hin|[Hin|[]]]]; [refuse h|refuse h|rewrite Hin; refuse h].
  - injection Hin as ->. by apply confirmed_refused.
  - injection Hin as ->.
    change (ApplyConfirmedWithdrawal scan_numeric uuid_String id userID amount h)
      with (drop (applyConfirmedBalanceChange scan_numeric uuid_String id userID amount h
                    "withdrawal" None)).
    rewrite fst_drop. by apply confirmed_refused.
  - by apply elem_of_nil in Hin.
  - by apply elem_of_nil in Hin.
  - by apply elem_of_nil in Hin.
Qed.

(** *** What the audited operations do *)

(** The locked read of a balance, then a body that runs on what it read. *)
Lemma balance_then {A} v (k : Z → M A) s (Q : A → Assert) :
  (∀ raw, ensures (clock s) Never (k raw) (λ _, Never)) →
  (∀ r, live_vault v (db s) = Some r →
     ensures (clock s) (at_start (seq_next s) (seed s) (db s)) (k (CurrentBalance r)) Q) →
  ensures (clock s) (at_start (seq_next s) (seed s) (db s))
    (row ← exec (query (select_balance v));
     match row with None => throw ErrVaultNotFound | Some raw => k raw end) Q.
Proof.
  intros Hn Hk. eapply ensures_bind; [apply read_balance|]. intros [raw|]; [|apply ensures_throw].
  assert (ensures (clock s) Never (k raw) Q) as Hnever
    by (apply (ensures_post _ _ _ _ (λ _, Never)); [by intros|done]).
  destruct (live_vault v (db s)) as [r|] eqn:Hv; cbn.
  - destruct (decide (raw = CurrentBalance r)) as [->|Hne].
    + eapply ensures_pre; [|by apply Hk]. by intros q n d [_ ?].
    + eapply ensures_pre; [|exact Hnever]. intros q n d [[= ?] _]. done.
  - eapply ensures_pre; [|exact Hnever]. by intros q n d [? _].
Qed.

Lemma deposit_outcome v rec check tmpl s :
  idle s →
  outcome s (RecordDepositWithAudit scan_numeric v rec check tmpl s) (λ _ q d,
      (∀ c, check = Some c → c (scan_numeric (user_total (RecUserID rec) (db s)))
                               (scan_numeric (global_total (db s))) = None) ∧
      audited v (set_credit (clock s) (value (RecAmount rec))) (Some (RecUserID rec)) "deposit"
        (value (RecAmount rec)) (nullif_empty (TransactionHash rec))
        (positive (VaultRepo.decimalToStroops (RecAmount rec)))
        (seq_next s) (db s) q d).
Proof.
  intros Hi. unfold RecordDepositWithAudit. destruct (Cmp _ Zero <=? 0); [done|].
  apply (withTx_outcome _ s _ Hi). apply balance_then; cbv zeta.
  - intros raw. pose proof (Never_stable (clock s)). unfold check_caps. keep.
  - intros r Hv. eapply ensures_post; [|by apply (RecordDepositWithAudit_body _ _ _ _ (proj2 Hi) v rec
      check tmpl (CurrentBalance r) r)]. cbn. by intros _ q n d (? & _ & ?).
Qed.

Lemma withdrawal_outcome v rec tmpl s :
  idle s →
  outcome s (RecordWithdrawalWithAudit scan_numeric v rec tmpl s) (λ _ q d,
      audited v (set_debit (clock s) (value (RecAmount rec))) (Some (RecUserID rec)) "withdrawal"
        (value (RecAmount rec)) (nullif_empty (TransactionHash rec))
        (- positive (VaultRepo.decimalToStroops (RecAmount rec)))
        (seq_next s) (db s) q d).
Proof.
  intros Hi. unfold RecordWithdrawalWithAudit. destruct (Cmp _ Zero <=? 0); [done|].
  apply (withTx_outcome _ s _ Hi). apply balance_then; cbv zeta.
  - intros raw. pose proof (Never_stable (clock s)). keep.
  - intros r Hv. destruct (LessThan _ _); [apply ensures_throw|].
    eapply ensures_post; [|by apply (RecordWithdrawalWithAudit_body _ _ _ _ (proj2 Hi) v rec
      tmpl (CurrentBalance r) r)]. cbn. by intros _ q n d (_ & ?).
Qed.

Lemma harvest_commits input tmpl s :
  idle s →
  outcome s (RecordHarvestWithAudit scan_numeric input tmpl s) (λ _ q d,
      audited (HarvestVaultID input) (harvest_set input (clock s)) (Some (HarvestUserID input))
        "harvest" (value (NetYield input)) (nullif_empty (HarvestTxHash input))
        (harvest_stroops input) (seq_next s) (db s) q d).
Proof.
  intros Hi. unfold RecordHarvestWithAudit. destruct (harvest_refused input); [done|].
  apply (withTx_outcome _ s _ Hi). apply balance_then; cbv zeta.
  - intros raw. pose proof (Never_stable (clock s)). unfold post_harvest. keep.
  - intros r Hv. eapply ensures_post; [|by apply (RecordHarvestWithAudit_body _ _ _ _ (proj2 Hi) input
      tmpl (CurrentBalance r) r)]. cbn. by intros _ q n d (_ & ?).
Qed.

(** *** Histories *)

(** The operations that append to the audit trail what they do to a balance;
    the ones the vault service uses. *)
Definition audited_op (o : Op) : bool :=
  match o with
  | OpDepositWithAudit _ _ _ _ | OpWithdrawalWithAudit _ _ _ | OpHarvestWithAudit _ _
  | OpConfirmedDeposit _ _ _ _ _ | OpConfirmedWithdrawal _ _ _ _ | OpDelete _ => true
  | _ => false
  end.

Definition new_vault (owner : Z) (cap : option Z) (now : Time) : VaultRow :=
  mkVaultRow owner 0 0 0 0 cap None now None.

Definition add_vault (v owner : Z) (cap : option Z) (now : Time) (d : DB) : DB :=
  let l := ledger d in
  mkDB (<[v := new_vault owner cap now]> (rows d)) (daily_caps d) (txs d) (audit d)
    (mkStore (v :: vaults l) (users l) (accounts l) (entries l) (balances l) (records l)).

Definition add_user (u : Z) (cap : option Z) (d : DB) : DB :=
  let l := ledger d in
  mkDB (rows d) (match cap with Some c => <[u := c]> (daily_caps d) | None => daily_caps d end)
    (txs d) (audit d)
    (mkStore (vaults l) (u :: users l) (accounts l) (entries l) (balances l) (records l)).

(** One step: an operation, a new vault with nothing in it, a new user, a change of
    columns that are not money, or time passing, identifiers being drawn and
    connections about to fail. *)
Inductive step (allowed : Op → Prop) : Session → Session → Prop :=
| step_op (o : Op) (s : Session) : allowed o → step allowed s (fst (run_op o s))
| step_vault (v owner : Z) (cap : option Z) (s : Session) :
    rows (db s) !! v = None → v ∉ vaults (ledger (db s)) →
    step allowed s (with_db s (add_vault v owner cap (clock s) (db s)))
| step_user (u : Z) (cap : option Z) (s : Session) :
    u ≠ 0 → step allowed s (with_db s (add_user u cap (db s)))
| step_touch (v : Z) (r : VaultRow) (now : Time) (s : Session) :
    rows (db s) !! v = Some r →
    step allowed s (with_db s (with_rows (db s) (<[v := touch now r]> (rows (db s)))))
| step_world n fs now (s : Session) :
    seed s ≤ n → step allowed s (mkSession (db s) (txn s) (seq_next s) n fs now).

Definition empty_db : DB := mkDB ∅ ∅ [] [] (mkStore [] [] [] [] ∅ []).
Definition start : Session := mkSession empty_db None 1 1 [] 0.

Inductive reach (allowed : Op → Prop) : Session → Prop :=
| reach_start : reach allowed start
| reach_step s s' : reach allowed s → step allowed s s' → reach allowed s'.

Definition any_op (_ : Op) : Prop := True.
Definition audited_ops (o : Op) : Prop := audited_op o = true.

(** *** Their invariant *)

(** The audit entries of vault [v], in the order they were appended. *)
Definition entries_of (v : Z) (d : DB) : list AuditRow :=
  filter (λ a, AuVaultID a = v) (audit d).

(** The entries lead from balance [b] to balance [e] without a gap. *)
Fixpoint follows (b : Z) (l : list AuditRow) (e : Z) : Prop :=
  match l with
  | [] => b = e
  | a :: l' => AuBefore a = b ∧ follows (AuAfter a) l' e
  end.

Lemma follows_snoc b l e a : follows b l e → AuBefore a = e → follows b (l ++ [a]) (AuAfter a).
Proof. revert b. induction l as [|x l IH]; intros b; cbn; [by intros -> ?|]. naive_solver. Qed.

Record sound (s : Session) : Prop := {
  sd_idle : idle s;
  sd_positions : PositionsArePool (ledger (db s));
  sd_hashes : NoDup (omap TxHash (txs (db s)));
  sd_rows v r : rows (db s) !! v = Some r → check_row r = true ∧ v ∈ vaults (ledger (db s));
}.

Record traced (s : Session) : Prop := {
  tr_seq a : a ∈ audit (db s) → Seq a < seq_next s;
  tr_sorted : StronglySorted (λ a b, Seq a < Seq b) (audit (db s));
  tr_known a : a ∈ audit (db s) → is_Some (rows (db s) !! AuVaultID a);
  tr_chain v r : rows (db s) !! v = Some r → follows 0 (entries_of v (db s)) (CurrentBalance r);
}.

Lemma entries_of_snoc v d a d' :
  audit d' = audit d ++ [a] →
  entries_of v d' = entries_of v d ++ (if decide (AuVaultID a = v) then [a] else []).
Proof. unfold entries_of. intros ->. by rewrite filter_app. Qed.

Lemma audited_traced v f u ty amount h x s q d s' :
  audited v f u ty amount h x (seq_next s) (db s) q d → traced s →
  db s' = d → q ≤ seq_next s' → traced s'.
Proof.
  intros (r & r' & t & a & He & _ & _ & _ & _ & _ & _ & _ & Hv & Hb & Ha & Hlo & Hhi) [T1 T2 T3 T4] Hd Hq.
  pose proof (ef_audit _ _ _ _ _ _ _ _ He) as Hau. pose proof (ef_rows _ _ _ _ _ _ _ _ He) as Hrs.
  destruct (live_vault_rows _ _ _ (ef_live _ _ _ _ _ _ _ _ He)) as [Hr _].
  subst d. constructor.
  - rewrite Hau. intros y [Hy| ->%list_elem_of_singleton]%elem_of_app; [|lia].
    specialize (T1 y Hy). lia.
  - rewrite Hau. apply StronglySorted_app_2; [|done|by repeat constructor].
    intros y z Hy ->%list_elem_of_singleton. specialize (T1 y Hy). lia.
  - rewrite Hau, Hrs. intros y [Hy| ->%list_elem_of_singleton]%elem_of_app.
    + destruct (decide (AuVaultID y = v)) as [->|]; [by rewrite lookup_insert_eq|].
      rewrite lookup_insert_ne by done. auto.
    + rewrite Hv, lookup_insert_eq. by eexists.
  - intros w z Hz. rewrite Hrs in Hz. rewrite (entries_of_snoc w (db s) a) by done.
    destruct (decide (v = w)) as [->|Hne].
    + rewrite lookup_insert_eq in Hz. injection Hz as <-. rewrite decide_True by done.
      rewrite <- Ha. eapply follows_snoc; [by apply T4|done].
    + rewrite lookup_insert_ne in Hz by done. rewrite decide_False by congruence.
      rewrite app_nil_r. auto.
Qed.

Lemma same_traced s s' :
  traced s → db s' = db s → seq_next s ≤ seq_next s' → traced s'.
Proof.
  intros [T1 T2 T3 T4] Hd Hq. constructor; rewrite ?Hd; auto.
  intros a Ha. specialize (T1 a Ha). lia.
Qed.

(** A deletion stamps a live row. *)
Lemma delete_outcome v s :
  let s' := fst (SoftDeleteVault v s) in
  (txn s' = txn s ∧ seq_next s' = seq_next s ∧ seed s' = seed s) ∧
  (db s' = db s ∨ ∃ r, rows (db s) !! v = Some r ∧
     db s' = with_rows (db s) (<[v := mkVaultRow (RowUserID r) (TotalDeposited r) (CurrentBalance r)
       (YieldEarned r) (FeesPaid r) (SoftCapacity r) (LastHarvestedAt r) (RowUpdatedAt r)
       (Some (clock s))]> (rows (db s)))).
Proof.
  destruct (update_db_outcome v set_deleted s) as (Hs & Hd). split; [exact Hs|].
  destruct Hd as [?|[k [(_ & ? & _)|(_ & r & r' & (Hr & [= <-] & _ & Hdb))]%update_vault_ok]];
    [by left|by left|]. right. exists r. split; [by apply live_vault_rows|exact Hdb].
Qed.

Lemma op_traced o s :
  idle s → traced s → audited_op o = true → traced (fst (run_op o s)).
Proof.
  intros Hi Ht Ha. destruct (run_op_keeps o s Hi) as (_ & Hq & _ & _).
  assert (∀ A (m : M A) R v f u ty amount h x, outcome s (m s) R → fst (run_op o s) = fst (m s) →
    (∀ a q d, R a q d → d = db s ∨ audited v f u ty amount h x (seq_next s) (db s) q d) →
    traced (fst (run_op o s))) as Hgo.
  { intros A m R v f u ty amount h x Ho He HR. rewrite He in *. unfold outcome in Ho.
    destruct (m s) as [s' [a|e]]; cbn in *; [|by eapply same_traced].
    destruct (HR _ _ _ Ho); [by eapply same_traced|by eapply audited_traced]. }
  destruct o as [| v rec check tmpl| |v rec tmpl| |input tmpl| |v u amount h check|v u amount h|v| |];
    try done; cbn [run_op] in *.
  - eapply Hgo; [by apply (deposit_outcome v rec check tmpl)|apply fst_drop|]. cbn. naive_solver.
  - eapply Hgo; [by apply (withdrawal_outcome v rec tmpl)|apply fst_drop|]. cbn. naive_solver.
  - eapply Hgo; [by apply (harvest_commits input tmpl)|apply fst_drop|]. cbn. naive_solver.
  - eapply Hgo; [by apply (confirmed_outcome v u amount h "deposit" check)|apply fst_drop|].
    cbn. naive_solver.
  - eapply Hgo; [by apply (confirmed_outcome v u amount h "withdrawal" None)|apply fst_drop|].
    cbn. naive_solver.
  - clear Hgo. destruct (delete_outcome v s) as ((_ & Hsq & _) & [Hd|(r & Hr & Hd)]);
      [by eapply same_traced|].
    destruct Ht as [T1 T2 T3 T4]. constructor; rewrite Hd; cbn; try done.
    + intros a Hin. specialize (T1 a Hin). lia.
    + intros a Hin. destruct (decide (AuVaultID a = v)) as [->|];
        [by rewrite lookup_insert_eq|rewrite lookup_insert_ne by done; auto].
    + intros w z Hz. destruct (decide (w = v)) as [->|].
      * rewrite lookup_insert_eq in Hz. injection Hz as <-. apply (T4 v r Hr).
      * rewrite lookup_insert_ne in Hz by done. by apply T4.
Qed.

Lemma kept_sound s s' : kept_session s s' → sound s → sound s'.
Proof.
  intros (Hi & _ & _ & [C1 (ts & C2 & C3 & C4) C5 [C6 C7] C8]) [S1 S2 S3 S4].
  constructor; [done|auto| |].
  - rewrite C2, omap_app. apply NoDup_app. split_and!; [done| |done].
    intros x (t1 & Ht1 & Hx1)%list_elem_of_omap (t2 & Ht2 & Hx2)%list_elem_of_omap.
    specialize (C4 t2 Ht2). rewrite hash_taken_false in C4. by apply (C4 t1 x).
  - intros v r Hr. rewrite C6. destruct (C1 v r Hr) as [?|[Hc [x Hx]]]; [auto|].
    split; [done|]. by apply (S4 v x).
Qed.

Lemma op_sound o s : sound s → sound (fst (run_op o s)).
Proof. intros Hs. eapply kept_sound; [apply run_op_keeps, Hs|done]. Qed.

(** The ledger's invariant does not depend on which ids exist. *)
Lemma ledger_ids_ok n l vs us :
  LedgerRepo.below n l → LedgerService.Books l →
  LedgerRepo.below n (mkStore vs us (accounts l) (entries l) (balances l) (records l)) ∧
  LedgerService.Books (mkStore vs us (accounts l) (entries l) (balances l) (records l)).
Proof. intros Hb [[] HB]. split; [done|]. by split. Qed.

Lemma touch_sound id now r v :
  rows (db v) !! id = Some r → sound v →
  sound (with_db v (with_rows (db v) (<[id := touch now r]> (rows (db v))))).
Proof.
  intros Hr [S1 S2 S3 S4]. constructor; cbn; try done.
  intros w x. destruct (decide (w = id)) as [->|].
  - rewrite lookup_insert_eq. intros [= <-]. by apply (S4 id r).
  - rewrite lookup_insert_ne by done. apply S4.
Qed.

Lemma step_sound allowed s s' : step allowed s s' → sound s → sound s'.
Proof.
  intros [o s0 Ho|v owner cap s0 Hn Hni|u cap s0 Hu|v r now s0 Hl|n fs now s0 Hle];
    [by apply op_sound| | |by apply touch_sound|].
  - intros [[S0 [S1 S1']] S2 S3 S4]. constructor; [|done|done|].
    + split; [done|]. by apply ledger_ids_ok.
    + cbn. intros w r Hw. destruct (decide (w = v)) as [->|].
      * rewrite lookup_insert_eq in Hw. injection Hw as <-. split; [done|by left].
      * rewrite lookup_insert_ne in Hw by done. destruct (S4 w r Hw). split; [done|by right].
  - intros [[S0 [S1 S1']] S2 S3 S4]. constructor; [|done|done|].
    + split; [done|]. by apply ledger_ids_ok.
    + cbn. apply S4.
  - intros [[S0 [S1 S1']] S2 S3 S4]. constructor; [|done..]. split; [done|].
    split; [by eapply LedgerRepo.below_le|done].
Qed.

Lemma step_traced allowed s s' :
  (∀ o, allowed o → audited_ops o) → step allowed s s' → sound s → traced s → traced s'.
Proof.
  intros Hon [o s0 Ho|v owner cap s0 Hn Hni|u cap s0 Hu|v r now s0 Hl|n fs now s0 Hle] Hs Ht;
    [apply op_traced; [apply Hs|done|by apply Hon]| | | |]; destruct Ht as [T1 T2 T3 T4].
  - constructor; cbn; try done.
    + intros a Ha. destruct (decide (AuVaultID a = v)) as [->|];
        [by rewrite lookup_insert_eq|rewrite lookup_insert_ne by done; auto].
    + intros w r Hw. destruct (decide (w = v)) as [->|].
      * rewrite lookup_insert_eq in Hw. injection Hw as <-. cbn.
        assert (entries_of v (db s0) = []) as He.
        { unfold entries_of. apply filter_none. intros a Ha Hv. destruct (T3 a Ha) as [? Hx]. congruence. }
        unfold entries_of in *. cbn. by rewrite He.
      * rewrite lookup_insert_ne in Hw by done. by apply T4.
  - by constructor.
  - constructor; cbn; try done.
    + intros a Ha. destruct (decide (AuVaultID a = v)) as [->|];
        [by rewrite lookup_insert_eq|rewrite lookup_insert_ne by done; auto].
    + intros w x Hw. destruct (decide (w = v)) as [->|];
        [rewrite lookup_insert_eq in Hw|rewrite lookup_insert_ne in Hw by done; by apply T4].
      injection Hw as <-. by apply (T4 v r).
  - by constructor.
Qed.

Lemma start_sound : sound start.
Proof.
  constructor; cbn; [|done|by apply NoDup_nil|done]. split; [done|]. split.
  - split_and!; cbn; [lia|by intros ? ?%elem_of_nil..].
  - split; [|done]. constructor; cbn; [by apply NoDup_nil|by apply NoDup_nil|by intros e ?%elem_of_nil|done|done|].
    split; [by intros e ?%elem_of_nil|done].
Qed.

Lemma reach_sound allowed s :
  reach allowed s → sound s ∧ ((∀ o, allowed o → audited_ops o) → traced s).
Proof.
  induction 1 as [|s s' Hr [IH IHt] Hs].
  - split; [apply start_sound|]. intros _.
    constructor; cbn; [by intros ? ?%elem_of_nil|constructor|by intros ? ?%elem_of_nil|done].
  - split; [by eapply step_sound|]. intros Hon. eapply step_traced; eauto.
Qed.

(** *** The theorems *)

(** *** Reads *)

(** The same tables, with time and connections having moved on. *)
Definition same_tables (v v' : Session) : Prop :=
  db v' = db v ∧ txn v' = txn v ∧ seq_next v' = seq_next v ∧ seed v ≤ seed v' ∧ clock v' = clock v.

Lemma same_tables_refl v : same_tables v v.
Proof. split_and!; done || lia. Qed.

Lemma same_tables_trans v1 v2 v3 : same_tables v1 v2 → same_tables v2 v3 → same_tables v1 v3.
Proof. intros (?&?&?&?&?) (?&?&?&?&?). split_and!; congruence || lia. Qed.

Lemma round_trip_same v : same_tables v (snd (round_trip v)).
Proof. unfold round_trip. destruct (faults v); split_and!; done || (cbn; lia). Qed.

Lemma same_idle v v' : same_tables v v' → idle v → idle v'.
Proof.
  intros (Hd & Ht & _ & Hs & _) (Hn & Hb & HB). unfold idle, ledger_ok. rewrite Hd, Ht.
  split; [done|]. split; [by eapply LedgerRepo.below_le|done].
Qed.

Lemma same_sound v v' : same_tables v v' → sound v → sound v'.
Proof.
  intros Hs [S1 S2 S3 S4]. pose proof (same_idle _ _ Hs S1). destruct Hs as (Hd & _).
  constructor; by rewrite ?Hd.
Qed.

(** A read is a step of the world. *)
Lemma same_step allowed v v' : same_tables v v' → step allowed v v'.
Proof.
  intros (Hd & Ht & Hq & Hn & Hc). destruct v' as [d t q n fs c]. cbn in *. subst. by apply step_world.
Qed.

Lemma query_same {A} (f : Time → DB → A) v : same_tables v (fst (exec_db (query f) v)).
Proof.
  unfold exec_db. pose proof (round_trip_same v) as Hr. destruct (round_trip v) as [[] v1]; [done|].
  cbn in *. destruct Hr as (?&?&?&?&?). by split_and!.
Qed.

Lemma Reconcile_follows l v m t b e p :
  follows b l e → Forall (λ a, AuVaultID a = v) l →
  (m !! v = None ∨ ∃ p, m !! v = Some p ∧ value p == col b)%Q → (value t == p)%Q →
  ∃ t', Reconcile_loop (map (scan_audit scan_numeric) l) m t = Some t' ∧
    (value t' == p + (col e - col b))%Q.
Proof.
  revert b m t p. induction l as [|a l IH]; intros b m t p Hf Hv Hm Ht; cbn.
  - exists t. split; [done|]. cbn in Hf. rewrite Ht, Hf. ring.
  - destruct Hf as [Hb Hf]. apply Forall_cons in Hv as [Ha Hv]. rewrite Ha.
    assert (match m !! v with
      | Some prev => negb (dec_Equal (scan_numeric (AuBefore a)) prev) | None => false end = false) as ->.
    { destruct Hm as [->|(x & -> & Hx)]; [done|]. apply negb_false_iff, dec_Equal_value.
      by rewrite scan_numeric_value, Hb, Hx. }
    destruct (IH (AuAfter a) (<[v := scan_numeric (AuAfter a)]> m)
      (Add t (Sub (scan_numeric (AuAfter a)) (scan_numeric (AuBefore a))))
      (p + (col (AuAfter a) - col b))%Q Hf Hv) as (t' & Ht' & Hval).
    + right. exists (scan_numeric (AuAfter a)). split; [by rewrite lookup_insert_eq|apply scan_numeric_value].
    + rewrite Add_value, Sub_value, !scan_numeric_value, Ht, Hb. reflexivity.
    + exists t'. split; [done|]. rewrite Hval. ring.
Qed.

(** C8: While balances change only through the audited operations, the audit
    trail accounts for every vault: in every reachable state, whatever failed or
    rolled back on the way, reconciling a vault's entries finds no gap and gives
    exactly its current balance, which is never negative. *)
Theorem audit_trail_reconciles s v r :
  reach audited_ops s → rows (db s) !! v = Some r →
  0 ≤ CurrentBalance r ∧
  StronglySorted (λ a b, Seq a < Seq b) (entries_of v (db s)) ∧
  ∃ total, Reconcile (map (scan_audit scan_numeric) (entries_of v (db s))) = Some total ∧
    (value total == col (CurrentBalance r))%Q.
Proof.
  intros Hr Hv. destruct (reach_sound _ s Hr) as [Hs Ht]. specialize (Ht (λ _ Ho, Ho)). split_and!.
  - destruct (sd_rows _ Hs v r Hv) as [Hc _]. unfold check_row in Hc.
    repeat (apply andb_true_iff in Hc as [Hc ?]). lia.
  - unfold entries_of. pose proof (tr_sorted _ Ht) as Hsort.
    induction Hsort as [|a l Hl IH Hf]; [constructor|]. rewrite filter_cons.
    case_decide; [|done]. constructor; [done|]. apply Forall_forall.
    intros b [_ Hb]%list_elem_of_filter. by eapply Forall_forall in Hf.
  - destruct (Reconcile_follows (entries_of v (db s)) v ∅ Zero 0 (CurrentBalance r) 0%Q)
      as (t & Ht' & Hval).
    + by apply (tr_chain _ Ht).
    + apply Forall_forall. by intros a [? _]%list_elem_of_filter.
    + by left.
    + apply Zero_value.
    + exists t. split; [done|]. rewrite Hval. unfold col, Qeq. cbn. lia.
Qed.

(** C9: the vault repository moves money at most once per hash. Whatever its operations
    did before, no two of its transactions carry the same hash, and any of its operations
    that brings a hash already recorded, for the API or for the poller of pending
    transactions, leaves every table as it was. The event indexer, which writes the
    tables itself, is not one of them. *)
Theorem hash_recorded_once s o h :
  reach any_op s → Some h ∈ op_hashes o → hash_taken (Some h) (db s) = true →
  db (fst (run_op o s)) = db s ∧ NoDup (omap TxHash (txs (db s))).
Proof.
  intros Hr Hin Hh. destruct (reach_sound _ s Hr) as [Hs _].
  split; [|apply Hs]. by apply (taken_hash_refused o s h); [|apply Hs|].
Qed.

(** The vault repository's own postings keep the ledger's books: in every
    reachable state the cached balances are the sums of the entries, each
    transaction sums to zero, and the positions of a vault's users add up to its
    pool. *)
Lemma vault_postings_balanced s v :
  reach any_op s →
  LedgerService.VerifyBalances (ledger (db s)) = Ok [] ∧
  (∀ tx, i64 (group_sum tx (entries (ledger (db s)))) = 0) ∧
  SumUserPositionBalances v (ledger (db s)) = Ok (GetVaultPoolBalance v (ledger (db s))).
Proof.
  intros Hr. destruct (reach_sound _ s Hr) as [Hs _]. destruct (sd_idle _ Hs) as (_ & _ & HC & HB).
  split_and!; [by apply RecomputeBalances_core|done|].
  apply positions_reads; [done|apply Hs].
Qed.

(** Amounts that a hundred-millionth column holds exactly. *)
Definition exact_amount (amount : decimal) (a : Z) : Prop := (value amount == col a)%Q.

Lemma exact_add c amount a w :
  exact_amount amount a → numeric 48 (col c + value amount)%Q = Ok w → w = c + a.
Proof.
  unfold exact_amount. intros Ha. rewrite (numeric_proper _ _ (col (c + a))); [apply numeric_col|].
  rewrite Ha. unfold col, Qeq. cbn. lia.
Qed.

Lemma exact_sub c amount a w :
  exact_amount amount a → numeric 48 (col c - value amount)%Q = Ok w → w = c - a.
Proof.
  unfold exact_amount. intros Ha. rewrite (numeric_proper _ _ (col (c - a))); [apply numeric_col|].
  rewrite Ha. unfold col, Qeq. cbn. lia.
Qed.

(** The balances of the rows that satisfy [p], and what one update adds. *)
Definition balances_of (p : VaultRow → bool) (d : DB) : Z :=
  sum_Z (map CurrentBalance (filter (λ r, p r = true) (map snd (map_to_list (rows d))))).

Lemma balances_update p d d' v r r' :
  rows d !! v = Some r → rows d' = <[v := r']> (rows d) → p r = true → p r' = true →
  balances_of p d' = balances_of p d + CurrentBalance r' - CurrentBalance r.
Proof.
  intros Hr Hd Hp Hp'. unfold balances_of. rewrite Hd.
  assert (∀ m : gmap Z VaultRow, ∀ x, m !! v = Some x → p x = true →
    sum_Z (map CurrentBalance (filter (λ r, p r = true) (map snd (map_to_list m)))) =
    CurrentBalance x + sum_Z (map CurrentBalance (filter (λ r, p r = true)
      (map snd (map_to_list (delete v m)))))) as Hsplit.
  { intros m x Hx Hpx. rewrite (sum_Z_perm _ (map CurrentBalance (filter (λ r, p r = true)
      (map snd ((v, x) :: map_to_list (delete v m)))))).
    - cbn. rewrite decide_True by done. done.
    - apply Permutation_map, filter_Permutation, Permutation_map. symmetry.
      by apply map_to_list_delete. }
  rewrite (Hsplit (rows d) r Hr Hp), (Hsplit (<[v:=r']> (rows d)) r') by (done || apply lookup_insert_eq).
  rewrite delete_insert_eq. lia.
Qed.

(** A deposit that is recorded with the launch caps checked leaves the
    owner's total and the protocol's total within their caps: the totals the
    check reads and the credit it allows are one atomic step. *)
Lemma recorded_deposit_within_caps cfg v rec tmpl s s' e r a :
  reach any_op s → rows (db s) !! v = Some r → RowUserID r = RecUserID rec →
  exact_amount (RecAmount rec) a →
  RecordDepositWithAudit scan_numeric v rec
    (Some (λ userTotal globalTotal, fst (Caps.EvaluateTotals (Some cfg) (RecUserID rec)
                                           (RecAmount rec) userTotal globalTotal))) tmpl s = (s', Ok e) →
  (0 < value (Caps.PerUserCap cfg) →
     col (user_total (RecUserID rec) (db s')) <= value (Caps.PerUserCap cfg))%Q ∧
  (0 < value (Caps.GlobalCap cfg) →
     col (global_total (db s')) <= value (Caps.GlobalCap cfg))%Q.
Proof.
  intros Hr Hv Hown Hex Hrun. pose proof Hex as Ha. unfold exact_amount in Ha. destruct (reach_sound _ s Hr) as [Hs _].
  pose proof (deposit_outcome v rec (Some (λ ut gt, fst (Caps.EvaluateTotals (Some cfg)
    (RecUserID rec) (RecAmount rec) ut gt))) tmpl s (sd_idle _ Hs)) as Ho.
  rewrite Hrun in Ho. unfold outcome in Ho. cbn [fst snd] in Ho.
  destruct Ho as (Hcheck & r0 & r' & t & au & He & Hset & _ & _ & _ & Hamt & Hpos & _).
  specialize (Hcheck _ eq_refl). cbn beta in Hcheck.
  assert (TxAmount t = a) as Hta.
  { revert Hamt. rewrite (numeric_proper _ _ (col a)) by done. apply numeric_col. }
  rewrite Hta in Hpos.
  assert (0 < value (RecAmount rec))%Q as Hgt by (rewrite Ha; unfold col, Qlt; cbn; lia).
  apply (Caps.EvaluateTotals_within _ _ _ _ _ Hgt) in Hcheck as [Hu Hg].
  pose proof (live_vault_rows _ _ _ (ef_live _ _ _ _ _ _ _ _ He)) as [Hr0 Hlive].
  rewrite Hv in Hr0. injection Hr0 as <-.
  pose proof (proj1 (current_after (clock s) _ 0%Q r r') (or_introl Hset)) as Hcur.
  apply (exact_add _ _ a) in Hcur; [|done].
  destruct (ef_kept _ _ _ _ _ _ _ _ He) as (Ku & _ & Kd).
  assert (live r' = true) as Hlive' by (unfold live in *; by rewrite Kd).
  pose proof (balances_update (λ x, (RowUserID x =? RecUserID rec) && live x) (db s) (db s') v r r' Hv
    (ef_rows _ _ _ _ _ _ _ _ He)) as Hut.
  pose proof (balances_update live (db s) (db s') v r r' Hv (ef_rows _ _ _ _ _ _ _ _ He) Hlive Hlive') as Hgt'.
  cbn beta in Hut. rewrite Ku, Hown, Z.eqb_refl, Hlive, Hlive' in Hut. specialize (Hut eq_refl eq_refl).
  assert (∀ x y cap, (0 < value cap → value (scan_numeric x) + value (RecAmount rec) <= value cap)%Q →
    y = x + a → (0 < value cap → col y <= value cap)%Q) as Hfin.
  { intros x y cap Hw -> Hc. specialize (Hw Hc). rewrite scan_numeric_value, Ha in Hw.
    eapply Qle_trans; [|exact Hw]. unfold col, Qle. cbn. lia. }
  split; [eapply (Hfin _ _ _ Hu)|eapply (Hfin _ _ _ Hg)].
  - unfold user_total, balances_of in *. lia.
  - unfold global_total, balances_of in *. lia.
Qed.

(** Amounts that are a positive whole number [n] of stroops. *)
Definition whole_stroops (amount : decimal) (n : Z) : Prop :=
  0 < n ∧ in_i64 n ∧ (value amount == n # 10000000)%Q.

Lemma whole_stroops_exact amount n :
  whole_stroops amount n → VaultRepo.decimalToStroops amount = n ∧ exact_amount amount (10 * n).
Proof.
  intros (Hn & Hr & Hv). split.
  - change (VaultRepo.decimalToStroops amount) with (LedgerService.decimalToStroops amount).
    rewrite (proj1 (LedgerBooks.stroops_exact amount 0)), (half_away_proper _ (inject_Z n)).
    + by rewrite half_away_integer, i64_id.
    + rewrite Hv. unfold Qeq. cbn. lia.
  - unfold exact_amount. rewrite Hv. unfold col, Qeq. cbn. lia.
Qed.

(** Audited operations on whole stroops that leave what they pay in the vault:
    a harvest compounds. *)
Definition exact_op (o : Op) : Prop :=
  match o with
  | OpDepositWithAudit _ rec _ _ | OpWithdrawalWithAudit _ rec _ => ∃ n, whole_stroops (RecAmount rec) n
  | OpHarvestWithAudit input _ => Compounded input = true ∧ ∃ n, whole_stroops (NetYield input) n
  | OpConfirmedDeposit _ u amount _ _ | OpConfirmedWithdrawal _ u amount _ =>
      u ≠ 0 ∧ ∃ n, whole_stroops amount n
  | OpDelete _ => True
  | _ => False
  end.

(** A vault's row and its pool in the ledger tell the same balance. *)
Record tracks (d : DB) : Prop := {
  trk_row v r : rows d !! v = Some r →
    CurrentBalance r = 10 * sum_over (is_pool v) (ledger d);
  trk_none v : rows d !! v = None → sum_over (is_pool v) (ledger d) = 0;
}.

Lemma audited_tracks v f u ty amount h x q0 d0 q d :
  audited v f u ty amount h x q0 d0 q d →
  (∀ r r', f r = Ok r' → CurrentBalance r' = CurrentBalance r + 10 * x) →
  tracks d0 → tracks d.
Proof.
  intros (r & r' & t & a & He & Hf & _) Hx [T1 T2].
  destruct (live_vault_rows _ _ _ (ef_live _ _ _ _ _ _ _ _ He)) as [Hr _].
  pose proof (λ w, proj2 (moved_sums _ _ _ _ (ef_ledger _ _ _ _ _ _ _ _ He) w)) as Hs.
  specialize (Hx _ _ Hf). constructor; intros w; rewrite (ef_rows _ _ _ _ _ _ _ _ He), Hs;
    (destruct (Z.eqb_spec w v) as [->|Hne];
      [rewrite lookup_insert_eq|rewrite lookup_insert_ne by done]).
  - intros z [= <-]. specialize (T1 v r Hr). lia.
  - intros z Hz. specialize (T1 w z Hz). lia.
  - done.
  - intros Hz. specialize (T2 w Hz). lia.
Qed.

Lemma exact_credit now amount n r r' :
  whole_stroops amount n → set_credit now (value amount) r = Ok r' →
  CurrentBalance r' = CurrentBalance r + 10 * positive (VaultRepo.decimalToStroops amount).
Proof.
  intros Hw Hs. pose proof Hw as (Hn & _). destruct (whole_stroops_exact _ _ Hw) as [-> Hex].
  unfold positive. destruct (Z.leb_spec n 0); [lia|]. apply (exact_add _ amount) with (1 := Hex).
  by apply (current_after now _ 0%Q r r'); left.
Qed.

Lemma exact_debit now amount n r r' :
  whole_stroops amount n → set_debit now (value amount) r = Ok r' →
  CurrentBalance r' = CurrentBalance r + 10 * - positive (VaultRepo.decimalToStroops amount).
Proof.
  intros Hw Hs. pose proof Hw as (Hn & _). destruct (whole_stroops_exact _ _ Hw) as [-> Hex].
  replace (CurrentBalance r + 10 * - positive n) with (CurrentBalance r - 10 * n)
    by (unfold positive; destruct (Z.leb_spec n 0); lia).
  apply (exact_sub _ amount) with (1 := Hex). by apply (current_after now _ 0%Q r r'); left.
Qed.

Lemma op_tracks o s : idle s → exact_op o → tracks (db s) → tracks (db (fst (run_op o s))).
Proof.
  intros Hi He Ht.
  assert (∀ A (m : M A) R v f u ty amount h x, outcome s (m s) R → fst (run_op o s) = fst (m s) →
    (∀ a q d, R a q d → d = db s ∨ audited v f u ty amount h x (seq_next s) (db s) q d) →
    (∀ r r', f r = Ok r' → CurrentBalance r' = CurrentBalance r + 10 * x) →
    tracks (db (fst (run_op o s)))) as Hgo.
  { intros A m R v f u ty amount h x Ho Heq HR Hf. rewrite Heq. unfold outcome in Ho.
    destruct (m s) as [s' [a|e]]; cbn in *; [|by rewrite Ho].
    destruct (HR _ _ _ Ho) as [->|Ha]; [done|by eapply audited_tracks]. }
  destruct o as [| v rec check tmpl| |v rec tmpl| |input tmpl| |v u amount h check|v u amount h|v| |];
    try done; cbn [run_op exact_op] in *.
  - destruct He as [n Hn]. eapply Hgo; [by apply (deposit_outcome v rec check tmpl)|apply fst_drop| |].
    + cbn. naive_solver.
    + intros r r'. by apply exact_credit with (n := n).
  - destruct He as [n Hn]. eapply Hgo; [by apply (withdrawal_outcome v rec tmpl)|apply fst_drop| |].
    + cbn. naive_solver.
    + intros r r'. by apply exact_debit with (n := n).
  - destruct He as [Hc [n Hn]]. pose proof Hn as (Hpos & _).
    eapply Hgo; [by apply (harvest_commits input tmpl)|apply fst_drop| |].
    + cbn. naive_solver.
    + intros r r' Hs. destruct (harvest_set_facts (clock s) _ _ _ Hs) as [_ Hcur]. rewrite Hc in Hcur.
      unfold harvest_stroops. destruct (whole_stroops_exact _ _ Hn) as [-> Hex].
      destruct (Z.leb_spec n 0); [lia|]. cbn. by eapply exact_add.
  - destruct He as [Hu [n Hn]].
    eapply Hgo; [by apply (confirmed_outcome v u amount h "deposit" check)|apply fst_drop| |].
    + cbn. naive_solver.
    + intros r r' Hs. unfold confirmed_stroops. rewrite (proj2 (Z.eqb_neq _ _) Hu).
      by apply exact_credit with (n := n) (now := clock s).
  - destruct He as [Hu [n Hn]].
    eapply Hgo; [by apply (confirmed_outcome v u amount h "withdrawal" None)|apply fst_drop| |].
    + cbn. naive_solver.
    + intros r r' Hs. unfold confirmed_stroops. rewrite (proj2 (Z.eqb_neq _ _) Hu).
      by apply exact_debit with (n := n) (now := clock s).
  - clear Hgo. destruct (delete_outcome v s) as (_ & [Hd|(r & Hr & Hd)]); rewrite Hd; [done|].
    destruct Ht as [T1 T2]. constructor; cbn; intros w; (destruct (decide (w = v)) as [->|];
      [rewrite lookup_insert_eq|rewrite lookup_insert_ne by done; auto]); [|done].
    intros z [= <-]. apply (T1 v r Hr).
Qed.

(** C27: the ledger tells the balances. As long as balances change only through audited
    deposits and withdrawals, confirmed movements of a named user and compounded harvests,
    each of whole stroops, and vaults are opened empty or deleted, the pool of every vault
    in the double-entry ledger is exactly its current balance. Paid-out harvests and
    unaudited movements are left out: they part the two. *)
Theorem pool_tracks_balance s v r :
  reach exact_op s → rows (db s) !! v = Some r →
  CurrentBalance r = 10 * GetVaultPoolBalance v (ledger (db s)).
Proof.
  intros Hr Hv.
  assert (tracks (db s)) as Ht.
  { clear Hv. induction Hr as [|s s' Hr IH Hs]; [by constructor|].
    destruct (reach_sound _ s Hr) as [Hsd _]. destruct Hs as [o s Ho|w owner cap s Hn Hni|u cap s Hu|w x now s Hl|n fs now s Hle].
    - apply op_tracks; [apply Hsd|done|done].
    - destruct IH as [T1 T2].
      assert (∀ w', sum_over (is_pool w') (ledger (add_vault w owner cap (clock s) (db s))) =
        sum_over (is_pool w') (ledger (db s))) as Hsame by reflexivity.
      constructor; intros w'; cbn [db with_db]; rewrite Hsame; cbn [rows add_vault];
        (destruct (decide (w' = w)) as [->|];
          [rewrite lookup_insert_eq|rewrite lookup_insert_ne by done]); auto.
      intros z [= <-]. cbn. by rewrite T2.
    - destruct IH as [T1 T2]. by constructor.
    - destruct IH as [T1 T2].
      constructor; cbn; intros w'; (destruct (decide (w' = w)) as [->|];
        [rewrite lookup_insert_eq|rewrite lookup_insert_ne by done; auto]); [|done].
      intros z [= <-]. by apply (T1 w x).
    - done. }
  destruct (reach_sound _ s Hr) as [Hs _]. destruct (sd_idle _ Hs) as (_ & _ & HC & _).
  rewrite (trk_row _ Ht v r Hv). unfold GetVaultPoolBalance, is_pool.
  by rewrite single_balance.
Qed.

Lemma set_credit_fields now amount a r r' :
  exact_amount amount a → set_credit now (value amount) r = Ok r' →
  CurrentBalance r' = CurrentBalance r + a ∧ TotalDeposited r' = TotalDeposited r + a ∧
  YieldEarned r' = YieldEarned r ∧ FeesPaid r' = FeesPaid r.
Proof.
  unfold set_credit. intros Ha (t & Ht & (c & Hc & [= <-])%result_bind_ok)%result_bind_ok. cbn.
  split_and!; [by eapply exact_add|by eapply exact_add|done|done].
Qed.

Lemma set_debit_fields now amount a r r' :
  exact_amount amount a → set_debit now (value amount) r = Ok r' →
  CurrentBalance r' = CurrentBalance r - a ∧ TotalDeposited r' = TotalDeposited r ∧
  YieldEarned r' = YieldEarned r ∧ FeesPaid r' = FeesPaid r.
Proof.
  unfold set_debit. intros Ha (c & Hc & [= <-])%result_bind_ok. cbn.
  split_and!; [by eapply exact_sub|done|done|done].
Qed.

(** One row of vault [v] changed to [r'], one transaction and one audit entry
    of amount [a] appended, every other row as it was. *)
Definition booked (v : Z) (ty : string) (a : Z) (r r' : VaultRow) (d0 d : DB) : Prop :=
  rows d = <[v := r']> (rows d0) ∧
  (∃ t, txs d = txs d0 ++ [t] ∧ TxVaultID t = v ∧ TxType t = ty ∧ TxAmount t = a) ∧
  (∃ e, audit d = audit d0 ++ [e] ∧ AuVaultID e = v ∧
     AuBefore e = CurrentBalance r ∧ AuAfter e = CurrentBalance r').

Lemma audited_booked v f u ty amount a h x q0 d0 q d :
  audited v f u ty (value amount) h x q0 d0 q d → exact_amount amount a →
  ∃ r r', live_vault v d0 = Some r ∧ f r = Ok r' ∧ check_row r' = true ∧ booked v ty a r r' d0 d.
Proof.
  intros (r & r' & t & e & He & Hf & T1 & T2 & T3 & T4 & T5 & T6 & A1 & A2 & A3 & _) Hex.
  exists r, r'. split; [apply He|]. split; [done|]. split; [apply He|].
  split; [apply He|]. split; [|exists e; split; [apply He|done]].
  exists t. split; [apply He|]. split_and!; try done.
  revert T4. rewrite (numeric_proper _ _ (col a)) by done. apply numeric_col.
Qed.

(** Recording a deposit or a withdrawal is all or nothing. When it
    succeeds the vault's balance moves by exactly the amount, a deposit adds to
    the total deposited and a withdrawal does not, a withdrawal never exceeds the
    balance, one transaction row and one audit entry with the balances before and
    after are appended, and no other row changes; when it fails nothing does. *)
Lemma recorded_movements_exact v rec check tmpl s a :
  reach any_op s → exact_amount (RecAmount rec) a →
  outcome s (RecordDepositWithAudit scan_numeric v rec check tmpl s) (λ _ _ d, ∃ r r',
    live_vault v (db s) = Some r ∧ booked v "deposit" a r r' (db s) d ∧
    CurrentBalance r' = CurrentBalance r + a ∧ TotalDeposited r' = TotalDeposited r + a ∧
    YieldEarned r' = YieldEarned r ∧ FeesPaid r' = FeesPaid r) ∧
  outcome s (RecordWithdrawalWithAudit scan_numeric v rec tmpl s) (λ _ _ d, ∃ r r',
    live_vault v (db s) = Some r ∧ booked v "withdrawal" a r r' (db s) d ∧
    a ≤ CurrentBalance r ∧
    CurrentBalance r' = CurrentBalance r - a ∧ TotalDeposited r' = TotalDeposited r ∧
    YieldEarned r' = YieldEarned r ∧ FeesPaid r' = FeesPaid r).
Proof.
  intros Hr Hex. destruct (reach_sound _ s Hr) as [Hs _]. split.
  - pose proof (deposit_outcome v rec check tmpl s (sd_idle _ Hs)) as Ho. unfold outcome in *.
    destruct (RecordDepositWithAudit _ _ _ _ _ s) as [s' [e|e]]; [|done]. cbn in *.
    destruct Ho as [_ Ha]. destruct (audited_booked _ _ _ _ _ _ _ _ _ _ _ _ Ha Hex)
      as (r & r' & Hl & Hf & _ & Hb). exists r, r'. split; [done|]. split; [done|].
    by apply (set_credit_fields (clock s) (RecAmount rec)).
  - pose proof (withdrawal_outcome v rec tmpl s (sd_idle _ Hs)) as Ho. unfold outcome in *.
    destruct (RecordWithdrawalWithAudit _ _ _ _ s) as [s' [e|e]]; [|done]. cbn in *.
    destruct (audited_booked _ _ _ _ _ _ _ _ _ _ _ _ Ho Hex) as (r & r' & Hl & Hf & Hc & Hb).
    exists r, r'. split; [done|]. split; [done|].
    destruct (set_debit_fields (clock s) (RecAmount rec) a r r' Hex Hf) as (E1 & E2 & E3 & E4).
    split_and!; try done. unfold check_row in Hc. repeat (apply andb_true_iff in Hc as [Hc ?]). lia.
Qed.

(** A rebalance that carries a transaction hash never commits: its first two
    rows both claim it. *)
Lemma rebalance_with_hash_fails input w d h s :
  idle s → nullif_empty (TransactionHash w) = Some h → nullif_empty (TransactionHash d) = Some h →
  ∃ e, RecordRebalance input w d s = (fst (RecordRebalance input w d s), Err e) ∧
    db (fst (RecordRebalance input w d s)) = db s.
Proof.
  intros Hi Hw Hd.
  assert (outcome s (RecordRebalance input w d s) (λ _ _ _, False)) as Ho.
  { apply (withTx_outcome _ s (λ _ _ _, False) Hi). destruct Hi as (_ & Hb & HB).
    pose proof (Kept_stable (clock s) (db s) HB). pose proof (Taken_stable (clock s) (db s) h HB).
    pose proof (Never_stable (clock s)).
    eapply ensures_pre with (P' := Kept (db s)).
    { intros q n d' (_ & -> & ->). split; [done|by apply change_same]. }
    apply (ensures_bind _ _ _ _ (λ _, Kept (db s))); [keep|intros ?].
    eapply ensures_bind with (R := λ _, Taken (db s) h); [|intros ?; refuse h].
    eapply ensures_post; [|apply insert_record_strict]. cbn.
    intros _ q n d' (d1 & t & Hk & Hf & -> & Ht).
    split; [eapply (st_next _ _ H1 q (n - 1)) in Hk; [|reflexivity|instantiate (1 := n); lia]|].
    - destruct Hk as [Hb1 Hc1]. split; [done|]. eapply change_trans; [done|].
      constructor; cbn; try done; [by left|]. exists [t]. split; [done|].
      destruct Ht as (_ & _ & _ & _ & _ & Hht & _). apply fresh_one. by rewrite Hht.
    - destruct Ht as (_ & _ & _ & _ & _ & Hht & _). unfold hash_taken. cbn.
      rewrite existsb_app. cbn. rewrite Hht, Hw, bool_decide_true by done.
      by rewrite orb_true_r. }
  unfold outcome in Ho. destruct (RecordRebalance input w d s) as [s' [[]|e]]; [done|]. by exists e.
Qed.

End runs.

End statements.

(** *** Concrete runs *)

#[local] Existing Instances QDecimal QDecimal_laws QDecimalOrder QDecimalOrder_laws.

Definition dec (x : Q) : decimal := x.

Definition scan_Q (z : Z) : decimal := (col z : Q).

Lemma scan_Q_value z : (value (scan_Q z) == col z)%Q.
Proof. reflexivity. Qed.

Definition id_text (u : Z) : string := "user".

Definition demo_record (amount : decimal) (hash : string) : TransactionRecord :=
  mkRecord 9 amount hash (dec 1) (dec 1) (dec 0).

Definition demo_template : AuditEntry := mkAuditEntry 0 0 0 9 "9" "deposit" (dec 5) (dec 0) (dec 0) "h1" None 0.

(** User 9 owns vault 7, whose soft capacity is 3. *)
Definition s_user : Session := with_db start (add_user 9 None (db start)).
Definition s_vault : Session :=
  with_db s_user (add_vault 7 9 (Some 300000000) (clock s_user) (db s_user)).
Definition op_deposit : Op := OpDepositWithAudit 7 (demo_record (dec 5) "h1") None demo_template.
Definition s_deposit : Session := fst (run_op scan_Q id_text op_deposit s_vault).

Lemma demo_reach allowed : allowed op_deposit → reach scan_Q id_text allowed s_deposit.
Proof.
  intros Hop. apply (reach_step _ _ _ s_vault); [|by apply step_op].
  apply (reach_step _ _ _ s_user); [|apply step_vault; [reflexivity|by intros ?%elem_of_nil]].
  apply (reach_step _ _ _ start); [apply reach_start|by apply step_user].
Qed.

Definition demo_row : VaultRow :=
  mkVaultRow 9 500000000 500000000 0 0 (Some 300000000) None 0 None.

Lemma demo_lookup : rows (db s_deposit) !! 7 = Some demo_row.
Proof. vm_compute. reflexivity. Qed.

Lemma audit_trail_reconciles_witness :
  0 ≤ CurrentBalance demo_row ∧
  StronglySorted (λ a b, Seq a < Seq b) (entries_of 7 (db s_deposit)) ∧
  ∃ total, Reconcile (map (scan_audit scan_Q) (entries_of 7 (db s_deposit))) = Some total ∧
    (value total == col (CurrentBalance demo_row))%Q.
Proof.
  apply (audit_trail_reconciles scan_Q scan_Q_value id_text s_deposit 7 demo_row).
  - by apply demo_reach.
  - exact demo_lookup.
Defined.

Lemma hash_recorded_once_witness :
  let again := OpConfirmedDeposit 7 9 (dec 5) "h1" None in
  hash_taken (Some "h1"%string) (db s_deposit) = true ∧
  db (fst (run_op scan_Q id_text again s_deposit)) = db s_deposit.
Proof.
  split; [vm_compute; reflexivity|].
  apply (hash_recorded_once scan_Q scan_Q_value id_text s_deposit
    (OpConfirmedDeposit 7 9 (dec 5) "h1" None) "h1"%string).
  - by apply demo_reach.
  - by left.
  - vm_compute. reflexivity.
Defined.

Lemma vault_postings_balanced_witness :
  LedgerService.VerifyBalances (ledger (db s_deposit)) = Ok [] ∧
  SumUserPositionBalances 7 (ledger (db s_deposit)) = Ok 50000000 ∧
  SumUserPositionBalances 7 (ledger (db s_deposit)) =
    Ok (GetVaultPoolBalance 7 (ledger (db s_deposit))).
Proof.
  pose proof (vault_postings_balanced scan_Q scan_Q_value id_text s_deposit 7 (demo_reach _ I))
    as (H1 & _ & H2).
  split; [exact H1|]. split; [vm_compute; reflexivity|exact H2].
Defined.

Lemma pool_tracks_balance_witness :
  CurrentBalance demo_row = 10 * GetVaultPoolBalance 7 (ledger (db s_deposit)).
Proof.
  apply (pool_tracks_balance scan_Q scan_Q_value id_text s_deposit 7 demo_row).
  - apply demo_reach. exists 50000000. split; [reflexivity|]. split; [by vm_compute|reflexivity].
  - exact demo_lookup.
Defined.

Definition demo_caps : Caps.Config := Caps.mkConfig (dec 20) (dec 100) [].
Definition capped_deposit : M AuditEntry :=
  RecordDepositWithAudit scan_Q 7 (demo_record (dec 5) "h2")
    (Some (λ userTotal globalTotal,
       fst (Caps.EvaluateTotals (Some demo_caps) 9 (dec 5) userTotal globalTotal))) demo_template.

Lemma recorded_deposit_within_caps_witness :
  is_ok (snd (capped_deposit s_deposit)) = true ∧
  (col (user_total 9 (db (fst (capped_deposit s_deposit)))) <= 20)%Q.
Proof.
  assert (is_ok (snd (capped_deposit s_deposit)) = true) as Hok by (vm_compute; reflexivity).
  split; [exact Hok|]. destruct (capped_deposit s_deposit) as [s' [e|e]] eqn:E; [|discriminate Hok].
  apply (recorded_deposit_within_caps scan_Q scan_Q_value id_text demo_caps 7 (demo_record (dec 5) "h2")
    demo_template s_deposit s' e demo_row 500000000).
  - by apply demo_reach.
  - exact demo_lookup.
  - reflexivity.
  - reflexivity.
  - exact E.
  - reflexivity.
Defined.

Lemma recorded_movements_exact_witness :
  outcome s_deposit (RecordWithdrawalWithAudit scan_Q 7 (demo_record (dec 2) "h3") demo_template s_deposit)
    (λ _ _ d, ∃ r r', live_vault 7 (db s_deposit) = Some r ∧
       booked 7 "withdrawal" 200000000 r r' (db s_deposit) d ∧
       200000000 ≤ CurrentBalance r ∧ CurrentBalance r' = CurrentBalance r - 200000000 ∧
       TotalDeposited r' = TotalDeposited r ∧
       YieldEarned r' = YieldEarned r ∧ FeesPaid r' = FeesPaid r).
Proof.
  assert (exact_amount (RecAmount (demo_record (dec 2) "h3")) 200000000) as Hex by reflexivity.
  exact (proj2 (recorded_movements_exact scan_Q scan_Q_value id_text 7 (demo_record (dec 2) "h3") None
    demo_template s_deposit 200000000 (demo_reach _ I) Hex)).
Defined.

(** The audited deposit ignores the vault's soft capacity and the user's daily
    cap, which only [RecordDeposit] checks: here 5 goes into a vault that may
    hold 3. *)
Lemma soft_capacity_ignored :
  match snd (RecordDeposit scan_Q 7 (demo_record (dec 5) "h1") s_vault) with
  | Err (ErrCap Caps.ErrVaultCapExceeded) => true | _ => false end = true ∧
  CurrentBalance demo_row > default 0 (SoftCapacity demo_row) ∧
  rows (db s_deposit) !! 7 = Some demo_row.
Proof. split_and!; [vm_compute; reflexivity|reflexivity|exact demo_lookup]. Qed.

(** A rebalance moves money between protocols of one vault, yet adds to its
    total deposited. *)
Lemma rebalance_inflates_total :
  let s' := fst (RecordRebalance (mkRebalance 7 9 "blend" "aave" (dec 1) "")
    (demo_record (dec 1) "") (demo_record (dec 1) "") s_deposit) in
  CurrentBalance <$> rows (db s') !! 7 = Some 500000000 ∧
  TotalDeposited <$> rows (db s') !! 7 = Some 600000000.
Proof. split; vm_compute; reflexivity. Qed.

(** A harvest paid out lowers the balance and raises the ledger's pool. *)
Lemma paid_out_harvest_diverges :
  let s' := fst (RecordHarvestWithAudit scan_Q (mkHarvest 7 9 (dec 1) (dec (1#10)) false None "h4")
    demo_template s_deposit) in
  CurrentBalance <$> rows (db s') !! 7 = Some 400000000 ∧
  GetVaultPoolBalance 7 (ledger (db s')) = 60000000.
Proof. split; vm_compute; reflexivity. Qed.

End VaultBooks.
