(* ===== verification/Transactions.v ===== *)
(** On-chain transactions (src/apps/api/internal/domain/transaction/model.go,
    service/transaction_service.go, service/transaction_chain_claim.go,
    service/transaction_poller.go and
    repository/postgres/transaction_repository.go): registering a transaction
    hash, checking it against the chain, and moving the vault's balance through
    the vault repository once it is confirmed. *)
From S2P Require Import Prelude Decimals Ledger LedgerRepo Caps VaultRepo.
Open Scope Z_scope.

Module Transactions.
Import Decimals Ledger.

(** *** The model *)

Definition TypeDeposit : string := "deposit".
Definition TypeWithdrawal : string := "withdrawal".

Inductive TransactionStatus := StatusPending | StatusCompleted | StatusFailed.
#[global] Instance TransactionStatus_eq_dec : EqDecision TransactionStatus.
Proof. solve_decision. Defined.

Definition status_string (s : TransactionStatus) : string :=
  match s with
  | StatusPending => "pending"
  | StatusCompleted => "completed"
  | StatusFailed => "failed"
  end.

Definition ReasonNoMatchingOperation : string := "chain_no_matching_operation".
Definition ReasonAmountMismatch : string := "chain_amount_mismatch".
Definition ReasonAssetMismatch : string := "chain_asset_mismatch".
Definition ReasonDestinationMismatch : string := "chain_destination_mismatch".
Definition ReasonVaultUnresolvable : string := "chain_vault_unresolvable".

(** *** What Horizon answers *)

(** [horizonOperation], as decoded. *)
Record horizonOperation := mkOperation {
  OpType : string;
  AssetType : string;
  AssetCode : string;
  AssetIssuer : string;
  OpAmount : string;
  From : string;
  To : string;
  OpAccount : string;
  Into : string;
  AssetName : string;
}.

(** [horizonTransactionResponse]; [CreatedAt] is what [time.Parse] makes of the
    field. *)
Record horizonTransactionResponse := mkResponse {
  Successful : bool;
  ResponseCreatedAt : option Time;
  ResultXdr : string;
}.

(** An HTTP exchange: it fails, or it has a status and a body, which may not
    decode. *)
Inductive HttpAnswer (A : Type) :=
| HttpFails
| HttpStatus (code : Z) (body : option A).
Arguments HttpFails {A}.
Arguments HttpStatus {A} code body.

(** Horizon's answers during one reconciliation. *)
Record Horizon := mkHorizon {
  transaction_answer : string → HttpAnswer horizonTransactionResponse;
  operations_answer : string → HttpAnswer (list horizonOperation);
}.

(** The first of the candidates that is not blank. *)
Fixpoint first_nonblank (candidates : list string) : string :=
  match candidates with
  | [] => ""
  | candidate :: rest =>
      let c := TrimSpace candidate in
      if negb (c =s? "") then c else first_nonblank rest
  end.

Definition destination (o : horizonOperation) : string :=
  first_nonblank [To o; Into o; OpAccount o].

Definition assetCode (o : horizonOperation) : string :=
  if EqualFold (TrimSpace (AssetType o)) "native" then "XLM"
  else ToUpper (TrimSpace (AssetCode o)).

Definition isValueTransfer (o : horizonOperation) : bool :=
  let t := ToLower (TrimSpace (OpType o)) in
  existsb (λ k, t =s? k)
    ["payment"; "create_account"; "account_merge"; "path_payment_strict_receive";
     "path_payment_strict_send"; "invoke_host_function"].

Section service.
  Context `{DecimalOrderLaws}.

Record Transaction := mkTransaction {
  ID : Z;
  VaultID : Z;
  Type_ : string;
  Amount : decimal;
  Currency : string;
  TxHash : string;
  Status : TransactionStatus;
  ErrorReason : string;
  CreatedAt : Time;
  UpdatedAt : Time;
  ConfirmedAt : option Time;
}.

Definition with_amount (m : Transaction) (a : decimal) : Transaction :=
  mkTransaction (ID m) (VaultID m) (Type_ m) a (Currency m) (TxHash m) (Status m) (ErrorReason m)
    (CreatedAt m) (UpdatedAt m) (ConfirmedAt m).

Inductive TxErr :=
| ErrTransactionNotFound | ErrInvalidTransaction | ErrInvalidType
| ErrChainClaimMismatch | ErrUnverifiedChainTx
| errTransactionPending | ErrHorizon
| ErrResolveOwner (e : VaultRepo.VaultErr) | ErrResolveVault (e : VaultRepo.VaultErr)
| ErrVaultRepo (e : VaultRepo.VaultErr) | ErrTxDb (e : VaultRepo.DbError).

(** *** The claim against the chain *)

Record chainClaim := mkClaim {
  ClaimDestination : string;
  ClaimAsset : string;
  ClaimAmount : decimal;
}.

(** The walk over the operations of [verifyChainClaim]: the amount of the first
    that bears the claim out, else how far the best ones got. *)
Fixpoint scan_operations (claim : chainClaim) (ops : list horizonOperation)
    (destinationMatched assetMatched : bool) : decimal + (bool * bool) :=
  match ops with
  | [] => inr (destinationMatched, assetMatched)
  | op :: rest =>
      if negb (isValueTransfer op) then scan_operations claim rest destinationMatched assetMatched
      else if negb (EqualFold (destination op) (ClaimDestination claim))
      then scan_operations claim rest destinationMatched assetMatched
      else if negb (ClaimAsset claim =s? "") && negb (EqualFold (assetCode op) (ClaimAsset claim))
      then scan_operations claim rest true assetMatched
      else
        match NewFromString (TrimSpace (OpAmount op)) with
        | None => scan_operations claim rest true true
        | Some onChain =>
            if Cmp onChain Zero <=? 0 then scan_operations claim rest true true
            else if negb (dec_Equal onChain (ClaimAmount claim))
            then scan_operations claim rest true true
            else inl onChain
        end
  end.

Definition lookupHorizonOperations (hz : Horizon) (hash : string)
  : result TxErr (list horizonOperation) :=
  match operations_answer hz hash with
  | HttpFails => Err ErrHorizon
  | HttpStatus code body =>
      if code =? 404 then Err errTransactionPending
      else if negb (code =? 200) then Err ErrHorizon
      else match body with Some ops => Ok ops | None => Err ErrHorizon end
  end.

(** An error comes with the reason to record. *)
Definition verifyChainClaim (hz : Horizon) (hash : string) (claim : chainClaim)
  : result (string * TxErr) decimal :=
  match lookupHorizonOperations hz hash with
  | Err e => Err (""%string, e)
  | Ok ops =>
      match scan_operations claim ops false false with
      | inl amount => Ok amount
      | inr (destinationMatched, assetMatched) =>
          if negb destinationMatched then
            if (length ops =? 0)%nat then Err (ReasonNoMatchingOperation, ErrChainClaimMismatch)
            else Err (ReasonDestinationMismatch, ErrChainClaimMismatch)
          else if negb assetMatched then Err (ReasonAssetMismatch, ErrChainClaimMismatch)
          else Err (ReasonAmountMismatch, ErrChainClaimMismatch)
      end
  end.

(** *** The table *)

(** A row of [transactions]; its [tx_hash] is the key it is stored under. *)
Record TransactionRow := mkRow {
  RowID : Z;
  RowVaultID : Z;
  RowType : string;
  RowAmount : Z;
  RowCurrency : string;
  RowStatus : TransactionStatus;
  RowErrorReason : string;
  RowCreatedAt : Time;
  RowUpdatedAt : Time;
  RowConfirmedAt : option Time;
}.

(** The columns of [vaults] that the vault repository's model leaves out. *)
Record VaultInfo := mkInfo { ContractAddress : string; VaultCurrency : string }.

Record State := mkState {
  vaults : VaultRepo.Session;
  transactions : gmap string TransactionRow;
  infos : Z → VaultInfo;
}.

Definition with_vaults (s : State) x := mkState x (transactions s) (infos s).
Definition with_transactions (s : State) x := mkState (vaults s) x (infos s).

Definition M (A : Type) : Type := State → State * result TxErr A.

#[global] Instance M_ret : MRet M := λ A a s, (s, Ok a).
#[global] Instance M_bind : MBind M := λ A B k m s,
  match m s with
  | (s1, Ok a) => k a s1
  | (s1, Err e) => (s1, Err e)
  end.

Definition throw {A} (e : TxErr) : M A := λ s, (s, Err e).
Definition of_result {A} (r : result TxErr A) : M A := λ s, (s, r).

(** A call of the vault repository. *)
Definition on_vaults {A} (wrap : VaultRepo.VaultErr → TxErr) (m : VaultRepo.M A) : M A := λ s,
  let '(v, r) := m (vaults s) in
  (with_vaults s v, match r with Ok a => Ok a | Err e => Err (wrap e) end).

(** One statement on [transactions], committed at once; an error is mapped by
    [mapTransactionError]. *)
Definition mapTransactionError (e : VaultRepo.DbError) : TxErr :=
  match e with
  | VaultRepo.DbFk c => if Contains c "vault" then ErrInvalidTransaction else ErrTxDb e
  | VaultRepo.DbPg (UniqueViolation _) => ErrInvalidTransaction
  | _ => ErrTxDb e
  end.

Definition exec_tx {A} (f : Time → State → result VaultRepo.DbError (gmap string TransactionRow * A))
  : M A := λ s,
  let '(lost, v) := VaultRepo.round_trip (vaults s) in
  let s1 := with_vaults s v in
  if lost then (s1, Err (mapTransactionError (VaultRepo.DbPg ConnectionFailure)))
  else match f (VaultRepo.clock v) s1 with
       | Ok (t, a) => (with_transactions s1 t, Ok a)
       | Err e => (s1, Err (mapTransactionError e))
       end.

Definition transaction_types : list string := ["deposit"; "withdrawal"; "allocation"; "settlement"].

(** [INSERT ... ON CONFLICT (tx_hash) DO UPDATE ... RETURNING]: on a conflict the
    row keeps its id and its creation time. *)
Definition upsert_row (m : Transaction) (now : Time) (s : State)
  : result VaultRepo.DbError (gmap string TransactionRow * TransactionRow) :=
  let? a := VaultRepo.numeric 48 (value (Amount m)) in
  if negb (bool_decide (Type_ m ∈ transaction_types)) || (a <=? 0) || (Currency m =s? "")
  then Err (VaultRepo.DbPg CheckViolation)
  else
    let existing := transactions s !! TxHash m in
    let row := mkRow (from_option RowID (ID m) existing) (VaultID m) (Type_ m) a (Currency m)
                 (Status m) (TrimSpace (ErrorReason m)) (from_option RowCreatedAt now existing) now
                 (ConfirmedAt m) in
    if match existing with
       | None => existsb (λ r, RowID r.2 =? ID m) (map_to_list (transactions s))
       | Some _ => false
       end
    then Err (VaultRepo.DbPg (UniqueViolation "transactions_pkey"))
    else if negb (bool_decide (VaultID m ∈ Ledger.vaults (VaultRepo.ledger (VaultRepo.db (vaults s)))))
    then Err (VaultRepo.DbFk "transactions_vault_id_fkey")
    else Ok (<[TxHash m := row]> (transactions s), row).

Definition Upsert (m : Transaction) : M Transaction :=
  row ← exec_tx (upsert_row m);
  mret (mkTransaction (ID m) (VaultID m) (Type_ m) (Amount m) (Currency m) (TxHash m) (Status m)
          (ErrorReason m) (RowCreatedAt row) (RowUpdatedAt row) (RowConfirmedAt row)).

(** How the driver reads a numeric column, and how an id prints. *)
Context (scan_numeric : Z → decimal) (uuid_String : Z → string).

Definition scanTransaction (hash : string) (r : TransactionRow) : Transaction :=
  mkTransaction (RowID r) (RowVaultID r) (RowType r) (scan_numeric (RowAmount r)) (RowCurrency r)
    hash (RowStatus r) (TrimSpace (RowErrorReason r)) (RowCreatedAt r) (RowUpdatedAt r)
    (RowConfirmedAt r).

Definition query_tx {A} (f : State → A) : M A := exec_tx (λ _ s, Ok (transactions s, f s)).

Definition GetByHash (hash : string) : M Transaction :=
  row ← query_tx (λ s, transactions s !! hash);
  match row with
  | None => throw ErrTransactionNotFound
  | Some r => mret (scanTransaction hash r)
  end.

(** Oldest first; rows created at the same time come in any order. *)
Definition created_le (a b : string * TransactionRow) : Prop := RowCreatedAt a.2 ≤ RowCreatedAt b.2.
#[global] Instance created_le_dec a b : Decision (created_le a b) := Z_le_dec _ _.

Definition select_pending (cutoff : Time) (t : gmap string TransactionRow)
  : list (string * TransactionRow) :=
  merge_sort created_le
    (filter (λ r, RowStatus r.2 = StatusPending ∧ RowCreatedAt r.2 ≤ cutoff) (map_to_list t)).

Definition Repo_ListPendingOlderThan (cutoff : Time) : M (list Transaction) :=
  rows ← query_tx (λ s, select_pending cutoff (transactions s));
  mret (map (λ r, scanTransaction r.1 r.2) rows).

Definition set_status (hash : string) (status : TransactionStatus) (confirmedAt : option Time)
    (errorReason : string) (now : Time) (s : State)
  : result VaultRepo.DbError (gmap string TransactionRow * Z) :=
  match transactions s !! hash with
  | None => Ok (transactions s, 0)
  | Some r =>
      Ok (<[hash := mkRow (RowID r) (RowVaultID r) (RowType r) (RowAmount r) (RowCurrency r) status
                      (TrimSpace errorReason) (RowCreatedAt r) now confirmedAt]> (transactions s), 1)
  end.

Definition UpdateStatus (hash : string) (status : TransactionStatus) (confirmedAt : option Time)
    (errorReason : string) : M Transaction :=
  rows ← exec_tx (set_status hash status confirmedAt errorReason);
  if rows =? 0 then throw ErrTransactionNotFound else GetByHash hash.

(** *** Vault lookups *)

Record VaultView := mkView { ViewUserID : Z; ViewContractAddress : string; ViewCurrency : string }.

(** [VaultRepository.GetVault]: the row, then its allocations. *)
Definition GetVault (id : Z) : VaultRepo.M Z :=
  r ← VaultRepo.map_err VaultRepo.mapRepositoryError
        (VaultRepo.exec_db (VaultRepo.query (λ _ d, VaultRepo.live_vault id d)));
  match r with
  | None => VaultRepo.throw VaultRepo.ErrVaultNotFound
  | Some r =>
      VaultRepo.map_err VaultRepo.mapRepositoryError
        (VaultRepo.exec_db (VaultRepo.query (λ _ _, ()))) ;;
      mret (VaultRepo.RowUserID r)
  end.

Definition lookup_vault (wrap : VaultRepo.VaultErr → TxErr) (id : Z) : M VaultView := λ s,
  (userID ← on_vaults wrap (GetVault id);
   mret (mkView userID (ContractAddress (infos s id)) (VaultCurrency (infos s id)))) s.

(** *** The service *)

(** What is wired in: Horizon's address, the vault lookup, the balance applier
    and the cap checker with its configuration. *)
Record Service := mkService {
  horizonURL : string;
  has_vaults : bool;
  has_balance : bool;
  capsChecker : option Caps.Config;
}.

Record RegisterTransactionInput := mkRegister {
  InVaultID : Z;
  InType : string;
  InAmount : decimal;
  InCurrency : string;
  InTxHash : string;
}.

Definition isSupportedTransactionType (t : string) : bool :=
  (t =s? TypeDeposit) || (t =s? TypeWithdrawal).

Definition RegisterTransaction (now : Time) (input : RegisterTransactionInput) : M Transaction :=
  if (InVaultID input =? 0) || (Cmp (InAmount input) Zero <=? 0) ||
     (TrimSpace (InCurrency input) =s? "") || (TrimSpace (InTxHash input) =s? "")
  then throw ErrInvalidTransaction
  else
    let normalizedType := ToLower (TrimSpace (InType input)) in
    if negb (isSupportedTransactionType normalizedType) then throw ErrInvalidType
    else
      id ← on_vaults ErrVaultRepo VaultRepo.uuid_New;
      Upsert (mkTransaction id (InVaultID input) normalizedType (InAmount input)
                (ToUpper (TrimSpace (InCurrency input))) (TrimSpace (InTxHash input)) StatusPending
                "" now now None).

Definition lookupHorizonTransaction (svc : Service) (hz : Horizon) (hash : string)
  : result TxErr (TransactionStatus * option Time * string) :=
  if horizonURL svc =s? "" then Ok (StatusPending, None, ""%string)
  else
    match transaction_answer hz hash with
    | HttpFails => Err ErrHorizon
    | HttpStatus code body =>
        if code =? 404 then Err errTransactionPending
        else if negb (code =? 200) then Err ErrHorizon
        else
          match body with
          | None => Err ErrHorizon
          | Some payload =>
              match ResponseCreatedAt payload with
              | None => Err ErrHorizon
              | Some confirmedAt =>
                  if Successful payload then Ok (StatusCompleted, Some confirmedAt, ""%string)
                  else Ok (StatusFailed, Some confirmedAt, TrimSpace (ResultXdr payload))
              end
          end
    end.

Definition verifyConfirmedClaim (svc : Service) (hz : Horizon) (model : Transaction)
  : M (result (string * TxErr) decimal) :=
  if negb (has_vaults svc) || negb (has_balance svc) then mret (Ok (Amount model))
  else if negb (Type_ model =s? TypeDeposit) then mret (Ok (Amount model))
  else λ s,
    match lookup_vault ErrResolveVault (VaultID model) s with
    | (s', Err e) => (s', Ok (Err (ReasonVaultUnresolvable, e)))
    | (s', Ok v) =>
        let dest := TrimSpace (ViewContractAddress v) in
        if dest =s? "" then (s', Ok (Err (ReasonVaultUnresolvable, ErrUnverifiedChainTx)))
        else (s', Ok (verifyChainClaim hz (TxHash model)
                        (mkClaim dest (ToUpper (TrimSpace (ViewCurrency v))) (Amount model))))
    end.

Definition applyConfirmedBalance (svc : Service) (model : Transaction) : M unit :=
  if negb (has_balance svc) then mret ()
  else if negb (isSupportedTransactionType (Type_ model)) then mret ()
  else
    userID ← (if has_vaults svc
              then v ← lookup_vault ErrResolveOwner (VaultID model); mret (ViewUserID v)
              else mret 0);
    if Type_ model =s? TypeDeposit then
      on_vaults ErrVaultRepo
        (VaultRepo.ApplyConfirmedDeposit scan_numeric uuid_String (VaultID model) userID
           (Amount model) (TxHash model)
           ((λ cfg userTotal globalTotal,
               fst (Caps.EvaluateTotals (Some cfg) userID (Amount model) userTotal globalTotal))
            <$> capsChecker svc)) ;;
      mret ()
    else
      on_vaults ErrVaultRepo
        (VaultRepo.ApplyConfirmedWithdrawal scan_numeric uuid_String (VaultID model) userID
           (Amount model) (TxHash model)).

(** A terminal status to record, with its time and reason. *)
Record Verdict := mkVerdict {
  NewStatus : TransactionStatus;
  NewConfirmedAt : option Time;
  NewReason : string;
}.

(** [ReconcileTransaction] up to the write of the status: [None] when the
    transaction stays as it is. *)
Definition reconcile_check (svc : Service) (hz : Horizon) (model : Transaction)
  : M (option Verdict) :=
  match Status model with
  | StatusCompleted | StatusFailed => mret None
  | StatusPending =>
      match lookupHorizonTransaction svc hz (TxHash model) with
      | Err errTransactionPending => mret None
      | Err e => throw e
      | Ok (StatusCompleted, confirmedAt, errorReason) =>
          verified ← verifyConfirmedClaim svc hz model;
          match verified with
          | Err (reason, ErrChainClaimMismatch) => mret (Some (mkVerdict StatusFailed confirmedAt reason))
          | Err (_, e) => throw e
          | Ok amount =>
              applyConfirmedBalance svc (with_amount model amount) ;;
              mret (Some (mkVerdict StatusCompleted confirmedAt errorReason))
          end
      | Ok (StatusFailed, confirmedAt, errorReason) =>
          mret (Some (mkVerdict StatusFailed confirmedAt errorReason))
      | Ok (StatusPending, _, _) => mret None
      end
  end.

(** The write of the status. *)
Definition reconcile_finish (model : Transaction) (v : option Verdict) : M (Transaction * bool) :=
  match v with
  | None => mret (model, false)
  | Some v =>
      updated ← UpdateStatus (TxHash model) (NewStatus v) (NewConfirmedAt v) (NewReason v);
      mret (updated, true)
  end.

Definition ReconcileTransaction (svc : Service) (hz : Horizon) (model : Transaction)
  : M (Transaction * bool) :=
  v ← reconcile_check svc hz model;
  reconcile_finish model v.

Definition GetTransaction (svc : Service) (hz : Horizon) (hash : string) : M Transaction :=
  if TrimSpace hash =s? "" then throw ErrInvalidTransaction
  else
    model ← GetByHash hash;
    r ← ReconcileTransaction svc hz model;
    mret r.1.

Definition ListPendingOlderThan (now : Time) (minAge : Duration) : M (list Transaction) :=
  Repo_ListPendingOlderThan (now - minAge).

(** *** The poller *)

Record TransactionPollerConfig := mkPollerConfig {
  Enabled : bool;
  Interval : Duration;
  MinAge : Duration;
}.

Definition defaultPollerInterval : Duration := 15 * Second.
Definition defaultPollerMinAge : Duration := 30 * Second.

Definition NewTransactionPoller (cfg : TransactionPollerConfig) : TransactionPollerConfig :=
  mkPollerConfig (Enabled cfg)
    (if Interval cfg <=? 0 then defaultPollerInterval else Interval cfg)
    (if MinAge cfg <=? 0 then defaultPollerMinAge else MinAge cfg).

(** What a pass tells the metrics and the notifier. *)
Inductive PollEvent :=
| RunFailed | PendingSubmissions (count : Z) (oldest : Duration)
| Stuck | Notify (tx : Transaction) | RunCompleted.

Definition oldest_age (now : Time) (pending : list Transaction) : Duration :=
  foldl (λ oldest tx, let age := time_sub now (CreatedAt tx) in if oldest <? age then age else oldest)
    0 pending.

Fixpoint poll_loop (svc : Service) (hz : Horizon) (pending : list Transaction) (s : State)
  : State * list PollEvent :=
  match pending with
  | [] => (s, [])
  | tx :: rest =>
      let '(s1, r) := ReconcileTransaction svc hz tx s in
      let '(s2, evs) := poll_loop svc hz rest s1 in
      (s2, match r with
           | Err _ => evs
           | Ok (_, false) => Stuck :: evs
           | Ok (updated, true) => Notify updated :: evs
           end)
  end.

Definition Tick (cfg : TransactionPollerConfig) (svc : Service) (hz : Horizon) (now : Time) (s : State)
  : State * list PollEvent :=
  match ListPendingOlderThan now (MinAge cfg) s with
  | (s1, Err _) => (s1, [RunFailed])
  | (s1, Ok pending) =>
      let '(s2, evs) := poll_loop svc hz pending s1 in
      (s2, PendingSubmissions (Z.of_nat (length pending)) (oldest_age now pending) ::
             evs ++ [RunCompleted])
  end.

(** *** Listings *)

Record ListFilter := mkFilter {
  FilterUserID : Z;
  FilterVaultID : Z;
  FilterType : string;
  FilterStatus : string;
  Limit : Z;
  Offset : Z;
}.

(** The joined [vaults] row is live and its owner is the user. *)
Definition listed (f : ListFilter) (s : State) (r : string * TransactionRow) : bool :=
  match VaultRepo.live_vault (RowVaultID r.2) (VaultRepo.db (vaults s)) with
  | None => false
  | Some v => VaultRepo.RowUserID v =? FilterUserID f
  end
  && ((FilterVaultID f =? 0) || (RowVaultID r.2 =? FilterVaultID f))
  && ((FilterType f =s? "") || (RowType r.2 =s? FilterType f))
  && ((FilterStatus f =s? "") || (status_string (RowStatus r.2) =s? FilterStatus f)).

Definition created_ge (a b : string * TransactionRow) : Prop := RowCreatedAt b.2 ≤ RowCreatedAt a.2.
#[global] Instance created_ge_dec a b : Decision (created_ge a b) := Z_le_dec _ _.

Definition select_listed (f : ListFilter) (s : State) : list (string * TransactionRow) :=
  merge_sort created_ge (filter (λ r, listed f s r = true) (map_to_list (transactions s))).

Definition Repo_ListUserTransactions (f : ListFilter) : M (list Transaction * Z) :=
  total ← query_tx (λ s, Z.of_nat (length (select_listed f s)));
  rows ← query_tx (λ s, take (Z.to_nat (Limit f)) (drop (Z.to_nat (Offset f)) (select_listed f s)));
  mret (map (λ r, scanTransaction r.1 r.2) rows, total).

Definition defaultTransactionListLimit : Z := 20.
Definition maxTransactionListLimit : Z := 100.

Definition ListUserTransactions (input : ListFilter) : M (list Transaction * Z) :=
  if FilterUserID input =? 0 then throw ErrInvalidTransaction
  else
    let limit := if Limit input <=? 0 then defaultTransactionListLimit else Limit input in
    let limit := if maxTransactionListLimit <? limit then maxTransactionListLimit else limit in
    let offset := if Offset input <? 0 then 0 else Offset input in
    let dbStatus := if FilterStatus input =s? "confirmed" then status_string StatusCompleted
                    else FilterStatus input in
    Repo_ListUserTransactions
      (mkFilter (FilterUserID input) (FilterVaultID input) (FilterType input) dbStatus limit offset).

(** *** What a verified claim means *)

(** Operation [op] moved [a], the amount claimed, of the claimed asset to the
    claimed destination. *)
Definition pays (claim : chainClaim) (op : horizonOperation) : Prop :=
  isValueTransfer op = true ∧ EqualFold (destination op) (ClaimDestination claim) = true.

Definition pays_asset (claim : chainClaim) (op : horizonOperation) : Prop :=
  pays claim op ∧ (ClaimAsset claim = ""%string ∨ EqualFold (assetCode op) (ClaimAsset claim) = true).

Definition bears_out (claim : chainClaim) (op : horizonOperation) (a : decimal) : Prop :=
  pays_asset claim op ∧ NewFromString (TrimSpace (OpAmount op)) = Some a ∧
  (0 < value a)%Q ∧ (value a == value (ClaimAmount claim))%Q.

#[local] Instance pays_dec claim op : Decision (pays claim op).
Proof. unfold pays. apply _. Defined.
#[local] Instance pays_asset_dec claim op : Decision (pays_asset claim op).
Proof. unfold pays_asset. apply _. Defined.

Lemma scan_operations_spec claim ops dest asset :
  match scan_operations claim ops dest asset with
  | inl a => ∃ op, op ∈ ops ∧ bears_out claim op a
  | inr (dest', asset') =>
      (∀ op a, op ∈ ops → ¬ bears_out claim op a) ∧
      (dest' = true ↔ dest = true ∨ ∃ op, op ∈ ops ∧ pays claim op) ∧
      (asset' = true ↔ asset = true ∨ ∃ op, op ∈ ops ∧ pays_asset claim op)
  end.
Proof.
  revert dest asset. induction ops as [|op ops IH]; intros dest asset; cbn [scan_operations].
  { split_and!; [by intros ? ? ?%elem_of_nil|..]; set_solver. }
  assert (∀ d a, (pays claim op → d = true) → (d = true → dest = true ∨ pays claim op) →
    (pays_asset claim op → a = true) → (a = true → asset = true ∨ pays_asset claim op) →
    (dest = true → d = true) → (asset = true → a = true) →
    (∀ x, ¬ bears_out claim op x) →
    match scan_operations claim ops d a with
    | inl a0 => ∃ op0, op0 ∈ op :: ops ∧ bears_out claim op0 a0
    | inr (dest', asset') =>
        (∀ op0 a0, op0 ∈ op :: ops → ¬ bears_out claim op0 a0) ∧
        (dest' = true ↔ dest = true ∨ ∃ op0, op0 ∈ op :: ops ∧ pays claim op0) ∧
        (asset' = true ↔ asset = true ∨ ∃ op0, op0 ∈ op :: ops ∧ pays_asset claim op0)
    end) as Hgo.
  { intros d a H1 H2 H3 H4 H5 H6 Hn. specialize (IH d a).
    destruct (scan_operations claim ops d a) as [x|[d' a']]; [set_solver|].
    destruct IH as (I1 & I2 & I3). split_and!; [set_solver|..]; set_solver. }
  destruct (isValueTransfer op) eqn:Et; cbn [negb].
  2:{ assert (¬ pays claim op) as Hp by (intros [? _]; congruence).
      apply Hgo; try done; [by left| |by left|by intros x [[? _] _]]. by intros [? _]. }
  destruct (EqualFold (destination op) (ClaimDestination claim)) eqn:Ed; cbn [negb].
  2:{ assert (¬ pays claim op) as Hp by (intros [_ ?]; congruence).
      apply Hgo; try done; [by left| |by left|by intros x [[? _] _]]. by intros [? _]. }
  assert (pays claim op) as Hp by done.
  destruct (negb (ClaimAsset claim =s? "") && negb (EqualFold (assetCode op) (ClaimAsset claim))) eqn:Ea.
  { apply andb_true_iff in Ea as [E1%negb_true_iff E2%negb_true_iff]. reflect_bools.
    assert (¬ pays_asset claim op) as Hn by (intros [_ [?|?]]; congruence).
    apply Hgo; try done; [by right|by left|by intros x [? _]]. }
  assert (pays_asset claim op) as Hpa.
  { split; [done|]. apply andb_false_iff in Ea as [E%negb_false_iff|E%negb_false_iff];
      reflect_bools; auto. }
  destruct (NewFromString (TrimSpace (OpAmount op))) as [x|] eqn:Ex.
  2:{ apply Hgo; try done; [by right|by right|]. intros y (_ & ? & _). congruence. }
  destruct (Cmp x Zero <=? 0) eqn:Ec.
  { apply Cmp_Zero_le in Ec. apply Hgo; try done; [by right|by right|].
    intros y (_ & ? & Hpos & _). simplify_eq. by apply Qlt_not_le in Hpos. }
  destruct (dec_Equal x (ClaimAmount claim)) eqn:Ee; cbn [negb].
  - exists op. split; [by left|]. split_and!; try done; [|by apply dec_Equal_value].
    apply Qnot_le_lt. rewrite <- Cmp_Zero_le. congruence.
  - apply Hgo; try done; [by right|by right|]. intros y (_ & ? & _ & Heq). simplify_eq.
    apply dec_Equal_value in Heq. congruence.
Qed.

(** A claim is accepted exactly when the chain bears it out. On the
    operations Horizon lists for a hash, [verifyChainClaim] accepts a claim if and
    only if some operation transferred a positive amount equal to the claimed one,
    of the claimed asset, to the claimed destination; and a refusal names the first
    thing that diverged. *)
Lemma verifyChainClaim_exact hz hash claim ops :
  operations_answer hz hash = HttpStatus 200 (Some ops) →
  match verifyChainClaim hz hash claim with
  | Ok a => ∃ op, op ∈ ops ∧ bears_out claim op a
  | Err (reason, e) =>
      e = ErrChainClaimMismatch ∧ (∀ op a, op ∈ ops → ¬ bears_out claim op a) ∧
      reason = (if decide (Exists (pays_asset claim) ops) then ReasonAmountMismatch
                else if decide (Exists (pays claim) ops) then ReasonAssetMismatch
                else if decide (ops = []) then ReasonNoMatchingOperation
                else ReasonDestinationMismatch)
  end.
Proof.
  intros Ho. unfold verifyChainClaim, lookupHorizonOperations. rewrite Ho. cbn.
  pose proof (scan_operations_spec claim ops false false) as Hs.
  destruct (scan_operations claim ops false false) as [a|[d a]]; [done|].
  destruct Hs as (Hn & Hd & Ha).
  assert (d = true ↔ Exists (pays claim) ops) as Hd'.
  { rewrite Hd, Exists_exists. naive_solver. }
  assert (a = true ↔ Exists (pays_asset claim) ops) as Ha'.
  { rewrite Ha, Exists_exists. naive_solver. }
  assert (a = true → d = true) as Had.
  { rewrite Ha', Hd', !Exists_exists. intros (op & ? & [? _]). eauto. }
  destruct d; cbn [negb].
  - destruct a; cbn [negb]; (split; [done|split; [done|]]).
    + by rewrite decide_True by by apply Ha'.
    + rewrite decide_False by (rewrite <- Ha'; done). by rewrite decide_True by by apply Hd'.
  - destruct a; [by specialize (Had eq_refl)|].
    destruct (Nat.eqb_spec (length ops) 0) as [Hz|Hz]; (split; [done|split; [done|]]);
      rewrite decide_False by (rewrite <- Ha'; done);
      rewrite decide_False by (rewrite <- Hd'; done).
    + apply length_zero_iff_nil in Hz. by rewrite decide_True.
    + rewrite decide_False; [done|]. by intros ->.
Qed.

End service.

End Transactions.
