(* ===== verification/TransactionBooks.v ===== *)
(** What holds of on-chain transactions over their whole life: registrations,
    reconciliations split at every point where another instance can come between
    or the process can die, and the vault repository's other operations in any
    order. *)
From S2P Require Import Prelude Decimals Ledger LedgerRepo LedgerService LedgerBooks Caps VaultRepo VaultBooks Transactions.
Open Scope Z_scope.

Module TransactionBooks.
Import Decimals Ledger VaultRepo VaultBooks Transactions.

Section books.
  Context `{DecimalOrderLaws}.
  Context (scan_numeric : Z → decimal).
  Context (scan_numeric_value : ∀ z, (value (scan_numeric z) == col z)%Q).
  Context (uuid_String : Z → string).

Notation vdb s := (db (Transactions.vaults s)).

Lemma GetVault_same id v : same_tables v (fst (GetVault id v)).
Proof.
  unfold GetVault, mbind, VaultRepo.M_bind, map_err.
  pose proof (query_same (λ _ d, live_vault id d) v) as H1.
  destruct (exec_db _ v) as [v1 [[r|]|e]]; cbn in H1 |- *; [|done|done].
  pose proof (query_same (λ _ _, ()) v1) as H2. destruct (exec_db _ v1) as [v2 [[]|e]]; cbn in H2 |- *;
    by eapply same_tables_trans.
Qed.

(** A lookup that succeeds read the live row. *)
Lemma GetVault_ok id v u :
  snd (GetVault id v) = Ok u → ∃ r, live_vault id (db v) = Some r ∧ RowUserID r = u.
Proof.
  unfold GetVault, mbind, VaultRepo.M_bind, map_err, exec_db, query.
  pose proof (round_trip_same v) as Hr.
  destruct (round_trip v) as [[] v1]; [done|]. cbn in Hr |- *. destruct Hr as (Hd & _).
  destruct (live_vault id (db v)) as [r|]; cbn; [|done].
  destruct (round_trip _) as [[] v2]; cbn; [done|]. intros [= <-]. by exists r.
Qed.

Definition same_state (s s' : State) : Prop :=
  same_tables (Transactions.vaults s) (Transactions.vaults s') ∧ infos s' = infos s.

Lemma lookup_vault_same wrap id s :
  same_state s (fst (lookup_vault wrap id s)) ∧
  transactions (fst (lookup_vault wrap id s)) = transactions s.
Proof.
  unfold lookup_vault, on_vaults, mbind, M_bind. cbn.
  pose proof (GetVault_same id (Transactions.vaults s)) as Hg.
  destruct (GetVault id (Transactions.vaults s)) as [v [u|e]];
    (split; [split; [exact Hg|done]|done]).
Qed.

(** *** Confirming a balance change *)

Definition booking (m : Transaction) (s s' : State) : Prop :=
  ∃ u q, audited (VaultID m) (confirmed_set (Type_ m) (Amount m) (clock (Transactions.vaults s)))
    (confirmed_user u) (Type_ m) (value (Amount m)) (Some (TxHash m))
    (confirmed_stroops (Type_ m) u (Amount m)) (seq_next (Transactions.vaults s)) (vdb s) q (vdb s').

Definition confirmation {A} (m : Transaction) (s : State) (p : State * result TxErr A) : Prop :=
  transactions p.1 = transactions s ∧ infos p.1 = infos s ∧
  (sound (Transactions.vaults s) → sound (Transactions.vaults p.1)) ∧
  ((vdb p.1 = vdb s ∧ (is_ok p.2 = true → hash_taken (Some (TxHash m)) (vdb s) = true)) ∨
   (is_ok p.2 = true ∧ hash_taken (Some (TxHash m)) (vdb s) = false ∧ booking m s p.1)).

Lemma on_vaults_confirmed ty wrap (m : Transaction) u check s :
  ty = "deposit"%string ∨ ty = "withdrawal"%string → Type_ m = ty →
  idle (Transactions.vaults s) →
  confirmation m s
    (on_vaults wrap (applyConfirmedBalanceChange scan_numeric uuid_String (VaultID m) u (Amount m)
                       (TxHash m) ty check) s).
Proof.
  intros Hty Htm Hi. unfold on_vaults. set (v0 := Transactions.vaults s) in *.
  pose proof (confirmed_outcome scan_numeric scan_numeric_value uuid_String (VaultID m) u (Amount m)
    (TxHash m) ty check v0 Hi) as Ho. unfold outcome in Ho.
  assert (sound v0 → sound (fst (applyConfirmedBalanceChange scan_numeric uuid_String (VaultID m) u
    (Amount m) (TxHash m) ty check v0))) as Hsd.
  { intros Hs. eapply kept_sound; [by apply keep_confirmed|done]. }
  destruct (applyConfirmedBalanceChange _ _ _ _ _ _ _ _ v0) as [v' [w|e]]; cbn in *;
    (split; [done|split; [done|split; [exact Hsd|]]]).
  - destruct Ho as [(Hd & _ & Hh)|(_ & Hh & Ha)]; [left; by split|].
    right. split; [done|]. split; [done|]. exists u, (seq_next v'). unfold booking.
    rewrite Htm. exact Ha.
  - left. split; [exact Ho|done].
Qed.

Lemma confirmation_after {A} (m : Transaction) s s1 (p : State * result TxErr A) :
  same_state s s1 → transactions s1 = transactions s → confirmation m s1 p → confirmation m s p.
Proof.
  intros [Hs Hinf] Ht (H1 & H2 & H3 & H4). pose proof Hs as (Hd & _ & Hq & _ & Hc).
  split; [congruence|]. split; [congruence|]. split; [intros ?; by apply H3, (same_sound _ _ Hs)|].
  unfold booking in *. rewrite Hd, Hq, Hc in H4. exact H4.
Qed.

Lemma confirmation_drop {A} (m : Transaction) s (k : M A) :
  confirmation m s (k s) → confirmation m s ((k ;; mret ()) s).
Proof.
  unfold confirmation, booking, mbind, M_bind. by destruct (k s) as [s1 [a|e]].
Qed.

Lemma supported_types ty :
  isSupportedTransactionType ty = true → ty = "deposit"%string ∨ ty = "withdrawal"%string.
Proof. unfold isSupportedTransactionType. intros [?|?]%orb_true_iff; reflect_bools; auto. Qed.

Lemma withdrawal_is_confirmed id u amount h v :
  ApplyConfirmedWithdrawal scan_numeric uuid_String id u amount h v =
  drop (applyConfirmedBalanceChange scan_numeric uuid_String id u amount h "withdrawal" None) v.
Proof. reflexivity. Qed.

Lemma on_vaults_drop {A} (m : Transaction) s wrap (k : VaultRepo.M A) :
  confirmation m s (on_vaults wrap k s) → confirmation m s (on_vaults wrap (drop k) s).
Proof.
  unfold confirmation, booking, on_vaults, drop, mbind, VaultRepo.M_bind.
  by destruct (k (Transactions.vaults s)) as [v [a|e]].
Qed.

(** The balance applier books the hash once, or finds it booked, or fails. *)
Lemma apply_confirmation svc m s :
  has_balance svc = true → isSupportedTransactionType (Type_ m) = true →
  idle (Transactions.vaults s) →
  confirmation m s (applyConfirmedBalance scan_numeric uuid_String svc m s).
Proof.
  intros Hb Hty Hi. unfold applyConfirmedBalance. rewrite Hb, Hty. cbn [negb].
  assert (∀ u s1, same_state s s1 → transactions s1 = transactions s →
    confirmation m s
      ((if Type_ m =s? TypeDeposit then
          on_vaults ErrVaultRepo
            (ApplyConfirmedDeposit scan_numeric uuid_String (VaultID m) u (Amount m) (TxHash m)
               ((λ cfg ut gt, fst (Caps.EvaluateTotals (Some cfg) u (Amount m) ut gt)) <$> capsChecker svc)) ;;
          mret ()
        else
          on_vaults ErrVaultRepo
            (ApplyConfirmedWithdrawal scan_numeric uuid_String (VaultID m) u (Amount m) (TxHash m))) s1))
    as Hgo.
  { intros u s1 Hs Ht. eapply confirmation_after; [done|done|].
    pose proof (same_idle _ _ (proj1 Hs) Hi) as Hi1.
    destruct (Type_ m =s? TypeDeposit) eqn:Ety; reflect_bools.
    - apply confirmation_drop. by apply on_vaults_confirmed; [left|..].
    - destruct (supported_types _ Hty) as [?|Hw]; [done|].
      apply (on_vaults_drop m s1 ErrVaultRepo). by apply on_vaults_confirmed; [right|..]. }
  destruct (has_vaults svc).
  - unfold mbind, M_bind.
    pose proof (lookup_vault_same ErrResolveOwner (VaultID m) s) as [Hs Ht].
    destruct (lookup_vault ErrResolveOwner (VaultID m) s) as [s1 [v|e]]; cbn in Hs, Ht |- *.
    + by apply Hgo.
    + split; [exact Ht|]. split; [apply Hs|]. split; [by apply same_sound, Hs|].
      left. split; [apply Hs|done].
  - apply Hgo; [|done]. split; [apply same_tables_refl|done].
Qed.

(** *** One reconciliation *)

(** Production wiring. *)
Definition wired (svc : Service) : Prop := has_vaults svc = true ∧ has_balance svc = true.

(** What the chain must have said for [m] to be credited: the transaction
    succeeded, and if it is a deposit one of its operations paid the amount, in the
    vault's currency, to the vault's contract address. *)
Definition on_chain (svc : Service) (hz : Horizon) (m : Transaction) (s : State) : Prop :=
  (∃ at_ reason, lookupHorizonTransaction svc hz (TxHash m) = Ok (StatusCompleted, at_, reason)) ∧
  (Type_ m = TypeDeposit → ∃ ops op a,
     operations_answer hz (TxHash m) = HttpStatus 200 (Some ops) ∧ op ∈ ops ∧
     bears_out (mkClaim (TrimSpace (ContractAddress (infos s (VaultID m))))
                  (ToUpper (TrimSpace (VaultCurrency (infos s (VaultID m))))) (Amount m)) op a).

(** What the check does: nothing to the books unless the chain bears the
    transaction out, and then it books its hash. *)
Definition checked (svc : Service) (hz : Horizon) (m : Transaction) (s : State)
    (p : State * result TxErr (option Verdict)) : Prop :=
  transactions p.1 = transactions s ∧ infos p.1 = infos s ∧
  (sound (Transactions.vaults s) → sound (Transactions.vaults p.1)) ∧
  ((vdb p.1 = vdb s ∧
    (∀ v, p.2 = Ok (Some v) → NewStatus v = StatusCompleted → hash_taken (Some (TxHash m)) (vdb s) = true)) ∨
   (Status m = StatusPending ∧ (∃ v, p.2 = Ok (Some v) ∧ NewStatus v = StatusCompleted) ∧
    hash_taken (Some (TxHash m)) (vdb s) = false ∧ on_chain svc hz m s ∧
    ∃ a, (value a == value (Amount m))%Q ∧ booking (with_amount m a) s p.1)).

Lemma verifyChainClaim_ok hz hash claim a :
  verifyChainClaim hz hash claim = Ok a →
  ∃ ops op, operations_answer hz hash = HttpStatus 200 (Some ops) ∧ op ∈ ops ∧ bears_out claim op a.
Proof.
  unfold verifyChainClaim, lookupHorizonOperations.
  destruct (operations_answer hz hash) as [|code body]; [done|].
  destruct (code =? 404); [done|]. destruct (Z.eqb_spec code 200) as [->|]; [|done]. cbn.
  destruct body as [ops|]; [|done]. pose proof (scan_operations_spec claim ops false false) as Hs.
  destruct (scan_operations claim ops false false) as [x|[[] []]]; cbn; try done.
  - intros [= ->]. destruct Hs as (op & ? & ?). eauto.
  - by destruct (length ops =? 0)%nat.
  - by destruct (length ops =? 0)%nat.
Qed.

(** The claim check reads only, and vouches for what it lets through. *)
Lemma verify_outcome svc hz m s :
  wired svc →
  same_state s (fst (verifyConfirmedClaim svc hz m s)) ∧
  transactions (fst (verifyConfirmedClaim svc hz m s)) = transactions s ∧
  ∀ a, snd (verifyConfirmedClaim svc hz m s) = Ok (Ok a) →
    (value a == value (Amount m))%Q ∧
    (Type_ m = TypeDeposit → ∃ ops op,
     operations_answer hz (TxHash m) = HttpStatus 200 (Some ops) ∧ op ∈ ops ∧
     bears_out (mkClaim (TrimSpace (ContractAddress (infos s (VaultID m))))
                  (ToUpper (TrimSpace (VaultCurrency (infos s (VaultID m))))) (Amount m)) op a).
Proof.
  intros [Hv Hb]. unfold verifyConfirmedClaim. rewrite Hv, Hb. cbn [negb orb].
  destruct (Type_ m =s? TypeDeposit) eqn:Ety; cbn [negb]; reflect_bools.
  - pose proof (lookup_vault_same ErrResolveVault (VaultID m) s) as [Hs Ht].
    assert (∀ v s1, lookup_vault ErrResolveVault (VaultID m) s = (s1, Ok v) →
      ViewContractAddress v = ContractAddress (infos s (VaultID m)) ∧
      ViewCurrency v = VaultCurrency (infos s (VaultID m))) as Hview.
    { unfold lookup_vault, on_vaults, mbind, M_bind. intros v s1.
      by destruct (GetVault _ _) as [v1 [u|e]]; intros [= <- <-]. }
    destruct (lookup_vault ErrResolveVault (VaultID m) s) as [s1 [v|e]]; cbn in Hs, Ht.
    2: by split_and!.
    destruct (Hview v s1 eq_refl) as [Hc Hu]. rewrite Hc, Hu. clear Hview.
    destruct (TrimSpace _ =s? ""); cbn; (split; [done|split; [done|]]); [done|].
    intros a [= Ha]. apply verifyChainClaim_ok in Ha as (ops & op & Ho & Hin & Hbo).
    split; [apply Hbo|]. intros _. by exists ops, op.
  - cbn. split; [split; [apply same_tables_refl|done]|]. split; [done|].
    intros a [= <-]. by split.
Qed.

Lemma check_outcome svc hz m s :
  wired svc → isSupportedTransactionType (Type_ m) = true → idle (Transactions.vaults s) →
  checked svc hz m s (reconcile_check scan_numeric uuid_String svc hz m s).
Proof.
  intros Hw Hty Hi. unfold reconcile_check.
  assert (∀ p : State * result TxErr (option Verdict), same_state s p.1 → transactions p.1 = transactions s →
    (∀ v, p.2 = Ok (Some v) → NewStatus v ≠ StatusCompleted) → checked svc hz m s p) as Hquiet.
  { intros p Hs Ht Hn. split; [done|]. split; [apply Hs|]. split; [by apply same_sound, Hs|].
    left. split; [apply Hs|]. intros v Hv Hc. by destruct (Hn v Hv). }
  assert (same_state s s) as Hrefl by (split; [apply same_tables_refl|done]).
  destruct (Status m) eqn:Est; [|by apply Hquiet..].
  destruct (lookupHorizonTransaction svc hz (TxHash m)) as [[[[] at_] reason]|[]] eqn:El;
    try (by apply Hquiet; cbn; [..|intros v [= <-]]).
  pose proof (verify_outcome svc hz m s Hw) as (Hs & Ht & Hver). unfold mbind, M_bind.
  destruct (verifyConfirmedClaim svc hz m s) as [s1 [[a|[r e]]|e]]; cbn in Hs, Ht, Hver |- *.
  - destruct (Hver a eq_refl) as [Hval Hdep].
    pose proof (apply_confirmation svc (with_amount m a) s1 (proj2 Hw) Hty
      (same_idle _ _ (proj1 Hs) Hi)) as Hc.
    apply (confirmation_after _ s) in Hc; [|done|done].
    destruct Hc as (C1 & C2 & C3 & C4).
    destruct (applyConfirmedBalance scan_numeric uuid_String svc (with_amount m a) s1) as [s2 [[]|e]];
      cbn in *; (split; [done|split; [done|split; [done|]]]).
    + destruct C4 as [[Hd Hh]|(_ & Hh & Hbk)].
      * left. split; [done|]. intros v _ _. by apply Hh.
      * right. split; [done|]. split; [by eexists|]. split; [done|]. split; [|by exists a].
        split; [by eexists _, _|]. intros Hd. destruct (Hdep Hd) as (ops & op & ?). by exists ops, op, a.
    + destruct C4 as [[Hd _]|(? & _)]; [|done]. by left.
  - destruct e; apply Hquiet; cbn; try done. by intros v [= <-].
  - by apply Hquiet.
Qed.

(** A statement on [transactions] leaves the vaults' tables alone. *)
Lemma exec_tx_same {A} (f : Time → State → result DbError (gmap string TransactionRow * A)) s :
  same_state s (fst (exec_tx f s)).
Proof.
  unfold exec_tx. pose proof (round_trip_same (Transactions.vaults s)) as Hr.
  destruct (round_trip (Transactions.vaults s)) as [[] v]; cbn in *; [by split|].
  by destruct (f _ _) as [[t a]|e].
Qed.

Lemma exec_tx_ok {A} (f : Time → State → result DbError (gmap string TransactionRow * A)) s :
  match exec_tx f s with
  | (s', Ok a) => ∃ s1, same_state s s1 ∧ transactions s1 = transactions s ∧
      f (clock (Transactions.vaults s)) s1 = Ok (transactions s', a)
  | (s', Err _) => transactions s' = transactions s
  end.
Proof.
  unfold exec_tx. pose proof (round_trip_same (Transactions.vaults s)) as Hr.
  destruct (round_trip (Transactions.vaults s)) as [[] v]; cbn in *; [done|].
  destruct Hr as (H1 & H2 & H3 & H4 & H5).
  destruct (f _ _) as [[t a]|e] eqn:Ef; [|done]. exists (with_vaults s v).
  split; [by repeat split|]. split; [done|]. by rewrite <- H5.
Qed.

Lemma query_tx_ok {A} (f : State → A) s :
  transactions (fst (query_tx f s)) = transactions s.
Proof.
  unfold query_tx. pose proof (exec_tx_ok (λ _ s, Ok (transactions s, f s)) s) as He.
  destruct (exec_tx _ s) as [s' [a|e]]; [|done]. destruct He as (s1 & _ & Ht & [= Hs _]). cbn. congruence.
Qed.

Lemma GetByHash_same h s :
  same_state s (fst (GetByHash scan_numeric h s)) ∧
  transactions (fst (GetByHash scan_numeric h s)) = transactions s.
Proof.
  unfold GetByHash, mbind, M_bind. pose proof (query_tx_ok (λ s, transactions s !! h) s) as Ht.
  pose proof (exec_tx_same (λ _ s, Ok (transactions s, transactions s !! h)) s) as Hs.
  fold (query_tx (λ s : State, transactions s !! h)) in Hs.
  by destruct (query_tx _ s) as [s' [[r|]|e]].
Qed.

(** [UpdateStatus] sets the row's status, or does nothing. *)
Lemma UpdateStatus_outcome h st at_ reason s :
  let s' := fst (UpdateStatus scan_numeric h st at_ reason s) in
  same_state s s' ∧
  (transactions s' = transactions s ∨
   ∃ r r', transactions s !! h = Some r ∧ transactions s' = <[h := r']> (transactions s) ∧
     RowStatus r' = st ∧ RowType r' = RowType r).
Proof.
  unfold UpdateStatus, mbind, M_bind. cbv zeta.
  pose proof (exec_tx_ok (set_status h st at_ reason) s) as He.
  pose proof (exec_tx_same (set_status h st at_ reason) s) as Hs.
  destruct (exec_tx (set_status h st at_ reason) s) as [s1 [k|e]]; cbn in Hs; [|by auto].
  assert (∀ s2, same_state s1 s2 → same_state s s2) as Htr.
  { intros s2 [Ha Hb]. destruct Hs as [Hc Hd]. split; [by eapply same_tables_trans|congruence]. }
  destruct He as (s0 & _ & Ht0 & He). unfold set_status in He. rewrite Ht0 in He.
  destruct (GetByHash_same h s1) as [Hg Hgt].
  destruct (transactions s !! h) as [r|] eqn:Er; injection He as Ht1 Hk; subst k; cbn;
    (split; [by auto|]); [right|by left].
  exists r. eexists. split; [done|]. rewrite Hgt, <- Ht1. done.
Qed.

Lemma finish_outcome m v s :
  let s' := fst (reconcile_finish scan_numeric m v s) in
  same_state s s' ∧
  (transactions s' = transactions s ∨
   ∃ w r r', v = Some w ∧ transactions s !! TxHash m = Some r ∧
     transactions s' = <[TxHash m := r']> (transactions s) ∧
     RowStatus r' = NewStatus w ∧ RowType r' = RowType r).
Proof.
  destruct v as [w|]; cbn.
  2:{ split; [split; [apply same_tables_refl|done]|by left]. }
  pose proof (UpdateStatus_outcome (TxHash m) (NewStatus w) (NewConfirmedAt w) (NewReason w) s) as Ho.
  unfold mbind, M_bind. destruct (UpdateStatus _ _ _ _ _ s) as [s1 [u|e]]; cbn in *;
    destruct Ho as [Hs [Ht|(r & r' & ?)]]; (split; [done|]); [by left|right; by exists w, r, r'|by left|right; by exists w, r, r'].
Qed.

(** C4: what a reconciliation books, wired as in production. Whatever it finds and
    whatever fails on the way, it leaves every vault, transaction, audit and ledger row as
    it was, or the chain reports the hash successful, no row had that hash before, and the
    vault named by the transaction is credited or debited with it, once, by the recorded
    amount. For a deposit, an operation of that hash paid exactly that amount, in the
    vault's currency, to the vault's contract; a withdrawal is compared with the chain by
    its hash alone. *)
Theorem credit_is_backed_by_chain svc hz m s :
  wired svc → isSupportedTransactionType (Type_ m) = true → sound (Transactions.vaults s) →
  let s' := fst (ReconcileTransaction scan_numeric uuid_String svc hz m s) in
  sound (Transactions.vaults s') ∧
  (vdb s' = vdb s ∨
   (hash_taken (Some (TxHash m)) (vdb s) = false ∧ on_chain svc hz m s ∧
    ∃ r r' t, live_vault (VaultID m) (vdb s) = Some r ∧
      rows (vdb s') = <[VaultID m := r']> (rows (vdb s)) ∧
      numeric 48 (if Type_ m =s? "deposit" then col (CurrentBalance r) + value (Amount m)
                  else col (CurrentBalance r) - value (Amount m))%Q = Ok (CurrentBalance r') ∧
      txs (vdb s') = txs (vdb s) ++ [t] ∧ VaultRepo.TxHash t = Some (TxHash m) ∧ TxVaultID t = VaultID m ∧
      TxType t = Type_ m ∧ numeric 48 (value (Amount m)) = Ok (TxAmount t))).
Proof.
  intros Hw Hty Hs. cbv zeta.
  pose proof (check_outcome svc hz m s Hw Hty (sd_idle _ Hs)) as (_ & _ & Hsd & Hc).
  unfold ReconcileTransaction, mbind, M_bind.
  destruct (reconcile_check _ _ svc hz m s) as [s1 [v|e]]; cbn in Hsd, Hc |- *.
  2:{ split; [by apply Hsd|]. destruct Hc as [[? _]|(_ & (? & ? & _) & _)]; [by left|done]. }
  destruct (finish_outcome m v s1) as [[Hf _] _]. split; [by apply (same_sound _ _ Hf), Hsd|].
  destruct Hf as (Hfd & _). rewrite Hfd.
  destruct Hc as [[? _]|(_ & _ & Hh & Hon & a & Ha & u & q & Haud)]; [by left|right].
  split; [done|]. split; [done|].
  destruct Haud as (r & r' & t & e & He & Hf & T1 & _ & T2 & T3 & _ & T4 & _). cbn in *.
  exists r, r', t. split; [apply He|]. split; [apply He|].
  destruct (confirmed_set_facts _ _ _ _ _ Hf) as [_ Hcur]. split.
  { rewrite <- Hcur. apply numeric_proper. by destruct (_ =s? _); rewrite Ha. }
  split; [apply He|]. split_and!; try done. rewrite <- T3. apply numeric_proper. by rewrite Ha.
Qed.

(** *** Many instances *)

(** The tables, the rows any instance has read and not yet reconciled, and the
    verdicts any instance has reached and not yet written. Nothing is removed
    from either list, so a reading may be stale and a verdict late or repeated. *)
Record System := mkSystem {
  tables : State;
  reads : list Transaction;
  verdicts : list (Transaction * Verdict);
}.

Inductive sys_step (svc : Service) : System → System → Prop :=
| sys_register now input s rs vs :
    sys_step svc (mkSystem s rs vs) (mkSystem (fst (RegisterTransaction now input s)) rs vs)
| sys_read h r s rs vs :
    transactions s !! h = Some r →
    sys_step svc (mkSystem s rs vs) (mkSystem s (scanTransaction scan_numeric h r :: rs) vs)
| sys_check hz m s rs vs :
    m ∈ rs →
    sys_step svc (mkSystem s rs vs)
      (mkSystem (fst (reconcile_check scan_numeric uuid_String svc hz m s)) rs
         (match snd (reconcile_check scan_numeric uuid_String svc hz m s) with
          | Ok (Some v) => (m, v) :: vs
          | _ => vs
          end))
| sys_finish m v s rs vs :
    (m, v) ∈ vs →
    sys_step svc (mkSystem s rs vs) (mkSystem (fst (reconcile_finish scan_numeric m (Some v) s)) rs vs)
| sys_vault v' s rs vs :
    VaultBooks.step scan_numeric uuid_String any_op (Transactions.vaults s) v' →
    sys_step svc (mkSystem s rs vs) (mkSystem (with_vaults s v') rs vs)
| sys_info f s rs vs :
    sys_step svc (mkSystem s rs vs)
      (mkSystem (mkState (Transactions.vaults s) (transactions s) f) rs vs).

Definition sys_start : System :=
  mkSystem (mkState VaultBooks.start ∅ (λ _, mkInfo "" "")) [] [].

Record sys_ok (σ : System) : Prop := {
  so_sound : sound (Transactions.vaults (tables σ));
  so_rows h r : transactions (tables σ) !! h = Some r →
    isSupportedTransactionType (RowType r) = true ∧
    (RowStatus r = StatusCompleted → hash_taken (Some h) (vdb (tables σ)) = true);
  so_reads m : m ∈ reads σ → isSupportedTransactionType (Type_ m) = true;
  so_verdicts m v : (m, v) ∈ verdicts σ → isSupportedTransactionType (Type_ m) = true ∧
    (NewStatus v = StatusCompleted → hash_taken (Some (TxHash m)) (vdb (tables σ)) = true);
}.

(** Recorded hashes are never forgotten. *)
Lemma step_txs v v' :
  VaultBooks.step scan_numeric uuid_String any_op v v' → sound v → ∃ ts, txs (db v') = txs (db v) ++ ts.
Proof.
  intros [o s Ho|w owner cap s Hn Hni|u cap s Hu|w x now s Hl|n fs now s Hle] Hs;
    try (exists []; by rewrite app_nil_r).
  destruct (run_op_keeps scan_numeric uuid_String o s (sd_idle _ Hs)) as (_ & _ & _ & Hc).
  destruct (ch_txs _ _ Hc) as (ts & ? & _). by exists ts.
Qed.

Lemma Register_outcome now input s :
  sound (Transactions.vaults s) →
  let s' := fst (RegisterTransaction now input s) in
  vdb s' = vdb s ∧ sound (Transactions.vaults s') ∧
  (transactions s' = transactions s ∨
   ∃ r, transactions s' = <[TrimSpace (InTxHash input) := r]> (transactions s) ∧
     RowStatus r = StatusPending ∧ isSupportedTransactionType (RowType r) = true).
Proof.
  intros Hs. unfold RegisterTransaction. cbv zeta.
  destruct (_ || _); [split_and!; [done|done|by left]|].
  destruct (isSupportedTransactionType (ToLower _)) eqn:Ety; cbn [negb]; [|split_and!; [done|done|by left]].
  unfold Upsert, mbind, M_bind, on_vaults. cbn [VaultRepo.uuid_New].
  set (v1 := with_seed _ _). set (s1 := with_vaults s v1).
  assert (same_tables (Transactions.vaults s) v1) as Hv by (split_and!; done || (cbn; lia)).
  set (m := mkTransaction _ _ _ _ _ _ _ _ _ _ _).
  pose proof (exec_tx_ok (upsert_row m) s1) as He. pose proof (exec_tx_same (upsert_row m) s1) as [Hx _].
  destruct (exec_tx (upsert_row m) s1) as [s2 [row|e]]; cbn in Hx |- *;
    pose proof (same_tables_trans _ _ _ Hv Hx) as Hsame;
    (split; [apply Hsame|split; [by apply (same_sound _ _ Hsame)|]]); [|by left].
  destruct He as (s0 & _ & Ht & He). right. exists row. unfold upsert_row in He.
  destruct (numeric 48 _) as [a|]; [|done]. cbn [result_bind] in He.
  destruct (_ || _); [done|]. destruct (match transactions s0 !! _ with None => _ | Some _ => _ end); [done|].
  destruct (negb _); [done|]. injection He as He Hr. rewrite Ht in He, Hr. subst row. rewrite <- He.
  split; [done|]. split; [done|exact Ety].
Qed.

Lemma sys_step_ok svc σ σ' : wired svc → sys_step svc σ σ' → sys_ok σ → sys_ok σ'.
Proof.
  intros Hw Hstep [I1 I2 I3 I4]. destruct Hstep as [now input s rs vs|h r s rs vs Hr|hz m s rs vs Hm|
    m v s rs vs Hv|v' s rs vs Hv|f s rs vs]; cbn [tables reads verdicts] in *.
  - destruct (Register_outcome now input s I1) as (Hd & Hs & Ht). constructor; cbn [tables reads verdicts]; [done| |done|].
    + rewrite Hd. destruct Ht as [->|(r0 & -> & Hst & Hty)]; [done|]. intros h r Hl.
      destruct (decide (h = TrimSpace (InTxHash input))) as [->|].
      * rewrite lookup_insert_eq in Hl. injection Hl as <-. split; [done|congruence].
      * rewrite lookup_insert_ne in Hl by done. by apply I2.
    + by rewrite Hd.
  - constructor; cbn [tables reads verdicts]; try done. intros m [->|?]%elem_of_cons; [|by apply I3]. by apply (I2 h).
  - pose proof (check_outcome svc hz m s Hw (I3 m Hm) (sd_idle _ I1)) as (C1 & _ & C2 & C3).
    set (p := reconcile_check _ _ svc hz m s) in *.
    assert (∀ x, hash_taken (Some x) (vdb s) = true → hash_taken (Some x) (vdb p.1) = true) as Hmono.
    { destruct C3 as [[-> _]|(_ & _ & _ & _ & a & _ & u & q & Ha)]; [done|]. intros x.
      destruct Ha as (? & ? & t & ? & He & _). by apply (taken_more x _ _ [t]), He. }
    constructor; cbn [tables reads verdicts]; [by apply C2| |done|].
    + rewrite C1. intros h r Hl. destruct (I2 h r Hl) as [? Hc].
      split; [done|]. intros ?. by apply Hmono, Hc.
    + assert (∀ w, p.2 = Ok (Some w) → NewStatus w = StatusCompleted →
        hash_taken (Some (TxHash m)) (vdb p.1) = true) as Hnew.
      { intros w Hp Hst. destruct C3 as [[Hd Hh]|(_ & _ & _ & _ & a & _ & u & q & Ha)].
        - rewrite Hd. by apply (Hh w).
        - destruct Ha as (? & ? & t & ? & He & _ & _ & _ & _ & _ & _ & Ht & _).
          apply existsb_elem. exists t. split; [|by apply bool_decide_eq_true_2].
          rewrite (ef_txs _ _ _ _ _ _ _ _ He). set_solver. }
      intros m' w Hin.
      assert ((m', w) ∈ vs ∨ (m' = m ∧ p.2 = Ok (Some w))) as [Hvs|[-> Hp]].
      { destruct p.2 as [[w0|]|] eqn:Ep; [|by left..].
        apply elem_of_cons in Hin as [[= -> ->]|?]; [by right|by left]. }
      * destruct (I4 _ _ Hvs) as [? Hc]. split; [done|]. intros ?. by apply Hmono, Hc.
      * split; [by apply I3|]. by apply Hnew.
  - destruct (I4 _ _ Hv) as [Hty Hc]. destruct (finish_outcome m (Some v) s) as [[Hs _] Ht].
    pose proof Hs as (Hd & _). constructor; cbn [tables reads verdicts]; [by apply (same_sound _ _ Hs)| |done|by rewrite Hd].
    rewrite Hd. destruct Ht as [->|(w & r & r' & [= <-] & Hr & -> & Hst & Htr)]; [done|]. intros h x Hl.
    destruct (decide (h = TxHash m)) as [->|].
    + rewrite lookup_insert_eq in Hl. injection Hl as <-. rewrite Hst, Htr.
      split; [by apply (I2 (TxHash m))|done].
    + rewrite lookup_insert_ne in Hl by done. by apply I2.
  - destruct (step_txs _ _ Hv I1) as [ts Hts].
    assert (∀ x, hash_taken (Some x) (vdb s) = true → hash_taken (Some x) (db v') = true) as Hmono
      by (intros x; by apply (taken_more x _ _ ts)).
    constructor; cbn [tables reads verdicts]; [by eapply step_sound| |done|].
    + intros h r Hl. destruct (I2 h r Hl) as [? Hc]. split; [done|]. intros ?. by apply Hmono, Hc.
    + intros m w Hin. destruct (I4 m w Hin) as [? Hc]. split; [done|]. intros ?. by apply Hmono, Hc.
  - by constructor.
Qed.

Lemma sys_reach_ok svc σ : wired svc → rtc (sys_step svc) sys_start σ → sys_ok σ.
Proof.
  intros Hw Hr. assert (sys_ok sys_start) as H1.
  { constructor; cbn; [apply start_sound|intros h r; by rewrite lookup_empty|by intros ? ?%elem_of_nil|by intros ? ? ?%elem_of_nil]. }
  revert H1. induction Hr; [done|]. intros. apply IHHr. by eapply sys_step_ok.
Qed.

Lemma NoDup_omap_inj {A B} (f : A → option B) (l : list A) x y b :
  NoDup (omap f l) → x ∈ l → y ∈ l → f x = Some b → f y = Some b → x = y.
Proof.
  induction l as [|z l IH]; intros Hn Hx Hy Hfx Hfy; [by apply elem_of_nil in Hx|]. cbn in Hn.
  assert (∀ w, w ∈ l → f w = Some b → b ∈ omap f l) as Hin by (intros; apply list_elem_of_omap; eauto).
  apply elem_of_cons in Hx as [->|Hx], Hy as [->|Hy]; [done| | |].
  - rewrite Hfx in Hn. apply NoDup_cons in Hn as [Hn _]. destruct Hn. by apply (Hin y).
  - rewrite Hfy in Hn. apply NoDup_cons in Hn as [Hn _]. destruct Hn. by apply (Hin x).
  - apply IH; try done. destruct (f z); [by apply NoDup_cons in Hn as []|done].
Qed.

(** A reconciliation of a booked hash moves nothing. *)
Lemma reconcile_booked svc hz m s :
  wired svc → isSupportedTransactionType (Type_ m) = true → sound (Transactions.vaults s) →
  hash_taken (Some (TxHash m)) (vdb s) = true →
  vdb (fst (ReconcileTransaction scan_numeric uuid_String svc hz m s)) = vdb s.
Proof.
  intros Hw Hty Hs Hh.
  pose proof (check_outcome svc hz m s Hw Hty (sd_idle _ Hs)) as (_ & _ & _ & Hc).
  unfold ReconcileTransaction, mbind, M_bind.
  destruct (reconcile_check _ _ svc hz m s) as [s1 [v|e]]; cbn [fst snd] in Hc |- *.
  - destruct (finish_outcome m v s1) as [[Hf _] _]. destruct Hf as (Hf & _). rewrite Hf.
    destruct Hc as [[? _]|(_ & _ & Hn & _)]; [done|by rewrite Hh in Hn].
  - destruct Hc as [[? _]|(_ & _ & Hn & _)]; [done|by rewrite Hh in Hn].
Qed.

(** C5: the hash of a completed transaction is booked exactly once. Over any number of
    instances registering, reading, checking and recording in any interleaving, with stale
    readings, repeated and lost writes, dying processes, failing connections and the vault
    repository's other operations in between, the hash of a transaction marked completed
    is on exactly one booked movement, and reconciling that hash again, for whatever
    vault, type or amount, moves nothing. The movement may be another than the one the
    transaction records: whoever brought the hash first had it booked. *)
Theorem completed_hash_is_booked_once svc σ h r :
  wired svc → rtc (sys_step svc) sys_start σ →
  transactions (tables σ) !! h = Some r → RowStatus r = StatusCompleted →
  (∃ t, t ∈ txs (vdb (tables σ)) ∧ VaultRepo.TxHash t = Some h ∧
     ∀ t', t' ∈ txs (vdb (tables σ)) → VaultRepo.TxHash t' = Some h → t' = t) ∧
  (∀ hz m, TxHash m = h → isSupportedTransactionType (Type_ m) = true →
     vdb (fst (ReconcileTransaction scan_numeric uuid_String svc hz m (tables σ))) = vdb (tables σ)).
Proof.
  intros Hw Hr Hl Hst. destruct (sys_reach_ok _ _ Hw Hr) as [I1 I2 _ _].
  destruct (I2 h r Hl) as [_ Hh]. specialize (Hh Hst). split.
  - pose proof Hh as (t & Hin & Ht)%existsb_elem. apply bool_decide_eq_true in Ht. exists t.
    split; [done|]. split; [done|]. intros t' Hin' Ht'.
    by eapply NoDup_omap_inj; [apply (sd_hashes _ I1)|..].
  - intros hz m <- Hty. by apply reconcile_booked.
Qed.

(** *** The poller takes steps of the system *)

Lemma query_runs {A} svc (f : State → A) s rs vs :
  rtc (sys_step svc) (mkSystem s rs vs) (mkSystem (fst (query_tx f s)) rs vs) ∧
  ∀ a, snd (query_tx f s) = Ok a → ∃ s0, a = f s0 ∧ transactions s0 = transactions (fst (query_tx f s)).
Proof.
  unfold query_tx, exec_tx, round_trip. set (v := Transactions.vaults s).
  assert (∀ fs, rtc (sys_step svc) (mkSystem s rs vs)
    (mkSystem (with_vaults s (mkSession (db v) (txn v) (seq_next v) (seed v) fs (clock v))) rs vs)) as Hgo.
  { intros fs. by apply rtc_once, sys_vault, step_world. }
  destruct (faults v) as [|[] fs] eqn:Ef; cbn.
  - split; [|intros a [= <-]; by eexists]. specialize (Hgo []). rewrite <- Ef in Hgo at 1.
    by destruct s, v.
  - split; [apply Hgo|done].
  - split; [apply Hgo|intros a [= <-]; by eexists].
Qed.

(** Reading rows, one by one. *)
Lemma reads_run svc s rs vs (rows : list (string * TransactionRow)) :
  (∀ r, r ∈ rows → transactions s !! r.1 = Some r.2) →
  ∃ rs', rtc (sys_step svc) (mkSystem s rs vs) (mkSystem s rs' vs) ∧
    ∀ m, m ∈ map (λ r, scanTransaction scan_numeric r.1 r.2) rows ++ rs → m ∈ rs'.
Proof.
  revert rs. induction rows as [|r rows IH]; intros rs Hin; [by exists rs|].
  destruct (IH (scanTransaction scan_numeric r.1 r.2 :: rs)) as (rs' & Hr & Hm).
  { intros x ?. apply Hin. by right. }
  exists rs'. split.
  - eapply rtc_l; [|exact Hr]. apply sys_read, Hin. by left.
  - intros m Hm'. apply Hm. set_solver.
Qed.

(** Reconciling a reading is a check and, where it came to a verdict, its write. *)
Lemma reconcile_runs svc hz m s rs vs :
  m ∈ rs → ∃ vs', rtc (sys_step svc) (mkSystem s rs vs)
    (mkSystem (fst (ReconcileTransaction scan_numeric uuid_String svc hz m s)) rs vs').
Proof.
  intros Hm. pose proof (sys_check svc hz m s rs vs Hm) as Hstep.
  unfold ReconcileTransaction, mbind, M_bind.
  destruct (reconcile_check _ _ svc hz m s) as [s1 [[v|]|e]]; cbn [fst snd] in Hstep |- *.
  - exists ((m, v) :: vs). eapply rtc_l; [exact Hstep|]. apply rtc_once, sys_finish. by left.
  - exists vs. by apply rtc_once.
  - exists vs. by apply rtc_once.
Qed.

Lemma poll_loop_runs svc hz pending s rs vs :
  (∀ m, m ∈ pending → m ∈ rs) → ∃ vs', rtc (sys_step svc) (mkSystem s rs vs)
    (mkSystem (fst (poll_loop scan_numeric uuid_String svc hz pending s)) rs vs').
Proof.
  revert s vs. induction pending as [|m pending IH]; intros s vs Hin; [by exists vs|]. cbn [poll_loop].
  destruct (reconcile_runs svc hz m s rs vs) as (vs1 & Hr); [apply Hin; by left|].
  destruct (ReconcileTransaction _ _ svc hz m s) as [s1 r]; cbn [fst] in Hr.
  destruct (IH s1 vs1) as (vs2 & Hr2); [intros; apply Hin; by right|]. exists vs2.
  destruct (poll_loop _ _ svc hz pending s1) as [s2 evs]. by etransitivity.
Qed.

(** A poller pass is nothing but steps of the system. Listing the pending
    transactions and reconciling them in turn, whatever fails on the way, takes the
    tables where reads, checks and writes of single transactions take them, so what
    holds of every interleaving of those holds with any number of pollers running;
    and so does a client's lookup of one hash. *)
Lemma poller_and_lookup_refine_steps cfg svc hz now hash s rs vs :
  (∃ rs' vs', rtc (sys_step svc) (mkSystem s rs vs)
     (mkSystem (fst (Tick scan_numeric uuid_String cfg svc hz now s)) rs' vs')) ∧
  (∃ rs' vs', rtc (sys_step svc) (mkSystem s rs vs)
     (mkSystem (fst (GetTransaction scan_numeric uuid_String svc hz hash s)) rs' vs')).
Proof.
  split.
  - unfold Tick, ListPendingOlderThan, Repo_ListPendingOlderThan, mbind, M_bind.
    set (f := λ s : State, select_pending _ _). destruct (query_runs svc f s rs vs) as [Hq Hv].
    destruct (query_tx f s) as [s1 [pending|e]]; cbn [fst snd] in *; [|by exists rs, vs].
    destruct (Hv pending eq_refl) as (s0 & -> & Ht). cbn.
    destruct (reads_run svc s1 rs vs (f s0)) as (rs' & Hr & Hin).
    { intros r Hin. rewrite <- Ht. unfold f, select_pending in Hin.
      rewrite merge_sort_Permutation, list_elem_of_filter in Hin.
      apply elem_of_map_to_list. by destruct r, Hin. }
    destruct (poll_loop_runs svc hz (map (λ r, scanTransaction scan_numeric r.1 r.2) (f s0)) s1 rs' vs)
      as (vs' & Hp); [intros; apply Hin; set_solver|].
    exists rs', vs'. destruct (poll_loop _ _ svc hz _ s1) as [s2 evs]. cbn [fst] in *.
    etransitivity; [exact Hq|]. by etransitivity.
  - unfold GetTransaction. destruct (TrimSpace hash =s? ""); [by exists rs, vs|].
    unfold GetByHash, mbind, M_bind. set (f := λ s : State, transactions s !! hash).
    destruct (query_runs svc f s rs vs) as [Hq Hv].
    destruct (query_tx f s) as [s1 [[r|]|e]]; cbn [fst snd] in *; [|by exists rs, vs..].
    destruct (Hv (Some r) eq_refl) as (s0 & Hr & Ht).
    set (m := scanTransaction scan_numeric hash r).
    assert (m ∈ m :: rs) as Hm by by left.
    destruct (reconcile_runs svc hz m s1 (m :: rs) vs Hm) as (vs' & Hrun).
    exists (m :: rs), vs'. etransitivity; [exact Hq|].
    eapply rtc_l; [apply (sys_read svc hash r); by rewrite <- Ht|].
    cbn. fold m. unfold mret, M_ret. by destruct (ReconcileTransaction _ _ svc hz m s1) as [s2 [[]|]].
Qed.

End books.

(** *** A concrete instance *)

#[local] Existing Instances QDecimal QDecimal_laws QDecimalOrder QDecimalOrder_laws.

Definition books (s : State) : DB := db (Transactions.vaults s).
Definition balance (v : Z) (s : State) : option Z := CurrentBalance <$> rows (books s) !! v.
Definition status (h : string) (s : State) : option TransactionStatus := RowStatus <$> transactions s !! h.

(** Vault 7 of user 9; its contract is CVAULT7 and its currency USDC. *)
Definition demo_infos (id : Z) : VaultInfo :=
  if id =? 7 then mkInfo "CVAULT7" "usdc" else mkInfo "CVAULT8" "usdc".
Definition s_one : State := mkState s_vault ∅ demo_infos.

Definition demo_svc : Service := mkService "https://horizon" true true None.

(** Every hash is a payment of 5 USDC to vault 7's contract. *)
Definition demo_payment : horizonOperation :=
  mkOperation "payment" "credit_alphanum4" "USDC" "GISSUER" "5" "GSENDER" "CVAULT7" "" "" "".
Definition demo_chain : Horizon :=
  mkHorizon (λ _, HttpStatus 200 (Some (mkResponse true (Some 10) "")))
    (λ _, HttpStatus 200 (Some [demo_payment])).
Definition demo_claim : chainClaim := mkClaim "CVAULT7" "USDC" (dec 5).

Lemma verifyChainClaim_exact_witness :
  operations_answer demo_chain "h1" = HttpStatus 200 (Some [demo_payment]) ∧
  ∃ op, op ∈ [demo_payment] ∧ bears_out demo_claim op (dec 5).
Proof.
  split; [reflexivity|].
  exact (verifyChainClaim_exact demo_chain "h1" demo_claim [demo_payment] eq_refl).
Defined.

Definition demo_deposit : RegisterTransactionInput := mkRegister 7 "deposit" (dec 5) "USDC" "h1".
Definition s_registered : State := fst (RegisterTransaction 0 demo_deposit s_one).
Definition pending_row : TransactionRow :=
  mkRow 1 7 "deposit" 500000000 "USDC" StatusPending "" 0 0 None.
Definition demo_reading : Transaction := scanTransaction scan_Q "h1" pending_row.
Definition reconcile_h1 : M (Transaction * bool) :=
  ReconcileTransaction scan_Q id_text demo_svc demo_chain demo_reading.
Definition s_confirmed : State := fst (reconcile_h1 s_registered).

Lemma s_one_sound : sound (Transactions.vaults s_one).
Proof.
  apply (step_sound scan_Q id_text any_op s_user).
  - by apply (step_vault _ _ any_op 7 9 (Some 300000000)); [|intros ?%elem_of_nil].
  - by apply (step_sound scan_Q id_text any_op VaultBooks.start), start_sound; apply step_user.
Qed.

Lemma s_registered_sound : sound (Transactions.vaults s_registered).
Proof. apply (Register_outcome 0 demo_deposit s_one s_one_sound). Qed.

Lemma credit_is_backed_by_chain_witness :
  is_ok (snd (reconcile_h1 s_registered)) = true ∧
  balance 7 s_registered = Some 0 ∧ balance 7 s_confirmed = Some 500000000 ∧
  on_chain demo_svc demo_chain demo_reading s_registered.
Proof.
  split; [vm_compute; reflexivity|]. split; [vm_compute; reflexivity|]. split; [vm_compute; reflexivity|].
  destruct (credit_is_backed_by_chain scan_Q scan_Q_value id_text demo_svc demo_chain demo_reading
    s_registered (conj eq_refl eq_refl) eq_refl s_registered_sound) as [_ [Hsame|(_ & Hon & _)]]; [|exact Hon].
  exfalso. apply (f_equal (λ d, CurrentBalance <$> rows d !! 7)) in Hsame. vm_compute in Hsame.
  discriminate Hsame.
Defined.

Lemma demo_run : ∃ vs, rtc (sys_step scan_Q id_text demo_svc) sys_start (mkSystem s_confirmed [demo_reading] vs).
Proof.
  pose proof (sys_vault scan_Q id_text demo_svc) as Hv.
  destruct (reconcile_runs scan_Q id_text demo_svc demo_chain demo_reading s_registered [demo_reading] [])
    as [vs Hr]; [by left|].
  exists vs. eapply rtc_l; [apply (Hv s_user), step_user; done|].
  eapply rtc_l; [apply (Hv s_vault), step_vault; [done|by intros ?%elem_of_nil]|].
  eapply rtc_l; [apply (sys_info _ _ _ demo_infos)|].
  eapply rtc_l; [apply (sys_register _ _ _ 0 demo_deposit)|].
  eapply rtc_l; [apply (sys_read _ _ _ "h1" pending_row)|exact Hr].
  vm_compute. reflexivity.
Qed.

Definition confirmed_row : TransactionRow :=
  mkRow 1 7 "deposit" 500000000 "USDC" StatusCompleted "" 0 0 (Some 10).

Lemma completed_hash_is_booked_once_witness :
  transactions s_confirmed !! "h1"%string = Some confirmed_row ∧
  books (fst (reconcile_h1 s_confirmed)) = books s_confirmed.
Proof.
  assert (transactions s_confirmed !! "h1"%string = Some confirmed_row) as Hl by (vm_compute; reflexivity).
  split; [exact Hl|]. destruct demo_run as [vs Hr].
  exact (proj2 (completed_hash_is_booked_once scan_Q scan_Q_value id_text demo_svc _ "h1" confirmed_row
    (conj eq_refl eq_refl) Hr Hl eq_refl) demo_chain demo_reading eq_refl eq_refl).
Defined.

Definition demo_poller : TransactionPollerConfig := NewTransactionPoller (mkPollerConfig true 0 0).
Definition s_polled : State := fst (Tick scan_Q id_text demo_poller demo_svc demo_chain Hour s_registered).

Lemma poller_and_lookup_refine_steps_witness :
  RowStatus <$> transactions s_polled !! "h1"%string = Some StatusCompleted ∧
  ∃ rs vs, rtc (sys_step scan_Q id_text demo_svc) (mkSystem s_registered [] []) (mkSystem s_polled rs vs).
Proof.
  split; [vm_compute; reflexivity|].
  exact (proj1 (poller_and_lookup_refine_steps scan_Q scan_Q_value id_text demo_poller demo_svc demo_chain
    Hour "h1" s_registered [] [])).
Defined.

(** *** What the checks let through *)

(** Vault 8 of user 10, with 5 in it. *)
Definition s_two : State :=
  let s1 := with_db s_vault (add_user 10 None (db s_vault)) in
  let s2 := with_db s1 (add_vault 8 10 None (clock s1) (db s1)) in
  mkState (fst (run_op scan_Q id_text (OpConfirmedDeposit 8 10 (dec 5) "h0" None) s2)) ∅ demo_infos.

Definition register (input : RegisterTransactionInput) (s : State) : State :=
  fst (RegisterTransaction 0 input s).
Definition settle (h : string) (s : State) : State :=
  fst (GetTransaction scan_Q id_text demo_svc demo_chain h s).

(** The hash of a withdrawal is not held against the chain beyond its success.
    Registering somebody's deposit hash as a withdrawal of 1 from one's own vault
    uses the hash up: the deposit, registered afterwards, is marked completed and
    never credited. *)
Lemma withdrawal_claims_foreign_hash :
  let s := settle "h1" (register (mkRegister 8 "withdrawal" (dec 1) "USDC" "h1") s_two) in
  status "h1" s = Some StatusCompleted ∧ balance 8 s = Some 400000000 ∧
  let s' := settle "h1" (register demo_deposit s) in
  status "h1" s' = Some StatusCompleted ∧ balance 7 s' = Some 0.
Proof. cbv zeta. split_and!; vm_compute; reflexivity. Qed.

(** Registering a completed hash again makes it pending, and the chain check can
    then fail it although its amount stays credited. *)
Lemma registered_again_can_fail :
  let s := settle "h1" (register demo_deposit s_one) in
  status "h1" s = Some StatusCompleted ∧ balance 7 s = Some 500000000 ∧
  let s' := settle "h1" (register (mkRegister 7 "deposit" (dec 4) "USDC" "h1") s) in
  status "h1" s' = Some StatusFailed ∧ balance 7 s' = Some 500000000.
Proof. cbv zeta. split_and!; vm_compute; reflexivity. Qed.

(** Registering a hash again answers with an id its row does not have. *)
Lemma registered_again_has_other_id :
  match snd (RegisterTransaction 0 demo_deposit (register demo_deposit s_one)) with
  | Ok m => ID m = 2
  | Err _ => False
  end ∧
  RowID <$> transactions (register demo_deposit (register demo_deposit s_one)) !! "h1"%string = Some 1.
Proof. split; vm_compute; reflexivity. Qed.

End TransactionBooks.
