(* ===== verification/VaultDomain.v ===== *)
(** The vault domain (src/apps/api/internal/domain/vault/): its status machine,
    share prices and positions, yield sources and their migration, the withdrawal
    breaker's configuration, and the arithmetic service/vault_service.go adds to
    them. *)
From S2P Require Import Prelude Decimals.
Open Scope Z_scope.

Module VaultDomain.
Import Decimals.

(** *** Statuses *)

Inductive VaultStatus := StatusActive | StatusPaused | StatusClosed.
#[global] Instance VaultStatus_eq_dec : EqDecision VaultStatus.
Proof. solve_decision. Defined.

Definition CanTransitionTo (s next : VaultStatus) : bool :=
  match s with
  | StatusActive => bool_decide (next = StatusPaused) || bool_decide (next = StatusClosed)
  | StatusPaused => bool_decide (next = StatusActive) || bool_decide (next = StatusClosed)
  | StatusClosed => false
  end.

Definition status_string (s : VaultStatus) : string :=
  match s with StatusActive => "active" | StatusPaused => "paused" | StatusClosed => "closed" end.

(** [None] is [ErrInvalidVault]. *)
Definition ParseStatus (s : string) : option VaultStatus :=
  let s := ToLower (TrimSpace s) in
  if s =s? "active" then Some StatusActive
  else if s =s? "paused" then Some StatusPaused
  else if s =s? "closed" then Some StatusClosed
  else None.

Definition HarvestFrequencyDaily : string := "daily".
Definition HarvestFrequencyWeekly : string := "weekly".

(** [None] is [ErrInvalidHarvestFrequency]. *)
Definition ParseHarvestFrequency (s : string) : option string :=
  let s := ToLower (TrimSpace s) in
  if s =s? HarvestFrequencyDaily then Some HarvestFrequencyDaily
  else if s =s? HarvestFrequencyWeekly then Some HarvestFrequencyWeekly
  else None.

Definition MaxAmountScale : Z := 8.
Definition MaxAPYScale : Z := 4.
Definition positionDecimalPlaces : Z := 6.

(** *** Vaults *)

Section vaults.
  Context `{DecimalOrderLaws} `{F : !DecimalFormat}.

Record Allocation := mkAllocation {
  AllocID : Z;
  AllocVaultID : Z;
  Protocol : string;
  AllocAmount : decimal;
  APY : decimal;
  AllocStatus : string;
  (** [None]: the zero time. *)
  AllocatedAt : option Time;
}.

Record Vault := mkVault {
  VaultID : Z;
  VaultUserID : Z;
  ContractAddress : string;
  TotalDeposited : decimal;
  CurrentBalance : decimal;
  Currency : string;
  Status : VaultStatus;
  YieldEarned : decimal;
  FeesPaid : decimal;
  SoftCapacity : option decimal;
  HarvestFrequency : string;
  Allocations : list Allocation;
}.

Definition with_allocations (v : Vault) (l : list Allocation) : Vault :=
  mkVault (VaultID v) (VaultUserID v) (ContractAddress v) (TotalDeposited v) (CurrentBalance v)
    (Currency v) (Status v) (YieldEarned v) (FeesPaid v) (SoftCapacity v) (HarvestFrequency v) l.

(** *** Share prices *)

Definition ComputeSharePrice (v : Vault) : decimal :=
  if IsZero (TotalDeposited v) || (Sign (TotalDeposited v) <=? 0) then NewFromInt 1
  else Div (CurrentBalance v) (TotalDeposited v).

(** [CanAcceptDeposit] answers [ErrCapacityExceeded] on [false]. *)
Definition CanAcceptDeposit (v : Vault) (amount : decimal) : bool :=
  match SoftCapacity v with
  | None => true
  | Some c => negb (GreaterThan (Add (CurrentBalance v) amount) c)
  end.

Definition decimalScale (d : decimal) : Z :=
  if 0 <=? Exponent d then 0 else - Exponent d.

(** *** Harvests *)

Definition defaultHarvestPerformanceFeeBPS : Z := 1000.

Definition harvestableYield (v : Vault) : decimal :=
  if 0 <? Cmp (YieldEarned v) Zero then YieldEarned v
  else
    let delta := Sub (CurrentBalance v) (TotalDeposited v) in
    if 0 <? Cmp delta Zero then delta else Zero.

Definition performance_fee (grossYield : decimal) : decimal :=
  Round (Div (Mul grossYield (NewFromInt defaultHarvestPerformanceFeeBPS)) (NewFromInt 10000))
    MaxAmountScale.

Definition estimateSharesMinted (v : Vault) (netYield : decimal) : decimal :=
  if Cmp netYield Zero <=? 0 then Zero
  else if Cmp (TotalDeposited v) Zero <=? 0 then netYield
  else
    let sharePrice := Div (CurrentBalance v) (TotalDeposited v) in
    if Cmp sharePrice Zero <=? 0 then netYield
    else Round (Div netYield sharePrice) MaxAmountScale.

(** *** The withdrawal breaker *)

Record OutflowBreakerConfig := mkOutflowBreaker {
  Enabled : bool;
  ThresholdPercent : decimal;
  Window : Duration;
}.

Definition DefaultOutflowBreakerConfig : OutflowBreakerConfig :=
  mkOutflowBreaker false (NewFromInt 25) (1 * Hour).

(** *** Positions *)

Record VaultTransaction := mkVaultTransaction {
  TxnType : string;
  TxnAmount : decimal;
  TxnHash : string;
  TxnShares : option decimal;
  TxnSharePrice : option decimal;
  TxnFee : option decimal;
  TxnCreatedAt : Time;
}.

Record UserVaultPosition := mkPosition {
  PosVaultID : Z;
  PosUserID : Z;
  TotalDepositedUSDC : string;
  SharesHeld : string;
  CurrentValueUSDC : string;
  UnrealizedPnLUSDC : string;
  UnrealizedPnLPct : string;
  FeesPaidUSDC : string;
  FirstDepositAt : option Time;
  LastActivityAt : option Time;
}.

Definition EmptyUserVaultPosition (vaultID userID : Z) : UserVaultPosition :=
  mkPosition vaultID userID "0.000000" "0.000000" "0.000000" "+0.000000" "+0.00" "0.000000" None None.

Definition formatUSDC (d : decimal) : string :=
  StringFixed (Round d positionDecimalPlaces) positionDecimalPlaces.

Definition formatSignedUSDC (d : decimal) : string :=
  ((if (Sign d <? 0)%Z then "-" else "+") +:+
   StringFixed (Round (Abs d) positionDecimalPlaces) positionDecimalPlaces)%string.

Definition formatSignedPct (d : decimal) : string :=
  ((if (Sign d <? 0)%Z then "-" else "+") +:+ StringFixed (Round (Abs d) 2) 2)%string.

(** What the walk over a user's transactions accumulates. *)
Record PositionTotals := mkTotals {
  totDeposited : decimal;
  totWithdrawn : decimal;
  totShares : decimal;
  totFees : decimal;
  totFirst : option Time;
  totLast : option Time;
}.

Definition add_transaction (t : PositionTotals) (txn : VaultTransaction) : PositionTotals :=
  let at_ := TxnCreatedAt txn in
  let last := match totLast t with
              | None => Some at_
              | Some l => if time_before l at_ then Some at_ else Some l
              end in
  let shares := default Zero (TxnShares txn) in
  let fees := Add (totFees t) (default Zero (TxnFee txn)) in
  if TxnType txn =s? "deposit" then
    mkTotals (Add (totDeposited t) (TxnAmount txn)) (totWithdrawn t) (Add (totShares t) shares) fees
      (match totFirst t with
       | None => Some at_
       | Some f => if time_before at_ f then Some at_ else Some f
       end) last
  else if TxnType txn =s? "withdrawal" then
    mkTotals (totDeposited t) (Add (totWithdrawn t) (TxnAmount txn)) (Sub (totShares t) shares) fees
      (totFirst t) last
  else mkTotals (totDeposited t) (totWithdrawn t) (totShares t) fees (totFirst t) last.

Definition position_totals (txns : list VaultTransaction) : PositionTotals :=
  foldl add_transaction (mkTotals Zero Zero Zero Zero None None) txns.

Definition BuildUserVaultPosition (v : Vault) (userID : Z) (txns : list VaultTransaction)
  : UserVaultPosition :=
  match txns with
  | [] => EmptyUserVaultPosition (VaultID v) userID
  | _ :: _ =>
      let t := position_totals txns in
      let sharesHeld := if Sign (totShares t) <? 0 then Zero else totShares t in
      let currentValue := Round (Mul sharesHeld (ComputeSharePrice v)) positionDecimalPlaces in
      let netInvested := Sub (totDeposited t) (totWithdrawn t) in
      let unrealizedPnL := Sub currentValue netInvested in
      let pnlPct := if 0 <? Sign netInvested
                    then Round (Mul (Div unrealizedPnL netInvested) (NewFromInt 100)) 2
                    else Zero in
      mkPosition (VaultID v) userID (formatUSDC (totDeposited t)) (formatUSDC sharesHeld)
        (formatUSDC currentValue) (formatSignedUSDC unrealizedPnL) (formatSignedPct pnlPct)
        (formatUSDC (totFees t)) (totFirst t) (totLast t)
  end.

(** *** Yield sources *)

Definition AllocationStatusActive : string := "active".
Definition AllocationStatusDeactivated : string := "deactivated".

Inductive SourceErr :=
| ErrYieldSourceNotFound | ErrYieldSourceDeactivated | ErrMigrationTargetRequired
| ErrMigrationTargetInactive | ErrMigrationSourceActive | ErrMigrationSourceEqualsTarget
| ErrMigrationAmountInvalid | ErrMigrationAmountExceeded | ErrCapacityExceeded.

Definition normalizeProtocol (p : string) : string := ToLower (TrimSpace p).

Definition deactivated (a : Allocation) : bool := AllocStatus a =s? AllocationStatusDeactivated.
Definition is_protocol (p : string) (a : Allocation) : bool := normalizeProtocol (Protocol a) =s? p.

Definition set_alloc_status (a : Allocation) (s : string) : Allocation :=
  mkAllocation (AllocID a) (AllocVaultID a) (Protocol a) (AllocAmount a) (APY a) s (AllocatedAt a).
Definition set_alloc_amount (a : Allocation) (x : decimal) : Allocation :=
  mkAllocation (AllocID a) (AllocVaultID a) (Protocol a) x (APY a) (AllocStatus a) (AllocatedAt a).

(** The loop marks the first allocation of the protocol. *)
Fixpoint deactivate_first (p : string) (l : list Allocation) : option (list Allocation) :=
  match l with
  | [] => None
  | a :: rest =>
      if is_protocol p a then Some (set_alloc_status a AllocationStatusDeactivated :: rest)
      else cons a <$> deactivate_first p rest
  end.

Definition DeactivateYieldSource (v : Vault) (protocol : string) : result SourceErr Vault :=
  let p := normalizeProtocol protocol in
  if p =s? "" then Err ErrYieldSourceNotFound
  else match deactivate_first p (Allocations v) with
       | Some l => Ok (with_allocations v l)
       | None => Err ErrYieldSourceNotFound
       end.

Definition first_source (p : string) (v : Vault) : option Allocation :=
  head (filter (λ a, is_protocol p a = true) (Allocations v)).

Definition CanAcceptDepositTo (v : Vault) (protocol : string) (amount : decimal)
  : result SourceErr unit :=
  let p := normalizeProtocol protocol in
  if p =s? "" then Err ErrYieldSourceNotFound
  else match first_source p v with
       | None => Err ErrYieldSourceNotFound
       | Some a =>
           if deactivated a then Err ErrYieldSourceDeactivated
           else if CanAcceptDeposit v amount then Ok () else Err ErrCapacityExceeded
       end.

Record MigrationTarget := mkMigrationTarget {
  TargetProtocol : string;
  TargetAmount : decimal;
  TargetAPY : decimal;
}.

Record MigrationGuide := mkMigrationGuide {
  SourceProtocol : string;
  SourceAmount : decimal;
  Targets : list MigrationTarget;
}.

Definition MigrationGuideFor (v : Vault) (sourceProtocol : string) : result SourceErr MigrationGuide :=
  let p := normalizeProtocol sourceProtocol in
  if p =s? "" then Err ErrYieldSourceNotFound
  else match first_source p v with
       | None => Err ErrYieldSourceNotFound
       | Some source =>
           if negb (deactivated source) then Err ErrMigrationSourceActive
           else Ok (mkMigrationGuide (Protocol source) (AllocAmount source)
                  (omap (λ a, if is_protocol p a || deactivated a then None
                              else Some (mkMigrationTarget (Protocol a) (AllocAmount a) (APY a)))
                     (Allocations v)))
       end.

(** What the loop is left with: the last allocation of the protocol. *)
Fixpoint last_source (p : string) (i : nat) (found : option (nat * Allocation)) (l : list Allocation)
  : option (nat * Allocation) :=
  match l with
  | [] => found
  | a :: rest => last_source p (S i) (if is_protocol p a then Some (i, a) else found) rest
  end.

Definition MigrateYieldSourcePosition (v : Vault) (sourceProtocol targetProtocol : string)
    (amount : decimal) : result SourceErr Vault :=
  let source := normalizeProtocol sourceProtocol in
  let target := normalizeProtocol targetProtocol in
  if source =s? "" then Err ErrYieldSourceNotFound
  else if target =s? "" then Err ErrMigrationTargetRequired
  else if source =s? target then Err ErrMigrationSourceEqualsTarget
  else if negb (GreaterThan amount Zero) then Err ErrMigrationAmountInvalid
  else
    let l := Allocations v in
    match last_source source 0 None l, last_source target 0 None l with
    | None, _ => Err ErrYieldSourceNotFound
    | _, None => Err ErrMigrationTargetRequired
    | Some (i, a), Some (j, b) =>
        if negb (deactivated a) then Err ErrMigrationSourceActive
        else if deactivated b then Err ErrMigrationTargetInactive
        else if GreaterThan amount (AllocAmount a) then Err ErrMigrationAmountExceeded
        else Ok (with_allocations v
               (<[j := set_alloc_amount b (Add (AllocAmount b) amount)]>
                  (<[i := set_alloc_amount a (Sub (AllocAmount a) amount)]> l)))
    end.

(** *** Migrations conserve the position *)

Definition sum_Q (l : list Q) : Q := foldr Qplus 0%Q l.
Definition total_amount (l : list Allocation) : Q := sum_Q ((λ a, value (AllocAmount a)) <$> l).

Lemma sum_Q_cons x l : sum_Q (x :: l) = (x + sum_Q l)%Q.
Proof. done. Qed.

Lemma sum_Q_insert (l : list Q) i x y :
  l !! i = Some x → (sum_Q (<[i := y]> l) == sum_Q l - x + y)%Q.
Proof.
  revert i. induction l as [|z l IH]; intros [|i] Hi; cbn in *; simplify_eq; [ring|].
  fold (sum_Q (<[i:=y]> l)) (sum_Q l). rewrite IH by done. ring.
Qed.

Lemma last_source_spec p i found l :
  match last_source p i found l with
  | Some (k, a) => (found = Some (k, a) ∧ ∀ b, b ∈ l → is_protocol p b = false) ∨
      (∃ j, k = (i + j)%nat ∧ l !! j = Some a ∧ is_protocol p a = true ∧
         ∀ j' b, l !! j' = Some b → (j < j')%nat → is_protocol p b = false)
  | None => found = None ∧ ∀ b, b ∈ l → is_protocol p b = false
  end.
Proof.
  revert i found. induction l as [|x l IH]; intros i found; cbn.
  { destruct found as [[k a]|]; [left|]; (split; [done|]); by intros b ?%elem_of_nil. }
  specialize (IH (S i) (if is_protocol p x then Some (i, x) else found)).
  destruct (last_source p (S i) _ l) as [[k a]|].
  - destruct IH as [[Hf Hn]|(j & -> & Hl & Hp & Hn)].
    + destruct (is_protocol p x) eqn:Ex.
      * injection Hf as <- <-. right. exists 0%nat. split; [lia|]. split; [done|]. split; [done|].
        intros [|j'] b Hb ?; [lia|]. apply Hn. by eapply list_elem_of_lookup_2.
      * left. split; [done|]. intros b [->|?]%elem_of_cons; auto.
    + right. exists (S j). split; [lia|]. split; [done|]. split; [done|].
      intros [|j'] b Hb ?; [lia|]. eapply Hn; [done|lia].
  - destruct IH as [Hf Hn]. destruct (is_protocol p x) eqn:Ex; [done|].
    split; [done|]. intros b [->|?]%elem_of_cons; auto.
Qed.

Lemma last_source_found p l k a :
  last_source p 0 None l = Some (k, a) → l !! k = Some a ∧ is_protocol p a = true.
Proof.
  intros E. pose proof (last_source_spec p 0 None l) as Hs. rewrite E in Hs.
  by destruct Hs as [[? _]|(j & -> & ? & ? & _)].
Qed.

(** A migration conserves the vault's position. One that succeeds moves
    exactly the amount asked for, positive and covered by the source, out of a
    deactivated allocation into one of another protocol that is not, leaves every
    other allocation alone, and with them the total. *)
Lemma migration_conserves v source target amount v' :
  MigrateYieldSourcePosition v source target amount = Ok v' →
  ∃ i j a b, i ≠ j ∧ Allocations v !! i = Some a ∧ Allocations v !! j = Some b ∧
    is_protocol (normalizeProtocol source) a = true ∧ is_protocol (normalizeProtocol target) b = true ∧
    deactivated a = true ∧ deactivated b = false ∧
    (0 < value amount <= value (AllocAmount a))%Q ∧
    Allocations v' = <[j := set_alloc_amount b (Add (AllocAmount b) amount)]>
      (<[i := set_alloc_amount a (Sub (AllocAmount a) amount)]> (Allocations v)) ∧
    (total_amount (Allocations v') == total_amount (Allocations v))%Q.
Proof.
  unfold MigrateYieldSourcePosition.
  destruct (_ =s? ""); [done|]. destruct (normalizeProtocol target =s? ""); [done|].
  destruct (normalizeProtocol source =s? normalizeProtocol target) eqn:Ene; [done|]. reflect_bools.
  destruct (GreaterThan amount Zero) eqn:Epos; [|done]. cbn [negb].
  destruct (last_source (normalizeProtocol source) 0 None _) as [[i a]|] eqn:Es; [|done].
  destruct (last_source (normalizeProtocol target) 0 None _) as [[j b]|] eqn:Et; [|done].
  destruct (deactivated a) eqn:Ea; [|done]. cbn [negb]. destruct (deactivated b) eqn:Eb; [done|].
  destruct (GreaterThan amount (AllocAmount a)) eqn:Eg; [done|]. intros [= <-]. cbn [Allocations with_allocations].
  apply last_source_found in Es as [Hi Hpa], Et as [Hj Hpb].
  assert (i ≠ j) as Hij by (intros ->; congruence).
  exists i, j, a, b. split_and!; try done.
  - apply GreaterThan_value in Epos. by rewrite Zero_value in Epos.
  - apply Qnot_lt_le. rewrite <- GreaterThan_value. congruence.
  - unfold total_amount. rewrite !list_fmap_insert. cbn [set_alloc_amount AllocAmount].
    rewrite (sum_Q_insert _ j (value (AllocAmount b))).
    + rewrite (sum_Q_insert _ i (value (AllocAmount a))) by (by rewrite list_lookup_fmap, Hi).
      rewrite Add_value, Sub_value. ring.
    + rewrite list_lookup_insert_ne by done. by rewrite list_lookup_fmap, Hj.
Qed.

(** An allocation whose protocol no other shares is found by every loop. *)
Lemma last_source_unique l i a :
  NoDup ((λ a, normalizeProtocol (Protocol a)) <$> l) → l !! i = Some a →
  last_source (normalizeProtocol (Protocol a)) 0 None l = Some (i, a).
Proof.
  intros Hn Hi. pose proof (last_source_spec (normalizeProtocol (Protocol a)) 0 None l) as Hs.
  assert (is_protocol (normalizeProtocol (Protocol a)) a = true) as Hp by by apply string_eqb_eq.
  destruct (last_source _ 0 None l) as [[k b]|].
  - destruct Hs as [[? _]|(j & -> & Hj & Hpb & _)]; [done|]. cbn.
    unfold is_protocol in Hpb. reflect_bools.
    assert (j = i) as ->; [|congruence].
    eapply NoDup_lookup; [exact Hn|rewrite list_lookup_fmap, Hj; done|]. rewrite list_lookup_fmap, Hi. cbn. congruence.
  - destruct Hs as [_ Hs]. rewrite (Hs a) in Hp; [done|]. by eapply list_elem_of_lookup_2.
Qed.

Lemma first_source_in p v a : first_source p v = Some a → a ∈ Allocations v ∧ is_protocol p a = true.
Proof.
  unfold first_source. destruct (filter _ _) as [|b l] eqn:E; [done|]. intros [= ->].
  assert (a ∈ a :: l) as Hin by by left. rewrite <- E in Hin. apply list_elem_of_filter in Hin. tauto.
Qed.

(** A migration guide can be followed. Where no two allocations share a
    protocol, every target a guide lists accepts any positive amount the guide's
    source holds. *)
Lemma guide_can_be_followed v source g t amount :
  NoDup ((λ a, normalizeProtocol (Protocol a)) <$> Allocations v) →
  MigrationGuideFor v source = Ok g → t ∈ Targets g → normalizeProtocol (TargetProtocol t) ≠ ""%string →
  (0 < value amount <= value (SourceAmount g))%Q →
  ∃ v', MigrateYieldSourcePosition v source (TargetProtocol t) amount = Ok v'.
Proof.
  intros Hn Hg Ht Hne [Hpos Hle]. unfold MigrationGuideFor in Hg.
  destruct (normalizeProtocol source =s? "") eqn:Es; [done|].
  destruct (first_source _ v) as [a|] eqn:Ea; [|done]. destruct (deactivated a) eqn:Eda; [|done].
  injection Hg as <-. cbn in *. apply list_elem_of_omap in Ht as (b & Hb & Htb).
  destruct (is_protocol (normalizeProtocol source) b) eqn:Epb; [done|].
  destruct (deactivated b) eqn:Edb; [done|]. injection Htb as <-. cbn in *.
  apply first_source_in in Ea as [Ha Hpa]. apply list_elem_of_lookup in Ha as [i Hi], Hb as [j Hj].
  unfold is_protocol in Hpa, Epb. reflect_bools.
  unfold MigrateYieldSourcePosition. rewrite <- Hpa.
  rewrite (last_source_unique _ _ _ Hn Hi), (last_source_unique _ _ _ Hn Hj), Eda, Edb. cbn [negb].
  replace (normalizeProtocol (Protocol a) =s? "") with false by (symmetry; apply string_eqb_neq; congruence).
  replace (normalizeProtocol (Protocol b) =s? "") with false by (symmetry; by apply string_eqb_neq).
  replace (normalizeProtocol (Protocol a) =s? normalizeProtocol (Protocol b)) with false
    by (symmetry; apply string_eqb_neq; congruence).
  rewrite (proj2 (GreaterThan_value amount Zero)) by by rewrite Zero_value.
  replace (GreaterThan amount (AllocAmount a)) with false; [by eexists|].
  symmetry. apply not_true_is_false. rewrite GreaterThan_value. by apply Qle_not_lt.
Qed.

(** *** Fees *)

(** The fee is a tenth of the yield, rounded to a hundred-millionth. *)
Lemma performance_fee_exact gross z :
  (value gross == z # 100000000)%Q →
  (value (performance_fee gross) == half_away (z # 10) # 100000000)%Q.
Proof.
  intros Hz. unfold performance_fee, defaultHarvestPerformanceFeeBPS, MaxAmountScale.
  assert (value (NewFromInt 10000) == 10000)%Q as H1 by (apply NewFromInt_value; unfold in_i64, min_i64, max_i64; lia).
  assert (value (NewFromInt 1000) == 1000)%Q as H2 by (apply NewFromInt_value; unfold in_i64, min_i64, max_i64; lia).
  rewrite Round_places.
  rewrite (round_to_proper _ _ (z * 10000000 # 10000000000000000)).
  - unfold round_to. rewrite (half_away_proper _ (z # 10)); [|unfold Qeq; cbn; lia].
    by rewrite (Qmake_Qdiv (half_away (z # 10))).
  - apply Div_value; [by rewrite H1|]. rewrite Mul_value, Hz, H1, H2. unfold Qeq; cbn. lia.
Qed.

Lemma tenth_bounds z : 0 ≤ z → 0 ≤ half_away (z # 10) ≤ z.
Proof.
  intros Hz. unfold half_away, Qnum, Qden. rewrite Z.abs_eq by done.
  destruct (Z.sgn_spec z) as [[? Hs]|[[<- _]|[? _]]]; [rewrite Hs|done|lia].
  pose proof (Z.div_mod (2 * z + 10) (2 * 10) ltac:(lia)).
  pose proof (Z.mod_pos_bound (2 * z + 10) (2 * 10) ltac:(lia)). lia.
Qed.

(** *** Positions *)

Definition sum_over (ty : string) (f : VaultTransaction → decimal) (l : list VaultTransaction) : Q :=
  sum_Q ((λ t, value (f t)) <$> filter (λ t, TxnType t = ty) l).
Definition txn_shares (t : VaultTransaction) : decimal := default Zero (TxnShares t).

(** What a position is computed from: deposits and withdrawals, the shares of the
    ones less those of the others, and every fee. *)
Lemma position_totals_sums l :
  let t := position_totals l in
  (value (totDeposited t) == sum_over "deposit" TxnAmount l)%Q ∧
  (value (totWithdrawn t) == sum_over "withdrawal" TxnAmount l)%Q ∧
  (value (totShares t) == sum_over "deposit" txn_shares l - sum_over "withdrawal" txn_shares l)%Q ∧
  (value (totFees t) == sum_Q ((λ t, value (default Zero (TxnFee t))) <$> l))%Q.
Proof.
  unfold position_totals. cbv zeta.
  assert (∀ t, let t' := foldl add_transaction t l in
    (value (totDeposited t') == value (totDeposited t) + sum_over "deposit" TxnAmount l)%Q ∧
    (value (totWithdrawn t') == value (totWithdrawn t) + sum_over "withdrawal" TxnAmount l)%Q ∧
    (value (totShares t') == value (totShares t) +
       (sum_over "deposit" txn_shares l - sum_over "withdrawal" txn_shares l))%Q ∧
    (value (totFees t') == value (totFees t) +
       sum_Q ((λ t, value (default Zero (TxnFee t))) <$> l))%Q) as Hgen.
  { unfold sum_over. induction l as [|x l IH]; intros t; cbv zeta; cbn [foldl].
    { unfold sum_Q. simpl. split_and!; ring. }
    destruct (IH (add_transaction t x)) as (I1 & I2 & I3 & I4). rewrite I1, I2, I3, I4. clear IH I1 I2 I3 I4.
    rewrite !filter_cons. unfold add_transaction.
    destruct (TxnType x =s? "deposit") eqn:Ed; [|destruct (TxnType x =s? "withdrawal") eqn:Ew]; reflect_bools;
      cbn [totDeposited totWithdrawn totShares totFees].
    - repeat case_decide; try congruence. rewrite !fmap_cons, !sum_Q_cons. fold (txn_shares x).
      rewrite !Add_value. split_and!; ring.
    - repeat case_decide; try congruence. rewrite !fmap_cons, !sum_Q_cons. fold (txn_shares x).
      rewrite !Sub_value, !Add_value. split_and!; ring.
    - repeat case_decide; try congruence. rewrite !fmap_cons, !sum_Q_cons, !Add_value. split_and!; ring. }
  destruct (Hgen (mkTotals Zero Zero Zero Zero None None)) as (G1 & G2 & G3 & G4). cbn [totDeposited totWithdrawn totShares totFees] in *.
  rewrite Zero_value in *. rewrite G1, G2, G3, G4. split_and!; ring.
Qed.

End vaults.

(** *** A concrete instance *)

#[local] Existing Instances QDecimal QDecimal_laws QDecimalOrder QDecimalOrder_laws.

Definition qd (x : Q) : decimal := x.

Definition demo_alloc (id : Z) (p : string) (a : Q) (st : string) : Allocation :=
  mkAllocation id 7 p (qd a) (qd 5) st None.
Definition demo_vault : Vault :=
  mkVault 7 9 "CVAULT7" (qd 100) (qd 110) "USDC" StatusActive (qd 0) (qd 0) None
    "daily" [demo_alloc 1 "Aave" 60 "deactivated"; demo_alloc 2 "blend" 40 "active"].

Lemma migration_conserves_witness :
  match MigrateYieldSourcePosition demo_vault " aave" "BLEND " (qd 10) with
  | Ok v' => (total_amount (Allocations v') == 100)%Q
  | Err _ => False
  end.
Proof.
  destruct (MigrateYieldSourcePosition demo_vault " aave" "BLEND " (qd 10)) as [v'|e] eqn:E.
  - destruct (migration_conserves demo_vault " aave" "BLEND " (qd 10) v' E)
      as (i & j & a & b & _ & _ & _ & _ & _ & _ & _ & _ & _ & Ht).
    eapply Qeq_trans; [exact Ht|vm_compute; reflexivity].
  - assert (is_ok (MigrateYieldSourcePosition demo_vault " aave" "BLEND " (qd 10)) = true) as Hok
      by (vm_compute; reflexivity).
    rewrite E in Hok. discriminate Hok.
Defined.

Lemma guide_can_be_followed_witness :
  ∃ v', MigrateYieldSourcePosition demo_vault "AAVE" "blend" (qd 60) = Ok v'.
Proof.
  apply (guide_can_be_followed demo_vault "AAVE" (mkMigrationGuide "Aave" (qd 60)
    [mkMigrationTarget "blend" (qd 40) (qd 5)])
    (mkMigrationTarget "blend" (qd 40) (qd 5)) (qd 60)).
  - repeat constructor; set_solver.
  - reflexivity.
  - by left.
  - discriminate.
  - split; [reflexivity|discriminate].
Defined.

End VaultDomain.
