(* ===== verification/VaultService.v ===== *)
(** The vault service (src/apps/api/internal/service/vault_service.go and
    operator_funded_deposits.go) over the vault repository: deposits and withdrawals
    behind the switches, the caps, the chain verifier and the outflow breaker, the
    life of a vault, harvests, rebalances and the emergency exit, with every call
    they make to the chain. *)
From S2P Require Import Prelude Decimals Ledger LedgerRepo Caps MoneyPath VaultRepo VaultDomain.
Open Scope Z_scope.

Module VaultService.
Import Decimals Ledger VaultDomain.

(** *** State *)

(** The columns of [vaults] that the money paths do not touch. *)
Record Cols := mkCols {
  ColContractAddress : string;
  ColCurrency : string;
  ColStatus : VaultStatus;
  ColHarvestFrequency : string;
}.

(** A row of [allocations]; [RowAPY] counts ten-thousandths. *)
Record AllocRow := mkAllocRow {
  AllocRowID : Z;
  AllocRowVaultID : Z;
  RowProtocol : string;
  RowAmount : Z;
  RowAPY : Z;
  RowAllocStatus : string;
  RowAllocatedAt : Time;
}.

Section service.
  Context `{DecimalOrderLaws} `{F : !DecimalFormat}.
  Context (scan_numeric : Z → decimal) (uuid_String : Z → string).

(** What the service does outside the database. *)
Inductive Effect :=
| ChainDeposit (contract : string) (stroops : Z)
| ChainWithdraw (contract : string) (shares slippageBps : Z)
| ChainHarvest (contract user : string) (compound : bool)
| ChainEmergencyExit (contract : string)
| GoalCredit (goal : Z) (amount : decimal)
| YieldRecorded (user vault : Z) (amount : decimal) (txHash : string).

(** The database session with the columns its model leaves out, the effects so
    far, and what the operator-funded policy has spent per vault. *)
Record State := mkState {
  session : VaultRepo.Session;
  cols : gmap Z Cols;
  allocs : list AllocRow;
  effects : list Effect;
  spent : gmap Z decimal;
}.

Definition with_session s x := mkState x (cols s) (allocs s) (effects s) (spent s).
Definition with_cols s x := mkState (session s) x (allocs s) (effects s) (spent s).
Definition with_allocs s x := mkState (session s) (cols s) x (effects s) (spent s).
Definition with_effects s x := mkState (session s) (cols s) (allocs s) x (spent s).
Definition with_spent s x := mkState (session s) (cols s) (allocs s) (effects s) x.

(** [Panic]: the request dies in the recovery middleware. *)
Inductive SvcErr :=
| Repo (e : VaultRepo.VaultErr)
| Gate (d : MoneyPath.Decision)
| TVLCap (e : Caps.CapSentinel)
| CapsErr (e : Caps.CapErr)
| OnChain (msg : string)
| Verifier (msg : string)
| Goal (msg : string)
| ErrDepositNotAllowlisted | ErrInvalidPrecision | ErrChainVerificationUnavailable
| ErrOperatorFundedDepositDisabled | ErrOperatorFundedDepositNotAllowed
| ErrOperatorFundedDepositCapExceeded | ErrBelowMinDeposit
| ErrTxHashRequired | ErrChainEventCallerMismatch | ErrVaultPausedByBreaker
| ErrVaultClosed | ErrVaultNotActive | ErrInsufficientBalance | ErrInvalidTransition
| ErrInvalidSharePrice | ErrVaultForbidden | ErrInvalidAllocation
| ErrInvalidHarvestFrequency | ErrWalletRequired
| Other (msg : string)
| Panic.

Definition M (A : Type) : Type := State → State * result SvcErr A.

#[global] Instance M_ret : MRet M := λ A a s, (s, Ok a).
#[global] Instance M_bind : MBind M := λ A B k m s,
  match m s with
  | (s1, Ok a) => k a s1
  | (s1, Err e) => (s1, Err e)
  end.

Definition throw {A} (e : SvcErr) : M A := λ s, (s, Err e).
Definition of_option (e : option SvcErr) : M unit :=
  match e with Some e => throw e | None => mret () end.

(** A call of the repository. *)
Definition on_repo {A} (m : VaultRepo.M A) : M A := λ s,
  let '(v, r) := m (session s) in
  (with_session s v, match r with Ok a => Ok a | Err e => Err (Repo e) end).

(** An error the caller drops. *)
Definition ignoring (m : M unit) : M unit := λ s, (fst (m s), Ok ()).

Definition now : M Time := λ s, (s, Ok (VaultRepo.clock (session s))).
Definition emit (e : Effect) : M unit := λ s, (with_effects s (effects s ++ [e]), Ok ()).
Definition uuid_New : M Z := on_repo VaultRepo.uuid_New.

(** Dividing by zero panics. *)
Definition quo (a b : decimal) : M decimal := if IsZero b then throw Panic else mret (Div a b).

(** *** Statements of the repository on these columns *)

Definition live (id : Z) (s : State) : option VaultRepo.VaultRow :=
  VaultRepo.live_vault id (VaultRepo.db (session s)).

(** The unique index on the contract addresses of live vaults. *)
Definition address_taken (id : Z) (address : string) (s : State) : bool :=
  existsb (λ r, negb (r.1 =? id) && VaultRepo.live r.2 &&
             match cols s !! r.1 with Some c => ColContractAddress c =s? address | None => false end)
    (map_to_list (VaultRepo.rows (VaultRepo.db (session s)))).

(** A statement on its own, with its errors mapped. *)
Definition exec {A} (f : Time → State → result VaultRepo.DbError (State * A)) : M A := λ s,
  let '(lost, v) := VaultRepo.round_trip (session s) in
  let s1 := with_session s v in
  if lost then (s1, Err (Repo (VaultRepo.mapRepositoryError (VaultRepo.ErrDb (VaultRepo.DbPg ConnectionFailure)))))
  else match f (VaultRepo.clock v) s1 with
       | Ok (s2, a) => (s2, Ok a)
       | Err e => (s1, Err (Repo (VaultRepo.mapRepositoryError (VaultRepo.ErrDb e))))
       end.

Definition set_cols (id : Z) (f : Cols → Cols) (now : Time) (s : State)
  : result VaultRepo.DbError (State * Z) :=
  match live id s, cols s !! id with
  | Some r, Some c =>
      if ColContractAddress (f c) =s? "" then Err (VaultRepo.DbPg CheckViolation)
      else if address_taken id (ColContractAddress (f c)) s
      then Err (VaultRepo.DbPg (UniqueViolation "uq_vaults_contract_address_live"))
      else
        let d := VaultRepo.db (session s) in
        Ok (with_cols (with_session s (VaultRepo.with_db (session s)
              (VaultRepo.with_rows d (<[id := VaultRepo.touch now r]> (VaultRepo.rows d)))))
              (<[id := f c]> (cols s)), 1)
  | _, _ => Ok (s, 0)
  end.

Definition Repo_UpdateVault (id : Z) (contractAddress : string) (status : VaultStatus) : M unit :=
  rows ← exec (set_cols id (λ c, mkCols contractAddress (ColCurrency c) status (ColHarvestFrequency c)));
  if rows =? 0 then throw (Repo VaultRepo.ErrVaultNotFound) else mret ().

Definition Repo_UpdateHarvestFrequency (id : Z) (frequency : string) : M unit :=
  rows ← exec (set_cols id (λ c, mkCols (ColContractAddress c) (ColCurrency c) (ColStatus c) frequency));
  if rows =? 0 then throw (Repo VaultRepo.ErrVaultNotFound) else mret ().

(** [INSERT INTO vaults] of a vault without money. *)
Definition insert_vault (id userID : Z) (c : Cols) (now : Time) (s : State)
  : result VaultRepo.DbError (State * unit) :=
  let d := VaultRepo.db (session s) in
  let l := VaultRepo.ledger d in
  if (ColContractAddress c =s? "") || (ColCurrency c =s? "") then Err (VaultRepo.DbPg CheckViolation)
  else if bool_decide (is_Some (VaultRepo.rows d !! id)) || bool_decide (id ∈ Ledger.vaults l)
  then Err (VaultRepo.DbPg (UniqueViolation "vaults_pkey"))
  else if address_taken id (ColContractAddress c) s
  then Err (VaultRepo.DbPg (UniqueViolation "uq_vaults_contract_address_live"))
  else if negb (bool_decide (userID ∈ Ledger.users l)) then Err (VaultRepo.DbFk "vaults_user_id_fkey")
  else
    let row := VaultRepo.mkVaultRow userID 0 0 0 0 None None now None in
    Ok (with_cols (with_session s (VaultRepo.with_db (session s)
          (VaultRepo.with_ledger (VaultRepo.with_rows d (<[id := row]> (VaultRepo.rows d)))
             (Ledger.mkStore (id :: Ledger.vaults l) (Ledger.users l) (Ledger.accounts l)
                (Ledger.entries l) (Ledger.balances l) (Ledger.records l)))))
          (<[id := c]> (cols s)), ()).

Definition Repo_CreateVault (id userID : Z) (c : Cols) : M unit :=
  exec (insert_vault id userID
    (mkCols (ColContractAddress c) (ColCurrency c) (ColStatus c)
       (if ColHarvestFrequency c =s? "" then HarvestFrequencyDaily else ColHarvestFrequency c))).

(** Newest first; rows of the same time come in any order. *)
Definition allocated_ge (a b : AllocRow) : Prop := RowAllocatedAt b ≤ RowAllocatedAt a.
#[global] Instance allocated_ge_dec a b : Decision (allocated_ge a b) := Z_le_dec _ _.

Definition scan_allocation (r : AllocRow) : Allocation :=
  mkAllocation (AllocRowID r) (AllocRowVaultID r) (RowProtocol r) (scan_numeric (RowAmount r))
    (scan_numeric (RowAPY r * 10000)) (RowAllocStatus r) (Some (RowAllocatedAt r)).

Definition loadAllocations (id : Z) (s : State) : list Allocation :=
  map scan_allocation (merge_sort allocated_ge (filter (λ r, AllocRowVaultID r = id) (allocs s))).

(** The row, then its allocations. [soft_capacity] is not selected. *)
Definition GetVault (id : Z) : M Vault :=
  row ← exec (λ _ s, Ok (s, match live id s, cols s !! id with
                            | Some r, Some c => Some (r, c) | _, _ => None end));
  match row with
  | None => throw (Repo VaultRepo.ErrVaultNotFound)
  | Some (r, c) =>
      l ← exec (λ _ s, Ok (s, loadAllocations id s));
      mret (mkVault id (VaultRepo.RowUserID r) (ColContractAddress c)
              (scan_numeric (VaultRepo.TotalDeposited r)) (scan_numeric (VaultRepo.CurrentBalance r))
              (ColCurrency c) (ColStatus c) (scan_numeric (VaultRepo.YieldEarned r))
              (scan_numeric (VaultRepo.FeesPaid r)) None (ColHarvestFrequency c) l)
  end.

Definition scanVaultTransaction (t : VaultRepo.TxRow) : VaultTransaction :=
  mkVaultTransaction (VaultRepo.TxType t) (scan_numeric (VaultRepo.TxAmount t))
    (default "" (VaultRepo.TxHash t)) (scan_numeric <$> VaultRepo.TxShares t)
    (scan_numeric <$> VaultRepo.TxSharePrice t) (scan_numeric <$> VaultRepo.TxFee t)
    (VaultRepo.TxCreatedAt t).

Definition created_le (a b : VaultRepo.TxRow) : Prop := VaultRepo.TxCreatedAt a ≤ VaultRepo.TxCreatedAt b.
#[global] Instance created_le_dec a b : Decision (created_le a b) := Z_le_dec _ _.
Definition created_ge (a b : VaultRepo.TxRow) : Prop := VaultRepo.TxCreatedAt b ≤ VaultRepo.TxCreatedAt a.
#[global] Instance created_ge_dec a b : Decision (created_ge a b) := Z_le_dec _ _.

Definition ListUserVaultTransactions (userID vaultID : Z) : M (list VaultTransaction) :=
  exec (λ _ s, Ok (s, map scanVaultTransaction (merge_sort created_le
    (filter (λ t, VaultRepo.TxVaultID t = vaultID ∧ VaultRepo.TxUserID t = Some userID)
       (VaultRepo.txs (VaultRepo.db (session s))))))).

Definition Repo_ListDeposits (vaultID : Z) : M (list VaultTransaction) :=
  exec (λ _ s, Ok (s, map scanVaultTransaction (merge_sort created_ge
    (filter (λ t, VaultRepo.TxVaultID t = vaultID ∧ VaultRepo.TxType t = "deposit"%string)
       (VaultRepo.txs (VaultRepo.db (session s))))))).

(** [INSERT INTO allocations]; [apy] is [NUMERIC(10, 4)] between 0 and 100. *)
Definition insert_allocation (vaultID : Z) (a : Allocation) (at_ : Time) (vaults : list Z)
    (t : list AllocRow) : result VaultRepo.DbError (list AllocRow) :=
  let? amount := VaultRepo.numeric 48 (value (AllocAmount a)) in
  let apy := half_away (value (APY a) * 10000)%Q in
  if 10 ^ 10 <=? Z.abs apy then Err (VaultRepo.DbPg NumericOutOfRange)
  else if (Protocol a =s? "") || (amount <? 0) || (apy <? 0) || (1000000 <? apy)
  then Err (VaultRepo.DbPg CheckViolation)
  else if existsb (λ r, AllocRowID r =? AllocID a) t
  then Err (VaultRepo.DbPg (UniqueViolation "allocations_pkey"))
  else if negb (bool_decide (vaultID ∈ vaults)) then Err (VaultRepo.DbFk "allocations_vault_id_fkey")
  else Ok (t ++ [mkAllocRow (AllocID a) vaultID (Protocol a) amount apy (AllocStatus a) at_]).

(** The inserts of the transaction, on its own copy of the table. *)
Fixpoint insert_allocations (vaultID : Z) (l : list Allocation) (t : list AllocRow) : M (list AllocRow) :=
  match l with
  | [] => mret t
  | a :: rest =>
      t' ← exec (λ now s,
        let? t' := insert_allocation vaultID a (default now (AllocatedAt a))
                     (Ledger.vaults (VaultRepo.ledger (VaultRepo.db (session s)))) t in Ok (s, t'));
      insert_allocations vaultID rest t'
  end.

(** A statement whose error is not mapped. *)
Definition exec_raw {A} (f : State → A) : M A := λ s,
  let '(lost, v) := VaultRepo.round_trip (session s) in
  if lost then (with_session s v, Err (Repo (VaultRepo.ErrDb (VaultRepo.DbPg ConnectionFailure))))
  else (with_session s v, Ok (f (with_session s v))).

(** The commit puts the new table and the touched vault in place. *)
Definition commit_allocations (vaultID : Z) (at_ : Time) (t : list AllocRow) : M unit := λ s,
  let d := VaultRepo.db (session s) in
  (with_allocs (with_session s (VaultRepo.with_db (session s)
     (VaultRepo.with_rows d (alter (VaultRepo.touch at_) vaultID (VaultRepo.rows d))))) t, Ok ()).

(** Begin, check, delete, insert, touch and commit: the tables change with the
    commit. *)
Definition ReplaceAllocations (vaultID : Z) (l : list Allocation) : M unit :=
  exec_raw (λ _, ()) ;;
  exists_ ← exec_raw (λ s, bool_decide (is_Some (live vaultID s)));
  if negb exists_ then throw (Repo VaultRepo.ErrVaultNotFound)
  else
    kept ← exec (λ _ s, Ok (s, filter (λ r, AllocRowVaultID r ≠ vaultID) (allocs s)));
    t ← insert_allocations vaultID l kept;
    touched ← exec (λ now s, Ok (s, now));
    exec_raw (λ _, ()) ;;
    commit_allocations vaultID touched t.

(** *** Operator-funded deposits *)

Record OperatorFundedDepositPolicy := mkOperatorPolicy {
  op_enabled : bool;
  allowedVaults : gset Z;
  maxAmount : decimal;
}.

Definition NewOperatorFundedDepositPolicy (enabled : bool) (allowed : list Z) (cap : decimal)
  : OperatorFundedDepositPolicy :=
  mkOperatorPolicy enabled (list_to_set (filter (λ id, id ≠ 0) allowed)) cap.

Definition Authorize (p : option OperatorFundedDepositPolicy) (vaultID : Z) (amount : decimal)
  : M unit :=
  match p with
  | None => throw ErrOperatorFundedDepositDisabled
  | Some p =>
      if negb (op_enabled p) then throw ErrOperatorFundedDepositDisabled
      else if negb (bool_decide (vaultID ∈ allowedVaults p)) then throw ErrOperatorFundedDepositNotAllowed
      else if (Sign (maxAmount p) <=? 0) || GreaterThan amount (maxAmount p)
      then throw ErrOperatorFundedDepositCapExceeded
      else λ s, (with_spent s (<[vaultID := Add (default Zero (spent s !! vaultID)) amount]> (spent s)),
                 Ok ())
  end.

(** *** The service and what it is wired to *)

Record VerifiedVaultEvent := mkVerifiedEvent { EventAmount : decimal; EventAccount : string }.

(** The chain's answers to the invoker, as functions of the calls' arguments. *)
Record Invoker := mkInvoker {
  deposit_answer : string → Z → option string;
  withdraw_answer : string → Z → Z → result string string;
  preview_deposit : string → Z → result string Z;
  preview_withdraw : string → Z → result string Z;
  harvest_answer : string → string → bool → result string string;
  emergency_answer : string → option string;
}.

(** The goal service's answers: the linked goal with its preference, and whether a
    credit fails. *)
Record GoalYieldRouter := mkGoalRouter {
  GetAutoCompoundForVault : Z → result string (option (Z * bool));
  CreditGoalYieldBalance : Z → decimal → option string;
}.

Record VaultService := mkVaultService {
  moneyPathSwitches : option (string → MoneyPath.Decision);
  vaultMoneyPathSwitches : option (Z → string → MoneyPath.Decision);
  depositAllowlist : option (Z → bool);
  tvlCapManager : option Caps.MainnetTVLCapManager;
  capsChecker : option Caps.Config;
  depositInvoker : option Invoker;
  operatorFundedDeposits : option OperatorFundedDepositPolicy;
  chainVerifier : option (string → string → string → result string VerifiedVaultEvent);
  outflowBreakerConfig : option OutflowBreakerConfig;
  balanceAudit : bool;
  goalYieldRouter : option GoalYieldRouter;
  yieldRecorder : bool;
  defaultHarvestCompound : bool;
}.

Definition outflowBreaker (svc : VaultService) : OutflowBreakerConfig :=
  default DefaultOutflowBreakerConfig (outflowBreakerConfig svc).

Definition ensure (d : MoneyPath.Decision) : M unit :=
  match d with MoneyPath.Allowed => mret () | _ => throw (Gate d) end.

Definition ensureMoneyPathAllowed (svc : VaultService) (op : string) : M unit :=
  match moneyPathSwitches svc with None => mret () | Some gate => ensure (gate op) end.

Definition ensureVaultMoneyPathAllowed (svc : VaultService) (vaultID : Z) (op : string) : M unit :=
  match vaultMoneyPathSwitches svc with None => mret () | Some gate => ensure (gate vaultID op) end.

(** [Checker.CheckDeposit] on totals it reads itself. *)
Definition attempt {A} (m : VaultRepo.M A) : M (option A) := λ s,
  let '(v, r) := m (session s) in
  (with_session s v, Ok (match r with Ok a => Some a | Err _ => None end)).

Definition CheckDeposit (c : option Caps.Config) (userID : Z) (amount : decimal) : M unit :=
  match c with
  | None => mret ()
  | Some cfg =>
      if negb (Caps.Checker_Enabled c) || (Sign amount <=? 0) then mret ()
      else
        user ← (if Caps.perUserEnabled cfg then attempt (VaultRepo.UserDepositTotal scan_numeric userID)
                else mret None);
        let refused := Caps.perUserEnabled cfg &&
          match user with
          | Some t => GreaterThan (Add t amount) (Caps.PerUserCap cfg)
          | None => true
          end in
        global ← (if Caps.globalEnabled cfg && negb refused
                  then attempt (VaultRepo.GlobalDepositTotal scan_numeric) else mret None);
        of_option (CapsErr <$> fst (Caps.CheckDeposit c (Some (user, global)) userID amount))
  end.

(** *** Deposits *)

Record RecordDepositInput := mkDepositInput {
  DepVaultID : Z;
  DepUserID : Z;
  DepAmount : decimal;
  DepTxHash : string;
  DepFee : decimal;
  DepWalletAddress : string;
}.

(** The event the verifier found for the hash, checked against the caller. *)
Definition verified_amount (svc : VaultService) (existing : Vault) (kind txHash wallet : string)
    (requested : decimal) : M decimal :=
  match chainVerifier svc with
  | None => mret requested
  | Some verify =>
      if txHash =s? "" then throw ErrTxHashRequired
      else match verify txHash (ContractAddress existing) kind with
           | Err msg => throw (Verifier msg)
           | Ok ev =>
               let caller := TrimSpace wallet in
               if negb (caller =s? "") && negb (EventAccount ev =s? "") &&
                  negb (EqualFold caller (EventAccount ev))
               then throw ErrChainEventCallerMismatch
               else if Cmp (EventAmount ev) Zero <=? 0 then throw (Repo VaultRepo.ErrInvalidAmount)
               else mret (EventAmount ev)
           end
  end.

(** The operator pays for a deposit that comes without a hash. *)
Definition operator_deposit (svc : VaultService) (existing : Vault) (amount : decimal) : M unit :=
  match depositInvoker svc with
  | None => mret ()
  | Some inv =>
      Authorize (operatorFundedDeposits svc) (VaultID existing) amount ;;
      let stroops := VaultRepo.decimalToStroops amount in
      emit (ChainDeposit (ContractAddress existing) stroops) ;;
      match deposit_answer inv (ContractAddress existing) stroops with
      | None => mret ()
      | Some msg => if Contains msg "#21" then throw ErrBelowMinDeposit else throw (OnChain msg)
      end
  end.

Definition cap_check (svc : VaultService) (userID : Z) (amount : decimal) : VaultRepo.CapCheck :=
  (λ cfg userTotal globalTotal,
     fst (Caps.EvaluateTotals (Some cfg) userID amount userTotal globalTotal)) <$> capsChecker svc.

Definition audit_template (userID : Z) (actor operation : string) (amount : decimal)
    (chainReference : string) (metadata : option (option string)) : VaultRepo.AuditEntry :=
  VaultRepo.mkAuditEntry 0 0 0 userID actor operation amount Zero Zero chainReference metadata 0.

Definition RecordDeposit (svc : VaultService) (input : RecordDepositInput) : M Vault :=
  let id := DepVaultID input in
  let requested := DepAmount input in
  ensureMoneyPathAllowed svc MoneyPath.OperationDeposit ;;
  of_option (match depositAllowlist svc with
             | Some allowed => if negb (DepUserID input =? 0) && negb (allowed (DepUserID input))
                               then Some ErrDepositNotAllowlisted else None
             | None => None
             end) ;;
  if id =? 0 then throw (Repo VaultRepo.ErrInvalidVault)
  else
    ensureVaultMoneyPathAllowed svc id MoneyPath.OperationDeposit ;;
    if Cmp requested Zero <=? 0 then throw (Repo VaultRepo.ErrInvalidAmount)
    else if MaxAmountScale <? decimalScale requested then throw ErrInvalidPrecision
    else
      existing ← GetVault id;
      of_option (TVLCap <$> Caps.CheckDepositCap (tvlCapManager svc) (CurrentBalance existing) requested) ;;
      let userID := if DepUserID input =? 0 then VaultUserID existing else DepUserID input in
      let txHash := TrimSpace (DepTxHash input) in
      if negb (txHash =s? "") && match chainVerifier svc with None => true | Some _ => false end
      then throw ErrChainVerificationUnavailable
      else
        CheckDeposit (capsChecker svc) userID requested ;;
        (if txHash =s? "" then operator_deposit svc existing requested else mret ()) ;;
        amount ← verified_amount svc existing "deposit" txHash (DepWalletAddress input) requested;
        let sharePrice := ComputeSharePrice existing in
        shares ← quo amount sharePrice;
        on_repo (VaultRepo.RecordDepositWithAudit scan_numeric id
          (VaultRepo.mkRecord userID amount txHash (Round shares 6) sharePrice (DepFee input))
          (cap_check svc userID amount)
          (audit_template userID (uuid_String userID) "deposit" amount txHash None)) ;;
        GetVault id.

(** *** Withdrawals *)

Record RecordWithdrawalInput := mkWithdrawalInput {
  WdVaultID : Z;
  WdUserID : Z;
  WdAmount : decimal;
  WdTxHash : string;
  WdFee : decimal;
  WdWalletAddress : string;
  WdSlippageBps : Z;
}.

Definition stroopsPerUnit : decimal := NewFromInt 10000000.

(** Converts an amount of assets to the shares to burn, in stroops, and corrects
    it once by the contract's preview. *)
Definition resolveWithdrawalShares (inv : Invoker) (existing : Vault) (assetAmount : decimal) : M Z :=
  let sharePrice := ComputeSharePrice existing in
  if Sign sharePrice <=? 0 then throw ErrInvalidSharePrice
  else
    let sharesStroops := IntPart (Round (Mul (Div assetAmount sharePrice) stroopsPerUnit) 0) in
    if sharesStroops <=? 0 then throw (Repo VaultRepo.ErrInvalidAmount)
    else match preview_withdraw inv (ContractAddress existing) sharesStroops with
         | Err _ => mret sharesStroops
         | Ok previewed =>
             if previewed <=? 0 then mret sharesStroops
             else
               let corrected := IntPart (Round (Div (Mul (NewFromInt sharesStroops)
                                  (Mul assetAmount stroopsPerUnit)) (NewFromInt previewed)) 0) in
               if corrected <=? 0 then mret sharesStroops else mret corrected
         end.

(** Withdrawals of the window, the requested one included. *)
Definition sum_outflows (cutoff : Time) (amount : decimal) (l : list VaultTransaction) : decimal :=
  foldl (λ sum t, if (TxnType t =s? "withdrawal") && negb (time_before (TxnCreatedAt t) cutoff)
                  then Add sum (TxnAmount t) else sum) amount l.

(** The outflow breaker: it pauses the vault, whatever comes of that, and refuses. *)
Definition outflow_breaker (svc : VaultService) (existing : Vault) (amount : decimal) : M unit :=
  let cfg := outflowBreaker svc in
  if negb (Enabled cfg) then mret ()
  else
    transactions ← ListUserVaultTransactions (VaultUserID existing) (VaultID existing);
    t ← now;
    let sumOutflows := sum_outflows (t - Window cfg) amount transactions in
    if IsPositive (CurrentBalance existing) then
      let pct := Mul (Div sumOutflows (CurrentBalance existing)) (NewFromInt 100) in
      if GreaterThanOrEqual pct (ThresholdPercent cfg) then
        ignoring (Repo_UpdateVault (VaultID existing) (ContractAddress existing) StatusPaused) ;;
        throw ErrVaultPausedByBreaker
      else mret ()
    else mret ().

(** Submits a withdrawal that comes without a hash: the hash of the submission and
    the shares it burned. *)
Definition submit_withdrawal (svc : VaultService) (existing : Vault) (amount : decimal) (slippageBps : Z)
  : M (string * decimal) :=
  match depositInvoker svc with
  | None => mret (""%string, Zero)
  | Some inv =>
      shares ← resolveWithdrawalShares inv existing amount;
      emit (ChainWithdraw (ContractAddress existing) shares slippageBps) ;;
      match withdraw_answer inv (ContractAddress existing) shares slippageBps with
      | Err msg => throw (OnChain msg)
      | Ok submitted => mret (TrimSpace submitted, Div (NewFromInt shares) stroopsPerUnit)
      end
  end.

Definition RecordWithdrawal (svc : VaultService) (input : RecordWithdrawalInput) : M Vault :=
  let id := WdVaultID input in
  let requested := WdAmount input in
  ensureMoneyPathAllowed svc MoneyPath.OperationWithdrawal ;;
  if id =? 0 then throw (Repo VaultRepo.ErrInvalidVault)
  else
    ensureVaultMoneyPathAllowed svc id MoneyPath.OperationWithdrawal ;;
    if Cmp requested Zero <=? 0 then throw (Repo VaultRepo.ErrInvalidAmount)
    else if MaxAmountScale <? decimalScale requested then throw ErrInvalidPrecision
    else
      existing ← GetVault id;
      outflow_breaker svc existing requested ;;
      if bool_decide (Status existing = StatusClosed) then throw ErrVaultClosed
      else if LessThan (CurrentBalance existing) requested
      then throw (Repo VaultRepo.ErrWithdrawalExceedsPosition)
      else if negb (TrimSpace (WdTxHash input) =s? "") &&
              match chainVerifier svc with None => true | Some _ => false end
      then throw ErrChainVerificationUnavailable
      else
        let userID := if WdUserID input =? 0 then VaultUserID existing else WdUserID input in
        submitted ← (if TrimSpace (WdTxHash input) =s? ""
                     then submit_withdrawal svc existing requested (WdSlippageBps input)
                     else mret (TrimSpace (WdTxHash input), Zero));
        let txHash := submitted.1 in
        amount ← verified_amount svc existing "withdraw" txHash (WdWalletAddress input) requested;
        (* without a verifier the amount is the requested one, compared above *)
        if LessThan (CurrentBalance existing) amount
        then throw (Repo VaultRepo.ErrWithdrawalExceedsPosition)
        else
          let sharePrice := ComputeSharePrice existing in
          shares ← quo amount sharePrice;
          let burned := if IsPositive submitted.2 then Round submitted.2 6 else Round shares 6 in
          on_repo (VaultRepo.RecordWithdrawalWithAudit scan_numeric id
            (VaultRepo.mkRecord userID amount txHash burned sharePrice (WdFee input))
            (audit_template userID (uuid_String userID) "withdrawal" amount txHash None)) ;;
          GetVault id.

(** *** The life of a vault *)

Record CreateVaultInput := mkCreateInput {
  CreateUserID : Z;
  CreateContractAddress : string;
  CreateCurrency : string;
  CreateStatus : string;
}.

Definition CreateVault (input : CreateVaultInput) : M Vault :=
  let contractAddress := TrimSpace (CreateContractAddress input) in
  let currency := ToUpper (TrimSpace (CreateCurrency input)) in
  if (CreateUserID input =? 0) || (contractAddress =s? "") || (currency =s? "")
  then throw (Repo VaultRepo.ErrInvalidVault)
  else
    status ← (if TrimSpace (CreateStatus input) =s? "" then mret StatusActive
              else match ParseStatus (TrimSpace (CreateStatus input)) with
                   | Some st => mret st
                   | None => throw (Repo VaultRepo.ErrInvalidVault)
                   end);
    id ← uuid_New;
    Repo_CreateVault id (CreateUserID input) (mkCols contractAddress currency status "") ;;
    mret (mkVault id (CreateUserID input) contractAddress Zero Zero currency status Zero Zero None
            HarvestFrequencyDaily []).

Definition UpdateVault (id : Z) (contractAddress status : string) : M Vault :=
  if id =? 0 then throw (Repo VaultRepo.ErrInvalidVault)
  else
    existing ← GetVault id;
    let contract := if TrimSpace contractAddress =s? "" then ContractAddress existing
                    else TrimSpace contractAddress in
    newStatus ← (if TrimSpace status =s? "" then mret (Status existing)
                 else match ParseStatus status with
                      | None => throw (Repo VaultRepo.ErrInvalidVault)
                      | Some parsed =>
                          if bool_decide (parsed = Status existing) || CanTransitionTo (Status existing) parsed
                          then mret parsed else throw ErrInvalidTransition
                      end);
    Repo_UpdateVault id contract newStatus ;;
    GetVault id.

Definition UpdateHarvestFrequency (id userID : Z) (frequency : string) : M Vault :=
  if id =? 0 then throw (Repo VaultRepo.ErrInvalidVault)
  else match ParseHarvestFrequency frequency with
       | None => throw ErrInvalidHarvestFrequency
       | Some parsed =>
           existing ← GetVault id;
           if negb (VaultUserID existing =? userID) then throw ErrVaultForbidden
           else
             Repo_UpdateHarvestFrequency id parsed ;;
             GetVault id
       end.

Definition CloseVault (id : Z) (force : bool) : M Vault :=
  if id =? 0 then throw (Repo VaultRepo.ErrInvalidVault)
  else
    existing ← GetVault id;
    if bool_decide (Status existing = StatusClosed) then throw ErrVaultClosed
    else if negb force && GreaterThan (CurrentBalance existing) Zero then throw ErrInsufficientBalance
    else
      Repo_UpdateVault id (ContractAddress existing) StatusClosed ;;
      GetVault id.

Definition PauseVault (id : Z) : M Vault :=
  if id =? 0 then throw (Repo VaultRepo.ErrInvalidVault)
  else
    existing ← GetVault id;
    if bool_decide (Status existing = StatusClosed) then throw ErrVaultClosed
    else if negb (bool_decide (Status existing = StatusActive)) then throw ErrVaultNotActive
    else
      Repo_UpdateVault id (ContractAddress existing) StatusPaused ;;
      GetVault id.

Definition UnpauseVault (id : Z) : M Vault :=
  if id =? 0 then throw (Repo VaultRepo.ErrInvalidVault)
  else
    existing ← GetVault id;
    if bool_decide (Status existing = StatusClosed) then throw ErrVaultClosed
    else if negb (bool_decide (Status existing = StatusPaused)) then throw ErrInvalidTransition
    else
      Repo_UpdateVault id (ContractAddress existing) StatusActive ;;
      GetVault id.

Definition DeleteVault (id : Z) : M unit :=
  if id =? 0 then throw (Repo VaultRepo.ErrInvalidVault)
  else
    GetVault id ;;
    on_repo (VaultRepo.SoftDeleteVault id).

Definition ListDeposits (id : Z) : M (list VaultTransaction) :=
  if id =? 0 then throw (Repo VaultRepo.ErrInvalidVault)
  else
    GetVault id ;;
    Repo_ListDeposits id.

Definition GetMyPosition (userID vaultID : Z) : M UserVaultPosition :=
  if (userID =? 0) || (vaultID =? 0) then throw (Repo VaultRepo.ErrInvalidVault)
  else
    v ← GetVault vaultID;
    txns ← ListUserVaultTransactions userID vaultID;
    mret (BuildUserVaultPosition v userID txns).

(** *** Allocations *)

(** The checks on one allocation, and its normal form. *)
Definition normalize_allocation (vaultID : Z) (t : Time) (a : Allocation) : M Allocation :=
  if (TrimSpace (Protocol a) =s? "") || (Cmp (AllocAmount a) Zero <? 0) || (Cmp (APY a) Zero <? 0)
  then throw ErrInvalidAllocation
  else if (MaxAmountScale <? decimalScale (AllocAmount a)) || (MaxAPYScale <? decimalScale (APY a))
  then throw ErrInvalidPrecision
  else
    id ← (if AllocID a =? 0 then uuid_New else mret (AllocID a));
    mret (mkAllocation id vaultID (ToLower (TrimSpace (Protocol a))) (AllocAmount a) (APY a)
            (AllocStatus a) (Some (default t (AllocatedAt a)))).

Fixpoint normalize_allocations (vaultID : Z) (t : Time) (l : list Allocation) (total : decimal)
  : M (list Allocation * decimal) :=
  match l with
  | [] => mret ([], total)
  | a :: rest =>
      a' ← normalize_allocation vaultID t a;
      r ← normalize_allocations vaultID t rest (Add total (AllocAmount a));
      mret (a' :: r.1, r.2)
  end.

Definition UpdateAllocations (vaultID : Z) (l : list Allocation) : M Vault :=
  if vaultID =? 0 then throw (Repo VaultRepo.ErrInvalidVault)
  else
    t ← now;
    r ← normalize_allocations vaultID t l Zero;
    if negb (dec_Equal r.2 (NewFromInt 100)) then throw ErrInvalidAllocation
    else
      ReplaceAllocations vaultID r.1 ;;
      GetVault vaultID.

(** *** Harvests *)

Record HarvestVaultInput := mkHarvestInput {
  HvVaultID : Z;
  HvUserID : Z;
  HvWalletAddress : string;
  HvCompound : option bool;
}.

Record HarvestResult := mkHarvestResult {
  GrossYieldUSDC : string;
  PerformanceFeeUSDC : string;
  NetYieldUSDC : string;
  HvCompounded : bool;
  HvNewSharesMinted : string;
  HvTxHash : string;
}.

Definition formatUSDCAmount (amount : decimal) : string := StringFixed (Round amount 6) 6.

(** How [json.Marshal] writes the harvest's metadata. *)
Context (harvest_metadata : bool → decimal → string) (protocol_metadata : string → string → string).

(** Whether to compound, and the linked goal. *)
Definition harvest_preference (svc : VaultService) (input : HarvestVaultInput) : M (bool * option Z) :=
  linked ← (match goalYieldRouter svc with
            | None => mret None
            | Some g => match GetAutoCompoundForVault g (HvVaultID input) with
                        | Err msg => throw (Goal msg)
                        | Ok r => mret r
                        end
            end : M (option (Z * bool)));
  mret (default (match linked with Some l => l.2 | None => defaultHarvestCompound svc end) (HvCompound input),
        fst <$> linked).

Definition harvest_on_chain (svc : VaultService) (existing : Vault) (wallet : string) (compound : bool)
  : M string :=
  match depositInvoker svc with
  | None => mret ""%string
  | Some inv =>
      let userAddress := TrimSpace wallet in
      if userAddress =s? "" then throw ErrWalletRequired
      else
        emit (ChainHarvest (ContractAddress existing) userAddress compound) ;;
        match harvest_answer inv (ContractAddress existing) userAddress compound with
        | Err msg => throw (OnChain msg)
        | Ok txHash => mret txHash
        end
  end.

Definition HarvestVault (svc : VaultService) (input : HarvestVaultInput) : M HarvestResult :=
  let id := HvVaultID input in
  if (id =? 0) || (HvUserID input =? 0) then throw (Repo VaultRepo.ErrInvalidVault)
  else
    existing ← GetVault id;
    if negb (VaultUserID existing =? HvUserID input) then throw ErrVaultForbidden
    else if bool_decide (Status existing = StatusClosed) then throw ErrVaultClosed
    else if negb (bool_decide (Status existing = StatusActive)) then throw ErrVaultNotActive
    else
      pref ← harvest_preference svc input;
      let compound := pref.1 in
      let grossYield := harvestableYield existing in
      if Cmp grossYield Zero <=? 0
      then mret (mkHarvestResult (formatUSDCAmount Zero) (formatUSDCAmount Zero) (formatUSDCAmount Zero)
                   compound "" "")
      else
        let fee := performance_fee grossYield in
        let netYield := Sub grossYield fee in
        txHash ← harvest_on_chain svc existing (HvWalletAddress input) compound;
        let newShares := if compound then Some (estimateSharesMinted existing netYield) else None in
        on_repo (VaultRepo.RecordHarvestWithAudit scan_numeric
          (VaultRepo.mkHarvest id (HvUserID input) netYield fee compound newShares txHash)
          (audit_template (HvUserID input) (VaultRepo.SystemActor "harvest") "harvest" netYield txHash
             (Some (Some (harvest_metadata compound fee))))) ;;
        (match goalYieldRouter svc, pref.2 with
         | Some g, Some goal =>
             if compound then mret ()
             else
               emit (GoalCredit goal netYield) ;;
               match CreditGoalYieldBalance g goal netYield with
               | Some msg => throw (Goal msg)
               | None => mret ()
               end
         | _, _ => mret ()
         end) ;;
        (if yieldRecorder svc then emit (YieldRecorded (HvUserID input) id netYield txHash) else mret ()) ;;
        mret (mkHarvestResult (formatUSDCAmount grossYield) (formatUSDCAmount fee) (formatUSDCAmount netYield)
                compound (from_option formatUSDCAmount ""%string newShares) txHash).

(** *** Rebalances and the emergency exit *)

(** Appends an audit entry; a failure is logged only. *)
Definition recordBalanceAudit (svc : VaultService) (vaultID userID : Z) (actor operation : string)
    (amount before after : decimal) (chainRef : string) (metadata : option string) : M unit :=
  if negb (balanceAudit svc) then mret ()
  else ignoring (on_repo (VaultRepo.Append (VaultRepo.mkAuditEntry 0 0 vaultID userID actor operation amount before after
         chainRef (Some <$> metadata) 0))).

Definition position_results (l : list Allocation) : list (string * decimal) :=
  omap (λ a, if Cmp (AllocAmount a) Zero <=? 0 then None else Some (Protocol a, AllocAmount a)) l.

Fixpoint audit_exits (svc : VaultService) (existing : Vault) (l : list (string * decimal)) : M unit :=
  match l with
  | [] => mret ()
  | (protocol, amount) :: rest =>
      recordBalanceAudit svc (VaultID existing) (VaultUserID existing) (uuid_String (VaultUserID existing))
        "emergency_withdraw" amount (CurrentBalance existing) (Sub (CurrentBalance existing) amount) ""
        (Some (protocol_metadata protocol "")) ;;
      audit_exits svc existing rest
  end.

Definition EmergencyWithdraw (svc : VaultService) (id : Z) : M (list (string * decimal)) :=
  if id =? 0 then throw (Repo VaultRepo.ErrInvalidVault)
  else
    existing ← GetVault id;
    (match depositInvoker svc with
     | None => mret ()
     | Some inv =>
         emit (ChainEmergencyExit (ContractAddress existing)) ;;
         match emergency_answer inv (ContractAddress existing) with
         | Some msg => throw (OnChain msg)
         | None => mret ()
         end
     end) ;;
    let succeeded := position_results (Allocations existing) in
    audit_exits svc existing succeeded ;;
    mret succeeded.

Record RebalancePositionInput := mkRebalanceInput {
  RbVaultID : Z;
  RbUserID : Z;
  RbFromProtocol : string;
  RbToProtocol : string;
  RbAmount : decimal;
  RbTxHash : string;
}.

(** The last allocation of the protocol's name, compared as it is. *)
Definition protocol_balance (p : string) (l : list Allocation) : decimal :=
  foldl (λ b a, if Protocol a =s? p then AllocAmount a else b) Zero l.

Definition RebalancePosition (svc : VaultService) (input : RebalancePositionInput)
  : M (Vault * decimal * decimal) :=
  let id := RbVaultID input in
  let amount := RbAmount input in
  ensureMoneyPathAllowed svc MoneyPath.OperationWithdrawal ;;
  if (id =? 0) || (RbUserID input =? 0) then throw (Repo VaultRepo.ErrInvalidVault)
  else
    ensureVaultMoneyPathAllowed svc id MoneyPath.OperationWithdrawal ;;
    if Cmp amount Zero <=? 0 then throw (Repo VaultRepo.ErrInvalidAmount)
    else if (RbFromProtocol input =s? "") || (RbToProtocol input =s? "") ||
            (RbFromProtocol input =s? RbToProtocol input)
    then throw (Repo VaultRepo.ErrInvalidVault)
    else
      existing ← GetVault id;
      if negb (VaultUserID existing =? RbUserID input) then throw ErrVaultForbidden
      else if negb (bool_decide (Status existing = StatusActive)) then throw ErrVaultNotActive
      else if Cmp (CurrentBalance existing) amount <? 0 then throw ErrInsufficientBalance
      else
        let sharePrice := ComputeSharePrice existing in
        shares ← quo amount sharePrice;
        let record := VaultRepo.mkRecord (RbUserID input) amount (RbTxHash input) (Round shares 6)
                        sharePrice Zero in
        on_repo (VaultRepo.RecordRebalance
          (VaultRepo.mkRebalance id (RbUserID input) (RbFromProtocol input) (RbToProtocol input) amount
             (RbTxHash input)) record record) ;;
        updated ← GetVault id;
        recordBalanceAudit svc id (RbUserID input) (uuid_String (RbUserID input)) "rebalance_withdraw"
          amount (CurrentBalance existing) (CurrentBalance updated) (RbTxHash input)
          (Some (protocol_metadata (RbFromProtocol input) (RbToProtocol input))) ;;
        recordBalanceAudit svc id (RbUserID input) (uuid_String (RbUserID input)) "rebalance_deposit"
          amount (CurrentBalance existing) (CurrentBalance updated) (RbTxHash input)
          (Some (protocol_metadata (RbToProtocol input) (RbFromProtocol input))) ;;
        mret (updated, protocol_balance (RbFromProtocol input) (Allocations updated),
              protocol_balance (RbToProtocol input) (Allocations updated)).

End service.

End VaultService.
