(* ===== verification/VaultServiceBooks.v ===== *)
(** What the vault service promises: money it credits is vouched for by the chain,
    money it pays out is covered, a pause stops it, vaults live by their status
    machine, and the books stay sound whatever it is asked. *)
From Stdlib Require Import Lqa.
From S2P Require Import Prelude Decimals Ledger LedgerRepo LedgerService LedgerBooks Caps MoneyPath VaultRepo VaultBooks VaultDomain VaultService.
Open Scope Z_scope.

Module VaultServiceBooks.
Import Decimals Ledger VaultDomain VaultRepo VaultBooks VaultService.

Section books.
  Context `{DecimalOrderLaws} `{F : !DecimalFormat}.
  Context (scan_numeric : Z → decimal).
  Context (scan_numeric_value : ∀ z, (value (scan_numeric z) == col z)%Q).
  Context (uuid_String : Z → string).
  Context (harvest_metadata : bool → decimal → string) (protocol_metadata : string → string → string).

Notation sdb s := (VaultRepo.db (session s)).

(** *** Reads *)

(** The same database; [b]: and no effect in between. *)
Definition same (b : bool) (s s' : State) : Prop :=
  same_tables (session s) (session s') ∧ cols s' = cols s ∧ allocs s' = allocs s ∧
  (b = true → VaultService.effects s' = VaultService.effects s ∧ spent s' = spent s).

Lemma same_refl b s : same b s s.
Proof. split; [apply same_tables_refl|by split_and!]. Qed.

Lemma same_trans b s1 s2 s3 : same b s1 s2 → same b s2 s3 → same b s1 s3.
Proof.
  intros (T1 & C1 & A1 & E1) (T2 & C2 & A2 & E2). split; [by eapply same_tables_trans|].
  split_and!; [congruence..|]. intros Hb. destruct (E1 Hb), (E2 Hb). split; congruence.
Qed.

Lemma same_weaken b s s' : same true s s' → same b s s'.
Proof. intros (?&?&?&He). split_and!; [done..|]. intros _. by apply He. Qed.

Definition reads {A} (m : M A) : Prop := ∀ s, same true s (fst (m s)).

Lemma reads_ret {A} (a : A) : reads (mret a).
Proof. intros s. apply same_refl. Qed.

Lemma reads_throw {A} e : reads (throw e : M A).
Proof. intros s. apply same_refl. Qed.

Lemma reads_of_option e : reads (of_option e).
Proof. destruct e; [apply reads_throw|apply reads_ret]. Qed.

Lemma reads_ensure d : reads (ensure d).
Proof. destruct d; [apply reads_ret|apply reads_throw..]. Qed.

Lemma reads_bind {A B} (m : M A) (k : A → M B) : reads m → (∀ a, reads (k a)) → reads (m ≫= k).
Proof.
  intros Hm Hk s. unfold mbind, M_bind. specialize (Hm s). destruct (m s) as [s1 [a|e]]; [|done].
  eapply same_trans; [exact Hm|apply Hk].
Qed.

Lemma reads_exec {A} (f : Time → State → A) : reads (exec (λ now s, Ok (s, f now s))).
Proof.
  intros s. unfold exec. pose proof (round_trip_same (session s)) as Hr.
  destruct (round_trip (session s)) as [[] v]; by split_and!.
Qed.

Lemma reads_session {A} (m : VaultRepo.M A) (g : result VaultErr A → result SvcErr A) :
  (∀ v, same_tables v (fst (m v))) →
  reads (λ s, let '(v, r) := m (session s) in (with_session s v, g r)).
Proof. intros Hm s. specialize (Hm (session s)). by destruct (m (session s)) as [v r]. Qed.

Lemma reads_attempt {A} (m : VaultRepo.M A) : (∀ v, same_tables v (fst (m v))) → reads (attempt m).
Proof. intros Hm s. unfold attempt. specialize (Hm (session s)). by destruct (m (session s)) as [v r]. Qed.

Lemma total_same (f : DB → Z) v :
  same_tables v (fst ((total ← exec_db (query (λ _, f)); mret (scan_numeric total)) v)).
Proof.
  pose proof (query_same (λ _, f) v) as Hq. unfold mbind, VaultRepo.M_bind.
  by destruct (exec_db _ v) as [v1 [t|e]].
Qed.

Lemma reads_uuid : reads uuid_New.
Proof. intros s. split_and!; try done. split_and!; cbn; done || lia. Qed.

Lemma reads_now : reads now.
Proof. intros s. apply same_refl. Qed.

Lemma reads_quo a b : reads (quo a b).
Proof. unfold quo. destruct (IsZero b); [apply reads_throw|apply reads_ret]. Qed.

End books.

Create HintDb vault_reads.
#[export] Hint Resolve reads_ret reads_throw reads_of_option reads_ensure reads_bind reads_exec
  reads_uuid reads_now reads_quo : vault_reads.

(** Walks through a reading operation. *)
Ltac reads :=
  repeat match goal with
  | |- reads (mbind _ _) => apply reads_bind; [|intros ?]
  | |- reads (if ?b then _ else _) => destruct b
  | |- reads (match ?x with _ => _ end) => destruct x
  | |- reads (let '_ := _ in _) => cbv zeta
  end; auto with vault_reads.

Section service.
  Context `{DecimalOrderLaws} `{F : !DecimalFormat}.
  Context (scan_numeric : Z → decimal).
  Context (scan_numeric_value : ∀ z, (value (scan_numeric z) == col z)%Q).
  Context (uuid_String : Z → string).
  Context (harvest_metadata : bool → decimal → string) (protocol_metadata : string → string → string).

Notation sdb s := (VaultRepo.db (session s)).

Lemma reads_GetVault id : reads (GetVault scan_numeric id).
Proof. unfold GetVault. reads. Qed.

Lemma reads_transactions u v : reads (ListUserVaultTransactions scan_numeric u v).
Proof. apply reads_exec. Qed.

Lemma reads_global svc op : reads (ensureMoneyPathAllowed svc op).
Proof. unfold ensureMoneyPathAllowed. reads. Qed.

Lemma reads_vault_gate svc v op : reads (ensureVaultMoneyPathAllowed svc v op).
Proof. unfold ensureVaultMoneyPathAllowed. reads. Qed.

Lemma reads_caps c u a : reads (CheckDeposit scan_numeric c u a).
Proof.
  unfold CheckDeposit. destruct c as [cfg|]; [|apply reads_ret]. reads.
  - apply reads_attempt, total_same.
  - apply reads_attempt, total_same.
Qed.

Lemma reads_verified svc v kind h w a : reads (verified_amount svc v kind h w a).
Proof. unfold verified_amount. reads. Qed.

Lemma reads_shares inv v a : reads (resolveWithdrawalShares inv v a).
Proof. unfold resolveWithdrawalShares. reads. Qed.

End service.

#[export] Hint Resolve reads_GetVault reads_transactions reads_global reads_vault_gate reads_caps
  reads_verified reads_shares : vault_reads.

Section service_books.
  Context `{DecimalOrderLaws} `{F : !DecimalFormat}.
  Context (scan_numeric : Z → decimal).
  Context (scan_numeric_value : ∀ z, (value (scan_numeric z) == col z)%Q).
  Context (uuid_String : Z → string).
  Context (harvest_metadata : bool → decimal → string) (protocol_metadata : string → string → string).

Notation sdb s := (VaultRepo.db (session s)).

(** [v] is what the tables of [s] hold of vault [id]. *)
Definition view_of (id : Z) (s : State) (r : VaultRow) (c : Cols) (v : Vault) : Prop :=
  live_vault id (sdb s) = Some r ∧ cols s !! id = Some c ∧
  VaultDomain.VaultID v = id ∧ VaultUserID v = RowUserID r ∧ ContractAddress v = ColContractAddress c ∧
  Status v = ColStatus c ∧ VaultDomain.CurrentBalance v = scan_numeric (CurrentBalance r) ∧
  VaultDomain.TotalDeposited v = scan_numeric (TotalDeposited r) ∧
  VaultDomain.YieldEarned v = scan_numeric (YieldEarned r).

Lemma GetVault_view id s s1 v :
  GetVault scan_numeric id s = (s1, Ok v) → ∃ r c, view_of id s r c v.
Proof.
  unfold GetVault, mbind, M_bind, VaultService.exec.
  pose proof (round_trip_same (session s)) as (Hd & _). destruct (round_trip (session s)) as [[] v1]; [done|].
  cbn in Hd |- *. unfold live. cbn. rewrite Hd.
  destruct (live_vault id (sdb s)) as [r|] eqn:Er; cbn; [|discriminate].
  destruct (cols s !! id) as [c|] eqn:Ec; cbn; [|discriminate].
  destruct (round_trip v1) as [[] v2]; cbn; [discriminate|]. intros [= <- <-]. by exists r, c.
Qed.

Lemma view_same id b s s' r c v : same b s s' → view_of id s' r c v → view_of id s r c v.
Proof. intros ((Hd & _) & Hc & _). unfold view_of. by rewrite Hd, Hc. Qed.

(** An operation that fails early has changed nothing. *)
Definition guarded {A} (b : bool) (s0 : State) (Q : State * result SvcErr A → Prop)
    (p : State * result SvcErr A) : Prop :=
  (same b s0 p.1 ∧ is_ok p.2 = false) ∨ Q p.

Lemma guarded_throw {A} b s0 s e (Q : State * result SvcErr A → Prop) :
  same b s0 s → guarded b s0 Q (throw e s).
Proof. by left. Qed.

Lemma guarded_bind {A B} b s0 (m : M A) (k : A → M B) s Q :
  (∀ s, same b s (fst (m s))) → same b s0 s →
  (∀ a s1, m s = (s1, Ok a) → same b s0 s1 → guarded b s0 Q (k a s1)) →
  guarded b s0 Q ((m ≫= k) s).
Proof.
  intros Hm Hs Hk. unfold mbind, M_bind. specialize (Hm s).
  assert (same b s0 (fst (m s))) as Hs1 by (by eapply same_trans).
  destruct (m s) as [s1 [a|e]]; [by apply Hk|by left].
Qed.

Lemma reads_same {A} b (m : M A) : reads m → ∀ s, same b s (fst (m s)).
Proof. intros Hm s. by apply same_weaken. Qed.

(** Reading the vault again at the end changes nothing. *)
Lemma then_GetVault {A} (m : M A) id s :
  let p := (m ;; GetVault scan_numeric id) s in
  same true (fst (m s)) p.1 ∧ (is_ok p.2 = true → is_ok (snd (m s)) = true).
Proof.
  unfold mbind, M_bind. cbv zeta. destruct (m s) as [s1 [a|e]]; [|split; [apply same_refl|done]].
  split; [apply reads_GetVault|done].
Qed.

(** Whom a movement is recorded for, and whether an event is the caller's. *)
Definition acting (userID owner : Z) : Z := if userID =? 0 then owner else userID.
Definition caller_matches (wallet account : string) : Prop :=
  TrimSpace wallet = ""%string ∨ account = ""%string ∨ EqualFold (TrimSpace wallet) account = true.

(** The chain vouches for a movement of [amount] at the vault's contract. *)
Definition vouched (verify : string → string → string → result string VerifiedVaultEvent)
    (hash contract kind wallet : string) (amount : decimal) : Prop :=
  hash ≠ ""%string ∧ (0 < value amount)%Q ∧
  ∃ account, verify hash contract kind = Ok (mkVerifiedEvent amount account) ∧ caller_matches wallet account.

Lemma verified_vouched svc verify v kind h w a s s1 x :
  chainVerifier svc = Some verify → verified_amount svc v kind h w a s = (s1, Ok x) →
  vouched verify h (ContractAddress v) kind w x.
Proof.
  intros Hv. unfold verified_amount. rewrite Hv. destruct (h =s? "") eqn:Eh; [done|]. reflect_bools.
  destruct (verify h (ContractAddress v) kind) as [[amt acc]|msg] eqn:Ev; [|done]. cbn [EventAccount EventAmount].
  destruct (negb (TrimSpace w =s? "") && negb (acc =s? "") && negb (EqualFold (TrimSpace w) acc)) eqn:Ec; [done|].
  destruct (Cmp amt Zero <=? 0) eqn:Ez; [done|]. intros [= <- <-]. split; [done|]. split.
  - apply Qnot_le_lt. rewrite <- Cmp_Zero_le. congruence.
  - exists acc. split; [done|]. rewrite !andb_false_iff, !negb_false_iff in Ec.
    unfold caller_matches. destruct Ec as [[?|?]|?]; reflect_bools; auto.
Qed.

(** The movement [ty] of [amount] on vault [id], booked once under [hash]. *)
Definition moved_once (id user : Z) (ty : string) (amount : decimal) (hash : string) (d d' : DB) : Prop :=
  hash_taken (Some hash) d = false ∧
  ∃ r r' t, live_vault id d = Some r ∧ rows d' = <[id := r']> (rows d) ∧ txs d' = txs d ++ [t] ∧
    VaultRepo.TxHash t = Some hash ∧ TxVaultID t = id ∧ TxUserID t = Some user ∧ TxType t = ty ∧
    numeric 48 (value amount) = Ok (TxAmount t) ∧ check_row r' = true ∧
    numeric 48 (if ty =s? "deposit" then col (CurrentBalance r) + value amount
                else col (CurrentBalance r) - value amount)%Q = Ok (CurrentBalance r').

Lemma audited_moves id user ty amount hash x q0 now d q d' :
  hash ≠ ""%string →
  audited id (if ty =s? "deposit" then set_credit now (value amount) else set_debit now (value amount))
    (Some user) ty (value amount) (nullif_empty hash) x q0 d q d' →
  moved_once id user ty amount hash d d'.
Proof.
  intros Hne (r & r' & t & a & He & Hf & T1 & T2 & T3 & T4 & _ & T5 & _).
  assert (nullif_empty hash = Some hash) as Hnull.
  { unfold nullif_empty. by rewrite (proj2 (string_eqb_neq _ _) Hne). }
  rewrite Hnull in T5. split.
  - rewrite <- T5. apply (proj2 (ef_fresh _ _ _ _ _ _ _ _ He)). by left.
  - exists r, r', t. split_and!; try done; [apply He..|]. 
    destruct (current_after now (value amount) 0 r r') as [C1 C2].
    destruct (ty =s? "deposit"); [apply C1|apply C2]; by left.
Qed.

(** What lets a deposit through. *)
Definition deposit_allowed (svc : VaultService) (id user : Z) : Prop :=
  (∀ gate, moneyPathSwitches svc = Some gate → gate "deposit" = MoneyPath.Allowed) ∧
  (∀ gate, vaultMoneyPathSwitches svc = Some gate → gate id "deposit" = MoneyPath.Allowed) ∧
  (∀ allowed, depositAllowlist svc = Some allowed → user = 0 ∨ allowed user = true).

Lemma global_allowed svc op s s1 u :
  ensureMoneyPathAllowed svc op s = (s1, Ok u) →
  ∀ gate, moneyPathSwitches svc = Some gate → gate op = MoneyPath.Allowed.
Proof.
  unfold ensureMoneyPathAllowed. intros Hm gate Hg. rewrite Hg in Hm. by destruct (gate op).
Qed.

Lemma vault_allowed svc id op s s1 u :
  ensureVaultMoneyPathAllowed svc id op s = (s1, Ok u) →
  ∀ gate, vaultMoneyPathSwitches svc = Some gate → gate id op = MoneyPath.Allowed.
Proof.
  unfold ensureVaultMoneyPathAllowed. intros Hm gate Hg. rewrite Hg in Hm. by destruct (gate id op).
Qed.

(** Steps over an operation that reads, keeping its result. *)
Ltac pass := apply guarded_bind; [apply reads_same; by auto with vault_reads|done|].

Lemma operator_same svc v a s : same false s (fst (operator_deposit svc v a s)).
Proof.
  unfold operator_deposit, mbind, M_bind. destruct (depositInvoker svc) as [inv|]; [|apply same_refl].
  unfold Authorize. destruct (operatorFundedDeposits svc) as [p|]; [|apply same_refl].
  destruct (negb (op_enabled p)); [apply same_refl|].
  destruct (negb (bool_decide _)); [apply same_refl|].
  destruct (_ || _); [apply same_refl|].
  destruct (deposit_answer inv _ _) as [msg|]; [destruct (Contains msg "#21")|]; cbn;
    (split; [apply same_tables_refl|done]).
Qed.

Lemma quo_state a b s s' q : quo a b s = (s', Ok q) → s' = s.
Proof. unfold quo. destruct (IsZero b); intros Hq; [discriminate Hq|]. by injection Hq. Qed.

(** What a deposit has been through when it is recorded. *)
Definition deposit_passed (svc : VaultService) (input : RecordDepositInput) (s : State)
    (p : State * result SvcErr Vault) : Prop :=
  let id := DepVaultID input in
  let hash := TrimSpace (DepTxHash input) in
  ∃ s' s1 r c v amount shares, same (negb (hash =s? "")) s s' ∧ view_of id s r c v ∧
    deposit_allowed svc id (DepUserID input) ∧ id ≠ 0 ∧
    verified_amount svc v "deposit" hash (DepWalletAddress input) (DepAmount input) s1 = (s', Ok amount) ∧
    p = (on_repo (VaultRepo.RecordDepositWithAudit scan_numeric id
           (mkRecord (acting (DepUserID input) (RowUserID r)) amount hash shares (ComputeSharePrice v) (DepFee input))
           (cap_check svc (acting (DepUserID input) (RowUserID r)) amount)
           (audit_template (acting (DepUserID input) (RowUserID r))
              (uuid_String (acting (DepUserID input) (RowUserID r))) "deposit" amount hash None)) ;;
         GetVault scan_numeric id) s'.

Lemma RecordDeposit_passes svc input s :
  guarded (negb (TrimSpace (DepTxHash input) =s? "")) s (deposit_passed svc input s)
    (RecordDeposit scan_numeric uuid_String svc input s).
Proof.
  unfold RecordDeposit. cbv zeta. set (b := negb _). pose proof (same_refl b s) as H0s.
  pass. intros u1 s1 E1 Hs1. pass. intros u2 s2 E2 Hs2.
  destruct (Z.eqb_spec (DepVaultID input) 0) as [|Hid]; [by apply guarded_throw|].
  pass. intros u3 s3 E3 Hs3.
  destruct (Cmp (DepAmount input) Zero <=? 0); [by apply guarded_throw|].
  destruct (MaxAmountScale <? _); [by apply guarded_throw|].
  pass. intros v s4 E4 Hs4. pass. intros u5 s5 _ Hs5.
  destruct (_ && _); [by apply guarded_throw|]. pass. intros u6 s6 _ Hs6.
  apply guarded_bind; [|done|].
  { intros s'. unfold b. destruct (TrimSpace (DepTxHash input) =s? ""); [apply operator_same|apply same_refl]. }
  intros u7 s7 _ Hs7. pass. intros amount s8 E8 Hs8. pass. intros q s9 E9 Hs9. right.
  assert (s9 = s8) as ->.
  { by eapply quo_state. }
  pose proof (GetVault_view _ _ _ _ E4) as (r & c & Hv).
  exists s8, s7, r, c, v, amount, (Round q 6). split; [done|].
  assert (view_of (DepVaultID input) s r c v) as Hv0 by (eapply view_same; [exact Hs3|exact Hv]).
  split; [done|]. split.
  { split_and!.
    - by eapply global_allowed.
    - by eapply vault_allowed.
    - intros allowed Ha. rewrite Ha in E2. destruct (DepUserID input =? 0) eqn:Eu; reflect_bools; [by left|].
      right. cbn in E2. by destruct (allowed (DepUserID input)). }
  split; [done|]. split; [exact E8|]. destruct Hv0 as (_ & _ & _ & <- & _). reflexivity.
Qed.

(** A repository operation on the session, as the books see it. *)
Lemma on_repo_op {A} (m : VaultRepo.M A) (o : Op) s :
  run_op scan_numeric uuid_String o (session s) = VaultBooks.drop m (session s) →
  sound (session s) → sound (session (fst (on_repo m s))).
Proof.
  intros Ho Hs. pose proof (op_sound scan_numeric uuid_String o _ Hs) as H1.
  rewrite Ho, fst_drop in H1. unfold on_repo. by destruct (m (session s)).
Qed.

(** C1: Money is credited on the chain's word only. With a chain verifier wired
    in, whatever a deposit request says and whatever fails on the way, either the
    database is as it was, or the switches and the allowlist let the request
    through, the verifier found the event of its hash at the vault's contract for
    the caller, the amount it found is within the launch caps, and exactly that
    amount is credited, once under that hash. A request with a hash never makes the
    service call the chain. *)
Theorem credited_amount_is_vouched svc verify input s :
  chainVerifier svc = Some verify → sound (session s) →
  let p := RecordDeposit scan_numeric uuid_String svc input s in
  let id := DepVaultID input in
  let hash := TrimSpace (DepTxHash input) in
  sound (session p.1) ∧ cols p.1 = cols s ∧ allocs p.1 = allocs s ∧
  (hash ≠ ""%string → VaultService.effects p.1 = VaultService.effects s) ∧
  ((sdb p.1 = sdb s ∧ is_ok p.2 = false) ∨
   ∃ r c amount, live_vault id (sdb s) = Some r ∧ cols s !! id = Some c ∧
     deposit_allowed svc id (DepUserID input) ∧
     vouched verify hash (ColContractAddress c) "deposit" (DepWalletAddress input) amount ∧
     (∀ cfg, capsChecker svc = Some cfg →
        fst (Caps.EvaluateTotals (Some cfg) (acting (DepUserID input) (RowUserID r)) amount
          (scan_numeric (user_total (acting (DepUserID input) (RowUserID r)) (sdb s)))
          (scan_numeric (global_total (sdb s)))) = None) ∧
     moved_once id (acting (DepUserID input) (RowUserID r)) "deposit" amount hash (sdb s) (sdb p.1)).
Proof.
  intros Hver Hs. cbv zeta.
  destruct (RecordDeposit_passes svc input s) as
    [[(T & C & A & E) Hok]|(s' & s1 & r & c & v & amount & shares & (T & C & A & E) & Hv & Hall & Hid & Hamt & ->)].
  - split; [by eapply same_sound|]. split; [done|]. split; [done|]. split.
    + intros Hh. apply E. by rewrite (proj2 (string_eqb_neq _ _) Hh).
    + left. split; [apply T|done].
  - set (u := acting _ _). set (rec := mkRecord u _ _ _ _ _). set (tmpl := audit_template _ _ _ _ _ _).
    set (check := cap_check svc u amount).
    destruct (then_GetVault (on_repo (VaultRepo.RecordDepositWithAudit scan_numeric (DepVaultID input) rec check tmpl))
      (DepVaultID input) s') as [(T2 & C2 & A2 & E2) Hok].
    pose proof (same_sound _ _ T Hs) as Hs'.
    pose proof (on_repo_op _ (OpDepositWithAudit (DepVaultID input) rec check tmpl) s' eq_refl Hs') as Hs1.
    pose proof (deposit_outcome scan_numeric scan_numeric_value (DepVaultID input) rec check tmpl
      (session s') (sd_idle _ Hs')) as Ho.
    unfold on_repo in *. pose proof T as (Td & _). cbn [audit_template rec RecUserID RecAmount TransactionHash] in Ho.
    destruct (VaultRepo.RecordDepositWithAudit scan_numeric _ rec check tmpl (session s')) as [v1 [a|e]];
      cbn in *; destruct E2 as [E2 _]; try done; unfold outcome in Ho; cbn in Ho; pose proof T2 as (Td2 & _); cbn in Td2;
      (split; [by eapply same_sound|split; [congruence|split; [congruence|split;
        [intros Hh; rewrite E2; apply E; by rewrite (proj2 (string_eqb_neq _ _) Hh)|]]]]).
    + right. destruct Ho as [Hcap Hau]. destruct (verified_vouched _ _ _ _ _ _ _ _ _ _ Hver Hamt) as (Hne & Hpos & Hvouch).
      destruct Hv as (Hl & Hc & _ & _ & Hcon & _). exists r, c, amount. rewrite Td2. rewrite Td in Hau, Hcap.
      rewrite Hcon in Hvouch. split_and!; try done.
      * intros cfg Hcfg. apply (Hcap (λ ut gt, fst (Caps.EvaluateTotals (Some cfg) u amount ut gt))).
        unfold check, cap_check. by rewrite Hcfg.
      * eapply audited_moves; [done|]. exact Hau.
    + left. split; [congruence|]. destruct (snd _); [by specialize (Hok eq_refl)|done].
Qed.

(** *** Changes of a vault's columns *)

Lemma round_trip_clock v : clock (snd (round_trip v)) = clock v.
Proof. apply round_trip_same. Qed.

(** [UpdateVault] replaces the live vault's columns, or does nothing. *)
Definition recolumned (id : Z) (f : Cols → Cols) (s s' : State) : Prop :=
  ∃ r c v, live_vault id (sdb s) = Some r ∧ cols s !! id = Some c ∧ same_tables (session s) v ∧
    session s' = with_db v (with_rows (sdb s) (<[id := touch (clock v) r]> (rows (sdb s)))) ∧
    cols s' = <[id := f c]> (cols s) ∧ allocs s' = allocs s ∧
    VaultService.effects s' = VaultService.effects s ∧ spent s' = spent s.

Lemma set_cols_outcome id f s :
  let p := (rows ← exec (set_cols id f);
            if rows =? 0 then throw (Repo ErrVaultNotFound) else mret ()) s in
  (same true s p.1 ∧ is_ok p.2 = false) ∨ (recolumned id f s p.1 ∧ p.2 = Ok ()).
Proof.
  unfold mbind, M_bind, exec. cbv zeta. pose proof (round_trip_same (session s)) as Hr.
  destruct (round_trip (session s)) as [[] v]; cbn [fst snd] in *; [by left; split_and!|].
  assert (same true s (with_session s v)) as Hsame by by split_and!.
  unfold set_cols, live. cbn. pose proof Hr as (Hd & _). rewrite Hd.
  destruct (live_vault id (sdb s)) as [r|] eqn:Er; cbn; [|by left].
  destruct (cols s !! id) as [c|] eqn:Ec; cbn; [|by left].
  destruct (ColContractAddress (f c) =s? ""); cbn; [by left|].
  destruct (address_taken id _ _); cbn; [by left|].
  right. split; [|done]. exists r, c, v. by split_and!.
Qed.

Lemma recolumned_sound id f s s' : recolumned id f s s' → sound (session s) → sound (session s').
Proof.
  intros (r & c & v & Hl & _ & Hv & Hs & _) Hsd. rewrite Hs. pose proof Hv as (Hd & _).
  rewrite <- Hd in *. apply touch_sound; [by apply live_vault_rows|by eapply same_sound].
Qed.

(** *** Withdrawals *)

(** A withdrawal once it has been submitted, or came with a hash. *)
Definition record_withdrawal (svc : VaultService) (input : RecordWithdrawalInput) (v : Vault)
    (submitted : string * decimal) : M Vault :=
  amount ← verified_amount svc v "withdraw" submitted.1 (WdWalletAddress input) (WdAmount input);
  if LessThan (VaultDomain.CurrentBalance v) amount then throw (Repo ErrWithdrawalExceedsPosition)
  else
    shares ← quo amount (ComputeSharePrice v);
    on_repo (VaultRepo.RecordWithdrawalWithAudit scan_numeric (WdVaultID input)
      (mkRecord (acting (WdUserID input) (VaultUserID v)) amount submitted.1
         (if IsPositive submitted.2 then Round submitted.2 6 else Round shares 6)
         (ComputeSharePrice v) (WdFee input))
      (audit_template (acting (WdUserID input) (VaultUserID v))
         (uuid_String (acting (WdUserID input) (VaultUserID v))) "withdrawal" amount submitted.1 None)) ;;
    GetVault scan_numeric (WdVaultID input).

(** The hash of a withdrawal, submitted if it has none, and the shares burned. *)
Definition submission (svc : VaultService) (input : RecordWithdrawalInput) (v : Vault) : M (string * decimal) :=
  if TrimSpace (WdTxHash input) =s? ""
  then submit_withdrawal svc v (WdAmount input) (WdSlippageBps input)
  else mret (TrimSpace (WdTxHash input), Zero).

Definition withdrawal_allowed (svc : VaultService) (id : Z) : Prop :=
  (∀ gate, moneyPathSwitches svc = Some gate → gate "withdrawal" = MoneyPath.Allowed) ∧
  (∀ gate, vaultMoneyPathSwitches svc = Some gate → gate id "withdrawal" = MoneyPath.Allowed).

(** The request is allowed, positive, and covered by a vault that is not closed. *)
Definition covered (svc : VaultService) (input : RecordWithdrawalInput) (s : State) (r : VaultRow) (c : Cols)
  : Prop :=
  live_vault (WdVaultID input) (sdb s) = Some r ∧ cols s !! WdVaultID input = Some c ∧
  withdrawal_allowed svc (WdVaultID input) ∧ ColStatus c ≠ StatusClosed ∧
  (0 < value (WdAmount input) <= col (CurrentBalance r))%Q.

(** The breaker has paused the vault instead of paying out. *)
Definition broken (id : Z) (s : State) (p : State * result SvcErr Vault) : Prop :=
  p.2 = Err ErrVaultPausedByBreaker ∧
  (same true s p.1 ∨ recolumned id (λ c, mkCols (ColContractAddress c) (ColCurrency c) StatusPaused (ColHarvestFrequency c)) s p.1).

Definition withdrawal_passed (svc : VaultService) (input : RecordWithdrawalInput) (s : State)
    (p : State * result SvcErr Vault) : Prop :=
  broken (WdVaultID input) s p ∨
  ∃ s' r c v, same true s s' ∧ view_of (WdVaultID input) s r c v ∧ covered svc input s r c ∧
    p = (submission svc input v ≫= record_withdrawal svc input v) s'.

Lemma recolumned_ext id f g s s' :
  (∀ c, cols s !! id = Some c → f c = g c) → recolumned id f s s' → recolumned id g s s'.
Proof.
  intros Hfg (r & c & v & Hl & Hc & Hrest). exists r, c, v. by rewrite <- (Hfg c Hc).
Qed.

Lemma recolumned_from id f s s1 s' : same true s s1 → recolumned id f s1 s' → recolumned id f s s'.
Proof.
  intros (T & C & A & E) (r & c & v & Hl & Hc & Hv & Hs & Hcs & Ha & He & Hsp).
  pose proof T as (Td & _). rewrite Td in *. rewrite C in *. destruct (E eq_refl) as [E1 E2].
  exists r, c, v. split_and!; try done; try congruence. by eapply same_tables_trans.
Qed.

Lemma breaker_outcome svc v a s :
  let p := outflow_breaker scan_numeric svc v a s in
  same true s p.1 ∨
  (p.2 = Err ErrVaultPausedByBreaker ∧
   recolumned (VaultDomain.VaultID v)
     (λ c, mkCols (ContractAddress v) (ColCurrency c) StatusPaused (ColHarvestFrequency c)) s p.1).
Proof.
  cbv zeta. unfold outflow_breaker. destruct (negb (Enabled _)); [left; apply same_refl|].
  pose proof (reads_transactions scan_numeric (VaultUserID v) (VaultDomain.VaultID v) s) as Hr.
  unfold mbind, M_bind, ignoring, now.
  destruct (ListUserVaultTransactions scan_numeric _ _ s) as [s1 [l|e]]; [|by left]. cbn [fst] in Hr.
  destruct (IsPositive _); [|by left]. destruct (GreaterThanOrEqual _ _); [|by left].
  destruct (set_cols_outcome (VaultDomain.VaultID v)
    (λ c, mkCols (ContractAddress v) (ColCurrency c) StatusPaused (ColHarvestFrequency c)) s1) as [[Hs _]|[Hc _]].
  - left. eapply same_trans; [exact Hr|exact Hs].
  - right. split; [done|]. eapply recolumned_from; [exact Hr|exact Hc].
Qed.

Lemma positive_request a : (Cmp a Zero <=? 0) = false → (0 < value a)%Q.
Proof. intros Hc. apply Qnot_le_lt. rewrite <- Cmp_Zero_le. congruence. Qed.

Lemma RecordWithdrawal_passes svc input s :
  guarded true s (withdrawal_passed svc input s)
    (RecordWithdrawal scan_numeric uuid_String svc input s).
Proof.
  unfold RecordWithdrawal. cbv zeta. pose proof (same_refl true s) as H0s.
  pass. intros u1 s1 E1 Hs1.
  destruct (WdVaultID input =? 0); [by apply guarded_throw|].
  pass. intros u3 s3 E3 Hs3.
  destruct (Cmp (WdAmount input) Zero <=? 0) eqn:Epos; [by apply guarded_throw|].
  destruct (MaxAmountScale <? _); [by apply guarded_throw|].
  pass. intros v s4 E4 Hs4. pose proof (GetVault_view _ _ _ _ E4) as (r & c & Hv).
  assert (view_of (WdVaultID input) s r c v) as Hv0 by (eapply view_same; [exact Hs3|exact Hv]).
  pose proof Hv0 as (Hl & Hc & Hid & Hu & Hcon & Hst & Hcb & _).
  pose proof (breaker_outcome svc v (WdAmount input) s4) as Hb. unfold mbind at 1, M_bind at 1.
  destruct (outflow_breaker scan_numeric svc v (WdAmount input) s4) as [s5 [u5|e5]]; cbn [fst snd] in Hb.
  2:{ destruct Hb as [Hb|[Hp Hb]]; [left; split; [by eapply same_trans|done]|].
      right. left. split; [cbn; congruence|]. right. rewrite Hid in Hb.
      eapply recolumned_ext; [|eapply recolumned_from; [exact Hs4|exact Hb]].
      intros c' Hc'. cbn. congruence. }
  destruct Hb as [Hb|[? _]]; [|done]. assert (same true s s5) as Hs5 by by eapply same_trans.
  destruct (bool_decide (Status v = StatusClosed)) eqn:Ecl; [by apply guarded_throw|].
  destruct (LessThan (VaultDomain.CurrentBalance v) (WdAmount input)) eqn:Elt; [by apply guarded_throw|].
  destruct (negb _ && _); [by apply guarded_throw|].
  right. right. exists s5, r, c, v. split; [done|]. split; [done|]. split.
  - split; [done|]. split; [done|]. split; [split; [by eapply global_allowed|by eapply vault_allowed]|].
    split; [apply bool_decide_eq_false in Ecl; congruence|].
    split; [by apply positive_request|]. apply Qnot_lt_le. intros Hlt.
    assert (LessThan (VaultDomain.CurrentBalance v) (WdAmount input) = true) as Ht; [|congruence].
    apply LessThan_value. by rewrite Hcb, scan_numeric_value.
  - reflexivity.
Qed.

(** What the submission does before the chain's answer is checked. *)
Lemma submission_outcome svc input v s :
  let p := submission svc input v s in
  same true s p.1 ∨
  (TrimSpace (WdTxHash input) = ""%string ∧ same false s p.1 ∧ ∃ shares,
    VaultService.effects p.1 = VaultService.effects s ++ [ChainWithdraw (ContractAddress v) shares (WdSlippageBps input)]).
Proof.
  cbv zeta. unfold submission. destruct (TrimSpace (WdTxHash input) =s? "") eqn:Eh; reflect_bools; [|left; apply same_refl].
  unfold submit_withdrawal. destruct (depositInvoker svc) as [inv|]; [|left; apply same_refl].
  unfold mbind, M_bind. pose proof (reads_shares inv v (WdAmount input) s) as Hr.
  destruct (resolveWithdrawalShares inv v (WdAmount input) s) as [s1 [x|e]]; [|by left]. cbn in Hr.
  destruct Hr as (T & C & A & He). destruct (He eq_refl) as [He1 _].
  right. split; [done|]. cbn [emit]. destruct (withdraw_answer inv (ContractAddress v) x (WdSlippageBps input)) as [h|msg]; cbn;
    (split; [by split_and!|by exists x; rewrite He1]).
Qed.

(** Operations without effects outside the database. *)
Definition silent {A} (m : M A) : Prop :=
  ∀ s, VaultService.effects (fst (m s)) = VaultService.effects s ∧ cols (fst (m s)) = cols s.

Lemma silent_reads {A} (m : M A) : reads m → silent m.
Proof. intros Hm s. destruct (Hm s) as (_ & Hc & _ & He). split; [by apply He|done]. Qed.

Lemma silent_bind {A B} (m : M A) (k : A → M B) : silent m → (∀ a, silent (k a)) → silent (m ≫= k).
Proof.
  intros Hm Hk s. unfold mbind, M_bind. specialize (Hm s). destruct (m s) as [s1 [a|e]]; [|done].
  cbn in Hm. destruct (Hk a s1), Hm. split; congruence.
Qed.

Lemma silent_repo {A} (m : VaultRepo.M A) : silent (on_repo m).
Proof. intros s. unfold on_repo. by destruct (m (session s)) as [v r]. Qed.

Lemma record_withdrawal_silent svc input v submitted : silent (record_withdrawal svc input v submitted).
Proof.
  unfold record_withdrawal. apply silent_bind; [apply silent_reads, reads_verified|]. intros amount.
  destruct (LessThan _ amount); [apply silent_reads, reads_throw|].
  apply silent_bind; [apply silent_reads, reads_quo|]. intros q.
  apply silent_bind; [apply silent_repo|]. intros a. apply silent_reads, reads_GetVault.
Qed.

(** The chain is asked to pay out only what is covered. Whatever fails, one
    withdrawal request makes at most one call to the chain, and only for a request
    without a hash that the switches allow, on a live vault that is not closed and
    whose balance covers the positive amount asked for. *)
Lemma submitted_withdrawal_is_covered svc input s :
  let p := RecordWithdrawal scan_numeric uuid_String svc input s in
  VaultService.effects p.1 = VaultService.effects s ∨
  (TrimSpace (WdTxHash input) = ""%string ∧ ∃ r c shares, covered svc input s r c ∧
     VaultService.effects p.1 =
       VaultService.effects s ++ [ChainWithdraw (ColContractAddress c) shares (WdSlippageBps input)]).
Proof.
  cbv zeta. destruct (RecordWithdrawal_passes svc input s) as
    [[(_ & _ & _ & He) _]|[[_ [(_ & _ & _ & He)|Hc]]|(s' & r & c & v & Hs & Hv & Hcov & ->)]].
  - left. by apply He.
  - left. by apply He.
  - left. by destruct Hc as (? & ? & ? & ? & ? & ? & ? & ? & ? & ? & ?).
  - pose proof (submission_outcome svc input v s') as Hsub. unfold mbind, M_bind.
    destruct Hs as (_ & _ & _ & He). destruct (He eq_refl) as [He1 _].
    destruct (submission svc input v s') as [s1 [sub|e]]; cbn [fst] in Hsub.
    + destruct (record_withdrawal_silent svc input v sub s1) as [Ht _].
      destruct Hsub as [(_ & _ & _ & Hsub)|(Hh & _ & shares & Hsub)].
      * left. destruct (Hsub eq_refl). congruence.
      * right. split; [done|]. exists r, c, shares. split; [done|].
        destruct Hv as (_ & _ & _ & _ & <- & _). congruence.
    + destruct Hsub as [(_ & _ & _ & Hsub)|(Hh & _ & shares & Hsub)]; cbn [fst].
      * left. destruct (Hsub eq_refl). congruence.
      * right. split; [done|]. exists r, c, shares. split; [done|].
        destruct Hv as (_ & _ & _ & _ & <- & _). congruence.
Qed.

Definition withdrawal_recorded (svc : VaultService) (input : RecordWithdrawalInput) (v : Vault)
    (submitted : string * decimal) (s : State) (p : State * result SvcErr Vault) : Prop :=
  ∃ s' s1 amount burned, same false s s' ∧
    verified_amount svc v "withdraw" submitted.1 (WdWalletAddress input) (WdAmount input) s1 = (s', Ok amount) ∧
    LessThan (VaultDomain.CurrentBalance v) amount = false ∧
    p = (on_repo (VaultRepo.RecordWithdrawalWithAudit scan_numeric (WdVaultID input)
           (mkRecord (acting (WdUserID input) (VaultUserID v)) amount submitted.1 burned
              (ComputeSharePrice v) (WdFee input))
           (audit_template (acting (WdUserID input) (VaultUserID v))
              (uuid_String (acting (WdUserID input) (VaultUserID v))) "withdrawal" amount submitted.1 None)) ;;
         GetVault scan_numeric (WdVaultID input)) s'.

Lemma record_withdrawal_passes svc input v sub s s1 :
  same false s s1 →
  guarded false s (withdrawal_recorded svc input v sub s) (record_withdrawal svc input v sub s1).
Proof.
  intros Hs1. unfold record_withdrawal. pass. intros amount s2 E2 Hs2.
  destruct (LessThan _ amount) eqn:El; [by apply guarded_throw|]. pass. intros q s3 E3 Hs3.
  apply quo_state in E3 as ->. right. eexists s2, s1, amount, _. done.
Qed.

Lemma bind_run {A B} (m : M A) (k : A → M B) s :
  (m ≫= k) s = match m s with (s1, Ok a) => k a s1 | (s1, Err e) => (s1, Err e) end.
Proof. reflexivity. Qed.

(** Where a submission leaves the hash it was given, or one of its own. *)
Lemma submission_hash svc input v s s1 sub :
  submission svc input v s = (s1, Ok sub) →
  TrimSpace (WdTxHash input) = sub.1 ∨ TrimSpace (WdTxHash input) = ""%string.
Proof.
  unfold submission. destruct (TrimSpace (WdTxHash input) =s? "") eqn:E; reflect_bools; [by right|].
  intros [= <- <-]. by left.
Qed.

(** C2: Money is paid out on the chain's word and only if it is there. With a
    chain verifier wired in, whatever a withdrawal request says and whatever fails
    on the way, either the database is as it was, or the outflow breaker has paused
    the vault instead, or the request was covered by a live vault that is not
    closed, the verifier vouches for the amount at the vault's contract, and exactly
    that amount, no more than the balance, is debited once under the hash. *)
Theorem paid_out_is_vouched_and_covered svc verify input s :
  chainVerifier svc = Some verify → sound (session s) →
  let p := RecordWithdrawal scan_numeric uuid_String svc input s in
  let id := WdVaultID input in
  sound (session p.1) ∧
  ((sdb p.1 = sdb s ∧ cols p.1 = cols s ∧ is_ok p.2 = false) ∨ broken id s p ∨
   ∃ r c amount hash, covered svc input s r c ∧ cols p.1 = cols s ∧
     (TrimSpace (WdTxHash input) = hash ∨ TrimSpace (WdTxHash input) = ""%string) ∧
     vouched verify hash (ColContractAddress c) "withdraw" (WdWalletAddress input) amount ∧
     (value amount <= col (CurrentBalance r))%Q ∧
     moved_once id (acting (WdUserID input) (RowUserID r)) "withdrawal" amount hash (sdb s) (sdb p.1)).
Proof.
  intros Hver Hs. cbv zeta. destruct (RecordWithdrawal_passes svc input s) as
    [[(T & C & _) Hok]|[[Hp Hb]|(s' & r & c & v & Hsame & Hv & Hcov & ->)]].
  - split; [by eapply same_sound|]. left. split; [apply T|done].
  - split.
    + destruct Hb as [(T & _)|Hb]; [by eapply same_sound|by eapply recolumned_sound].
    + by right; left.
  - assert (same false s s') as Hs' by by apply same_weaken.
    pose proof (submission_outcome svc input v s') as Hsub.
    assert (same false s (fst (submission svc input v s'))) as Hs1.
    { eapply same_trans; [exact Hs'|]. by destruct Hsub as [?|(_ & ? & _)]; [apply same_weaken|]. }
    pose proof Hv as (Hl & Hc & _ & Hu & Hcon & _ & Hcb & _). rewrite bind_run.
    destruct (submission svc input v s') as [s1 [sub|e]] eqn:Esub; cbn [fst] in Hs1.
    2:{ destruct Hs1 as (T & C & _). split; [by eapply same_sound|]. left. split; [apply T|done]. }
    destruct (record_withdrawal_passes svc input v sub s s1 Hs1) as
      [[(T & C & _) Hok]|(s2 & s3 & amount & burned & (T & C & _) & Hamt & Hle & ->)].
    + split; [by eapply same_sound|]. left. split; [apply T|done].
    + apply submission_hash in Esub.
      destruct (verified_vouched _ _ _ _ _ _ _ _ _ _ Hver Hamt) as (Hne & Hpos & Hvouch).
      rewrite Hcon in Hvouch. rewrite Hu.
      assert (value amount <= col (CurrentBalance r))%Q as Hcovered.
      { apply Qnot_lt_le. intros Hlt. assert (LessThan (VaultDomain.CurrentBalance v) amount = true) as Ht; [|congruence].
        apply LessThan_value. by rewrite Hcb, scan_numeric_value. }
      set (u := acting _ _). set (rec := mkRecord u _ _ _ _ _). set (tmpl := audit_template _ _ _ _ _ _).
      pose proof (then_GetVault (on_repo (VaultRepo.RecordWithdrawalWithAudit scan_numeric (WdVaultID input) rec tmpl))
        (WdVaultID input) s2) as [(T2 & C2 & _) Hok].
      pose proof (same_sound _ _ T Hs) as Hs2.
      pose proof (on_repo_op _ (OpWithdrawalWithAudit (WdVaultID input) rec tmpl) s2 eq_refl Hs2) as Hsd.
      pose proof (withdrawal_outcome scan_numeric scan_numeric_value (WdVaultID input) rec tmpl
        (session s2) (sd_idle _ Hs2)) as Ho.
      unfold on_repo in *. pose proof T as (Td & _).
      destruct (VaultRepo.RecordWithdrawalWithAudit scan_numeric _ rec tmpl (session s2)) as [v1 [a|e]];
        unfold outcome in Ho; cbn in *; pose proof T2 as (Td2 & _); cbn in Td2;
        (split; [by eapply same_sound|]).
      * right; right. exists r, c, amount, sub.1. split; [done|]. split; [congruence|]. split; [done|]. split; [done|].
        split; [done|]. rewrite Td2. rewrite Td in Ho. eapply audited_moves; [done|]. exact Ho.
      * left. split; [congruence|]. split; [congruence|].
        destruct (snd _); [by specialize (Hok eq_refl)|done].
Qed.

(** *** Shares to burn *)

Lemma round_sixteen_near q : (Qabs (round_to 16 q - q) <= 1 # 20000000000000000)%Q.
Proof.
  unfold round_to. set (t := (10000000000000000)%Q). assert (Qpower 10 16 == t)%Q as Ht by reflexivity.
  rewrite (half_away_proper _ (q * t)) by by rewrite Ht. rewrite Ht.
  assert (inject_Z (half_away (q * t)) / t - q == (inject_Z (half_away (q * t)) - q * t) * (1 # 10000000000000000))%Q
    as -> by (unfold t; field).
  rewrite Qabs_Qmult. pose proof (half_away_near (q * t)) as Hn.
  apply (Qle_trans _ ((1 # 2) * (1 # 10000000000000000))); [|by vm_compute].
  apply Qmult_le_compat_r; [exact Hn|by vm_compute].
Qed.

(** The estimate at the vault's own share price. *)
Definition estimated_shares (v : Vault) (amount : decimal) : Z :=
  IntPart (Round (Mul (Div amount (ComputeSharePrice v)) stroopsPerUnit) 0).

(** A submission burns what the request is worth. When the contract previews
    the estimated shares at a positive value, the shares burned are the nearest
    whole number, up to the rounding of a division, to the one whose value at the
    previewed price is exactly the amount asked for. *)
Lemma burned_shares_are_nearest inv v amount s previewed :
  let est := estimated_shares v amount in
  let x := (inject_Z est * (value amount * 10000000) / inject_Z previewed)%Q in
  0 < Sign (ComputeSharePrice v) → 0 < est → preview_withdraw inv (ContractAddress v) est = Ok previewed →
  0 < previewed → in_i64 previewed → (1 <= x)%Q → (x + 1 <= inject_Z max_i64)%Q →
  ∃ n, resolveWithdrawalShares inv v amount s = (s, Ok n) ∧
    (Qabs (inject_Z n - x) <= (1 # 2) + (1 # 20000000000000000))%Q.
Proof.
  cbv zeta. set (est := estimated_shares v amount). set (x := (_ / inject_Z previewed)%Q).
  intros Hsign Hest Hprev Hpos Hin Hx1 Hx2. unfold resolveWithdrawalShares. cbv zeta.
  rewrite (proj2 (Z.leb_gt _ _)) by lia. fold (estimated_shares v amount). fold est.
  rewrite (proj2 (Z.leb_gt _ _)) by lia. rewrite Hprev. rewrite (proj2 (Z.leb_gt _ _)) by lia.
  assert (in_i64 est) as Hein.
  { unfold est, estimated_shares. rewrite IntPart_value. apply i64_range. }
  assert (value (NewFromInt previewed) == inject_Z previewed)%Q as Hvp by by apply NewFromInt_value.
  assert (¬ (inject_Z previewed == 0)%Q) as Hnz by (unfold Qeq; cbn; lia).
  set (d := Div _ _). set (y := round_to 16 x).
  assert (value d == y)%Q as Hd.
  { unfold d, y. rewrite Div_places by by rewrite Hvp. apply round_to_proper.
    unfold x, stroopsPerUnit. rewrite !Mul_value, Hvp, (NewFromInt_value est) by done.
    rewrite NewFromInt_value by (unfold in_i64, min_i64, max_i64; lia). reflexivity. }
  pose proof (round_sixteen_near x) as Hy. fold y in Hy. pose proof (half_away_near y) as Hh.
  apply Qabs_Qle_condition in Hy as [Hy1 Hy2], Hh as [Hh1 Hh2].
  set (k := half_away y) in *.
  assert (0 < k ∧ k < max_i64) as [Hk1 Hk2].
  { split; rewrite Zlt_Qlt; change (inject_Z 0) with 0%Q; lra. }
  assert (IntPart (Round d 0) = k) as Hint.
  { rewrite IntPart_value, (LedgerBooks.quot_integer _ k).
    - apply i64_id. unfold in_i64, min_i64, max_i64 in *. lia.
    - rewrite Round_value. unfold k. by rewrite (half_away_proper _ y). }
  rewrite Hint, (proj2 (Z.leb_gt _ _)) by lia.
  exists k. split; [done|]. apply Qabs_Qle_condition. split; lra.
Qed.

End service_books.

(** *** Concrete runs *)

#[local] Existing Instances QDecimal QDecimal_laws QDecimalOrder QDecimalOrder_laws QDecimalFormat.

(** A chain with a deposit of 5 and a withdrawal of 1, and a contract whose shares
    are worth twice what the vault's own price says. *)
Definition demo_verify (hash contract kind : string) : result string VerifiedVaultEvent :=
  if (hash =s? "h1") && (kind =s? "deposit") then Ok (mkVerifiedEvent (dec 5) "G9")
  else if (hash =s? "w1") && (kind =s? "withdraw") then Ok (mkVerifiedEvent (dec 1) "")
  else Err "not found"%string.

Definition demo_invoker : Invoker :=
  mkInvoker (λ _ _, None) (λ _ _ _, Ok "w1"%string) (λ _ stroops, Ok stroops) (λ _ shares, Ok (2 * shares)) (λ _ _ _, Ok "y1"%string) (λ _, None).

Definition demo_breaker : OutflowBreakerConfig := mkOutflowBreaker true (dec 25) (1 * Hour).

Definition demo_service : VaultService :=
  mkVaultService None None None None None (Some demo_invoker) None (Some demo_verify) (Some demo_breaker)
    true None false true.

(** Vault 7 of user 9, empty and with 5 in it. *)
Definition demo_cols : gmap Z Cols := {[7 := mkCols "C1" "USDC" StatusActive HarvestFrequencyDaily]}.
Definition demo_open : State := mkState s_vault demo_cols [] [] ∅.
Definition demo_funded : State := mkState s_deposit demo_cols [] [] ∅.
Definition demo_deposit : RecordDepositInput := mkDepositInput 7 9 (dec 5) " h1" (dec 0) "g9".
Definition demo_withdrawal (amount : decimal) : RecordWithdrawalInput :=
  mkWithdrawalInput 7 9 amount "" (dec 0) "" 50.
Definition deposited := RecordDeposit scan_Q id_text demo_service demo_deposit demo_open.
Definition withdrawn := RecordWithdrawal scan_Q id_text demo_service (demo_withdrawal (dec 1)) demo_funded.

Lemma demo_open_sound : sound (session demo_open).
Proof.
  apply (step_sound scan_Q id_text any_op s_user).
  - by apply (step_vault scan_Q id_text any_op 7 9 (Some 300000000)); [|intros ?%elem_of_nil].
  - by apply (step_sound scan_Q id_text any_op start); [apply step_user|apply start_sound].
Qed.

Lemma credited_amount_is_vouched_witness :
  is_ok (snd deposited) = true ∧ VaultService.effects (fst deposited) = [] ∧
  ∃ amount, vouched demo_verify "h1" "C1" "deposit" "g9" amount ∧
    moved_once 7 9 "deposit" amount "h1" (VaultRepo.db s_vault) (VaultRepo.db (session (fst deposited))).
Proof.
  assert (is_ok (snd deposited) = true) as Hok by (vm_compute; reflexivity).
  destruct (credited_amount_is_vouched scan_Q scan_Q_value id_text demo_service demo_verify demo_deposit
    demo_open eq_refl demo_open_sound) as (_ & _ & _ & He & [[_ Hx]|(r & c & amount & Hl & Hc & _ & Hv & _ & Hm)]).
  - unfold deposited in Hok. congruence.
  - split; [exact Hok|]. split; [by apply He|]. exists amount. injection Hc as <-. by split.
Defined.

Lemma paid_out_is_vouched_and_covered_witness :
  is_ok (snd withdrawn) = true ∧
  ∃ amount hash, vouched demo_verify hash "C1" "withdraw" "" amount ∧
    moved_once 7 9 "withdrawal" amount hash (VaultRepo.db s_deposit) (VaultRepo.db (session (fst withdrawn))).
Proof.
  assert (is_ok (snd withdrawn) = true) as Hok by (vm_compute; reflexivity).
  assert (sound (session demo_funded)) as Hs.
  { by apply (reach_sound scan_Q scan_Q_value id_text any_op), demo_reach. }
  destruct (paid_out_is_vouched_and_covered scan_Q scan_Q_value id_text demo_service demo_verify
    (demo_withdrawal (dec 1)) demo_funded eq_refl Hs)
    as (_ & [(_ & _ & Hx)|[[Hx _]|(r & c & amount & hash & (Hl & Hc & _) & _ & _ & Hv & _ & Hm)]]).
  - unfold withdrawn in Hok. congruence.
  - unfold withdrawn in Hok. rewrite Hx in Hok. discriminate Hok.
  - split; [exact Hok|]. exists amount, hash. injection Hc as <-.
    assert (RowUserID r = 9) as Hu by (vm_compute in Hl; by injection Hl as <-).
    cbn in Hm. by split.
Defined.

Lemma submitted_withdrawal_is_covered_witness :
  length (VaultService.effects (fst withdrawn)) = 1%nat ∧
  ∃ r c shares, covered demo_service (demo_withdrawal (dec 1)) demo_funded r c ∧
    VaultService.effects (fst withdrawn) = [ChainWithdraw (ColContractAddress c) shares 50].
Proof.
  assert (length (VaultService.effects (fst withdrawn)) = 1%nat) as Hl by (vm_compute; reflexivity).
  split; [exact Hl|].
  destruct (submitted_withdrawal_is_covered scan_Q scan_Q_value id_text demo_service (demo_withdrawal (dec 1))
    demo_funded) as [He|(_ & r & c & shares & Hc & He)].
  - unfold withdrawn in Hl. rewrite He in Hl. discriminate Hl.
  - exists r, c, shares. split; [exact Hc|exact He].
Defined.

(** What the withdrawal of 1 sees of the vault. *)
Definition demo_vault : Vault :=
  mkVault 7 9 "C1" (dec 5) (dec 5) "USDC" StatusActive (dec 0) (dec 0) None "daily" [].

Lemma burned_shares_are_nearest_witness :
  ∃ n, resolveWithdrawalShares demo_invoker demo_vault (dec 1) demo_funded = (demo_funded, Ok n) ∧
    (Qabs (inject_Z n - inject_Z 10000000 * (value (dec 1) * 10000000) / inject_Z 20000000) <= (1 # 2) + (1 # 20000000000000000))%Q.
Proof.
  assert (estimated_shares demo_vault (dec 1) = 10000000) as He by (vm_compute; reflexivity).
  destruct (burned_shares_are_nearest demo_invoker demo_vault (dec 1) demo_funded 20000000) as (n & Hn & Hq).
  - vm_compute; reflexivity.
  - rewrite He. lia.
  - rewrite He. reflexivity.
  - lia.
  - unfold in_i64, min_i64, max_i64. lia.
  - rewrite He. vm_compute. discriminate.
  - rewrite He. vm_compute. discriminate.
  - exists n. split; [exact Hn|]. rewrite He in Hq. exact Hq.
Defined.

End VaultServiceBooks.
