(* ===== verification/VaultServiceLife.v ===== *)
(** The vault service over time: every request takes the books through steps of
    their own, and moves vaults along their status machine only. *)
From S2P Require Import Prelude Decimals Ledger Caps MoneyPath VaultRepo VaultBooks VaultDomain VaultService VaultServiceBooks.
Open Scope Z_scope.

Module VaultServiceLife.
Import Decimals Ledger VaultDomain VaultRepo VaultBooks VaultService VaultServiceBooks.

(** *** Requests *)

(** The state-changing methods of the service, and the two that read through it. *)
Section requests.
  Context `{DecimalOrderLaws} `{F : !DecimalFormat}.
  Context (scan_numeric : Z → decimal).
  Context (uuid_String : Z → string).
  Context (harvest_metadata : bool → decimal → string) (protocol_metadata : string → string → string).

Inductive Request :=
| ReqDeposit (input : RecordDepositInput)
| ReqWithdrawal (input : RecordWithdrawalInput)
| ReqCreate (input : CreateVaultInput)
| ReqUpdate (id : Z) (contractAddress status : string)
| ReqHarvestFrequency (id userID : Z) (frequency : string)
| ReqClose (id : Z) (force : bool)
| ReqPause (id : Z)
| ReqUnpause (id : Z)
| ReqDelete (id : Z)
| ReqDeposits (id : Z)
| ReqPosition (userID id : Z)
| ReqAllocations (id : Z) (l : list Allocation)
| ReqHarvest (input : HarvestVaultInput)
| ReqRebalance (input : RebalancePositionInput)
| ReqEmergency (id : Z).

Definition serve (svc : VaultService) (req : Request) : M unit :=
  match req with
  | ReqDeposit input => RecordDeposit scan_numeric uuid_String svc input ;; mret ()
  | ReqWithdrawal input => RecordWithdrawal scan_numeric uuid_String svc input ;; mret ()
  | ReqCreate input => CreateVault input ;; mret ()
  | ReqUpdate id contract status => UpdateVault scan_numeric id contract status ;; mret ()
  | ReqHarvestFrequency id u freq => UpdateHarvestFrequency scan_numeric id u freq ;; mret ()
  | ReqClose id force => CloseVault scan_numeric id force ;; mret ()
  | ReqPause id => PauseVault scan_numeric id ;; mret ()
  | ReqUnpause id => UnpauseVault scan_numeric id ;; mret ()
  | ReqDelete id => DeleteVault scan_numeric id
  | ReqDeposits id => ListDeposits scan_numeric id ;; mret ()
  | ReqPosition u id => GetMyPosition scan_numeric u id ;; mret ()
  | ReqAllocations id l => UpdateAllocations scan_numeric id l ;; mret ()
  | ReqHarvest input => HarvestVault scan_numeric harvest_metadata svc input ;; mret ()
  | ReqRebalance input => RebalancePosition scan_numeric uuid_String protocol_metadata svc input ;; mret ()
  | ReqEmergency id => EmergencyWithdraw scan_numeric uuid_String protocol_metadata svc id ;; mret ()
  end.

(** The repository operations a request may use: those that append to the trail
    what they do, but for the two requests that append their own entries. *)
Definition request_ops (req : Request) (o : Op) : Prop :=
  match req with
  | ReqEmergency _ => ∃ entry, o = OpAppend entry
  | ReqRebalance _ => (∃ entry, o = OpAppend entry) ∨ ∃ input w d, o = OpRebalance input w d
  | _ => audited_op o = true
  end.

End requests.

(** *** Operations as steps *)

Section steps.
  Context `{DecimalOrderLaws} `{F : !DecimalFormat}.
  Context (scan_numeric : Z → decimal).
  Context (uuid_String : Z → string).
  Context (allowed : Op → Prop).

Notation steps := (rtc (VaultBooks.step scan_numeric uuid_String allowed)).

(** [m] runs through steps of the books and leaves the columns alone. *)
Definition walks {A} (m : M A) : Prop :=
  ∀ s, steps (session s) (session (fst (m s))) ∧ cols (fst (m s)) = cols s.

Lemma same_steps b s s' : same b s s' → steps (session s) (session s') ∧ cols s' = cols s.
Proof. intros (Ht & Hc & _). split; [by apply rtc_once, same_step|done]. Qed.

Lemma walks_reads {A} (m : M A) : reads m → walks m.
Proof. intros Hm s. eapply same_steps, Hm. Qed.

Lemma walks_bind {A B} (m : M A) (k : A → M B) : walks m → (∀ a, walks (k a)) → walks (m ≫= k).
Proof.
  intros Hm Hk s. rewrite bind_run. destruct (Hm s) as [H1 H2]. destruct (m s) as [s1 [a|e]]; [|done].
  destruct (Hk a s1). cbn in *. split; [by etransitivity|congruence].
Qed.

Lemma walks_still {A} (m : M A) :
  (∀ s, session (fst (m s)) = session s ∧ cols (fst (m s)) = cols s) → walks m.
Proof. intros Hm s. destruct (Hm s) as [-> ->]. done. Qed.

Lemma walks_emit e : walks (emit e).
Proof. by apply walks_still. Qed.

Lemma walks_ignoring m : walks m → walks (ignoring m).
Proof. intros Hm s. apply Hm. Qed.

Lemma walks_repo {A} (m : VaultRepo.M A) o :
  allowed o → run_op scan_numeric uuid_String o = VaultBooks.drop m → walks (on_repo m).
Proof.
  intros Ha Ho s. pose proof (step_op scan_numeric uuid_String allowed o (session s) Ha) as Hs.
  rewrite Ho, fst_drop in Hs. unfold on_repo. destruct (m (session s)) as [v r]. by split; [apply rtc_once|].
Qed.

Lemma walks_unit (m : VaultRepo.M unit) o :
  allowed o → run_op scan_numeric uuid_String o = m → walks (on_repo m).
Proof.
  intros Ha Ho s. pose proof (step_op scan_numeric uuid_String allowed o (session s) Ha) as Hs.
  rewrite Ho in Hs. unfold on_repo. destruct (m (session s)) as [v r]. by split; [apply rtc_once|].
Qed.

Lemma walks_raw {A} (f : State → A) : walks (exec_raw f).
Proof.
  intros s. unfold exec_raw. pose proof (round_trip_same (session s)) as Hr.
  destruct (round_trip (session s)) as [[] v]; by split; [apply rtc_once, same_step|].
Qed.

(** A statement whose table is not of the session's model. *)
Lemma walks_exec_result {A} (f : Time → State → result DbError (State * A)) :
  (∀ now s s' a, f now s = Ok (s', a) → s' = s) → walks (exec f).
Proof.
  intros Hf s. unfold exec. pose proof (round_trip_same (session s)) as Hr.
  destruct (round_trip (session s)) as [[] v]; [by split; [apply rtc_once, same_step|]|].
  destruct (f _ _) as [[s2 a]|e] eqn:Ef; [apply Hf in Ef as ->|]; by split; [apply rtc_once, same_step|].
Qed.

End steps.

Create HintDb vault_walks.
#[export] Hint Resolve walks_bind walks_emit walks_ignoring walks_raw : vault_walks.
#[export] Hint Extern 5 (walks _ _ _ _) => apply walks_reads : vault_walks.

(** Walks through an operation. *)
Ltac walk :=
  repeat match goal with
  | |- walks _ _ _ (mbind _ _) => apply walks_bind; [|intros ?]
  | |- walks _ _ _ (if ?b then _ else _) => destruct b
  | |- walks _ _ _ (match ?x with _ => _ end) => destruct x
  | |- walks _ _ _ (let '_ := _ in _) => cbv zeta
  end; auto with vault_walks vault_reads.

Section requests_walk.
  Context `{DecimalOrderLaws} `{F : !DecimalFormat}.
  Context (scan_numeric : Z → decimal).
  Context (uuid_String : Z → string).
  Context (harvest_metadata : bool → decimal → string) (protocol_metadata : string → string → string).

Notation walks := (walks scan_numeric uuid_String).

Lemma walks_operator allowed svc v a : walks allowed (operator_deposit svc v a).
Proof. intros s. eapply same_steps, operator_same. Qed.

Lemma RecordDeposit_walks svc input :
  walks (λ o, audited_op o = true) (RecordDeposit scan_numeric uuid_String svc input).
Proof.
  unfold RecordDeposit. walk.
  - apply walks_operator.
  - by eapply walks_repo with (o := OpDepositWithAudit _ _ _ _).
Qed.

Lemma submission_walks allowed svc input v : walks allowed (submission svc input v).
Proof.
  intros s. destruct (submission_outcome svc input v s) as [Hs|(_ & Hs & _)]; by eapply same_steps.
Qed.

Lemma record_withdrawal_walks svc input v sub :
  walks (λ o, audited_op o = true) (record_withdrawal scan_numeric uuid_String svc input v sub).
Proof.
  unfold record_withdrawal. walk; by eapply walks_repo with (o := OpWithdrawalWithAudit _ _ _).
Qed.

Lemma DeleteVault_walks id : walks (λ o, audited_op o = true) (DeleteVault scan_numeric id).
Proof. unfold DeleteVault. walk. by apply walks_unit with (o := OpDelete id). Qed.

Lemma walks_insert_allocations allowed id l t : walks allowed (insert_allocations id l t).
Proof.
  revert t. induction l as [|a l IH]; intros t; cbn; walk.
  apply walks_exec_result. intros n s s' b. by destruct (insert_allocation _ _ _ _ _); intros [= <- _].
Qed.

Lemma walks_normalize allowed id t l total : walks allowed (normalize_allocations id t l total).
Proof.
  revert total. induction l as [|a l IH]; intros total; cbn; walk. unfold normalize_allocation. walk.
Qed.

Lemma walks_commit allowed id n t : walks allowed (commit_allocations id n t).
Proof.
  intros s. split; [|done]. cbn.
  destruct (rows (VaultRepo.db (session s)) !! id) as [r|] eqn:Hr.
  - assert (alter (touch n) id (rows (VaultRepo.db (session s))) =
      <[id := touch n r]> (rows (VaultRepo.db (session s)))) as ->.
    { apply map_eq. intros i. destruct (decide (i = id)) as [->|].
      - by rewrite lookup_alter_eq, Hr, lookup_insert_eq.
      - by rewrite lookup_alter_ne, lookup_insert_ne by done. }
    by apply rtc_once, step_touch.
  - assert (alter (touch n) id (rows (VaultRepo.db (session s))) = rows (VaultRepo.db (session s))) as ->.
    { apply map_eq. intros i. destruct (decide (i = id)) as [->|]; [by rewrite lookup_alter_eq, Hr|].
      by rewrite lookup_alter_ne by done. }
    destruct s as [[[] t0 q0 n0 f0 k0] c0 a0 e0 p0]. apply rtc_refl.
Qed.

Lemma UpdateAllocations_walks allowed id l : walks allowed (UpdateAllocations scan_numeric id l).
Proof.
  unfold UpdateAllocations, ReplaceAllocations. walk.
  - apply walks_normalize.
  - apply walks_insert_allocations.
  - apply walks_commit.
Qed.

Lemma HarvestVault_walks svc input :
  walks (λ o, audited_op o = true) (HarvestVault scan_numeric harvest_metadata svc input).
Proof.
  unfold HarvestVault, harvest_preference, harvest_on_chain. walk.
  all: by eapply walks_repo with (o := OpHarvestWithAudit _ _).
Qed.

Lemma walks_append (allowed : Op → Prop) svc v u actor op a b c ref md :
  (∀ e, allowed (OpAppend e)) → walks allowed (recordBalanceAudit svc v u actor op a b c ref md).
Proof.
  intros Ha. unfold recordBalanceAudit. walk. apply walks_ignoring. by eapply walks_unit with (o := OpAppend _).
Qed.

Lemma RebalancePosition_walks svc input :
  walks (request_ops (ReqRebalance input)) (RebalancePosition scan_numeric uuid_String protocol_metadata svc input).
Proof.
  assert (∀ e, request_ops (ReqRebalance input) (OpAppend e)) as Ha by (left; by eexists).
  unfold RebalancePosition. walk; try by apply walks_append.
  eapply walks_unit with (o := OpRebalance _ _ _); [right; by do 3 eexists|done].
Qed.

Lemma audit_exits_walks (allowed : Op → Prop) svc v l :
  (∀ e, allowed (OpAppend e)) → walks allowed (audit_exits uuid_String protocol_metadata svc v l).
Proof. intros Ha. induction l as [|[p a] l IH]; cbn; walk. by apply walks_append. Qed.

Lemma EmergencyWithdraw_walks svc id :
  walks (request_ops (ReqEmergency id)) (EmergencyWithdraw scan_numeric uuid_String protocol_metadata svc id).
Proof.
  unfold EmergencyWithdraw. walk. apply audit_exits_walks. intros e. by exists e.
Qed.

End requests_walk.

Section life.
  Context `{DecimalOrderLaws} `{F : !DecimalFormat}.
  Context (scan_numeric : Z → decimal).
  Context (scan_numeric_value : ∀ z, (value (scan_numeric z) == col z)%Q).
  Context (uuid_String : Z → string).
  Context (harvest_metadata : bool → decimal → string) (protocol_metadata : string → string → string).

Notation sdb s := (VaultRepo.db (session s)).
Notation walks := (walks scan_numeric uuid_String).
Notation steps allowed := (rtc (VaultBooks.step scan_numeric uuid_String allowed)).
Notation serve := (serve scan_numeric uuid_String harvest_metadata protocol_metadata).

(** *** Changes of a vault's columns *)

Lemma recolumned_steps allowed id f s s' :
  recolumned id f s s' → steps allowed (session s) (session s').
Proof.
  intros (r & c & v & Hl & _ & Hv & -> & _). eapply rtc_l; [by apply (same_step _ _ _ _ v)|].
  destruct Hv as (Hd & _). rewrite <- Hd in *. by apply rtc_once, step_touch, live_vault_rows.
Qed.

Lemma recolumned_same id f s s1 s2 : recolumned id f s s1 → same true s1 s2 → recolumned id f s s2.
Proof.
  intros (r & c & v & Hl & Hc & (V1 & V2 & V3 & V4 & V5) & Hs & Hcs & Ha & He & Hsp)
    ((T1 & T2 & T3 & T4 & T5) & C & A & E).
  destruct (E eq_refl) as [E1 E2]. rewrite Hs in T1, T2, T3, T4, T5. cbn in T1, T2, T3, T4, T5.
  exists r, c, (with_db (session s2) (sdb s)). split_and!; try done; try congruence.
  - split_and!; cbn; congruence || lia.
  - destruct (session s2) as [d t q n fs k]. cbn in *. by subst.
Qed.

(** The vault's columns are replaced, and its status along an edge of the machine. *)
Definition relabelled (id : Z) (s : State) {A} (p : State * result SvcErr A) : Prop :=
  ∃ f, recolumned id f s p.1 ∧ ∀ c, cols s !! id = Some c →
    ColStatus (f c) = ColStatus c ∨ CanTransitionTo (ColStatus c) (ColStatus (f c)) = true.

Lemma relabel id f s0 s :
  same true s0 s →
  (∀ c, cols s0 !! id = Some c →
     ColStatus (f c) = ColStatus c ∨ CanTransitionTo (ColStatus c) (ColStatus (f c)) = true) →
  guarded true s0 (relabelled id s0)
    (((rows ← VaultService.exec (set_cols id f);
       if rows =? 0 then VaultService.throw (Repo ErrVaultNotFound) else mret ()) ;; GetVault scan_numeric id) s).
Proof.
  intros Hs Hf. rewrite bind_run.
  destruct (set_cols_outcome id f s) as [[Hs1 Hok]|[Hr Hok]]; cbv zeta in *;
    destruct ((rows ← VaultService.exec (set_cols id f); _) s) as [s1 [u|e]]; cbn [fst snd] in *; try done.
  - left. split; [by eapply same_trans|done].
  - right. exists f. split; [|done]. eapply recolumned_same; [by eapply recolumned_from|]. apply reads_GetVault.
Qed.

(** [pass] reads the vault, and keeps what it saw. *)
Ltac see_vault :=
  apply guarded_bind; [apply reads_same, reads_GetVault|apply same_refl|];
  let v := fresh "v" in let s1 := fresh "s1" in let E := fresh "E" in
  intros v s1 E Hs1; apply GetVault_view in E as (r & c0 & _ & Hc & _ & _ & _ & Hst & _).

Lemma UpdateVault_life id contract status s :
  guarded true s (relabelled id s) (UpdateVault scan_numeric id contract status s).
Proof.
  unfold UpdateVault. destruct (id =? 0); [apply guarded_throw, same_refl|]. see_vault. cbv zeta.
  apply guarded_bind; [apply reads_same; reads|done|]. intros st s2 E2 Hs2. apply relabel; [done|].
  intros c Hc'. cbn. assert (c = c0) as -> by congruence. rewrite Hst in E2.
  destruct (TrimSpace status =s? ""); [injection E2 as <- <-; by left|].
  destruct (ParseStatus status) as [parsed|]; [|done].
  destruct (bool_decide (parsed = ColStatus c0)) eqn:Eb; cbn in E2.
  - injection E2 as <- <-. left. by apply bool_decide_eq_true in Eb.
  - destruct (CanTransitionTo (ColStatus c0) parsed) eqn:Ec; [|done]. injection E2 as <- <-. by right.
Qed.

Lemma UpdateHarvestFrequency_life id u freq s :
  guarded true s (relabelled id s) (UpdateHarvestFrequency scan_numeric id u freq s).
Proof.
  unfold UpdateHarvestFrequency. destruct (id =? 0); [apply guarded_throw, same_refl|].
  destruct (ParseHarvestFrequency freq); [|apply guarded_throw, same_refl]. see_vault.
  destruct (negb _); [by apply guarded_throw|]. apply relabel; [done|]. by left.
Qed.

Lemma CloseVault_life id force s : guarded true s (relabelled id s) (CloseVault scan_numeric id force s).
Proof.
  unfold CloseVault. destruct (id =? 0); [apply guarded_throw, same_refl|]. see_vault.
  destruct (bool_decide _) eqn:Eb; [by apply guarded_throw|]. destruct (_ && _); [by apply guarded_throw|].
  apply relabel; [done|]. intros c Hc'. cbn. assert (c = c0) as -> by congruence. rewrite Hst in Eb.
  destruct (ColStatus c0); [by right|by right|done].
Qed.

Lemma PauseVault_life id s : guarded true s (relabelled id s) (PauseVault scan_numeric id s).
Proof.
  unfold PauseVault. destruct (id =? 0); [apply guarded_throw, same_refl|]. see_vault.
  destruct (bool_decide _); [by apply guarded_throw|].
  destruct (negb (bool_decide _)) eqn:Eb; [by apply guarded_throw|].
  apply relabel; [done|]. intros c Hc'. cbn. assert (c = c0) as -> by congruence.
  apply negb_false_iff, bool_decide_eq_true in Eb. rewrite <- Hst, Eb. by right.
Qed.

Lemma UnpauseVault_life id s : guarded true s (relabelled id s) (UnpauseVault scan_numeric id s).
Proof.
  unfold UnpauseVault. destruct (id =? 0); [apply guarded_throw, same_refl|]. see_vault.
  destruct (bool_decide _); [by apply guarded_throw|].
  destruct (negb (bool_decide _)) eqn:Eb; [by apply guarded_throw|].
  apply relabel; [done|]. intros c Hc'. cbn. assert (c = c0) as -> by congruence.
  apply negb_false_iff, bool_decide_eq_true in Eb. rewrite <- Hst, Eb. by right.
Qed.

(** *** New vaults *)

(** A vault without money under the identifier drawn for it. *)
Definition vault_created (s : State) {A} (p : State * result SvcErr A) : Prop :=
  ∃ v owner c, same_tables (session s) v ∧ seed (session s) < seed v ∧
    rows (db v) !! seed (session s) = None ∧ seed (session s) ∉ vaults (ledger (db v)) ∧
    session p.1 = with_db v (add_vault (seed (session s)) owner None (clock v) (db v)) ∧
    cols p.1 = <[seed (session s) := c]> (cols s).

Lemma insert_vault_outcome id u c s :
  let p := VaultService.exec (insert_vault id u c) s in
  same true s p.1 ∨
  ∃ v, same_tables (session s) v ∧ rows (db v) !! id = None ∧ id ∉ vaults (ledger (db v)) ∧
    session p.1 = with_db v (add_vault id u None (clock v) (db v)) ∧ cols p.1 = <[id := c]> (cols s).
Proof.
  cbv zeta. unfold VaultService.exec. pose proof (round_trip_same (session s)) as Hr.
  destruct (round_trip (session s)) as [[] v]; cbn [fst snd] in *; [by left; split_and!|].
  assert (same true s (with_session s v)) as Hsame by by split_and!.
  unfold insert_vault. cbn. destruct (_ || _); cbn; [by left|].
  destruct (bool_decide (is_Some (rows (db v) !! id))) eqn:E1; cbn; [by left|].
  destruct (bool_decide (id ∈ vaults (ledger (db v)))) eqn:E2; cbn; [by left|].
  destruct (address_taken id _ _); cbn; [by left|]. destruct (negb _); cbn; [by left|].
  apply bool_decide_eq_false in E1, E2. right. exists v. split_and!; try done. by apply eq_None_not_Some.
Qed.

Lemma CreateVault_outcome input s :
  let p := CreateVault input s in same true s p.1 ∨ vault_created s p.
Proof.
  cbv zeta. unfold CreateVault. cbv zeta.
  destruct (_ || _); [left; apply same_refl|]. rewrite bind_run.
  set (m := (if TrimSpace (CreateStatus input) =s? "" then _ else _) : M VaultStatus).
  assert (fst (m s) = s) as Hst.
  { unfold m. destruct (TrimSpace (CreateStatus input) =s? ""); [done|]. by destruct (ParseStatus _). }
  destruct (m s) as [s1 [status|e]]; cbn [fst] in Hst; subst s1; [|left; apply same_refl].
  rewrite bind_run. unfold VaultService.uuid_New, on_repo, VaultRepo.uuid_New. set (s1 := with_session s _).
  assert (same true s s1) as Hs1 by (split_and!; try done; split_and!; done || (cbn; lia)).
  cbn [fst snd]. rewrite bind_run. unfold Repo_CreateVault. set (c := mkCols _ _ _ _).
  pose proof (insert_vault_outcome (seed (session s)) (CreateUserID input) c s1) as Ho.
  destruct (VaultService.exec _ s1) as [s2 [u|e]]; cbn [fst snd] in *;
    (destruct Ho as [Hs2|(v & Hv & Hn & Hl & Hs2 & Hc)]; [left; by eapply same_trans|right]);
    pose proof Hs1 as (T1 & _); exists v, (CreateUserID input), c;
    (split; [by eapply same_tables_trans|split_and!; try done]); destruct Hv as (_ & _ & _ & Hle & _); cbn in Hle; lia.
Qed.

(** *** Refinement *)

Lemma walks_drop allowed {A} (m : M A) s :
  walks allowed m → steps allowed (session s) (session (fst ((m ;; mret ()) s))).
Proof. intros Hm. by destruct (walks_bind _ _ _ m (λ _, mret ()) Hm (λ _, walks_reads _ _ _ _ (reads_ret ())) s). Qed.

Lemma session_drop {A} (m : M A) s : fst ((m ;; mret ()) s) = fst (m s).
Proof. rewrite bind_run. by destruct (m s) as [s1 [a|e]]. Qed.

Lemma life_steps allowed id s {A} (p : State * result SvcErr A) :
  guarded true s (relabelled id s) p → steps allowed (session s) (session p.1).
Proof.
  intros [[Hs _]|(f & Hf & _)]; [by eapply same_steps|by eapply recolumned_steps].
Qed.

Lemma created_steps allowed s {A} (p : State * result SvcErr A) :
  vault_created s p → steps allowed (session s) (session p.1).
Proof.
  intros (v & owner & c & Hv & _ & Hn & Hl & -> & _).
  eapply rtc_l; [by apply (same_step _ _ _ _ v)|]. by apply rtc_once, step_vault.
Qed.

Lemma withdrawal_steps svc input s :
  steps (λ o, audited_op o = true) (session s)
    (session (fst (RecordWithdrawal scan_numeric uuid_String svc input s))).
Proof.
  destruct (RecordWithdrawal_passes scan_numeric scan_numeric_value uuid_String svc input s) as
    [[Hs _]|[[_ [Hs|Hf]]|(s' & r & c & v & Hs & _ & _ & ->)]].
  - by eapply same_steps.
  - by eapply same_steps.
  - by eapply recolumned_steps.
  - etransitivity; [by eapply same_steps|].
    destruct (walks_bind scan_numeric uuid_String _ _ _ (submission_walks scan_numeric uuid_String _ svc input v)
      (record_withdrawal_walks scan_numeric uuid_String svc input v) s') as [Hw _]. exact Hw.
Qed.

(** The service over time: requests one at a time, and between them new users, the
    clock, identifiers drawn elsewhere and connections about to fail. *)
Inductive served (svc : VaultService) (allowed : Request → Prop) : State → Prop :=
| served_start : served svc allowed (mkState start ∅ [] [] ∅)
| served_request req s : served svc allowed s → allowed req → served svc allowed (fst (serve svc req s))
| served_user u cap s : served svc allowed s → u ≠ 0 →
    served svc allowed (with_session s (with_db (session s) (add_user u cap (sdb s))))
| served_world n fs now s : served svc allowed s → seed (session s) ≤ n →
    served svc allowed (with_session s (mkSession (sdb s) (txn (session s)) (seq_next (session s)) n fs now)).

Lemma request_steps svc req s :
  steps (request_ops req) (session s) (session (fst (serve svc req s))).
Proof.
  destruct req; unfold VaultServiceLife.serve; rewrite ?session_drop; cbn [request_ops].
  - by apply RecordDeposit_walks.
  - apply withdrawal_steps.
  - destruct (CreateVault_outcome input s) as [Hs|Hc]; [by eapply same_steps|by eapply created_steps].
  - eapply life_steps, UpdateVault_life.
  - eapply life_steps, UpdateHarvestFrequency_life.
  - eapply life_steps, CloseVault_life.
  - eapply life_steps, PauseVault_life.
  - eapply life_steps, UnpauseVault_life.
  - by apply DeleteVault_walks.
  - eapply walks_reads. unfold ListDeposits, Repo_ListDeposits. reads.
  - eapply walks_reads. unfold GetMyPosition. reads.
  - by apply UpdateAllocations_walks.
  - by apply HarvestVault_walks.
  - by apply RebalancePosition_walks.
  - by apply EmergencyWithdraw_walks.
Qed.

Lemma reach_steps allowed s s' :
  reach scan_numeric uuid_String allowed s → steps allowed s s' → reach scan_numeric uuid_String allowed s'.
Proof. intros Hr Hs. induction Hs as [|s s1 s' H1 _ IH]; [done|]. by apply IH, (reach_step _ _ _ s). Qed.

Lemma steps_weaken (a b : Op → Prop) s s' : (∀ o, a o → b o) → steps a s s' → steps b s s'.
Proof.
  intros Hab. induction 1 as [|s s1 s' H1 _ IH]; [done|]. eapply rtc_l; [|exact IH].
  destruct H1; [apply step_op; auto|by apply step_vault|by apply step_user|by apply step_touch|by apply step_world].
Qed.

(** C6: The service keeps the books' own rules. Every request, whatever it says and
    whatever fails, takes the session through steps of the books: operations of the
    vault repository, empty new vaults, changes of columns that are not money. The
    operations are those that append to the audit trail what they do, but for
    rebalances and the emergency exit, which append entries of their own. So the
    books of any history of requests are among the reachable ones. *)
Theorem requests_refine_books svc req s :
  steps (request_ops req) (session s) (session (fst (serve svc req s))) ∧
  ∀ (allowed : Request → Prop) (ops : Op → Prop),
    (∀ r o, allowed r → request_ops r o → ops o) →
    ∀ s', served svc allowed s' → reach scan_numeric uuid_String ops (session s').
Proof.
  split; [apply request_steps|]. intros allowed ops Hops s' Hr.
  induction Hr as [|req' s0 _ IH Ha|u cap s0 _ IH Hu|n fs now s0 _ IH Hn].
  - apply reach_start.
  - eapply reach_steps; [exact IH|]. eapply steps_weaken; [|apply request_steps]. eauto.
  - eapply reach_step; [exact IH|]. by apply step_user.
  - eapply reach_step; [exact IH|]. by apply step_world.
Qed.

(** *** Lives of vaults *)

(** Vaults have identifiers that have been drawn. *)
Definition issued (s : State) : Prop := ∀ id, is_Some (cols s !! id) → id < seed (session s).

Lemma step_seed allowed v v' :
  VaultBooks.step scan_numeric uuid_String allowed v v' → sound v → seed v ≤ seed v'.
Proof.
  intros [o s Ho| | | |n fs now s Hle] Hs; cbn; try lia.
  by destruct (run_op_keeps scan_numeric uuid_String o s (sd_idle _ Hs)) as (_ & _ & ? & _).
Qed.

Lemma steps_sound allowed v v' : steps allowed v v' → sound v → sound v' ∧ seed v ≤ seed v'.
Proof.
  induction 1 as [|v v1 v' H1 _ IH]; [done|]. intros Hs. pose proof (step_sound _ _ _ _ _ H1 Hs) as Hs1.
  pose proof (step_seed _ _ _ H1 Hs). destruct (IH Hs1). split; [done|lia].
Qed.

(** What one request may do to the status of a vault. *)
Definition status_step (svc : VaultService) (req : Request) (s : State) (id : Z) (old new : VaultStatus) : Prop :=
  new = old ∨ CanTransitionTo old new = true ∨
  (new = StatusPaused ∧ snd (serve svc req s) = Err ErrVaultPausedByBreaker ∧
   ∃ input, req = ReqWithdrawal input ∧ WdVaultID input = id).

(** The columns after a request: the same, one vault's along the machine, or a new
    vault's besides. *)
Definition columns_after (svc : VaultService) (req : Request) (s s' : State) : Prop :=
  cols s' = cols s ∨
  (∃ id c c', cols s !! id = Some c ∧ cols s' = <[id := c']> (cols s) ∧
     status_step svc req s id (ColStatus c) (ColStatus c')) ∨
  (∃ c, cols s' = <[seed (session s) := c]> (cols s) ∧ seed (session s) < seed (session s')).

Lemma life_columns svc req id s {A} (p : State * result SvcErr A) :
  guarded true s (relabelled id s) p → columns_after svc req s p.1.
Proof.
  intros [[(_ & Hc & _) _]|(f & (r & c & v & _ & Hc & _ & _ & Hcs & _) & Hf)]; [by left|].
  right; left. exists id, c, (f c). split; [done|]. split; [done|].
  destruct (Hf c Hc); [by left|by right; left].
Qed.

Lemma walks_columns svc req s {A} allowed (m : M A) :
  walks allowed m → columns_after svc req s (fst (m s)).
Proof. intros Hm. left. apply Hm. Qed.

Lemma withdrawal_columns svc input s :
  columns_after svc (ReqWithdrawal input) s (fst (RecordWithdrawal scan_numeric uuid_String svc input s)).
Proof.
  destruct (RecordWithdrawal_passes scan_numeric scan_numeric_value uuid_String svc input s) as
    [[(_ & Hc & _) _]|[[Hp [(_ & Hc & _)|(r & c & v & _ & Hc & _ & _ & Hcs & _)]]|(s' & r & c & v & (_ & Hc & _) & _ & _ & ->)]].
  - by left.
  - by left.
  - right; left. exists (WdVaultID input), c. eexists. split; [done|]. split; [exact Hcs|]. right; right.
    split; [done|]. split; [|by exists input]. unfold VaultServiceLife.serve. rewrite bind_run.
    destruct (RecordWithdrawal _ _ _ _ s) as [s1 [x|e]]; cbn in Hp |- *; [done|congruence].
  - left. destruct (walks_bind scan_numeric uuid_String _ _ _ (submission_walks scan_numeric uuid_String _ svc input v)
      (record_withdrawal_walks scan_numeric uuid_String svc input v) s') as [_ Hw].
    etransitivity; [exact Hw|done].
Qed.

Lemma request_columns svc req s : columns_after svc req s (fst (serve svc req s)).
Proof.
  destruct req; unfold VaultServiceLife.serve; rewrite ?session_drop.
  - eapply walks_columns, RecordDeposit_walks.
  - apply withdrawal_columns.
  - destruct (CreateVault_outcome input s) as [(_ & Hc & _)|(v & o & c & _ & Hn & _ & _ & Hs & Hc)]; [by left|].
    right; right. exists c. split; [done|]. rewrite Hs. cbn. lia.
  - eapply life_columns, UpdateVault_life.
  - eapply life_columns, UpdateHarvestFrequency_life.
  - eapply life_columns, CloseVault_life.
  - eapply life_columns, PauseVault_life.
  - eapply life_columns, UnpauseVault_life.
  - eapply walks_columns, DeleteVault_walks.
  - eapply (walks_columns _ _ _ any_op), walks_reads. unfold ListDeposits, Repo_ListDeposits. reads.
  - eapply (walks_columns _ _ _ any_op), walks_reads. unfold GetMyPosition. reads.
  - eapply (walks_columns _ _ _ any_op), UpdateAllocations_walks.
  - eapply walks_columns, HarvestVault_walks.
  - eapply walks_columns, RebalancePosition_walks.
  - eapply walks_columns, EmergencyWithdraw_walks.
Qed.

Lemma request_issued svc req s : sound (session s) → issued s → issued (fst (serve svc req s)).
Proof.
  intros Hs Hi id Hid. destruct (steps_sound _ _ _ (request_steps svc req s) Hs) as [_ Hle].
  destruct (request_columns svc req s) as [Hc|[(i & c & c' & Hl & Hc & _)|(c & Hc & Hlt)]]; rewrite Hc in Hid.
  - specialize (Hi id Hid). lia.
  - assert (is_Some (cols s !! id)) as Hid'; [|specialize (Hi id Hid'); lia].
    destruct (decide (id = i)) as [->|]; [by eexists|]. by rewrite lookup_insert_ne in Hid.
  - destruct (decide (id = seed (session s))) as [->|]; [done|].
    rewrite lookup_insert_ne in Hid by done. specialize (Hi id Hid). lia.
Qed.

Lemma served_sound svc s : served svc (λ _, True) s → sound (session s) ∧ issued s.
Proof.
  induction 1 as [|req s Hr [Hs Hi] _|u cap s Hr [Hs Hi] Hu|n fs now s Hr [Hs Hi] Hn].
  - split; [apply start_sound|]. intros id [? Hx]. cbn in Hx. by rewrite lookup_empty in Hx.
  - split; [by eapply steps_sound; [apply request_steps|]|by apply request_issued].
  - split; [|done]. by apply (step_sound scan_numeric uuid_String any_op (session s)); [apply step_user|].
  - split; [|intros id Hid; cbn; specialize (Hi id Hid); lia].
    by apply (step_sound scan_numeric uuid_String any_op (session s)); [apply step_world|].
Qed.

(** C7: Vaults live by their status machine. In every history of requests, a
    vault keeps its columns for ever, and a request leaves its status as it was or
    moves it along an edge of the machine, with one exception: a withdrawal refused
    by the outflow breaker pauses its vault from any status. The books stay sound. *)
Theorem lives_follow_status_machine svc req s :
  served svc (λ _, True) s →
  let s' := fst (serve svc req s) in
  sound (session s') ∧
  ∀ id c, cols s !! id = Some c → ∃ c', cols s' !! id = Some c' ∧
    status_step svc req s id (ColStatus c) (ColStatus c').
Proof.
  intros Hr. cbv zeta.
  destruct (served_sound _ _ Hr) as [Hs Hi].
  split; [by eapply steps_sound; [apply request_steps|]|].
  intros id c Hc. destruct (request_columns svc req s) as [->|[(i & c1 & c' & Hl & -> & Hst)|(c1 & -> & _)]].
  - exists c. split; [done|by left].
  - destruct (decide (id = i)) as [->|]; [|rewrite lookup_insert_ne by done; exists c; split; [done|by left]].
    rewrite lookup_insert_eq. exists c'. split; [done|]. by assert (c = c1) as -> by congruence.
  - assert (id < seed (session s)) by by apply Hi. rewrite lookup_insert_ne by lia.
    exists c. split; [done|by left].
Qed.

End life.

(** *** Concrete runs *)

#[local] Existing Instances QDecimal QDecimal_laws QDecimalOrder QDecimalOrder_laws QDecimalFormat.

Definition no_harvest_metadata (compound : bool) (fee : decimal) : string := "{}".
Definition no_protocol_metadata (p to : string) : string := "{}".
Abbreviation serve_demo := (serve scan_Q id_text no_harvest_metadata no_protocol_metadata demo_service).

(** User 9 opens vault 1. *)
Definition demo_user : State :=
  with_session (mkState start ∅ [] [] ∅) (with_db start (add_user 9 None empty_db)).
Definition demo_create : Request := ReqCreate (mkCreateInput 9 " C1" "usdc" "").
Definition demo_vaults : State := fst (serve_demo demo_create demo_user).

Lemma demo_vaults_served (allowed : Request → Prop) :
  allowed demo_create →
  served scan_Q id_text no_harvest_metadata no_protocol_metadata demo_service allowed demo_vaults.
Proof. intros Ha. apply served_request; [|done]. apply served_user; [constructor|done]. Qed.

Lemma requests_refine_books_witness :
  reach scan_Q id_text audited_ops (session demo_vaults) ∧
  rtc (VaultBooks.step scan_Q id_text audited_ops) (session demo_vaults)
    (session (fst (serve_demo (ReqPause 1) demo_vaults))).
Proof.
  destruct (requests_refine_books scan_Q scan_Q_value id_text no_harvest_metadata no_protocol_metadata
    demo_service (ReqPause 1) demo_vaults) as [Hsteps Hreach].
  split; [|exact Hsteps]. apply (Hreach (λ r, r = demo_create)).
  - intros r o -> Ho. exact Ho.
  - by apply demo_vaults_served.
Defined.

Lemma lives_follow_status_machine_witness :
  cols demo_vaults !! 1 = Some (mkCols "C1" "USDC" StatusActive "daily") ∧
  ∃ c', cols (fst (serve_demo (ReqPause 1) demo_vaults)) !! 1 = Some c' ∧
    status_step scan_Q id_text no_harvest_metadata no_protocol_metadata demo_service (ReqPause 1) demo_vaults 1
      StatusActive (ColStatus c').
Proof.
  assert (cols demo_vaults !! 1 = Some (mkCols "C1" "USDC" StatusActive "daily")) as Hc by (vm_compute; reflexivity).
  split; [exact Hc|].
  destruct (lives_follow_status_machine scan_Q scan_Q_value id_text no_harvest_metadata no_protocol_metadata
    demo_service (ReqPause 1) demo_vaults (demo_vaults_served _ I)) as [_ Hl].
  exact (Hl 1 _ Hc).
Defined.

(** Vault 7 with 5 in it, its status and its allocations chosen. *)
Definition with_status (st : VaultStatus) : State :=
  mkState s_deposit {[7 := mkCols "C1" "USDC" st "daily"]} [mkAllocRow 1 7 "blend" 200000000 0 "active" 0] [] ∅.
Definition status_of (s : State) : option VaultStatus := ColStatus <$> cols s !! 7.
Definition balance_of (s : State) : option Z := CurrentBalance <$> rows (VaultRepo.db (session s)) !! 7.
Definition failed_with {A} (e : SvcErr) (p : State * result SvcErr A) : bool :=
  match p.2, e with
  | Err ErrTxHashRequired, ErrTxHashRequired | Err ErrVaultPausedByBreaker, ErrVaultPausedByBreaker
  | Err Panic, Panic => true
  | _, _ => false
  end.

(** The breaker pauses even a closed vault, which the machine says is terminal,
    and then it can be opened again. *)
Lemma breaker_reopens_closed :
  let p := serve_demo (ReqWithdrawal (demo_withdrawal (dec 4))) (with_status StatusClosed) in
  CanTransitionTo StatusClosed StatusPaused = false ∧ failed_with ErrVaultPausedByBreaker p = true ∧
  status_of p.1 = Some StatusPaused ∧ status_of (fst (serve_demo (ReqUnpause 7) p.1)) = Some StatusActive.
Proof. cbv zeta. split_and!; vm_compute; reflexivity. Qed.

(** A paused vault, the breaker's too, takes deposits and pays withdrawals. *)
Lemma paused_vault_moves_money :
  let s := with_status StatusPaused in
  balance_of s = Some 500000000 ∧
  balance_of (fst (serve_demo (ReqWithdrawal (demo_withdrawal (dec 1))) s)) = Some 400000000.
Proof. cbv zeta. split; vm_compute; reflexivity. Qed.

(** [UnpauseVault] decides on what it has read: its write reopens a vault that was
    closed in between. *)
Lemma stale_unpause_reopens :
  let s := with_status StatusPaused in
  let closed := fst (serve_demo (ReqClose 7 true) s) in
  status_of closed = Some StatusClosed ∧
  status_of (fst (Repo_UpdateVault 7 "C1" StatusActive closed)) = Some StatusActive.
Proof. cbv zeta. split; vm_compute; reflexivity. Qed.

(** After a full withdrawal the share price is zero, and the next deposit divides
    by it, when the chain has already taken the money. *)
Definition emptied : State :=
  mkState (fst (run_op scan_Q id_text
    (OpWithdrawalWithAudit 7 (demo_record (dec 5) "w5") demo_template) s_deposit)) demo_cols [] [] ∅.
Definition second_deposit (hash contract kind : string) : result string VerifiedVaultEvent :=
  Ok (mkVerifiedEvent (dec 5) "").
Definition second_service : VaultService :=
  mkVaultService None None None None None None None (Some second_deposit) None true None false true.

Lemma deposit_after_full_withdrawal_panics :
  let p := RecordDeposit scan_Q id_text second_service (mkDepositInput 7 9 (dec 5) "h2" (dec 0) "") emptied in
  balance_of emptied = Some 0 ∧ failed_with Panic p = true ∧ balance_of p.1 = Some 0.
Proof. cbv zeta. split_and!; vm_compute; reflexivity. Qed.

(** A deposit without a hash that the operator funds is paid on chain and then
    refused for lack of a hash: nobody is credited. *)
Definition operator_service : VaultService :=
  mkVaultService None None None None None (Some demo_invoker)
    (Some (NewOperatorFundedDepositPolicy true [7] (dec 10))) (Some demo_verify) None true None false true.
Definition is_chain_deposit (e : VaultService.Effect) : bool :=
  match e with ChainDeposit c n => (c =s? "C1") && (n =? 50000000) | _ => false end.

Lemma operator_deposit_uncredited :
  let p := RecordDeposit scan_Q id_text operator_service (mkDepositInput 7 9 (dec 5) "" (dec 0) "") demo_open in
  failed_with ErrTxHashRequired p = true ∧ map is_chain_deposit (VaultService.effects p.1) = [true] ∧
  balance_of p.1 = Some 0.
Proof. cbv zeta. split_and!; vm_compute; reflexivity. Qed.

(** The emergency exit appends entries that lower the balance and leaves the
    balance as it is: the trail no longer reconciles from the next entry on. *)
Lemma emergency_exit_breaks_trail :
  let s := fst (serve_demo (ReqEmergency 7) (with_status StatusActive)) in
  let s' := fst (serve_demo (ReqWithdrawal (demo_withdrawal (dec 1))) s) in
  balance_of s = Some 500000000 ∧ balance_of s' = Some 400000000 ∧
  bool_decide (Reconcile (map (scan_audit scan_Q) (entries_of 7 (VaultRepo.db (session s')))) = None) = true.
Proof. cbv zeta. split_and!; vm_compute; reflexivity. Qed.

(** A balance above the deposits counts as harvestable yield, and compounding it
    adds to both sides: the same yield is harvested again and again. *)
Definition above_deposits : State :=
  mkState (fst (run_op scan_Q id_text (OpSetBalances 7 (dec 5) (dec 6)) s_deposit)) demo_cols [] [] ∅.
Definition harvest_request : HarvestVaultInput := mkHarvestInput 7 9 "G9" (Some true).
Definition harvest_service : VaultService :=
  mkVaultService None None None None None None None None None true None false true.
Definition harvest_again (s : State) : State :=
  fst (HarvestVault scan_Q no_harvest_metadata harvest_service harvest_request s).

Lemma compounded_yield_repeats :
  balance_of above_deposits = Some 600000000 ∧
  balance_of (harvest_again above_deposits) = Some 690000000 ∧
  balance_of (harvest_again (harvest_again above_deposits)) = Some 780000000.
Proof. split_and!; vm_compute; reflexivity. Qed.

End VaultServiceLife.
