(* ===== verification/VaultViews.v ===== *)
(** What the vault service answers without changing anything: harvest and
    movement previews, share prices behind their cache, conversions
    (src/apps/api/internal/service/vault_service.go). *)
From S2P Require Import Prelude Decimals Ledger MoneyPath VaultRepo VaultBooks VaultDomain VaultService VaultServiceBooks.
Open Scope Z_scope.

Module VaultViews.
Import Decimals Ledger VaultDomain VaultService VaultServiceBooks.

Section views.
  Context `{DecimalOrderLaws} `{F : !DecimalFormat}.
  Context (scan_numeric : Z → decimal) (uuid_String : Z → string).
  (** The quotient rounded to a number of places. *)
  Context (DivRound : decimal → decimal → Z → decimal).

(** [VaultService.GetVault]. *)
Definition Svc_GetVault (id : Z) : M Vault :=
  if id =? 0 then throw (Repo VaultRepo.ErrInvalidVault) else GetVault scan_numeric id.

(** *** Harvest previews *)

Record HarvestPreview := mkHarvestPreview {
  PvVaultID : string;
  PvGrossYieldUSDC : string;
  PvPerformanceFeeUSDC : string;
  PvNetYieldUSDC : string;
  PvCompounded : bool;
  EstimatedNewShares : string;
  PerformanceFeeBPS : Z;
  Impaired : bool;
}.

Record PreviewHarvestInput := mkPreviewHarvestInput {
  PhVaultID : Z;
  PhUserID : Z;
  PhCompound : bool;
}.

Definition PreviewHarvest (input : PreviewHarvestInput) : M HarvestPreview :=
  if (PhVaultID input =? 0) || (PhUserID input =? 0) then throw (Repo VaultRepo.ErrInvalidVault)
  else
    existing ← GetVault scan_numeric (PhVaultID input);
    if negb (VaultUserID existing =? PhUserID input) then throw ErrVaultForbidden
    else
      let grossYield := harvestableYield existing in
      if Cmp grossYield Zero <=? 0
      then mret (mkHarvestPreview (uuid_String (VaultID existing)) (formatUSDCAmount Zero)
                   (formatUSDCAmount Zero) (formatUSDCAmount Zero) false "" defaultHarvestPerformanceFeeBPS
                   (LessThan (CurrentBalance existing) (TotalDeposited existing)))
      else
        let fee := performance_fee grossYield in
        let netYield := Sub grossYield fee in
        mret (mkHarvestPreview (uuid_String (VaultID existing)) (formatUSDCAmount grossYield)
                (formatUSDCAmount fee) (formatUSDCAmount netYield) (PhCompound input)
                (if PhCompound input then formatUSDCAmount (estimateSharesMinted existing netYield) else "")
                defaultHarvestPerformanceFeeBPS false).

(** *** Share prices *)

Record SharePriceResponse := mkSharePrice {
  SpVaultID : string;
  SharesPerUSDC : string;
  USDCPerShare : string;
  TotalShares : string;
  TotalAssetsUSDC : string;
  AsOfLedger : Z;
}.

Abbreviation sharePriceCache := (gmap Z (SharePriceResponse * Time)).
Definition sharePriceTTL : Duration := 30 * Second.

Definition cache_get (id : Z) (now : Time) (c : sharePriceCache) : option SharePriceResponse :=
  match c !! id with
  | None => None
  | Some (data, timestamp) => if sharePriceTTL <? time_sub now timestamp then None else Some data
  end.
Definition cache_set (id : Z) (data : SharePriceResponse) (now : Time) (c : sharePriceCache)
  : sharePriceCache := <[id := (data, now)]> c.
Definition cache_invalidate (id : Z) (c : sharePriceCache) : sharePriceCache := delete id c.

(** The answer for a vault as it is. *)
Definition price_response (v : Vault) : SharePriceResponse :=
  let usdcPerShare := ComputeSharePrice v in
  let sharesPerUSDC := if IsZero usdcPerShare then NewFromInt 1 else Div (NewFromInt 1) usdcPerShare in
  let totalShares := if negb (IsZero usdcPerShare) && negb (dec_Equal usdcPerShare (NewFromInt 1))
                     then Div (CurrentBalance v) usdcPerShare else TotalDeposited v in
  let fixed x := StringFixed (Round x 6) 6 in
  mkSharePrice (uuid_String (VaultID v)) (fixed sharesPerUSDC) (fixed usdcPerShare) (fixed totalShares)
    (fixed (CurrentBalance v)) 0.

(** The service's methods that use the cache: it keeps what they store whatever
    comes of them. *)
Definition V (A : Type) : Type :=
  sharePriceCache * State → (sharePriceCache * State) * result SvcErr A.

#[global] Instance V_ret : MRet V := λ A a s, (s, Ok a).
#[global] Instance V_bind : MBind V := λ A B k m s,
  match m s with
  | (s1, Ok a) => k a s1
  | (s1, Err e) => (s1, Err e)
  end.
Definition uncached {A} (m : M A) : V A := λ s, let '(s1, r) := m s.2 in ((s.1, s1), r).
Definition cached : V sharePriceCache := λ s, (s, Ok s.1).
Definition store (f : sharePriceCache → sharePriceCache) : V unit := λ s, ((f s.1, s.2), Ok ()).

Definition GetSharePrice (id : Z) : V SharePriceResponse :=
  c ← cached;
  t ← uncached now;
  match cache_get id t c with
  | Some data => mret data
  | None =>
      v ← uncached (GetVault scan_numeric id);
      t' ← uncached now;
      store (cache_set id (price_response v) t') ;;
      mret (price_response v)
  end.

Definition InvalidateSharePriceCache (id : Z) : V unit := store (cache_invalidate id).

Record ConvertRequest := mkConvertRequest { ReqShares : string; ReqUSDC : string }.
Record ConvertResponse := mkConvertResponse { RespShares : string; RespUSDC : string }.

(** The text of a parsing error is the library's. *)
Definition parse (s : string) : V decimal :=
  uncached (match NewFromString s with Some d => mret d | None => throw (Other "can't convert to decimal") end).

Definition Convert (id : Z) (req : ConvertRequest) : V ConvertResponse :=
  sharePrice ← GetSharePrice id;
  usdcPerShare ← parse (USDCPerShare sharePrice);
  let fixed x := StringFixed (Round x 6) 6 in
  if negb (ReqShares req =s? "") && negb (ReqUSDC req =s? "")
  then uncached (throw (Other "must provide either shares or usdc, not both"))
  else if (ReqShares req =s? "") && (ReqUSDC req =s? "")
  then uncached (throw (Other "must provide either shares or usdc"))
  else if negb (ReqShares req =s? "") then
    shares ← parse (ReqShares req);
    mret (mkConvertResponse (fixed shares) (fixed (Mul shares usdcPerShare)))
  else
    usdc ← parse (ReqUSDC req);
    shares ← uncached (quo usdc usdcPerShare);
    mret (mkConvertResponse (fixed shares) (fixed usdc)).

(** *** Movement previews *)

Record PreviewDepositOutput := mkPreviewDeposit {
  PdGrossAmount : decimal;
  PdManagementFee : decimal;
  PdNetAmount : decimal;
  SharesReceived : decimal;
  PdCurrentPricePerShare : decimal;
}.

Record PreviewWithdrawOutput := mkPreviewWithdraw {
  PwGrossAmount : decimal;
  PwManagementFee : decimal;
  PwNetAmount : decimal;
  PwCurrentPricePerShare : decimal;
}.

Definition PreviewDeposit (svc : VaultService) (id : Z) (amount : decimal) : M PreviewDepositOutput :=
  if id =? 0 then throw (Repo VaultRepo.ErrInvalidVault)
  else if Cmp amount Zero <=? 0 then throw (Repo VaultRepo.ErrInvalidAmount)
  else
    existing ← GetVault scan_numeric id;
    shares ← (match depositInvoker svc with
              | None => mret amount
              | Some inv =>
                  match preview_deposit inv (ContractAddress existing) (VaultRepo.decimalToStroops amount) with
                  | Err msg => throw (OnChain msg)
                  | Ok sharesStroops => mret (Div (NewFromInt sharesStroops) stroopsPerUnit)
                  end
              end);
    let price := if GreaterThan shares Zero then DivRound amount shares 6 else Zero in
    mret (mkPreviewDeposit amount Zero amount shares price).

(** Half a percent. *)
Definition estimated_fee (grossAmount : decimal) : decimal :=
  Round (Mul grossAmount (Div (NewFromInt 5) (NewFromInt 1000))) 6.

Definition PreviewWithdraw (svc : VaultService) (id : Z) (shares : decimal) : M PreviewWithdrawOutput :=
  if id =? 0 then throw (Repo VaultRepo.ErrInvalidVault)
  else if Cmp shares Zero <=? 0 then throw (Repo VaultRepo.ErrInvalidAmount)
  else
    existing ← GetVault scan_numeric id;
    grossAmount ← (match depositInvoker svc with
                   | None => mret shares
                   | Some inv =>
                       match preview_withdraw inv (ContractAddress existing) (VaultRepo.decimalToStroops shares) with
                       | Err msg => throw (OnChain msg)
                       | Ok amountStroops => mret (Div (NewFromInt amountStroops) stroopsPerUnit)
                       end
                   end);
    let estimatedFee := estimated_fee grossAmount in
    let price := if GreaterThan shares Zero then DivRound grossAmount shares 6 else Zero in
    mret (mkPreviewWithdraw grossAmount estimatedFee (Sub grossAmount estimatedFee) price).

(** *** Previews are honest *)

(** The figures of a harvest of vault [v]. *)
Definition harvest_figures (v : Vault) (compound : bool) (gross fee net minted : string) : Prop :=
  let y := harvestableYield v in
  let none := Cmp y Zero <=? 0 in
  gross = formatUSDCAmount (if none then Zero else y) ∧
  fee = formatUSDCAmount (if none then Zero else performance_fee y) ∧
  net = formatUSDCAmount (if none then Zero else Sub y (performance_fee y)) ∧
  minted = if negb none && compound then formatUSDCAmount (estimateSharesMinted v (Sub y (performance_fee y)))
           else ""%string.

Lemma PreviewHarvest_figures input s s' p :
  PreviewHarvest input s = (s', Ok p) →
  ∃ s1 v, GetVault scan_numeric (PhVaultID input) s = (s1, Ok v) ∧
    harvest_figures v (PhCompound input) (PvGrossYieldUSDC p) (PvPerformanceFeeUSDC p) (PvNetYieldUSDC p)
      (EstimatedNewShares p).
Proof.
  unfold PreviewHarvest. destruct (_ || _); [done|]. rewrite bind_run.
  destruct (GetVault _ _ s) as [s1 [v|e]]; [|done]. destruct (negb _); [done|].
  destruct (Cmp (harvestableYield v) Zero <=? 0) eqn:Ey; intros [= <- <-]; exists s1, v; (split; [done|]);
    unfold harvest_figures; cbv zeta; rewrite Ey; by split_and!.
Qed.

(** Strips a step that must have succeeded. *)
Ltac strip H :=
  rewrite bind_run in H;
  match type of H with (match ?x with _ => _ end) = _ => destruct x as [? [?|?]] eqn:?; [|discriminate H] end.

Context (harvest_metadata : bool → decimal → string).

Lemma HarvestVault_figures svc input s s' h :
  HarvestVault scan_numeric harvest_metadata svc input s = (s', Ok h) →
  ∃ s1 v, GetVault scan_numeric (HvVaultID input) s = (s1, Ok v) ∧
    harvest_figures v (HvCompounded h) (GrossYieldUSDC h) (PerformanceFeeUSDC h) (NetYieldUSDC h)
      (HvNewSharesMinted h).
Proof.
  unfold HarvestVault. cbv zeta. destruct (_ || _); [done|]. intros Hh. strip Hh.
  do 3 match type of Hh with (if ?b then _ else _) _ = _ => destruct b; [discriminate Hh|] end. strip Hh. eexists _, _. split; [done|]. unfold harvest_figures. cbv zeta.
  destruct (Cmp (harvestableYield _) Zero <=? 0); [by injection Hh as <- <-; split_and!|].
  do 4 strip Hh. injection Hh as <- <-. cbn. split_and!; try done. by destruct (_.1).
Qed.

(** A harvest preview tells the truth. Asked of the same state, the preview
    announces exactly the yield, the fee and the net that a harvest then reports,
    and the same new shares when the harvest compounds as the preview assumed. *)
Lemma preview_harvest_is_honest svc pinput input s s1 s2 p h :
  PhVaultID pinput = HvVaultID input →
  PreviewHarvest pinput s = (s1, Ok p) →
  HarvestVault scan_numeric harvest_metadata svc input s = (s2, Ok h) →
  PvGrossYieldUSDC p = GrossYieldUSDC h ∧ PvPerformanceFeeUSDC p = PerformanceFeeUSDC h ∧
  PvNetYieldUSDC p = NetYieldUSDC h ∧
  (HvCompounded h = PhCompound pinput → EstimatedNewShares p = HvNewSharesMinted h).
Proof.
  intros Hid (t1 & v & Hv & P1 & P2 & P3 & P4)%PreviewHarvest_figures (t2 & w & Hw & H1 & H2 & H3 & H4)%HarvestVault_figures.
  rewrite Hid, Hw in Hv. injection Hv as <- <-. split_and!; [congruence..|]. intros Hc. by rewrite P4, H4, Hc.
Qed.

(** *** Served prices are recent *)

(** The cache after calls at the states [h], newest first. *)
Inductive price_history : list State → sharePriceCache → Prop :=
| history_start : price_history [] ∅
| history_price id s h c : price_history h c → price_history (s :: h) (fst (GetSharePrice id (c, s))).1
| history_convert id req s h c : price_history h c → price_history (s :: h) (fst (Convert id req (c, s))).1
| history_invalidate id s h c :
    price_history h c → price_history (s :: h) (fst (InvalidateSharePriceCache id (c, s))).1.

Lemma V_bind_run {A B} (m : V A) (k : A → V B) s :
  (m ≫= k) s = match m s with (s1, Ok a) => k a s1 | (s1, Err e) => (s1, Err e) end.
Proof. reflexivity. Qed.

(** Operations that leave the cache alone. *)
Definition leaves {A} (m : V A) : Prop := ∀ p, (fst (m p)).1 = p.1.

Lemma leaves_uncached {A} (m : M A) : leaves (uncached m).
Proof. intros p. unfold uncached. by destruct (m p.2). Qed.

Lemma leaves_bind {A B} (m : V A) (k : A → V B) : leaves m → (∀ a, leaves (k a)) → leaves (m ≫= k).
Proof.
  intros Hm Hk p. rewrite V_bind_run. specialize (Hm p). destruct (m p) as [p1 [a|e]]; [|done].
  etransitivity; [apply Hk|done].
Qed.

Lemma leaves_ret {A} (a : A) : leaves (mret a).
Proof. by intros p. Qed.

Lemma Convert_cache id req p : (fst (Convert id req p)).1 = (fst (GetSharePrice id p)).1.
Proof.
  unfold Convert. rewrite V_bind_run. destruct (GetSharePrice id p) as [p1 [r|e]]; [|done]. cbn [fst].
  assert (∀ s, leaves (parse s)) as Hp by (intros s; apply leaves_uncached).
  apply (leaves_bind (parse (USDCPerShare r))); [done|]. intros price. cbv zeta.
  destruct (_ && _); [apply leaves_uncached|]. destruct (_ && _); [apply leaves_uncached|].
  destruct (negb _); (apply leaves_bind; [apply Hp|intros ?]); [apply leaves_ret|].
  apply leaves_bind; [apply leaves_uncached|intros ?; apply leaves_ret].
Qed.

(** An entry was computed at one of the calls, at the time it carries. *)
Definition computed_at (id : Z) (r : SharePriceResponse) (t : Time) (h : list State) : Prop :=
  ∃ s0 s1 v, s0 ∈ h ∧ GetVault scan_numeric id s0 = (s1, Ok v) ∧ r = price_response v ∧
    t = VaultRepo.clock (session s0).

Lemma computed_more id r t s h : computed_at id r t h → computed_at id r t (s :: h).
Proof. intros (s0 & s1 & v & Hin & Hrest). exists s0, s1, v. split; [by right|done]. Qed.

Lemma GetSharePrice_run id c s :
  GetSharePrice id (c, s) =
    match cache_get id (VaultRepo.clock (session s)) c with
    | Some data => ((c, s), Ok data)
    | None =>
        match GetVault scan_numeric id s with
        | (s1, Ok v) => ((cache_set id (price_response v) (VaultRepo.clock (session s1)) c, s1), Ok (price_response v))
        | (s1, Err e) => ((c, s1), Err e)
        end
    end.
Proof.
  unfold GetSharePrice, mbind, V_bind, cached, uncached, now, store. cbn.
  destruct (cache_get id _ c); [done|]. cbn. by destruct (GetVault scan_numeric id s) as [s1 [v|e]].
Qed.

(** What [GetSharePrice] answers, and the entries it leaves. *)
Lemma GetSharePrice_outcome id c s h :
  (∀ i r t, c !! i = Some (r, t) → computed_at i r t h) →
  let p := GetSharePrice id (c, s) in
  (∀ i r t, p.1.1 !! i = Some (r, t) → computed_at i r t (s :: h)) ∧
  ∀ r, p.2 = Ok r → ∃ t, computed_at id r t (s :: h) ∧ VaultRepo.clock (session s) - t <= sharePriceTTL.
Proof.
  intros Hc. cbv zeta. rewrite GetSharePrice_run. unfold cache_get. destruct (c !! id) as [[r0 t0]|] eqn:E.
  1: destruct (sharePriceTTL <? time_sub (VaultRepo.clock (session s)) t0) eqn:Ettl; reflect_bools.
  2:{ cbn. split; [intros i r t Hi; by apply computed_more, Hc|].
      intros r [= <-]. exists t0. split; [by apply computed_more, Hc|].
      unfold time_sub, sharePriceTTL, Second, Millisecond, min_i64, max_i64 in *. lia. }
  all: pose proof (reads_GetVault scan_numeric id s) as ((_ & _ & _ & _ & Hclk) & _);
    destruct (GetVault scan_numeric id s) as [s1 [v|e]] eqn:Ev; cbn in *;
    [|split; [intros i r t Hi; by apply computed_more, Hc|done]].
  all: assert (computed_at id (price_response v) (VaultRepo.clock (session s1)) (s :: h)) as Hnew
    by (exists s, s1, v; split; [by left|]; split_and!; done).
  all: split; [intros i r t; unfold cache_set; cbn [fst snd]; destruct (decide (i = id)) as [->|];
    [rewrite lookup_insert_eq; by intros [= <- <-]|rewrite lookup_insert_ne by done; intros Hi; by apply computed_more, Hc]|].
  all: intros r [= <-]; exists (VaultRepo.clock (session s1)); split; [done|];
    unfold sharePriceTTL, Second, Millisecond in *; lia.
Qed.

(** A share price is never older than the cache's lifetime. Whatever calls went
    before, at whatever times, the price served for a vault is the one its row gave
    at one of the calls, at most thirty seconds earlier. *)
Lemma served_price_is_recent id h c s p r :
  price_history h c → GetSharePrice id (c, s) = (p, Ok r) →
  ∃ s0 s1 v, s0 ∈ s :: h ∧ GetVault scan_numeric id s0 = (s1, Ok v) ∧ r = price_response v ∧
    VaultRepo.clock (session s) - VaultRepo.clock (session s0) <= 30 * Second.
Proof.
  intros Hh Hp.
  assert (∀ i r t, c !! i = Some (r, t) → computed_at i r t h) as Hc.
  { clear Hp. induction Hh as [|i s0 h c _ IH|i req s0 h c _ IH|i s0 h c _ IH].
    - intros i x t. by rewrite lookup_empty.
    - apply (GetSharePrice_outcome i c s0 h IH).
    - rewrite Convert_cache. apply (GetSharePrice_outcome i c s0 h IH).
    - cbn. unfold cache_invalidate. intros j x t [_ Hj]%lookup_delete_Some. by apply computed_more, IH. }
  destruct (GetSharePrice_outcome id c s h Hc) as [_ Hr]. rewrite Hp in Hr.
  destruct (Hr r eq_refl) as (t & (s0 & s1 & v & Hin & Hv & -> & ->) & Hle). by exists s0, s1, v.
Qed.

(** A price that rounds to zero, as an emptied vault's, cannot be divided by: asking
    how many shares an amount is worth panics. *)
Lemma Convert_zero_price_panics id req p p1 r price usdc :
  GetSharePrice id p = (p1, Ok r) → NewFromString (USDCPerShare r) = Some price → IsZero price = true →
  ReqShares req = ""%string → ReqUSDC req ≠ ""%string → NewFromString (ReqUSDC req) = Some usdc →
  snd (Convert id req p) = Err Panic.
Proof.
  intros Hp Hr Hz Hs Hu Hq. unfold Convert. rewrite V_bind_run, Hp. cbv zeta.
  unfold parse. rewrite V_bind_run, Hr. cbn. rewrite Hs, (proj2 (string_eqb_neq _ _) Hu). cbn.
  rewrite Hq. cbn. unfold quo. by rewrite Hz.
Qed.

End views.

(** *** Concrete runs *)

#[local] Existing Instances QDecimal QDecimal_laws QDecimalOrder QDecimalOrder_laws QDecimalFormat.

Definition div_round (a b : decimal) (p : Z) : decimal := round_to p (a / b)%Q.
Definition harvest_text (compound : bool) (fee : decimal) : string := "{}".
Definition no_chain : VaultService :=
  mkVaultService None None None None None None None None None true None false true.

(** Vault 7 with a balance of 6 over deposits of 5. *)
Definition yielding : State :=
  mkState (fst (VaultBooks.run_op VaultBooks.scan_Q VaultBooks.id_text
    (VaultBooks.OpSetBalances 7 (VaultBooks.dec 5) (VaultBooks.dec 6)) VaultBooks.s_deposit)) demo_cols [] [] ∅.
Definition preview_7 := PreviewHarvest VaultBooks.scan_Q VaultBooks.id_text (mkPreviewHarvestInput 7 9 true) yielding.
Definition harvest_7 := HarvestVault VaultBooks.scan_Q harvest_text no_chain (mkHarvestInput 7 9 "" None) yielding.

Lemma preview_harvest_is_honest_witness :
  match snd preview_7, snd harvest_7 with
  | Ok p, Ok h => PvNetYieldUSDC p = "0.900000"%string ∧ PvNetYieldUSDC p = NetYieldUSDC h
  | _, _ => False
  end.
Proof.
  assert (match snd preview_7 with Ok p => PvNetYieldUSDC p =s? "0.900000" | Err _ => false end = true) as H1
    by (vm_compute; reflexivity).
  assert (is_ok (snd harvest_7) = true) as H2 by (vm_compute; reflexivity).
  unfold preview_7, harvest_7 in *.
  destruct (PreviewHarvest VaultBooks.scan_Q VaultBooks.id_text (mkPreviewHarvestInput 7 9 true) yielding)
    as [s1 [p|e]] eqn:E1; [|discriminate H1].
  destruct (HarvestVault VaultBooks.scan_Q harvest_text no_chain (mkHarvestInput 7 9 "" None) yielding)
    as [s2 [h|e]] eqn:E2; [|discriminate H2].
  cbn [snd] in *. split; [by reflect_bools|].
  assert (PhVaultID (mkPreviewHarvestInput 7 9 true) = HvVaultID (mkHarvestInput 7 9 "" None)) as Hid by reflexivity.
  exact (proj1 (proj2 (proj2 (preview_harvest_is_honest VaultBooks.scan_Q VaultBooks.id_text harvest_text no_chain
    (mkPreviewHarvestInput 7 9 true) (mkHarvestInput 7 9 "" None) yielding s1 s2 p h Hid E1 E2)))).
Defined.

Definition price_7 := GetSharePrice VaultBooks.scan_Q VaultBooks.id_text 7 (∅, yielding).

Lemma served_price_is_recent_witness :
  is_ok (snd price_7) = true ∧
  ∃ s0 s1 v, s0 ∈ [yielding] ∧ GetVault VaultBooks.scan_Q 7 s0 = (s1, Ok v) ∧
    snd price_7 = Ok (price_response VaultBooks.id_text v).
Proof.
  assert (is_ok (snd price_7) = true) as Hok by (vm_compute; reflexivity). split; [exact Hok|].
  assert (price_history VaultBooks.scan_Q VaultBooks.id_text [] ∅) as Hh by constructor.
  unfold price_7 in *.
  destruct (GetSharePrice VaultBooks.scan_Q VaultBooks.id_text 7 (∅, yielding)) as [p [r|e]] eqn:E;
    [|discriminate Hok].
  destruct (served_price_is_recent VaultBooks.scan_Q VaultBooks.id_text 7 [] ∅ yielding p r Hh E)
    as (s0 & s1 & v & Hin & Hv & Hr & _).
  exists s0, s1, v. split; [exact Hin|]. split; [exact Hv|]. by rewrite <- Hr.
Defined.

End VaultViews.
