(* ===== verification/Calendar.v ===== *)
(** The calendar arithmetic the schedules and streaks compute with: [time.Date] and
    [AddDate] in UTC with their normalisation, weekdays and ISO weeks, and
    src/apps/api/internal/scheduler/next_run.go. *)
From S2P Require Import Prelude TimeFormat.

Module Calendar.
Import TimeFormat.

Definition Day : Duration := 24 * Hour.

(** *** Civil dates *)

(** [t.Date()] of an instant in UTC, and what [t.Clock()] and [t.Nanosecond()] leave
    of the day. *)
Definition Date (t : Time) : Z * Z * Z := civil_of_days (t / Day).
Definition Clock (t : Time) : Duration := t mod Day.

(** [time.Date(y, m, d, ...)]: months beyond the year and days beyond the month
    carry over. *)
Definition date (y m d : Z) (clock : Duration) : Time :=
  (days_of_civil (y + (m - 1) / 12, (m - 1) mod 12 + 1, 1) + d - 1) * Day + clock.

Definition AddDate (t : Time) (years months days : Z) : Time :=
  let '(y, m, d) := Date t in date (y + years) (m + months) (d + days) (Clock t).

(** [t.Truncate(d)] since the zero time. *)
Definition Truncate (t : Time) (d : Duration) : Time := if d <=? 0 then t else t - t mod d.

(** [t.Unix()]: the zero time is 0001-01-01. *)
Definition Unix (t : Time) : Z := t / Second - 62135596800.

(** 0001-01-01 was a Monday; Sunday is 0. *)
Definition Weekday (t : Time) : Z := (t / Day + 1) mod 7.

(** [t.ISOWeek()]: the year and number of the week, by its Thursday. *)
Definition ISOWeek (t : Time) : Z * Z :=
  let thursday := t / Day - (t / Day) mod 7 + 3 in
  let '(y, _, _) := civil_of_days thursday in
  (y, (thursday - days_of_civil (y, 1, 1)) / 7 + 1).

(** *** next_run.go *)

Definition daysInMonth (year month : Z) : Z :=
  let '(_, _, d) := Date (date year (month + 1) 0 0) in d.

Definition addOneMonth (t : Time) : Time :=
  let '(year, month, day) := Date t in
  let month := month + 1 in
  let '(year, month) := if 12 <? month then (year + 1, 1) else (year, month) in
  let lastDay := daysInMonth year month in
  let day := if lastDay <? day then lastDay else day in
  date year month day (Clock t).

Definition NextRunAt (from : Time) (frequency : string) : Time :=
  if frequency =s? "weekly" then AddDate from 0 0 7
  else if frequency =s? "biweekly" then AddDate from 0 0 14
  else if frequency =s? "monthly" then addOneMonth from
  else from.

(** *** The calendar it is measured against *)

Definition leap (y : Z) : bool := (y mod 4 =? 0) && (negb (y mod 100 =? 0) || (y mod 400 =? 0)).

Definition month_length (y m : Z) : Z :=
  if m =? 2 then (if leap y then 29 else 28)
  else if (m =? 4) || (m =? 6) || (m =? 9) || (m =? 11) then 30 else 31.

Definition next_month (y m : Z) : Z * Z := if m =? 12 then (y + 1, 1) else (y, m + 1).

Definition valid_date (c : Z * Z * Z) : Prop :=
  let '(y, m, d) := c in 1 ≤ m ≤ 12 ∧ 1 ≤ d ≤ month_length y m.

(** The day number of the first of a month. *)
Definition month_start (y m : Z) : Z := days_of_civil (y, m, 1).

Example date_next_run_weekly :
  Date (NextRunAt (date 2026 3 15 (10 * Hour)) "weekly") = (2026, 3, 22).
Proof. vm_compute. reflexivity. Qed.
Example date_next_run_leap :
  Date (NextRunAt (date 2024 1 31 (8 * Hour)) "monthly") = (2024, 2, 29).
Proof. vm_compute. reflexivity. Qed.
Example iso_week_2026 : ISOWeek (date 2027 1 1 0) = (2026, 53).
Proof. vm_compute. reflexivity. Qed.

(** *** Months tile the days *)

(** Comparisons between numerals are computed. *)
Ltac eval_tests :=
  repeat (match goal with
          | |- context [?a =? ?b] => let v := eval vm_compute in (a =? b) in
              lazymatch v with true => idtac | false => idtac end; change (a =? b) with v
          | |- context [?a <=? ?b] => let v := eval vm_compute in (a <=? b) in
              lazymatch v with true => idtac | false => idtac end; change (a <=? b) with v
          | |- context [?a <? ?b] => let v := eval vm_compute in (a <? b) in
              lazymatch v with true => idtac | false => idtac end; change (a <? b) with v
          end; cbv iota; cbn [orb andb]).

Lemma days_of_civil_linear y m d :
  days_of_civil (y, m, d) =
    let y' := if m <=? 2 then y - 1 else y in
    let mp := if 3 <=? m then m - 3 else m + 9 in
    y' * 365 + y' / 4 - y' / 100 + y' / 400 + (153 * mp + 2) / 5 + d - 307.
Proof.
  unfold days_of_civil. cbv zeta. generalize (if m <=? 2 then y - 1 else y). intros y'.
  generalize ((153 * (if 3 <=? m then m - 3 else m + 9) + 2) / 5). intros k.
  pose proof (Z.div_mod y' 400 ltac:(lia)) as Hy. pose proof (Z.mod_pos_bound y' 400 ltac:(lia)) as Hr.
  remember (y' / 400) as era eqn:He. remember (y' mod 400) as yoe eqn:Hyoe. clear He Hyoe.
  subst y'. replace ((400 * era + yoe) / 4) with (100 * era + yoe / 4)
    by (Z.to_euclidean_division_equations; lia).
  replace ((400 * era + yoe) / 100) with (4 * era + yoe / 100)
    by (Z.to_euclidean_division_equations; lia). lia.
Qed.

Lemma month_start_shift y m d : days_of_civil (y, m, d) = month_start y m + d - 1.
Proof. unfold month_start. rewrite !days_of_civil_linear. cbv zeta. lia. Qed.

Lemma leap_step y :
  y / 4 - y / 100 + y / 400 - ((y - 1) / 4 - (y - 1) / 100 + (y - 1) / 400) = if leap y then 1 else 0.
Proof.
  unfold leap. destruct (y mod 4 =? 0) eqn:E4, (y mod 100 =? 0) eqn:E100, (y mod 400 =? 0) eqn:E400;
    cbn [andb orb negb]; reflect_bools; Z.to_euclidean_division_equations; lia.
Qed.

(** Months are their tabulated lengths apart. *)
Lemma month_start_next y m :
  1 ≤ m ≤ 12 →
  (let '(y', m') := next_month y m in month_start y' m') = month_start y m + month_length y m.
Proof.
  intros Hm. pose proof (leap_step y) as Hl. unfold next_month, month_start, month_length.
  assert (m = 1 ∨ m = 2 ∨ m = 3 ∨ m = 4 ∨ m = 5 ∨ m = 6 ∨ m = 7 ∨ m = 8 ∨ m = 9 ∨ m = 10 ∨ m = 11
    ∨ m = 12) as Hc by lia.
  destruct_or! Hc; subst m; eval_tests; rewrite !days_of_civil_linear; cbv zeta; eval_tests;
    rewrite ?Z.add_simpl_r;
    repeat match goal with |- context [(153 * ?k + 2) / 5] =>
      let v := eval vm_compute in ((153 * k + 2) / 5) in change ((153 * k + 2) / 5) with v end;
    revert Hl; generalize (y / 4) (y / 100) (y / 400) ((y - 1) / 4) ((y - 1) / 100) ((y - 1) / 400);
    intros; try destruct (leap y); lia.
Qed.

Lemma month_length_bounds y m : 28 ≤ month_length y m ≤ 31.
Proof. unfold month_length. repeat case_match; lia. Qed.

(** Months numbered from the year 0. *)
Definition nth_start (k : Z) : Z := month_start (k / 12) (k mod 12 + 1).
Definition nth_length (k : Z) : Z := month_length (k / 12) (k mod 12 + 1).

Lemma nth_month y m : 1 ≤ m ≤ 12 → (12 * y + m - 1) / 12 = y ∧ (12 * y + m - 1) mod 12 + 1 = m.
Proof. intros. Z.to_euclidean_division_equations; lia. Qed.

Lemma nth_start_month y m : 1 ≤ m ≤ 12 → nth_start (12 * y + m - 1) = month_start y m.
Proof. intros Hm. unfold nth_start. by destruct (nth_month y m Hm) as [-> ->]. Qed.

Lemma nth_length_month y m : 1 ≤ m ≤ 12 → nth_length (12 * y + m - 1) = month_length y m.
Proof. intros Hm. unfold nth_length. by destruct (nth_month y m Hm) as [-> ->]. Qed.

Lemma nth_start_next k : nth_start (k + 1) = nth_start k + nth_length k.
Proof.
  assert (∃ y m, 1 ≤ m ≤ 12 ∧ k = 12 * y + m - 1) as (y & m & Hm & ->).
  { exists (k / 12), (k mod 12 + 1). Z.to_euclidean_division_equations; lia. }
  rewrite nth_start_month, nth_length_month by done. rewrite <- month_start_next by done.
  unfold next_month. destruct (m =? 12) eqn:E; reflect_bools.
  - subst m. rewrite <- nth_start_month by lia. f_equal. lia.
  - rewrite <- nth_start_month by lia. f_equal. lia.
Qed.

Lemma nth_start_lt k j : k < j → nth_start k + nth_length k ≤ nth_start j.
Proof.
  intros Hkj. rewrite <- nth_start_next. replace j with (k + 1 + Z.of_nat (Z.to_nat (j - k - 1))) by lia.
  induction (Z.to_nat (j - k - 1)) as [|n IH]; [rewrite Z.add_0_r; lia|].
  replace (k + 1 + Z.of_nat (S n)) with (k + 1 + Z.of_nat n + 1) by lia.
  rewrite (nth_start_next (k + 1 + Z.of_nat n)).
  pose proof (month_length_bounds ((k + 1 + Z.of_nat n) / 12) ((k + 1 + Z.of_nat n) mod 12 + 1)).
  unfold nth_length. lia.
Qed.

(** A day lies in one month only. *)
Lemma valid_date_unique c c' :
  valid_date c → valid_date c' → days_of_civil c = days_of_civil c' → c = c'.
Proof.
  destruct c as [[y m] d], c' as [[y' m'] d']. intros [Hm Hd] [Hm' Hd'].
  rewrite !month_start_shift, <- !nth_start_month by done.
  rewrite <- nth_length_month in Hd, Hd' by done. intros Heq.
  destruct (Z.lt_total (12 * y + m - 1) (12 * y' + m' - 1)) as [Hlt|[He|Hlt]].
  - apply nth_start_lt in Hlt. lia.
  - assert (y = y') as -> by lia. assert (m = m') as -> by lia. repeat f_equal. lia.
  - apply nth_start_lt in Hlt. lia.
Qed.

Lemma leap_period y k : leap (y + k * 400) = leap y.
Proof.
  unfold leap. f_equal; [|f_equal; [f_equal|]]; f_equal; Z.to_euclidean_division_equations; lia.
Qed.

Lemma era_length doe yoe mp d :
  0 ≤ doe < 146097 → era_fields doe = (yoe, mp, d) →
  d ≤ month_length (if (if mp <? 10 then mp + 3 else mp - 9) <=? 2 then yoe + 1 else yoe)
        (if mp <? 10 then mp + 3 else mp - 9).
Proof.
  intros Hd Hf. destruct (year_of_day doe Hd) as (y & Hy & Hlo & Hhi).
  pose proof (era_bounds _ _ _ _ Hd Hf) as (Hyoe & Hmp & Hd1).
  assert (yoe = y) as ->.
  { pose proof (year_ends y Hy) as He. reflect_bools.
    assert (0 ≤ year_start y) by (unfold year_start; Z.to_euclidean_division_equations; lia).
    pose proof (leapless_mono (year_start y) doe ltac:(lia)).
    pose proof (leapless_mono doe (year_start (y + 1) - 1) ltac:(lia)).
    assert (leapless (year_start y) / 365 ≤ leapless doe / 365) by (apply Z.div_le_mono; lia).
    assert (leapless doe / 365 ≤ leapless (year_start (y + 1) - 1) / 365)
      by (apply Z.div_le_mono; lia).
    unfold era_fields in Hf. fold (leapless doe) in Hf. injection Hf as <- _ _. lia. }
  assert (doe - (365 * y + y / 4 - y / 100) ≤ 364 + if leap (y + 1) then 1 else 0) as Hdoy.
  { pose proof (leap_step (y + 1)) as Hl. unfold year_start in Hhi.
    replace (y + 1 - 1) with y in Hl by lia. rewrite (Z.div_small y 400) in Hl by lia. lia. }
  unfold era_fields in Hf.
  assert ((doe - doe / 1460 + doe / 36524 - doe / 146096) / 365 = y) as Hy'
    by (injection Hf; congruence).
  rewrite Hy' in Hf. set (doy := doe - (365 * y + y / 4 - y / 100)) in *. clearbody doy.
  injection Hf as <- <-. clear - Hmp Hd1 Hdoy. unfold month_length.
  set (mp := (5 * doy + 2) / 153) in *. assert (5 * doy + 2 < 153 * mp + 153) as Hlt
    by (subst mp; Z.to_euclidean_division_equations; lia). clearbody mp.
  assert (mp = 0 ∨ mp = 1 ∨ mp = 2 ∨ mp = 3 ∨ mp = 4 ∨ mp = 5 ∨ mp = 6 ∨ mp = 7 ∨ mp = 8 ∨ mp = 9
    ∨ mp = 10 ∨ mp = 11) as Hc by lia.
  destruct_or! Hc; subst mp; eval_tests;
    try (destruct (leap (y + 1))); Z.to_euclidean_division_equations; lia.
Qed.

Lemma civil_of_days_valid n : valid_date (civil_of_days n) ∧ days_of_civil (civil_of_days n) = n.
Proof.
  destruct (civil_of_days n) as [[y m] d] eqn:E.
  pose proof (civil_of_days_fields _ _ _ _ E) as (Hn & Hm & Hd & _). split; [|done].
  split; [done|split; [lia|]]. rewrite civil_of_days_era in E.
  pose proof (Z.mod_pos_bound (n + 306) 146097 ltac:(lia)) as Hdoe.
  destruct (era_fields _) as [[yoe mp] dd] eqn:Ef. pose proof (era_length _ _ _ _ Hdoe Ef) as Hl.
  injection E as <- <- <-. set (m := if mp <? 10 then mp + 3 else mp - 9) in *.
  assert (∀ y k, month_length (y + k * 400) m = month_length y m) as Hp.
  { intros y' k. unfold month_length. by rewrite leap_period. }
  destruct (m <=? 2); [|by rewrite Hp].
  replace (yoe + (n + 306) / 146097 * 400 + 1) with (yoe + 1 + (n + 306) / 146097 * 400) by lia.
  by rewrite Hp.
Qed.

Lemma civil_of_days_of_civil c : valid_date c → civil_of_days (days_of_civil c) = c.
Proof.
  intros Hc. apply valid_date_unique; [apply civil_of_days_valid|done|].
  apply civil_of_days_valid.
Qed.

(** *** Instants and dates *)

Lemma Day_pos : 0 < Day.
Proof. done. Qed.

Lemma Clock_bounds t : 0 ≤ Clock t < Day.
Proof. apply Z.mod_pos_bound, Day_pos. Qed.

Lemma day_clock k c : 0 ≤ c < Day → (k * Day + c) / Day = k ∧ (k * Day + c) mod Day = c.
Proof.
  intros Hc. rewrite Z.add_comm. split.
  - rewrite Z.div_add by done. rewrite Z.div_small by done. lia.
  - rewrite Z.mod_add by done. by apply Z.mod_small.
Qed.

(** A valid date and a time of day are read back. *)
Lemma Date_date y m d c :
  valid_date (y, m, d) → 0 ≤ c < Day → Date (date y m d c) = (y, m, d) ∧ Clock (date y m d c) = c.
Proof.
  intros [Hm Hd] Hc. unfold Date, Clock, date.
  replace (y + (m - 1) / 12) with y by (Z.to_euclidean_division_equations; lia).
  replace ((m - 1) mod 12 + 1) with m by (Z.to_euclidean_division_equations; lia).
  destruct (day_clock (days_of_civil (y, m, 1) + d - 1) c Hc) as [-> ->]. split; [|done].
  fold (month_start y m). rewrite <- month_start_shift. by apply civil_of_days_of_civil.
Qed.

(** An instant is its date and its time of day. *)
Lemma date_Date t y m d : Date t = (y, m, d) → date y m d (Clock t) = t ∧ valid_date (y, m, d).
Proof.
  unfold Date, Clock, date. intros E. destruct (civil_of_days_valid (t / Day)) as [Hv Hi].
  rewrite E in Hv, Hi. split; [|done]. destruct Hv as [Hm Hd].
  replace (y + (m - 1) / 12) with y by (Z.to_euclidean_division_equations; lia).
  replace ((m - 1) mod 12 + 1) with m by (Z.to_euclidean_division_equations; lia).
  rewrite month_start_shift in Hi. fold (month_start y m). rewrite Hi.
  pose proof (Z.div_mod t Day ltac:(done)). lia.
Qed.

Lemma date_days y m d k c : date y m (d + k) c = date y m d c + k * Day.
Proof. unfold date. lia. Qed.

Lemma AddDate_days t k : AddDate t 0 0 k = t + k * Day.
Proof.
  unfold AddDate. destruct (Date t) as [[y m] d] eqn:E. rewrite !Z.add_0_r, date_days.
  by destruct (date_Date t y m d E) as [-> _].
Qed.

(** The first of the month after: the carry past December is the calendar's. *)
Lemma date_next_first y m d c :
  1 ≤ m ≤ 12 →
  date y (m + 1) d c = let '(y', m') := next_month y m in date y' m' d c.
Proof.
  intros Hm. unfold next_month. destruct (m =? 12) eqn:E; [|done]. reflect_bools. subst m.
  unfold date. change ((12 + 1 - 1) / 12) with 1. change ((1 - 1) / 12) with 0.
  by rewrite Z.add_0_r.
Qed.

Lemma daysInMonth_length y m : 1 ≤ m ≤ 12 → daysInMonth y m = month_length y m.
Proof.
  intros Hm. unfold daysInMonth. rewrite date_next_first by done.
  pose proof (month_start_next y m Hm) as Hn. unfold next_month in *.
  pose proof (month_length_bounds y m) as Hl.
  assert (∀ y' m', 1 ≤ m' ≤ 12 → month_start y' m' = month_start y m + month_length y m →
    (let '(_, _, d) := Date (date y' m' 0 0) in d) = month_length y m) as Hgoal.
  { intros y' m' Hm' Hs. assert (date y' m' 0 0 = date y m (month_length y m) 0) as ->.
    { unfold date. unfold month_start in Hs.
      replace (y + (m - 1) / 12) with y by (Z.to_euclidean_division_equations; lia).
      replace ((m - 1) mod 12 + 1) with m by (Z.to_euclidean_division_equations; lia).
      replace (y' + (m' - 1) / 12) with y' by (Z.to_euclidean_division_equations; lia).
      replace ((m' - 1) mod 12 + 1) with m' by (Z.to_euclidean_division_equations; lia). lia. }
    destruct (Date_date y m (month_length y m) 0) as [-> _]; [|done|done].
    split; [done|lia]. }
  destruct (m =? 12) eqn:E; reflect_bools; apply Hgoal; done || lia.
Qed.

(** *** Recurrence *)

Definition clamp (y m d : Z) : Z := Z.min d (month_length y m).

(** A month later is the next month of the calendar, on the same day of the month or
    the last one, at the same time. *)
Lemma addOneMonth_date t y m d :
  Date t = (y, m, d) →
  let '(y', m') := next_month y m in
  Date (addOneMonth t) = (y', m', clamp y' m' d) ∧ Clock (addOneMonth t) = Clock t ∧
  addOneMonth t = date y' m' (clamp y' m' d) (Clock t).
Proof.
  intros E. destruct (date_Date t y m d E) as [_ [Hm Hd]]. unfold addOneMonth. rewrite E. cbv zeta.
  assert ((if 12 <? m + 1 then (y + 1, 1) else (y, m + 1)) = next_month y m) as ->.
  { unfold next_month. destruct (12 <? m + 1) eqn:E1, (m =? 12) eqn:E2; reflect_bools; done || lia. }
  assert (let '(_, m') := next_month y m in 1 ≤ m' ≤ 12) as Hm'.
  { unfold next_month. destruct (m =? 12) eqn:E2; reflect_bools; lia. }
  destruct (next_month y m) as [y' m']. rewrite daysInMonth_length by done.
  assert ((if month_length y' m' <? d then month_length y' m' else d) = clamp y' m' d) as ->.
  { unfold clamp. destruct (_ <? _) eqn:E2; reflect_bools; lia. }
  pose proof (month_length_bounds y' m'). pose proof (Clock_bounds t).
  split_and!; [| |done]; apply Date_date; try done; (split; [done|unfold clamp; lia]).
Qed.

(** From 28 to 31 days pass. *)
Lemma addOneMonth_gap t : 28 * Day ≤ addOneMonth t - t ≤ 31 * Day.
Proof.
  destruct (Date t) as [[y m] d] eqn:E. pose proof (addOneMonth_date t y m d E) as Hn.
  destruct (date_Date t y m d E) as [Ht [Hm Hd]]. pose proof (month_start_next y m Hm) as Hs.
  assert (let '(_, m') := next_month y m in 1 ≤ m' ≤ 12) as Hm'.
  { unfold next_month. destruct (m =? 12) eqn:E2; reflect_bools; lia. }
  destruct (next_month y m) as [y' m']. destruct Hn as (_ & _ & ->). rewrite <- Ht at 2 4.
  pose proof (month_length_bounds y m). pose proof (month_length_bounds y' m').
  assert (∀ y m d c, 1 ≤ m ≤ 12 → date y m d c = (month_start y m + d - 1) * Day + c) as Hdate.
  { clear. intros y m d c Hm. unfold date, month_start.
    replace (y + (m - 1) / 12) with y by (Z.to_euclidean_division_equations; lia).
    by replace ((m - 1) mod 12 + 1) with m by (Z.to_euclidean_division_equations; lia). }
  rewrite !Hdate by done. rewrite Hs. unfold clamp. pose proof Day_pos. nia.
Qed.

Definition frequencies : list string := ["weekly"; "biweekly"; "monthly"].

Lemma NextRunAt_gap t f : f ∈ frequencies → 7 * Day ≤ NextRunAt t f - t ≤ 31 * Day.
Proof.
  intros Hf. pose proof (addOneMonth_gap t). unfold frequencies in Hf.
  assert (f = "weekly" ∨ f = "biweekly" ∨ f = "monthly") as Hc by set_solver.
  pose proof Day_pos. destruct_or! Hc; subst f; unfold NextRunAt;
    repeat match goal with |- context [?a =s? ?b] =>
      let v := eval vm_compute in (a =s? b) in change (a =s? b) with v end; cbv iota;
    rewrite ?AddDate_days; lia.
Qed.

(** The occurrences of a schedule that is never skipped. *)
Definition occurrence (t : Time) (f : string) (n : nat) : Time := Nat.iter n (λ t, NextRunAt t f) t.

Lemma occurrence_gap t f n k :
  f ∈ frequencies → (n < k)%nat → occurrence t f n + 7 * Day ≤ occurrence t f k.
Proof.
  intros Hf. induction k as [|k IH]; [lia|]. intros Hk.
  pose proof (NextRunAt_gap (occurrence t f k) f Hf).
  change (occurrence t f (S k)) with (NextRunAt (occurrence t f k) f).
  destruct (decide (n = k)) as [->|]; [lia|]. specialize (IH ltac:(lia)). pose proof Day_pos. lia.
Qed.

(** Instants at least a week apart fall into different buckets of up to a week. *)
Lemma Truncate_apart t u w :
  0 < w ≤ 7 * Day → t + 7 * Day ≤ u → Unix (Truncate t w) < Unix (Truncate u w).
Proof.
  intros Hw Htu. unfold Truncate, Unix. rewrite (proj2 (Z.leb_gt w 0)) by lia.
  pose proof (Z.mod_pos_bound t w ltac:(lia)). pose proof (Z.mod_pos_bound u w ltac:(lia)).
  assert (Second ≤ (u - u mod w) - (t - t mod w)) as Hs.
  { pose proof (Z.div_mod t w ltac:(lia)). pose proof (Z.div_mod u w ltac:(lia)).
    destruct (decide (w ≤ 7 * Day - Second)) as [|Hbig]; [lia|].
    assert (t / w < u / w) by nia. assert (Second ≤ w) by (assert (2 * Second ≤ 7 * Day) by done; lia).
    nia. }
  assert ((t - t mod w) / Second + 1 ≤ (u - u mod w) / Second); [|lia].
  replace ((t - t mod w) / Second + 1) with ((t - t mod w + 1 * Second) / Second)
    by (rewrite Z.div_add by done; lia). apply Z.div_le_mono; [done|lia].
Qed.

End Calendar.
