(* ===== verification/SavingsDomain.v ===== *)
(** The savings domain: goals and their milestones (src/apps/api/internal/domain/savingsgoal),
    weekly streaks (domain/savingsstreak/model.go) and recurring schedules
    (domain/savingsschedule/model.go). *)
From S2P Require Import Prelude Decimals Outbox VaultRepo VaultDomain VaultService.
Open Scope Z_scope.

Module SavingsDomain.
Import Decimals.

(** *** Text as the code counts it *)

Definition continuation (b : Z) : bool := (128 <=? b) && (b <=? 191).
Definition RuneError : Z := 65533.

(** [utf8.DecodeRune] on the bytes of a string: the rune and its width; a byte that
    starts no well-formed sequence is an error of width one. *)
Definition DecodeRune (l : list Z) : Z * nat :=
  match l with
  | [] => (RuneError, 0%nat)
  | b0 :: l1 =>
      if b0 <? 128 then (b0, 1%nat)
      else match l1 with
      | b1 :: l2 =>
          if (194 <=? b0) && (b0 <=? 223) && continuation b1
          then ((b0 - 192) * 64 + (b1 - 128), 2%nat)
          else match l2 with
          | b2 :: l3 =>
              if (224 <=? b0) && (b0 <=? 239) &&
                 (if b0 =? 224 then 160 <=? b1 else 128 <=? b1) &&
                 (if b0 =? 237 then b1 <=? 159 else b1 <=? 191) && continuation b2
              then ((b0 - 224) * 4096 + (b1 - 128) * 64 + (b2 - 128), 3%nat)
              else match l3 with
              | b3 :: _ =>
                  if (240 <=? b0) && (b0 <=? 244) &&
                     (if b0 =? 240 then 144 <=? b1 else 128 <=? b1) &&
                     (if b0 =? 244 then b1 <=? 143 else b1 <=? 191) && continuation b2 && continuation b3
                  then ((b0 - 240) * 262144 + (b1 - 128) * 4096 + (b2 - 128) * 64 + (b3 - 128), 4%nat)
                  else (RuneError, 1%nat)
              | [] => (RuneError, 1%nat)
              end
          | [] => (RuneError, 1%nat)
          end
      | [] => (RuneError, 1%nat)
      end
  end.

Fixpoint decode_runes (fuel : nat) (l : list Z) : list Z :=
  match fuel, l with
  | S fuel, _ :: _ => let '(r, w) := DecodeRune l in r :: decode_runes fuel (drop w l)
  | _, _ => []
  end.

(** [[]rune(s)]: every rune takes at least a byte. *)
Definition runes (s : string) : list Z :=
  let l := map (λ a, Z.of_nat (Ascii.nat_of_ascii a)) (bytes_of s) in decode_runes (length l) l.

Definition EncodeRune (r : Z) : list Z :=
  if r <? 128 then [r]
  else if r <? 2048 then [192 + r / 64; 128 + r mod 64]
  else if r <? 65536 then [224 + r / 4096; 128 + r / 64 mod 64; 128 + r mod 64]
  else [240 + r / 262144; 128 + r / 4096 mod 64; 128 + r / 64 mod 64; 128 + r mod 64].

(** [string(runes)]. *)
Definition string_of_runes (l : list Z) : string :=
  of_bytes (map (λ b, byte (Z.to_nat b)) (mbind EncodeRune l)).

Example runes_text : runes (of_bytes (map byte [97; 195; 169; 226; 130; 172; 240; 159; 144; 183; 255]%nat))
  = [97; 233; 8364; 128055; RuneError].
Proof. vm_compute. reflexivity. Qed.
Example string_of_runes_text : string_of_runes (runes "savings") = "savings"%string.
Proof. vm_compute. reflexivity. Qed.

(** *** Goals: statuses, categories, currencies *)

Inductive GoalStatus := GoalStatusActive | GoalStatusPaused | GoalStatusCompleted | GoalStatusArchived.
#[global] Instance GoalStatus_eq_dec : EqDecision GoalStatus.
Proof. solve_decision. Defined.

Definition status_string (s : GoalStatus) : string :=
  match s with
  | GoalStatusActive => "active" | GoalStatusPaused => "paused"
  | GoalStatusCompleted => "completed" | GoalStatusArchived => "archived"
  end.

Definition NormalizeCurrency (currency : string) : string := ToUpper (TrimSpace currency).
Definition SupportedCurrencies : list string := ["USDC"; "XLM"].
Definition IsSupportedCurrency (currency : string) : bool :=
  bool_decide (NormalizeCurrency currency ∈ SupportedCurrencies).

Definition CategoryOther : string := "other".
Definition categories : list string :=
  ["emergency_fund"; "education"; "housing"; "travel"; "business"; "health"; "retirement"; CategoryOther].

Definition SavingsGoalRecoveryWindow : Duration := 30 * 24 * Hour.

Inductive Frequency := FrequencyWeekly | FrequencyBiweekly | FrequencyMonthly.
#[global] Instance Frequency_eq_dec : EqDecision Frequency.
Proof. solve_decision. Defined.

Definition frequency_string (f : Frequency) : string :=
  match f with FrequencyWeekly => "weekly" | FrequencyBiweekly => "biweekly" | FrequencyMonthly => "monthly" end.

(** *** Errors *)

Section domain.
  Context `{DecimalOrderLaws} `{F : !DecimalFormat}.

(** The savings packages' sentinels, and what they pass on: the vault service's, the
    database's, a text longer than its column, a row that does not fit the destinations
    it is scanned into, the outbox's, and a panic. *)
Inductive SavErr :=
| ErrGoalNotFound | ErrInvalidGoal | ErrUnauthorized | ErrGoalCompleted | ErrGoalPaused
| ErrGoalArchived | ErrInvalidAmount | ErrInvalidContributionLimits | ErrContributionOutOfRange
| ErrGoalNotDeleted | ErrRecoveryWindowExpired | ErrTemplatesNotConfigured
| ErrScheduleNotFound | ErrInvalidSchedule | ErrActiveScheduleExists | ErrUnauthorizedVault
| ErrVaults (e : VaultService.SvcErr)
| ErrDb (e : VaultRepo.DbError)
| ErrStringTooLong | ErrScan | ErrOutbox (e : Outbox.OutboxError) | Panic.

(** The empty filter is [None]. *)
Definition ParseStatusFilter (value : string) : result SavErr (option GoalStatus) :=
  let status := ToLower (TrimSpace value) in
  if status =s? "" then Ok None
  else if status =s? "active" then Ok (Some GoalStatusActive)
  else if status =s? "paused" then Ok (Some GoalStatusPaused)
  else if status =s? "completed" then Ok (Some GoalStatusCompleted)
  else if status =s? "archived" then Ok (Some GoalStatusArchived)
  else Err ErrInvalidGoal.

Definition ParseCategory (value : string) : result SavErr string :=
  let category := ToLower (TrimSpace value) in
  if bool_decide (category ∈ categories) then Ok category else Err ErrInvalidGoal.

Definition ParseFrequency (value : string) : result SavErr Frequency :=
  let f := ToLower (TrimSpace value) in
  if f =s? "weekly" then Ok FrequencyWeekly
  else if f =s? "biweekly" then Ok FrequencyBiweekly
  else if f =s? "monthly" then Ok FrequencyMonthly
  else Err ErrInvalidSchedule.

Definition isEmojiRange (r : Z) : bool :=
  existsb (λ '(lo, hi), (lo <=? r) && (r <=? hi))
    [(0x1F600, 0x1F64F); (0x1F300, 0x1F5FF); (0x1F680, 0x1F6FF); (0x1F700, 0x1F77F); (0x1F780, 0x1F7FF);
     (0x1F800, 0x1F8FF); (0x1F900, 0x1F9FF); (0x1FA00, 0x1FA6F); (0x1FA70, 0x1FAFF); (0x2600, 0x26FF);
     (0x2700, 0x27BF); (0xFE0F, 0xFE0F); (0x1F1E0, 0x1F1FF); (0x200D, 0x200D)].

(** [unicode_symbol]: the rune is in one of the categories So, Sm and Sk. *)
Definition ValidateEmoji (unicode_symbol : Z → bool) (s : string) : result SavErr unit :=
  if forallb (λ r, unicode_symbol r || isEmojiRange r) (runes s) then Ok () else Err ErrInvalidGoal.

Definition positive_limit (d : option decimal) : bool :=
  match d with Some d => IsPositive d | None => true end.

Definition ValidateContributionLimits (min max : option decimal) : result SavErr unit :=
  if negb (positive_limit min) then Err ErrInvalidContributionLimits
  else if negb (positive_limit max) then Err ErrInvalidContributionLimits
  else match min, max with
       | Some a, Some b => if GreaterThan a b then Err ErrInvalidContributionLimits else Ok ()
       | _, _ => Ok ()
       end.

Definition ValidateContributionAmount (amount : decimal) (min max : option decimal) : result SavErr unit :=
  if match min with Some a => LessThan amount a | None => false end then Err ErrContributionOutOfRange
  else if match max with Some b => GreaterThan amount b | None => false end then Err ErrContributionOutOfRange
  else Ok ().

End domain.

(** *** Goals *)

(** What the owner sets: a row of the table counts its amounts in hundred-millionths,
    the code holds decimals. *)
Record Terms (N : Type) := mkTerms {
  VaultID : option Z;
  TargetAmount : N;
  Currency : string;
  Deadline : Time;
  Description : string;
  Category : string;
  Name : string;
  Emoji : string;
  MinContribution : option N;
  MaxContribution : option N;
  AutoCompound : bool;
}.

Record Life := mkLife {
  Status : GoalStatus;
  CompletedAt : option Time;
  CompletionAction : string;
  DeletedAt : option Time;
}.

(** The empty string is a NULL text. *)
Record GoalOf (N : Type) := mkGoal {
  GoalID : Z;
  GoalUserID : Z;
  terms : Terms N;
  life : Life;
  YieldBalance : N;
  NotifiedMilestones : list Z;
  DeadlineRemindersSent : list Z;
  ShareToken : option Z;
  ShareEnabledAt : option Time;
  OnchainGoalID : option string;
  OnchainStatus : option string;
  Notes : string;
  CreatedAt : Time;
  UpdatedAt : Time;
}.

Arguments mkTerms {N}. Arguments VaultID {N}. Arguments TargetAmount {N}. Arguments Currency {N}.
Arguments Deadline {N}. Arguments Description {N}. Arguments Category {N}. Arguments Name {N}.
Arguments Emoji {N}. Arguments MinContribution {N}. Arguments MaxContribution {N}.
Arguments AutoCompound {N}.
Arguments mkGoal {N}. Arguments GoalID {N}. Arguments GoalUserID {N}. Arguments terms {N}.
Arguments life {N}. Arguments YieldBalance {N}. Arguments NotifiedMilestones {N}.
Arguments DeadlineRemindersSent {N}. Arguments ShareToken {N}. Arguments ShareEnabledAt {N}.
Arguments OnchainGoalID {N}. Arguments OnchainStatus {N}. Arguments Notes {N}.
Arguments CreatedAt {N}. Arguments UpdatedAt {N}.

Definition with_terms {N} (g : GoalOf N) t := mkGoal (GoalID g) (GoalUserID g) t (life g) (YieldBalance g)
  (NotifiedMilestones g) (DeadlineRemindersSent g) (ShareToken g) (ShareEnabledAt g) (OnchainGoalID g)
  (OnchainStatus g) (Notes g) (CreatedAt g) (UpdatedAt g).
Definition with_life {N} (g : GoalOf N) l := mkGoal (GoalID g) (GoalUserID g) (terms g) l (YieldBalance g)
  (NotifiedMilestones g) (DeadlineRemindersSent g) (ShareToken g) (ShareEnabledAt g) (OnchainGoalID g)
  (OnchainStatus g) (Notes g) (CreatedAt g) (UpdatedAt g).
Definition with_yield {N} (g : GoalOf N) y := mkGoal (GoalID g) (GoalUserID g) (terms g) (life g) y
  (NotifiedMilestones g) (DeadlineRemindersSent g) (ShareToken g) (ShareEnabledAt g) (OnchainGoalID g)
  (OnchainStatus g) (Notes g) (CreatedAt g) (UpdatedAt g).
Definition with_notified {N} (g : GoalOf N) l := mkGoal (GoalID g) (GoalUserID g) (terms g) (life g)
  (YieldBalance g) l (DeadlineRemindersSent g) (ShareToken g) (ShareEnabledAt g) (OnchainGoalID g)
  (OnchainStatus g) (Notes g) (CreatedAt g) (UpdatedAt g).
Definition with_reminders {N} (g : GoalOf N) l := mkGoal (GoalID g) (GoalUserID g) (terms g) (life g)
  (YieldBalance g) (NotifiedMilestones g) l (ShareToken g) (ShareEnabledAt g) (OnchainGoalID g)
  (OnchainStatus g) (Notes g) (CreatedAt g) (UpdatedAt g).
Definition with_share {N} (g : GoalOf N) t e := mkGoal (GoalID g) (GoalUserID g) (terms g) (life g)
  (YieldBalance g) (NotifiedMilestones g) (DeadlineRemindersSent g) t e (OnchainGoalID g)
  (OnchainStatus g) (Notes g) (CreatedAt g) (UpdatedAt g).
Definition with_onchain {N} (g : GoalOf N) i s := mkGoal (GoalID g) (GoalUserID g) (terms g) (life g)
  (YieldBalance g) (NotifiedMilestones g) (DeadlineRemindersSent g) (ShareToken g) (ShareEnabledAt g) i s
  (Notes g) (CreatedAt g) (UpdatedAt g).
Definition with_notes {N} (g : GoalOf N) n := mkGoal (GoalID g) (GoalUserID g) (terms g) (life g)
  (YieldBalance g) (NotifiedMilestones g) (DeadlineRemindersSent g) (ShareToken g) (ShareEnabledAt g)
  (OnchainGoalID g) (OnchainStatus g) n (CreatedAt g) (UpdatedAt g).
Definition with_updated {N} (g : GoalOf N) t := mkGoal (GoalID g) (GoalUserID g) (terms g) (life g)
  (YieldBalance g) (NotifiedMilestones g) (DeadlineRemindersSent g) (ShareToken g) (ShareEnabledAt g)
  (OnchainGoalID g) (OnchainStatus g) (Notes g) (CreatedAt g) t.

Definition with_status (l : Life) s := mkLife s (CompletedAt l) (CompletionAction l) (DeletedAt l).
Definition with_deleted (l : Life) d := mkLife (Status l) (CompletedAt l) (CompletionAction l) d.

(** *** Milestones *)

Definition ProgressMilestones : list Z := [25; 50; 75; 100].

Definition ContainsMilestone (notified : list Z) (milestone : Z) : bool :=
  existsb (λ m, m =? milestone) notified.

Definition DetectNewMilestones (progressPct : float64) (notified : list Z) : list Z :=
  List.filter (λ m, float64_leb (float64_of m) progressPct && negb (ContainsMilestone notified m))
    ProgressMilestones.

Fixpoint index_from (i : Z) (pct : Z) (l : list Z) : option Z :=
  match l with
  | [] => None
  | m :: rest => if m =? pct then Some i else index_from (i + 1) pct rest
  end.

Definition OnchainMilestoneBit (pct : Z) : option Z := index_from 0 pct ProgressMilestones.

Fixpoint milestones_from (i bitmask : Z) (l : list Z) : list Z :=
  match l with
  | [] => []
  | m :: rest => if Z.testbit bitmask i then m :: milestones_from (i + 1) bitmask rest
                 else milestones_from (i + 1) bitmask rest
  end.

Definition MilestonesFromBitmask (bitmask : Z) : list Z := milestones_from 0 bitmask ProgressMilestones.

Definition GoalDisplayName {N} (g : GoalOf N) : string :=
  if Description (terms g) =s? "" then "your savings goal" else Description (terms g).

(** *** Streaks *)

Definition StreakMilestones : list Z := [4; 8; 12; 26; 52].

Record SavingsStreak := mkStreak {
  CurrentStreak : Z;
  LongestStreak : Z;
  LastDepositWeek : string;
  StreakNotified : list Z;
}.

Definition IsNewMilestone (s : SavingsStreak) (streakWeeks : Z) : bool :=
  existsb (λ m, m =? streakWeeks) StreakMilestones &&
  negb (existsb (λ m, m =? streakWeeks) (StreakNotified s)).

(** *** Schedules *)

Record ScheduleOf (N : Type) := mkSchedule {
  SchedID : Z;
  SchedUserID : Z;
  SchedGoalID : Z;
  SchedVaultID : Z;
  SchedAmount : N;
  SchedCurrency : string;
  SchedFrequency : Frequency;
  NextRunAt : Time;
  LastRunAt : option Time;
  IsActive : bool;
  OnchainMandateID : option Z;
  SchedCreatedAt : Time;
  SchedUpdatedAt : Time;
}.
Arguments mkSchedule {N}. Arguments SchedID {N}. Arguments SchedUserID {N}. Arguments SchedGoalID {N}.
Arguments SchedVaultID {N}. Arguments SchedAmount {N}. Arguments SchedCurrency {N}.
Arguments SchedFrequency {N}. Arguments NextRunAt {N}. Arguments LastRunAt {N}. Arguments IsActive {N}.
Arguments OnchainMandateID {N}. Arguments SchedCreatedAt {N}. Arguments SchedUpdatedAt {N}.

End SavingsDomain.
