(* ===== verification/SavingsStore.v ===== *)
(** The savings tables (migrations 026, 037 to 040, 041, 045, 047, 049, 052, 054, 068, 081,
    082, 095, 101, 110 and 111, and savings_streaks) beside the vaults', and the statements of
    src/apps/api/internal/repository/postgres/savings_goal_repository.go,
    savings_streak_repository.go and savings_schedule_repository.go. *)
From S2P Require Import Prelude Decimals Calendar Outbox Ledger VaultRepo VaultDomain VaultService SavingsDomain.
Open Scope Z_scope.

Module SavingsStore.
Import Decimals Ledger SavingsDomain.

(** *** Tables *)

(** A row of [savings_goal_deposits]. *)
Record GoalDepositRow := mkGoalDepositRow {
  GDepID : Z;
  GDepGoalID : Z;
  GDepUserID : Z;
  GDepAmount : Z;
  GDepCurrency : string;
  GDepCreatedAt : Time;
}.

(** A [TIMESTAMPTZ] column holds whole microseconds. *)
Definition timestamptz (t : Time) : Time := t - t mod 1000.

(** A [VARCHAR(n)] column holds at most [n] characters. *)
Definition fits (n : Z) (s : string) : bool := Z.of_nat (length (runes s)) <=? n.

(** The columns the repository selects, and those the scanner has destinations for. *)
Definition scan_destinations : list string :=
  ["id"; "user_id"; "vault_id"; "target_amount"; "currency"; "deadline"; "description"; "category";
   "notified_milestones"; "deadline_reminders_sent"; "created_at"; "updated_at"; "status";
   "completed_at"; "completion_action"; "name"; "emoji"; "share_token"; "share_enabled_at";
   "onchain_goal_id"; "onchain_status"; "min_contribution"; "max_contribution"; "deleted_at";
   "auto_compound"; "yield_balance"; "notes"].
Definition goal_columns : list string := scan_destinations.
(** [ListDeletedOlderThan] stops at [deleted_at]. *)
Definition listed_columns : list string :=
  ["id"; "user_id"; "vault_id"; "target_amount"; "currency"; "deadline"; "description"; "category";
   "notified_milestones"; "deadline_reminders_sent"; "created_at"; "updated_at"; "status";
   "completed_at"; "completion_action"; "name"; "emoji"; "share_token"; "share_enabled_at";
   "onchain_goal_id"; "onchain_status"; "min_contribution"; "max_contribution"; "deleted_at"].

Section store.
  Context `{DecimalOrderLaws} `{F : !DecimalFormat}.
  Context (scan_numeric : Z → decimal).

(** What the services tell the components that are handed an interface: the nudge
    engine, the streak notifier and the gamification engine. *)
Inductive Signal :=
| GoalCompletion (userID : Z) (at_ : Time)
| StreakMilestone (userID milestone : Z)
| ConfirmedDeposit (eventID : string) (userID : Z) (amount : decimal) (at_ : Time) (goalsCompleted : Z).

(** The vault service's world, the savings tables by primary key, the outbox. *)
Record World := mkWorld {
  vw : VaultService.State;
  goals : gmap Z (GoalOf Z);
  goal_deposits : list GoalDepositRow;
  schedules : gmap Z (ScheduleOf Z);
  streaks : gmap Z SavingsStreak;
  outbox : Outbox.Table;
  signals : list Signal;
}.

Definition with_vw w x := mkWorld x (goals w) (goal_deposits w) (schedules w) (streaks w) (outbox w) (signals w).
Definition with_goals w x := mkWorld (vw w) x (goal_deposits w) (schedules w) (streaks w) (outbox w) (signals w).
Definition with_goal_deposits w x := mkWorld (vw w) (goals w) x (schedules w) (streaks w) (outbox w) (signals w).
Definition with_schedules w x := mkWorld (vw w) (goals w) (goal_deposits w) x (streaks w) (outbox w) (signals w).
Definition with_streaks w x := mkWorld (vw w) (goals w) (goal_deposits w) (schedules w) x (outbox w) (signals w).
Definition with_outbox w x := mkWorld (vw w) (goals w) (goal_deposits w) (schedules w) (streaks w) x (signals w).
Definition with_signals w x := mkWorld (vw w) (goals w) (goal_deposits w) (schedules w) (streaks w) (outbox w) x.

Definition db (w : World) : VaultRepo.DB := VaultRepo.db (VaultService.session (vw w)).
Definition clock (w : World) : Time := VaultRepo.clock (VaultService.session (vw w)).

(** *** Operations *)

Definition M (A : Type) : Type := World → World * result SavErr A.

#[global] Instance M_ret : MRet M := λ A a w, (w, Ok a).
#[global] Instance M_bind : MBind M := λ A B k m w,
  match m w with
  | (w1, Ok a) => k a w1
  | (w1, Err e) => (w1, Err e)
  end.

Definition throw {A} (e : SavErr) : M A := λ w, (w, Err e).
Definition check (r : result SavErr unit) : M unit := λ w, (w, r).
Definition lift {A} (r : result SavErr A) : M A := λ w, (w, r).

(** An error the caller drops. *)
Definition ignoring (m : M unit) : M unit := λ w, (fst (m w), Ok ()).

Definition now : M Time := λ w, (w, Ok (clock w)).
Definition signal (s : Signal) : M unit := λ w, (with_signals w (signals w ++ [s]), Ok ()).

(** A call of the vault service or its repository. *)
Definition on_vaults {A} (m : VaultService.M A) : M A := λ w,
  let '(v, r) := m (vw w) in
  (with_vw w v, match r with Ok a => Ok a | Err e => Err (ErrVaults e) end).

Definition uuid_New : M Z := on_vaults VaultService.uuid_New.

Definition round_trip (w : World) : bool * World :=
  let '(lost, v) := VaultRepo.round_trip (VaultService.session (vw w)) in
  (lost, with_vw w (VaultService.with_session (vw w) v)).

Definition lost_connection : SavErr := ErrDb (VaultRepo.DbPg ConnectionFailure).

(** A statement. *)
Definition exec {A} (f : Time → World → result SavErr (World * A)) : M A := λ w,
  let '(lost, w1) := round_trip w in
  if lost then (w1, Err lost_connection)
  else match f (clock w1) w1 with
       | Ok (w2, a) => (w2, Ok a)
       | Err e => (w1, Err e)
       end.

Definition query {A} (f : World → A) : M A := exec (λ _ w, Ok (w, f w)).

(** The savings tables as they were. *)
Definition rollback (w0 w : World) : World :=
  mkWorld (vw w) (goals w0) (goal_deposits w0) (schedules w0) (streaks w0) (outbox w0) (signals w).

(** [Commit]: one whose answer is lost may have been carried out, as the next answer of
    the connection tells. *)
Definition commit {A} (w0 : World) (a : A) : M A := λ w,
  let '(lost, w1) := round_trip w in
  if lost
  then let '(carried_out, w2) := round_trip w1 in
       (if carried_out then w2 else rollback w0 w2, Err lost_connection)
  else (w1, Ok a).

(** [BeginTx], the deferred [Rollback], the body, [Commit]. *)
Definition atomically {A} (m : M A) : M A := λ w,
  let '(lost, w1) := round_trip w in
  if lost then (w1, Err lost_connection)
  else match m w1 with
       | (w2, Err e) => (rollback w1 w2, Err e)
       | (w2, Ok a) => commit w1 a w2
       end.

Definition numeric (p : Z) (d : decimal) : result SavErr Z :=
  match VaultRepo.numeric p (value d) with Ok z => Ok z | Err e => Err (ErrDb e) end.

Definition numeric_opt (p : Z) (d : option decimal) : result SavErr (option Z) :=
  match d with None => Ok None | Some d => let? z := numeric p d in Ok (Some z) end.

(** *** Goals *)

(** What an insert or update writes of a goal: the column types and checks, then the
    foreign key to the vault. *)
Definition store_terms (t : Terms decimal) (w : World) : result SavErr (Terms Z) :=
  let? target := numeric 48 (TargetAmount t) in
  let? min := numeric_opt 20 (MinContribution t) in
  let? max := numeric_opt 20 (MaxContribution t) in
  if negb (fits 50 (Category t) && fits 100 (Name t) && fits 10 (Emoji t)) then Err ErrStringTooLong
  else if target <=? 0 then Err (ErrDb (VaultRepo.DbPg CheckViolation))
  else if match VaultID t with Some v => negb (bool_decide (v ∈ vaults (VaultRepo.ledger (db w)))) | None => false end
  then Err (ErrDb (VaultRepo.DbFk "savings_goals_vault_id_fkey"))
  else Ok (mkTerms (VaultID t) target (Currency t) (timestamptz (Deadline t)) (Description t)
             (Category t) (Name t) (Emoji t) min max (AutoCompound t)).

Definition scan_terms (t : Terms Z) : Terms decimal :=
  mkTerms (VaultID t) (scan_numeric (TargetAmount t)) (Currency t) (Deadline t) (Description t)
    (Category t) (Name t) (Emoji t) (scan_numeric <$> MinContribution t)
    (scan_numeric <$> MaxContribution t) (AutoCompound t).

Definition scan_goal (g : GoalOf Z) : GoalOf decimal :=
  mkGoal (GoalID g) (GoalUserID g) (scan_terms (terms g)) (life g) (scan_numeric (YieldBalance g))
    (NotifiedMilestones g) (DeadlineRemindersSent g) (ShareToken g) (ShareEnabledAt g)
    (OnchainGoalID g) (OnchainStatus g) (Notes g) (CreatedAt g) (UpdatedAt g).

(** Every selected column needs a destination, and every destination a column. *)
Definition scanSavingsGoalWithShare (columns : list string) (g : GoalOf Z) : result SavErr (GoalOf decimal) :=
  if (length columns =? length scan_destinations)%nat then Ok (scan_goal g) else Err ErrScan.

Definition scan_row (columns : list string) (g : option (GoalOf Z)) : M (GoalOf decimal) :=
  match g with
  | None => throw ErrGoalNotFound
  | Some g => lift (scanSavingsGoalWithShare columns g)
  end.

(** The rows one by one; the first that does not scan ends the listing. *)
Fixpoint scan_rows (columns : list string) (l : list (GoalOf Z)) : result SavErr (list (GoalOf decimal)) :=
  match l with
  | [] => Ok []
  | g :: rest =>
      let? g := scanSavingsGoalWithShare columns g in
      let? rest := scan_rows columns rest in Ok (g :: rest)
  end.

Definition deleted {N} (g : GoalOf N) : bool := match DeletedAt (life g) with Some _ => true | None => false end.

Definition goal_rows (w : World) : list (GoalOf Z) := map snd (map_to_list (goals w)).

(** [INSERT INTO savings_goals]; the columns left out take their defaults. *)
Definition insert_goal (id userID : Z) (t : Terms decimal) (now : Time) (w : World)
  : result SavErr (World * GoalOf Z) :=
  let? t' := store_terms t w in
  if bool_decide (is_Some (goals w !! id)) then Err (ErrDb (VaultRepo.DbPg (UniqueViolation "savings_goals_pkey")))
  else if negb (bool_decide (userID ∈ users (VaultRepo.ledger (db w))))
  then Err (ErrDb (VaultRepo.DbFk "savings_goals_user_id_fkey"))
  else
    let g := mkGoal id userID
      (mkTerms (VaultID t') (TargetAmount t') (Currency t') (Deadline t') (Description t') (Category t')
         (Name t') (Emoji t') (MinContribution t') (MaxContribution t') true)
      (mkLife GoalStatusActive None "" None) 0 [] [] None None None None "" now now in
    Ok (with_goals w (<[id := g]> (goals w)), g).

(** The goal the code holds keeps its own terms but for what the insert returns. *)
Definition Goal_Create (id userID : Z) (t : Terms decimal) : M (GoalOf decimal) :=
  g ← exec (insert_goal id userID t);
  mret (mkGoal id userID
    (mkTerms (VaultID t) (TargetAmount t) (Currency t) (Deadline t) (Description t) (Category t)
       (Name t) (Emoji t) (MinContribution t) (MaxContribution t) (AutoCompound (terms g)))
    (life g) (scan_numeric (YieldBalance g)) [] [] None None None None "" (CreatedAt g) (UpdatedAt g)).

(** [UPDATE savings_goals SET ..., updated_at = NOW() WHERE id = ... AND p]. *)
Definition update_goal (id : Z) (p : GoalOf Z → bool)
    (f : Time → World → GoalOf Z → result SavErr (GoalOf Z)) : M unit :=
  n ← exec (λ now w,
    match goals w !! id with
    | Some g => if p g then let? g' := f now w g in
                            Ok (with_goals w (<[id := with_updated g' now]> (goals w)), 1)
                else Ok (w, 0)
    | None => Ok (w, 0)
    end);
  if n =? 0 then throw ErrGoalNotFound else mret ().

Definition owned_by (userID : Z) (g : GoalOf Z) : bool := GoalUserID g =? userID.

Definition SetShareToken (goalID userID token : Z) : M unit :=
  update_goal goalID (owned_by userID) (λ now w g,
    if existsb (λ k, negb (GoalID k =? goalID) && bool_decide (ShareToken k = Some token)) (goal_rows w)
    then Err (ErrDb (VaultRepo.DbPg (UniqueViolation "idx_savings_goals_share_token")))
    else Ok (with_share g (Some token) (Some now))).

Definition ClearShareToken (goalID userID : Z) : M unit :=
  update_goal goalID (owned_by userID) (λ _ _ g, Ok (with_share g None None)).

Definition Goal_Update (g : GoalOf decimal) : M unit :=
  update_goal (GoalID g) (λ r, owned_by (GoalUserID g) r && negb (deleted r))
    (λ _ w r, let? t := store_terms (terms g) w in Ok (with_terms r t)).

Definition Goal_Delete (id userID : Z) : M unit :=
  update_goal id (λ r, owned_by userID r && negb (deleted r))
    (λ now _ r, Ok (with_life r (with_deleted (life r) (Some now)))).

Definition Goal_Restore (id userID : Z) : M unit :=
  update_goal id (λ r, owned_by userID r && deleted r)
    (λ _ _ r, Ok (with_life r (with_deleted (life r) None))).

Definition UpdateStatus (goalID userID : Z) (s : GoalStatus) : M unit :=
  update_goal goalID (owned_by userID) (λ _ _ r, Ok (with_life r (with_status (life r) s))).

Definition MarkCompleted (goalID userID : Z) (action : string) : M unit :=
  update_goal goalID (owned_by userID) (λ now _ r,
    if fits 20 action
    then Ok (with_life r (mkLife GoalStatusCompleted (Some now) action (DeletedAt (life r))))
    else Err ErrStringTooLong).

Definition UpdateMilestones (goalID : Z) (milestones : list Z) : M unit :=
  update_goal goalID (λ _, true) (λ _ _ r, Ok (with_notified r milestones)).

Definition UpdateDeadlineReminders (goalID : Z) (reminders : list Z) : M unit :=
  update_goal goalID (λ _, true) (λ _ _ r, Ok (with_reminders r reminders)).

Definition UpdateOnchainLink (goalID : Z) (onchainGoalID onchainStatus : string) : M unit :=
  update_goal goalID (λ _, true) (λ _ w r,
    if existsb (λ k, negb (GoalID k =? goalID) && bool_decide (OnchainGoalID k = Some onchainGoalID)) (goal_rows w)
    then Err (ErrDb (VaultRepo.DbPg (UniqueViolation "idx_savings_goals_onchain_goal_id")))
    else Ok (with_onchain r (Some onchainGoalID) (Some onchainStatus))).

Definition Goal_UpdateNotes (goalID : Z) (notes : string) : M unit :=
  update_goal goalID (λ _, true) (λ _ _ r, Ok (with_notes r notes)).

(** [yield_balance + $1::numeric] in a [NUMERIC(48, 8)] column. *)
Definition CreditYieldBalance (goalID : Z) (amount : decimal) : M unit :=
  update_goal goalID (λ _, true) (λ _ _ r,
    match VaultRepo.numeric 48 (VaultRepo.col (YieldBalance r) + value amount)%Q with
    | Ok y => Ok (with_yield r y)
    | Err e => Err (ErrDb e)
    end).

Definition GetByID (id : Z) : M (GoalOf decimal) :=
  g ← query (λ w, match goals w !! id with
                  | Some g => if deleted g then None else Some g | None => None end);
  scan_row goal_columns g.

Definition GetByIDIncludingDeleted (id : Z) : M (GoalOf decimal) :=
  g ← query (λ w, goals w !! id);
  scan_row goal_columns g.

Definition GetByShareToken (token : Z) : M (GoalOf decimal) :=
  g ← query (λ w, head (filter (λ g, ShareToken g = Some token ∧ deleted g = false) (goal_rows w)));
  scan_row goal_columns g.

(** Rows of the same time come in any order. *)
Definition created_le (a b : GoalOf Z) : Prop := CreatedAt a ≤ CreatedAt b.
#[global] Instance created_le_dec a b : Decision (created_le a b) := Z_le_dec _ _.
Definition created_ge (a b : GoalOf Z) : Prop := CreatedAt b ≤ CreatedAt a.
#[global] Instance created_ge_dec a b : Decision (created_ge a b) := Z_le_dec _ _.

Definition GetByVaultID (vaultID : Z) : M (GoalOf decimal) :=
  g ← query (λ w, head (merge_sort created_le
         (filter (λ g, VaultID (terms g) = Some vaultID ∧ deleted g = false) (goal_rows w))));
  scan_row goal_columns g.

(** [matches] is the full-text search. *)
Definition ListByUser (matches : string → GoalOf Z → bool) (userID : Z) (category search : string)
  : M (list (GoalOf decimal)) :=
  l ← query (λ w, merge_sort created_ge
        (filter (λ g, GoalUserID g = userID ∧ deleted g = false ∧
                      (category = ""%string ∨ Category (terms g) = category) ∧
                      (search = ""%string ∨ matches search g = true)) (goal_rows w)));
  lift (scan_rows goal_columns l).

Definition deleted_before (cutoff : Time) (g : GoalOf Z) : bool :=
  match DeletedAt (life g) with Some t => t <? cutoff | None => false end.

Definition ListDeletedOlderThan (cutoff : Time) : M (list (GoalOf decimal)) :=
  l ← query (λ w, List.filter (deleted_before cutoff) (goal_rows w));
  lift (scan_rows listed_columns l).

Definition ListActiveGoalUserIDs : M (list Z) :=
  query (λ w, elements (list_to_set (map GoalUserID
    (filter (λ g, Status (life g) = GoalStatusActive) (goal_rows w))) : gset Z)).

(** The row goes, and what references it with [ON DELETE CASCADE]. *)
Definition HardDelete (id : Z) : M unit :=
  n ← exec (λ _ w, match goals w !! id with
    | Some g => if deleted g
        then Ok (with_schedules (with_goal_deposits (with_goals w (delete id (goals w)))
                   (filter (λ d, GDepGoalID d ≠ id) (goal_deposits w)))
                   (filter (λ r, SchedGoalID r.2 ≠ id) (schedules w)), 1)
        else Ok (w, 0)
    | None => Ok (w, 0)
    end);
  if n =? 0 then throw ErrGoalNotFound else mret ().

(** [SUM(current_balance)] over the user's active vaults of the currency. *)
Definition counted_vault (userID : Z) (currency : string) (w : World) (r : Z * VaultRepo.VaultRow) : bool :=
  (VaultRepo.RowUserID r.2 =? userID) && VaultRepo.live r.2 &&
  match VaultService.cols (vw w) !! r.1 with
  | Some c => bool_decide (VaultService.ColStatus c = VaultDomain.StatusActive) &&
              ((currency =s? "") || (VaultService.ColCurrency c =s? currency))
  | None => false
  end.

Definition vault_balance (userID : Z) (currency : string) (w : World) : Z :=
  sum_Z (map (λ r, VaultRepo.CurrentBalance r.2)
    (List.filter (counted_vault userID currency w) (map_to_list (VaultRepo.rows (db w))))).

Definition SumVaultBalance (userID : Z) (currency : string) : M decimal :=
  total ← query (vault_balance userID currency); mret (scan_numeric total).

(** The deposits into the user's live vaults of the currency. *)
Definition recent_deposit (userID : Z) (currency : string) (since : Time) (w : World) (t : VaultRepo.TxRow) : bool :=
  (VaultRepo.TxType t =s? "deposit") && (since <=? VaultRepo.TxCreatedAt t) &&
  match VaultRepo.live_vault (VaultRepo.TxVaultID t) (db w), VaultService.cols (vw w) !! VaultRepo.TxVaultID t with
  | Some r, Some c => (VaultRepo.RowUserID r =? userID) && (VaultService.ColCurrency c =s? currency)
  | _, _ => false
  end.

Definition SumRecentDeposits (userID : Z) (currency : string) (since : Time) : M decimal :=
  total ← query (λ w, sum_Z (map VaultRepo.TxAmount
             (List.filter (recent_deposit userID currency since w) (VaultRepo.txs (db w)))));
  mret (scan_numeric total).

(** *** Deposits split over goals *)

Record GoalDeposit := mkGoalDeposit {
  DepID : Z;
  DepGoalID : Z;
  DepUserID : Z;
  DepAmount : decimal;
  DepCurrency : string;
}.

Definition insert_goal_deposit (d : GoalDeposit) (now : Time) (w : World) : result SavErr (World * unit) :=
  let? amount := numeric 48 (DepAmount d) in
  if negb (fits 10 (DepCurrency d)) then Err ErrStringTooLong
  else if amount <=? 0 then Err (ErrDb (VaultRepo.DbPg CheckViolation))
  else if existsb (λ r, GDepID r =? DepID d) (goal_deposits w)
  then Err (ErrDb (VaultRepo.DbPg (UniqueViolation "savings_goal_deposits_pkey")))
  else if negb (bool_decide (is_Some (goals w !! DepGoalID d)))
  then Err (ErrDb (VaultRepo.DbFk "savings_goal_deposits_goal_id_fkey"))
  else if negb (bool_decide (DepUserID d ∈ users (VaultRepo.ledger (db w))))
  then Err (ErrDb (VaultRepo.DbFk "savings_goal_deposits_user_id_fkey"))
  else Ok (with_goal_deposits w (goal_deposits w ++
         [mkGoalDepositRow (DepID d) (DepGoalID d) (DepUserID d) amount (DepCurrency d) now]), ()).

Fixpoint insert_goal_deposits (l : list GoalDeposit) : M unit :=
  match l with
  | [] => mret ()
  | d :: rest => exec (insert_goal_deposit d) ;; insert_goal_deposits rest
  end.

(** The statement is prepared once for all the rows. *)
Definition RecordGoalDeposits (deposits : list GoalDeposit) : M unit :=
  atomically (query (λ _, ()) ;; insert_goal_deposits deposits).

Definition goal_total (goalID : Z) (w : World) : Z :=
  sum_Z (map GDepAmount (List.filter (λ d, GDepGoalID d =? goalID) (goal_deposits w))).

Definition SumGoalDeposits (goalID : Z) : M decimal :=
  total ← query (goal_total goalID); mret (scan_numeric total).

(** *** Milestones with their outbox events *)

Section milestones.
  Context (json_valid : string → bool).

Definition key_recorded (t : Outbox.Table) (key : string) : bool :=
  existsb (λ k, Outbox.DedupeKey k =s? key) (Outbox.rows t).

(** [Writer.Insert] of an event in the open transaction: a key that is recorded is left
    alone, an id that is taken is a violation of the primary key. *)
Definition insert_event (id : Z) (e : Outbox.Event) (now : Time) (w : World) : result SavErr (World * unit) :=
  match Outbox.Writer_Insert json_valid true id (outbox w) e now now with
  | (_, Some e) => Err (ErrOutbox e)
  | (t, None) =>
      if negb (key_recorded (outbox w) (Outbox.DedupeKey e)) &&
         bool_decide (is_Some (outbox w !! (if Outbox.EvID e =? 0 then id else Outbox.EvID e)))
      then Err (ErrDb (VaultRepo.DbPg (UniqueViolation "outbox_pkey")))
      else Ok (with_outbox w t, ())
  end.

Fixpoint insert_events (l : list Outbox.Event) : M unit :=
  match l with
  | [] => mret ()
  | e :: rest => id ← uuid_New; exec (insert_event id e) ;; insert_events rest
  end.

Definition UpdateMilestonesWithOutbox (goalID : Z) (milestones : list Z) (events : list Outbox.Event) : M unit :=
  atomically (UpdateMilestones goalID milestones ;; insert_events events).
End milestones.

(** *** Streaks *)

Definition Streak_Get (userID : Z) : M (option SavingsStreak) := query (λ w, streaks w !! userID).

Definition Streak_Upsert (userID : Z) (s : SavingsStreak) : M unit :=
  exec (λ _ w, if bool_decide (userID ∈ users (VaultRepo.ledger (db w)))
               then Ok (with_streaks w (<[userID := s]> (streaks w)), ())
               else Err (ErrDb (VaultRepo.DbFk "savings_streaks_user_id_fkey"))).

(** *** Schedules *)

Definition scan_schedule (r : ScheduleOf Z) : ScheduleOf decimal :=
  mkSchedule (SchedID r) (SchedUserID r) (SchedGoalID r) (SchedVaultID r) (scan_numeric (SchedAmount r))
    (SchedCurrency r) (SchedFrequency r) (NextRunAt r) (LastRunAt r) (IsActive r) (OnchainMandateID r)
    (SchedCreatedAt r) (SchedUpdatedAt r).

Definition schedule_rows (w : World) : list (ScheduleOf Z) := map snd (map_to_list (schedules w)).

(** The partial unique index [idx_savings_schedules_one_active_per_goal]. *)
Definition goal_has_active (id goalID : Z) (w : World) : bool :=
  existsb (λ r, negb (SchedID r =? id) && (SchedGoalID r =? goalID) && IsActive r) (schedule_rows w).

(** The columns a write sets, checked. *)
Definition store_amount (amount : decimal) (currency : string) : result SavErr Z :=
  let? a := numeric 48 amount in
  if negb (fits 10 currency) then Err ErrStringTooLong
  else if a <=? 0 then Err (ErrDb (VaultRepo.DbPg CheckViolation))
  else Ok a.

Definition insert_schedule (s : ScheduleOf decimal) (now : Time) (w : World) : result SavErr (World * ScheduleOf Z) :=
  let? a := store_amount (SchedAmount s) (SchedCurrency s) in
  if bool_decide (is_Some (schedules w !! SchedID s))
  then Err (ErrDb (VaultRepo.DbPg (UniqueViolation "savings_schedules_pkey")))
  else if IsActive s && goal_has_active (SchedID s) (SchedGoalID s) w
  then Err (ErrDb (VaultRepo.DbPg (UniqueViolation "idx_savings_schedules_one_active_per_goal")))
  else if negb (bool_decide (SchedUserID s ∈ users (VaultRepo.ledger (db w))))
  then Err (ErrDb (VaultRepo.DbFk "savings_schedules_user_id_fkey"))
  else if negb (bool_decide (is_Some (goals w !! SchedGoalID s)))
  then Err (ErrDb (VaultRepo.DbFk "savings_schedules_goal_id_fkey"))
  else if negb (bool_decide (SchedVaultID s ∈ vaults (VaultRepo.ledger (db w))))
  then Err (ErrDb (VaultRepo.DbFk "savings_schedules_vault_id_fkey"))
  else
    let r := mkSchedule (SchedID s) (SchedUserID s) (SchedGoalID s) (SchedVaultID s) a (SchedCurrency s)
      (SchedFrequency s) (timestamptz (NextRunAt s)) None (IsActive s) (OnchainMandateID s) now now in
    Ok (with_schedules w (<[SchedID s := r]> (schedules w)), r).

(** The violation of the partial index is told apart from the others. *)
Definition map_schedule_error (e : SavErr) : SavErr :=
  match e with
  | ErrDb (VaultRepo.DbPg (UniqueViolation c)) =>
      if Contains c "idx_savings_schedules_one_active_per_goal" then ErrActiveScheduleExists else e
  | _ => e
  end.

Definition Schedule_Create (s : ScheduleOf decimal) : M (ScheduleOf decimal) := λ w,
  match exec (insert_schedule s) w with
  | (w1, Ok r) => (w1, Ok (mkSchedule (SchedID s) (SchedUserID s) (SchedGoalID s) (SchedVaultID s)
                            (SchedAmount s) (SchedCurrency s) (SchedFrequency s) (NextRunAt s)
                            (LastRunAt s) (IsActive s) (OnchainMandateID s) (SchedCreatedAt r) (SchedUpdatedAt r)))
  | (w1, Err e) => (w1, Err (map_schedule_error e))
  end.

Definition sched_created_ge (a b : ScheduleOf Z) : Prop := SchedCreatedAt b ≤ SchedCreatedAt a.
#[global] Instance sched_created_ge_dec a b : Decision (sched_created_ge a b) := Z_le_dec _ _.
Definition next_run_le (a b : ScheduleOf Z) : Prop := NextRunAt a ≤ NextRunAt b.
#[global] Instance next_run_le_dec a b : Decision (next_run_le a b) := Z_le_dec _ _.

Definition ListByGoal (goalID userID : Z) : M (list (ScheduleOf decimal)) :=
  query (λ w, map scan_schedule (merge_sort sched_created_ge
    (List.filter (λ r, (SchedGoalID r =? goalID) && (SchedUserID r =? userID)) (schedule_rows w)))).

Definition Schedule_GetByID (id : Z) : M (ScheduleOf decimal) :=
  r ← query (λ w, schedules w !! id);
  match r with Some r => mret (scan_schedule r) | None => throw ErrScheduleNotFound end.

Definition active_for (goalID userID : Z) (r : ScheduleOf Z) : bool :=
  (SchedGoalID r =? goalID) && (SchedUserID r =? userID) && IsActive r.

Definition GetActiveByGoal (goalID userID : Z) : M (option (ScheduleOf decimal)) :=
  query (λ w, scan_schedule <$> head (merge_sort sched_created_ge
    (List.filter (active_for goalID userID) (schedule_rows w)))).

Definition set_active (a : bool) (now : Time) (r : ScheduleOf Z) : ScheduleOf Z :=
  mkSchedule (SchedID r) (SchedUserID r) (SchedGoalID r) (SchedVaultID r) (SchedAmount r) (SchedCurrency r)
    (SchedFrequency r) (NextRunAt r) (LastRunAt r) a (OnchainMandateID r) (SchedCreatedAt r) now.

(** [UPDATE savings_schedules SET ... WHERE p]: all the matching rows. *)
Definition update_schedules (p : ScheduleOf Z → bool) (f : Time → ScheduleOf Z → ScheduleOf Z) : M unit :=
  n ← exec (λ now w, Ok (with_schedules w ((λ r, if p r then f now r else r) <$> schedules w),
                         length (List.filter p (schedule_rows w))));
  if (n =? 0)%nat then throw ErrScheduleNotFound else mret ().

Definition CancelActiveByGoal (goalID userID : Z) : M unit :=
  update_schedules (active_for goalID userID) (set_active false).

Definition Schedule_Cancel (scheduleID goalID userID : Z) : M unit :=
  update_schedules (λ r, (SchedID r =? scheduleID) && active_for goalID userID r) (set_active false).

Definition Deactivate (id : Z) : M unit :=
  update_schedules (λ r, SchedID r =? id) (set_active false).

Definition UpdateAfterRun (id : Z) (lastRunAt nextRunAt : Time) : M unit :=
  update_schedules (λ r, (SchedID r =? id) && IsActive r) (λ now r,
    mkSchedule (SchedID r) (SchedUserID r) (SchedGoalID r) (SchedVaultID r) (SchedAmount r) (SchedCurrency r)
      (SchedFrequency r) (timestamptz nextRunAt) (Some (timestamptz lastRunAt)) (IsActive r)
      (OnchainMandateID r) (SchedCreatedAt r) now).

(** The update changes the row of the primary key, with its checks. *)
Definition Schedule_Update (s : ScheduleOf decimal) : M unit :=
  n ← exec (λ now w,
    match schedules w !! SchedID s with
    | Some r =>
        if (SchedUserID r =? SchedUserID s) && (SchedGoalID r =? SchedGoalID s) && IsActive r then
          let? a := store_amount (SchedAmount s) (SchedCurrency s) in
          if negb (bool_decide (SchedVaultID s ∈ vaults (VaultRepo.ledger (db w))))
          then Err (ErrDb (VaultRepo.DbFk "savings_schedules_vault_id_fkey"))
          else
            Ok (with_schedules w (<[SchedID s := mkSchedule (SchedID r) (SchedUserID r) (SchedGoalID r)
                 (SchedVaultID s) a (SchedCurrency s) (SchedFrequency s) (NextRunAt r) (LastRunAt r)
                 (IsActive r) (OnchainMandateID r) (SchedCreatedAt r) now]> (schedules w)), 1)
        else Ok (w, 0)
    | None => Ok (w, 0)
    end);
  if n =? 0 then throw ErrScheduleNotFound else mret ().

(** The active schedules that are due, the longest due first. *)
Definition ListDue (now : Time) : M (list (ScheduleOf decimal)) :=
  query (λ w, map scan_schedule (merge_sort next_run_le
    (List.filter (λ r, IsActive r && (NextRunAt r <=? now)) (schedule_rows w)))).

End store.

End SavingsStore.
