(* ===== verification/SavingsGoals.v ===== *)
(** The savings goal service (src/apps/api/internal/service/savings_goal_service.go) over the
    postgres repositories, the milestone events it records
    (service/goal_milestone_outbox.go, goal_milestone_notifier.go) and the job that purges deleted
    goals (scheduler/savings_goal_purge.go). *)
From S2P Require Import Prelude TimeFormat Decimals Calendar Outbox Ledger VaultRepo VaultDomain VaultService SavingsDomain SavingsStore.
Open Scope Z_scope.

Module SavingsGoals.
Import Decimals SavingsDomain SavingsStore.

(** *** Floating point as the service uses it *)

Definition float64_add (x y : float64) : float64 := SpecFloat.SFadd 53 1024 x y.

(** [int(math.Ceil(f))]; amd64 gives the least integer for a value out of range. *)
Definition int_ceil (f : float64) : Z :=
  match f with
  | SpecFloat.S754_zero _ => 0
  | SpecFloat.S754_finite s m e =>
      let z := if s then Z.neg m else Z.pos m in
      let c := if 0 <=? e then z * 2 ^ e else - ((- z) / 2 ^ (- e)) in
      if (min_i64 <=? c) && (c <=? max_i64) then c else min_i64
  | _ => min_i64
  end.

(** [d.Hours()]. *)
Definition Hours (d : Duration) : float64 :=
  float64_add (float64_of (Z.quot d Hour)) (float64_div (float64_of (Z.rem d Hour)) (float64_of 3600000000000)).

(** A stable sort: an element goes before the first that does not precede it. *)
Fixpoint insert_stable {A} (less : A → A → bool) (x : A) (l : list A) : list A :=
  match l with
  | [] => [x]
  | y :: rest => if less y x then y :: insert_stable less x rest else x :: y :: rest
  end.

Definition stable_sort {A} (less : A → A → bool) (l : list A) : list A :=
  foldr (insert_stable less) [] l.

Section service.
  Context `{DecimalOrderLaws} `{F : !DecimalFormat}.
  Context (scan_numeric : Z → decimal) (uuid_String : Z → string).
  (** The decimal package's conversions to and from [float64]. *)
  Context (Float64 : decimal → float64) (NewFromFloat : float64 → decimal).
  (** [json.Valid], the encoding of a milestone's payload, the Unicode symbol
      categories, the full-text search. *)
  Context (json_valid : string → bool).
  Context (marshal_milestone : GoalOf decimal → decimal → float64 → Z → string → option string).
  Context (unicode_symbol : Z → bool).
  Context (matches : string → GoalOf Z → bool).

Record GoalTemplate := mkTemplate {
  TplID : Z;
  TplName : string;
  TplDescription : string;
  TplCategory : string;
  SuggestedAmount : decimal;
  TplCurrency : string;
  SuggestedMonths : Z;
}.

(** The optional collaborators; the repository is the postgres one. *)
Record SavingsGoalService := mkGoalService {
  templateRepo : option (list GoalTemplate);
  vaultRepo : bool;
  streakRepo : bool;
  gamification : bool;
  outcomeRec : bool;
}.

(** A goal with what [EnrichProgress] adds to it. *)
Record Enriched := mkEnriched {
  goal : GoalOf decimal;
  CurrentAmount : decimal;
  ProgressPct : float64;
  AvgWeeklyDeposit : decimal;
  ProjectedDaysToComplete : option Z;
  OnTrack : bool;
}.

(** *** Validation *)

(** 0.01 *)
Definition MinTargetAmount : decimal := Div (NewFromInt 1) (NewFromInt 100).
Definition MinDeadlineLeadTime : Duration := 24 * Hour.
Definition MaxGoalNameLength : Z := 100.

Definition validateGoalName (name : string) : result SavErr unit :=
  if MaxGoalNameLength <? Z.of_nat (length (runes name)) then Err ErrInvalidGoal else Ok ().

Definition validateSavingsGoalInput (target : decimal) (currency : string) : result SavErr unit :=
  if negb (IsPositive target) then Err ErrInvalidAmount
  else if LessThan target MinTargetAmount then Err ErrInvalidAmount
  else if TrimSpace currency =s? "" then Err ErrInvalidGoal
  else if negb (IsSupportedCurrency (NormalizeCurrency (TrimSpace currency))) then Err ErrInvalidGoal
  else Ok ().

Definition validateCreateDeadline (deadline now : Time) : result SavErr unit :=
  if negb (time_after deadline now) then Err ErrInvalidGoal
  else if time_before deadline (time_add now MinDeadlineLeadTime) then Err ErrInvalidGoal
  else Ok ().

Definition resolveCategory (value : string) (defaultIfEmpty : bool) : result SavErr string :=
  if TrimSpace value =s? "" then (if defaultIfEmpty then Ok CategoryOther else Err ErrInvalidGoal)
  else ParseCategory value.

(** The call's own error, for the caller to look at. *)
Definition try_vault (id : Z) : M (result VaultService.SvcErr VaultDomain.Vault) := λ w,
  let '(v, r) := VaultService.GetVault scan_numeric id (vw w) in (with_vw w v, Ok r).

Definition validateGoalVault (svc : SavingsGoalService) (userID vaultID : Z) (currency : string) : M unit :=
  if negb (vaultRepo svc) then throw ErrInvalidGoal
  else
    r ← try_vault vaultID;
    match r with
    | Err (VaultService.Repo VaultRepo.ErrVaultNotFound) => throw ErrUnauthorized
    | Err e => throw (ErrVaults e)
    | Ok v =>
        if negb (VaultDomain.VaultUserID v =? userID) then throw ErrUnauthorized
        else if negb (NormalizeCurrency (VaultDomain.Currency v) =s? currency) then throw ErrInvalidGoal
        else mret ()
    end.

(** *** Progress *)

(** A linked vault's balance, or that of every active vault of the user in the
    currency. *)
Definition currentAmount (svc : SavingsGoalService) (g : GoalOf decimal) : M decimal :=
  let fallback := SumVaultBalance scan_numeric (GoalUserID g) (Currency (terms g)) in
  match VaultID (terms g) with
  | Some id =>
      if vaultRepo svc then
        r ← try_vault id;
        match r with
        | Ok v => mret (VaultDomain.CurrentBalance v)
        | Err (VaultService.Repo VaultRepo.ErrVaultNotFound) => fallback
        | Err e => throw (ErrVaults e)
        end
      else fallback
  | None => fallback
  end.

Definition MilestoneDedupeKey (goalID milestone : Z) : string :=
  ("savings_goal:" +:+ uuid_String goalID +:+ ":milestone:" +:+ TimeFormat.itoa milestone)%string.

Definition OutboxEventGoalMilestone : string := "savings_goal.milestone".

Definition NewGoalMilestoneEvent (newID : Z) (g : GoalOf decimal) (balance : decimal) (pct : float64) (milestone : Z)
  : result Outbox.OutboxError Outbox.Event :=
  let dedupeKey := MilestoneDedupeKey (GoalID g) milestone in
  Outbox.NewEvent json_valid newID "savings_goal" (uuid_String (GoalID g)) OutboxEventGoalMilestone dedupeKey
    (marshal_milestone g balance pct milestone dedupeKey).

Fixpoint milestone_events (g : GoalOf decimal) (balance : decimal) (pct : float64) (l : list Z) : M (list Outbox.Event) :=
  match l with
  | [] => mret []
  | m :: rest =>
      id ← uuid_New;
      match NewGoalMilestoneEvent id g balance pct m with
      | Err e => throw (ErrOutbox e)
      | Ok e => es ← milestone_events g balance pct rest; mret (e :: es)
      end
  end.

(** The flags and the events that announce them commit together. *)
Definition recordMilestones (g : GoalOf decimal) (balance : decimal) (pct : float64) (newMilestones : list Z) : M unit :=
  events ← milestone_events g balance pct newMilestones;
  UpdateMilestonesWithOutbox json_valid (GoalID g) (NotifiedMilestones g) events.

Definition clamp_pct (pct : float64) : float64 :=
  let pct := if float64_ltb (float64_of 100) pct then float64_of 100 else pct in
  if float64_ltb pct float64_zero then float64_zero else pct.

Definition quo (a b : decimal) : M decimal := if IsZero b then throw Panic else mret (Div a b).

(** [30.0 / 7.0] as the decimal of the nearest [float64]. *)
Definition weeksInWindow : decimal := NewFromFloat (float64_div (float64_of 30) (float64_of 7)).

Definition progress_pct (balance target : decimal) : float64 :=
  Float64 (Mul (Div balance target) (NewFromInt 100)).

(** An active goal that reached its target is marked, whatever the outcome of the
    statement. *)
Definition auto_complete (svc : SavingsGoalService) (g : GoalOf decimal) (balance : decimal) : M (GoalOf decimal) :=
  if bool_decide (Status (life g) = GoalStatusActive) && IsPositive (TargetAmount (terms g)) &&
     GreaterThanOrEqual balance (TargetAmount (terms g)) &&
     match CompletedAt (life g) with None => true | Some _ => false end
  then
    ignoring (MarkCompleted (GoalID g) (GoalUserID g) "") ;;
    t ← now;
    (if outcomeRec svc then signal (GoalCompletion (GoalUserID g) t) else mret ()) ;;
    mret (with_life g (mkLife GoalStatusCompleted (Some t) (CompletionAction (life g)) (DeletedAt (life g))))
  else mret g.

Definition announce (g : GoalOf decimal) (balance : decimal) (pct : float64) : M (GoalOf decimal) :=
  match DetectNewMilestones pct (NotifiedMilestones g) with
  | [] => mret g
  | new =>
      let g' := with_notified g (NotifiedMilestones g ++ new) in
      recordMilestones g' balance pct new ;; mret g'
  end.

(** The average weekly deposit of the last thirty days and what it projects. *)
Definition velocity (g : GoalOf decimal) (balance : decimal) : M (decimal * option Z * bool) :=
  t ← now;
  deposited30d ← SumRecentDeposits scan_numeric (GoalUserID g) (Currency (terms g)) (time_add t (- (30 * 24 * Hour)));
  avg ← (if IsPositive weeksInWindow
         then q ← quo deposited30d weeksInWindow; mret (Round q 8)
         else mret Zero);
  let remaining := Sub (TargetAmount (terms g)) balance in
  if IsPositive avg && IsPositive remaining then
    dailyRate ← quo avg (NewFromInt 7);
    q ← quo remaining dailyRate;
    let days := int_ceil (Float64 q) in
    let daysUntilDeadline := int_ceil (float64_div (Hours (time_sub (Deadline (terms g)) t)) (float64_of 24)) in
    mret (avg, Some days, days <=? daysUntilDeadline)
  else mret (avg, None, IsZero remaining || IsNegative remaining).

Definition EnrichProgress (svc : SavingsGoalService) (g : GoalOf decimal) : M Enriched :=
  balance ← currentAmount svc g;
  let pct := if IsPositive (TargetAmount (terms g))
             then clamp_pct (progress_pct balance (TargetAmount (terms g))) else float64_zero in
  g1 ← auto_complete svc g balance;
  g2 ← announce g1 balance pct;
  v ← velocity g2 balance;
  let '(avg, days, onTrack) := v in
  mret (mkEnriched g2 balance pct avg days onTrack).

(** *** The owner's requests *)

Definition found (g : GoalOf decimal) (userID : Z) : M unit :=
  if negb (GoalUserID g =? userID) then throw ErrGoalNotFound else mret ().

Record CreateSavingsGoalInput := mkCreateGoal {
  InTargetAmount : decimal;
  InCurrency : string;
  InDeadline : Time;
  InDescription : string;
  InCategory : string;
  InName : string;
  InEmoji : string;
  InVaultID : option Z;
  InMinContribution : option decimal;
  InMaxContribution : option decimal;
}.

(** Without a name the first fifty characters of the description. *)
Definition default_name (name desc : string) : string :=
  if (name =s? "") && negb (desc =s? "") then
    if (50 <? length (runes desc))%nat then string_of_runes (take 50 (runes desc)) else desc
  else name.

Definition Create (svc : SavingsGoalService) (userID : Z) (in_ : CreateSavingsGoalInput) : M Enriched :=
  check (validateSavingsGoalInput (InTargetAmount in_) (InCurrency in_)) ;;
  t ← now;
  check (validateCreateDeadline (InDeadline in_) t) ;;
  category ← lift (resolveCategory (InCategory in_) true);
  let emoji := TrimSpace (InEmoji in_) in
  check (ValidateEmoji unicode_symbol emoji) ;;
  let desc := TrimSpace (InDescription in_) in
  let name := TrimSpace (InName in_) in
  check (validateGoalName name) ;;
  check (ValidateContributionLimits (InMinContribution in_) (InMaxContribution in_)) ;;
  id ← uuid_New;
  let currency := NormalizeCurrency (InCurrency in_) in
  match InVaultID in_ with
  | Some v => validateGoalVault svc userID v currency
  | None => mret ()
  end ;;
  g ← Goal_Create scan_numeric id userID
        (mkTerms (InVaultID in_) (InTargetAmount in_) currency (InDeadline in_) desc category
           (default_name name desc) emoji (InMinContribution in_) (InMaxContribution in_) false);
  EnrichProgress svc g.

Record CreateFromTemplateInput := mkFromTemplate {
  InTemplateID : Z;
  OverrideAmount : option decimal;
  OverrideMonths : option Z;
  TplVaultID : option Z;
}.

Definition Template_GetByID (l : list GoalTemplate) (id : Z) : M GoalTemplate :=
  r ← query (λ _, List.find (λ t, TplID t =? id) l);
  match r with Some t => mret t | None => throw ErrGoalNotFound end.

Definition CreateFromTemplate (svc : SavingsGoalService) (userID : Z) (in_ : CreateFromTemplateInput) : M Enriched :=
  match templateRepo svc with
  | None => throw ErrTemplatesNotConfigured
  | Some l =>
      template ← Template_GetByID l (InTemplateID in_);
      t ← now;
      let amount := default (SuggestedAmount template) (OverrideAmount in_) in
      let months := default (SuggestedMonths template) (OverrideMonths in_) in
      Create svc userID (mkCreateGoal amount (TplCurrency template) (Calendar.AddDate t 0 months 0)
        (TplDescription template) (TplCategory template) (TplName template) "" (TplVaultID in_) None None)
  end.

Definition Get (svc : SavingsGoalService) (userID goalID : Z) : M Enriched :=
  g ← GetByID scan_numeric goalID;
  found g userID ;;
  EnrichProgress svc g.

Record UpdateSavingsGoalInput := mkUpdateGoal {
  UpTargetAmount : option decimal;
  UpCurrency : option string;
  UpDeadline : option Time;
  UpDescription : option string;
  UpCategory : option string;
  UpName : option string;
  UpEmoji : option string;
  UpAutoCompound : option bool;
  UpMinContribution : option decimal;
  UpMaxContribution : option decimal;
  ClearMinContribution : bool;
  ClearMaxContribution : bool;
}.

(** The deadline of a goal whose user has the money for it does not change, and a new
    one lies ahead. *)
Definition update_deadline (g : GoalOf decimal) (target : decimal) (currency : string) (d : option Time) : M Time :=
  match d with
  | None => mret (Deadline (terms g))
  | Some d =>
      balance ← SumVaultBalance scan_numeric (GoalUserID g) currency;
      if IsPositive target && GreaterThanOrEqual balance target then throw ErrGoalCompleted
      else
        t ← now;
        if negb (time_after d t) then throw ErrInvalidGoal else mret d
  end.

Definition update_text (f : string → M string) (old : string) (new : option string) : M string :=
  match new with None => mret old | Some s => f s end.

Definition limit (clear : bool) (new old : option decimal) : option decimal :=
  if clear then None else match new with Some d => Some d | None => old end.

Definition Update (svc : SavingsGoalService) (userID goalID : Z) (in_ : UpdateSavingsGoalInput) : M Enriched :=
  g ← GetByID scan_numeric goalID;
  found g userID ;;
  let target := default (TargetAmount (terms g)) (UpTargetAmount in_) in
  let currency := match UpCurrency in_ with Some c => NormalizeCurrency c | None => Currency (terms g) end in
  deadline ← update_deadline g target currency (UpDeadline in_);
  let description := match UpDescription in_ with Some d => TrimSpace d | None => Description (terms g) end in
  category ← update_text (λ c, lift (resolveCategory c false)) (Category (terms g)) (UpCategory in_);
  name ← update_text (λ n, check (validateGoalName (TrimSpace n)) ;; mret (TrimSpace n))
           (Name (terms g)) (UpName in_);
  emoji ← update_text (λ e, check (ValidateEmoji unicode_symbol (TrimSpace e)) ;; mret (TrimSpace e))
            (Emoji (terms g)) (UpEmoji in_);
  let auto := default (AutoCompound (terms g)) (UpAutoCompound in_) in
  let min := limit (ClearMinContribution in_) (UpMinContribution in_) (MinContribution (terms g)) in
  let max := limit (ClearMaxContribution in_) (UpMaxContribution in_) (MaxContribution (terms g)) in
  check (ValidateContributionLimits min max) ;;
  check (validateSavingsGoalInput target currency) ;;
  let g' := with_terms g (mkTerms (VaultID (terms g)) target currency deadline description category name
              emoji min max auto) in
  Goal_Update g' ;;
  EnrichProgress svc g'.

Definition UpdateNotes (svc : SavingsGoalService) (userID goalID : Z) (notes : string) : M Enriched :=
  g ← GetByID scan_numeric goalID;
  found g userID ;;
  Goal_UpdateNotes goalID notes ;;
  EnrichProgress svc (with_notes g notes).

Definition Delete (userID goalID : Z) : M unit := Goal_Delete goalID userID.

Definition Restore (svc : SavingsGoalService) (userID goalID : Z) : M Enriched :=
  g ← GetByIDIncludingDeleted scan_numeric goalID;
  found g userID ;;
  match DeletedAt (life g) with
  | None => throw ErrGoalNotDeleted
  | Some d =>
      t ← now;
      if SavingsGoalRecoveryWindow <? time_sub t d then throw ErrRecoveryWindowExpired
      else
        Goal_Restore goalID userID ;;
        EnrichProgress svc (with_life g (with_deleted (life g) None))
  end.

Definition Pause (svc : SavingsGoalService) (userID goalID : Z) : M Enriched :=
  g ← GetByID scan_numeric goalID;
  found g userID ;;
  match Status (life g) with
  | GoalStatusCompleted => throw ErrGoalCompleted
  | GoalStatusPaused => throw ErrGoalPaused
  | _ =>
      UpdateStatus goalID userID GoalStatusPaused ;;
      EnrichProgress svc (with_life g (with_status (life g) GoalStatusPaused))
  end.

Definition Resume (svc : SavingsGoalService) (userID goalID : Z) : M Enriched :=
  g ← GetByID scan_numeric goalID;
  found g userID ;;
  match Status (life g) with
  | GoalStatusPaused =>
      UpdateStatus goalID userID GoalStatusActive ;;
      EnrichProgress svc (with_life g (with_status (life g) GoalStatusActive))
  | _ => throw ErrGoalPaused
  end.

Definition Complete (svc : SavingsGoalService) (userID goalID : Z) (action : string) : M Enriched :=
  g ← GetByID scan_numeric goalID;
  found g userID ;;
  if bool_decide (Status (life g) = GoalStatusCompleted) then throw ErrGoalCompleted
  else if negb (action =s? "reinvest") && negb (action =s? "withdraw") then throw ErrInvalidGoal
  else
    balance ← SumVaultBalance scan_numeric (GoalUserID g) (Currency (terms g));
    if IsPositive (TargetAmount (terms g)) && LessThan balance (TargetAmount (terms g)) then throw ErrInvalidGoal
    else
      MarkCompleted goalID userID action ;;
      t ← now;
      (if outcomeRec svc then signal (GoalCompletion (GoalUserID g) t) else mret ()) ;;
      EnrichProgress svc (with_life g (mkLife GoalStatusCompleted (Some t) action (DeletedAt (life g)))).

Definition Share (svc : SavingsGoalService) (userID goalID : Z) : M Enriched :=
  g ← GetByID scan_numeric goalID;
  found g userID ;;
  match ShareToken g with
  | Some _ => EnrichProgress svc g
  | None =>
      token ← uuid_New;
      SetShareToken goalID userID token ;;
      EnrichProgress svc (with_share g (Some token) (ShareEnabledAt g))
  end.

Definition Unshare (userID goalID : Z) : M unit :=
  g ← GetByID scan_numeric goalID;
  found g userID ;;
  ClearShareToken goalID userID.

Record SharedGoalView := mkSharedView {
  SharedName : string;
  SharedEmoji : string;
  SharedTarget : decimal;
  SharedCurrency : string;
  SharedCurrent : decimal;
  SharedPct : float64;
  SharedDeadline : Time;
  SharedCategory : string;
  SharedStatus : GoalStatus;
}.

(** Anyone with the token. *)
Definition GetShared (svc : SavingsGoalService) (token : Z) : M SharedGoalView :=
  g ← GetByShareToken scan_numeric token;
  e ← EnrichProgress svc g;
  let g := goal e in
  mret (mkSharedView (GoalDisplayName g) (Emoji (terms g)) (TargetAmount (terms g)) (Currency (terms g))
          (CurrentAmount e) (ProgressPct e) (Deadline (terms g)) (Category (terms g)) (Status (life g))).

Definition Archive (svc : SavingsGoalService) (userID goalID : Z) : M Enriched :=
  g ← GetByID scan_numeric goalID;
  found g userID ;;
  if bool_decide (Status (life g) = GoalStatusArchived) then EnrichProgress svc g
  else
    UpdateStatus goalID userID GoalStatusArchived ;;
    EnrichProgress svc (with_life g (with_status (life g) GoalStatusArchived)).

Definition Unarchive (svc : SavingsGoalService) (userID goalID : Z) : M Enriched :=
  g ← GetByID scan_numeric goalID;
  found g userID ;;
  if negb (bool_decide (Status (life g) = GoalStatusArchived)) then EnrichProgress svc g
  else
    UpdateStatus goalID userID GoalStatusActive ;;
    EnrichProgress svc (with_life g (with_status (life g) GoalStatusActive)).

(** What the vault service asks at a harvest: the linked goal and its preference. *)
Definition GetAutoCompoundForVault (vaultID : Z) : M (option (Z * bool)) := λ w,
  match GetByVaultID scan_numeric vaultID w with
  | (w1, Ok g) => (w1, Ok (Some (GoalID g, AutoCompound (terms g))))
  | (w1, Err ErrGoalNotFound) => (w1, Ok None)
  | (w1, Err e) => (w1, Err e)
  end.

Definition CreditGoalYieldBalance (goalID : Z) (amount : decimal) : M unit := CreditYieldBalance goalID amount.

(** *** Listings *)

(** The archived goals are left out unless they are asked for. *)
Definition listed (status : option GoalStatus) (includeArchived : bool) (e : Enriched) : bool :=
  match status with
  | Some s => bool_decide (Status (life (goal e)) = s)
  | None => includeArchived || negb (bool_decide (Status (life (goal e)) = GoalStatusArchived))
  end.

Fixpoint enrich_all (svc : SavingsGoalService) (l : list (GoalOf decimal)) : M (list Enriched) :=
  match l with
  | [] => mret []
  | g :: rest => e ← EnrichProgress svc g; es ← enrich_all svc rest; mret (e :: es)
  end.

Definition filter_category (category : string) : result SavErr string :=
  if TrimSpace category =s? "" then Ok ""%string else ParseCategory category.

Definition List_ (svc : SavingsGoalService) (userID : Z) (category status : string) (includeArchived : bool)
  : M (list Enriched) :=
  filterCategory ← lift (filter_category category);
  filterStatus ← lift (ParseStatusFilter status);
  goals ← ListByUser scan_numeric matches userID filterCategory "";
  es ← enrich_all svc goals;
  mret (List.filter (listed filterStatus includeArchived) es).

Record SavingsGoalListFilter := mkListFilter {
  Page : Z;
  PerPage : Z;
  SortField : string;
  SortOrder : string;
  FilterCategory : string;
  FilterStatus : string;
  IncludeArchived : bool;
  SearchText : string;
}.

Definition DefaultPerPage : Z := 20.

Definition compare_times (a b : Time) : Z := if time_before a b then -1 else if time_after a b then 1 else 0.

Definition compare_goals (field : string) (a b : Enriched) : Z :=
  if field =s? "target_amount" then Cmp (TargetAmount (terms (goal a))) (TargetAmount (terms (goal b)))
  else if field =s? "deadline" then compare_times (Deadline (terms (goal a))) (Deadline (terms (goal b)))
  else compare_times (CreatedAt (goal a)) (CreatedAt (goal b)).

Definition sortSavingsGoals (l : list Enriched) (field order : string) : list Enriched :=
  stable_sort (λ a b, if order =s? "asc" then compare_goals field a b <? 0 else 0 <? compare_goals field a b) l.

(** [out[start:end]] on 64-bit integers; [None] is the slice's panic. *)
Definition page_of {A} (page perPage : Z) (l : list A) : option (list A) :=
  let total := Z.of_nat (length l) in
  let page := if page <? 1 then 1 else page in
  let perPage := if perPage <? 1 then DefaultPerPage else perPage in
  let start := i64 ((page - 1) * perPage) in
  let start := if total <? start then total else start in
  let stop := i64 (start + perPage) in
  let stop := if total <? stop then total else stop in
  if (start <? 0) || (stop <? start) then None
  else Some (take (Z.to_nat (stop - start)) (drop (Z.to_nat start) l)).

Definition ListPaginated (svc : SavingsGoalService) (userID : Z) (f : SavingsGoalListFilter) : M (list Enriched * Z) :=
  filterCategory ← lift (filter_category (FilterCategory f));
  filterStatus ← lift (ParseStatusFilter (FilterStatus f));
  goals ← ListByUser scan_numeric matches userID filterCategory (SearchText f);
  es ← enrich_all svc goals;
  let out := sortSavingsGoals (List.filter (listed filterStatus (IncludeArchived f)) es) (SortField f) (SortOrder f) in
  match page_of (Page f) (PerPage f) out with
  | Some page => mret (page, Z.of_nat (length out))
  | None => throw Panic
  end.

(** *** Streaks *)

Definition isoWeekKey (t : Time) : string :=
  let '(year, week) := Calendar.ISOWeek t in
  (TimeFormat.itoa year +:+ "-W" +:+ TimeFormat.digits 2 week)%string.

(** Monday 00:00 UTC of the week. *)
Definition week_start (t : Time) : Time :=
  let weekday := Calendar.Weekday t in
  let weekday := if weekday =? 0 then 7 else weekday in
  Calendar.Truncate (Calendar.AddDate t 0 0 (- (weekday - 1))) Calendar.Day.

(** Whether a deposit of the week in either currency counts. *)
Fixpoint deposited_since (userID : Z) (since : Time) (currencies : list string) : M bool :=
  match currencies with
  | [] => mret false
  | c :: rest =>
      total ← SumRecentDeposits scan_numeric userID c since;
      if IsPositive total then mret true else deposited_since userID since rest
  end.

Definition next_streak (s : SavingsStreak) (hasDeposit : bool) (currentWeek prevWeek : string) : SavingsStreak :=
  if hasDeposit && negb (LastDepositWeek s =s? currentWeek) then
    let current := if LastDepositWeek s =s? prevWeek then CurrentStreak s + 1 else 1 in
    mkStreak current (if LongestStreak s <? current then current else LongestStreak s) currentWeek (StreakNotified s)
  else if negb hasDeposit && negb (LastDepositWeek s =s? "") && String.ltb (LastDepositWeek s) prevWeek then
    mkStreak 0 (LongestStreak s) (LastDepositWeek s) (StreakNotified s)
  else s.

Definition updateStreak (userID : Z) : M (Z * Z) :=
  t ← now;
  let weekStart := week_start t in
  hasDeposit ← deposited_since userID weekStart SupportedCurrencies;
  streak ← Streak_Get userID;
  let s := next_streak (default (mkStreak 0 0 "" []) streak) hasDeposit (isoWeekKey t)
             (isoWeekKey (Calendar.AddDate weekStart 0 0 (-7))) in
  Streak_Upsert userID s ;;
  (if hasDeposit && IsNewMilestone s (CurrentStreak s) then
     ignoring (Streak_Upsert userID (mkStreak (CurrentStreak s) (LongestStreak s) (LastDepositWeek s)
                                       (StreakNotified s ++ [CurrentStreak s]))) ;;
     signal (StreakMilestone userID (CurrentStreak s))
   else mret ()) ;;
  mret (CurrentStreak s, LongestStreak s).

(** A failure leaves the streak out of the summary. *)
Definition streak_or_zero (userID : Z) : M (Z * Z) := λ w,
  match updateStreak userID w with (w1, Ok p) => (w1, Ok p) | (w1, Err _) => (w1, Ok (0, 0)) end.

Record SavingsGoalsSummary := mkSummary {
  TotalSavedUSDC : decimal;
  TotalTargetUSDC : decimal;
  TotalSavedXLM : decimal;
  TotalTargetXLM : decimal;
  GoalCount : Z;
  ActiveGoalCount : Z;
  CompletedGoalCount : Z;
  OverallProgressPct : float64;
  NextDeadline : option Time;
  SumCurrentStreak : Z;
  SumLongestStreak : Z;
}.

Definition summarize (t : Time) (s : SavingsGoalsSummary) (e : Enriched) : SavingsGoalsSummary :=
  let c := NormalizeCurrency (Currency (terms (goal e))) in
  let target := TargetAmount (terms (goal e)) in
  let usdc := c =s? "USDC" in let xlm := c =s? "XLM" in
  let active := bool_decide (Status (life (goal e)) = GoalStatusActive) in
  let d := Deadline (terms (goal e)) in
  mkSummary (if usdc then Add (TotalSavedUSDC s) (CurrentAmount e) else TotalSavedUSDC s)
    (if usdc then Add (TotalTargetUSDC s) target else TotalTargetUSDC s)
    (if xlm then Add (TotalSavedXLM s) (CurrentAmount e) else TotalSavedXLM s)
    (if xlm then Add (TotalTargetXLM s) target else TotalTargetXLM s)
    (GoalCount s) (if active then ActiveGoalCount s + 1 else ActiveGoalCount s)
    (if bool_decide (Status (life (goal e)) = GoalStatusCompleted) then CompletedGoalCount s + 1 else CompletedGoalCount s)
    (OverallProgressPct s)
    (if active && time_after d t && match NextDeadline s with None => true | Some n => time_before d n end
     then Some d else NextDeadline s)
    (SumCurrentStreak s) (SumLongestStreak s).

(** Each goal is enriched and counted before the next. *)
Fixpoint summarize_all (svc : SavingsGoalService) (t : Time) (l : list (GoalOf decimal)) (s : SavingsGoalsSummary)
  : M SavingsGoalsSummary :=
  match l with
  | [] => mret s
  | g :: rest => e ← EnrichProgress svc g; summarize_all svc t rest (summarize t s e)
  end.

Definition Summary (svc : SavingsGoalService) (userID : Z) : M SavingsGoalsSummary :=
  goals ← ListByUser scan_numeric matches userID "" "";
  t ← now;
  s ← summarize_all svc t goals
        (mkSummary Zero Zero Zero Zero (Z.of_nat (length goals)) 0 0 float64_zero None 0 0);
  let pct := if IsPositive (TotalTargetUSDC s)
             then clamp_pct (progress_pct (TotalSavedUSDC s) (TotalTargetUSDC s)) else OverallProgressPct s in
  streak ← (if streakRepo svc then streak_or_zero userID else mret (0, 0));
  mret (mkSummary (TotalSavedUSDC s) (TotalTargetUSDC s) (TotalSavedXLM s) (TotalTargetXLM s) (GoalCount s)
          (ActiveGoalCount s) (CompletedGoalCount s) pct (NextDeadline s) (fst streak) (snd streak)).

(** *** Splitting a deposit *)

Record DepositSplitAllocation := mkAlloc { AlGoalID : Z; AlAmount : decimal; AlPercentage : decimal }.

Record DepositSplitInput := mkSplit {
  TotalAmount : decimal;
  SplitCurrency : string;
  Allocations : list DepositSplitAllocation;
}.

Record GoalDepositResult := mkGoalDepositResult {
  ResGoalID : Z;
  Deposited : decimal;
  ResCurrentAmount : decimal;
  ResProgressPct : float64;
}.

Definition sum_decimals (l : list decimal) : decimal := foldl Add Zero l.

(** Every allocation by percentage, or every one by amount. *)
Definition split_amounts (in_ : DepositSplitInput) : result SavErr (list decimal) :=
  let allAmount := forallb (λ a, negb (IsZero (AlAmount a))) (Allocations in_) in
  let allPct := forallb (λ a, negb (IsZero (AlPercentage a))) (Allocations in_) in
  if Bool.eqb allAmount allPct then Err ErrInvalidGoal
  else if allPct then
    if negb (forallb (λ a, IsPositive (AlPercentage a)) (Allocations in_)) then Err ErrInvalidGoal
    else if negb (dec_Equal (sum_decimals (map AlPercentage (Allocations in_))) (NewFromInt 100)) then Err ErrInvalidGoal
    else Ok (map (λ a, Round (Div (Mul (TotalAmount in_) (AlPercentage a)) (NewFromInt 100)) 8) (Allocations in_))
  else if negb (forallb (λ a, IsPositive (AlAmount a)) (Allocations in_)) then Err ErrInvalidGoal
  else if negb (dec_Equal (sum_decimals (map AlAmount (Allocations in_))) (TotalAmount in_)) then Err ErrInvalidGoal
  else Ok (map AlAmount (Allocations in_)).

Fixpoint duplicates (seen l : list Z) : bool :=
  match l with [] => false | x :: rest => existsb (Z.eqb x) seen || duplicates (x :: seen) rest end.

(** Each goal is the user's, active and in the currency. *)
Fixpoint split_goals (userID : Z) (currency : string) (l : list DepositSplitAllocation) : M (list (GoalOf decimal)) :=
  match l with
  | [] => mret []
  | a :: rest =>
      g ← GetByID scan_numeric (AlGoalID a);
      found g userID ;;
      (if negb (NormalizeCurrency (Currency (terms g)) =s? currency) then throw ErrInvalidGoal
       else match Status (life g) with
            | GoalStatusPaused => throw ErrGoalPaused
            | GoalStatusCompleted => throw ErrGoalCompleted
            | GoalStatusArchived => throw ErrGoalArchived
            | GoalStatusActive => mret ()
            end) ;;
      gs ← split_goals userID currency rest; mret (g :: gs)
  end.

Fixpoint within_limits (l : list (decimal * GoalOf decimal)) : result SavErr unit :=
  match l with
  | [] => Ok ()
  | (amount, g) :: rest =>
      let? _ := ValidateContributionAmount amount (MinContribution (terms g)) (MaxContribution (terms g)) in
      within_limits rest
  end.

Fixpoint build_deposits (userID : Z) (currency : string) (l : list (DepositSplitAllocation * decimal))
  : M (list GoalDeposit) :=
  match l with
  | [] => mret []
  | (a, amount) :: rest =>
      id ← uuid_New;
      ds ← build_deposits userID currency rest;
      mret (mkGoalDeposit id (AlGoalID a) userID amount currency :: ds)
  end.

Fixpoint split_results (l : list (GoalOf decimal * decimal)) : M (list GoalDepositResult) :=
  match l with
  | [] => mret []
  | (g, amount) :: rest =>
      current ← SumGoalDeposits scan_numeric (GoalID g);
      let pct := if IsPositive (TargetAmount (terms g)) then
                   let p := progress_pct current (TargetAmount (terms g)) in
                   if float64_ltb (float64_of 100) p then float64_of 100 else p
                 else float64_zero in
      rs ← split_results rest;
      mret (mkGoalDepositResult (GoalID g) amount current pct :: rs)
  end.

Definition completedGoals (l : list (GoalOf decimal * GoalDepositResult)) : Z :=
  Z.of_nat (length (List.filter (λ '(g, r),
    IsPositive (TargetAmount (terms g)) && GreaterThanOrEqual (ResCurrentAmount r) (TargetAmount (terms g))) l)).

Definition recordGamificationDeposit (svc : SavingsGoalService) (userID : Z) (amount : decimal)
    (deposits : list GoalDeposit) (goalsCompleted : Z) : M unit :=
  match deposits with
  | [] => mret ()
  | d :: rest =>
      if negb (gamification svc) then mret ()
      else
        t ← now;
        let prefix := match rest with [] => "goal-deposit:" | _ => "goal-deposit-split:" end in
        signal (ConfirmedDeposit (prefix +:+ uuid_String (DepID d))%string userID amount t goalsCompleted)
  end.

Definition DepositSplit (svc : SavingsGoalService) (userID : Z) (in_ : DepositSplitInput)
  : M (decimal * string * list GoalDepositResult) :=
  let currency := NormalizeCurrency (SplitCurrency in_) in
  if negb (IsSupportedCurrency currency) then throw ErrInvalidGoal
  else if negb (IsPositive (TotalAmount in_)) then throw ErrInvalidGoal
  else if match Allocations in_ with [] => true | _ => false end then throw ErrInvalidGoal
  else
    amounts ← lift (split_amounts in_);
    if duplicates [] (map AlGoalID (Allocations in_)) then throw ErrInvalidGoal
    else
      goals ← split_goals userID currency (Allocations in_);
      check (within_limits (zip amounts goals)) ;;
      deposits ← build_deposits userID currency (zip (Allocations in_) amounts);
      RecordGoalDeposits deposits ;;
      results ← split_results (zip goals amounts);
      recordGamificationDeposit svc userID (TotalAmount in_) deposits (completedGoals (zip goals results)) ;;
      mret (TotalAmount in_, currency, results).

(** *** The purge of deleted goals *)

Fixpoint purge (l : list (GoalOf decimal)) : M unit :=
  match l with
  | [] => mret ()
  | g :: rest => ignoring (HardDelete (GoalID g)) ;; purge rest
  end.

(** [SavingsGoalPurgeJob.Tick]: errors are logged. *)
Definition Purge_Tick (isLeader : bool) : M unit := λ w,
  if negb isLeader then (w, Ok ())
  else
    match ListDeletedOlderThan scan_numeric (time_add (clock w) (- SavingsGoalRecoveryWindow)) w with
    | (w1, Err _) => (w1, Ok ())
    | (w1, Ok l) => purge l w1
    end.

End service.

End SavingsGoals.
