(* ===== verification/SavingsLife.v ===== *)
(** Savings goals over time: every request of service/savings_goal_service.go takes the
    tables through steps of a lifecycle, on the goals it may touch only, and a milestone is
    never marked without the event that announces it. *)
From Stdlib Require Import Lqa.
From S2P Require Import Prelude Decimals Calendar Outbox Ledger VaultRepo VaultBooks VaultDomain VaultService VaultServiceBooks SavingsDomain SavingsStore SavingsGoals.
Open Scope Z_scope.

Module SavingsLife.
Import Decimals SavingsDomain SavingsStore SavingsGoals.

(** *** The lifecycle *)

(** The changes of status a request may ask for; completion has its own rule. *)
Definition may_become (s s' : GoalStatus) : Prop :=
  match s, s' with
  | GoalStatusActive, GoalStatusPaused | GoalStatusArchived, GoalStatusPaused => True
  | GoalStatusPaused, GoalStatusActive | GoalStatusArchived, GoalStatusActive => True
  | GoalStatusActive, GoalStatusArchived | GoalStatusPaused, GoalStatusArchived
  | GoalStatusCompleted, GoalStatusArchived => True
  | _, _ => False
  end.

Section life.
  Context `{DecimalOrderLaws} `{F : !DecimalFormat}.
  Context (uuid_String : Z → string).

(** The money behind the goal covers its target: the linked vault's, or that of the
    user's active vaults in the currency. *)
Definition reached (w : World) (g : GoalOf Z) : Prop :=
  TargetAmount (terms g) ≤ vault_balance (GoalUserID g) (Currency (terms g)) w ∨
  ∃ v r, VaultID (terms g) = Some v ∧ VaultRepo.live_vault v (db w) = Some r ∧
         TargetAmount (terms g) ≤ VaultRepo.CurrentBalance r.

Inductive goal_step (w : World) (g : GoalOf Z) : GoalOf Z → Prop :=
| step_terms t :
    deleted g = false → 0 < TargetAmount t → VaultID t = VaultID (terms g) →
    goal_step w g (with_terms g t)
| step_status s :
    deleted g = false → may_become (Status (life g)) s →
    goal_step w g (with_life g (with_status (life g) s))
| step_completed action :
    deleted g = false → Status (life g) ≠ GoalStatusCompleted → reached w g →
    goal_step w g (with_life g (mkLife GoalStatusCompleted (Some (clock w)) action None))
| step_deleted :
    deleted g = false → goal_step w g (with_life g (with_deleted (life g) (Some (clock w))))
| step_restored d :
    DeletedAt (life g) = Some d → time_sub (clock w) d ≤ SavingsGoalRecoveryWindow →
    goal_step w g (with_life g (with_deleted (life g) None))
| step_share t e : deleted g = false → goal_step w g (with_share g t e)
| step_notes n : deleted g = false → goal_step w g (with_notes g n).

Definition milestone_recorded (o : Outbox.Table) (goalID m : Z) : Prop :=
  ∃ id e, o !! id = Some e ∧ Outbox.DedupeKey e = MilestoneDedupeKey uuid_String goalID m.

(** The outbox keeps every key it holds. *)
Definition keeps_events (o o' : Outbox.Table) : Prop :=
  ∀ key, (∃ id e, o !! id = Some e ∧ Outbox.DedupeKey e = key) →
         (∃ id e, o' !! id = Some e ∧ Outbox.DedupeKey e = key).

(** The same tables; the session has moved on. *)
Definition quiet (w w' : World) : Prop :=
  VaultServiceBooks.same true (vw w) (vw w') ∧ goals w' = goals w ∧ goal_deposits w' = goal_deposits w ∧
  schedules w' = schedules w ∧ streaks w' = streaks w ∧ outbox w' = outbox w ∧ signals w' = signals w.

(** What a request on behalf of [user] may do to the goals in [touched]. *)
Inductive step (user : option Z) (touched : GoalOf Z → Prop) (w : World) : World → Prop :=
| on_session w' : quiet w w' → step user touched w w'
| on_signal s : step user touched w (with_signals w (signals w ++ [s]))
| on_goal id g g' :
    goals w !! id = Some g → touched g → goal_step w g g' →
    step user touched w (with_goals w (<[id := with_updated g' (clock w)]> (goals w)))
| on_new g u :
    user = Some u → GoalUserID g = u → goals w !! GoalID g = None →
    life g = mkLife GoalStatusActive None "" None → NotifiedMilestones g = [] → YieldBalance g = 0 →
    0 < TargetAmount (terms g) →
    step user touched w (with_goals w (<[GoalID g := g]> (goals w)))
| on_milestones id g new o :
    goals w !! id = Some g → touched g → deleted g = false →
    NoDup new → (∀ m, m ∈ new → m ∈ ProgressMilestones ∧ m ∉ NotifiedMilestones g) →
    keeps_events (outbox w) o → (∀ m, m ∈ new → milestone_recorded o id m) →
    step user touched w
      (with_outbox (with_goals w
         (<[id := with_updated (with_notified g (NotifiedMilestones g ++ new)) (clock w)]> (goals w))) o)
| on_yield id g y :
    user = None → goals w !! id = Some g → touched g →
    step user touched w (with_goals w (<[id := with_updated (with_yield g y) (clock w)]> (goals w)))
| on_split rows u :
    user = Some u →
    (∀ r, r ∈ rows → GDepUserID r = u ∧ 0 < GDepAmount r ∧
       ∃ g, goals w !! GDepGoalID r = Some g ∧ GoalUserID g = u ∧ deleted g = false ∧
            Status (life g) = GoalStatusActive) →
    step user touched w (with_goal_deposits w (goal_deposits w ++ rows))
| on_streak u s :
    user = Some u → step user touched w (with_streaks w (<[u := s]> (streaks w))).

(** Rows are stored under their ids and have a positive target. *)
Definition good (w : World) : Prop :=
  ∀ id g, goals w !! id = Some g → GoalID g = id ∧ 0 < TargetAmount (terms g).

Lemma goal_step_keeps w g g' :
  goal_step w g g' → GoalID g' = GoalID g ∧ GoalUserID g' = GoalUserID g ∧
  NotifiedMilestones g' = NotifiedMilestones g ∧ CreatedAt g' = CreatedAt g ∧
  (0 < TargetAmount (terms g) → 0 < TargetAmount (terms g')).
Proof. by destruct 1. Qed.

Lemma step_good u P w w' : good w → step u P w w' → good w'.
Proof.
  intros Hg Hs. destruct Hs as [w' (_ & Hgo & _)| |id g g' Hl _ Hgs|g u' _ _ Hn _ _ _ Ht
    |id g new o Hl _ _ _ _ _ _|id g y _ Hl _| |]; try exact Hg.
  - intros id g. rewrite Hgo. apply Hg.
  - intros i k. cbn. intros Hi. apply goal_step_keeps in Hgs as (Hid & _ & _ & _ & Ht).
    destruct (Hg id g Hl) as [Hgid Hpos]. apply lookup_insert_Some in Hi as [[<- <-]|[Hne Hi]].
    + split; [cbn; congruence|by apply Ht].
    + by apply Hg.
  - intros i k. cbn. intros Hi. apply lookup_insert_Some in Hi as [[<- <-]|[Hne Hi]]; [done|by apply Hg].
  - intros i k. cbn. intros Hi. apply lookup_insert_Some in Hi as [[<- <-]|[Hne Hi]]; [|by apply Hg].
    by destruct (Hg _ _ Hl).
  - intros i k. cbn. intros Hi. apply lookup_insert_Some in Hi as [[<- <-]|[Hne Hi]]; [|by apply Hg].
    by destruct (Hg _ _ Hl).
Qed.

Lemma steps_good u P w w' : good w → rtc (step u P) w w' → good w'.
Proof. intros Hg Hs. induction Hs as [|w1 w2 w3 H1 _ IH]; [done|]. apply IH. by eapply step_good. Qed.

Lemma quiet_refl w : quiet w w.
Proof. split; [apply VaultServiceBooks.same_refl|done]. Qed.

Lemma quiet_trans w1 w2 w3 : quiet w1 w2 → quiet w2 w3 → quiet w1 w3.
Proof.
  intros (V1 & ? & ? & ? & ? & ? & ?) (V2 & ? & ? & ? & ? & ? & ?).
  split; [by eapply VaultServiceBooks.same_trans|]. split_and!; congruence.
Qed.

Lemma quiet_db w w' : quiet w w' → db w' = db w ∧ clock w' = clock w.
Proof. intros (((Hd & _ & _ & _ & Hc) & _) & _). by split. Qed.

Lemma quiet_balance u c w w' : quiet w w' → vault_balance u c w' = vault_balance u c w.
Proof.
  intros Hq. pose proof (quiet_db _ _ Hq) as [Hd _]. destruct Hq as ((_ & Hc & _) & _).
  unfold vault_balance, counted_vault. by rewrite Hd, Hc.
Qed.

Lemma quiet_reached w w' g : quiet w w' → reached w' g → reached w g.
Proof.
  intros Hq. unfold reached. rewrite (quiet_balance _ _ _ _ Hq). by destruct (quiet_db _ _ Hq) as [-> _].
Qed.

(** What may be touched may be widened. *)
Lemma step_weaken u (P P' : GoalOf Z → Prop) w w' : (∀ g, P g → P' g) → step u P w w' → step u P' w w'.
Proof.
  intros HP Hs. destruct Hs; [by apply on_session|apply on_signal|by eapply on_goal; eauto|by eapply on_new|
    by eapply on_milestones; eauto|by eapply on_yield; eauto|by eapply on_split|by apply on_streak].
Qed.

Lemma goal_steps_weaken u (P P' : GoalOf Z → Prop) w w' :
  (∀ g, P g → P' g) → rtc (step u P) w w' → rtc (step u P') w w'.
Proof. intros HP. apply rtc_subrel. intros x y. by apply step_weaken. Qed.

(** The other rows stay. *)
Lemma step_untouched u (P : GoalOf Z → Prop) w w' id g :
  step u P w w' → goals w !! id = Some g → ¬ P g → goals w' !! id = Some g.
Proof.
  intros Hs Hl Hn. destruct Hs as [w' (_ & Hgo & _)|?|id' g1 g' Hl' HP _|g1 u' _ _ Hnew _ _ _ _
    |id' g1 new o Hl' HP _ _ _ _ _|id' g1 y _ Hl' HP|? ? _ _|? ? _]; cbn; try done.
  - by rewrite Hgo.
  - rewrite lookup_insert_ne; [done|]. intros ->. congruence.
  - rewrite lookup_insert_ne; [done|]. intros <-. congruence.
  - rewrite lookup_insert_ne; [done|]. intros ->. congruence.
  - rewrite lookup_insert_ne; [done|]. intros ->. congruence.
Qed.

Lemma steps_untouched u (P : GoalOf Z → Prop) w w' id g :
  rtc (step u P) w w' → goals w !! id = Some g → ¬ P g → goals w' !! id = Some g.
Proof. intros Hs. revert g. induction Hs as [|w1 w2 w3 H1 _ IH]; [done|]. intros g Hl Hn. by eapply IH, Hn; eapply step_untouched. Qed.

End life.

(** *** Operations as steps *)

Section runs.
  Context `{DecimalOrderLaws} `{F : !DecimalFormat}.
  Context (uuid_String : Z → string).
  Context (user : option Z) (touched : GoalOf Z → Prop).

Notation steps := (rtc (step uuid_String user touched)).

(** [m] goes through steps, and [Q] holds of what it answers. *)
Definition runs {A} (m : M A) (w : World) (Q : World → A → Prop) : Prop :=
  good w → steps w (fst (m w)) ∧ ∀ a, snd (m w) = Ok a → Q (fst (m w)) a.

Lemma runs_ret {A} (a : A) w (Q : World → A → Prop) : Q w a → runs (mret a) w Q.
Proof. intros HQ _. split; [done|]. by intros ? [= <-]. Qed.

Lemma runs_throw {A} e w (Q : World → A → Prop) : runs (throw e) w Q.
Proof. by intros _. Qed.

Lemma runs_lift {A} (r : result SavErr A) w (Q : World → A → Prop) :
  (∀ a, r = Ok a → Q w a) → runs (lift r) w Q.
Proof. by intros HQ _. Qed.

Lemma runs_check (r : result SavErr unit) w (Q : World → unit → Prop) :
  (r = Ok () → Q w ()) → runs (check r) w Q.
Proof. intros HQ _. split; [done|]. intros [] Hr. by apply HQ. Qed.

Lemma runs_now w (Q : World → Time → Prop) : Q w (clock w) → runs now w Q.
Proof. intros HQ _. split; [done|]. by intros ? [= <-]. Qed.

Lemma runs_weaken {A} (m : M A) w (Q R : World → A → Prop) :
  runs m w Q → (∀ w1 a, good w1 → Q w1 a → R w1 a) → runs m w R.
Proof.
  intros Hm HQ Hg. destruct (Hm Hg) as [Hs Ha]. split; [done|]. intros a E. apply HQ; [|by apply Ha].
  by eapply steps_good.
Qed.

Lemma run_bind {A B} (m : M A) (k : A → M B) w :
  (m ≫= k) w = match m w with (w1, Ok a) => k a w1 | (w1, Err e) => (w1, Err e) end.
Proof. reflexivity. Qed.

Lemma runs_bind {A B} (m : M A) (k : A → M B) w (Q : World → A → Prop) (R : World → B → Prop) :
  runs m w Q → (∀ w1 a, good w1 → Q w1 a → runs (k a) w1 R) → runs (m ≫= k) w R.
Proof.
  intros Hm Hk Hg. destruct (Hm Hg) as [Hs Ha]. unfold mbind, M_bind.
  destruct (m w) as [w1 [a|e]]; [|done]. cbn in *.
  assert (good w1) as Hg1 by (by eapply steps_good).
  destruct (Hk w1 a Hg1 (Ha a eq_refl) Hg1) as [Hs2 Hb]. split; [by etransitivity|done].
Qed.

(** A result does not matter when nothing is asked of it. *)
Lemma runs_ignoring (m : M unit) w (Q : World → Prop) :
  (∀ w1, fst (m w) = w1 → good w1 → Q w1) → runs m w (λ _ _, True) → runs (ignoring m) w (λ w1 _, Q w1).
Proof.
  intros HQ Hm Hg. destruct (Hm Hg) as [Hs _]. split; [done|]. intros _ _. apply HQ; [done|].
  by eapply steps_good.
Qed.

Lemma runs_quiet {A} (m : M A) w (Q : World → A → Prop) :
  quiet w (fst (m w)) → (∀ a, snd (m w) = Ok a → Q (fst (m w)) a) → runs m w Q.
Proof. intros Hq HQ _. split; [|done]. by apply rtc_once, on_session. Qed.

(** *** Statements *)

Lemma round_trip_quiet w : quiet w (snd (round_trip w)).
Proof.
  unfold round_trip. pose proof (VaultBooks.round_trip_same (VaultService.session (vw w))) as Hr.
  destruct (VaultRepo.round_trip _) as [b v]. cbn in *. by split_and!.
Qed.

Lemma exec_outcome {A} (f : Time → World → result SavErr (World * A)) w :
  (quiet w (fst (exec f w)) ∧ ∀ a, snd (exec f w) ≠ Ok a) ∨
  ∃ w1 w2 a, quiet w w1 ∧ f (clock w1) w1 = Ok (w2, a) ∧ exec f w = (w2, Ok a).
Proof.
  unfold exec. pose proof (round_trip_quiet w) as Hq. destruct (round_trip w) as [[] w1]; [by left|].
  cbn in Hq. destruct (f (clock w1) w1) as [[w2 a]|e] eqn:E; [|by left].
  right. by exists w1, w2, a.
Qed.

Lemma query_outcome {A} (f : World → A) w :
  quiet w (fst (query f w)) ∧ ∀ a, snd (query f w) = Ok a → a = f (fst (query f w)).
Proof.
  unfold query. destruct (exec_outcome (λ (_ : Time) w, Ok (w, f w)) w) as [[Hq Hn]|(w1 & w2 & a & Hq & Hf & ->)].
  - split; [done|]. intros a Ha. by destruct (Hn a).
  - injection Hf as <- <-. split; [done|]. cbn. by intros ? [= <-].
Qed.

Lemma runs_query {A} (f : World → A) w (Q : World → A → Prop) :
  (∀ w1, quiet w w1 → Q w1 (f w1)) → runs (query f) w Q.
Proof.
  intros HQ. destruct (query_outcome f w) as [Hq Ha]. apply runs_quiet; [done|].
  intros a E. rewrite (Ha a E). by apply HQ.
Qed.

Lemma on_vaults_quiet {A} (m : VaultService.M A) w :
  VaultServiceBooks.reads m → quiet w (fst (on_vaults m w)).
Proof.
  intros Hm. unfold on_vaults. specialize (Hm (vw w)). destruct (m (vw w)) as [v r]. by split_and!.
Qed.

Lemma runs_uuid w (Q : World → Z → Prop) : (∀ w1 id, quiet w w1 → Q w1 id) → runs uuid_New w Q.
Proof.
  intros HQ. assert (quiet w (fst (uuid_New w))) as Hq by (apply on_vaults_quiet, VaultServiceBooks.reads_uuid).
  apply runs_quiet; [done|]. intros a _. by apply HQ.
Qed.

Lemma runs_signal s w (Q : World → unit → Prop) :
  Q (with_signals w (signals w ++ [s])) () → runs (signal s) w Q.
Proof. intros HQ _. split; [apply rtc_once, on_signal|]. by intros [] _. Qed.

(** A write to a goal changes one row or nothing. *)
Lemma update_outcome id p f w :
  let p' := update_goal id p f w in
  (quiet w p'.1 ∧ p'.2 ≠ Ok ()) ∨
  ∃ w1 g g', quiet w w1 ∧ goals w1 !! id = Some g ∧ p g = true ∧ f (clock w1) w1 g = Ok g' ∧
    p' = (with_goals w1 (<[id := with_updated g' (clock w1)]> (goals w1)), Ok ()).
Proof.
  cbv zeta. unfold update_goal, mbind, M_bind.
  destruct (exec_outcome (λ now w, match goals w !! id with
    | Some g => if p g then let? g' := f now w g in
                            Ok (with_goals w (<[id := with_updated g' now]> (goals w)), 1)
                else Ok (w, 0)
    | None => Ok (w, 0) end) w) as [[Hq Hn]|(w1 & w2 & a & Hq & Hf & ->)].
  - left. destruct (exec _ w) as [w1 [a|e]]; [by destruct (Hn a)|done].
  - destruct (goals w1 !! id) as [g|] eqn:El; [|injection Hf as <- <-; by left].
    destruct (p g) eqn:Ep; [|injection Hf as <- <-; by left].
    destruct (f (clock w1) w1 g) as [g'|e] eqn:Ef; [|done]. injection Hf as <- <-.
    right. by exists w1, g, g'.
Qed.

Lemma runs_update id p f w (Q : World → unit → Prop) :
  (∀ w1 g g', quiet w w1 → goals w1 !! id = Some g → p g = true → f (clock w1) w1 g = Ok g' →
     touched g ∧ goal_step w1 g g' ∧
     Q (with_goals w1 (<[id := with_updated g' (clock w1)]> (goals w1))) ()) →
  runs (update_goal id p f) w Q.
Proof.
  intros Hf Hg. destruct (update_outcome id p f w) as [[Hq Hn]|(w1 & g & g' & Hq & Hl & Hp & Ho & ->)].
  - split; [by apply rtc_once, on_session|]. by intros [] ?.
  - destruct (Hf w1 g g' Hq Hl Hp Ho) as (Ht & Hs & HQ). split; [|by intros []].
    eapply rtc_l; [by apply on_session|]. by eapply rtc_once, on_goal.
Qed.

End runs.

(** *** What the service holds of a row *)

Section held.
  Context `{DecimalOrderLaws} `{F : !DecimalFormat}.
  Context (scan_numeric : Z → decimal).
  Context (scan_numeric_value : ∀ z, (value (scan_numeric z) == VaultRepo.col z)%Q).
  Context (uuid_String : Z → string).
  Context (Float64 : decimal → float64) (NewFromFloat : float64 → decimal).
  Context (json_valid : string → bool).
  Context (marshal_milestone : GoalOf decimal → decimal → float64 → Z → string → option string).
  Context (user : option Z) (touched : GoalOf Z → Prop).
  Context (touched_kept : ∀ g g', GoalID g' = GoalID g → GoalUserID g' = GoalUserID g → touched g → touched g').

Notation runs := (runs uuid_String user touched).

(** The goal in memory and its row agree on what later statements rely on; amounts are
    stored rounded. *)
Definition held (w : World) (g : GoalOf decimal) (r : GoalOf Z) : Prop :=
  goals w !! GoalID g = Some r ∧ touched r ∧ GoalUserID r = GoalUserID g ∧ deleted r = false ∧
  Status (life r) = Status (life g) ∧ NotifiedMilestones r = NotifiedMilestones g ∧
  VaultID (terms r) = VaultID (terms g) ∧ Currency (terms r) = Currency (terms g) ∧
  ∀ k, (value (TargetAmount (terms g)) <= VaultRepo.col k)%Q → TargetAmount (terms r) ≤ k.

Definition holds (w : World) (g : GoalOf decimal) : Prop := ∃ r, held w g r.

(** [b] is the balance of what backs the goal. *)
Definition backed (w : World) (g : GoalOf decimal) (b : decimal) : Prop :=
  ∃ k, (value b == VaultRepo.col k)%Q ∧
    (k = vault_balance (GoalUserID g) (Currency (terms g)) w ∨
     ∃ v r, VaultID (terms g) = Some v ∧ VaultRepo.live_vault v (db w) = Some r ∧ k = VaultRepo.CurrentBalance r).

Lemma col_le a b : (VaultRepo.col a <= VaultRepo.col b)%Q ↔ a ≤ b.
Proof. unfold VaultRepo.col, Qle. cbn. lia. Qed.

(** Rounding to the stored scale stays below a stored number. *)
Lemma stored_le p q z k :
  VaultRepo.numeric p q = Ok z → (q <= VaultRepo.col k)%Q → z ≤ k.
Proof.
  unfold VaultRepo.numeric. case_match; [|done]. intros [= <-] Hq.
  pose proof (half_away_near (q * 100000000)) as Hn. apply Qabs_Qle_condition in Hn as [_ Hn].
  assert (inject_Z (half_away (q * 100000000)) <= inject_Z k + (1 # 2))%Q as Hle.
  { assert (q * 100000000 <= inject_Z k)%Q as Hk.
    { unfold VaultRepo.col, Qle in *. cbn in *. lia. }
    lra. }
  unfold Qle in Hle. cbn in Hle. lia.
Qed.

Lemma held_quiet w w' g r : quiet w w' → held w g r → held w' g r.
Proof. intros (_ & Hg & _). unfold held. by rewrite Hg. Qed.

Lemma holds_quiet w w' g : quiet w w' → holds w g → holds w' g.
Proof. intros Hq [r Hr]. exists r. by eapply held_quiet. Qed.

Lemma held_scan w r :
  goals w !! GoalID r = Some r → touched r → deleted r = false → holds w (scan_goal scan_numeric r).
Proof.
  intros Hl Ht Hd. exists r. split_and!; try done. intros k. cbn. rewrite scan_numeric_value. by rewrite col_le.
Qed.

Lemma runs_try_vault id w (Q : World → result VaultService.SvcErr VaultDomain.Vault → Prop) :
  (∀ w1 x, quiet w w1 →
     (∀ v, x = Ok v → ∃ r, VaultRepo.live_vault id (db w1) = Some r ∧
        VaultDomain.CurrentBalance v = scan_numeric (VaultRepo.CurrentBalance r)) → Q w1 x) →
  runs (try_vault scan_numeric id) w Q.
Proof.
  intros HQ. unfold try_vault.
  pose proof (VaultServiceBooks.reads_GetVault scan_numeric id (vw w)) as Hs.
  destruct (VaultService.GetVault scan_numeric id (vw w)) as [v x] eqn:E. cbn in Hs.
  assert (quiet w (with_vw w v)) as Hq by (by split_and!).
  eapply runs_quiet; cbn; rewrite E; cbn; [done|]. intros ? [= <-]. apply HQ; [done|].
  intros v' ->. apply VaultServiceBooks.GetVault_view in E as (r & c & Hl & _ & _ & _ & _ & _ & Hb & _).
  exists r. split; [|done]. unfold db. cbn. destruct Hs as ((-> & _) & _). done.
Qed.

Lemma runs_SumVaultBalance u c w (Q : World → decimal → Prop) :
  (∀ w1, quiet w w1 → Q w1 (scan_numeric (vault_balance u c w1))) →
  runs (SumVaultBalance scan_numeric u c) w Q.
Proof.
  intros HQ. unfold SumVaultBalance. eapply runs_bind.
  - apply runs_query with (Q := λ w1 a, quiet w w1 ∧ a = vault_balance u c w1). by split.
  - intros w1 a _ [Hq ->]. apply runs_ret. by apply HQ.
Qed.

Lemma runs_currentAmount svc g w :
  runs (currentAmount scan_numeric svc g) w (λ w1 b, quiet w w1 ∧ backed w1 g b).
Proof.
  assert (∀ w1, quiet w w1 → runs (SumVaultBalance scan_numeric (GoalUserID g) (Currency (terms g))) w1
            (λ w2 b, quiet w w2 ∧ backed w2 g b)) as Hf.
  { intros w1 Hq1. apply runs_SumVaultBalance. intros w2 Hq2.
    split; [by eapply quiet_trans|]. eexists. split; [apply scan_numeric_value|by left]. }
  unfold currentAmount. destruct (VaultID (terms g)) as [v|] eqn:Ev; [|by apply Hf, quiet_refl].
  destruct (vaultRepo svc); [|by apply Hf, quiet_refl].
  eapply runs_bind with (Q := λ w1 x, quiet w w1 ∧ ∀ vt, x = Ok vt →
    ∃ r, VaultRepo.live_vault v (db w1) = Some r ∧
         VaultDomain.CurrentBalance vt = scan_numeric (VaultRepo.CurrentBalance r)).
  { apply runs_try_vault. by split. }
  intros w1 x _ [Hq Hx]. destruct x as [vt|e].
  - apply runs_ret. split; [done|]. destruct (Hx vt eq_refl) as (r & Hl & Hb).
    exists (VaultRepo.CurrentBalance r). split; [by rewrite Hb, scan_numeric_value|]. right. by exists v, r.
  - assert (∀ e, runs (throw (ErrVaults e) : M decimal) w1 (λ w2 b, quiet w w2 ∧ backed w2 g b)) as He
      by (intros; apply runs_throw).
    destruct e as [e'| | | | | | | | | | | | | | | | | | | | | | | | | | |]; try apply He.
    destruct e'; try apply He. by apply Hf.
Qed.

(** A completed goal had its target covered. *)
Lemma runs_auto_complete svc g b w :
  holds w g → backed w g b →
  runs (auto_complete svc g b) w (λ w1 g1, GoalID g1 = GoalID g ∧ NotifiedMilestones g1 = NotifiedMilestones g ∧
    ∃ r, goals w1 !! GoalID g = Some r ∧ touched r ∧ deleted r = false ∧
         NotifiedMilestones r = NotifiedMilestones g).
Proof.
  intros (r & Hl & Ht & Hu & Hd & Hst & Hn & Hv & Hc & Hk) (k & Hb & Hkk). unfold auto_complete.
  destruct (_ && _ && _ && _) eqn:E; [|apply runs_ret; split_and!; try done; by exists r].
  apply andb_true_iff in E as [[[Hact _]%andb_true_iff Hge]%andb_true_iff _].
  apply bool_decide_eq_true in Hact.
  apply GreaterThanOrEqual_value in Hge. rewrite Hb in Hge. apply Hk in Hge.
  set (Q := λ w1 : World, ∃ r, goals w1 !! GoalID g = Some r ∧ touched r ∧ deleted r = false ∧
              NotifiedMilestones r = NotifiedMilestones g).
  assert (∀ w1, quiet w w1 → reached w1 r) as Hr.
  { intros w1 Hq. unfold reached. rewrite Hu, Hc, Hv. destruct (quiet_db _ _ Hq) as [-> _].
    rewrite (quiet_balance _ _ _ _ Hq). destruct Hkk as [->|(v & vr & ? & ? & ->)]; [by left|].
    right. by exists v, vr. }
  assert (runs (MarkCompleted (GoalID g) (GoalUserID g) "") w (λ _ _, True)) as Hm.
  { apply runs_update. intros w1 r1 r2 Hq Hl1 _ Ho. destruct Hq as (Hq & Hgo & Hq'). rewrite Hgo, Hl in Hl1.
    injection Hl1 as <-. injection Ho as <-.
    assert (DeletedAt (life r) = None) as ->
      by (revert Hd; unfold deleted; by destruct (DeletedAt (life r))).
    split_and!; [done| |done]. apply step_completed; [done|congruence|by apply Hr]. }
  eapply runs_bind with (Q := λ w1 _, Q w1).
  { apply runs_ignoring; [|done]. intros w1 <- _. unfold MarkCompleted, Q.
    match goal with |- context [update_goal ?i ?p ?f ?w] =>
      destruct (update_outcome i p f w) as [[Hq _]|(w1 & r1 & r2 & Hq & Hl1 & _ & Ho & ->)] end.
    - exists r. destruct Hq as (_ & Hgo & _). by rewrite Hgo.
    - destruct Hq as (_ & Hgo & _). rewrite Hgo, Hl in Hl1. injection Hl1 as <-. injection Ho as <-.
      eexists. cbn. rewrite lookup_insert_eq. split; [done|].
      split; [by eapply touched_kept; [| |exact Ht]|done]. }
  intros w1 _ _ HQ. eapply runs_bind with (Q := λ w2 _, Q w2); [by apply runs_now|].
  intros w2 t _ HQ2. eapply runs_bind with (Q := λ w3 _, Q w3).
  { destruct (outcomeRec svc); [by apply runs_signal|by apply runs_ret]. }
  intros w3 _ _ HQ3. apply runs_ret. by split_and!.
Qed.

(** *** Milestones and their events *)

Definition recorded (o : Outbox.Table) (key : string) : Prop :=
  ∃ id e, o !! id = Some e ∧ Outbox.DedupeKey e = key.

(** Only the goals and the outbox may differ. *)
Definition moved (w w' : World) : Prop :=
  VaultServiceBooks.same true (vw w) (vw w') ∧ goal_deposits w' = goal_deposits w ∧
  schedules w' = schedules w ∧ streaks w' = streaks w ∧ signals w' = signals w.

Lemma quiet_moved w w' : quiet w w' → moved w w'.
Proof. intros (?&?&?&?&?&?&?). by split_and!. Qed.

Lemma moved_trans w1 w2 w3 : moved w1 w2 → moved w2 w3 → moved w1 w3.
Proof.
  intros (V1&?&?&?&?) (V2&?&?&?&?). split; [by eapply VaultServiceBooks.same_trans|]. split_and!; congruence.
Qed.

Lemma moved_quiet w w' : moved w w' → goals w' = goals w → outbox w' = outbox w → quiet w w'.
Proof. intros (?&?&?&?&?) ? ?. by split_and!. Qed.

Lemma key_recorded_spec t key : key_recorded t key = true ↔ recorded t key.
Proof.
  unfold key_recorded, recorded. rewrite existsb_exists. split.
  - intros (e & Hin & He). apply list_elem_of_In, Outbox.elem_of_rows in Hin as [id Hid].
    exists id, e. split; [done|]. by apply string_eqb_eq.
  - intros (id & e & Hid & He). exists e. split; [|by apply string_eqb_eq].
    apply list_elem_of_In, Outbox.elem_of_rows. by exists id.
Qed.

Lemma insert_event_outcome id e now w w1 a :
  insert_event json_valid id e now w = Ok (w1, a) →
  ∃ o, w1 = with_outbox w o ∧ keeps_events (outbox w) o ∧ recorded o (Outbox.DedupeKey e).
Proof.
  unfold insert_event, Outbox.Writer_Insert. cbn [negb]. destruct (Outbox.Validate json_valid e); [done|].
  unfold Outbox.Insert. cbv zeta. cbn [Outbox.DedupeKey Outbox.EvID Outbox.new_row].
  case_bool_decide as Hmax; [|done]. destruct (key_recorded (outbox w) (Outbox.DedupeKey e)) eqn:Ek.
  - apply key_recorded_spec in Ek as Hrec. rewrite bool_decide_eq_true_2.
    + cbn [negb andb]. intros [= <- _]. exists (outbox w). split_and!; [by destruct w|by intros ?|done].
    + destruct Hrec as (i & k & Hi & Hk). apply Exists_exists. exists k. split; [|done].
      apply Outbox.elem_of_rows. by exists i.
  - rewrite bool_decide_eq_false_2.
    + cbn [negb andb]. case_bool_decide as Hfree; [done|]. intros [= <- _]. eexists. split; [done|].
      rewrite <- eq_None_not_Some in Hfree. split.
      * intros key (i & k & Hi & Hk). exists i, k. split; [|done]. rewrite lookup_insert_ne; [done|].
        intros Heq. by rewrite Heq, Hi in Hfree.
      * eexists _, _. split; [apply lookup_insert_eq|done].
    + rewrite Exists_exists. intros (k & Hin & Hk). apply Outbox.elem_of_rows in Hin as [i Hi].
      apply not_true_iff_false in Ek. apply Ek, key_recorded_spec. by exists i, k.
Qed.

Lemma keeps_events_trans o1 o2 o3 : keeps_events o1 o2 → keeps_events o2 o3 → keeps_events o1 o3.
Proof. intros H1 H2 key Hk. by apply H2, H1. Qed.

Lemma keeps_events_refl o : keeps_events o o.
Proof. by intros key. Qed.

Lemma insert_events_outcome es w :
  let p := insert_events json_valid es w in
  moved w p.1 ∧ goals p.1 = goals w ∧ keeps_events (outbox w) (outbox p.1) ∧
  (p.2 = Ok () → ∀ e, e ∈ es → recorded (outbox p.1) (Outbox.DedupeKey e)).
Proof.
  revert w. induction es as [|e es IH]; intros w; cbv zeta.
  - split_and!; [apply quiet_moved, quiet_refl|done|apply keeps_events_refl|].
    intros _ e He. by apply not_elem_of_nil in He.
  - cbn [insert_events]. rewrite run_bind.
    assert (quiet w (fst (uuid_New w))) as Hq by (apply on_vaults_quiet, VaultServiceBooks.reads_uuid).
    destruct (uuid_New w) as [w1 [id|e1]]; cbn in Hq;
      [|pose proof Hq as (_ & Hgo & _ & _ & _ & Hout & _); cbn; rewrite Hgo, Hout;
        by split_and!; [apply quiet_moved| |apply keeps_events_refl|]].
    rewrite run_bind.
    destruct (exec_outcome (insert_event json_valid id e) w1) as [[Hq1 Hn]|(w2 & w3 & a & Hq1 & Hf & ->)].
    + assert (quiet w (fst (exec (insert_event json_valid id e) w1))) as Hq2 by (by eapply quiet_trans).
      destruct (exec _ w1) as [w2 [a|e1]]; [by destruct (Hn a)|]. cbn in *.
      pose proof Hq2 as (_ & Hgo & _ & _ & _ & Hout & _). rewrite Hgo, Hout.
      by split_and!; [apply quiet_moved| |apply keeps_events_refl|].
    + apply insert_event_outcome in Hf as (o & -> & Hkeep & Hrec).
      assert (quiet w w2) as Hq2 by (by eapply quiet_trans).
      pose proof Hq2 as (_ & Hgo & _ & _ & _ & Hout & _). rewrite Hout in Hkeep.
      specialize (IH (with_outbox w2 o)) as (Hm & Hg & Hk & Hr). cbn in Hg, Hk. split_and!.
      * eapply moved_trans; [by apply quiet_moved|]. by eapply moved_trans; [|exact Hm].
      * by rewrite Hg.
      * by eapply keeps_events_trans.
      * intros Hok e' He'. apply elem_of_cons in He' as [->|He']; [by apply Hk|by apply Hr].
Qed.

Lemma milestone_events_outcome g b pct l w :
  let p := milestone_events uuid_String json_valid marshal_milestone g b pct l w in
  quiet w p.1 ∧ ∀ es, p.2 = Ok es → ∀ m, m ∈ l → ∃ e, e ∈ es ∧
    Outbox.DedupeKey e = MilestoneDedupeKey uuid_String (GoalID g) m.
Proof.
  revert w. induction l as [|m l IH]; intros w; cbv zeta.
  - split; [apply quiet_refl|]. intros es _ m Hm. by apply not_elem_of_nil in Hm.
  - cbn [milestone_events]. rewrite run_bind.
    assert (quiet w (fst (uuid_New w))) as Hq by (apply on_vaults_quiet, VaultServiceBooks.reads_uuid).
    destruct (uuid_New w) as [w1 [id|e1]]; cbn in Hq |- *; [|split; [exact Hq|by intros ? [=]]].
    destruct (NewGoalMilestoneEvent _ _ _ id g b pct m) as [e|e1] eqn:En; [|split; [exact Hq|by intros ? [=]]].
    rewrite run_bind. specialize (IH w1) as [Hq1 He].
    assert (Outbox.DedupeKey e = MilestoneDedupeKey uuid_String (GoalID g) m) as Hkey.
    { unfold NewGoalMilestoneEvent, Outbox.NewEvent in En. destruct (marshal_milestone _ _ _ _ _); [|done].
      destruct (Outbox.Validate _ _); [done|]. by injection En as <-. }
    destruct (milestone_events _ _ _ g b pct l w1) as [w2 [es|e2]]; cbn in *;
      (split; [by eapply quiet_trans|]); [|by intros ? [=]].
    intros ? [= <-] m' Hm'. apply elem_of_cons in Hm' as [->|Hm'].
    + exists e. split; [by left|done].
    + destruct (He es eq_refl m' Hm') as (e' & Hin & Hk'). exists e'. split; [by right|done].
Qed.

Lemma DetectNewMilestones_new pct notified :
  NoDup (DetectNewMilestones pct notified) ∧
  ∀ m, m ∈ DetectNewMilestones pct notified → m ∈ ProgressMilestones ∧ m ∉ notified.
Proof.
  unfold DetectNewMilestones. split.
  - apply NoDup_ListNoDup, List.NoDup_filter, NoDup_ListNoDup.
    unfold ProgressMilestones. repeat (apply NoDup_cons; split; [set_solver|]). by apply NoDup_nil.
  - intros m Hm. apply list_elem_of_In, List.filter_In in Hm as [Hin Hm].
    split; [by apply list_elem_of_In|]. apply andb_true_iff in Hm as [_ Hm]. apply negb_true_iff in Hm.
    intros Hc. apply not_true_iff_false in Hm. apply Hm. unfold ContainsMilestone. apply existsb_exists.
    exists m. split; [by apply list_elem_of_In|by apply Z.eqb_eq].
Qed.

(** A commit is rolled back, or it is not. *)
Lemma commit_cases {A} w0 (a : A) w :
  ∃ w', quiet w w' ∧ (commit w0 a w = (rollback w0 w', Err lost_connection) ∨ fst (commit w0 a w) = w').
Proof.
  unfold commit. pose proof (round_trip_quiet w) as Hq. destruct (round_trip w) as [[] w1]; cbn in Hq.
  - pose proof (round_trip_quiet w1) as Hq1. destruct (round_trip w1) as [[] w2]; cbn in Hq1;
      (exists w2; split; [by eapply quiet_trans|]); [by right|by left].
  - exists w1. split; [done|by right].
Qed.

Lemma world_eq w w' :
  vw w = vw w' → goals w = goals w' → goal_deposits w = goal_deposits w' → schedules w = schedules w' →
  streaks w = streaks w' → outbox w = outbox w' → signals w = signals w' → w = w'.
Proof. destruct w, w'. cbn. congruence. Qed.

(** The flags and their events are written together or not at all, and not at all only
    when the call fails. *)
Lemma milestones_outcome id ms es w :
  let p := UpdateMilestonesWithOutbox json_valid id ms es w in
  (quiet w p.1 ∧ p.2 ≠ Ok ()) ∨
  ∃ w1 g o, quiet w w1 ∧ goals w1 !! id = Some g ∧ keeps_events (outbox w1) o ∧
    (∀ e, e ∈ es → recorded o (Outbox.DedupeKey e)) ∧
    p.1 = with_outbox (with_goals w1 (<[id := with_updated (with_notified g ms) (clock w1)]> (goals w1))) o.
Proof.
  cbv zeta. unfold UpdateMilestonesWithOutbox, atomically. pose proof (round_trip_quiet w) as Hq.
  destruct (round_trip w) as [[] w1]; [by left|]. cbn in Hq. rewrite run_bind. unfold UpdateMilestones.
  match goal with |- context [update_goal ?i ?p ?f ?w] =>
    destruct (update_outcome i p f w) as [[Hq1 Hn]|(w2 & g & g' & Hq1 & Hl & _ & Ho & ->)] end.
  - destruct (update_goal _ _ _ w1) as [w2 [[]|e]]; [done|]. left. split; [|done].
    eapply quiet_trans; [exact Hq|]. destruct Hq1 as (Hv & _ & _ & _ & _ & _ & Hs). by split_and!.
  - injection Ho as <-.
    set (w3 := with_goals w2 _). pose proof (insert_events_outcome es w3) as (Hm & Hg & Hk & Hr).
    destruct (insert_events json_valid es w3) as [w4 [[]|e]]; cbn in Hm, Hg, Hk, Hr.
    + destruct (commit_cases w1 () w4) as (w5 & Hq4 & Hc).
      assert (VaultServiceBooks.same true (vw w1) (vw w5)) as Hsame.
      { eapply VaultServiceBooks.same_trans; [apply Hq1|].
        eapply VaultServiceBooks.same_trans; [apply Hm|apply Hq4]. }
      assert (quiet w (with_vw w1 (vw w5))) as Hqv.
      { eapply quiet_trans; [exact Hq|]. by split_and!. }
      destruct Hm as (_ & Hd & Hsch & Hstr & Hsig).
      destruct Hq4 as (_ & Hg5 & Hd5 & Hsch5 & Hstr5 & Ho5 & Hsig5).
      destruct Hq1 as (Hv1 & Hg1 & Hd1 & Hsch1 & Hstr1 & Ho1 & Hsig1). cbn in *.
      destruct Hc as [->|Hc].
      * left. split; [|done]. eapply quiet_trans; [exact Hqv|].
        split; [apply VaultServiceBooks.same_refl|]. cbn. split_and!; try done; congruence.
      * right. exists (with_vw w1 (vw w5)), g, (outbox w4). split_and!; [done|by cbn; rewrite <- Hg1| | |].
        -- cbn. by rewrite <- Ho1.
        -- by apply Hr.
        -- rewrite Hc. apply world_eq; cbn; try congruence. rewrite Hg5, Hg. unfold w3. cbn. rewrite Hg1.
           assert (clock w2 = clock (with_vw w1 (vw w5))) as ->; [|done].
           destruct Hv1 as ((_ & _ & _ & _ & Hc1) & _), Hsame as ((_ & _ & _ & _ & Hc2) & _).
           unfold clock. cbn. by rewrite Hc1, Hc2.
    + left. split; [|done]. eapply quiet_trans; [exact Hq|].
      destruct Hm as (Hv & Hd & Hsch & Hstr & Hsig), Hq1 as (Hv1 & Hg1 & Hd1 & Hsch1 & Hstr1 & Ho1 & Hsig1).
      split; [by eapply VaultServiceBooks.same_trans|]. cbn in *. split_and!; congruence.
Qed.

Lemma runs_announce g b pct r w :
  goals w !! GoalID g = Some r → touched r → deleted r = false → NotifiedMilestones r = NotifiedMilestones g →
  runs (announce uuid_String json_valid marshal_milestone g b pct) w (λ _ _, True).
Proof.
  intros Hl Ht Hd Hn. unfold announce. pose proof (DetectNewMilestones_new pct (NotifiedMilestones g)) as [Hnd Hnew].
  destruct (DetectNewMilestones pct (NotifiedMilestones g)) as [|m0 rest] eqn:E; [by apply runs_ret|].
  set (new := m0 :: rest) in *. cbv zeta. set (g' := with_notified g (NotifiedMilestones g ++ new)).
  eapply runs_bind with (Q := λ _ _, True); [|by intros; apply runs_ret].
  unfold recordMilestones. eapply runs_bind with (Q := λ w1 es, quiet w w1 ∧ ∀ m, m ∈ new → ∃ e, e ∈ es ∧
    Outbox.DedupeKey e = MilestoneDedupeKey uuid_String (GoalID g) m).
  { pose proof (milestone_events_outcome g' b pct new w) as [Hq He]. apply runs_quiet; [done|].
    intros es Hes. split; [done|]. by apply He. }
  intros w1 es Hg1 [Hq Hes] _.
  destruct (milestones_outcome (GoalID g') (NotifiedMilestones g') es w1)
    as [[Hq1 _]|(w2 & r2 & o & Hq1 & Hl2 & Hk & Hr & Hw)].
  - split; [by apply rtc_once, on_session|done].
  - assert (quiet w w2) as Hq2 by (by eapply quiet_trans). destruct Hq2 as (_ & Hgo & _).
    change (GoalID g') with (GoalID g) in *. rewrite Hgo, Hl in Hl2. injection Hl2 as <-.
    split; [|done]. eapply rtc_l; [by apply on_session|]. apply rtc_once. rewrite Hw.
    change (NotifiedMilestones g') with (NotifiedMilestones g ++ new). rewrite <- Hn.
    apply on_milestones; [by rewrite Hgo|done|done|done|by rewrite Hn|done|].
    intros m Hm. destruct (Hes m Hm) as (e & Hin & Hkey). unfold milestone_recorded. rewrite <- Hkey.
    by apply Hr.
Qed.


(** *** Operations that only read *)

Definition calm {A} (m : M A) : Prop := ∀ w, quiet w (fst (m w)).

Lemma calm_ret {A} (a : A) : calm (mret a).
Proof. intros w. apply quiet_refl. Qed.

Lemma calm_throw {A} e : calm (throw e : M A).
Proof. intros w. apply quiet_refl. Qed.

Lemma calm_lift {A} (r : result SavErr A) : calm (lift r).
Proof. intros w. apply quiet_refl. Qed.

Lemma calm_check r : calm (check r).
Proof. intros w. apply quiet_refl. Qed.

Lemma calm_now : calm now.
Proof. intros w. apply quiet_refl. Qed.

Lemma calm_query {A} (f : World → A) : calm (query f).
Proof. intros w. apply query_outcome. Qed.

Lemma calm_uuid : calm uuid_New.
Proof. intros w. apply on_vaults_quiet, VaultServiceBooks.reads_uuid. Qed.

Lemma calm_bind {A B} (m : M A) (k : A → M B) : calm m → (∀ a, calm (k a)) → calm (m ≫= k).
Proof.
  intros Hm Hk w. rewrite run_bind. specialize (Hm w). destruct (m w) as [w1 [a|e]]; [|done].
  eapply quiet_trans; [exact Hm|apply Hk].
Qed.

Lemma calm_try_vault id : calm (try_vault scan_numeric id).
Proof.
  intros w. unfold try_vault. pose proof (VaultServiceBooks.reads_GetVault scan_numeric id (vw w)) as Hs.
  destruct (VaultService.GetVault scan_numeric id (vw w)) as [v x]. by split_and!.
Qed.

Lemma runs_calm {A} (m : M A) w (Q : World → A → Prop) :
  calm m → (∀ w1 a, quiet w w1 → m w = (w1, Ok a) → Q w1 a) → runs m w Q.
Proof.
  intros Hm HQ. apply runs_quiet; [apply Hm|]. specialize (Hm w). destruct (m w) as [w1 [a|e]]; [|done].
  intros ? [= <-]. by apply HQ.
Qed.

End held.

Create HintDb savings_calm.
#[export] Hint Resolve calm_ret calm_throw calm_lift calm_check calm_now calm_query calm_uuid calm_try_vault
  : savings_calm.

(** Walks through an operation that only reads. *)
Ltac calm :=
  repeat match goal with
  | |- calm (mbind _ _) => apply calm_bind; [|intros ?]
  | |- calm (if ?b then _ else _) => destruct b
  | |- calm (match ?x with _ => _ end) => destruct x
  | |- calm (let '_ := _ in _) => cbv zeta
  end; auto with savings_calm.

Section requests.
  Context `{DecimalOrderLaws} `{F : !DecimalFormat}.
  Context (scan_numeric : Z → decimal).
  Context (scan_numeric_value : ∀ z, (value (scan_numeric z) == VaultRepo.col z)%Q).
  Context (uuid_String : Z → string).
  Context (Float64 : decimal → float64) (NewFromFloat : float64 → decimal).
  Context (json_valid : string → bool).
  Context (marshal_milestone : GoalOf decimal → decimal → float64 → Z → string → option string).
  Context (unicode_symbol : Z → bool).
  Context (matches : string → GoalOf Z → bool).

Lemma calm_velocity g b : calm (velocity scan_numeric Float64 NewFromFloat g b).
Proof. unfold velocity, SumRecentDeposits, quo. calm. Qed.

Lemma calm_vault_check svc u v c : calm (validateGoalVault scan_numeric svc u v c).
Proof. unfold validateGoalVault. calm. Qed.

Lemma calm_found g u : calm (found g u).
Proof. unfold found. calm. Qed.

Lemma calm_scan_row cols g : calm (scan_row scan_numeric cols g).
Proof. unfold scan_row. calm. Qed.

Lemma calm_template l id : calm (Template_GetByID l id).
Proof. unfold Template_GetByID. calm. Qed.

Lemma calm_deadline g t c d : calm (update_deadline scan_numeric g t c d).
Proof. unfold update_deadline, SumVaultBalance. calm. Qed.

Section acting.
  Context (user : option Z) (touched : GoalOf Z → Prop).
  Context (touched_kept : ∀ g g', GoalID g' = GoalID g → GoalUserID g' = GoalUserID g → touched g → touched g').

Notation runs := (runs uuid_String user touched).
Notation holds := (holds touched).
Notation EnrichProgress := (EnrichProgress scan_numeric uuid_String Float64 NewFromFloat json_valid marshal_milestone).

Lemma runs_EnrichProgress svc g w : holds w g → runs (EnrichProgress svc g) w (λ _ _, True).
Proof.
  intros Hh. unfold SavingsGoals.EnrichProgress. eapply runs_bind.
  { eapply runs_weaken; [by apply runs_currentAmount|]. intros w1 b _ [Hq Hb].
    exact (conj (holds_quiet _ _ _ _ Hq Hh) Hb). }
  intros w1 b _ [Hh1 Hb]. cbv zeta. eapply runs_bind; [by eapply runs_auto_complete|].
  intros w2 g1 _ (Hid & Hn & r & Hl & Ht & Hd & Hr). eapply runs_bind.
  { eapply runs_announce with (r := r); [by eauto..|by rewrite Hid|done|done|congruence]. }
  intros w3 g2 _ _. eapply runs_bind with (Q := λ _ _, True).
  { by apply runs_calm; [apply calm_velocity|]. }
  intros w4 [[avg days] ontrack] _ _. by apply runs_ret.
Qed.

(** Reading a goal that is there. *)
Lemma runs_GetByID id w :
  runs (GetByID scan_numeric id) w (λ w1 g, quiet w w1 ∧ ∃ r, goals w1 !! id = Some r ∧ g = scan_goal scan_numeric r ∧
    deleted r = false).
Proof.
  unfold GetByID. eapply runs_bind.
  { apply runs_query with (Q := λ w1 a, quiet w w1 ∧ a = match goals w1 !! id with
      | Some g => if deleted g then None else Some g | None => None end). by split. }
  intros w1 a _ [Hq ->]. unfold scan_row. destruct (goals w1 !! id) as [r|] eqn:El; [|apply runs_throw].
  destruct (deleted r) eqn:Ed; [apply runs_throw|]. apply runs_lift. intros g [= <-]. split; [done|].
  by exists r.
Qed.

End acting.

(** *** The owner's requests *)

Section owner.
  Context (u : Z).

Notation mine := (λ g : GoalOf Z, GoalUserID g = u).
Notation runs := (runs uuid_String (Some u) mine).
Notation holds := (holds mine).
Notation EnrichProgress := (EnrichProgress scan_numeric uuid_String Float64 NewFromFloat json_valid marshal_milestone).

Lemma runs_enrich svc g w : holds w g → runs (EnrichProgress svc g) w (λ _ _, True).
Proof. intros Hh. eapply runs_EnrichProgress; [|exact Hh]. intros g0 g' _ Hu Hg. cbn in *. congruence. Qed.

(** A goal of someone else's is not found. *)
Lemma runs_own {B} (k : GoalOf decimal → M B) id w Q :
  (∀ w1 r, good w1 → quiet w w1 → goals w1 !! id = Some r → GoalID r = id → GoalUserID r = u →
     deleted r = false → runs (k (scan_goal scan_numeric r)) w1 Q) →
  runs (g ← GetByID scan_numeric id; found g u ;; k g) w Q.
Proof.
  intros Hk. eapply runs_bind; [apply runs_GetByID|]. intros w1 g Hg1 (Hq & r & Hl & -> & Hd).
  destruct (Hg1 id r Hl) as [Hid _]. unfold found. cbn.
  destruct (GoalUserID r =? u) eqn:E; cbn [negb].
  - apply Z.eqb_eq in E. eapply runs_bind with (Q := λ w2 _, w2 = w1); [by apply runs_ret|].
    intros w2 _ _ ->. by apply Hk.
  - eapply runs_bind; [apply runs_throw with (Q := λ _ _, False)|done].
Qed.

(** The row after a write that leaves what is held of it. *)
Lemma holds_updated w id r r' t g :
  GoalID r' = id → GoalUserID r' = u → deleted r' = false →
  GoalID g = GoalID r' → GoalUserID g = GoalUserID r' → Status (life g) = Status (life r') →
  NotifiedMilestones g = NotifiedMilestones r' → VaultID (terms g) = VaultID (terms r') →
  Currency (terms g) = Currency (terms r') →
  (∀ k, (value (TargetAmount (terms g)) <= VaultRepo.col k)%Q → TargetAmount (terms r') ≤ k) →
  goals w !! id = Some r →
  holds (with_goals w (<[id := with_updated r' t]> (goals w))) g.
Proof.
  intros Hid Hu Hd Hgid Hgu Hs Hn Hv Hc Hk Hl. exists (with_updated r' t). unfold held. cbn.
  rewrite Hgid, Hid, lookup_insert_eq. by split_and!.
Qed.

Lemma target_of_row r k :
  (value (TargetAmount (terms (scan_goal scan_numeric r))) <= VaultRepo.col k)%Q → TargetAmount (terms r) ≤ k.
Proof. cbn. rewrite scan_numeric_value. by rewrite col_le. Qed.

(** A write to one's own goal, and the progress after it. *)
Lemma runs_write svc id r w (p : GoalOf Z → bool) f g :
  goals w !! id = Some r → GoalID r = id → GoalUserID r = u →
  (∀ w1 r', quiet w w1 → f (clock w1) w1 r = Ok r' →
     goal_step w1 r r' ∧ holds (with_goals w1 (<[id := with_updated r' (clock w1)]> (goals w1))) g) →
  runs (update_goal id p f ;; EnrichProgress svc g) w (λ _ _, True).
Proof.
  intros Hl Hid Hu Hf. eapply runs_bind with (Q := λ w1 _, holds w1 g); [|intros; by apply runs_enrich].
  apply runs_update. intros w1 r1 r' Hq Hl1 _ Ho. pose proof Hq as (_ & Hgo & _). rewrite Hgo, Hl in Hl1.
  injection Hl1 as <-. by destruct (Hf w1 r' Hq Ho).
Qed.

Lemma runs_same {A} (m : M A) w Q : calm m → (∀ w1 a, quiet w w1 → Q w1 a) → runs m w Q.
Proof. intros Hm HQ. apply runs_calm; [done|]. intros w1 a Hq _. by apply HQ. Qed.

Lemma holds_row w id r :
  goals w !! id = Some r → GoalID r = id → GoalUserID r = u → deleted r = false →
  holds w (scan_goal scan_numeric r).
Proof. intros Hl Hid Hu Hd. eapply held_scan; [done|by rewrite Hid|done|done]. Qed.

(** The row and the goal in memory change together. *)
Ltac together Hl :=
  eapply holds_updated; try reflexivity; try done; try exact Hl; try apply target_of_row.

Lemma runs_Get svc id w : runs (Get scan_numeric uuid_String Float64 NewFromFloat json_valid marshal_milestone svc u id) w (λ _ _, True).
Proof. unfold Get. apply runs_own. intros w1 r _ _ Hl Hid Hu Hd. by eapply runs_enrich, holds_row. Qed.

(** One write by [constr], then the progress. *)
Ltac write Hl constr :=
  eapply runs_write; [done..|]; intros ?w2 ?r' ?Hq ?Ho; injection Ho as <-;
  pose proof Hq as (_ & ?Hgo & _); rewrite <- Hgo in Hl; split; [constr|together Hl].

Lemma runs_Pause svc id w : runs (Pause scan_numeric uuid_String Float64 NewFromFloat json_valid marshal_milestone svc u id) w (λ _ _, True).
Proof.
  unfold Pause. apply runs_own. intros w1 r _ _ Hl Hid Hu Hd. cbn.
  destruct (Status (life r)) eqn:Es; try apply runs_throw; unfold UpdateStatus;
    write Hl ltac:(apply step_status; [done|by rewrite Es]).
Qed.

Lemma runs_Resume svc id w : runs (Resume scan_numeric uuid_String Float64 NewFromFloat json_valid marshal_milestone svc u id) w (λ _ _, True).
Proof.
  unfold Resume. apply runs_own. intros w1 r _ _ Hl Hid Hu Hd. cbn.
  destruct (Status (life r)) eqn:Es; try apply runs_throw. unfold UpdateStatus.
  write Hl ltac:(apply step_status; [done|by rewrite Es]).
Qed.

Lemma runs_Archive svc id w : runs (Archive scan_numeric uuid_String Float64 NewFromFloat json_valid marshal_milestone svc u id) w (λ _ _, True).
Proof.
  unfold Archive. apply runs_own. intros w1 r _ _ Hl Hid Hu Hd. cbn. case_bool_decide as Hs.
  - by eapply runs_enrich, holds_row.
  - unfold UpdateStatus. write Hl ltac:(apply step_status; [done|by destruct (Status (life r))]).
Qed.

Lemma runs_Unarchive svc id w : runs (Unarchive scan_numeric uuid_String Float64 NewFromFloat json_valid marshal_milestone svc u id) w (λ _ _, True).
Proof.
  unfold Unarchive. apply runs_own. intros w1 r _ _ Hl Hid Hu Hd. cbn. case_bool_decide as Hs; cbn [negb].
  - unfold UpdateStatus. write Hl ltac:(apply step_status; [done|by rewrite Hs]).
  - by eapply runs_enrich, holds_row.
Qed.

Lemma runs_UpdateNotes svc id n w : runs (UpdateNotes scan_numeric uuid_String Float64 NewFromFloat json_valid marshal_milestone svc u id n) w (λ _ _, True).
Proof.
  unfold UpdateNotes, Goal_UpdateNotes. apply runs_own. intros w1 r _ _ Hl Hid Hu Hd.
  write Hl ltac:(by apply step_notes).
Qed.

Lemma runs_Share svc id w : runs (Share scan_numeric uuid_String Float64 NewFromFloat json_valid marshal_milestone svc u id) w (λ _ _, True).
Proof.
  unfold Share. apply runs_own. intros w1 r _ _ Hl Hid Hu Hd. cbn.
  destruct (ShareToken r) eqn:Et; [by eapply runs_enrich, holds_row|].
  eapply runs_bind; [apply runs_same with (Q := λ w2 _, quiet w1 w2); [apply calm_uuid|done]|].
  intros w2 token _ Hq0. unfold SetShareToken. pose proof Hq0 as (_ & Hgo0 & _). rewrite <- Hgo0 in Hl.
  eapply runs_write; [done..|]. intros w3 r' Hq Ho. destruct (existsb _ _); [done|]. injection Ho as <-.
  pose proof Hq as (_ & Hgo & _). rewrite <- Hgo in Hl. split; [by apply step_share|together Hl].
Qed.

Lemma runs_Unshare id w : runs (Unshare scan_numeric u id) w (λ _ _, True).
Proof.
  unfold Unshare. apply runs_own. intros w1 r _ _ Hl Hid Hu Hd. unfold ClearShareToken.
  apply runs_update. intros w2 r1 r' (_ & Hgo & _) Hl1 _ [= <-]. rewrite Hgo, Hl in Hl1.
  injection Hl1 as <-. by split_and!; [|apply step_share|].
Qed.

Lemma runs_Delete id w : runs (Delete u id) w (λ _ _, True).
Proof.
  unfold Delete, Goal_Delete. apply runs_update. intros w1 r r' _ _ Hp [= <-].
  apply andb_true_iff in Hp as [Ho Hd]. apply negb_true_iff in Hd. apply Z.eqb_eq in Ho.
  by split_and!; [|apply step_deleted|].
Qed.

Lemma runs_Complete svc id action w : runs (Complete scan_numeric uuid_String Float64 NewFromFloat json_valid marshal_milestone svc u id action) w (λ _ _, True).
Proof.
  unfold Complete. apply runs_own. intros w1 r Hg1 _ Hl Hid Hu Hd. cbn. case_bool_decide as Hs; [apply runs_throw|].
  destruct (negb _ && negb _); [apply runs_throw|].
  eapply runs_bind with (Q := λ w2 b, quiet w1 w2 ∧ b = scan_numeric (vault_balance (GoalUserID r) (Currency (terms r)) w2)).
  { apply runs_SumVaultBalance. by split. }
  intros w2 b _ [Hq ->]. destruct (_ && _) eqn:Hr; [apply runs_throw|].
  assert (TargetAmount (terms r) ≤ vault_balance (GoalUserID r) (Currency (terms r)) w1) as Hreach.
  { destruct (Hg1 id r Hl) as [_ Hpos]. apply andb_false_iff in Hr as [Hr|Hr].
    - apply not_true_iff_false in Hr. destruct Hr. apply IsPositive_value. rewrite scan_numeric_value.
      unfold VaultRepo.col, Qlt. cbn. lia.
    - apply not_true_iff_false in Hr. rewrite LessThan_value, !scan_numeric_value in Hr.
      rewrite (quiet_balance _ _ _ _ Hq) in Hr. by apply col_le, Qnot_lt_le. }
  pose proof Hq as (_ & Hgo & _). rewrite <- Hgo in Hl.
  assert (DeletedAt (life r) = None) as Hdel
    by (revert Hd; unfold deleted; by destruct (DeletedAt (life r))).
  unfold MarkCompleted. eapply runs_bind with (Q := λ w3 _, clock w3 = clock w1 ∧
    ∃ r', goals w3 !! id = Some r' ∧ with_updated r' 0 =
      with_updated (with_life r (mkLife GoalStatusCompleted (Some (clock w3)) action None)) 0).
  { apply runs_update. intros w3 r1 r' Hq3 Hl1 _ Ho. pose proof Hq3 as (_ & Hgo3 & _).
    rewrite Hgo3, Hl in Hl1. injection Hl1 as <-. destruct (fits 20 action); [|done]. injection Ho as <-.
    rewrite Hdel. destruct (quiet_db _ _ Hq) as [_ Hc], (quiet_db _ _ Hq3) as [_ Hc3].
    split_and!; [done| |by transitivity (clock w2); [exact Hc3|]|].
    - apply step_completed; [done|done|]. left. rewrite (quiet_balance _ _ _ _ Hq3), (quiet_balance _ _ _ _ Hq).
      done.
    - eexists. cbn. by rewrite lookup_insert_eq. }
  intros w3 _ _ [Hc3 (r' & Hl3 & Hr')].
  eapply runs_bind with (Q := λ w4 t, w4 = w3 ∧ t = clock w3); [by apply runs_now|]. intros w4 t _ [-> ->].
  eapply runs_bind with (Q := λ w5 _, goals w5 = goals w3).
  { destruct (outcomeRec svc); [by apply runs_signal|by apply runs_ret]. }
  intros w5 _ _ Hgo5. apply runs_enrich. exists r'. unfold held. rewrite Hgo5.
  assert (∃ t, r' = with_updated (with_life r (mkLife GoalStatusCompleted (Some (clock w3)) action None)) t)
    as [t ->].
  { exists (UpdatedAt r'). destruct r'. unfold with_updated, with_life in *. cbn in *.
    injection Hr'. intros. by subst. }
  cbn. rewrite Hid. split_and!; try done. apply target_of_row.
Qed.

Lemma runs_Restore svc id w : runs (Restore scan_numeric uuid_String Float64 NewFromFloat json_valid marshal_milestone svc u id) w (λ _ _, True).
Proof.
  unfold Restore, GetByIDIncludingDeleted. eapply runs_bind with (Q := λ w1 g, quiet w w1 ∧
    ∃ r, goals w1 !! id = Some r ∧ g = scan_goal scan_numeric r).
  { eapply runs_bind.
    - apply runs_query with (Q := λ w1 a, quiet w w1 ∧ a = goals w1 !! id). by split.
    - intros w1 a _ [Hq ->]. unfold scan_row. destruct (goals w1 !! id) as [r|] eqn:El; [|apply runs_throw].
      apply runs_lift. intros g [= <-]. split; [done|]. by exists r. }
  intros w1 g Hg1 (_ & r & Hl & ->). destruct (Hg1 id r Hl) as [Hid _]. unfold found. cbn.
  destruct (GoalUserID r =? u) eqn:Eu; cbn [negb]; [apply Z.eqb_eq in Eu|
    eapply runs_bind; [apply runs_throw with (Q := λ _ _, False)|done]].
  eapply runs_bind with (Q := λ w2 _, w2 = w1); [by apply runs_ret|]. intros w2 _ _ ->.
  destruct (DeletedAt (life r)) as [d|] eqn:Ed; [|apply runs_throw].
  eapply runs_bind with (Q := λ w2 t, w2 = w1 ∧ t = clock w1); [by apply runs_now|]. intros w2 t _ [-> ->].
  destruct (_ <? _) eqn:Ew; [apply runs_throw|]. apply Z.ltb_ge in Ew. unfold Goal_Restore.
  eapply runs_write; [done..|]. intros w2 r' Hq [= <-]. pose proof Hq as (_ & Hgo & _). rewrite <- Hgo in Hl.
  destruct (quiet_db _ _ Hq) as [_ Hc]. split; [eapply step_restored; [done|by rewrite Hc]|together Hl].
Qed.

Lemma stored_terms t w t' :
  store_terms t w = Ok t' →
  VaultRepo.numeric 48 (value (TargetAmount t)) = Ok (TargetAmount t') ∧ 0 < TargetAmount t' ∧
  VaultID t' = VaultID t ∧ Currency t' = Currency t.
Proof.
  unfold store_terms, numeric. destruct (VaultRepo.numeric 48 _) as [z|e]; [|done]. cbn.
  destruct (numeric_opt _ _) as [min|]; [|done]. cbn. destruct (numeric_opt _ _) as [max|]; [|done]. cbn.
  destruct (negb _); [done|]. destruct (z <=? 0) eqn:Ez; [done|]. apply Z.leb_gt in Ez.
  destruct (match VaultID t with Some _ => _ | None => _ end); [done|]. by intros [= <-].
Qed.

Lemma runs_Create svc in_ w : runs (Create scan_numeric uuid_String Float64 NewFromFloat json_valid marshal_milestone unicode_symbol svc u in_) w (λ _ _, True).
Proof.
  unfold Create.
  eapply runs_bind; [by apply runs_same with (Q := λ _ _, True); [calm|]|]. intros w1 _ _ _.
  eapply runs_bind; [by apply runs_same with (Q := λ _ _, True); [calm|]|]. intros w2 t _ _.
  eapply runs_bind; [by apply runs_same with (Q := λ _ _, True); [calm|]|]. intros w3 _ _ _.
  eapply runs_bind; [by apply runs_same with (Q := λ _ _, True); [calm|]|]. intros w4 category _ _.
  eapply runs_bind; [by apply runs_same with (Q := λ _ _, True); [calm|]|]. intros w5 _ _ _.
  eapply runs_bind; [by apply runs_same with (Q := λ _ _, True); [calm|]|]. intros w6 _ _ _.
  eapply runs_bind; [by apply runs_same with (Q := λ _ _, True); [calm|]|]. intros w7 _ _ _.
  eapply runs_bind; [by apply runs_same with (Q := λ _ _, True); [calm|]|]. intros w8 id _ _.
  eapply runs_bind.
  { apply runs_same with (Q := λ _ _, True); [|done]. destruct (InVaultID in_); [apply calm_vault_check|calm]. }
  intros w9 _ _ _. eapply runs_bind with (Q := λ w10 g, holds w10 g); [|intros; by apply runs_enrich].
  unfold Goal_Create. set (t0 := mkTerms _ _ _ _ _ _ _ _ _ _ _). eapply runs_bind with (Q := λ w10 r,
    goals w10 !! id = Some r ∧ GoalID r = id ∧ GoalUserID r = u ∧ life r = mkLife GoalStatusActive None "" None ∧
    NotifiedMilestones r = [] ∧ VaultRepo.numeric 48 (value (TargetAmount t0)) = Ok (TargetAmount (terms r)) ∧
    VaultID (terms r) = VaultID t0 ∧ Currency (terms r) = Currency t0).
  - intros Hg. destruct (exec_outcome (insert_goal id u t0) w9) as [[Hq Hn]|(w10 & w11 & r & Hq & Ho & ->)].
    + split; [by apply rtc_once, on_session|]. intros a Ha. by destruct (Hn a).
    + unfold insert_goal in Ho. destruct (store_terms t0 w10) as [t'|e] eqn:Et; [|done]. cbn in Ho.
      apply stored_terms in Et as (Hz & Hpos & Hv & Hc). case_bool_decide as Hnew; [done|].
      apply eq_None_not_Some in Hnew. destruct (negb _); [done|]. injection Ho as <- <-.
      split.
      * eapply rtc_l; [by apply on_session|]. apply rtc_once.
        match goal with |- context [<[id := ?g]> _] => change (<[id := g]> (goals w10)) with (<[GoalID g := g]> (goals w10)) end.
        by eapply on_new.
      * intros ? [= <-]. cbn. rewrite lookup_insert_eq. by split_and!.
  - intros w10 r _ (Hl & Hid & Hu & Hlife & Hn & Hz & Hv & Hc). apply runs_ret. exists r. unfold held. cbn.
    unfold deleted. rewrite Hlife. split_and!; try done. intros k Hk. by eapply stored_le.
Qed.

Lemma runs_CreateFromTemplate svc in_ w : runs (CreateFromTemplate scan_numeric uuid_String Float64 NewFromFloat json_valid marshal_milestone unicode_symbol svc u in_) w (λ _ _, True).
Proof.
  unfold CreateFromTemplate. destruct (templateRepo svc); [|apply runs_throw].
  eapply runs_bind; [by apply runs_same with (Q := λ _ _, True); [apply calm_template|]|]. intros w1 tpl _ _.
  eapply runs_bind; [by apply runs_same with (Q := λ _ _, True); [calm|]|]. intros w2 t _ _. cbv zeta.
  apply runs_Create.
Qed.

Lemma runs_Update svc id in_ w : runs (Update scan_numeric uuid_String Float64 NewFromFloat json_valid marshal_milestone unicode_symbol svc u id in_) w (λ _ _, True).
Proof.
  unfold Update. apply runs_own. intros w1 r _ _ Hl Hid Hu Hd. cbv zeta.
  eapply runs_bind with (Q := λ w2 _, quiet w1 w2); [by apply runs_same; [apply calm_deadline|]|].
  intros w2 deadline _ Hq2.
  assert (∀ {A} (m : M A) w3, calm m → quiet w1 w3 → runs m w3 (λ w4 _, quiet w1 w4)) as Hcalm.
  { intros A m w3 Hm Hq3. apply runs_same; [done|]. intros w4 _ Hq4. by eapply quiet_trans. }
  eapply runs_bind; [by apply Hcalm; [unfold update_text; calm|]|]. intros w3 category _ Hq3.
  eapply runs_bind; [by apply Hcalm; [unfold update_text; calm|]|]. intros w4 name _ Hq4.
  eapply runs_bind; [by apply Hcalm; [unfold update_text; calm|]|]. intros w5 emoji _ Hq5.
  eapply runs_bind; [by apply Hcalm; [calm|]|]. intros w6 [] _ Hq6.
  eapply runs_bind; [by apply Hcalm; [calm|]|]. intros w7 [] _ Hq7.
  pose proof Hq7 as (_ & Hgo7 & _). rewrite <- Hgo7 in Hl. set (g' := with_terms _ _).
  unfold Goal_Update. change (GoalID g') with (GoalID r). rewrite Hid.
  eapply runs_write; [done..|]. intros w8 r' Hq8 Ho. destruct (store_terms (terms g') w8) as [t|e] eqn:Et; [|done].
  injection Ho as <-. apply stored_terms in Et as (Hz & Hpos & Hv & Hc).
  pose proof Hq8 as (_ & Hgo8 & _). rewrite <- Hgo8 in Hl. split; [by apply step_terms; [done|done|rewrite Hv]|].
  eapply holds_updated; try reflexivity; try done; try exact Hl. intros k Hk. by eapply stored_le.
Qed.

(** *** Listings *)

Lemma goal_rows_spec w g : good w → g ∈ goal_rows w ↔ goals w !! GoalID g = Some g.
Proof.
  intros Hg. unfold goal_rows. split.
  - intros Hin. apply list_elem_of_fmap in Hin as ([id g'] & -> & Hin). apply elem_of_map_to_list in Hin.
    cbn. by destruct (Hg _ _ Hin) as [-> _].
  - intros Hl. apply list_elem_of_fmap. exists (GoalID g, g). by rewrite elem_of_map_to_list.
Qed.

Lemma goal_rows_NoDup w : good w → NoDup (map GoalID (goal_rows w)).
Proof.
  intros Hg. unfold goal_rows. rewrite map_map.
  assert (map (λ x : Z * GoalOf Z, GoalID x.2) (map_to_list (goals w)) = map fst (map_to_list (goals w))) as ->.
  { apply map_ext_in. intros [id g] Hin. apply list_elem_of_In, elem_of_map_to_list in Hin. cbn.
    by destruct (Hg _ _ Hin). }
  apply NoDup_fst_map_to_list.
Qed.

Lemma scan_rows_all l gs : scan_rows scan_numeric goal_columns l = Ok gs → gs = map (scan_goal scan_numeric) l.
Proof.
  revert gs. induction l as [|g l IH]; intros gs; cbn; [by intros [= <-]|].
  destruct (scan_rows _ _ l) as [gs'|e]; cbn; [|done]. intros [= <-]. by rewrite (IH gs').
Qed.

(** The user's goals, each once. *)
Lemma runs_ListByUser category search w :
  runs (ListByUser scan_numeric matches u category search) w (λ w1 gs, quiet w w1 ∧
    Forall (holds w1) gs ∧ NoDup (map GoalID gs)).
Proof.
  unfold ListByUser. eapply runs_bind.
  { eapply runs_query with (Q := λ w1 l, quiet w w1 ∧ l = merge_sort created_ge
      (filter (λ g, GoalUserID g = u ∧ deleted g = false ∧ (category = ""%string ∨ Category (terms g) = category) ∧
                    (search = ""%string ∨ matches search g = true)) (goal_rows w1))). by split. }
  intros w1 l Hg1 [Hq ->]. apply runs_lift. intros gs Hgs. apply scan_rows_all in Hgs as ->.
  match goal with |- context [merge_sort created_ge ?l] => pose proof (merge_sort_Permutation created_ge l) as Hp end.
  split_and!; [done| |].
  - apply Forall_forall. intros g Hin. apply list_elem_of_fmap in Hin as (r & -> & Hin). rewrite Hp in Hin.
    apply list_elem_of_filter in Hin as [(Hu & Hd & _) Hin]. apply goal_rows_spec in Hin; [|done].
    by eapply holds_row.
  - rewrite map_map. change (λ x, GoalID (scan_goal scan_numeric x)) with (@GoalID Z). rewrite Hp.
    eapply sublist_NoDup; [by apply goal_rows_NoDup|]. apply fmap_sublist, sublist_filter.
Qed.

(** Enriching one goal leaves the rows of the others. *)
Lemma runs_enrich_one svc g w :
  holds w g → runs (EnrichProgress svc g) w (λ w1 _, ∀ g', GoalID g' ≠ GoalID g → holds w g' → holds w1 g').
Proof.
  intros (r & Hl & Hm & Hrest) Hg.
  set (one := λ g' : GoalOf Z, GoalUserID g' = u ∧ GoalID g' = GoalID g).
  assert (SavingsLife.runs uuid_String (Some u) one (EnrichProgress svc g) w (λ _ _, True)) as Hone.
  { eapply runs_EnrichProgress; [|].
    - intros g0 g' Hi Hu' [Hu0 Hi0]. split; congruence.
    - exists r. unfold held. split_and!; try apply Hrest; try done. by destruct (Hg _ _ Hl). }
  destruct (Hone Hg) as [Hs _]. split; [eapply goal_steps_weaken; [|exact Hs]; by intros g' []|].
  intros e _ g' Hne (r' & Hl' & Hrest'). exists r'. split; [|done].
  eapply steps_untouched; [exact Hs|done|]. intros [_ Hi]. apply Hne. rewrite <- Hi. by destruct (Hg _ _ Hl').
Qed.

Lemma Forall_holds_after w w1 (g : GoalOf decimal) (gs : list (GoalOf decimal)) :
  (∀ g' : GoalOf decimal, GoalID g' ≠ GoalID g → holds w g' → holds w1 g') → GoalID g ∉ map GoalID gs →
  Forall (holds w) gs → Forall (holds w1) gs.
Proof.
  intros Hk Hni Hf. rewrite Forall_forall in *. intros g' Hin. apply Hk; [|by apply Hf].
  intros Heq. apply Hni. rewrite <- Heq. by apply list_elem_of_fmap_2.
Qed.

Lemma runs_enrich_all svc gs w :
  Forall (holds w) gs → NoDup (map GoalID gs) →
  runs (enrich_all scan_numeric uuid_String Float64 NewFromFloat json_valid marshal_milestone svc gs) w (λ _ _, True).
Proof.
  revert w. induction gs as [|g gs IH]; intros w Hf Hnd; cbn [enrich_all]; [by apply runs_ret|].
  apply Forall_cons in Hf as [Hg Hf]. cbn in Hnd. apply NoDup_cons in Hnd as [Hni Hnd].
  eapply runs_bind; [by apply runs_enrich_one|]. intros w1 e _ Hk.
  eapply runs_bind; [apply IH; [eapply Forall_holds_after; [exact Hk|done|done]|done]|]. intros; by apply runs_ret.
Qed.

Lemma runs_List svc category status archived w :
  runs (List_ scan_numeric uuid_String Float64 NewFromFloat json_valid marshal_milestone matches svc u category status archived) w (λ _ _, True).
Proof.
  unfold List_. eapply runs_bind; [by apply runs_same with (Q := λ _ _, True); [calm|]|]. intros w1 c _ _.
  eapply runs_bind; [by apply runs_same with (Q := λ _ _, True); [calm|]|]. intros w2 st _ _.
  eapply runs_bind; [apply runs_ListByUser|]. intros w3 gs _ (_ & Hf & Hnd).
  eapply runs_bind; [by apply runs_enrich_all|]. intros; by apply runs_ret.
Qed.

Lemma runs_ListPaginated svc f w : runs (ListPaginated scan_numeric uuid_String Float64 NewFromFloat json_valid marshal_milestone matches svc u f) w (λ _ _, True).
Proof.
  unfold ListPaginated. eapply runs_bind; [by apply runs_same with (Q := λ _ _, True); [calm|]|]. intros w1 c _ _.
  eapply runs_bind; [by apply runs_same with (Q := λ _ _, True); [calm|]|]. intros w2 st _ _.
  eapply runs_bind; [apply runs_ListByUser|]. intros w3 gs _ (_ & Hf & Hnd).
  eapply runs_bind; [by apply runs_enrich_all|]. intros w4 es _ _. cbv zeta.
  destruct (page_of _ _ _); [by apply runs_ret|apply runs_throw].
Qed.

Lemma runs_summarize svc t gs s w :
  Forall (holds w) gs → NoDup (map GoalID gs) → runs (summarize_all scan_numeric uuid_String Float64 NewFromFloat json_valid marshal_milestone svc t gs s) w (λ _ _, True).
Proof.
  revert w s. induction gs as [|g gs IH]; intros w s Hf Hnd; cbn [summarize_all]; [by apply runs_ret|].
  apply Forall_cons in Hf as [Hg Hf]. cbn in Hnd. apply NoDup_cons in Hnd as [Hni Hnd].
  eapply runs_bind; [by apply runs_enrich_one|]. intros w1 e _ Hk.
  apply IH; [eapply Forall_holds_after; [exact Hk|done|done]|done].
Qed.

Lemma calm_deposited since l : calm (deposited_since scan_numeric u since l).
Proof. induction l as [|c l IH]; cbn; unfold SumRecentDeposits; calm. Qed.

Lemma runs_upsert s w : runs (Streak_Upsert u s) w (λ _ _, True).
Proof.
  unfold Streak_Upsert. intros _.
  destruct (exec_outcome (λ (_ : Time) w, if bool_decide (u ∈ Ledger.users (VaultRepo.ledger (db w)))
     then Ok (with_streaks w (<[u := s]> (streaks w)), ())
     else Err (ErrDb (VaultRepo.DbFk "savings_streaks_user_id_fkey"))) w) as [[Hq _]|(w1 & w2 & a & Hq & Ho & ->)].
  - split; [by apply rtc_once, on_session|done].
  - case_bool_decide; [|done]. injection Ho as <- <-. split; [|done].
    eapply rtc_l; [by apply on_session|]. by apply rtc_once, on_streak.
Qed.

Lemma runs_updateStreak w : runs (updateStreak scan_numeric u) w (λ _ _, True).
Proof.
  unfold updateStreak. eapply runs_bind; [by apply runs_same with (Q := λ _ _, True); [calm|]|]. intros w1 t _ _.
  cbv zeta. eapply runs_bind; [by apply runs_same with (Q := λ _ _, True); [apply calm_deposited|]|].
  intros w2 has _ _. eapply runs_bind; [by apply runs_same with (Q := λ _ _, True); [unfold Streak_Get; calm|]|].
  intros w3 st _ _. eapply runs_bind; [apply runs_upsert|]. intros w4 _ _ _.
  eapply runs_bind with (Q := λ _ _, True); [|intros; by apply runs_ret].
  destruct (_ && _); [|by apply runs_ret].
  eapply runs_bind with (Q := λ _ _, True); [by apply runs_ignoring; [|apply runs_upsert]|].
  intros w5 _ _ _. by apply runs_signal.
Qed.

Lemma runs_Summary svc w : runs (Summary scan_numeric uuid_String Float64 NewFromFloat json_valid marshal_milestone matches svc u) w (λ _ _, True).
Proof.
  unfold Summary. eapply runs_bind; [apply runs_ListByUser|]. intros w1 gs _ (_ & Hf & Hnd).
  eapply runs_bind with (Q := λ w2 _, w2 = w1); [by apply runs_now|]. intros w2 t _ ->.
  eapply runs_bind; [by apply runs_summarize|]. intros w3 s _ _. cbv zeta.
  eapply runs_bind with (Q := λ _ _, True); [|intros; by apply runs_ret].
  destruct (streakRepo svc); [|by apply runs_ret]. intros Hg. destruct (runs_updateStreak w3 Hg) as [Hs _].
  unfold streak_or_zero. by destruct (updateStreak scan_numeric u w3) as [w4 [p|e]].
Qed.

(** *** Splitting a deposit *)

(** The row a deposit of the split is stored as. *)
Definition stored_as (d : GoalDeposit) (r : GoalDepositRow) : Prop :=
  GDepID r = DepID d ∧ GDepGoalID r = DepGoalID d ∧ GDepUserID r = DepUserID d ∧
  GDepCurrency r = DepCurrency d ∧
  VaultRepo.numeric 48 (value (DepAmount d)) = Ok (GDepAmount r) ∧ 0 < GDepAmount r.

(** The inserts of the open transaction. *)
Lemma insert_goal_deposits_outcome l w :
  let p := insert_goal_deposits l w in
  ∃ rows, quiet w (with_goal_deposits p.1 (goal_deposits w)) ∧ goal_deposits p.1 = goal_deposits w ++ rows ∧
    (p.2 = Ok () → Forall2 stored_as l rows).
Proof.
  revert w. induction l as [|d l IH]; intros w; cbv zeta.
  - exists []. split; [|split; [by rewrite app_nil_r|by constructor]].
    split; [apply VaultServiceBooks.same_refl|by split_and!].
  - cbn [insert_goal_deposits]. rewrite run_bind.
    destruct (exec_outcome (insert_goal_deposit d) w) as [[Hq Hn]|(w1 & w2 & a & Hq & Ho & ->)].
    + exists []. rewrite app_nil_r. destruct (exec _ w) as [w1 [a|e]]; [by destruct (Hn a)|]. cbn in *.
      destruct Hq as (Hv & Hg & Hd & Hs & Hst & Ho & Hsig). split; [by split_and!|]. split; [done|by intros [=]].
    + unfold insert_goal_deposit, numeric in Ho.
      destruct (VaultRepo.numeric 48 _) as [z|e] eqn:Ez; [|done]. cbn in Ho. destruct (negb _); [done|].
      destruct (z <=? 0) eqn:Ez0; [done|]. apply Z.leb_gt in Ez0. destruct (existsb _ _); [done|].
      destruct (negb _); [done|]. destruct (negb _); [done|]. injection Ho as <- _.
      set (row := mkGoalDepositRow _ _ _ _ _ _). specialize (IH (with_goal_deposits w1 (goal_deposits w1 ++ [row])))
        as (rows & Hq' & Hd' & Hf). cbv zeta in Hq', Hd', Hf. cbn [goal_deposits with_goal_deposits] in Hq', Hd'.
      pose proof Hq as (_ & _ & Hd1 & _). exists (row :: rows). split; [|split].
      * eapply quiet_trans; [exact Hq|]. destruct Hq' as (Hv & Hg & _ & Hs & Hst & Hout & Hsig).
        cbn in *. by split_and!.
      * by rewrite Hd', Hd1, <- app_assoc.
      * intros Hok. constructor; [|by apply Hf]. by split_and!.
Qed.

(** All the rows or none, and none only when the call fails. *)
Lemma record_deposits_outcome l w :
  let p := RecordGoalDeposits l w in
  (quiet w p.1 ∧ p.2 ≠ Ok ()) ∨
  ∃ w1 rows, quiet w w1 ∧ Forall2 stored_as l rows ∧
    p.1 = with_goal_deposits w1 (goal_deposits w1 ++ rows).
Proof.
  cbv zeta. unfold RecordGoalDeposits, atomically. pose proof (round_trip_quiet w) as Hq.
  destruct (round_trip w) as [[] w1]; [by left|]. cbn in Hq. rewrite run_bind.
  pose proof (query_outcome (λ _, ()) w1) as [Hq1 _]. destruct (query _ w1) as [w2 [[]|e]]; cbn in Hq1.
  - pose proof (insert_goal_deposits_outcome l w2) as (rows & Hq2 & Hd2 & Hf). cbv zeta in Hq2, Hd2, Hf.
    destruct (insert_goal_deposits l w2) as [w3 [[]|e]]; cbn in Hq2, Hd2, Hf.
    + destruct (commit_cases w1 () w3) as (w4 & Hq3 & Hc).
      assert (quiet w2 (with_goal_deposits w4 (goal_deposits w2))) as Hq4.
      { eapply quiet_trans; [exact Hq2|]. destruct Hq3 as (Hv & Hg & Hd & Hs & Hst & Ho & Hsig). by split_and!. }
      assert (quiet w (with_goal_deposits w4 (goal_deposits w2))) as Hq5
        by (eapply quiet_trans; [|exact Hq4]; by eapply quiet_trans).
      destruct Hc as [->|Hc].
      * left. split; [|done]. destruct Hq1 as (_ & Hg1 & Hd1 & Hs1 & Hst1 & Ho1 & Hsig1).
        destruct Hq5 as (Hv5 & Hg5 & Hd5 & Hs5 & Hst5 & Ho5 & Hsig5), Hq4 as (_ & Hg4 & Hd4 & Hs4 & Hst4 & Ho4 & Hsig4).
        cbn in *. split_and!; try done; cbn; congruence.
      * right. exists (with_goal_deposits w4 (goal_deposits w2)), rows. split; [done|split; [by apply Hf|]].
        rewrite Hc. apply world_eq; try done. cbn. rewrite <- Hd2. apply Hq3.
    + left. split; [|done]. eapply quiet_trans; [exact Hq|].
      destruct Hq1 as (Hv1 & Hg1 & Hd1 & Hs1 & Hst1 & Ho1 & Hsig1), Hq2 as (Hv2 & Hg2 & _ & Hs2 & Hst2 & Ho2 & Hsig2).
      cbn in *. split; [by eapply VaultServiceBooks.same_trans|]. cbn. split_and!; congruence.
  - left. split; [|done]. eapply quiet_trans; [exact Hq|].
    destruct Hq1 as (Hv1 & Hg1 & Hd1 & Hs1 & Hst1 & Ho1 & Hsig1). by split_and!.
Qed.

(** The goals of a split are the user's and active. *)
Definition splittable (w : World) (id : Z) : Prop :=
  ∃ g, goals w !! id = Some g ∧ GoalUserID g = u ∧ deleted g = false ∧ Status (life g) = GoalStatusActive.

Lemma runs_split_goals c l w :
  runs (split_goals scan_numeric u c l) w (λ w1 gs, quiet w w1 ∧ Forall (λ a, splittable w1 (AlGoalID a)) l ∧
    Forall2 (λ a g, ∃ r, goals w1 !! AlGoalID a = Some r ∧ g = scan_goal scan_numeric r ∧
      NormalizeCurrency (Currency (terms r)) = c) l gs).
Proof.
  revert w. induction l as [|a l IH]; intros w; cbn [split_goals]; [apply runs_ret; split_and!; [apply quiet_refl|done|done]|].
  apply runs_own. intros w1 r _ Hq Hl Hid Hu Hd.
  eapply runs_bind with (Q := λ w2 _, w2 = w1 ∧ Status (life r) = GoalStatusActive ∧ NormalizeCurrency (Currency (terms r)) = c).
  { cbn. destruct (negb _) eqn:Ec; [apply runs_throw|]. apply negb_false_iff, string_eqb_eq in Ec.
    destruct (Status (life r)); try apply runs_throw. by apply runs_ret. }
  intros w2 x _ (-> & Hs & Hc). eapply runs_bind; [apply IH|]. intros w3 gs _ (Hq3 & Hf & Hm). apply runs_ret.
  pose proof Hq3 as (_ & Hg3 & _). split_and!.
  - by eapply quiet_trans.
  - constructor; [|done]. exists r. by rewrite Hg3.
  - constructor; [|done]. exists r. by rewrite Hg3.
Qed.

Lemma build_deposits_of c l ds w w1 :
  build_deposits u c l w = (w1, Ok ds) →
  Forall2 (λ d '(a, amount), DepGoalID d = AlGoalID a ∧ DepUserID d = u ∧ DepAmount d = amount ∧ DepCurrency d = c) ds l.
Proof.
  revert ds w. induction l as [|[a amount] l IH]; intros ds w; cbn [build_deposits].
  - intros [= _ <-]. constructor.
  - rewrite run_bind. destruct (uuid_New w) as [w2 [id|e]]; [|done]. rewrite run_bind.
    destruct (build_deposits u c l w2) as [w3 [ds'|e]] eqn:E; [|done]. intros [= <- <-].
    constructor; [done|by eapply IH].
Qed.

Lemma calm_build c l : calm (build_deposits u c l).
Proof. induction l as [|[a x] l IH]; cbn [build_deposits]; calm. Qed.

Lemma calm_split_results l : calm (split_results scan_numeric Float64 l).
Proof. induction l as [|[g x] l IH]; cbn [split_results]; unfold SumGoalDeposits; calm. Qed.

Lemma runs_gamification svc a ds n w : runs (recordGamificationDeposit uuid_String svc u a ds n) w (λ _ _, True).
Proof.
  unfold recordGamificationDeposit. destruct ds as [|d rest]; [by apply runs_ret|].
  destruct (negb _); [by apply runs_ret|]. eapply runs_bind with (Q := λ _ _, True); [by apply runs_now|].
  intros w1 t _ _. cbv zeta. by apply runs_signal.
Qed.

Lemma runs_DepositSplit svc in_ w : runs (DepositSplit scan_numeric uuid_String Float64 svc u in_) w (λ _ _, True).
Proof.
  unfold DepositSplit. cbv zeta. destruct (negb _); [apply runs_throw|]. destruct (negb _); [apply runs_throw|].
  destruct (match Allocations in_ with [] => true | _ => false end); [apply runs_throw|].
  eapply runs_bind; [by apply runs_same with (Q := λ _ _, True); [calm|]|]. intros w1 amounts _ _.
  destruct (duplicates _ _); [apply runs_throw|].
  eapply runs_bind; [apply runs_split_goals|]. intros w2 gs _ (_ & Hf & _).
  eapply runs_bind with (Q := λ w3 _, quiet w2 w3); [by apply runs_same; [calm|]|]. intros w3 _ _ Hq3.
  eapply runs_bind with (Q := λ w4 ds, quiet w2 w4 ∧ Forall (λ d, DepUserID d = u ∧ splittable w2 (DepGoalID d)) ds).
  { apply runs_calm; [apply calm_build|]. intros w4 ds Hq4 Hb. split; [by eapply quiet_trans|].
    apply build_deposits_of in Hb. rewrite Forall_forall. intros d Hin.
    apply list_elem_of_lookup in Hin as [i Hi]. destruct (Forall2_lookup_l _ _ _ _ _ Hb Hi) as ([a x] & Hz & Hid & Hu & _).
    split; [done|]. rewrite Hid. apply list_elem_of_lookup_2, list_elem_of_In, in_combine_l, list_elem_of_In in Hz.
    by eapply Forall_forall in Hf. }
  intros w4 ds _ [Hq4 Hds]. eapply runs_bind with (Q := λ _ _, True).
  - intros Hg. destruct (record_deposits_outcome ds w4) as [[Hq _]|(w5 & rows & Hq & Hst & Hw)].
    + split; [by apply rtc_once, on_session|done].
    + split; [|done]. eapply rtc_l; [by apply on_session|]. apply rtc_once. rewrite Hw. eapply on_split; [done|].
      intros r Hin. apply list_elem_of_lookup in Hin as [i Hi].
      destruct (Forall2_lookup_r _ _ _ _ _ Hst Hi) as (d & Hd & _ & Hgid & Huid & _ & _ & Hpos).
      apply list_elem_of_lookup_2 in Hd. eapply Forall_forall in Hds as [Hu (g & Hl & Hrest)]; [|exact Hd].
      split_and!; [congruence|done|]. exists g. rewrite Hgid. split; [|done].
      destruct Hq as (_ & -> & _), Hq4 as (_ & -> & _). done.
  - intros w5 _ _ _. eapply runs_bind; [by apply runs_same with (Q := λ _ _, True); [apply calm_split_results|]|].
    intros w6 rs _ _. eapply runs_bind; [apply runs_gamification|]. intros; by apply runs_ret.
Qed.
End owner.

(** *** Requests that act for no user *)

Lemma runs_GetShared svc token w :
  runs uuid_String None (λ g, ∃ r, goals w !! GoalID g = Some r ∧ ShareToken r = Some token ∧ deleted r = false)
    (GetShared scan_numeric uuid_String Float64 NewFromFloat json_valid marshal_milestone svc token) w (λ _ _, True).
Proof.
  unfold GetShared, GetByShareToken.
  eapply runs_bind with (Q := λ w1 g, holds (λ g, ∃ r, goals w !! GoalID g = Some r ∧
    ShareToken r = Some token ∧ deleted r = false) w1 g).
  - eapply runs_bind.
    + eapply runs_query with (Q := λ w1 l, quiet w w1 ∧ l = head (filter (λ g, ShareToken g = Some token ∧
        deleted g = false) (goal_rows w1))). by split.
    + intros w1 l Hg1 [Hq ->]. unfold scan_row. destruct (head _) as [r|] eqn:Eh; [|apply runs_throw].
      apply runs_lift. intros g [= <-].
      assert (r ∈ filter (λ g, ShareToken g = Some token ∧ deleted g = false) (goal_rows w1)) as Hin
        by (destruct (filter _ _); [done|]; injection Eh as ->; by left).
      apply list_elem_of_filter in Hin as [[Ht Hd] Hin]. apply goal_rows_spec in Hin; [|done].
      eapply held_scan; [done|done| |done]. exists r. split; [|done]. by destruct Hq as (_ & <- & _).
  - intros w1 g _ Hh. eapply runs_bind; [|intros; by apply runs_ret].
    eapply runs_EnrichProgress; [|exact Hh]. intros g0 g' Hi _ (r & Hr). exists r. by rewrite Hi.
Qed.

Lemma runs_credit id amount w :
  runs uuid_String None (λ g, GoalID g = id) (CreditGoalYieldBalance id amount) w (λ _ _, True).
Proof.
  unfold CreditGoalYieldBalance, CreditYieldBalance. intros Hg.
  match goal with |- context [update_goal ?i ?p ?f ?w] =>
    destruct (update_outcome i p f w) as [[Hq _]|(w1 & g & g' & Hq & Hl & _ & Ho & ->)] end.
  - split; [by apply rtc_once, on_session|done].
  - destruct (VaultRepo.numeric 48 _) as [y|e]; [|done]. injection Ho as <-. split; [|done].
    eapply rtc_l; [by apply on_session|]. apply rtc_once. apply on_yield; [done|done|].
    destruct Hq as (_ & Hgo & _). rewrite Hgo in Hl. by destruct (Hg _ _ Hl).
Qed.

Lemma calm_auto_compound vaultID : calm (GetAutoCompoundForVault scan_numeric vaultID).
Proof.
  intros w. unfold GetAutoCompoundForVault.
  assert (calm (GetByVaultID scan_numeric vaultID)) as Hc.
  { unfold GetByVaultID. apply calm_bind; [apply calm_query|]. intros g. apply calm_scan_row. }
  specialize (Hc w). destruct (GetByVaultID _ _ w) as [w1 [g|e]]; [done|]. by destruct e.
Qed.

(** The job's query selects fewer columns than its rows are scanned into. *)
Lemma list_deleted_fails cutoff w :
  match snd (ListDeletedOlderThan scan_numeric cutoff w) with Ok l => l = [] | Err _ => True end.
Proof.
  unfold ListDeletedOlderThan. rewrite run_bind. destruct (query _ w) as [w1 [l|e]]; [|done].
  cbn. by destruct l.
Qed.

Lemma calm_purge isLeader : calm (Purge_Tick scan_numeric isLeader).
Proof.
  intros w. unfold Purge_Tick. destruct (negb isLeader); [apply quiet_refl|].
  set (cutoff := time_add _ _). pose proof (list_deleted_fails cutoff w) as Hl.
  assert (calm (ListDeletedOlderThan scan_numeric cutoff)) as Hc by (unfold ListDeletedOlderThan; calm).
  specialize (Hc w). destruct (ListDeletedOlderThan _ _ w) as [w1 [l|e]]; [|done]. by rewrite Hl.
Qed.

(** *** Every request *)

Inductive GoalRequest :=
| GCreate (in_ : CreateSavingsGoalInput)
| GCreateFromTemplate (in_ : CreateFromTemplateInput)
| GGet (id : Z)
| GList (category status : string) (includeArchived : bool)
| GListPaginated (f : SavingsGoalListFilter)
| GSummary
| GUpdate (id : Z) (in_ : UpdateSavingsGoalInput)
| GUpdateNotes (id : Z) (notes : string)
| GDelete (id : Z)
| GRestore (id : Z)
| GPause (id : Z)
| GResume (id : Z)
| GComplete (id : Z) (action : string)
| GShare (id : Z)
| GUnshare (id : Z)
| GArchive (id : Z)
| GUnarchive (id : Z)
| GDepositSplit (in_ : DepositSplitInput).

(** A user's request, a shared link, what a harvest asks and credits, the purge job. *)
Inductive Call :=
| ByUser (u : Z) (r : GoalRequest)
| ByToken (token : Z)
| ByHarvestQuery (vaultID : Z)
| ByHarvest (goalID : Z) (amount : decimal)
| ByPurge (isLeader : bool).

Definition answered {A} (m : M A) : M unit := m ;; mret ().

Definition serve_user (svc : SavingsGoalService) (u : Z) (r : GoalRequest) : M unit :=
  match r with
  | GCreate in_ => answered (Create scan_numeric uuid_String Float64 NewFromFloat json_valid marshal_milestone unicode_symbol svc u in_)
  | GCreateFromTemplate in_ => answered (CreateFromTemplate scan_numeric uuid_String Float64 NewFromFloat json_valid marshal_milestone unicode_symbol svc u in_)
  | GGet id => answered (Get scan_numeric uuid_String Float64 NewFromFloat json_valid marshal_milestone svc u id)
  | GList c s a => answered (List_ scan_numeric uuid_String Float64 NewFromFloat json_valid marshal_milestone matches svc u c s a)
  | GListPaginated f => answered (ListPaginated scan_numeric uuid_String Float64 NewFromFloat json_valid marshal_milestone matches svc u f)
  | GSummary => answered (Summary scan_numeric uuid_String Float64 NewFromFloat json_valid marshal_milestone matches svc u)
  | GUpdate id in_ => answered (Update scan_numeric uuid_String Float64 NewFromFloat json_valid marshal_milestone unicode_symbol svc u id in_)
  | GUpdateNotes id n => answered (UpdateNotes scan_numeric uuid_String Float64 NewFromFloat json_valid marshal_milestone svc u id n)
  | GDelete id => Delete u id
  | GRestore id => answered (Restore scan_numeric uuid_String Float64 NewFromFloat json_valid marshal_milestone svc u id)
  | GPause id => answered (Pause scan_numeric uuid_String Float64 NewFromFloat json_valid marshal_milestone svc u id)
  | GResume id => answered (Resume scan_numeric uuid_String Float64 NewFromFloat json_valid marshal_milestone svc u id)
  | GComplete id a => answered (Complete scan_numeric uuid_String Float64 NewFromFloat json_valid marshal_milestone svc u id a)
  | GShare id => answered (Share scan_numeric uuid_String Float64 NewFromFloat json_valid marshal_milestone svc u id)
  | GUnshare id => Unshare scan_numeric u id
  | GArchive id => answered (Archive scan_numeric uuid_String Float64 NewFromFloat json_valid marshal_milestone svc u id)
  | GUnarchive id => answered (Unarchive scan_numeric uuid_String Float64 NewFromFloat json_valid marshal_milestone svc u id)
  | GDepositSplit in_ => answered (DepositSplit scan_numeric uuid_String Float64 svc u in_)
  end.

Definition serve (svc : SavingsGoalService) (c : Call) : M unit :=
  match c with
  | ByUser u r => serve_user svc u r
  | ByToken t => answered (GetShared scan_numeric uuid_String Float64 NewFromFloat json_valid marshal_milestone svc t)
  | ByHarvestQuery v => answered (GetAutoCompoundForVault scan_numeric v)
  | ByHarvest id a => CreditGoalYieldBalance id a
  | ByPurge l => Purge_Tick scan_numeric l
  end.

(** Whom a call acts for, and the goals it may touch. *)
Definition caller (c : Call) : option Z := match c with ByUser u _ => Some u | _ => None end.

Definition may_touch (c : Call) (w : World) (g : GoalOf Z) : Prop :=
  match c with
  | ByUser u _ => GoalUserID g = u
  | ByToken t => ∃ r, goals w !! GoalID g = Some r ∧ ShareToken r = Some t ∧ deleted r = false
  | ByHarvest id _ => GoalID g = id
  | ByHarvestQuery _ | ByPurge _ => False
  end.

Lemma runs_answered {A} u P (m : M A) w :
  runs uuid_String u P m w (λ _ _, True) → runs uuid_String u P (answered m) w (λ _ _, True).
Proof. intros Hm. eapply runs_bind; [exact Hm|]. intros; by apply runs_ret. Qed.

Lemma serve_walks svc c w :
  good w → rtc (step uuid_String (caller c) (may_touch c w)) w (fst (serve svc c w)).
Proof.
  intros Hg. cut (runs uuid_String (caller c) (may_touch c w) (serve svc c) w (λ _ _, True)).
  { intros Hr. by destruct (Hr Hg). }
  destruct c as [u r|t|v|id a|l]; cbn [serve caller may_touch].
  - destruct r; cbn [serve_user]; try apply runs_answered.
    + apply runs_Create.
    + apply runs_CreateFromTemplate.
    + apply runs_Get.
    + apply runs_List.
    + apply runs_ListPaginated.
    + apply runs_Summary.
    + apply runs_Update.
    + apply runs_UpdateNotes.
    + apply runs_Delete.
    + apply runs_Restore.
    + apply runs_Pause.
    + apply runs_Resume.
    + apply runs_Complete.
    + apply runs_Share.
    + apply runs_Unshare.
    + apply runs_Archive.
    + apply runs_Unarchive.
    + apply runs_DepositSplit.
  - apply runs_answered, runs_GetShared.
  - apply runs_answered. by apply runs_calm; [apply calm_auto_compound|].
  - apply runs_credit.
  - by apply runs_calm; [apply calm_purge|].
Qed.

End requests.

End SavingsLife.
