(* ===== verification/SavingsProps.v ===== *)
(** What the savings goals' lifecycle comes to: who may touch a goal, when a milestone is
    marked, what a deletion keeps, and what a split deposit records. *)
From Stdlib Require Import Lqa.
From S2P Require Import Prelude Decimals Calendar Outbox Ledger VaultRepo VaultBooks VaultDomain VaultService VaultServiceBooks SavingsDomain SavingsStore SavingsGoals SavingsLife.
Open Scope Z_scope.

Module SavingsProps.
Import Decimals SavingsDomain SavingsStore SavingsGoals SavingsLife.

Section props.
  Context `{DecimalOrderLaws} `{F : !DecimalFormat}.
  Context (scan_numeric : Z → decimal).
  Context (scan_numeric_value : ∀ z, (value (scan_numeric z) == VaultRepo.col z)%Q).
  Context (uuid_String : Z → string).
  Context (Float64 : decimal → float64) (NewFromFloat : float64 → decimal).
  Context (json_valid : string → bool).
  Context (marshal_milestone : GoalOf decimal → decimal → float64 → Z → string → option string).
  Context (unicode_symbol : Z → bool).
  Context (matches : string → GoalOf Z → bool).

Notation serve := (serve scan_numeric uuid_String Float64 NewFromFloat json_valid marshal_milestone
  unicode_symbol matches).
Notation steps := (step uuid_String).

Lemma serve_good svc c w : good w → good (fst (serve svc c w)).
Proof. intros Hg. eapply steps_good; [done|by apply serve_walks]. Qed.

(** *** Ownership *)

(** What steps on behalf of [u] leave as it was. *)
Definition keeps_owners (u : option Z) (w w' : World) : Prop :=
  (∀ id g, goals w !! id = Some g → ∃ g', goals w' !! id = Some g' ∧
     GoalUserID g' = GoalUserID g ∧ CreatedAt g' = CreatedAt g) ∧
  (∀ id g', goals w' !! id = Some g' → goals w !! id = None → u = Some (GoalUserID g')) ∧
  (∃ rows, goal_deposits w' = goal_deposits w ++ rows ∧ ∀ r, r ∈ rows → u = Some (GDepUserID r)) ∧
  (∀ v, u ≠ Some v → streaks w' !! v = streaks w !! v) ∧ schedules w' = schedules w.

Lemma keeps_owners_refl u w : keeps_owners u w w.
Proof.
  split_and!; try done; [by eauto|congruence|]. exists []. rewrite app_nil_r. split; [done|].
  by intros r Hr%not_elem_of_nil.
Qed.

Lemma keeps_owners_trans u w1 w2 w3 : keeps_owners u w1 w2 → keeps_owners u w2 w3 → keeps_owners u w1 w3.
Proof.
  intros (K1 & N1 & (r1 & D1 & O1) & S1 & C1) (K2 & N2 & (r2 & D2 & O2) & S2 & C2). split_and!.
  - intros id g Hl. destruct (K1 id g Hl) as (g1 & Hl1 & ? & ?), (K2 id g1 Hl1) as (g2 & Hl2 & ? & ?).
    exists g2. split_and!; congruence.
  - intros id g' Hl' Hn. destruct (goals w2 !! id) as [g1|] eqn:E; [|by eapply N2].
    destruct (K2 id g1 E) as (g2 & Hl2 & Hu & _). rewrite Hl' in Hl2. injection Hl2 as <-. rewrite Hu.
    by eapply N1.
  - exists (r1 ++ r2). rewrite D2, D1, app_assoc. split; [done|]. intros r [Hr|Hr]%elem_of_app; eauto.
  - intros v Hv. rewrite S2, S1; done.
  - congruence.
Qed.

Lemma keeps_owners_same u w w' :
  goals w' = goals w → goal_deposits w' = goal_deposits w → streaks w' = streaks w → schedules w' = schedules w →
  keeps_owners u w w'.
Proof.
  intros Hg Hd Hs Hsch. split_and!; [rewrite Hg; by eauto|rewrite Hg; congruence| |by rewrite Hs|done].
  exists []. rewrite app_nil_r. split; [done|]. by intros r Hr%not_elem_of_nil.
Qed.

(** One row replaced by a row of the same owner. *)
Lemma keeps_owners_row u w w' id g g' :
  goals w !! id = Some g → goals w' = <[id := g']> (goals w) →
  GoalUserID g' = GoalUserID g → CreatedAt g' = CreatedAt g →
  goal_deposits w' = goal_deposits w → streaks w' = streaks w → schedules w' = schedules w →
  keeps_owners u w w'.
Proof.
  intros Hl Hgo Hu Hc Hd Hs Hsch. split_and!; [| | |by rewrite Hs|done].
  - intros i k Hi. rewrite Hgo. destruct (decide (i = id)) as [->|Hne].
    + rewrite lookup_insert_eq. rewrite Hl in Hi. injection Hi as <-. by exists g'.
    + rewrite lookup_insert_ne by done. by exists k.
  - intros i k Hi Hn. rewrite Hgo in Hi. apply lookup_insert_Some in Hi as [[<- <-]|[_ Hi]]; congruence.
  - exists []. rewrite app_nil_r. split; [done|]. by intros r Hr%not_elem_of_nil.
Qed.

Lemma step_owners u P w w' : steps u P w w' → keeps_owners u w w'.
Proof.
  intros Hs. destruct Hs as [w' Hq|s|id g g' Hl _ Hst|g u' Hu Hgu Hn _ _ _ _|id g new o Hl _ _ _ _ _ _
    |id g y _ Hl _|rows u' Hu Hr|u' s Hu].
  - destruct Hq as (_ & Hg & Hd & Hs & Hst & _). by apply keeps_owners_same.
  - by apply keeps_owners_same.
  - apply goal_step_keeps in Hst as (_ & Hu & _ & Hc & _). by eapply keeps_owners_row.
  - split_and!; try done.
    + intros i k Hi. cbn. rewrite lookup_insert_ne; [by eauto|]. intros <-. congruence.
    + cbn. intros i k Hi Hni. apply lookup_insert_Some in Hi as [[<- <-]|[_ Hi]]; congruence.
    + exists []. cbn. rewrite app_nil_r. split; [done|]. by intros r Hr%not_elem_of_nil.
  - by eapply keeps_owners_row.
  - by eapply keeps_owners_row.
  - split_and!; try done; [by eauto|cbn; congruence|]. exists rows. split; [done|]. intros r Hin.
    destruct (Hr r Hin) as (-> & _). done.
  - split_and!; try done; [by eauto|cbn; congruence| |].
    + exists []. cbn. rewrite app_nil_r. split; [done|]. by intros r Hr%not_elem_of_nil.
    + intros v Hv. cbn. apply lookup_insert_ne. congruence.
Qed.

Lemma steps_owners u P w w' : rtc (steps u P) w w' → keeps_owners u w w'.
Proof.
  induction 1 as [|w1 w2 w3 H1 _ IH]; [apply keeps_owners_refl|].
  eapply keeps_owners_trans; [by eapply step_owners|done].
Qed.

(** C20: a call touches only the goals it may touch: a user's request its user's, a
    shared link the goal it names, a harvest the goal it credits, the purge none. Goals
    keep their owners and are never lost; new goals, split deposits and streaks are the
    caller's; schedules stay. *)
Theorem goals_answer_to_their_owner svc c w :
  good w →
  let w' := fst (serve svc c w) in
  (∀ id g, goals w !! id = Some g → ¬ may_touch c w g → goals w' !! id = Some g) ∧
  keeps_owners (caller c) w w'.
Proof.
  intros Hg. pose proof (serve_walks scan_numeric scan_numeric_value uuid_String Float64 NewFromFloat json_valid
    marshal_milestone unicode_symbol matches svc c w Hg) as Hs. split.
  - intros id g Hl Hn. by eapply steps_untouched.
  - by eapply steps_owners.
Qed.

(** *** Milestones *)

















(** *** Deletion *)

(** All but the yield credited to it. *)
Definition frozen (g g' : GoalOf Z) : Prop := ∃ y t, g' = with_updated (with_yield g y) t.

Lemma frozen_refl g : frozen g g.
Proof. exists (YieldBalance g), (UpdatedAt g). by destruct g. Qed.

Lemma frozen_trans g1 g2 g3 : frozen g1 g2 → frozen g2 g3 → frozen g1 g3.
Proof. intros (y1 & t1 & ->) (y2 & t2 & ->). by exists y2, t2. Qed.

Lemma frozen_life g g' : frozen g g' → life g' = life g ∧ GoalID g' = GoalID g.
Proof. by intros (y & t & ->). Qed.

Lemma steps_clock u P w w' : rtc (steps u P) w w' → clock w' = clock w.
Proof.
  induction 1 as [|w1 w2 w3 H1 _ IH]; [done|]. rewrite IH. destruct H1 as [w2 Hq| | | | | | |]; try done.
  by apply quiet_db in Hq as [_ ->].
Qed.

(** A deleted goal is as it was until it is restored. *)
Lemma step_deleted_row u P w w' id g d :
  steps u P w w' → goals w !! id = Some g → DeletedAt (life g) = Some d →
  (∃ g', goals w' !! id = Some g' ∧ frozen g g') ∨ (P g ∧ time_sub (clock w) d ≤ SavingsGoalRecoveryWindow).
Proof.
  intros Hs Hl Hd. assert (deleted g = true) as Hdel by (unfold deleted; by rewrite Hd).
  assert (∀ i k, i ≠ id → <[i := k]> (goals w) !! id = Some g) as Hother
    by (intros i k Hi; by rewrite lookup_insert_ne).
  assert (frozen g g) as Hrefl by apply frozen_refl.
  destruct Hs as [w' Hq|s|i k k' Hi HP Hst|k u' _ _ Hn _ _ _ _|i k new o Hi HP Hnd _ _ _ _|i k y _ Hi HP
    |rows u' _ _|u' s _]; try (left; by exists g).
  - destruct Hq as (_ & Hg & _). left. exists g. by rewrite Hg.
  - destruct (decide (i = id)) as [->|Hid]; [|left; exists g; by split; [apply Hother|]].
    rewrite Hl in Hi. injection Hi as <-. destruct Hst as [t Hf|s Hf|a Hf|Hf|d' Hd' Hw|t e Hf|n Hf];
      try congruence. right. split; [done|]. congruence.
  - left. exists g. split; [apply Hother; intros Heq; congruence|done].
  - destruct (decide (i = id)) as [->|Hid]; [congruence|left; exists g; by split; [apply Hother|]].
  - left. destruct (decide (i = id)) as [->|Hid]; [|exists g; by split; [apply Hother|]].
    rewrite Hl in Hi. injection Hi as <-. cbn. rewrite lookup_insert_eq. eexists. split; [done|]. by exists y, (clock w).
Qed.

Lemma steps_deleted u P w w' id g d :
  rtc (steps u P) w w' → goals w !! id = Some g → DeletedAt (life g) = Some d →
  (∃ g', goals w' !! id = Some g' ∧ frozen g g') ∨
  ∃ g', frozen g g' ∧ P g' ∧ time_sub (clock w) d ≤ SavingsGoalRecoveryWindow.
Proof.
  intros Hs. revert g. induction Hs as [w|w1 w2 w3 H1 Hrest IH]; intros g Hl Hd;
    [left; exists g; split; [done|apply frozen_refl]|].
  assert (clock w2 = clock w1) as Hc by (by apply (steps_clock u P), rtc_once).
  destruct (step_deleted_row _ _ _ _ _ _ _ H1 Hl Hd) as [(g1 & Hl1 & Hf1)|[HP Hw]];
    [|right; exists g; split_and!; [apply frozen_refl|done..]].
  destruct (IH g1 Hl1) as [(g' & Hl' & Hf')|(g' & Hf' & HP & Hw)].
  - by rewrite (proj1 (frozen_life _ _ Hf1)).
  - left. exists g'. split; [done|]. by eapply frozen_trans.
  - right. exists g'. rewrite <- Hc. split_and!; [by eapply frozen_trans|done..].
Qed.

Lemma credit_freezes id a w g :
  goals w !! id = Some g →
  ∃ g', goals (fst (CreditGoalYieldBalance id a w)) !! id = Some g' ∧ frozen g g'.
Proof.
  intros Hl. unfold CreditGoalYieldBalance, CreditYieldBalance.
  match goal with |- context [update_goal ?i ?p ?f ?w] =>
    destruct (update_outcome i p f w) as [[Hq _]|(w1 & k & k' & Hq & Hk & _ & Ho & ->)] end;
    destruct Hq as (_ & Hgo & _).
  - exists g. rewrite Hgo. split; [done|apply frozen_refl].
  - destruct (VaultRepo.numeric 48 _) as [y|e]; [|done]. injection Ho as <-. rewrite Hgo, Hl in Hk.
    injection Hk as <-. cbn. rewrite lookup_insert_eq. eexists. split; [done|]. by eexists _, _.
Qed.

(** A deleted goal stays in the table and, but for the yield a harvest credits to
    it, as it was, unless its own user restores it no later than the recovery window
    after the deletion. *)
Lemma deleted_goals_are_kept svc c w id g d :
  good w → goals w !! id = Some g → DeletedAt (life g) = Some d →
  (∃ g', goals (fst (serve svc c w)) !! id = Some g' ∧ frozen g g') ∨
  (caller c = Some (GoalUserID g) ∧ time_sub (clock w) d ≤ SavingsGoalRecoveryWindow).
Proof.
  intros Hg Hl Hd. pose proof (serve_walks scan_numeric scan_numeric_value uuid_String Float64 NewFromFloat json_valid
    marshal_milestone unicode_symbol matches svc c w Hg) as Hs.
  destruct (Hg id g Hl) as [Hid _].
  destruct (steps_deleted _ _ _ _ id g d Hs Hl Hd) as [Hk|(g' & (y & t & ->) & HP & Hw)]; [by left|].
  destruct c as [u r|tk|v|i a|l]; cbn in HP; try done.
  - right. split; [cbn; congruence|done].
  - destruct HP as (r & Hr & _ & Hnd). rewrite Hid, Hl in Hr. injection Hr as <-.
    unfold deleted in Hnd. by rewrite Hd in Hnd.
  - left. assert (i = id) as -> by congruence. by apply credit_freezes.
Qed.

(** *** Split deposits *)

Fixpoint Qsum (l : list Q) : Q := match l with [] => 0 | x :: l => (x + Qsum l)%Q end.

Lemma sum_decimals_value l a : (value (foldl Add a l) == value a + Qsum (map value l))%Q.
Proof.
  revert a. induction l as [|x l IH]; intros a; cbn; [by rewrite Qplus_0_r|].
  by rewrite IH, Add_value, Qplus_assoc.
Qed.

Lemma Qsum_near e l l' :
  Forall2 (λ x y, (Qabs (x - y) <= e)%Q) l l' → (Qabs (Qsum l - Qsum l') <= inject_Z (Z.of_nat (length l)) * e)%Q.
Proof.
  induction 1 as [|x y l l' Hxy _ IH]; [change (0 <= 0 * e)%Q; lra|].
  cbn [Qsum length]. rewrite Nat2Z.inj_succ. unfold Z.succ. rewrite inject_Z_plus.
  assert (x + Qsum l - (y + Qsum l') == (x - y) + (Qsum l - Qsum l'))%Q as -> by ring.
  pose proof (Qabs_triangle (x - y) (Qsum l - Qsum l')) as Ht. change (inject_Z 1) with 1%Q. lra.
Qed.

Lemma Qsum_scale c l : (Qsum (map (Qmult c) l) == c * Qsum l)%Q.
Proof. induction l as [|x l IH]; cbn; [ring|]. rewrite IH. ring. Qed.

Lemma Qsum_proper l l' : Forall2 Qeq l l' → (Qsum l == Qsum l')%Q.
Proof. induction 1 as [|x y l l' Hxy _ IH]; [done|]. cbn. by rewrite Hxy, IH. Qed.

Lemma numeric_near p q z : VaultRepo.numeric p q = Ok z → (Qabs (inject_Z z - q * 100000000) <= 1 # 2)%Q.
Proof.
  unfold VaultRepo.numeric. cbv zeta. destruct (_ <? _); [|done]. intros [= <-]. apply half_away_near.
Qed.

(** A number of eight places is stored as it is. *)
Lemma numeric_places p q z : VaultRepo.numeric p (round_to 8 q) = Ok z → z = half_away (q * 100000000)%Q.
Proof.
  rewrite (VaultBooks.numeric_proper p _ (VaultRepo.col (half_away (q * 100000000)%Q))).
  - apply VaultBooks.numeric_col.
  - unfold round_to. rewrite (half_away_proper _ (q * 100000000)%Q) by done.
    unfold VaultRepo.col. by rewrite (Qmake_Qdiv (half_away _)).
Qed.

(** What an allocation is meant to receive, in stored units. *)
Definition exact_share (in_ : DepositSplitInput) (a : DepositSplitAllocation) : Q :=
  if forallb (λ a, negb (IsZero (AlPercentage a))) (Allocations in_)
  then (value (TotalAmount in_) * value (AlPercentage a) * 1000000)%Q
  else (value (AlAmount a) * 100000000)%Q.

Lemma exact_shares_add_up in_ amounts :
  split_amounts in_ = Ok amounts →
  (Qsum (map (exact_share in_) (Allocations in_)) == value (TotalAmount in_) * 100000000)%Q.
Proof.
  unfold split_amounts, exact_share. cbv zeta. destruct (Bool.eqb _ _); [done|].
  destruct (forallb _ _).
  - destruct (negb _); [done|]. destruct (negb (dec_Equal _ _)) eqn:E; [done|]. intros _.
    apply negb_false_iff, dec_Equal_value in E. unfold sum_decimals in E.
    rewrite sum_decimals_value, Zero_value, NewFromInt_value in E by done. change (inject_Z 100) with 100%Q in E.
    rewrite (Qsum_proper _ (map (Qmult (value (TotalAmount in_) * 1000000)) (map value (map AlPercentage (Allocations in_))))).
    + rewrite Qsum_scale. assert (Qsum (map value (map AlPercentage (Allocations in_))) == 100)%Q as -> by lra. ring.
    + rewrite !map_map. clear E. induction (Allocations in_) as [|a l IH]; cbn; constructor; [ring|done].
  - destruct (negb _); [done|]. destruct (negb (dec_Equal _ _)) eqn:E; [done|]. intros _.
    apply negb_false_iff, dec_Equal_value in E. unfold sum_decimals in E.
    rewrite sum_decimals_value, Zero_value in E. rewrite <- E.
    rewrite (Qsum_proper _ (map (Qmult 100000000) (map value (map AlAmount (Allocations in_))))).
    + rewrite Qsum_scale. ring.
    + rewrite !map_map. clear E. induction (Allocations in_) as [|a l IH]; cbn; constructor; [ring|done].
Qed.

(** Each amount is stored within one unit of its share. *)
Lemma shares_near in_ amounts :
  split_amounts in_ = Ok amounts →
  Forall2 (λ a x, ∀ z, VaultRepo.numeric 48 (value x) = Ok z → (Qabs (inject_Z z - exact_share in_ a) <= 1)%Q)
    (Allocations in_) amounts.
Proof.
  unfold split_amounts, exact_share. cbv zeta. destruct (Bool.eqb _ _); [done|].
  destruct (forallb (λ a, negb (IsZero (AlPercentage a))) (Allocations in_)); repeat (destruct (negb _); [done|]);
    intros [= <-]; apply Forall2_fmap_r, Forall_Forall2_diag, Forall_forall; intros a _ z Hz.
  - set (q := value (Div (Mul (TotalAmount in_) (AlPercentage a)) (NewFromInt 100))).
    rewrite (VaultBooks.numeric_proper _ _ (round_to 8 q)) in Hz by apply Round_places.
    apply numeric_places in Hz as ->. pose proof (half_away_near (q * 100000000)%Q) as Hn.
    assert (Qabs (q - value (TotalAmount in_) * value (AlPercentage a) * (1 # 100)) <= 1 # 20000000000000000)%Q as Hq.
    { unfold q. rewrite Div_places by (rewrite NewFromInt_value; done).
      set (e := (_ / _)%Q). assert (e == value (TotalAmount in_) * value (AlPercentage a) * (1 # 100))%Q as He
        by (unfold e; rewrite Mul_value, NewFromInt_value by done; unfold inject_Z; field).
      rewrite <- He. unfold round_to. pose proof (half_away_near (e * Qpower 10 16)) as Hr.
      apply Qabs_Qle_condition in Hr. apply Qabs_Qle_condition.
      change (Qpower 10 16) with (10000000000000000 # 1)%Q in *. unfold Qdiv.
      change (/ (10000000000000000 # 1))%Q with (1 # 10000000000000000)%Q. lra. }
    apply Qabs_Qle_condition in Hn, Hq. apply Qabs_Qle_condition. lra.
  - apply numeric_near in Hz. lra.
Qed.

Lemma duplicates_none seen l :
  duplicates seen l = false → NoDup l ∧ ∀ x, x ∈ l → x ∉ seen.
Proof.
  revert seen. induction l as [|x l IH]; intros seen; cbn.
  - intros _. split; [by apply NoDup_nil|]. by intros x Hx%not_elem_of_nil.
  - intros [Hx Hl]%orb_false_iff. destruct (IH _ Hl) as [Hnd Hni]. split.
    + apply NoDup_cons. split; [|done]. intros Hin. apply (Hni x Hin). by left.
    + intros y [->|Hy]%elem_of_cons.
      * intros Hin. assert (existsb (Z.eqb x) seen = true); [|congruence].
        apply existsb_exists. exists x. split; [by apply list_elem_of_In|apply Z.eqb_refl].
      * intros Hin. apply (Hni y Hy). by right.
Qed.

(** The amount an allocation is credited, as it is computed. *)
Definition share (in_ : DepositSplitInput) (a : DepositSplitAllocation) : decimal :=
  if forallb (λ a, negb (IsZero (AlPercentage a))) (Allocations in_)
  then Round (Div (Mul (TotalAmount in_) (AlPercentage a)) (NewFromInt 100)) 8 else AlAmount a.

Lemma split_amounts_shares in_ amounts :
  split_amounts in_ = Ok amounts → amounts = map (share in_) (Allocations in_).
Proof.
  unfold split_amounts, share. cbv zeta. destruct (Bool.eqb _ _); [done|].
  destruct (forallb (λ a, negb (IsZero (AlPercentage a))) (Allocations in_)); repeat (destruct (negb _); [done|]);
    by intros [= <-].
Qed.

(** An amount lies within a goal's limits. *)
Definition in_limits (g : GoalOf Z) (x : decimal) : Prop :=
  (∀ m, MinContribution (terms g) = Some m → (VaultRepo.col m <= value x)%Q) ∧
  (∀ m, MaxContribution (terms g) = Some m → (value x <= VaultRepo.col m)%Q).

Lemma validated_in_limits g x :
  ValidateContributionAmount x (MinContribution (terms (scan_goal scan_numeric g)))
    (MaxContribution (terms (scan_goal scan_numeric g))) = Ok () → in_limits g x.
Proof.
  unfold ValidateContributionAmount, in_limits. cbn [terms scan_goal scan_terms MinContribution MaxContribution].
  destruct (match scan_numeric <$> MinContribution (terms g) with Some a => LessThan x a | None => false end) eqn:E1; [done|].
  destruct (match scan_numeric <$> MaxContribution (terms g) with Some b => GreaterThan x b | None => false end) eqn:E2; [done|].
  intros _. split; intros m Hm.
  - rewrite Hm in E1. cbn in E1. apply Qnot_lt_le. intros Hlt. apply not_true_iff_false in E1. apply E1, LessThan_value.
    by rewrite scan_numeric_value.
  - rewrite Hm in E2. cbn in E2. apply Qnot_lt_le. intros Hlt. apply not_true_iff_false in E2. apply E2, GreaterThan_value.
    by rewrite scan_numeric_value.
Qed.

(** What the row of an allocation holds: the amount computed for it, stored with eight
    places and so at most one unit away from its exact share, credited to an active goal
    of the user in the currency whose limits it meets. *)
Definition split_row (u : Z) (in_ : DepositSplitInput) (w : World) (a : DepositSplitAllocation) (r : GoalDepositRow) : Prop :=
  let c := NormalizeCurrency (SplitCurrency in_) in
  GDepGoalID r = AlGoalID a ∧ GDepUserID r = u ∧ GDepCurrency r = c ∧ 0 < GDepAmount r ∧
  GDepAmount r = half_away (value (share in_ a) * 100000000) ∧
  (Qabs (inject_Z (GDepAmount r) - exact_share in_ a) <= 1)%Q ∧
  ∃ g, goals w !! AlGoalID a = Some g ∧ GoalUserID g = u ∧ deleted g = false ∧ Status (life g) = GoalStatusActive ∧
       NormalizeCurrency (Currency (terms g)) = c ∧ in_limits g (share in_ a).

(** The rows one split leaves. *)
Definition split_rows (u : Z) (in_ : DepositSplitInput) (w : World) (rows : list GoalDepositRow) : Prop :=
  Forall2 (split_row u in_ w) (Allocations in_) rows ∧ NoDup (map GDepGoalID rows) ∧
  (Qabs (Qsum (map (λ r, inject_Z (GDepAmount r)) rows) - value (TotalAmount in_) * 100000000)
     <= inject_Z (Z.of_nat (length rows)))%Q.

(** The goals of a split, as they were read. *)
Definition split_read (u : Z) (in_ : DepositSplitInput) (w : World) (a : DepositSplitAllocation) (x : decimal) : Prop :=
  ∃ g, goals w !! AlGoalID a = Some g ∧ GoalUserID g = u ∧ deleted g = false ∧ Status (life g) = GoalStatusActive ∧
       NormalizeCurrency (Currency (terms g)) = NormalizeCurrency (SplitCurrency in_) ∧ in_limits g x.

Lemma limits_read u in_ w l gs amounts :
  Forall (λ a, splittable u w (AlGoalID a)) l →
  Forall2 (λ a g, ∃ r, goals w !! AlGoalID a = Some r ∧ g = scan_goal scan_numeric r ∧
    NormalizeCurrency (Currency (terms r)) = NormalizeCurrency (SplitCurrency in_)) l gs →
  length amounts = length l → within_limits (zip amounts gs) = Ok () → Forall2 (split_read u in_ w) l amounts.
Proof.
  intros Hs Hg. revert Hs amounts. induction Hg as [|a g l gs (r & Hr & -> & Hc) _ IH]; intros Hs [|x amounts] Hlen; try done.
  cbn [zip zip_with within_limits]. destruct (ValidateContributionAmount _ _ _) as [[]|e] eqn:Ev; [|done]. cbn. intros Hw.
  apply Forall_cons in Hs as [(g & Hg & Hu & Hd & Hst) Hs]. constructor; [|apply IH; auto; by injection Hlen].
  exists g. assert (r = g) as -> by congruence. split_and!; try done; by apply validated_in_limits.
Qed.

Lemma stored_value q z : VaultRepo.numeric 48 q = Ok z → half_away (q * 100000000) = z.
Proof. unfold VaultRepo.numeric. cbv zeta. destruct (_ <? _); [by intros [= <-]|done]. Qed.

Lemma rows_of_split u c in_ amounts ds rows w w1 w2 :
  split_amounts in_ = Ok amounts → duplicates [] (map AlGoalID (Allocations in_)) = false →
  Forall2 (split_read u in_ w) (Allocations in_) amounts → c = NormalizeCurrency (SplitCurrency in_) →
  build_deposits u c (zip (Allocations in_) amounts) w1 = (w2, Ok ds) → Forall2 stored_as ds rows →
  split_rows u in_ w rows.
Proof.
  intros Ha Hdup Hs -> Hb Hst. apply build_deposits_of in Hb. pose proof (shares_near in_ amounts Ha) as Hn.
  pose proof (exact_shares_add_up in_ amounts Ha) as Htotal. apply split_amounts_shares in Ha as ->.
  assert (Forall2 (split_row u in_ w) (Allocations in_) rows) as Hr.
  { clear Htotal Hdup. apply Forall2_fmap_r in Hs, Hn. revert ds rows Hb Hst Hs Hn. unfold split_row.
    generalize (share in_), (exact_share in_). intros f e. induction (Allocations in_) as [|a l IH]; intros ds rows Hb Hst Hs Hn.
    - apply Forall2_nil_inv_r in Hb as ->. apply Forall2_nil_inv_l in Hst as ->. constructor.
    - apply Forall2_cons_inv_r in Hb as (d & ds' & (Hid & Hu & Hx & Hc) & Hb & ->).
      apply Forall2_cons_inv_l in Hst as (r & rows' & (_ & Hg & Hru & Hrc & Hz & Hp) & Hst & ->).
      apply Forall2_cons in Hs as [Hread Hs], Hn as [Hax Hn]. constructor; [|by eapply IH]. cbn in *. rewrite Hx in Hz.
      assert (GDepAmount r = half_away (value (f a) * 100000000)) as Ez by (symmetry; by apply stored_value).
      split_and!; try congruence; [by apply Hax|exact Hread]. }
  clear Hb Hst Hn Hs. assert (map GDepGoalID rows = map AlGoalID (Allocations in_)) as Hm.
  { clear Hdup Htotal. induction Hr as [|a r l rows [Hid _] _ IH]; [done|]. cbn. by rewrite Hid, IH. }
  split_and!; [done|rewrite Hm; by eapply duplicates_none|].
  rewrite <- Htotal. assert (length rows = length (map (λ r, inject_Z (GDepAmount r)) rows)) as -> by by rewrite length_map.
  rewrite <- (Qmult_1_r (inject_Z _)). apply Qsum_near. clear Hm Hdup Htotal.
  induction Hr as [|a r l rows (_ & _ & _ & _ & _ & Hle & _) _ IH]; by constructor.
Qed.

Lemma calm_split_goals u c l : calm (split_goals scan_numeric u c l).
Proof.
  induction l as [|a l IH]; cbn [split_goals]; [calm|].
  apply calm_bind; [apply calm_bind; [apply calm_query|intros g; apply calm_scan_row]|intros g].
  apply calm_bind; [apply calm_found|intros _].
  apply calm_bind; [|intros _; apply calm_bind; [done|intros gs; calm]].
  destruct (negb _); [calm|]. destruct (Status _); calm.
Qed.

Lemma gamification_books svc u a ds n w :
  let p := recordGamificationDeposit uuid_String svc u a ds n w in
  goal_deposits p.1 = goal_deposits w.
Proof.
  cbv zeta. unfold recordGamificationDeposit. destruct ds as [|d rest]; [done|]. by destruct (negb _).
Qed.

(** The rows are in or they are not, whatever follows. *)
Definition split_outcome {A} (u : Z) (in_ : DepositSplitInput) (w : World) (p : World * result SavErr A) : Prop :=
  (goal_deposits p.1 = goal_deposits w ∧ ∀ a, p.2 ≠ Ok a) ∨
  ∃ rows, goal_deposits p.1 = goal_deposits w ++ rows ∧ split_rows u in_ w rows.

Lemma split_outcome_err {A} u in_ w w1 e : quiet w w1 → split_outcome (A := A) u in_ w (w1, Err e).
Proof. intros (_ & _ & Hd & _). by left. Qed.

(** C22: a split deposit answers an error and records nothing, or records one row for
    each allocation, in order: the amount the split computes for that allocation, stored
    with eight places, positive and at most one unit of the eighth decimal away from the
    exact share, credited to a distinct active goal of the user, in its currency, whose
    contribution limits the amount meets; the total is at most one unit per goal away
    from the deposit. A call that answers success has recorded the rows; one that fails
    after them, or whose commit lost its connection, may have recorded them too. *)
Theorem a_split_is_all_or_nothing svc u in_ w :
  good w → split_outcome u in_ w (DepositSplit scan_numeric uuid_String Float64 svc u in_ w).
Proof.
  intros Hg. unfold DepositSplit. cbv zeta. set (c := NormalizeCurrency (SplitCurrency in_)).
  assert (quiet w w) as Hq0 by apply quiet_refl.
  destruct (negb _); [by apply split_outcome_err|]. destruct (negb _); [by apply split_outcome_err|].
  destruct (match Allocations in_ with [] => true | _ => false end); [by apply split_outcome_err|].
  rewrite run_bind. unfold lift at 1. destruct (split_amounts in_) as [amounts|e] eqn:Ea; [|by apply split_outcome_err].
  destruct (duplicates _ _) eqn:Edup; [by apply split_outcome_err|]. rewrite run_bind.
  destruct (runs_split_goals scan_numeric uuid_String u c (Allocations in_) w Hg) as [_ Hgs].
  pose proof (calm_split_goals u c (Allocations in_) w) as Hq1.
  destruct (split_goals scan_numeric u c (Allocations in_) w) as [w1 [gs|e]]; [|by apply split_outcome_err].
  destruct (Hgs gs eq_refl) as (_ & Hs & Hm). cbn in Hs, Hm, Hq1. rewrite run_bind. unfold check.
  destruct (within_limits _) as [[]|e] eqn:Ew; [|by apply split_outcome_err].
  assert (Forall2 (split_read u in_ w) (Allocations in_) amounts) as Hread.
  { assert (goals w1 = goals w) as Hgl by apply Hq1. unfold splittable in Hs. rewrite Hgl in Hs, Hm.
    eapply limits_read; try done. rewrite (split_amounts_shares _ _ Ea). by rewrite length_map. }
  rewrite run_bind. pose proof (calm_build u c (zip (Allocations in_) amounts) w1) as Hq2.
  destruct (build_deposits u c _ w1) as [w2 [ds|e]] eqn:Eb; cbn in Hq2;
    [|apply split_outcome_err; by eapply quiet_trans]. rewrite run_bind.
  assert (quiet w w2) as Hq by (by eapply quiet_trans).
  destruct (record_deposits_outcome ds w2) as [[Hq3 Hne]|(w3 & rows & Hq3 & Hst & Hw)];
    destruct (RecordGoalDeposits ds w2) as [w4 [[]|e]]; cbn in *; [done| | |].
  - apply split_outcome_err. by eapply quiet_trans.
  - right. exists rows. subst w4. split; [|by eapply rows_of_split].
    rewrite run_bind. pose proof (calm_split_results scan_numeric Float64 (zip gs amounts) (with_goal_deposits w3 (goal_deposits w3 ++ rows))) as Hq4.
    assert (goal_deposits w3 = goal_deposits w) as Hd
      by (destruct Hq3 as (_ & _ & -> & _), Hq as (_ & _ & -> & _); done).
    destruct (split_results _ _ _ _) as [w4 [rs|e]]; destruct Hq4 as (_ & _ & Hd4 & _); cbn in Hd4;
      [|by rewrite <- Hd].
    rewrite run_bind. pose proof (gamification_books svc u (TotalAmount in_) ds (completedGoals (zip gs rs)) w4) as Hg5.
    destruct (recordGamificationDeposit _ _ _ _ _ _ _) as [w5 [[]|e]]; cbn in *; congruence.
  - right. exists rows. subst w4. split; [|by eapply rows_of_split]. cbn.
    destruct Hq3 as (_ & _ & -> & _), Hq as (_ & _ & -> & _). done.
Qed.

(** *** The lifecycle *)

(** C19: whatever a call does to the tables is a sequence of lifecycle steps: a goal
    becomes what its status allows, is completed only when the money behind it covers
    its target, is restored within the recovery window only, and no milestone is marked
    without its event. *)
Theorem calls_follow_the_lifecycle svc c w :
  good w → rtc (steps (caller c) (may_touch c w)) w (fst (serve svc c w)) ∧ good (fst (serve svc c w)).
Proof. intros Hg. split; [by apply serve_walks|by apply serve_good]. Qed.

End props.

(** *** Concrete runs *)

#[local] Existing Instances QDecimal QDecimal_laws QDecimalOrder QDecimalOrder_laws QDecimalFormat.
Import VaultBooks VaultServiceBooks.

Definition Float64_Q (q : decimal) : float64 := float64_div (float64_of (Qnum q)) (float64_of (Z.pos (Qden q))).
Definition NewFromFloat_Q (f : float64) : decimal := dec 0.
Definition demo_json (s : string) : bool := true.
Definition demo_marshal (g : GoalOf decimal) (b : decimal) (p : float64) (m : Z) (t : string) : option string := Some "{}".
Definition demo_symbol (r : Z) : bool := false.
Definition demo_matches (s : string) (g : GoalOf Z) : bool := true.
Definition demo_goal_service : SavingsGoalService := mkGoalService None true true true true.
Abbreviation serve_goal_demo := (serve scan_Q id_text Float64_Q NewFromFloat_Q demo_json demo_marshal demo_symbol
  demo_matches demo_goal_service).

(** User 9 has 5 in a vault and opens a goal of 10: half of it is there. *)
Definition demo_world : World := mkWorld demo_funded ∅ [] ∅ ∅ ∅ [].
Definition demo_opening : Call :=
  ByUser 9 (GCreate (mkCreateGoal (dec 10) "USDC" (clock demo_world + 400 * Calendar.Day) "" "" "Car" "" None None None)).
Definition demo_opened : World := fst (serve_goal_demo demo_opening demo_world).
Definition goal_ids (w : World) : list Z := map fst (map_to_list (goals w)).

Lemma demo_world_good : good demo_world.
Proof. intros id g. cbn. by rewrite lookup_empty. Qed.

Lemma demo_opened_good : good demo_opened.
Proof. apply serve_good; [exact scan_Q_value|apply demo_world_good]. Qed.

(** The opened goal, deleted by its owner. *)
Definition demo_deleted : World := fst (serve_goal_demo (ByUser 9 (GDelete 10)) demo_opened).
Definition goal_at (w : World) (id : Z) : GoalOf Z :=
  default (mkGoal 0 0 (mkTerms None 0 "" 0 "" "" "" "" None None true) (mkLife GoalStatusActive None "" None)
    0 [] [] None None None None "" 0 0) (goals w !! id).
Definition demo_split : DepositSplitInput := mkSplit (dec 4) "usdc" [mkAlloc 10 (dec 0) (dec 100)].

Lemma goals_answer_to_their_owner_witness :
  GoalUserID (goal_at demo_opened 10) = 9 ∧
  goals (fst (serve_goal_demo (ByUser 8 (GDelete 10)) demo_opened)) !! 10 = Some (goal_at demo_opened 10).
Proof.
  assert (GoalUserID (goal_at demo_opened 10) = 9) as Hu by (vm_compute; reflexivity).
  split; [exact Hu|].
  apply (goals_answer_to_their_owner scan_Q scan_Q_value id_text Float64_Q NewFromFloat_Q demo_json demo_marshal
    demo_symbol demo_matches demo_goal_service (ByUser 8 (GDelete 10)) demo_opened demo_opened_good).
  - vm_compute; reflexivity.
  - cbn [may_touch]. rewrite Hu. discriminate.
Defined.


Lemma deleted_goals_are_kept_witness :
  DeletedAt (life (goal_at demo_deleted 10)) = Some 0 ∧
  ∃ g', goals (fst (serve_goal_demo (ByHarvest 10 (dec 1)) demo_deleted)) !! 10 = Some g' ∧
    frozen (goal_at demo_deleted 10) g'.
Proof.
  assert (DeletedAt (life (goal_at demo_deleted 10)) = Some 0) as Hd by (vm_compute; reflexivity).
  split; [exact Hd|].
  assert (good demo_deleted) as Hg by (apply serve_good; [exact scan_Q_value|exact demo_opened_good]).
  destruct (deleted_goals_are_kept scan_Q scan_Q_value id_text Float64_Q NewFromFloat_Q demo_json demo_marshal
    demo_symbol demo_matches demo_goal_service (ByHarvest 10 (dec 1)) demo_deleted 10 (goal_at demo_deleted 10) 0 Hg)
    as [Hk|[Hc _]]; [vm_compute; reflexivity|exact Hd|exact Hk|discriminate].
Defined.

Lemma a_split_is_all_or_nothing_witness :
  map GDepAmount (goal_deposits (fst (DepositSplit scan_Q id_text Float64_Q demo_goal_service 9 demo_split demo_opened)))
    = [400000000] ∧
  split_outcome 9 demo_split demo_opened (DepositSplit scan_Q id_text Float64_Q demo_goal_service 9 demo_split demo_opened).
Proof.
  split; [vm_compute; reflexivity|].
  exact (a_split_is_all_or_nothing scan_Q scan_Q_value id_text Float64_Q demo_goal_service 9 demo_split demo_opened
    demo_opened_good).
Defined.

Lemma calls_follow_the_lifecycle_witness :
  Status (life (goal_at (fst (serve_goal_demo (ByUser 9 (GPause 10)) demo_opened)) 10)) = GoalStatusPaused ∧
  rtc (SavingsLife.step id_text (Some 9) (λ g, GoalUserID g = 9)) demo_opened
    (fst (serve_goal_demo (ByUser 9 (GPause 10)) demo_opened)).
Proof.
  split; [vm_compute; reflexivity|].
  exact (proj1 (calls_follow_the_lifecycle scan_Q scan_Q_value id_text Float64_Q NewFromFloat_Q demo_json demo_marshal
    demo_symbol demo_matches demo_goal_service (ByUser 9 (GPause 10)) demo_opened demo_opened_good)).
Defined.

(** Two halves of one unit are a unit each. *)
Lemma halves_of_a_unit_are_units :
  match split_amounts (mkSplit (1 # 100000000)%Q "USDC" [mkAlloc 1 (dec 0) (dec 50); mkAlloc 2 (dec 0) (dec 50)]) with
  | Ok l => map (λ d, half_away (value d * 100000000)%Q) l
  | Err _ => []
  end = [1; 1].
Proof. vm_compute. reflexivity. Qed.

(** A page number whose offset leaves the 64-bit integers slices out of bounds. *)
Lemma page_offset_overflows {A} (l : list A) : page_of 92233720368547760 100 l = None.
Proof.
  unfold page_of. cbv zeta. change (i64 _) with (-9223372036854775716) at 1 2.
  replace (Z.of_nat (length l) <? -9223372036854775716) with false by (symmetry; apply Z.ltb_ge; lia). done.
Qed.

End SavingsProps.
