(* ===== verification/Schedules.v ===== *)
(** Recurring schedules: the requests of
    src/apps/api/internal/service/savings_schedule_service.go, what
    service/scheduled_deposit_adapters.go answers the scheduler, and the sweep and the job
    handler of scheduler/recurring_deposit.go. *)
From S2P Require Import Prelude Decimals TimeFormat Calendar JobQueue Outbox Ledger VaultRepo VaultDomain VaultService SavingsDomain SavingsStore SavingsGoals.
Open Scope Z_scope.

Module Schedules.
Import Decimals SavingsDomain SavingsStore SavingsGoals.

Section service.
  Context `{DecimalOrderLaws} `{F : !DecimalFormat}.
  Context (scan_numeric : Z → decimal).
  Context (uuid_String : Z → string).

(** *** SavingsScheduleService *)

(** [vaultRepo.GetVault]. *)
Definition get_vault (id : Z) : M VaultDomain.Vault := on_vaults (VaultService.GetVault scan_numeric id).

Definition validateScheduleAmount (amount minDeposit : decimal) : result SavErr unit :=
  if Cmp amount Zero <=? 0 then Err ErrInvalidSchedule
  else if IsPositive minDeposit && (Cmp amount minDeposit <=? 0) then Err ErrInvalidSchedule
  else if VaultDomain.MaxAmountScale <? VaultDomain.decimalScale amount then Err ErrInvalidSchedule
  else Ok ().

Record CreateSavingsScheduleInput := mkCreateSchedule {
  NewAmount : decimal;
  NewCurrency : string;
  NewFrequency : string;
  NewVaultID : Z;
}.

Definition own_goal (userID goalID : Z) : M (GoalOf decimal) :=
  g ← GetByID scan_numeric goalID; found g userID ;; mret g.

Definition own_vault (userID vaultID : Z) : M unit :=
  v ← get_vault vaultID;
  if negb (VaultDomain.VaultUserID v =? userID) then throw ErrUnauthorizedVault else mret ().

Definition Create (minDeposit : decimal) (userID goalID : Z) (in_ : CreateSavingsScheduleInput)
  : M (ScheduleOf decimal) :=
  goal ← own_goal userID goalID;
  if bool_decide (Status (life goal) = GoalStatusArchived) then throw ErrGoalArchived
  else if bool_decide (Status (life goal) = GoalStatusPaused) then throw ErrGoalPaused
  else
    frequency ← lift (ParseFrequency (NewFrequency in_));
    check (validateScheduleAmount (NewAmount in_) minDeposit) ;;
    own_vault userID (NewVaultID in_) ;;
    let currency := ToUpper (TrimSpace (NewCurrency in_)) in
    let currency := if currency =s? "" then "USDC"%string else currency in
    t ← now;
    id ← uuid_New;
    Schedule_Create (mkSchedule id userID goalID (NewVaultID in_) (NewAmount in_) currency frequency
      t None true None 0 0).

Definition List_ (userID goalID : Z) : M (list (ScheduleOf decimal)) :=
  own_goal userID goalID ;; ListByGoal scan_numeric goalID userID.

Definition Cancel (userID goalID scheduleID : Z) : M unit :=
  own_goal userID goalID ;; Schedule_Cancel scheduleID goalID userID.

Definition GetActive (userID goalID : Z) : M (option (ScheduleOf decimal)) :=
  own_goal userID goalID ;; GetActiveByGoal scan_numeric goalID userID.

Record UpdateSavingsScheduleInput := mkUpdateSchedule {
  UpdAmount : option decimal;
  UpdCurrency : option string;
  UpdFrequency : option string;
  UpdVaultID : option Z;
}.

Definition Update (minDeposit : decimal) (userID goalID : Z) (in_ : UpdateSavingsScheduleInput)
  : M (ScheduleOf decimal) :=
  goal ← own_goal userID goalID;
  if bool_decide (Status (life goal) = GoalStatusPaused) || bool_decide (Status (life goal) = GoalStatusArchived)
  then throw ErrGoalPaused
  else
    active ← GetActiveByGoal scan_numeric goalID userID;
    match active with
    | None => throw ErrScheduleNotFound
    | Some s =>
        match UpdAmount in_ with Some a => check (validateScheduleAmount a minDeposit) | None => mret () end ;;
        let amount := default (SchedAmount s) (UpdAmount in_) in
        let currency := match UpdCurrency in_ with Some c => ToUpper (TrimSpace c) | None => SchedCurrency s end in
        frequency ← match UpdFrequency in_ with Some f => lift (ParseFrequency f) | None => mret (SchedFrequency s) end;
        match UpdVaultID in_ with Some v => own_vault userID v | None => mret () end ;;
        let s' := mkSchedule (SchedID s) (SchedUserID s) (SchedGoalID s) (default (SchedVaultID s) (UpdVaultID in_))
          amount currency frequency (NextRunAt s) (LastRunAt s) (IsActive s) (OnchainMandateID s)
          (SchedCreatedAt s) (SchedUpdatedAt s) in
        Schedule_Update s' ;; mret s'
    end.

Definition DeleteActive (userID goalID : Z) : M unit :=
  own_goal userID goalID ;; CancelActiveByGoal goalID userID.

(** *** GoalProgressService and ScheduledDepositService *)

(** Whether the goal is closed or the user's vaults of its currency cover its target,
    and its name. *)
Definition IsGoalCompleted (goalID userID : Z) : M (bool * string) :=
  goal ← GetByID scan_numeric goalID;
  found goal userID ;;
  let name := if Description (terms goal) =s? "" then "your goal"%string else Description (terms goal) in
  if bool_decide (Status (life goal) = GoalStatusArchived) || bool_decide (Status (life goal) = GoalStatusCompleted)
  then mret (true, name)
  else
    balance ← SumVaultBalance scan_numeric userID (Currency (terms goal));
    mret (GreaterThanOrEqual balance (TargetAmount (terms goal)), name).

Definition IsGoalPausedOrArchived (goalID userID : Z) : M bool :=
  goal ← GetByID scan_numeric goalID;
  found goal userID ;;
  mret (bool_decide (Status (life goal) = GoalStatusPaused) || bool_decide (Status (life goal) = GoalStatusArchived)).

Definition scheduled_hash (scheduleID : Z) (occurrenceAt : Time) : string :=
  ("scheduled-" +:+ uuid_String scheduleID +:+ "-" +:+ TimeFormat.itoa (Calendar.Unix occurrenceAt))%string.

Definition RecordScheduledDeposit (svc : VaultService.VaultService) (userID vaultID : Z) (amount : decimal)
    (scheduleID : Z) (occurrenceAt : Time) : M unit :=
  on_vaults (VaultService.RecordDeposit scan_numeric uuid_String svc
    (VaultService.mkDepositInput vaultID userID amount (scheduled_hash scheduleID occurrenceAt) Zero "")) ;;
  mret ().

End service.

(** *** RecurringDepositJob *)

Definition RecurringDepositJobType : string := "recurring_deposit".
Definition defaultRecurringDepositInterval : Duration := Hour.

Record RecurringDepositConfig := mkRecurring {
  Enabled : bool;
  Interval : Duration;
  Window : Duration;
}.

Definition window (c : RecurringDepositConfig) : Duration :=
  if Window c <=? 0 then defaultRecurringDepositInterval else Window c.

Section recurring.
  Context `{DecimalOrderLaws} `{F : !DecimalFormat}.

Record RecurringDepositJobPayload := mkPayload {
  PScheduleID : Z;
  PUserID : Z;
  PVaultID : Z;
  PGoalID : Z;
  PAmount : decimal;
  PCurrency : string;
  PFrequency : string;
  PGoalName : string;
  POccurrenceAt : Time;
  POnchainMandateID : option Z;
}.

(** The same but for how the amount is written down. *)
Definition same_payload (p q : RecurringDepositJobPayload) : Prop :=
  PScheduleID q = PScheduleID p ∧ PUserID q = PUserID p ∧ PVaultID q = PVaultID p ∧ PGoalID q = PGoalID p ∧
  (value (PAmount q) == value (PAmount p))%Q ∧ PCurrency q = PCurrency p ∧ PFrequency q = PFrequency p ∧
  PGoalName q = PGoalName p ∧ POccurrenceAt q = POccurrenceAt p ∧ POnchainMandateID q = POnchainMandateID p.

(** The payload's JSON: [json.Marshal] with the packages' own marshallers. *)
Class PayloadCodec := {
  Marshal : RecurringDepositJobPayload → option string;
  Unmarshal : string → option RecurringDepositJobPayload;
}.

(** What is marshalled is read back. *)
Class PayloadCodecLaws `{PayloadCodec} := {
  Unmarshal_Marshal p s : Marshal p = Some s → ∃ q, Unmarshal s = Some q ∧ same_payload p q;
  Marshal_not_empty p s : Marshal p = Some s → s ≠ "";
}.

Inductive Notice := ScheduledDeposit (userID : Z) (amount : decimal) (currency goalName : string).

(** The savings world, the jobs table, the answers of the leader checker still to come
    ([None]: no checker), what was sent to the user, the mandates sent to the chain. *)
Record State := mkState {
  world : World;
  jobs : JobQueue.Jobs;
  leading : option (list bool);
  notices : list Notice;
  executed : list (Z * Z);
  lastTickEnd : Time;
}.

Definition with_world s x := mkState x (jobs s) (leading s) (notices s) (executed s) (lastTickEnd s).
Definition with_jobs s x := mkState (world s) x (leading s) (notices s) (executed s) (lastTickEnd s).
Definition with_leading s x := mkState (world s) (jobs s) x (notices s) (executed s) (lastTickEnd s).
Definition with_notices s x := mkState (world s) (jobs s) (leading s) x (executed s) (lastTickEnd s).
Definition with_executed s x := mkState (world s) (jobs s) (leading s) (notices s) x (lastTickEnd s).
Definition with_lastTickEnd s x := mkState (world s) (jobs s) (leading s) (notices s) (executed s) x.

(** A savings operation. *)
Definition on_world {A} (m : M A) (s : State) : State * result SavErr A :=
  (with_world s (fst (m (world s))), snd (m (world s))).

(** The checker's next answer; one that has no more answers is not the leader. *)
Definition isLeader (s : State) : State * bool :=
  match leading s with
  | None => (s, true)
  | Some [] => (s, false)
  | Some (b :: rest) => (with_leading s (Some rest), b)
  end.

  Context (scan_numeric : Z → decimal).
  Context (uuid_String : Z → string).
  Context `{C : !PayloadCodec}.
  (** What other sessions commit between the two statements of an enqueue. *)
  Context (between : JobQueue.Jobs → JobQueue.Jobs).

Definition recurringDepositIdempotencyKey (scheduleID : Z) (occurrenceAt : Time) (w : Duration) : string :=
  (uuid_String scheduleID +:+ ":" +:+ TimeFormat.itoa (Calendar.Unix (Calendar.Truncate occurrenceAt w)))%string.

Definition payload_of (schedule : ScheduleOf decimal) (goalName : string) : RecurringDepositJobPayload :=
  mkPayload (SchedID schedule) (SchedUserID schedule) (SchedVaultID schedule) (SchedGoalID schedule)
    (SchedAmount schedule) (SchedCurrency schedule) (frequency_string (SchedFrequency schedule)) goalName
    (NextRunAt schedule) (OnchainMandateID schedule).

Definition occurrence_input (cfg : RecurringDepositConfig) (schedule : ScheduleOf decimal) (payload : string)
  : JobQueue.EnqueueInput :=
  JobQueue.mkEnqueue RecurringDepositJobType payload JobQueue.PriorityBalance 0
    (recurringDepositIdempotencyKey (SchedID schedule) (NextRunAt schedule) (window cfg))
    (uuid_String (SchedID schedule)) 0.

(** [queue.Enqueue], with a fresh id and the clock of the session. *)
Definition enqueue (in_ : JobQueue.EnqueueInput) (s : State) : State :=
  let '(w, r) := uuid_New (world s) in
  let '(lost, w) := round_trip w in
  match r with
  | Err _ => with_world s w
  | Ok id =>
      if lost then with_world s w
      else
        let '(t, _, _) := JobQueue.Client_Enqueue (jobs s) in_ "" (uuid_String id) (clock w) (clock w) between in
        with_jobs (with_world s w) t
  end.

(** [j.processSchedule]: failures are logged. *)
Definition processSchedule (cfg : RecurringDepositConfig) (schedule : ScheduleOf decimal) (s : State) : State :=
  let '(s, r) := on_world (IsGoalPausedOrArchived scan_numeric (SchedGoalID schedule) (SchedUserID schedule)) s in
  match r with
  | Err _ | Ok true => s
  | Ok false =>
      let '(s, r) := on_world (IsGoalCompleted scan_numeric (SchedGoalID schedule) (SchedUserID schedule)) s in
      match r with
      | Err _ => s
      | Ok (true, _) => fst (on_world (Deactivate (SchedID schedule)) s)
      | Ok (false, goalName) =>
          let '(s, leads) := isLeader s in
          if negb leads then s
          else match Marshal (payload_of schedule goalName) with
               | None => s
               | Some payload => enqueue (occurrence_input cfg schedule payload) s
               end
      end
  end.

Fixpoint process_all (cfg : RecurringDepositConfig) (due : list (ScheduleOf decimal)) (s : State) : State :=
  match due with
  | [] => s
  | schedule :: rest => process_all cfg rest (processSchedule cfg schedule s)
  end.

Definition Tick (cfg : RecurringDepositConfig) (s : State) : State :=
  let ended s := with_lastTickEnd s (clock (world s)) in
  let '(s, leads) := isLeader s in
  if negb leads then ended s
  else
    match on_world (ListDue scan_numeric (clock (world s))) s with
    | (s, Err _) => ended s
    | (s, Ok due) => ended (process_all cfg due s)
    end.

(** *** RecurringDepositJobHandler *)

(** [Permanent] failures are not retried. *)
Inductive HandlerError := Permanent | Repository (e : SavErr) | Mandate (msg : string).

(** [mandates userID mandateID]: the executor's error; the deposit service of the
    handler. *)
Record RecurringDepositJobHandler := mkHandler {
  deposits : VaultService.VaultService;
  mandates : option (Z → Z → option string);
}.

Definition isNonRetryableMandateError (errStr : string) : bool :=
  Contains errStr "MandateExpired" || Contains errStr "MandateExhausted" || Contains errStr "MandateNotDue" ||
  Contains errStr "MandateInactive" || Contains errStr "MandatePaused".

Definition updateScheduleAfterExecution (p : RecurringDepositJobPayload) (s : State)
  : State * result HandlerError unit :=
  let nextRun := Calendar.NextRunAt (POccurrenceAt p) (PFrequency p) in
  match on_world (UpdateAfterRun (PScheduleID p) (POccurrenceAt p) nextRun) s with
  | (s, Err e) => (s, Err (Repository e))
  | (s, Ok tt) =>
      (with_notices s (notices s ++ [ScheduledDeposit (PUserID p) (PAmount p) (PCurrency p) (PGoalName p)]), Ok tt)
  end.

(** [errors.Is(err, vault.ErrDuplicateTransaction)]. *)
Definition is_duplicate (e : SavErr) : bool :=
  match e with
  | ErrVaults (VaultService.Repo VaultRepo.ErrDuplicateTransaction) => true
  | _ => false
  end.

(** The branch without a mandate: a deposit already recorded is as good as recorded. *)
Definition record_occurrence (h : RecurringDepositJobHandler) (p : RecurringDepositJobPayload) (s : State)
  : State * result HandlerError unit :=
  match on_world (RecordScheduledDeposit scan_numeric uuid_String (deposits h) (PUserID p) (PVaultID p)
                    (PAmount p) (PScheduleID p) (POccurrenceAt p)) s with
  | (s, Err e) => if is_duplicate e then updateScheduleAfterExecution p s else (s, Err (Repository e))
  | (s, Ok tt) => updateScheduleAfterExecution p s
  end.

Definition Handle (h : RecurringDepositJobHandler) (job : JobQueue.Job) (s : State)
  : State * result HandlerError unit :=
  match Unmarshal (JobQueue.Payload job) with
  | None => (s, Err Permanent)
  | Some p =>
      match POnchainMandateID p, mandates h with
      | Some mandateID, Some executor =>
          let s := with_executed s (executed s ++ [(PUserID p, mandateID)]) in
          match executor (PUserID p) mandateID with
          | Some msg => if isNonRetryableMandateError msg then updateScheduleAfterExecution p s
                        else (s, Err (Mandate msg))
          | None => updateScheduleAfterExecution p s
          end
      | _, _ => record_occurrence h p s
      end
  end.

End recurring.

End Schedules.
