(* ===== verification/ScheduleLife.v ===== *)
(** Recurring schedules over time: what a request and a sweep do to the schedules, and
    the invariant they keep together with the goals' calls. *)
From S2P Require Import Prelude Decimals Calendar JobQueue Outbox Ledger VaultRepo VaultBooks VaultDomain VaultService VaultServiceBooks SavingsDomain SavingsStore SavingsGoals SavingsLife SavingsProps Schedules.
Open Scope Z_scope.

Module ScheduleLife.
Import Decimals SavingsDomain SavingsStore SavingsGoals SavingsLife Schedules.

(** *** Steps *)

(** A goal that takes contributions. *)
Definition open_goal (g : GoalOf Z) : Prop :=
  deleted g = false ∧ Status (life g) ≠ GoalStatusPaused ∧ Status (life g) ≠ GoalStatusArchived.

Definition ran (last next now : Time) (r : ScheduleOf Z) : ScheduleOf Z :=
  mkSchedule (SchedID r) (SchedUserID r) (SchedGoalID r) (SchedVaultID r) (SchedAmount r) (SchedCurrency r)
    (SchedFrequency r) (timestamptz next) (Some (timestamptz last)) (IsActive r)
    (OnchainMandateID r) (SchedCreatedAt r) now.

Section steps.
  Context `{DecimalOrderLaws} `{F : !DecimalFormat}.

(** What a request of [user], or the system ([None]), may do to the schedules. *)
Inductive sched_step (user : option Z) (w : World) : World → Prop :=
| sched_session w' : quiet w w' → sched_step user w w'
| sched_new s :
    user = Some (SchedUserID s) → schedules w !! SchedID s = None → IsActive s = true → 0 < SchedAmount s →
    goal_has_active (SchedID s) (SchedGoalID s) w = false →
    (∃ g, goals w !! SchedGoalID s = Some g ∧ GoalUserID g = SchedUserID s ∧ open_goal g) →
    sched_step user w (with_schedules w (<[SchedID s := s]> (schedules w)))
| sched_off p t :
    (∀ r, p r = true → user = None ∨ user = Some (SchedUserID r)) →
    sched_step user w (with_schedules w ((λ r, if p r then set_active false t r else r) <$> schedules w))
| sched_terms id r v a c f t :
    schedules w !! id = Some r → user = Some (SchedUserID r) → IsActive r = true → 0 < a →
    sched_step user w (with_schedules w (<[id := mkSchedule (SchedID r) (SchedUserID r) (SchedGoalID r) v a c f
      (NextRunAt r) (LastRunAt r) (IsActive r) (OnchainMandateID r) (SchedCreatedAt r) t]> (schedules w)))
| sched_ran p last next t :
    user = None → (∀ r, p r = true → IsActive r = true) →
    sched_step user w (with_schedules w ((λ r, if p r then ran last next t r else r) <$> schedules w)).

(** Schedules are stored under their ids, move money, belong to the owner of their goal,
    and a goal has at most one that is active. *)
Definition sched_ok (w : World) : Prop :=
  (∀ id s, schedules w !! id = Some s → SchedID s = id ∧ 0 < SchedAmount s ∧
     ∃ g, goals w !! SchedGoalID s = Some g ∧ GoalUserID g = SchedUserID s) ∧
  (∀ i j s t, schedules w !! i = Some s → schedules w !! j = Some t → IsActive s = true → IsActive t = true →
     SchedGoalID s = SchedGoalID t → i = j).

Lemma schedule_rows_spec w r : r ∈ schedule_rows w ↔ ∃ id, schedules w !! id = Some r.
Proof.
  unfold schedule_rows. rewrite list_elem_of_fmap. split.
  - intros ([id r'] & -> & Hin). exists id. by apply elem_of_map_to_list in Hin.
  - intros [id Hl]. exists (id, r). split; [done|]. by apply elem_of_map_to_list.
Qed.

Lemma no_other_active w id goal i r :
  (∀ i s, schedules w !! i = Some s → SchedID s = i) →
  goal_has_active id goal w = false → schedules w !! i = Some r → i ≠ id → SchedGoalID r = goal → IsActive r = false.
Proof.
  intros Hk Hn Hl Hi Hg. destruct (IsActive r) eqn:Ea; [|done]. exfalso.
  assert (goal_has_active id goal w = true); [|congruence].
  unfold goal_has_active. apply existsb_exists. exists r. split.
  - apply list_elem_of_In, schedule_rows_spec. by exists i.
  - rewrite (Hk i r Hl), (proj2 (Z.eqb_neq i id)), (proj2 (Z.eqb_eq _ goal)), Ea; done.
Qed.

(** Rows rewritten in place: nothing is activated. *)
Lemma sched_ok_map w f :
  (∀ r, SchedID (f r) = SchedID r ∧ SchedGoalID (f r) = SchedGoalID r ∧ SchedUserID (f r) = SchedUserID r ∧
        (0 < SchedAmount r → 0 < SchedAmount (f r)) ∧ (IsActive (f r) = true → IsActive r = true)) →
  sched_ok w → sched_ok (with_schedules w (f <$> schedules w)).
Proof.
  intros Hf [H1 H2]. split; cbn.
  - intros id s Hl. apply lookup_fmap_Some in Hl as (r & <- & Hl). destruct (H1 id r Hl) as (Hid & Hp & g & Hg & Hu).
    destruct (Hf r) as (-> & -> & -> & Ha & _). split_and!; [done|by apply Ha|]. by exists g.
  - intros i j s t Hi Hj Hs Ht Heq. apply lookup_fmap_Some in Hi as (ri & <- & Hi), Hj as (rj & <- & Hj).
    destruct (Hf ri) as (_ & Hgi & _ & _ & Hai), (Hf rj) as (_ & Hgj & _ & _ & Haj). eapply H2; eauto. congruence.
Qed.

(** One row rewritten in place. *)
Lemma sched_ok_row w w' id r r' :
  goals w' = goals w → schedules w' = <[id := r']> (schedules w) → schedules w !! id = Some r →
  SchedID r' = SchedID r → SchedGoalID r' = SchedGoalID r → SchedUserID r' = SchedUserID r →
  0 < SchedAmount r' → IsActive r' = IsActive r → sched_ok w → sched_ok w'.
Proof.
  intros Hg Hs Hl Hid Hgo Hu Hp Ha [H1 H2]. destruct (H1 id r Hl) as (Hid0 & _ & Hg0). split; rewrite ?Hg, ?Hs.
  - intros i k Hk. apply lookup_insert_Some in Hk as [[<- <-]|[_ Hk]]; [|by apply H1].
    rewrite Hid, Hgo, Hu. by split_and!.
  - intros i j k l Hi Hj Hk Hl' Heq.
    apply lookup_insert_Some in Hi as [[<- <-]|[Hni Hi]], Hj as [[<- <-]|[Hnj Hj]]; [done|..];
      rewrite ?Ha, ?Hgo in *; by eapply H2.
Qed.

Lemma sched_ok_same w w' : goals w' = goals w → schedules w' = schedules w → sched_ok w → sched_ok w'.
Proof. unfold sched_ok. by intros -> ->. Qed.

Lemma sched_step_ok u w w' : sched_step u w w' → sched_ok w → sched_ok w'.
Proof.
  intros Hs Hok. pose proof Hok as [H1 H2].
  destruct Hs as [w' Hq|s _ Hn Ha Hp Hone (g & Hg & Hu & _)|p t _|id r v a c f t Hl _ Ha Hp|p last next t _ _].
  - destruct Hq as (_ & Hg & _ & Hs & _). by eapply sched_ok_same.
  - split; cbn.
    + intros id k Hk. apply lookup_insert_Some in Hk as [[<- <-]|[_ Hk]]; [|by apply H1].
      split_and!; [done..|]. by exists g.
    + intros i j k l Hi Hj Hk Hl Heq. assert (∀ i s, schedules w !! i = Some s → SchedID s = i) as Hid by (by intros; apply H1).
      apply lookup_insert_Some in Hi as [[<- <-]|[Hni Hi]], Hj as [[<- <-]|[Hnj Hj]]; [done|..].
      * rewrite (no_other_active w _ _ j l Hid Hone Hj) in Hl; done.
      * rewrite (no_other_active w _ _ i k Hid Hone Hi) in Hk; done.
      * by eapply H2.
  - apply sched_ok_map; [|done]. intros r. by destruct (p r).
  - eapply (sched_ok_row w _ id r); [reflexivity|reflexivity|exact Hl|done..].
  - apply sched_ok_map; [|done]. intros r. by destruct (p r).
Qed.

Lemma sched_steps_ok u w w' : rtc (sched_step u) w w' → sched_ok w → sched_ok w'.
Proof. induction 1 as [|w1 w2 w3 H1 _ IH]; [done|]. intros Hok. by eapply IH, sched_step_ok. Qed.

(** Another user's schedules stay as they are. *)
Lemma sched_steps_others u w w' id r :
  rtc (sched_step (Some u)) w w' → schedules w !! id = Some r → SchedUserID r ≠ u → schedules w' !! id = Some r.
Proof.
  intros Hs Hl Hu. induction Hs as [|w1 w2 w3 H1 _ IH]; [done|]. apply IH. clear IH.
  destruct H1 as [w2 Hq|s Hs Hn _ _ _ _|p t Hp|i k v a c f t Hk Hs _ _|p last next t Hs _].
  - by destruct Hq as (_ & _ & _ & -> & _).
  - cbn. rewrite lookup_insert_ne; [done|]. intros Heq. congruence.
  - cbn. rewrite lookup_fmap, Hl. cbn. destruct (p r) eqn:E; [|done]. destruct (Hp r E) as [|[=]]; congruence.
  - cbn. rewrite lookup_insert_ne; [done|]. intros ->. congruence.
  - done.
Qed.

End steps.

(** *** Requests *)

Section requests.
  Context `{DecimalOrderLaws} `{F : !DecimalFormat}.
  Context (scan_numeric : Z → decimal).

(** [m] takes the schedules through steps, to a result that satisfies [Q]. *)
Definition walks {A} (u : option Z) (m : M A) (w : World) (Q : World → A → Prop) : Prop :=
  rtc (sched_step u) w (fst (m w)) ∧ ∀ a, snd (m w) = Ok a → Q (fst (m w)) a.

Lemma sched_walks_bind {A B} u (m : M A) (k : A → M B) w (Q : World → A → Prop) (R : World → B → Prop) :
  walks u m w Q → (∀ w1 a, Q w1 a → walks u (k a) w1 R) → walks u (m ≫= k) w R.
Proof.
  intros [Hs Ha] Hk. unfold walks. rewrite run_bind. destruct (m w) as [w1 [a|e]]; [|done]. cbn in *.
  destruct (Hk w1 a (Ha a eq_refl)) as [Hs2 Hb]. split; [by etransitivity|done].
Qed.

Lemma walks_throw {A} u e w (Q : World → A → Prop) : walks u (throw e) w Q.
Proof. done. Qed.

Lemma walks_calm {A} u (m : M A) w (Q : World → A → Prop) :
  calm m → (∀ w1 a, quiet w w1 → m w = (w1, Ok a) → Q w1 a) → walks u m w Q.
Proof.
  intros Hm HQ. specialize (Hm w). destruct (m w) as [w1 [a|e]] eqn:E; unfold walks; rewrite E; cbn in *;
    (split; [by apply rtc_once, sched_session|]); [|done]. intros ? [= <-]. by apply HQ.
Qed.

Lemma walks_ret {A} u (a : A) w : walks u (mret a) w (λ _ _, True).
Proof. by apply walks_calm; [apply calm_ret|]. Qed.

Lemma calm_GetByID id : calm (GetByID scan_numeric id).
Proof. apply calm_bind; [apply calm_query|intros g; apply calm_scan_row]. Qed.

Lemma calm_own_goal u id : calm (own_goal scan_numeric u id).
Proof. unfold own_goal. apply calm_bind; [apply calm_GetByID|intros g]. apply calm_bind; [apply calm_found|]. calm. Qed.

Lemma GetByID_row id w w1 g :
  GetByID scan_numeric id w = (w1, Ok g) →
  quiet w w1 ∧ ∃ r, goals w1 !! id = Some r ∧ g = scan_goal scan_numeric r ∧ deleted r = false.
Proof.
  intros E. pose proof (calm_GetByID id w) as Hq. rewrite E in Hq. split; [done|]. revert E. unfold GetByID.
  rewrite run_bind.
  pose proof (query_outcome (λ w, match goals w !! id with
    | Some g => if deleted g then None else Some g | None => None end) w) as [_ Ha].
  destruct (query _ w) as [w2 [o|e]]; [|done]. cbn in Ha. rewrite (Ha o eq_refl). unfold scan_row, lift.
  destruct (goals w2 !! id) as [r|] eqn:El; [|done]. destruct (deleted r) eqn:Ed; [done|].
  cbn. intros [= <- <-]. by exists r.
Qed.

(** The goal of a request is the user's and not deleted. *)
Lemma own_goal_row u id w w1 g :
  own_goal scan_numeric u id w = (w1, Ok g) →
  ∃ r, goals w1 !! id = Some r ∧ g = scan_goal scan_numeric r ∧ deleted r = false ∧ GoalUserID r = u.
Proof.
  unfold own_goal. rewrite run_bind. destruct (GetByID _ id w) as [w2 [g2|e]] eqn:E; [|done].
  destruct (GetByID_row _ _ _ _ E) as (_ & r & Hl & -> & Hd). rewrite run_bind. unfold found.
  destruct (negb _) eqn:Eu; [done|]. cbn. intros [= <- <-]. apply negb_false_iff, Z.eqb_eq in Eu. by exists r.
Qed.

Lemma calm_own_vault u v : calm (own_vault scan_numeric u v).
Proof.
  unfold own_vault. apply calm_bind; [|intros x; destruct (negb _); [apply calm_throw|apply calm_ret]].
  intros w. apply on_vaults_quiet, VaultServiceBooks.reads_GetVault.
Qed.

(** The insert of a schedule of the user's open goal. *)
Lemma walks_create s w :
  IsActive s = true →
  (∃ g, goals w !! SchedGoalID s = Some g ∧ GoalUserID g = SchedUserID s ∧ open_goal g) →
  walks (Some (SchedUserID s)) (Schedule_Create s) w (λ _ _, True).
Proof.
  intros Ha Hg. unfold walks, Schedule_Create. split; [|done].
  destruct (exec_outcome (insert_schedule s) w) as [[Hq Hn]|(w1 & w2 & a & Hq & Ho & ->)].
  - destruct (exec _ w) as [w1 [a|e]]; [by destruct (Hn a)|]. by apply rtc_once, sched_session.
  - unfold insert_schedule in Ho. destruct (store_amount _ _) as [n|e] eqn:En; [|done]. cbn in Ho.
    case_bool_decide as Hfree; [done|]. rewrite Ha in Ho.
    destruct (true && goal_has_active _ _ _) eqn:Eone; [done|].
    repeat (destruct (negb _); [done|]). injection Ho as <- <-. cbn.
    eapply rtc_l; [by apply sched_session|]. apply rtc_once. set (r := mkSchedule _ _ _ _ _ _ _ _ _ _ _ _ _).
    apply (sched_new _ w1 r); [done|by apply eq_None_not_Some|done| |done|].
    + unfold store_amount in En. destruct (numeric 48 _) as [z|e]; [|done]. cbn in En.
      destruct (negb _); [done|]. destruct (z <=? 0) eqn:Ez; [done|]. injection En as <-. cbn. lia.
    + destruct Hq as (_ & -> & _). exact Hg.
Qed.

Lemma walks_Create minDeposit u goalID in_ w :
  walks (Some u) (Create scan_numeric minDeposit u goalID in_) w (λ _ _, True).
Proof.
  unfold Create. eapply sched_walks_bind with (Q := λ w1 g, ∃ r, goals w1 !! goalID = Some r ∧ g = scan_goal scan_numeric r ∧
    deleted r = false ∧ GoalUserID r = u).
  { apply walks_calm; [apply calm_own_goal|]. intros w1 g _ E. by eapply own_goal_row. }
  intros w1 g (r & Hl & -> & Hd & Hu). case_bool_decide as Ha; [apply walks_throw|].
  case_bool_decide as Hp; [apply walks_throw|]. cbn in Ha, Hp.
  assert (∀ w2, quiet w1 w2 → ∃ g, goals w2 !! goalID = Some g ∧ GoalUserID g = u ∧ open_goal g) as Hopen.
  { intros w2 (_ & Hg & _). exists r. by rewrite Hg. }
  eapply sched_walks_bind with (Q := λ w2 _, quiet w1 w2); [by apply walks_calm; [apply calm_lift|]|]. intros w2 f Hq2.
  eapply sched_walks_bind with (Q := λ w3 _, quiet w1 w3).
  { apply walks_calm; [apply calm_check|]. intros w3 _ Hq _. by eapply quiet_trans. }
  intros w3 _ Hq3. eapply sched_walks_bind with (Q := λ w4 _, quiet w1 w4).
  { apply walks_calm; [apply calm_own_vault|]. intros w4 _ Hq _. by eapply quiet_trans. }
  intros w4 _ Hq4. cbv zeta. eapply sched_walks_bind with (Q := λ w5 _, quiet w1 w5).
  { apply walks_calm; [apply calm_now|]. intros w5 t Hq _. by eapply quiet_trans. }
  intros w5 t Hq5. eapply sched_walks_bind with (Q := λ w6 _, quiet w1 w6).
  { apply walks_calm; [apply calm_uuid|]. intros w6 id Hq _. by eapply quiet_trans. }
  intros w6 id Hq6. apply (walks_create (mkSchedule id u goalID _ _ _ _ _ _ _ _ _ _)); [done|]. by apply Hopen.
Qed.

(** A statement over all the rows it selects. *)
Lemma update_schedules_outcome p (f : Time → ScheduleOf Z → ScheduleOf Z) w :
  let q := update_schedules p f w in
  (quiet w q.1 ∧ q.2 ≠ Ok ()) ∨
  ∃ w1, quiet w w1 ∧
    q.1 = with_schedules w1 ((λ r, if p r then f (clock w1) r else r) <$> schedules w1) ∧
    (q.2 = Ok () ↔ ∃ id r, schedules w1 !! id = Some r ∧ p r = true).
Proof.
  cbv zeta. unfold update_schedules. rewrite run_bind.
  destruct (exec_outcome (λ now w, Ok (with_schedules w ((λ r, if p r then f now r else r) <$> schedules w),
    length (List.filter p (schedule_rows w)))) w) as [[Hq Hn]|(w1 & w2 & a & Hq & Ho & ->)].
  - left. destruct (exec _ w) as [w1 [a|e]]; [by destruct (Hn a)|done].
  - right. injection Ho as <- <-. exists w1. split; [done|].
    destruct (List.filter p (schedule_rows w1)) as [|r l] eqn:E; cbn; (split; [done|]).
    + split; [done|]. intros (id & r & Hl & Hp). exfalso.
      assert (r ∈ List.filter p (schedule_rows w1)) as Hin; [|rewrite E in Hin; by apply not_elem_of_nil in Hin].
      apply list_elem_of_In, List.filter_In. split; [|done]. apply list_elem_of_In, schedule_rows_spec. by exists id.
    + split; [|done]. intros _.
      assert (In r (List.filter p (schedule_rows w1))) as Hin by (rewrite E; by left).
      apply List.filter_In in Hin as [Hin Hp]. apply list_elem_of_In, schedule_rows_spec in Hin as [id Hl]. by exists id, r.
Qed.

Lemma walks_update u (p : ScheduleOf Z → bool) (f : Time → ScheduleOf Z → ScheduleOf Z) w :
  (∀ w1, quiet w w1 → sched_step u w1 (with_schedules w1 ((λ r, if p r then f (clock w1) r else r) <$> schedules w1))) →
  walks u (update_schedules p f) w (λ _ _, True).
Proof.
  intros Hf. unfold walks. split; [|done]. destruct (update_schedules_outcome p f w) as [[Hq _]|(w1 & Hq & -> & _)].
  - by apply rtc_once, sched_session.
  - eapply rtc_l; [by apply sched_session|]. by apply rtc_once, Hf.
Qed.

Lemma active_for_spec goalID u r : active_for goalID u r = true → SchedGoalID r = goalID ∧ SchedUserID r = u ∧ IsActive r = true.
Proof. unfold active_for. rewrite !andb_true_iff, !Z.eqb_eq. by intros [[-> ->] ->]. Qed.

Lemma walks_cancel u goalID w : walks (Some u) (CancelActiveByGoal goalID u) w (λ _ _, True).
Proof.
  apply walks_update. intros w1 _. apply sched_off. intros r Hp. apply active_for_spec in Hp as (_ & -> & _). by right.
Qed.

Lemma walks_cancel_one u goalID id w : walks (Some u) (Schedule_Cancel id goalID u) w (λ _ _, True).
Proof.
  apply walks_update. intros w1 _. apply sched_off. intros r [_ Hp]%andb_true_iff.
  apply active_for_spec in Hp as (_ & -> & _). by right.
Qed.

Lemma walks_deactivate id w : walks None (Deactivate id) w (λ _ _, True).
Proof. apply walks_update. intros w1 _. apply sched_off. by left. Qed.

Lemma walks_after_run id last next w : walks None (UpdateAfterRun id last next) w (λ _ _, True).
Proof.
  apply walks_update. intros w1 _.
  apply (sched_ran None w1 (λ r, (SchedID r =? id) && IsActive r) last next (clock w1)); [done|].
  by intros r [_ Ha]%andb_true_iff.
Qed.

Lemma calm_GetActive goalID u : calm (GetActiveByGoal scan_numeric goalID u).
Proof. apply calm_query. Qed.

Lemma GetActive_row goalID u w w1 s :
  GetActiveByGoal scan_numeric goalID u w = (w1, Ok (Some s)) → SchedUserID s = u ∧ IsActive s = true.
Proof.
  unfold GetActiveByGoal. intros E.
  pose proof (query_outcome (λ w, scan_schedule scan_numeric <$> head (merge_sort sched_created_ge
    (List.filter (active_for goalID u) (schedule_rows w)))) w) as [_ Ha]. rewrite E in Ha.
  specialize (Ha _ eq_refl). symmetry in Ha. apply fmap_Some in Ha as (r & Hh & ->).
  assert (r ∈ merge_sort sched_created_ge (List.filter (active_for goalID u) (schedule_rows w1))) as Hin
    by (cbn in Hh; destruct (merge_sort _ _); [done|]; injection Hh as ->; by left).
  rewrite merge_sort_Permutation in Hin. apply list_elem_of_In, List.filter_In in Hin as [_ Hp].
  by apply active_for_spec in Hp as (_ & Hu & Hact).
Qed.

Lemma walks_row_update s w :
  walks (Some (SchedUserID s)) (Schedule_Update s) w (λ _ _, True).
Proof.
  unfold walks. split; [|done]. unfold Schedule_Update. rewrite run_bind.
  match goal with |- context [exec ?f w] =>
    destruct (exec_outcome f w) as [[Hq Hn]|(w1 & w2 & a & Hq & Ho & ->)] end.
  - destruct (exec _ w) as [w1 [a|e]]; [by destruct (Hn a)|]. by apply rtc_once, sched_session.
  - destruct (schedules w1 !! SchedID s) as [r|] eqn:El; [|injection Ho as <- <-; by apply rtc_once, sched_session].
    destruct (_ && _) eqn:Ep; [|injection Ho as <- <-; by apply rtc_once, sched_session].
    apply andb_true_iff in Ep as [[Hu Hg]%andb_true_iff Ha]. apply Z.eqb_eq in Hu, Hg.
    destruct (store_amount _ _) as [n|e] eqn:En; [|done]. cbn in Ho. destruct (negb _); [done|].
    injection Ho as <- <-. cbn. eapply rtc_l; [by apply sched_session|]. apply rtc_once.
    apply sched_terms; [done|by rewrite Hu|done|].
    unfold store_amount in En. destruct (numeric 48 _) as [z|e]; [|done]. cbn in En.
    destruct (negb _); [done|]. destruct (z <=? 0) eqn:Ez; [done|]. injection En as <-. lia.
Qed.

Lemma walks_Update minDeposit u goalID in_ w :
  walks (Some u) (Update scan_numeric minDeposit u goalID in_) w (λ _ _, True).
Proof.
  unfold Update. eapply sched_walks_bind with (Q := λ _ _, True); [by apply walks_calm; [apply calm_own_goal|]|].
  intros w1 g _. destruct (_ || _); [apply walks_throw|].
  eapply sched_walks_bind with (Q := λ _ o, ∀ s, o = Some s → SchedUserID s = u ∧ IsActive s = true).
  { apply walks_calm; [apply calm_GetActive|]. intros w2 o _ E s ->. by eapply GetActive_row. }
  intros w2 [s|] Hs; [|apply walks_throw]. destruct (Hs s eq_refl) as [Hu _]. cbv zeta.
  eapply sched_walks_bind with (Q := λ _ _, True); [apply walks_calm; [|done]; destruct (UpdAmount in_); [apply calm_check|apply calm_ret]|].
  intros w3 _ _.
  eapply sched_walks_bind with (Q := λ _ _, True); [apply walks_calm; [|done]; destruct (UpdFrequency in_); [apply calm_lift|apply calm_ret]|].
  intros w4 f _.
  eapply sched_walks_bind with (Q := λ _ _, True); [apply walks_calm; [|done]; destruct (UpdVaultID in_); [apply calm_own_vault|apply calm_ret]|].
  intros w5 _ _. eapply sched_walks_bind with (Q := λ _ _, True); [|intros; apply walks_ret].
  rewrite <- Hu. apply (walks_row_update (mkSchedule _ (SchedUserID s) _ _ _ _ _ _ _ _ _ _ _)).
Qed.

(** The service's requests. *)
Inductive ScheduleRequest :=
| SCreate (goalID : Z) (in_ : CreateSavingsScheduleInput)
| SList (goalID : Z)
| SCancel (goalID scheduleID : Z)
| SGetActive (goalID : Z)
| SUpdate (goalID : Z) (in_ : UpdateSavingsScheduleInput)
| SDeleteActive (goalID : Z).

Definition serve_schedule (minDeposit : decimal) (u : Z) (r : ScheduleRequest) : M unit :=
  match r with
  | SCreate g in_ => answered (Create scan_numeric minDeposit u g in_)
  | SList g => answered (List_ scan_numeric u g)
  | SCancel g id => Cancel scan_numeric u g id
  | SGetActive g => answered (GetActive scan_numeric u g)
  | SUpdate g in_ => answered (Update scan_numeric minDeposit u g in_)
  | SDeleteActive g => DeleteActive scan_numeric u g
  end.

Lemma walks_answered {A} u (m : M A) w : walks u m w (λ _ _, True) → walks u (answered m) w (λ _ _, True).
Proof. intros Hm. eapply sched_walks_bind; [exact Hm|]. intros; apply walks_ret. Qed.

Lemma walks_own {A} u goalID (m : M A) w :
  (∀ w1, walks (Some u) m w1 (λ _ _, True)) → walks (Some u) (own_goal scan_numeric u goalID ;; m) w (λ _ _, True).
Proof.
  intros Hm. eapply sched_walks_bind with (Q := λ _ _, True); [by apply walks_calm; [apply calm_own_goal|]|].
  intros w1 _ _. apply Hm.
Qed.

Lemma serve_schedule_walks d u r w : rtc (sched_step (Some u)) w (fst (serve_schedule d u r w)).
Proof.
  cut (walks (Some u) (serve_schedule d u r) w (λ _ _, True)); [by intros []|].
  destruct r; cbn [serve_schedule].
  - apply walks_answered, walks_Create.
  - apply walks_answered, walks_own. intros w1. by apply walks_calm; [apply calm_query|].
  - apply walks_own. intros w1. apply walks_cancel_one.
  - apply walks_answered, walks_own. intros w1. by apply walks_calm; [apply calm_GetActive|].
  - apply walks_answered, walks_Update.
  - apply walks_own. intros w1. apply walks_cancel.
Qed.

End requests.

(** *** The sweep *)

Section sweep.
  Context `{DecimalOrderLaws} `{F : !DecimalFormat}.
  Context (scan_numeric : Z → decimal).
  Context (scan_numeric_value : ∀ z, (value (scan_numeric z) == VaultRepo.col z)%Q).
  Context (uuid_String : Z → string) `{Huuid : !Inj (=) (=) uuid_String}.
  Context `{C : !PayloadCodec} `{!PayloadCodecLaws}.

(** Between the two statements of an enqueue nothing else happens here. *)
Notation processSchedule := (processSchedule scan_numeric uuid_String (λ t, t)).
Notation process_all := (process_all scan_numeric uuid_String (λ t, t)).
Notation Tick := (Tick scan_numeric uuid_String (λ t, t)).
Notation enqueue := (enqueue uuid_String (λ t, t)).

Definition next_id (s : State) : Z := VaultRepo.seed (VaultService.session (vw (world s))).

(** The jobs table is well formed and the ids to come are free in it. *)
Definition ready (s : State) : Prop :=
  JobQueue.Inv (jobs s) ∧ ∀ n, next_id s ≤ n → jobs s !! uuid_String n = None.

Definition trues (l : option (list bool)) : nat := default 0%nat ((λ l, length (List.filter id l)) <$> l).

(** The goal takes contributions and the user's vaults do not cover its target yet. *)
Definition wants_money (w : World) (goalID userID : Z) : Prop :=
  ∃ g, goals w !! goalID = Some g ∧ GoalUserID g = userID ∧ deleted g = false ∧
    Status (life g) = GoalStatusActive ∧ vault_balance userID (Currency (terms g)) w < TargetAmount (terms g).

(** [j] is the job of the schedule's due occurrence. *)
Definition occurrence_job (cfg : RecurringDepositConfig) (s : ScheduleOf decimal) (j : JobQueue.Job) : Prop :=
  JobQueue.JobType j = RecurringDepositJobType ∧ JobQueue.JStatus j = JobQueue.StatusPending ∧
  JobQueue.Priority j = JobQueue.PriorityBalance ∧
  JobQueue.IdempotencyKey j = recurringDepositIdempotencyKey uuid_String (SchedID s) (NextRunAt s) (window cfg) ∧
  ∃ name, Marshal (payload_of s name) = Some (JobQueue.Payload j).

(** What the sweep leaves as it was. *)
Definition sweeping (s s' : State) : Prop :=
  rtc (sched_step None) (world s) (world s') ∧ goals (world s') = goals (world s) ∧
  VaultServiceBooks.same true (vw (world s)) (vw (world s')) ∧ notices s' = notices s ∧ executed s' = executed s ∧
  (trues (leading s') ≤ trues (leading s))%nat ∧ (leading s' = None ↔ leading s = None).

Lemma sweeping_refl s : sweeping s s.
Proof. unfold sweeping. split_and!; try done. Qed.

Lemma sweeping_trans s1 s2 s3 : sweeping s1 s2 → sweeping s2 s3 → sweeping s1 s3.
Proof.
  intros (A1 & B1 & C1 & F1 & G1 & I1 & J1) (A2 & B2 & C2 & F2 & G2 & I2 & J2).
  split_and!; try congruence; [by etransitivity|by eapply VaultServiceBooks.same_trans|lia|tauto].
Qed.

Lemma same_ids v v' : VaultServiceBooks.same true v v' →
  VaultRepo.seed (VaultService.session v) ≤ VaultRepo.seed (VaultService.session v').
Proof. intros ((_ & _ & _ & Hseed & _) & _). done. Qed.

Lemma sweeping_ids s s' : sweeping s s' → next_id s ≤ next_id s'.
Proof. intros (_ & _ & Hs & _). apply (same_ids _ _ Hs). Qed.

Lemma sweeping_walk {A} (m : M A) s (Q : World → A → Prop) :
  walks None m (world s) Q → goals (fst (m (world s))) = goals (world s) →
  VaultServiceBooks.same true (vw (world s)) (vw (fst (m (world s)))) →
  sweeping s (fst (on_world m s)).
Proof. intros [Hs _] Hg Hq. by split_and!. Qed.

Lemma sweeping_calm {A} (m : M A) s : calm m → sweeping s (fst (on_world m s)).
Proof.
  intros Hm. specialize (Hm (world s)). pose proof Hm as (Hv & Hg & _). split_and!; try done.
  cbn. by apply rtc_once, sched_session.
Qed.

Lemma ready_sweeping s s' : jobs s' = jobs s → next_id s ≤ next_id s' → ready s → ready s'.
Proof. intros Hj Hn [Hi Hf]. unfold ready. rewrite Hj. split; [done|]. intros n Hle. apply Hf. lia. Qed.

Lemma isLeader_sweeping s : sweeping s (fst (isLeader s)) ∧ jobs (fst (isLeader s)) = jobs s ∧
  world (fst (isLeader s)) = world s ∧
  (snd (isLeader s) = true → leading s = None ∨
   (trues (leading (fst (isLeader s))) < trues (leading s))%nat).
Proof.
  unfold isLeader. destruct (leading s) as [[|b l]|] eqn:E; cbn.
  - split_and!; [apply sweeping_refl|done..].
  - split; [|split_and!; [done..|intros ->; right; cbn; lia]].
    unfold sweeping. cbn. rewrite E. split_and!; try done; [cbn; destruct b; cbn; lia].
  - split_and!; [apply sweeping_refl|done..|by left].
Qed.

(** An enqueue inserts the job of a key no live job holds, or nothing. *)
Lemma enqueue_outcome in_ s :
  ready s → JobQueue.in_Type in_ ≠ ""%string → JobQueue.in_CorrelationID in_ ≠ ""%string →
  let s' := enqueue in_ s in
  ready s' ∧ sweeping s s' ∧ leading s' = leading s ∧
  (jobs s' = jobs s ∨
   ∃ id wall, jobs s !! id = None ∧ jobs s' = <[id := JobQueue.new_job in_ id wall wall]> (jobs s)).
Proof.
  intros [Hi Hf] Hty Hco. cbv zeta. unfold Schedules.enqueue.
  assert (calm uuid_New) as Hcu by apply calm_uuid. specialize (Hcu (world s)).
  assert (∀ w, quiet (world s) w → sweeping s (with_world s w)) as Hsw.
  { intros w Hq. pose proof Hq as (Hv & Hg & _). split_and!; try done. by apply rtc_once, sched_session. }
  destruct (uuid_New (world s)) as [w1 r] eqn:Eu. cbn in Hcu.
  pose proof (round_trip_quiet w1) as Hqr. destruct (round_trip w1) as [lost w2]. cbn in Hqr.
  assert (quiet (world s) w2) as Hq by (by eapply quiet_trans).
  assert (ready (with_world s w2)) as Hr.
  { apply (ready_sweeping s); [done|by apply (sweeping_ids s), Hsw|by split]. }
  destruct r as [id|e]; [|split; [done|split; [by apply Hsw|split; [done|by left]]]].
  destruct lost; [split; [done|split; [by apply Hsw|split; [done|by left]]]|].
  assert (id = next_id s ∧ next_id s < VaultRepo.seed (VaultService.session (vw w2))) as [-> Hlt].
  { unfold uuid_New, on_vaults, VaultService.uuid_New, VaultService.on_repo, VaultRepo.uuid_New in Eu.
    injection Eu as <- <-. split; [done|]. destruct Hqr as (Hv & _). pose proof (same_ids _ _ Hv) as Hle. cbn in Hle. unfold next_id. lia. }
  unfold JobQueue.Client_Enqueue. destruct (JobQueue.in_Type in_ =s? "") eqn:E1; reflect_bools; [done|].
  destruct (JobQueue.in_CorrelationID in_ =s? "") eqn:E2; reflect_bools; [done|]. clear E1 E2.
  replace (JobQueue.mkEnqueue _ _ _ _ _ _ _) with in_ by (by destruct in_). unfold JobQueue.Enqueue.
  pose proof (JobQueue.jstep_inv _ _ (JobQueue.step_enqueue _ in_ (uuid_String (next_id s)) (clock w2) (clock w2)
    (Hf (next_id s) ltac:(lia))) Hi) as Hinv.
  set (j := JobQueue.new_job _ _ _ _) in *. unfold JobQueue.Enqueue_insert in *.
  case_decide as Hd; [|split; [done|split; [by apply Hsw|split; [done|by left]]]].
  destruct (JobQueue.live_rows _ _ _) as [|k l] eqn:El.
  - cbn in Hinv |- *. split; [split; [done|]|split; [by apply Hsw|split; [done|]]].
    + intros n Hn. change (next_id _) with (VaultRepo.seed (VaultService.session (vw w2))) in Hn. cbn.
      rewrite lookup_insert_ne; [apply Hf; lia|]. intros Heq%Huuid. lia.
    + right. exists (uuid_String (next_id s)), (clock w2). split; [apply Hf; lia|done].
  - destruct (JobQueue.newest _) as [x|]; (split; [done|split; [by apply Hsw|split; [done|by left]]]).
Qed.

Lemma same_balance u c w w' :
  VaultServiceBooks.same true (vw w) (vw w') → vault_balance u c w' = vault_balance u c w.
Proof. intros ((Hdb & _) & Hc & _). unfold vault_balance, counted_vault, db. by rewrite Hdb, Hc. Qed.

Lemma calm_paused g u : calm (IsGoalPausedOrArchived scan_numeric g u).
Proof.
  unfold IsGoalPausedOrArchived. apply calm_bind; [apply calm_GetByID|intros x].
  apply calm_bind; [apply calm_found|]. calm.
Qed.

Lemma calm_completed g u : calm (IsGoalCompleted scan_numeric g u).
Proof.
  unfold IsGoalCompleted. apply calm_bind; [apply calm_GetByID|intros x].
  apply calm_bind; [apply calm_found|intros _]. cbv zeta. destruct (_ || _); [apply calm_ret|].
  apply calm_bind; [|intros; apply calm_ret]. unfold SumVaultBalance. calm.
Qed.

Lemma not_paused g u w w1 :
  IsGoalPausedOrArchived scan_numeric g u w = (w1, Ok false) →
  ∃ r, goals w !! g = Some r ∧ Status (life r) ≠ GoalStatusPaused ∧ Status (life r) ≠ GoalStatusArchived.
Proof.
  unfold IsGoalPausedOrArchived. rewrite run_bind. destruct (GetByID _ g w) as [w2 [x|e]] eqn:E; [|done].
  destruct (GetByID_row _ _ _ _ _ E) as ((_ & Hg & _) & r & Hl & -> & _). rewrite run_bind. unfold found.
  destruct (negb _); [done|]. cbn. intros [= _ [Hp Ha]%orb_false_iff]. rewrite Hg in Hl.
  apply bool_decide_eq_false in Hp, Ha. by exists r.
Qed.

Lemma not_completed g u w w1 name :
  IsGoalCompleted scan_numeric g u w = (w1, Ok (false, name)) →
  ∃ r, goals w !! g = Some r ∧ GoalUserID r = u ∧ deleted r = false ∧ Status (life r) ≠ GoalStatusCompleted ∧
    vault_balance u (Currency (terms r)) w < TargetAmount (terms r).
Proof.
  unfold IsGoalCompleted. rewrite run_bind. destruct (GetByID _ g w) as [w2 [x|e]] eqn:E; [|done].
  destruct (GetByID_row _ _ _ _ _ E) as (Hq & r & Hl & -> & Hd). rewrite run_bind. unfold found.
  destruct (negb _) eqn:Eu; [done|]. apply negb_false_iff, Z.eqb_eq in Eu. cbn in Eu |- *.
  destruct (bool_decide (Status (life r) = GoalStatusArchived)) eqn:Ea; [done|].
  destruct (bool_decide (Status (life r) = GoalStatusCompleted)) eqn:Ec; [done|]. cbn.
  unfold SumVaultBalance. rewrite !run_bind.
  pose proof (query_outcome (vault_balance u (Currency (terms r))) w2) as [Hq2 Hv].
  destruct (query _ w2) as [w3 [b|e]]; [|done]. cbn in Hv, Hq2. rewrite (Hv b eq_refl). cbn. intros [= _ Hb _].
  assert (quiet w w3) as Hq3 by (by eapply quiet_trans).
  exists r. destruct Hq as (_ & Hg & _). rewrite Hg in Hl. split_and!; [done..| |].
  - by apply bool_decide_eq_false in Ec.
  - destruct (Z.lt_ge_cases (vault_balance u (Currency (terms r)) w) (TargetAmount (terms r))) as [|Hge]; [done|].
    exfalso. assert (GreaterThanOrEqual (scan_numeric (vault_balance u (Currency (terms r)) w3))
      (scan_numeric (TargetAmount (terms r))) = true); [|congruence].
    apply GreaterThanOrEqual_value. rewrite !scan_numeric_value. apply col_le.
    rewrite (quiet_balance _ _ _ _ Hq3). exact Hge.
Qed.

(** One schedule of the sweep: its job, if its goal wants the money and the process
    still leads, and at most one. *)
Definition swept (cfg : RecurringDepositConfig) (s : State) (due : list (ScheduleOf decimal)) (s' : State) : Prop :=
  ready s' ∧ sweeping s s' ∧
  (leading s ≠ None → (size (jobs s') + trues (leading s') ≤ size (jobs s) + trues (leading s))%nat) ∧
  (∀ id j, jobs s !! id = Some j → jobs s' !! id = Some j) ∧
  ∀ id j, jobs s' !! id = Some j → jobs s !! id = None →
    ∃ sched, sched ∈ due ∧ occurrence_job cfg sched j ∧ wants_money (world s) (SchedGoalID sched) (SchedUserID sched).

Lemma swept_same cfg s due s' : ready s → sweeping s s' → jobs s' = jobs s → swept cfg s due s'.
Proof.
  intros Hr Hs Hj. pose proof Hs as (_ & _ & _ & _ & _ & Ht & _).
  split; [eapply (ready_sweeping s); [done|by apply sweeping_ids|done]|]. split; [done|]. split_and!.
  - intros _. rewrite Hj. lia.
  - by rewrite Hj.
  - intros id j. rewrite Hj. congruence.
Qed.

Context (uuid_nonempty : ∀ u, uuid_String u ≠ ""%string).

Lemma processSchedule_swept cfg sched s : ready s → swept cfg s [sched] (processSchedule cfg sched s).
Proof.
  intros Hr. unfold Schedules.processSchedule.
  set (m1 := IsGoalPausedOrArchived _ _ _). pose proof (sweeping_calm m1 s (calm_paused _ _)) as Hs1.
  destruct (on_world m1 s) as [s1 r1] eqn:E1. cbn in Hs1.
  assert (jobs s1 = jobs s ∧ leading s1 = leading s ∧ m1 (world s) = (world s1, r1)) as (Hj1 & Hl1 & Hm1)
    by (unfold on_world in E1; injection E1 as <- <-; by destruct (m1 (world s))).
  destruct r1 as [[]|e]; try by apply swept_same. apply not_paused in Hm1 as (g & Hg & Hp & Ha).
  set (m2 := IsGoalCompleted _ _ _). pose proof (sweeping_calm m2 s1 (calm_completed _ _)) as Hs2.
  destruct (on_world m2 s1) as [s2 r2] eqn:E2. cbn in Hs2.
  assert (jobs s2 = jobs s1 ∧ leading s2 = leading s1 ∧ m2 (world s1) = (world s2, r2)) as (Hj2 & Hl2 & Hm2)
    by (unfold on_world in E2; injection E2 as <- <-; by destruct (m2 (world s1))).
  assert (sweeping s s2) as Hs02 by (by eapply sweeping_trans).
  destruct r2 as [[[] name]|e]; [|clear E1 E2|apply swept_same; [done|done|by rewrite Hj2]].
  { apply swept_same; [done| |cbn; by rewrite Hj2]. eapply sweeping_trans; [exact Hs02|].
    eapply sweeping_walk; [apply walks_deactivate|..];
      destruct (update_schedules_outcome (λ r, SchedID r =? SchedID sched) (set_active false) (world s2))
        as [[Hq _]|(w1 & Hq & Hw & _)]; unfold Deactivate.
    - apply Hq.
    - rewrite Hw. apply Hq.
    - apply Hq.
    - rewrite Hw. apply Hq. }
  apply not_completed in Hm2 as (g2 & Hg2 & Hu & Hd & Hc & Hb).
  assert (wants_money (world s) (SchedGoalID sched) (SchedUserID sched)) as Hw.
  { destruct Hs1 as (_ & Hgs & Hv & _). rewrite Hgs in Hg2. rewrite Hg in Hg2. injection Hg2 as <-.
    exists g. split_and!; [done..| |].
    - by destruct (Status (life g)).
    - by rewrite <- (same_balance _ _ _ _ Hv). }
  pose proof (isLeader_sweeping s2) as (Hs3 & Hj3 & _ & Hlead). destruct (isLeader s2) as [s3 leads]. cbn in *.
  assert (sweeping s s3) as Hs03 by (by eapply sweeping_trans).
  assert (jobs s2 = jobs s) as Hj02 by (rewrite Hj2; exact Hj1).
  assert (jobs s3 = jobs s) as Hj by (rewrite Hj3; exact Hj02).
  destruct leads; [|by apply swept_same]. cbn [negb].
  destruct (Marshal (payload_of sched name)) as [payload|] eqn:Em; [|by apply swept_same].
  assert (ready s3) as Hr3 by (eapply (ready_sweeping s); [done|by apply sweeping_ids|done]).
  destruct (enqueue_outcome (occurrence_input uuid_String cfg sched payload) s3 Hr3) as (Hr4 & Hs4 & Hl4 & Hj4);
    [done|apply uuid_nonempty|]. cbv zeta in *.
  assert (sweeping s (enqueue (occurrence_input uuid_String cfg sched payload) s3)) as Hs04 by (by eapply sweeping_trans).
  change (swept cfg s [sched] (enqueue (occurrence_input uuid_String cfg sched payload) s3)).
  set (s4 := enqueue _ _) in *. rewrite Hj in Hj4.
  destruct Hj4 as [Hj4|(id & wall & Hfree & Hj4)]; [by apply swept_same|].
  assert (leading s2 = leading s) as Hl02 by (by rewrite Hl2).
  split; [done|]. split; [done|]. split_and!.
  - intros Hn. rewrite Hj4, map_size_insert_None, Hl4 by done.
    rewrite Hl02 in Hlead. destruct (Hlead eq_refl) as [Hno|Hlt]; [done|]. lia.
  - intros i j Hl. rewrite Hj4. rewrite lookup_insert_ne; [done|]. intros <-. by rewrite Hfree in Hl.
  - intros i j Hl Hn. rewrite Hj4 in Hl. apply lookup_insert_Some in Hl as [[<- <-]|[_ Hl]]; [|by rewrite Hl in Hn].
    exists sched. split; [by left|]. split; [|done]. split_and!; try done. exists name. rewrite Em. cbn.
    destruct (payload =s? "") eqn:Ep; [|done]. reflect_bools. by destruct (Marshal_not_empty _ _ Em).
Qed.

Lemma wants_money_sweeping s s1 g u : sweeping s s1 → wants_money (world s1) g u → wants_money (world s) g u.
Proof.
  intros (_ & Hg & Hv & _) (r & Hl & Hu & Hd & Hs & Hb). exists r. rewrite Hg in Hl. split_and!; [done..|].
  by rewrite <- (same_balance _ _ _ _ Hv).
Qed.

Lemma swept_trans cfg s s1 s2 due1 due2 :
  swept cfg s due1 s1 → swept cfg s1 due2 s2 → swept cfg s (due1 ++ due2) s2.
Proof.
  intros (R1 & S1 & N1 & K1 & J1) (R2 & S2 & N2 & K2 & J2).
  split; [done|]. split; [by eapply sweeping_trans|]. split_and!.
  - intros Hl. specialize (N1 Hl). destruct (decide (leading s1 = None)) as [E|E]; [|specialize (N2 E); lia].
    exfalso. destruct S1 as (_ & _ & _ & _ & _ & _ & Hkeep). by apply Hl, Hkeep.
  - intros id j Hl. by apply K2, K1.
  - intros id j Hl Hn. destruct (jobs s1 !! id) as [k|] eqn:E.
    + specialize (K2 _ _ E). rewrite Hl in K2. injection K2 as <-.
      destruct (J1 _ _ E Hn) as (x & Hx & Ho & Hw). exists x. split; [apply elem_of_app; by left|done].
    + destruct (J2 _ _ Hl E) as (x & Hx & Ho & Hw). exists x. split; [apply elem_of_app; by right|].
      split; [done|]. by eapply wants_money_sweeping.
Qed.

Lemma process_all_swept cfg due s : ready s → swept cfg s due (process_all cfg due s).
Proof.
  revert s. induction due as [|x due IH]; intros s Hr; [by apply swept_same; [|apply sweeping_refl|]|].
  cbn [Schedules.process_all]. pose proof (processSchedule_swept cfg x s Hr) as Hx.
  apply (swept_trans cfg s _ _ [x] due Hx). apply IH. by destruct Hx.
Qed.

Lemma ListDue_rows t w w1 due :
  ListDue scan_numeric t w = (w1, Ok due) →
  quiet w w1 ∧ ∀ x, x ∈ due → ∃ r id, x = scan_schedule scan_numeric r ∧ schedules w !! id = Some r ∧
    IsActive r = true ∧ NextRunAt r ≤ t.
Proof.
  unfold ListDue. intros E. pose proof (query_outcome (λ w, map (scan_schedule scan_numeric) (merge_sort next_run_le
    (List.filter (λ r, IsActive r && (NextRunAt r <=? t)) (schedule_rows w)))) w) as [Hq Ha].
  rewrite E in Hq, Ha. split; [done|]. cbn in Hq, Ha. rewrite (Ha due eq_refl). intros x Hx.
  apply list_elem_of_fmap in Hx as (r & -> & Hr). rewrite merge_sort_Permutation in Hr.
  apply list_elem_of_In, List.filter_In in Hr as [Hr [Hact Hle]%andb_true_iff]. apply Z.leb_le in Hle.
  apply list_elem_of_In, schedule_rows_spec in Hr as [id Hl]. exists r, id.
  destruct Hq as (_ & _ & _ & Hs & _). rewrite Hs in Hl. done.
Qed.

Lemma swept_ok cfg s due s' : swept cfg s due s' → sched_ok (world s) → sched_ok (world s').
Proof. intros (_ & (Hs & _) & _). by eapply sched_steps_ok. Qed.

(** What a sweep comes to. *)
Definition sweep_result (cfg : RecurringDepositConfig) (s s' : State) : Prop :=
  ready s' ∧ sched_ok (world s') ∧ goals (world s') = goals (world s) ∧
  notices s' = notices s ∧ executed s' = executed s ∧
  (∀ id j, jobs s !! id = Some j → jobs s' !! id = Some j) ∧
  (∀ l, leading s = Some l → (size (jobs s') + trues (leading s') ≤ size (jobs s) + trues (Some (tail l)))%nat ∧
     (head l ≠ Some true → jobs s' = jobs s ∧ world s' = world s)) ∧
  ∀ id j, jobs s' !! id = Some j → jobs s !! id = None →
    ∃ r, schedules (world s) !! SchedID r = Some r ∧ IsActive r = true ∧ NextRunAt r ≤ clock (world s) ∧
      wants_money (world s) (SchedGoalID r) (SchedUserID r) ∧ occurrence_job cfg (scan_schedule scan_numeric r) j.

Lemma Tick_swept cfg s : ready s → sched_ok (world s) → sweep_result cfg s (Tick cfg s).
Proof.
  intros Hr Hok. unfold Schedules.Tick.
  pose proof (isLeader_sweeping s) as (Hs0 & Hj0 & Hw0 & _).
  assert (∀ l, leading s = Some l → leading (fst (isLeader s)) = Some (tail l) ∧ snd (isLeader s) = default false (head l)) as Hl0.
  { intros l Hl. unfold isLeader. rewrite Hl. by destruct l. }
  destruct (isLeader s) as [s0 leads]. cbn in Hs0, Hj0, Hw0, Hl0. destruct leads; cbn [negb].
  2: { unfold sweep_result. cbn. rewrite Hj0, Hw0. split.
    { unfold ready, next_id. cbn. rewrite Hj0, Hw0. exact Hr. }
    split_and!; try done; [by apply Hs0|by apply Hs0| |congruence].
    intros l Hl. destruct (Hl0 l Hl) as [-> _]. split; [apply Nat.le_refl|done]. }
  set (m := ListDue scan_numeric (clock (world s0))).
  assert (calm m) as Hcm by apply calm_query. pose proof (sweeping_calm m s0 Hcm) as Hs1.
  destruct (on_world m s0) as [s1 r] eqn:E. cbn in Hs1.
  assert (jobs s1 = jobs s0 ∧ leading s1 = leading s0 ∧ m (world s0) = (world s1, r)) as (Hj1 & Hl1 & Hm)
    by (unfold on_world in E; injection E as <- <-; by destruct (m (world s0))).
  assert (sweeping s s1) as Hs01 by (by eapply sweeping_trans).
  assert (jobs s1 = jobs s) as Hj by (by rewrite Hj1).
  assert (ready s1) as Hr1 by (apply (ready_sweeping s); [done|by apply sweeping_ids|done]).
  set (due := match r with Ok l => l | Err _ => [] end).
  set (s2 := process_all cfg due s1).
  assert (swept cfg s1 due s2) as Hsw by (by apply process_all_swept).
  assert (sweep_result cfg s s2) as Hres.
  { pose proof Hsw as (R2 & S2 & N2 & K2 & J2). assert (sweeping s s2) as S02 by (by eapply sweeping_trans).
    split; [done|]. split; [by eapply sched_steps_ok; [apply S02|]|].
    split; [apply S02|]. split; [apply S02|]. split; [apply S02|].
    rewrite Hj in *. split; [done|]. split.
    - intros l Hl. destruct (Hl0 l Hl) as [Hlead Hhead]. rewrite <- Hlead, <- Hl1. split.
      + apply N2. by rewrite Hl1, Hlead.
      + intros Hn. destruct l as [|[] l]; cbn in *; done.
    - intros id j Hl Hn. destruct (J2 id j Hl Hn) as (x & Hx & Ho & Hw). unfold due in Hx.
      destruct r as [l|e]; [|by apply not_elem_of_nil in Hx].
      destruct (ListDue_rows _ _ _ _ Hm) as [_ Hrows]. destruct (Hrows x Hx) as (r & i & -> & Hi & Ha & Hle).
      rewrite Hw0 in Hi, Hle. destruct Hok as [Hk _]. destruct (Hk i r Hi) as (Hid & _).
      exists r. rewrite Hid. split; [done|]. split; [done|]. split; [done|].
      split; [by apply (wants_money_sweeping s s1)|done]. }
  destruct r; exact Hres.
Qed.

End sweep.

End ScheduleLife.
