(* ===== verification/ScheduleProps.v ===== *)
(** What the recurring schedules come to: the invariant of every history, what a sweep
    enqueues, what an executed occurrence does to the money and the schedule, when one can
    record a deposit at all, and the calendar and the keys of successive occurrences. *)
From S2P Require Import Prelude Decimals TimeFormat Calendar JobQueue Outbox Ledger Caps VaultRepo VaultBooks VaultDomain VaultService VaultServiceBooks SavingsDomain SavingsStore SavingsGoals SavingsLife SavingsProps Schedules ScheduleLife.
Open Scope Z_scope.

Module ScheduleProps.
Import Decimals SavingsDomain SavingsStore SavingsGoals SavingsLife SavingsProps Schedules ScheduleLife.

(** *** Refused deposits *)

Section refusal.
  Context `{DecimalOrderLaws} `{F : !DecimalFormat}.
  Context (scan_numeric : Z → decimal).
  Context (uuid_String : Z → string).

(** The books are as they were and the answer is an error other than the one for a
    deposit already recorded. *)
Definition refuses {A} (s : VaultService.State) (p : VaultService.State * result VaultService.SvcErr A) : Prop :=
  VaultServiceBooks.same true s p.1 ∧ ∃ e, p.2 = Err e ∧ e ≠ VaultService.Repo VaultRepo.ErrDuplicateTransaction.

(** A read that reports no duplicate. *)
Definition clean {A} (m : VaultService.M A) : Prop :=
  VaultServiceBooks.reads m ∧ ∀ s e, snd (m s) = Err e → e ≠ VaultService.Repo VaultRepo.ErrDuplicateTransaction.

Lemma refuses_bind {A B} (m : VaultService.M A) (k : A → VaultService.M B) s :
  clean m → (∀ a s1, VaultServiceBooks.same true s s1 → refuses s1 (k a s1)) → refuses s ((m ≫= k) s).
Proof.
  intros [Hr He] Hk. specialize (Hr s). specialize (He s). unfold mbind, VaultService.M_bind.
  destruct (m s) as [s1 [a|e]]; cbn in *; [|by split; [|exists e; split; [|by apply He]]].
  destruct (Hk a s1 Hr) as [Hs Hd]. split; [by eapply VaultServiceBooks.same_trans|done].
Qed.

Lemma refuses_throw {A} e s :
  e ≠ VaultService.Repo VaultRepo.ErrDuplicateTransaction → refuses s ((VaultService.throw e : VaultService.M A) s).
Proof. intros He. split; [apply VaultServiceBooks.same_refl|by exists e]. Qed.

Lemma clean_of_option o : o ≠ Some (VaultService.Repo VaultRepo.ErrDuplicateTransaction) → clean (VaultService.of_option o).
Proof.
  intros Ho. split; [apply VaultServiceBooks.reads_of_option|]. intros s e. destruct o; cbn; [|done]. congruence.
Qed.

Lemma clean_ensure d : clean (VaultService.ensure d).
Proof. split; [apply VaultServiceBooks.reads_ensure|]. intros s e. destruct d; cbn; congruence. Qed.

Lemma clean_ret {A} (a : A) : clean (mret a).
Proof. split; [apply VaultServiceBooks.reads_ret|]. done. Qed.

Lemma clean_exec {A} (f : Time → VaultService.State → A) : clean (VaultService.exec (λ now s, Ok (s, f now s))).
Proof.
  split; [apply VaultServiceBooks.reads_exec|]. intros s e. unfold VaultService.exec.
  destruct (VaultRepo.round_trip _) as [[] v]; cbn; [|done]. by intros [= <-].
Qed.

Lemma clean_bind {A B} (m : VaultService.M A) (k : A → VaultService.M B) :
  clean m → (∀ a, clean (k a)) → clean (m ≫= k).
Proof.
  intros [Hr He] Hk. split; [apply VaultServiceBooks.reads_bind; [done|]; intros a; apply Hk|].
  intros s e. unfold mbind, VaultService.M_bind. specialize (He s). destruct (m s) as [s1 [a|e1]]; cbn in *.
  - apply Hk.
  - intros [= <-]. by apply He.
Qed.

Lemma clean_GetVault id : clean (VaultService.GetVault scan_numeric id).
Proof.
  unfold VaultService.GetVault. apply clean_bind; [apply clean_exec|]. intros [[r c]|].
  - apply clean_bind; [apply clean_exec|]. intros l. apply clean_ret.
  - split; [apply VaultServiceBooks.reads_throw|]. intros s e. cbn. congruence.
Qed.

(** A deposit with a hash and nobody to verify it. *)
Lemma unverified_refused svc input s :
  VaultService.chainVerifier svc = None → TrimSpace (VaultService.DepTxHash input) ≠ ""%string →
  refuses s (VaultService.RecordDeposit scan_numeric uuid_String svc input s).
Proof.
  intros Hv Hh. unfold VaultService.RecordDeposit. cbv zeta.
  apply refuses_bind.
  { unfold VaultService.ensureMoneyPathAllowed. destruct (VaultService.moneyPathSwitches svc); [apply clean_ensure|apply clean_ret]. }
  intros u1 s1 _. apply refuses_bind.
  { apply clean_of_option. destruct (VaultService.depositAllowlist svc); [|done]. by destruct (_ && _). }
  intros u2 s2 _. destruct (VaultService.DepVaultID input =? 0); [by apply refuses_throw|].
  apply refuses_bind.
  { unfold VaultService.ensureVaultMoneyPathAllowed.
    destruct (VaultService.vaultMoneyPathSwitches svc); [apply clean_ensure|apply clean_ret]. }
  intros u3 s3 _. destruct (Cmp _ Zero <=? 0); [by apply refuses_throw|].
  destruct (VaultDomain.MaxAmountScale <? _); [by apply refuses_throw|].
  apply refuses_bind; [apply clean_GetVault|]. intros v s4 _. apply refuses_bind.
  { apply clean_of_option. by destruct (Caps.CheckDepositCap _ _ _). }
  intros u5 s5 _. rewrite Hv. destruct (TrimSpace (VaultService.DepTxHash input) =s? "") eqn:E; reflect_bools; [done|].
  by apply refuses_throw.
Qed.

End refusal.

(** *** The texts of an occurrence *)

Lemma strip_prefix_app p l l' : strip_prefix p l = Some l' → l = p ++ l'.
Proof.
  revert l. induction p as [|a p IH]; intros l; cbn; [by intros [= ->]|].
  destruct l as [|b l]; [done|]. case_decide as Hab; [|done]. subst b. intros Hs. by rewrite (IH l Hs).
Qed.

Lemma strip_one_keeps ps x l l' :
  (∀ p, p ∈ ps → x ∉ p) → strip_one ps l = Some l' → x ∈ l → x ∈ l'.
Proof.
  induction ps as [|p ps IH]; intros Hps; cbn; [done|]. destruct (strip_prefix p l) as [k|] eqn:E.
  - intros [= ->] Hx. apply strip_prefix_app in E as ->. apply elem_of_app in Hx as [Hx|Hx]; [|done].
    destruct (Hps p); [by left|done].
  - apply IH. intros q Hq. apply Hps. by right.
Qed.

Lemma trim_front_keeps fuel ps x l : (∀ p, p ∈ ps → x ∉ p) → x ∈ l → x ∈ trim_front fuel ps l.
Proof.
  intros Hps. revert l. induction fuel as [|fuel IH]; intros l Hx; cbn; [done|].
  destruct (strip_one ps l) as [l'|] eqn:E; [|done]. by eapply IH, strip_one_keeps.
Qed.

(** Trimming space leaves every other byte where it is. *)
Lemma TrimSpace_keeps x s : (∀ p, p ∈ space_encodings → x ∉ p) → x ∈ bytes_of s → TrimSpace s ≠ ""%string.
Proof.
  intros Hps Hx Hn. unfold TrimSpace in Hn. set (l := trim_front (length (bytes_of s)) space_encodings (bytes_of s)) in Hn.
  assert (x ∈ trim_front (length l) (map (@rev _) space_encodings) (rev l)) as Hin.
  { apply trim_front_keeps.
    - intros p Hp. apply list_elem_of_fmap in Hp as (q & -> & Hq). rewrite list_elem_of_In, <- in_rev, <- list_elem_of_In.
      by apply Hps.
    - rewrite list_elem_of_In, <- in_rev, <- list_elem_of_In. by apply trim_front_keeps. }
  rewrite list_elem_of_In, in_rev, <- list_elem_of_In in Hin.
  destruct (rev (trim_front _ _ _)) as [|a l']; [by apply not_elem_of_nil in Hin|done].
Qed.

(** The hash of an occurrence is never blank: it has an "s". *)
Lemma scheduled_hash_not_blank uuid_String id t : TrimSpace (scheduled_hash uuid_String id t) ≠ ""%string.
Proof.
  apply (TrimSpace_keeps (byte 115)).
  - assert (forallb (forallb (λ a, negb (bool_decide (a = byte 115)))) space_encodings = true) as Hb
      by (vm_compute; reflexivity).
    intros p Hp%list_elem_of_In Hx%list_elem_of_In. rewrite forallb_forall in Hb. specialize (Hb p Hp).
    rewrite forallb_forall in Hb. specialize (Hb _ Hx). by rewrite bool_decide_eq_true_2 in Hb.
  - unfold scheduled_hash. rewrite TimeFormat.bytes_of_app. apply elem_of_app. left. vm_compute. left.
Qed.

(** *** The handler *)

Section handler.
  Context `{DecimalOrderLaws} `{F : !DecimalFormat}.
  Context (scan_numeric : Z → decimal).
  Context (scan_numeric_value : ∀ z, (value (scan_numeric z) == VaultRepo.col z)%Q).
  Context (uuid_String : Z → string).
  Context `{C : !PayloadCodec}.

Notation Handle := (Handle scan_numeric uuid_String).
Notation RecordScheduledDeposit := (RecordScheduledDeposit scan_numeric uuid_String).

(** Nothing but the vaults' books and the session has moved. *)
Definition savings_same (w w' : World) : Prop :=
  goals w' = goals w ∧ goal_deposits w' = goal_deposits w ∧ schedules w' = schedules w ∧
  streaks w' = streaks w ∧ outbox w' = outbox w ∧ signals w' = signals w.

Lemma record_savings_same svc u v a i t w : savings_same w (fst (RecordScheduledDeposit svc u v a i t w)).
Proof.
  unfold Schedules.RecordScheduledDeposit. rewrite run_bind. unfold on_vaults.
  destruct (VaultService.RecordDeposit _ _ _ _ _) as [v' [x|e]]; cbn; by split_and!.
Qed.

Lemma fmap_none (p : ScheduleOf Z → bool) f (m : gmap Z (ScheduleOf Z)) :
  (∀ id r, m !! id = Some r → p r = false) → (λ r, if p r then f r else r) <$> m = m.
Proof.
  intros Hp. apply map_eq. intros i. rewrite lookup_fmap. destruct (m !! i) as [r|] eqn:E; cbn; [|done].
  by rewrite (Hp i r E).
Qed.

Lemma fmap_one (p : ScheduleOf Z → bool) f (m : gmap Z (ScheduleOf Z)) id r :
  m !! id = Some r → p r = true → (∀ i k, m !! i = Some k → p k = true → i = id) →
  (λ r, if p r then f r else r) <$> m = <[id := f r]> m.
Proof.
  intros Hl Hp Hone. apply map_eq. intros i. rewrite lookup_fmap. destruct (decide (i = id)) as [->|Hi].
  - by rewrite lookup_insert_eq, Hl; cbn; rewrite Hp.
  - rewrite lookup_insert_ne by done. destruct (m !! i) as [k|] eqn:E; cbn; [|done].
    destruct (p k) eqn:Ek; [|done]. by destruct Hi; eapply Hone.
Qed.

(** The update after a run advances the active row of the id, or nothing. *)
Lemma after_run_outcome id last next w :
  sched_ok w →
  let q := UpdateAfterRun id last next w in
  goals q.1 = goals w ∧ db q.1 = db w ∧
  ((q.2 ≠ Ok () ∧ schedules q.1 = schedules w) ∨
  (q.2 = Ok () ∧ ∃ r t, schedules w !! id = Some r ∧ IsActive r = true ∧
     schedules q.1 = <[id := ran last next t r]> (schedules w))).
Proof.
  intros [Hk _]. cbv zeta. set (p := λ r : ScheduleOf Z, (SchedID r =? id) && IsActive r).
  destruct (update_schedules_outcome p (ran last next) w) as [[Hq Hne]|(w1 & Hq & Hw & Hok)].
  - split; [apply Hq|]. split; [exact (proj1 (quiet_db _ _ Hq))|]. left. split; [done|]. apply Hq.
  - change (UpdateAfterRun id last next) with (update_schedules p (ran last next)).
    assert (schedules w1 = schedules w ∧ goals w1 = goals w) as [Hs Hg] by (split; apply Hq).
    apply quiet_db in Hq as [Hd _].
    assert (∀ i k, schedules w1 !! i = Some k → p k = true → i = id) as Hone.
    { intros i k Hl [Hid%Z.eqb_eq _]%andb_true_iff. rewrite Hs in Hl. destruct (Hk i k Hl) as [? _]. congruence. }
    rewrite Hw, <- Hs. cbn. destruct (update_schedules p (ran last next) w) as [w2 [[]|e]]; cbn in *;
      (split; [done|]); (split; [done|]).
    + right. destruct (proj1 Hok eq_refl) as (i & r & Hl & Hp). split; [done|].
      assert (i = id) as -> by (by eapply Hone). exists r, (clock w1). split; [done|].
      split; [by apply andb_true_iff in Hp as [_ Ha]|]. by eapply fmap_one.
    + left. split; [done|]. apply fmap_none. intros i r Hl.
      destruct (p r) eqn:Ep; [|done]. exfalso. assert (Err e = Ok ()) as [=]. apply Hok. by exists i, r.
Qed.

(** The deposit of an occurrence on the books: the amount the chain reports for its hash
    at the vault's contract, credited once under that hash. *)
Definition booked (h : RecurringDepositJobHandler) (pl : RecurringDepositJobPayload) (w w' : World) : Prop :=
  let hash := TrimSpace (scheduled_hash uuid_String (PScheduleID pl) (POccurrenceAt pl)) in
  ∃ verify r c amount, VaultService.chainVerifier (deposits h) = Some verify ∧
    VaultRepo.live_vault (PVaultID pl) (db w) = Some r ∧ VaultService.cols (vw w) !! PVaultID pl = Some c ∧
    VaultServiceBooks.vouched verify hash (VaultService.ColContractAddress c) "deposit" "" amount ∧
    VaultServiceBooks.moved_once (PVaultID pl) (VaultServiceBooks.acting (PUserID pl) (VaultRepo.RowUserID r))
      "deposit" amount hash (db w) (db w').

(** The errors of an executor that no retry mends. *)
Definition hopeless (msg : string) : Prop :=
  ∃ t, t ∈ ["MandateExpired"; "MandateExhausted"; "MandateNotDue"; "MandateInactive"; "MandatePaused"]%string ∧
    Contains msg t = true.

(** The money is asked for once: by the mandate's executor when the occurrence has a
    mandate and the handler an executor, by a deposit otherwise. [failure] is the error
    that ends the execution there, if one does. *)
Definition attempted (h : RecurringDepositJobHandler) (pl : RecurringDepositJobPayload) (s s1 : State)
    (failure : option HandlerError) : Prop :=
  jobs s1 = jobs s ∧ leading s1 = leading s ∧ notices s1 = notices s ∧
  match POnchainMandateID pl, mandates h with
  | Some mandateID, Some executor =>
      world s1 = world s ∧ executed s1 = executed s ++ [(PUserID pl, mandateID)] ∧
      match executor (PUserID pl) mandateID with
      | None => failure = None
      | Some msg => (hopeless msg ∧ failure = None) ∨ (¬ hopeless msg ∧ failure = Some (Mandate msg))
      end
  | _, _ =>
      savings_same (world s) (world s1) ∧ executed s1 = executed s ∧
      match failure with
      | None => booked h pl (world s) (world s1) ∨ db (world s1) = db (world s) ∧
          snd (RecordScheduledDeposit (deposits h) (PUserID pl) (PVaultID pl) (PAmount pl) (PScheduleID pl)
            (POccurrenceAt pl) (world s)) = Err (ErrVaults (VaultService.Repo VaultRepo.ErrDuplicateTransaction))
      | Some e => (booked h pl (world s) (world s1) ∨ db (world s1) = db (world s)) ∧ ∃ e', e = Repository e' ∧
          e' ≠ ErrVaults (VaultService.Repo VaultRepo.ErrDuplicateTransaction)
      end
  end.

(** The money settled, the schedule moves on to its next run and the user is told, or
    the update fails and neither happens. *)
Definition moved_on (pl : RecurringDepositJobPayload) (s : State) (p : State * result HandlerError unit) : Prop :=
  goals (world p.1) = goals (world s) ∧ db (world p.1) = db (world s) ∧ jobs p.1 = jobs s ∧
  leading p.1 = leading s ∧ executed p.1 = executed s ∧
  (((∃ e, p.2 = Err (Repository e)) ∧ schedules (world p.1) = schedules (world s) ∧ notices p.1 = notices s) ∨
   (p.2 = Ok () ∧ ∃ r t, schedules (world s) !! PScheduleID pl = Some r ∧ IsActive r = true ∧
      schedules (world p.1) = <[PScheduleID pl :=
        ran (POccurrenceAt pl) (Calendar.NextRunAt (POccurrenceAt pl) (PFrequency pl)) t r]> (schedules (world s)) ∧
      notices p.1 = notices s ++ [ScheduledDeposit (PUserID pl) (PAmount pl) (PCurrency pl) (PGoalName pl)])).

(** What executing an occurrence comes to. *)
Definition handled (h : RecurringDepositJobHandler) (job : JobQueue.Job) (s : State)
    (p : State * result HandlerError unit) : Prop :=
  match Unmarshal (JobQueue.Payload job) with
  | None => p = (s, Err Permanent)
  | Some pl => ∃ s1 failure, attempted h pl s s1 failure ∧
      match failure with Some e => p = (s1, Err e) | None => moved_on pl s1 p end
  end.

Lemma advance_moves_on pl s : sched_ok (world s) → moved_on pl s (updateScheduleAfterExecution pl s).
Proof.
  intros Hok. unfold updateScheduleAfterExecution, on_world, moved_on. set (next := Calendar.NextRunAt _ _).
  pose proof (after_run_outcome (PScheduleID pl) (POccurrenceAt pl) next (world s) Hok) as (Hg & Hd & Ho).
  cbv zeta in *. destruct (UpdateAfterRun _ _ _ _) as [w1 [[]|e]]; cbn in *; (split_and!; [done..|]).
  - destruct Ho as [[Hne _]|(_ & r & t & Hr & Ha & Hs)]; [done|]. right. split; [done|]. by exists r, t.
  - destruct Ho as [[_ Hs]|[Hne _]]; [|done]. left. split; [by exists e|done].
Qed.

Lemma non_retryable_hopeless msg : isNonRetryableMandateError msg = true ↔ hopeless msg.
Proof.
  unfold isNonRetryableMandateError, hopeless. rewrite !orb_true_iff. split.
  - intros [[[[E|E]|E]|E]|E]; (eexists; split; [|exact E]); set_solver.
  - intros (t & Ht & E). repeat (apply elem_of_cons in Ht as [->|Ht]; [tauto|]). by apply not_elem_of_nil in Ht.
Qed.

Lemma is_duplicate_spec e :
  is_duplicate e = true ↔ e = ErrVaults (VaultService.Repo VaultRepo.ErrDuplicateTransaction).
Proof. split; [|by intros ->]. destruct e as [| | | | | | | | | | | | | | | |v| | | | |]; try done. destruct v as [r| | | | | | | | | | | | | | | | | | | | | | | | | | |]; try done. by destruct r. Qed.

(** What the scheduled deposit leaves on the books. *)
Lemma scheduled_deposit_books h pl w :
  VaultBooks.sound (VaultService.session (vw w)) →
  let p := RecordScheduledDeposit (deposits h) (PUserID pl) (PVaultID pl) (PAmount pl) (PScheduleID pl)
    (POccurrenceAt pl) w in
  match p.2 with
  | Ok _ => booked h pl w p.1
  | Err e => db p.1 = db w ∨ booked h pl w p.1 ∧ is_duplicate e = false
  end.
Proof.
  intros Hs. cbv zeta. unfold Schedules.RecordScheduledDeposit. rewrite run_bind. unfold on_vaults.
  set (input := VaultService.mkDepositInput _ _ _ _ _ _).
  pose proof (scheduled_hash_not_blank uuid_String (PScheduleID pl) (POccurrenceAt pl)) as Hblank.
  destruct (VaultService.chainVerifier (deposits h)) as [verify|] eqn:Hver.
  2: { destruct (unverified_refused scan_numeric uuid_String (deposits h) input (vw w) Hver Hblank) as [[[Hd _] _] [e [He _]]].
       destruct (VaultService.RecordDeposit _ _ _ _ _) as [v [x|e']]; [done|]. by left. }
  destruct (VaultServiceBooks.RecordDeposit_passes scan_numeric uuid_String (deposits h) input (vw w)) as
    [[(T & _) Hok]|(s' & s1 & r & c & v & amount & shares & (T & Cs & _) & Hv & _ & _ & Hamt & ->)].
  - destruct (VaultService.RecordDeposit _ _ _ _ _) as [v [x|e]]; [done|]. left. apply T.
  - set (u := VaultServiceBooks.acting _ _). set (rec := VaultRepo.mkRecord u _ _ _ _ _).
    set (tmpl := VaultService.audit_template _ _ _ _ _ _). set (check := VaultService.cap_check _ _ _).
    pose proof (VaultBooks.same_sound _ _ T Hs) as Hs'.
    pose proof (VaultBooks.deposit_outcome scan_numeric scan_numeric_value (PVaultID pl) rec check tmpl
      (VaultService.session s') (VaultBooks.sd_idle _ Hs')) as Ho.
    destruct (VaultServiceBooks.verified_vouched _ _ _ _ _ _ _ _ _ _ Hver Hamt) as (Hne & Hpos & Hvouch).
    destruct Hv as (Hl & Hc & _ & _ & Hcon & _). rewrite Hcon in Hvouch. pose proof T as (Td & _).
    unfold mbind, VaultService.M_bind, VaultService.on_repo in *.
    destruct (VaultRepo.RecordDepositWithAudit scan_numeric _ rec check tmpl (VaultService.session s')) as [v1 [a|e]];
      cbn in Ho |- *; unfold VaultBooks.outcome in Ho; cbn in Ho; [|left; exact (eq_trans Ho Td)].
    destruct Ho as [_ Hau]. rewrite Td in Hau.
    assert (∀ w', db w' = VaultRepo.db v1 → booked h pl w w') as Hb.
    { intros w' Hw'. exists verify, r, c, amount. rewrite Hw'. split_and!; [done..|].
      eapply VaultServiceBooks.audited_moves; [done|exact Hau]. }
    pose proof (clean_GetVault scan_numeric (PVaultID pl)) as [Hr He].
    specialize (Hr (VaultService.with_session s' v1)). specialize (He (VaultService.with_session s' v1)).
    destruct (VaultService.GetVault _ _ _) as [v2 [x|e]]; destruct Hr as [[Hd _] _]; cbn in *; [by apply Hb|].
    right. split; [by apply Hb|]. apply not_true_iff_false. intros Hdup.
    change (is_duplicate (ErrVaults e) = true) in Hdup. apply is_duplicate_spec in Hdup. injection Hdup as ->.
    by apply (He _ eq_refl).
Qed.

(** The end of an execution. *)
Definition finish (pl : RecurringDepositJobPayload) (s : State) (failure : option HandlerError)
  : State * result HandlerError unit :=
  match failure with Some e => (s, Err e) | None => updateScheduleAfterExecution pl s end.

Lemma Handle_finish h job pl s :
  Unmarshal (JobQueue.Payload job) = Some pl →
  ∃ s1 failure, Handle h job s = finish pl s1 failure ∧
    goals (world s1) = goals (world s) ∧ schedules (world s1) = schedules (world s) ∧
    (VaultBooks.sound (VaultService.session (vw (world s))) → attempted h pl s s1 failure).
Proof.
  intros Hu. unfold Schedules.Handle. rewrite Hu.
  assert (POnchainMandateID pl = None ∨ mandates h = None → ∃ s1 failure,
    record_occurrence scan_numeric uuid_String h pl s = finish pl s1 failure ∧
    goals (world s1) = goals (world s) ∧ schedules (world s1) = schedules (world s) ∧
    (VaultBooks.sound (VaultService.session (vw (world s))) → attempted h pl s s1 failure)) as Hdep.
  { intros Hno. unfold record_occurrence, on_world, attempted.
    pose proof (record_savings_same (deposits h) (PUserID pl) (PVaultID pl) (PAmount pl) (PScheduleID pl)
      (POccurrenceAt pl) (world s)) as Hsame. pose proof Hsame as (Hg & _ & Hsch & _).
    pose proof (scheduled_deposit_books h pl (world s)) as Hb. cbv zeta in Hb.
    destruct (RecordScheduledDeposit _ _ _ _ _ _ (world s)) as [w1 [[]|e]]; cbn [fst snd] in *.
    - exists (with_world s w1), None. split_and!; [done..|]. intros Hs. specialize (Hb Hs). split_and!; [done..|].
      destruct (POnchainMandateID pl), (mandates h); destruct Hno; try done; split_and!; auto.
    - exists (with_world s w1), (if is_duplicate e then None else Some (Repository e)).
      destruct (is_duplicate e) eqn:Ed; (split_and!; [done..|]); intros Hs; specialize (Hb Hs); (split_and!; [done..|]).
      + assert (db w1 = db (world s)) as Hd by (destruct Hb as [|[_ [=]]]; done). apply is_duplicate_spec in Ed as ->.
        destruct (POnchainMandateID pl), (mandates h); destruct Hno; try done; split_and!; auto.
      + assert (e ≠ ErrVaults (VaultService.Repo VaultRepo.ErrDuplicateTransaction)) by (rewrite <- is_duplicate_spec; by rewrite Ed).
        destruct (POnchainMandateID pl), (mandates h); destruct Hno; try done; split_and!; auto; naive_solver. }
  destruct (POnchainMandateID pl) as [mandateID|] eqn:Em; [|by apply Hdep; left].
  destruct (mandates h) as [executor|] eqn:Eh; [|by apply Hdep; right]. clear Hdep. cbv zeta.
  exists (with_executed s (executed s ++ [(PUserID pl, mandateID)])),
    (match executor (PUserID pl) mandateID with
     | Some msg => if isNonRetryableMandateError msg then None else Some (Mandate msg) | None => None end).
  split; [destruct (executor _ _) as [msg|]; [by destruct (isNonRetryableMandateError msg)|done]|]. split_and!; [done..|].
  intros _. unfold attempted. rewrite Em, Eh. split_and!; [done..|]. destruct (executor _ _) as [msg|]; [|done].
  destruct (isNonRetryableMandateError msg) eqn:E.
  - left. split; [by apply non_retryable_hopeless|done].
  - right. split; [|done]. intros Hh%non_retryable_hopeless. congruence.
Qed.

Lemma Handle_handled h job s :
  sched_ok (world s) → VaultBooks.sound (VaultService.session (vw (world s))) → handled h job s (Handle h job s).
Proof.
  intros Hok Hs. unfold handled. destruct (Unmarshal (JobQueue.Payload job)) as [pl|] eqn:Hu.
  - destruct (Handle_finish h job pl s Hu) as (s1 & failure & -> & Hg & Hsch & Ha). exists s1, failure.
    split; [by apply Ha|]. destruct failure; [done|]. by apply advance_moves_on, (sched_ok_same (world s)).
  - unfold Schedules.Handle. by rewrite Hu.
Qed.

(** Executing an occurrence leaves the goals alone and moves one schedule at most. *)
Lemma Handle_rows h job s :
  sched_ok (world s) → let p := Handle h job s in
  goals (world p.1) = goals (world s) ∧
  (schedules (world p.1) = schedules (world s) ∨ ∃ id r last next t, schedules (world s) !! id = Some r ∧
     schedules (world p.1) = <[id := ran last next t r]> (schedules (world s))).
Proof.
  intros Hok. cbv zeta. destruct (Unmarshal (JobQueue.Payload job)) as [pl|] eqn:Hu.
  2: { unfold Schedules.Handle. rewrite Hu. by split; [|left]. }
  destruct (Handle_finish h job pl s Hu) as (s1 & failure & -> & Hg & Hsch & _).
  destruct failure; [by split; [|left]|]. cbn [finish].
  destruct (advance_moves_on pl s1) as (-> & _ & _ & _ & _ & [(_ & -> & _)|(_ & r & t & Hl & _ & Hs & _)]);
    [by apply (sched_ok_same (world s))|by split; [|left]|]. split; [done|]. right. rewrite Hsch in *. eauto 8.
Qed.

End handler.

(** *** Keys of occurrences *)

Section keys.
  Context (uuid_String : Z → string) `{Huuid : !Inj (=) (=) uuid_String}.
  (** A UUID is written without colons. *)
  Context (uuid_colon : ∀ u, byte 58 ∉ bytes_of (uuid_String u)).

Lemma key_parts i j t u w :
  recurringDepositIdempotencyKey uuid_String i t w = recurringDepositIdempotencyKey uuid_String j u w ↔
  i = j ∧ Calendar.Unix (Calendar.Truncate t w) = Calendar.Unix (Calendar.Truncate u w).
Proof.
  unfold recurringDepositIdempotencyKey. split; [|by intros [-> ->]]. intros Heq.
  apply (f_equal bytes_of) in Heq. rewrite !TimeFormat.bytes_of_app in Heq.
  change (bytes_of ":") with [byte 58] in Heq. cbn [app] in Heq.
  apply TimeFormat.split_first in Heq as [Hid Ht]; [|apply uuid_colon..].
  apply (f_equal of_bytes) in Hid, Ht. unfold of_bytes, bytes_of in Hid, Ht.
  rewrite !String.string_of_list_ascii_of_string in Hid, Ht.
  split; [by apply Huuid|]. by apply (inj pretty).
Qed.

(** Occurrences of one schedule are told apart by anything that is later for later
    instants. *)
Lemma occurrence_index t f (g : Time → Z) n k :
  f ∈ Calendar.frequencies → (∀ a b, a + 7 * Calendar.Day ≤ b → g a < g b) →
  g (Calendar.occurrence t f n) = g (Calendar.occurrence t f k) → n = k.
Proof.
  intros Hf Hg Heq. destruct (Nat.lt_total n k) as [Hlt|[Hn|Hlt]]; [|done|];
    apply (Calendar.occurrence_gap t f _ _ Hf), Hg in Hlt; lia.
Qed.

Lemma Unix_apart a b : a + 7 * Calendar.Day ≤ b → Calendar.Unix a < Calendar.Unix b.
Proof.
  intros Hab. pose proof (Calendar.Truncate_apart a b 1 ltac:(done) Hab) as Hu.
  unfold Calendar.Truncate in Hu. cbn in Hu. by rewrite !Z.mod_1_r, !Z.sub_0_r in Hu.
Qed.

(** Each occurrence of a schedule has a key and a transaction hash of its own, as
    long as the window is a week at most, and no two schedules share a key. *)
Lemma occurrences_have_their_own_keys i j t u f w n k :
  f ∈ Calendar.frequencies → 0 < w ≤ 7 * Calendar.Day →
  let key id from m := recurringDepositIdempotencyKey uuid_String id (Calendar.occurrence from f m) w in
  let hash id from m := scheduled_hash uuid_String id (Calendar.occurrence from f m) in
  (key i t n = key j u k → i = j) ∧ (key i t n = key i t k ↔ n = k) ∧ (hash i t n = hash i t k ↔ n = k).
Proof.
  intros Hf Hw. cbv zeta. split; [by intros [-> _]%key_parts|]. split; (split; [|by intros ->]).
  - intros [_ Heq]%key_parts.
    refine (occurrence_index t f (λ a, Calendar.Unix (Calendar.Truncate a w)) n k Hf _ Heq).
    intros a b Hab. by apply Calendar.Truncate_apart.
  - intros Heq. unfold scheduled_hash in Heq. repeat apply (inj (String.append _)) in Heq.
    apply (inj pretty) in Heq.
    exact (occurrence_index t f Calendar.Unix n k Hf Unix_apart Heq).
Qed.

End keys.

(** A monthly run falls in the next month of the calendar, at the same time of the
    day, on the same day of the month or the last one it has; the others fall exactly one
    or two weeks later. *)
Lemma next_run_follows_the_calendar t :
  Calendar.NextRunAt t (frequency_string FrequencyWeekly) = t + 7 * Calendar.Day ∧
  Calendar.NextRunAt t (frequency_string FrequencyBiweekly) = t + 14 * Calendar.Day ∧
  let next := Calendar.NextRunAt t (frequency_string FrequencyMonthly) in
  let '(y, m, d) := Calendar.Date t in
  let '(y', m') := Calendar.next_month y m in
  Calendar.valid_date (Calendar.Date next) ∧
  Calendar.Date next = (y', m', Z.min d (Calendar.month_length y' m')) ∧ Calendar.Clock next = Calendar.Clock t.
Proof.
  split; [apply Calendar.AddDate_days|]. split; [apply Calendar.AddDate_days|]. cbv zeta.
  change (Calendar.NextRunAt t (frequency_string FrequencyMonthly)) with (Calendar.addOneMonth t).
  destruct (Calendar.Date t) as [[y m] d] eqn:E. pose proof (Calendar.addOneMonth_date t y m d E) as Hn.
  destruct (Calendar.next_month y m) as [y' m']. destruct Hn as (Hd & Hc & _).
  split; [apply Calendar.civil_of_days_valid|done].
Qed.

(** *** Histories *)

Section histories.
  Context `{DecimalOrderLaws} `{F : !DecimalFormat}.
  Context (scan_numeric : Z → decimal).
  Context (scan_numeric_value : ∀ z, (value (scan_numeric z) == VaultRepo.col z)%Q).
  Context (uuid_String : Z → string) `{Huuid : !Inj (=) (=) uuid_String}.
  Context (uuid_nonempty : ∀ u, uuid_String u ≠ ""%string).
  Context (Float64 : decimal → float64) (NewFromFloat : float64 → decimal).
  Context (json_valid : string → bool).
  Context (marshal_milestone : GoalOf decimal → decimal → float64 → Z → string → option string).
  Context (unicode_symbol : Z → bool).
  Context (matches : string → GoalOf Z → bool).
  Context `{C : !PayloadCodec} `{!PayloadCodecLaws}.

Notation serve := (serve scan_numeric uuid_String Float64 NewFromFloat json_valid marshal_milestone
  unicode_symbol matches).
Notation Tick := (Tick scan_numeric uuid_String (λ t, t)).
Notation Handle := (Handle scan_numeric uuid_String).

(** The parts at work together: calls about goals, requests about schedules, sweeps,
    executed jobs, and the rest of the system, which leaves goals and schedules alone. *)
Inductive happens (svc : SavingsGoalService) (s : State) : State → Prop :=
| hap_goal c : happens svc s (with_world s (fst (serve svc c (world s))))
| hap_schedule d u r : happens svc s (with_world s (fst (serve_schedule scan_numeric d u r (world s))))
| hap_sweep cfg : ready uuid_String s → happens svc s (Tick cfg s)
| hap_job h job : happens svc s (fst (Handle h job s))
| hap_other s' : goals (world s') = goals (world s) → schedules (world s') = schedules (world s) → happens svc s s'.

Lemma goals_kept_sched_ok u w w' : keeps_owners u w w' → sched_ok w → sched_ok w'.
Proof.
  intros (Hk & _ & _ & _ & Hs) [Hrow Hone]. split; rewrite Hs; [|done].
  intros id s Hl. destruct (Hrow id s Hl) as (Hid & Hp & g & Hg & Hu). split_and!; [done..|].
  destruct (Hk _ _ Hg) as (g' & Hg' & Hu' & _). exists g'. split; [done|congruence].
Qed.

Lemma happens_ok svc s s' :
  happens svc s s' → good (world s) ∧ sched_ok (world s) → good (world s') ∧ sched_ok (world s').
Proof.
  intros Hh [Hg Hok].
  assert (∀ w', goals w' = goals (world s) → good w') as Hgood by (intros w' E id g; rewrite E; apply Hg).
  destruct Hh as [c|d u r|cfg Hr|h job|s' Hgo Hs].
  - pose proof (serve_walks scan_numeric scan_numeric_value uuid_String Float64 NewFromFloat json_valid
      marshal_milestone unicode_symbol matches svc c (world s) Hg) as Hw.
    split; [by eapply steps_good|]. by eapply goals_kept_sched_ok, Hok; eapply steps_owners.
  - pose proof (serve_schedule_walks scan_numeric d u r (world s)) as Hw. split; [|by eapply sched_steps_ok].
    apply Hgood. cbn. clear -Hw. induction Hw as [|w1 w2 w3 Hstep _ IH]; [done|]. rewrite IH.
    destruct Hstep as [w2 (_ & Hg & _)| | | |]; done.
  - pose proof (Tick_swept scan_numeric scan_numeric_value uuid_String uuid_nonempty cfg s Hr Hok) as Ht.
    destruct Ht as (_ & Hok' & Hgo & _). split; [by apply Hgood|done].
  - destruct (Handle_rows scan_numeric scan_numeric_value uuid_String h job s Hok) as [Hgo Hs].
    split; [by apply Hgood|]. destruct Hs as [Hs|(id & r & last & next & t & Hl & Hs)].
    + by eapply sched_ok_same.
    + destruct (proj1 Hok _ _ Hl) as (_ & Hp & _). by eapply sched_ok_row.
  - split; [by apply Hgood|]. by eapply sched_ok_same.
Qed.

Lemma history_ok svc s s' :
  goals (world s) = ∅ → schedules (world s) = ∅ → rtc (happens svc) s s' → good (world s') ∧ sched_ok (world s').
Proof.
  intros Hg Hs Hh. assert (good (world s) ∧ sched_ok (world s)) as Hi.
  { split; [intros id g; by rewrite Hg, lookup_empty|]. split; rewrite Hs; intros *; by rewrite lookup_empty. }
  clear Hg Hs. induction Hh as [|s1 s2 s3 Hstep _ IH]; [done|]. by eapply IH, happens_ok.
Qed.

(** C23: from empty tables on, in every history of the parts together, a schedule moves a
    positive amount, belongs to the owner of its goal, and no goal has two active ones. *)
Theorem schedules_stay_sound svc s s' :
  goals (world s) = ∅ → schedules (world s) = ∅ → rtc (happens svc) s s' → sched_ok (world s').
Proof. intros Hg Hs Hh. by apply (history_ok svc s s'). Qed.

(** A sweep enqueues for active due schedules of goals that still want the money
    only, each under the key of its occurrence, once per occurrence and per positive
    answer of the leader checker after the first; a process that does not lead touches
    nothing. *)
Lemma sweeps_enqueue_due_occurrences cfg s :
  ready uuid_String s → sched_ok (world s) → sweep_result scan_numeric uuid_String cfg s (Tick cfg s).
Proof. intros Hr Hok. by apply Tick_swept. Qed.

(** C24: what executing an occurrence comes to. A payload that cannot be read fails for
    good and changes nothing. Otherwise the money is asked for exactly once: by the
    mandate's executor when there are both, whose error ends the execution unless it is
    one of the five a retry cannot mend; else by a deposit, after which the books hold
    exactly the amount the chain reports for the occurrence's hash, once under that hash,
    or are as they were, as they are when the deposit is reported as recorded before. An
    execution that fails there leaves schedules and users as they were, though the
    deposit may be on the books already; one that does not moves the active schedule to
    its next run and tells the user once, or its update fails and it does neither. *)
Theorem executed_occurrences_advance h job s :
  sched_ok (world s) → VaultBooks.sound (VaultService.session (vw (world s))) →
  handled scan_numeric uuid_String h job s (Handle h job s).
Proof. by apply Handle_handled. Qed.

(** C25: without a chain verifier and without mandates, as the program wires the handler,
    no occurrence is ever recorded: every execution fails, and the books, the schedules
    and the users' messages stay as they are. *)
Theorem unverified_occurrences_record_nothing h job s :
  VaultService.chainVerifier (deposits h) = None → mandates h = None →
  let p := Handle h job s in
  p.2 ≠ Ok () ∧ VaultServiceBooks.same true (vw (world s)) (vw (world p.1)) ∧ savings_same (world s) (world p.1) ∧
  jobs p.1 = jobs s ∧ notices p.1 = notices s.
Proof.
  intros Hv Hm. cbv zeta. unfold Schedules.Handle.
  destruct (Unmarshal (JobQueue.Payload job)) as [pl|]; [|by split_and!; try done; apply VaultServiceBooks.same_refl].
  set (p := record_occurrence scan_numeric uuid_String h pl s).
  assert (p.2 ≠ Ok () ∧ VaultServiceBooks.same true (vw (world s)) (vw (world p.1)) ∧
    savings_same (world s) (world p.1) ∧ jobs p.1 = jobs s ∧ notices p.1 = notices s) as Hp;
    [|rewrite Hm; by destruct (POnchainMandateID pl)].
  subst p.
  pose proof (record_savings_same scan_numeric uuid_String (deposits h) (PUserID pl) (PVaultID pl) (PAmount pl)
    (PScheduleID pl) (POccurrenceAt pl) (world s)) as Hsame.
  unfold record_occurrence, on_world. unfold Schedules.RecordScheduledDeposit in *. rewrite !run_bind in *.
  set (input := VaultService.mkDepositInput _ _ _ _ _ _) in *.
  destruct (unverified_refused scan_numeric uuid_String (deposits h) input (vw (world s)) Hv
    (scheduled_hash_not_blank _ _ _)) as [Hq (e & He & Hne)].
  unfold on_vaults in *. destruct (VaultService.RecordDeposit _ _ _ _ _) as [v [x|e']]; cbn in *; [done|].
  injection He as ->. destruct e as [r| | | | | | | | | | | | | | | | | | | | | | | | | | |]; [destruct r|..]; cbn; by split_and!.
Qed.

End histories.

(** *** Concrete runs *)

(** Neither a call about goals nor a request about schedules moves money. *)
Lemma steps_vaults `{DecimalOrderLaws} `{F : !DecimalFormat} uuid_String u P w w' :
  rtc (step uuid_String u P) w w' → VaultServiceBooks.same true (vw w) (vw w').
Proof.
  induction 1 as [|w1 w2 w3 H1 _ IH]; [apply VaultServiceBooks.same_refl|].
  eapply VaultServiceBooks.same_trans; [|exact IH]. destruct H1 as [w2 Hq| | | | | | |]; [apply Hq|apply VaultServiceBooks.same_refl..].
Qed.

Lemma sched_steps_vaults `{DecimalOrderLaws} `{F : !DecimalFormat} u w w' :
  rtc (sched_step u) w w' → VaultServiceBooks.same true (vw w) (vw w').
Proof.
  induction 1 as [|w1 w2 w3 H1 _ IH]; [apply VaultServiceBooks.same_refl|].
  eapply VaultServiceBooks.same_trans; [|exact IH]. destruct H1 as [w2 Hq| | | |]; [apply Hq|apply VaultServiceBooks.same_refl..].
Qed.

#[local] Existing Instances QDecimal QDecimal_laws QDecimalOrder QDecimalOrder_laws QDecimalFormat.
Import VaultBooks VaultServiceBooks.

(** Ids in unary. *)
Definition unary_id (z : Z) : string :=
  of_bytes (byte (if 0 <=? z then 112 else 110) :: repeat (byte 97) (Z.to_nat (Z.abs z))).

#[global] Instance unary_id_inj : Inj (=) (=) unary_id.
Proof.
  intros x y. unfold unary_id. cbn. intros [= Hs Hl].
  apply (f_equal bytes_of) in Hl. unfold bytes_of in Hl. rewrite !String.list_ascii_of_string_of_list_ascii in Hl.
  apply (f_equal length) in Hl. rewrite !repeat_length in Hl.
  destruct (0 <=? x) eqn:Ex, (0 <=? y) eqn:Ey; cbn in Hs; reflect_bools; first [discriminate|lia].
Qed.

Lemma unary_id_nonempty z : unary_id z ≠ ""%string.
Proof. done. Qed.

Lemma unary_id_colon z : byte 58 ∉ bytes_of (unary_id z).
Proof.
  unfold unary_id, bytes_of, of_bytes. rewrite String.list_ascii_of_string_of_list_ascii.
  intros [Hx|Hx]%elem_of_cons; [by destruct (0 <=? z)|].
  apply list_elem_of_In, repeat_spec in Hx. done.
Qed.

(** User 9's schedule of one a month for the goal of 10. *)
Abbreviation serve_unary := (serve scan_Q unary_id Float64_Q NewFromFloat_Q demo_json demo_marshal demo_symbol
  demo_matches demo_goal_service).
Definition unary_opened : World := fst (serve_unary demo_opening demo_world).
Definition demo_request : ScheduleRequest := SCreate 10 (mkCreateSchedule (dec 1) "" "Monthly" 7).
Definition demo_scheduled : World := fst (serve_schedule scan_Q (dec 0) 9 demo_request unary_opened).
Definition demo_leader (l : option (list bool)) : State := mkState demo_scheduled ∅ l [] [] 0.
Definition schedule_ids (w : World) : list Z := map fst (map_to_list (schedules w)).

(** A codec that knows one payload. *)
Definition demo_payload : RecurringDepositJobPayload :=
  mkPayload 15 9 7 10 (scan_Q 100000000) "USDC" "monthly" "your goal" 0 None.

#[global] Instance Q_eq_dec : EqDecision Q.
Proof. solve_decision. Defined.

Definition fields (p : RecurringDepositJobPayload) : Z * Z * Z * Z * Q * string * string * string * Z * option Z :=
  (PScheduleID p, PUserID p, PVaultID p, PGoalID p, PAmount p, PCurrency p, PFrequency p, PGoalName p,
   POccurrenceAt p, POnchainMandateID p).

#[global] Instance demo_codec : PayloadCodec := {
  Marshal p := if decide (fields p = fields demo_payload) then Some "{1}"%string else None;
  Unmarshal s := if s =s? "{1}" then Some demo_payload else None;
}.

#[global] Instance demo_codec_laws : PayloadCodecLaws.
Proof.
  split.
  - intros p s. cbn. destruct (decide (fields p = fields demo_payload)) as [Hf|]; [|done]. intros [= <-].
    exists demo_payload. split; [done|]. destruct p. unfold fields, demo_payload in Hf. cbn in Hf. injection Hf as -> -> -> -> -> -> -> -> -> ->.
    unfold same_payload. by split_and!.
  - intros p s. cbn. destruct (decide (fields p = fields demo_payload)); [|done]. by intros [= <-].
Qed.

Abbreviation sweep_demo := (Tick scan_Q unary_id (λ t, t) (mkRecurring true Hour 0)).
Definition demo_swept : State := sweep_demo (demo_leader (Some [true; true])).
Definition queued (s : State) : list string := map (λ p, JobQueue.IdempotencyKey p.2) (map_to_list (jobs s)).
Definition demo_job : JobQueue.Job :=
  JobQueue.new_job (occurrence_input unary_id (mkRecurring true Hour 0)
    (mkSchedule 15 9 10 7 (scan_Q 100000000) "USDC" FrequencyMonthly 0 None true None 0 0) "{1}") (unary_id 16) 0 0.
(** A chain that has every deposit of 1, and no chain at all. *)
Definition generous : VaultService.VaultService :=
  VaultService.mkVaultService None None None None None None None
    (Some (λ _ _ _, Ok (VaultService.mkVerifiedEvent (dec 1) ""))) None true None false true.
Definition unwired : VaultService.VaultService :=
  VaultService.mkVaultService None None None None None None None None None true None false true.
Definition handled_demo (svc : VaultService.VaultService) : State * result HandlerError unit :=
  Handle scan_Q unary_id (mkHandler svc None) demo_job (demo_leader None).
Definition next_runs (s : State) : list Time := map (λ p, NextRunAt p.2) (map_to_list (schedules (world s))).

Lemma demo_happened : rtc (happens scan_Q unary_id Float64_Q NewFromFloat_Q demo_json demo_marshal demo_symbol
  demo_matches demo_goal_service) (mkState demo_world ∅ None [] [] 0) (demo_leader None).
Proof.
  apply (rtc_l _ _ (mkState unary_opened ∅ None [] [] 0)); [apply hap_goal|]. apply rtc_once.
  apply (hap_schedule _ _ _ _ _ _ _ _ _ (mkState unary_opened ∅ None [] [] 0) (dec 0) 9 demo_request).
Qed.

Lemma schedules_stay_sound_witness :
  schedule_ids demo_scheduled = [15] ∧ sched_ok demo_scheduled.
Proof.
  split; [vm_compute; reflexivity|].
  exact (schedules_stay_sound scan_Q scan_Q_value unary_id unary_id_nonempty Float64_Q NewFromFloat_Q demo_json
    demo_marshal demo_symbol demo_matches demo_goal_service
    (mkState demo_world ∅ None [] [] 0) (demo_leader None) eq_refl eq_refl demo_happened).
Defined.

Lemma demo_ok : sched_ok demo_scheduled.
Proof.
  exact (proj2 (history_ok scan_Q scan_Q_value unary_id unary_id_nonempty Float64_Q NewFromFloat_Q demo_json
    demo_marshal demo_symbol demo_matches demo_goal_service
    (mkState demo_world ∅ None [] [] 0) (demo_leader None) eq_refl eq_refl demo_happened)).
Qed.

Lemma demo_ready l : ready unary_id (demo_leader l).
Proof.
  split; [|intros n _; apply lookup_empty]. change (jobs (demo_leader l)) with (∅ : JobQueue.Jobs).
  split; [intros id j; by rewrite lookup_empty|]. split; [apply map_Forall_empty|].
  intros ty key i1 i2 j1 j2 Hl. by rewrite lookup_empty in Hl.
Qed.

Lemma sweeps_enqueue_due_occurrences_witness :
  queued demo_swept = ["paaaaaaaaaaaaaaa:-62135596800"%string] ∧
  sweep_result scan_Q unary_id (mkRecurring true Hour 0) (demo_leader (Some [true; true])) demo_swept.
Proof.
  split; [vm_compute; reflexivity|].
  exact (sweeps_enqueue_due_occurrences scan_Q scan_Q_value unary_id unary_id_nonempty (mkRecurring true Hour 0)
    (demo_leader (Some [true; true])) (demo_ready _) demo_ok).
Defined.

Lemma demo_sound : VaultBooks.sound (VaultService.session (vw demo_scheduled)).
Proof.
  assert (VaultServiceBooks.same true (vw demo_world) (vw unary_opened)) as T1.
  { unfold unary_opened. eapply steps_vaults. apply (serve_walks scan_Q scan_Q_value unary_id). apply demo_world_good. }
  assert (VaultServiceBooks.same true (vw unary_opened) (vw demo_scheduled)) as T2.
  { unfold demo_scheduled. eapply sched_steps_vaults. apply (serve_schedule_walks scan_Q). }
  destruct (VaultServiceBooks.same_trans _ _ _ _ T1 T2) as [T _]. eapply VaultBooks.same_sound; [exact T|].
  unfold demo_world. cbn [vw]. by apply (VaultBooks.reach_sound scan_Q scan_Q_value id_text VaultBooks.any_op), VaultBooks.demo_reach.
Qed.

Lemma executed_occurrences_advance_witness :
  next_runs (fst (handled_demo generous)) = [31 * Calendar.Day] ∧
  map VaultRepo.TxAmount (VaultRepo.txs (db (world (fst (handled_demo generous))))) = [500000000; 100000000] ∧
  handled scan_Q unary_id (mkHandler generous None) demo_job (demo_leader None) (handled_demo generous).
Proof.
  split; [vm_compute; reflexivity|]. split; [vm_compute; reflexivity|].
  exact (executed_occurrences_advance scan_Q scan_Q_value unary_id (mkHandler generous None) demo_job (demo_leader None)
    demo_ok demo_sound).
Defined.

Lemma unverified_occurrences_record_nothing_witness :
  VaultService.chainVerifier unwired = None ∧ snd (handled_demo unwired) ≠ Ok () ∧
  notices (fst (handled_demo unwired)) = [].
Proof.
  assert (VaultService.chainVerifier unwired = None) as Hv by reflexivity. split; [exact Hv|].
  destruct (unverified_occurrences_record_nothing scan_Q unary_id (mkHandler unwired None) demo_job (demo_leader None)
    Hv eq_refl) as (Hn & _ & _ & _ & Hno). split; [exact Hn|exact Hno].
Defined.

Lemma occurrences_have_their_own_keys_witness :
  Calendar.occurrence 0 "monthly" 2 = 59 * Calendar.Day ∧
  scheduled_hash unary_id 3 (Calendar.occurrence 0 "monthly" 1) ≠ scheduled_hash unary_id 3 (Calendar.occurrence 0 "monthly" 2).
Proof.
  split; [vm_compute; reflexivity|].
  destruct (occurrences_have_their_own_keys unary_id unary_id_colon 3 4 0 0 "monthly" Hour 1 2) as (_ & _ & Hh).
  - do 2 right. left.
  - split; [reflexivity|]. vm_compute. discriminate.
  - intros Heq. apply Hh in Heq. discriminate.
Defined.

End ScheduleProps.
