(* ===== verification/Leadership.v ===== *)
(** * Leader election (scheduler/leadership.go)

    Every replica runs an election loop over one session-scoped advisory lock of
    PostgreSQL. This file models the lock and the sessions that hold it, the pool of
    connections each replica takes its pinned connection from, and the loop's
    acquisition, reverification, demotion and release. A heartbeat is two steps, the
    statement and what the replica makes of its answer, so the replicas interleave
    between them, and sessions end at any time. The theorem is that of two replicas
    that believe to lead one has lost its session, and that a heartbeat leaves a
    replica leading only if it holds the lock. *)
From S2P Require Import Prelude.

Module Leadership.

Abbreviation Conn := Z (only parsing).

Definition DefaultLeaderLockKey : Z := 846000.
Definition defaultHeartbeatInterval : Duration := 3 * Second.

Record LeadershipConfig := mkConfig {
  LockKey : Z;
  HeartbeatInterval : Duration;
  InstanceID : string;
}.

(** [hostname] is [os.Hostname()], [uuid] the random id. *)
Definition withDefaults (hostname : option string) (uuid : string) (c : LeadershipConfig) : LeadershipConfig :=
  let host := match hostname with Some h => if h =s? "" then "unknown-host" else h | None => "unknown-host" end in
  mkConfig (if LockKey c =? 0 then DefaultLeaderLockKey else LockKey c)
    (if HeartbeatInterval c <=? 0 then defaultHeartbeatInterval else HeartbeatInterval c)
    (if InstanceID c =s? "" then (host +:+ "-" +:+ uuid)%string else InstanceID c).

(** ** PostgreSQL's advisory locks *)

(** The live backend sessions, and for each key the session holding its lock with
    the number of times it took it. *)
Record PG := mkPG {
  sessions : gset Conn;
  locks : gmap Z (Conn * nat);
}.

Definition pg_try_advisory_lock (key : Z) (c : Conn) (d : PG) : PG * bool :=
  match locks d !! key with
  | None => (mkPG (sessions d) (<[key := (c, 1%nat)]> (locks d)), true)
  | Some (c', n) => if c' =? c then (mkPG (sessions d) (<[key := (c, S n)]> (locks d)), true) else (d, false)
  end.

Definition not_of (c : Conn) (x : Z * (Conn * nat)) : Prop := fst (snd x) ≠ c.
#[global] Instance not_of_dec c x : Decision (not_of c x).
Proof. unfold not_of. apply _. Defined.

Definition pg_advisory_unlock_all (c : Conn) (d : PG) : PG :=
  mkPG (sessions d) (filter (not_of c) (locks d)).

(** A session that ends gives up its locks. *)
Definition session_end (c : Conn) (d : PG) : PG :=
  mkPG (sessions d ∖ {[c]}) (filter (not_of c) (locks d)).

(** What happens to a statement: it is answered, it fails and the session goes on, or
    the connection breaks before or after the statement is executed. A statement on
    a session that has ended fails whatever the network does. *)
Inductive Reply := Answered | Failed | Broken (executed : bool).

(** The answer, if one arrives, and whether the connection is still usable. *)
Definition query_try_lock (key : Z) (c : Conn) (r : Reply) (d : PG) : PG * option bool * bool :=
  if bool_decide (c ∈ sessions d) then
    match r with
    | Answered => let '(d, b) := pg_try_advisory_lock key c d in (d, Some b, true)
    | Failed => (d, None, true)
    | Broken true => (fst (pg_try_advisory_lock key c d), None, false)
    | Broken false => (d, None, false)
    end
  else (d, None, false).

Definition exec_unlock_all (c : Conn) (r : Reply) (d : PG) : PG * bool :=
  if bool_decide (c ∈ sessions d) then
    match r with
    | Answered => (pg_advisory_unlock_all c d, true)
    | Failed => (d, true)
    | Broken true => (pg_advisory_unlock_all c d, false)
    | Broken false => (d, false)
    end
  else (d, false).

(** ** One replica *)

(** A statement whose answer the loop has yet to act on: of [acquire], on a
    connection not pinned yet, or of a reverification. *)
Inductive Pending :=
| Acquiring (c : Conn) (answer : option bool) (usable : bool)
| Reverifying (answer : option bool) (usable : bool).

(** The fields of [Leadership], and the idle connections of the process's pool. *)
Record Leadership := mkLead {
  cfg : LeadershipConfig;
  isLeader : bool;
  since : Time;
  conn : option Conn;
  pending : option Pending;
  idle : gset Conn;
}.

Definition NewLeadership (c : LeadershipConfig) : Leadership := mkLead c false 0 None None ∅.

Definition IsLeader (l : Leadership) : bool := isLeader l.
Definition Since (l : Leadership) : Time := if isLeader l then since l else 0.

(** [conn.Close()] hands a usable connection back to the pool; its session, and the
    locks it holds, live on. *)
Definition close_conn (c : Conn) (usable : bool) (l : Leadership) : Leadership :=
  mkLead (cfg l) (isLeader l) (since l) (conn l) (pending l) (if usable then {[c]} ∪ idle l else idle l).

Definition with_pending (l : Leadership) (p : option Pending) : Leadership :=
  mkLead (cfg l) (isLeader l) (since l) (conn l) p (idle l).
Definition without_conn (l : Leadership) : Leadership :=
  mkLead (cfg l) false (since l) None (pending l) (idle l).

Definition demote (usable : bool) (l : Leadership) : Leadership :=
  match conn l with
  | Some c => close_conn c usable (without_conn l)
  | None => without_conn l
  end.

(** [l.db.Conn(ctx)]: no connection, one of the idle ones, or a new session. *)
Inductive Dial := NoConn | Idle (c : Conn) | Fresh.

(** The whole deployment: the database, the replicas by instance id, the next
    connection number. *)
Record World := mkWorld {
  pg : PG;
  procs : gmap string Leadership;
  next : Conn;
}.

Definition with_proc (i : string) (l : Leadership) (w : World) : World :=
  mkWorld (pg w) (<[i := l]> (procs w)) (next w).
Definition with_pg (d : PG) (w : World) : World := mkWorld d (procs w) (next w).

(** The connection dialled, out of the pool. *)
Definition dial (g : Dial) (l : Leadership) (w : World) : option (Conn * Leadership * World) :=
  match g with
  | NoConn => None
  | Idle c =>
      if bool_decide (c ∈ idle l)
      then Some (c, mkLead (cfg l) (isLeader l) (since l) (conn l) (pending l) (idle l ∖ {[c]}), w)
      else None
  | Fresh => Some (next w, l, mkWorld (mkPG ({[next w]} ∪ sessions (pg w)) (locks (pg w))) (procs w) (next w + 1))
  end.

(** ** A heartbeat *)

(** The statement of [acquire]. *)
Definition acquire_ask (i : string) (g : Dial) (r : Reply) (l : Leadership) (w : World) : World :=
  match dial g l w with
  | None => w
  | Some (c, l, w) =>
      let '(d, answer, usable) := query_try_lock (LockKey (cfg l)) c r (pg w) in
      with_proc i (with_pending l (Some (Acquiring c answer usable))) (with_pg d w)
  end.

(** The statement of [tick]: an acquisition attempt or a reverification. *)
Definition tick_ask (i : string) (g : Dial) (r : Reply) (w : World) : World :=
  match procs w !! i with
  | None => w
  | Some l =>
      match conn l with
      | None => acquire_ask i g r l w
      | Some c =>
          let '(d, answer, usable) := query_try_lock (LockKey (cfg l)) c r (pg w) in
          with_proc i (with_pending l (Some (Reverifying answer usable))) (with_pg d w)
      end
  end.

(** What the loop makes of the answer, at [now]. *)
Definition acquire_apply (c : Conn) (answer : option bool) (usable : bool) (now : Time) (l : Leadership)
  : Leadership :=
  match answer with
  | Some true => mkLead (cfg l) true now (Some c) (pending l) (idle l)
  | _ => close_conn c usable l
  end.

Definition tick_apply (i : string) (now : Time) (w : World) : World :=
  match procs w !! i with
  | None => w
  | Some l =>
      let l' := with_pending l None in
      match pending l with
      | None => w
      | Some (Acquiring c answer usable) => with_proc i (acquire_apply c answer usable now l') w
      | Some (Reverifying (Some true) _) => with_proc i l' w
      | Some (Reverifying _ usable) => with_proc i (demote usable l') w
      end
  end.

Definition tick (i : string) (g : Dial) (r : Reply) (now : Time) (w : World) : World :=
  tick_apply i now (tick_ask i g r w).

(** The release at shutdown. *)
Definition release (i : string) (r : Reply) (w : World) : World :=
  match procs w !! i with
  | None => w
  | Some l =>
      match conn l with
      | None => with_proc i (without_conn l) w
      | Some c =>
          let '(d, usable) := if isLeader l then exec_unlock_all c r (pg w) else (pg w, true) in
          with_proc i (close_conn c usable (without_conn l)) (with_pg d w)
      end
  end.

(** ** Histories *)

Section election.
  (** The lock key the deployment agrees on. *)
  Variable K : Z.

(** A replica starts, asks, acts on an answer, shuts down between two heartbeats, or
    crashes; a session ends. *)
Inductive step : World → World → Prop :=
| Starts i c w : procs w !! i = None → LockKey c = K → step w (with_proc i (NewLeadership c) w)
| Asks i l g r w : procs w !! i = Some l → pending l = None → step w (tick_ask i g r w)
| Applies i now w : step w (tick_apply i now w)
| Releases i l r w : procs w !! i = Some l → pending l = None → step w (release i r w)
| Crashes i w : step w (mkWorld (pg w) (delete i (procs w)) (next w))
| Ends c w : step w (with_pg (session_end c (pg w)) w).

Definition initial (w : World) : Prop := procs w = ∅ ∧ locks (pg w) = ∅.

(** The connections a replica can use. *)
Definition pending_conn (l : Leadership) : option Conn :=
  match pending l with Some (Acquiring c _ _) => Some c | _ => None end.

Definition owns (l : Leadership) (c : Conn) : Prop :=
  conn l = Some c ∨ pending_conn l = Some c ∨ c ∈ idle l.

(** While the session of [c] lives it holds the lock. *)
Definition holds (d : PG) (c : Conn) : Prop :=
  c ∈ sessions d → ∃ n, locks d !! K = Some (c, n).

(** One replica's part of the invariant. *)
Record lead_ok (w : World) (l : Leadership) : Prop := mkLeadOk {
  ok_key : LockKey (cfg l) = K;
  ok_leader : isLeader l = true ↔ is_Some (conn l);
  ok_conn : ∀ c, conn l = Some c → holds (pg w) c ∧ c ∉ idle l ∧ pending_conn l = None;
  ok_pending : ∀ c answer usable, pending l = Some (Acquiring c answer usable) →
    conn l = None ∧ c ∉ idle l ∧ (answer = Some true → holds (pg w) c);
  ok_known : ∀ c, owns l c → c < next w;
}.

Definition ok (w : World) : Prop :=
  (∀ i l, procs w !! i = Some l → lead_ok w l) ∧
  (∀ i j l m c, procs w !! i = Some l → procs w !! j = Some m → owns l c → owns m c → i = j).

(** ** The lock *)

Definition locked_by (d : PG) (c : Conn) : Prop := c ∈ sessions d ∧ ∃ n, locks d !! K = Some (c, n).

Lemma locked_holds d c : locked_by d c → holds d c.
Proof. by intros [_ H] _. Qed.

Lemma holds_unique d c c' : holds d c → holds d c' → c ∈ sessions d → c' ∈ sessions d → c = c'.
Proof. intros H H' Hc Hc'. destruct (H Hc) as [n Hn], (H' Hc') as [n' Hn']. congruence. Qed.

Lemma try_lock_sound c d d' b :
  pg_try_advisory_lock K c d = (d', b) →
  sessions d' = sessions d ∧ (b = true → ∃ n, locks d' !! K = Some (c, n)) ∧
  (∀ c', holds d c' → holds d' c').
Proof.
  unfold pg_try_advisory_lock, holds. destruct (locks d !! K) as [[c1 n]|] eqn:E.
  - destruct (Z.eqb_spec c1 c) as [->|]; intros [= <- <-]; cbn; [|split_and!; [done|done|by rewrite E]].
    split_and!; [done|intros _; rewrite lookup_insert_eq; eauto|]. intros c' Hc' Hs.
    destruct (Hc' Hs) as [m Hm]. injection Hm as <- <-. rewrite lookup_insert_eq. eauto.
  - intros [= <- <-]; cbn. split_and!; [done|intros _; rewrite lookup_insert_eq; eauto|].
    intros c' Hc' Hs. by destruct (Hc' Hs) as [m Hm].
Qed.

Lemma query_sound c r d d' a u :
  query_try_lock K c r d = (d', a, u) →
  sessions d' = sessions d ∧ (a = Some true → locked_by d' c) ∧ (∀ c', holds d c' → holds d' c').
Proof.
  unfold query_try_lock, locked_by. destruct (bool_decide_reflect (c ∈ sessions d)); [|by intros [= <- <- <-]].
  destruct (pg_try_advisory_lock K c d) as [d1 b] eqn:E. destruct (try_lock_sound _ _ _ _ E) as (Hs & Hb & Hf).
  destruct r as [| |[]]; intros [= <- <- <-]; split_and!; try done.
  intros [= ->]. rewrite Hs. auto.
Qed.

Lemma filter_keeps c c' (m : gmap Z (Conn * nat)) n :
  c' ≠ c → m !! K = Some (c', n) → filter (not_of c) m !! K = Some (c', n).
Proof. intros Hne Hm. apply map_lookup_filter_Some. split; [done|]. exact Hne. Qed.

Lemma session_end_holds c c' d : holds d c' → holds (session_end c d) c'.
Proof.
  unfold holds. cbn. intros H Hc'. destruct H as [n Hn]; [set_solver|]. exists n. apply filter_keeps; [set_solver|done].
Qed.

Lemma unlock_holds c c' r d d' u :
  exec_unlock_all c r d = (d', u) → c' ≠ c → holds d c' → holds d' c'.
Proof.
  unfold exec_unlock_all, holds. intros E Hne H. destruct (bool_decide_reflect (c ∈ sessions d)); [|by injection E as <- <-].
  destruct r as [| |[]]; injection E as <- <-; [|done| |done]; cbn; intros Hs; destruct (H Hs) as [n Hn];
    exists n; by apply filter_keeps.
Qed.

(** ** The invariant is kept *)

Lemma lead_ok_frame w w' l :
  lead_ok w l → next w ≤ next w' → (∀ c, owns l c → holds (pg w) c → holds (pg w') c) → lead_ok w' l.
Proof.
  intros [Hk Hl Hc Hp Hn] Hle Hf. split; [done|done| | |].
  - intros c Ec. destruct (Hc c Ec) as (? & ? & ?). split_and!; [|done|done]. apply Hf; [by left|done].
  - intros c a u Ep. destruct (Hp c a u Ep) as (? & ? & Ha). split_and!; [done|done|]. intros ->.
    apply Hf; [right; left; unfold pending_conn; by rewrite Ep|auto].
  - intros c Ho. specialize (Hn c Ho). lia.
Qed.

(** A step of one replica: it keeps its own part, owns what it did or what is new, and
    keeps the locks of the others. *)
Lemma ok_proc w i l' w' :
  ok w → procs w' = <[i := l']> (procs w) → next w ≤ next w' → lead_ok w' l' →
  (∀ c, owns l' c → (∃ l, procs w !! i = Some l ∧ owns l c) ∨ next w ≤ c) →
  (∀ c, (∀ l, procs w !! i = Some l → ¬ owns l c) → c < next w → holds (pg w) c → holds (pg w') c) →
  ok w'.
Proof.
  intros [Hok Huniq] Hp Hn Hl' Hown Hf. split.
  - intros j m. rewrite Hp. destruct (decide (i = j)) as [<-|Hne].
    + rewrite lookup_insert_eq. by intros [= <-].
    + rewrite lookup_insert_ne by done. intros Hm. apply (lead_ok_frame w); [eauto|done|].
      intros c Hc. apply Hf; [|by apply (ok_known _ _ (Hok j m Hm))]. intros l Hl Ho.
      apply Hne. by apply (Huniq i j l m c).
  - assert (∀ j m c, i ≠ j → procs w !! j = Some m → owns m c → owns l' c → False) as Hsep.
    { intros j m c Hne Hm Hc Hc'. destruct (Hown c Hc') as [(l & Hl & Ho)|Hge].
      - by apply Hne, (Huniq i j l m c).
      - pose proof (ok_known _ _ (Hok j m Hm) c Hc). lia. }
    intros j k m n c. rewrite Hp.
    destruct (decide (i = j)) as [<-|Hj], (decide (i = k)) as [<-|Hk];
      rewrite ?lookup_insert_eq, ?lookup_insert_ne by done; [done| | |by apply Huniq].
    + intros [= <-] Hn' Hc Hc'. exfalso. by eapply Hsep.
    + intros Hm [= <-] Hc Hc'. exfalso. by eapply Hsep.
Qed.

Lemma holds_fresh d c c' : c' ≠ c → holds d c' → holds (mkPG ({[c]} ∪ sessions d) (locks d)) c'.
Proof. unfold holds. cbn. intros Hne H Hs. apply H. set_solver. Qed.

Lemma ok_acquire_ask i g r l w :
  ok w → procs w !! i = Some l → pending l = None → conn l = None → ok (acquire_ask i g r l w).
Proof.
  intros Hok Hl Hp Hc. destruct (proj1 Hok i l Hl) as [Hk Hlead _ _ Hn]. unfold acquire_ask.
  destruct (dial g l w) as [[[c l1] w1]|] eqn:Ed; [|done].
  assert (cfg l1 = cfg l ∧ isLeader l1 = isLeader l ∧ conn l1 = None ∧ c ∉ idle l1 ∧ procs w1 = procs w ∧
    next w ≤ next w1 ∧ c < next w1 ∧ (∀ x, x ∈ idle l1 → x ∈ idle l) ∧ (owns l c ∨ next w ≤ c) ∧
    (∀ x, x < next w → holds (pg w) x → holds (pg w1) x)) as (Hcf & Hil & Hco & Hci & Hpr & Hnx & Hcn & Hsub & Hown & Hh).
  { destruct g as [|c'|]; cbn in Ed; [done| |].
    - destruct (bool_decide_reflect (c' ∈ idle l)) as [Hin|]; [|done]. injection Ed as <- <- <-; cbn.
      split_and!; try done; [set_solver|apply Hn; by right; right|set_solver|left; by right; right].
    - injection Ed as <- <- <-; cbn. split_and!; try done; try lia; [|intros x Hx; apply holds_fresh; lia].
      intros Hin. assert (next w < next w); [|lia]. apply Hn. by right; right. }
  rewrite Hcf, Hk. destruct (query_try_lock K c r (pg w1)) as [[d a] u] eqn:Eq.
  destruct (query_sound _ _ _ _ _ _ Eq) as (_ & Ha & Hf).
  assert (∀ x, owns (with_pending l1 (Some (Acquiring c a u))) x → x ∈ idle l ∨ x = c) as Ho.
  { intros x [H|[H|H]]; cbn in H; [congruence|injection H as <-; by right|left; auto]. }
  eapply ok_proc; [exact Hok|cbn; by rewrite Hpr|cbn; lia| | |].
  - split; cbn; [congruence|by rewrite Hil, Hco, Hlead, Hc|by rewrite Hco| |].
    + intros x a' u' [= <- <- <-]. split_and!; [done|done|]. intros ->. by apply locked_holds, Ha.
    + intros x [Hx| ->]%Ho; [|done]. assert (x < next w); [|lia]. apply Hn. by right; right.
  - intros x [Hx| ->]%Ho; [left; exists l; split; [done|by right; right]|].
    destruct Hown; [left; by exists l|by right].
  - intros x _ Hx Hhx. apply Hf. by apply Hh.
Qed.

Lemma ok_tick_ask i g r l w :
  ok w → procs w !! i = Some l → pending l = None → ok (tick_ask i g r w).
Proof.
  intros Hok Hl Hp. unfold tick_ask. rewrite Hl. destruct (conn l) as [c|] eqn:Ec; [|by apply ok_acquire_ask].
  destruct (proj1 Hok i l Hl) as [Hk Hlead Hcn _ Hn]. destruct (Hcn c Ec) as (Hh & Hci & _).
  rewrite Hk. destruct (query_try_lock K c r (pg w)) as [[d a] u] eqn:Eq.
  destruct (query_sound _ _ _ _ _ _ Eq) as (_ & _ & Hf).
  assert (∀ x, owns (with_pending l (Some (Reverifying a u))) x → owns l x) as Ho.
  { intros x [H|[H|H]]; cbn in H; [by left|done|by right; right]. }
  eapply ok_proc; [exact Hok|done|cbn; lia| | |].
  - split; cbn; [done|done| |done|by intros x Hx%Ho; apply Hn].
    intros x Ex. assert (x = c) as -> by congruence. split_and!; [by apply Hf|done|done].
  - intros x Hx. left. exists l. split; [done|auto].
  - intros x _ _. apply Hf.
Qed.

(** A step that only changes what one replica keeps, within what it owned. *)
Lemma ok_own w i l l' :
  ok w → procs w !! i = Some l → lead_ok w l' → (∀ c, owns l' c → owns l c) → ok (with_proc i l' w).
Proof.
  intros Hok Hl Hl' Ho. eapply ok_proc; [exact Hok|done|cbn; lia| | |done].
  - eapply lead_ok_frame; [exact Hl'|cbn; lia|done].
  - intros c Hc. left. exists l. split; [done|auto].
Qed.

(** A replica that gives its connection up keeps its pool; the others keep their locks. *)
Lemma ok_closed w i l l' c u w' :
  ok w → procs w !! i = Some l → cfg l' = cfg l → isLeader l' = false → conn l' = None → pending l' = None →
  idle l' ⊆ idle l → owns l c → procs w' = procs w → next w' = next w →
  (∀ x, x ≠ c → holds (pg w) x → holds (pg w') x) → ok (with_proc i (close_conn c u l') w').
Proof.
  intros Hok Hl Hcf Hi Hc Hp Hsub Hoc Hpr Hnx Hf. destruct (proj1 Hok i l Hl) as [Hk _ _ _ Hn].
  assert (∀ x, owns (close_conn c u l') x → owns l x) as Ho.
  { intros x [H|[H|H]]; cbn in H; [congruence|unfold pending_conn in H; cbn in H; by rewrite Hp in H|].
    destruct (decide (x = c)) as [->|]; [done|]. right; right. destruct u; set_solver. }
  eapply ok_proc; [exact Hok|cbn; by rewrite Hpr|cbn; lia| | |].
  - split; cbn; [by rewrite Hcf|rewrite Hi, Hc; split; [done|by intros []]|congruence|congruence|].
    intros x Hx%Ho. rewrite Hnx. auto.
  - intros x Hx. left. exists l. split; [done|auto].
  - intros x Hx _. apply Hf. intros ->. by apply (Hx l Hl).
Qed.

Lemma ok_leader_conn w l : lead_ok w l → conn l = None → isLeader l = false.
Proof. intros [_ Hi _ _ _] Hc. destruct (isLeader l); [|done]. destruct (proj1 Hi eq_refl). congruence. Qed.

Lemma ok_tick_apply i now w : ok w → ok (tick_apply i now w).
Proof.
  intros Hok. unfold tick_apply. destruct (procs w !! i) as [l|] eqn:Hl; [|done].
  destruct (proj1 Hok i l Hl) as [Hk Hlead Hcn Hpd Hn] eqn:Hlk.
  pose proof (ok_leader_conn _ _ (proj1 Hok i l Hl)) as Hfol. clear Hlk.
  destruct (pending l) as [[c a u|a u]|] eqn:Ep; [| |done].
  - destruct (Hpd c a u eq_refl) as (Hcnone & Hci & Ha).
    assert (owns l c) as Hoc by (right; left; unfold pending_conn; by rewrite Ep).
    assert (ok (with_proc i (close_conn c u (with_pending l None)) w)) as Hclose
      by (eapply ok_closed; eauto; done).
    destruct a as [[]|]; [|exact Hclose|exact Hclose]. eapply ok_own; try done.
    + split; cbn; [done|by split; intros|intros x [= <-]; split_and!; [auto|done|done]|done|].
      intros x [H|[H|H]]; cbn in H; [injection H as <-; auto|done|apply Hn; by right; right].
    + intros x [H|[H|H]]; cbn in H; [by injection H as <-|done|by right; right].
  - assert (∀ x, owns (with_pending l None) x → owns l x) as Ho.
    { intros x [H|[H|H]]; cbn in H; [by left|done|by right; right]. }
    assert (ok (with_proc i (demote u (with_pending l None)) w)) as Hdem.
    { unfold demote. cbn. destruct (conn l) as [c|] eqn:Ec.
      - eapply ok_closed; eauto; try done. by left.
      - eapply ok_own; try done.
        + split; cbn; [done|split; [done|by intros []]|done|done|].
          intros x [H|[H|H]]; cbn in H; [done|done|apply Hn; by right; right].
        + intros x [H|[H|H]]; cbn in H; [done|done|by right; right]. }
    destruct a as [[]|]; [|exact Hdem|exact Hdem]. eapply ok_own; try done.
    split; cbn; [done|done| |done|intros x Hx%Ho; auto].
    intros x Hx. destruct (Hcn x Hx) as (? & ? & _). by split_and!.
Qed.

Lemma ok_release i l r w :
  ok w → procs w !! i = Some l → pending l = None → ok (release i r w).
Proof.
  intros Hok Hl Hp. destruct (proj1 Hok i l Hl) as [Hk Hlead Hcn Hpd Hn]. unfold release. rewrite Hl.
  destruct (conn l) as [c|] eqn:Ec.
  - destruct (isLeader l) eqn:Ei.
    + destruct (exec_unlock_all c r (pg w)) as [d u] eqn:Eu.
      eapply ok_closed; eauto; try done; [by left|]. intros x Hx. by apply (unlock_holds c x r (pg w) d u).
    + eapply ok_closed; eauto; try done. by left.
  - eapply ok_own; try done.
    + split; cbn; [done|split; [done|by intros []]|done|by rewrite Hp|].
      intros x [H|[H|H]]; cbn in H; [done| |apply Hn; by right; right]. unfold pending_conn in H; cbn in H.
      by rewrite Hp in H.
    + intros x [H|[H|H]]; cbn in H; [done| |by right; right]. right; left. exact H.
Qed.

Lemma step_ok w w' : step w w' → ok w → ok w'.
Proof.
  intros [i c w1 Hi Hc|i l g r w1 Hl Hp|i now w1|i l r w1 Hl Hp|i w1|c w1] Hok.
  - eapply ok_proc; [exact Hok|done|cbn; lia| | |done].
    + split; cbn; [done|split; [done|by intros []]|done|done|by intros x [H|[H|H]]].
    + by intros x [H|[H|H]].
  - by eapply ok_tick_ask.
  - by apply ok_tick_apply.
  - by eapply ok_release.
  - destruct Hok as [Hok Hu]. split; cbn.
    + intros j m [_ Hm]%lookup_delete_Some. eapply lead_ok_frame; [by apply (Hok j)|cbn; lia|done].
    + intros j k m n x [_ Hm]%lookup_delete_Some [_ Hn]%lookup_delete_Some. by apply Hu.
  - destruct Hok as [Hok Hu]. split; [|exact Hu]. intros j m Hm.
    eapply lead_ok_frame; [by apply (Hok j)|cbn; lia|]. intros x _. apply session_end_holds.
Qed.

Lemma cluster_history_ok w w' : initial w → rtc step w w' → ok w'.
Proof.
  intros [Hp _] Hs. assert (ok w) as Hok by (split; intros *; by rewrite Hp, lookup_empty).
  clear Hp. induction Hs; [done|]. eauto using step_ok.
Qed.

(** ** What the election promises *)

(** Of two replicas that believe to lead, one has lost its session. *)
Definition exclusive (w : World) : Prop :=
  ∀ i j l m c d, procs w !! i = Some l → procs w !! j = Some m → IsLeader l = true → IsLeader m = true →
    conn l = Some c → conn m = Some d → c ∈ sessions (pg w) → d ∈ sessions (pg w) → i = j.

(** A replica that leads pins a connection; it holds the lock. *)
Definition leads (w : World) (i : string) : Prop :=
  ∃ l c, procs w !! i = Some l ∧ IsLeader l = true ∧ conn l = Some c ∧ locked_by (pg w) c.

Lemma ok_exclusive w : ok w → exclusive w.
Proof.
  intros [Hok Hu] i j l m c d Hl Hm _ _ Hc Hd Hlc Hld.
  apply (Hu i j l m c); [done|done|by left|]. left. rewrite Hd. f_equal. symmetry.
  destruct (ok_conn _ _ (Hok i l Hl) c Hc) as [H1 _], (ok_conn _ _ (Hok j m Hm) d Hd) as [H2 _].
  by apply (holds_unique (pg w)).
Qed.

(** A heartbeat, whatever happens to its statement: it leaves the replica following, or
    leading with the lock held. *)
Lemma tick_ok i g r now w l : ok w → procs w !! i = Some l → pending l = None → ok (tick i g r now w).
Proof. intros Hok Hl Hp. by apply ok_tick_apply, (ok_tick_ask i g r l). Qed.

Lemma tick_verifies i g r now w l :
  ok w → procs w !! i = Some l → pending l = None →
  ∃ l', procs (tick i g r now w) !! i = Some l' ∧ (IsLeader l' = true → leads (tick i g r now w) i).
Proof.
  intros Hok Hl Hp. pose proof (proj1 Hok i l Hl) as Hlk. pose proof (ok_leader_conn _ _ Hlk) as Hfol.
  destruct Hlk as [Hk _ _ _ _]. unfold tick, tick_ask. rewrite Hl. destruct (conn l) as [c|] eqn:Ec.
  - rewrite Hk. destruct (query_try_lock K c r (pg w)) as [[d a] u] eqn:Eq.
    destruct (query_sound _ _ _ _ _ _ Eq) as (_ & Ha & _). unfold tick_apply. cbn. rewrite lookup_insert_eq. cbn.
    assert (IsLeader (demote u (with_pending (with_pending l (Some (Reverifying a u))) None)) = false) as Hd
      by (unfold demote; cbn; by rewrite Ec).
    destruct a as [[]|]; cbn; rewrite lookup_insert_eq; eexists; (split; [done|]); [|by rewrite Hd|by rewrite Hd].
    intros Hi. eexists _, c. cbn. rewrite lookup_insert_eq. split_and!; [done|exact Hi|exact Ec|auto].
  - unfold acquire_ask. destruct (dial g l w) as [[[c l1] w1]|] eqn:Ed.
    + assert (cfg l1 = cfg l ∧ isLeader l1 = false) as [Hcf Hi1].
      { rewrite <- (Hfol eq_refl). destruct g as [|c'|]; cbn in Ed; [done| |by injection Ed as <- <- <-].
        destruct (bool_decide _); [|done]. by injection Ed as <- <- <-. }
      rewrite Hcf, Hk. destruct (query_try_lock K c r (pg w1)) as [[d a] u] eqn:Eq.
      destruct (query_sound _ _ _ _ _ _ Eq) as (_ & Ha & _). unfold tick_apply. cbn. rewrite lookup_insert_eq. cbn.
      rewrite lookup_insert_eq. eexists. split; [done|].
      destruct a as [[]|]; cbn; [|by rewrite Hi1|by rewrite Hi1].
      intros _. eexists _, c. cbn. rewrite lookup_insert_eq. split_and!; try done. auto.
    + unfold tick_apply. rewrite Hl, Hp. exists l. split; [done|]. unfold IsLeader. by rewrite (Hfol eq_refl).
Qed.

(** It leaves the other replicas alone, and the locks of other sessions. *)
Lemma tick_frame j g r now w m :
  ok w → procs w !! j = Some m →
  (∀ c, locked_by (pg w) c → locked_by (pg (tick j g r now w)) c) ∧
  (∀ i, i ≠ j → procs (tick j g r now w) !! i = procs w !! i).
Proof.
  intros Hok Hm. destruct (proj1 Hok j m Hm) as [Hk _ _ _ _].
  assert (∀ w1, pg (tick_apply j now w1) = pg w1 ∧ ∀ i, i ≠ j → procs (tick_apply j now w1) !! i = procs w1 !! i) as Ha.
  { intros w1. unfold tick_apply. destruct (procs w1 !! j) as [l|]; [|done].
    destruct (pending l) as [[c a u|[[]|] u]|]; split; try done; intros i Hi; cbn; by rewrite lookup_insert_ne. }
  destruct (Ha (tick_ask j g r w)) as [Hpg Hpr]. unfold tick. rewrite Hpg.
  assert ((∀ c, locked_by (pg w) c → locked_by (pg (tick_ask j g r w)) c) ∧
    (∀ i, i ≠ j → procs (tick_ask j g r w) !! i = procs w !! i)) as [H1 H2];
    [|split; [done|intros i Hi; rewrite Hpr by done; auto]].
  clear Ha Hpg Hpr. unfold tick_ask. rewrite Hm. destruct (conn m) as [c|] eqn:Ec.
  - rewrite Hk. destruct (query_try_lock K c r (pg w)) as [[d a] u] eqn:Eq.
    destruct (query_sound _ _ _ _ _ _ Eq) as (Hs & _ & Hf). split.
    + intros x [Hx Hlx]. cbn. split; [by rewrite Hs|]. apply Hf; [by intros _|by rewrite Hs].
    + intros i Hi. cbn. by rewrite lookup_insert_ne.
  - unfold acquire_ask. destruct (dial g m w) as [[[c l1] w1]|] eqn:Ed; [|done].
    assert (cfg l1 = cfg m ∧ procs w1 = procs w ∧ locks (pg w1) = locks (pg w) ∧ sessions (pg w) ⊆ sessions (pg w1))
      as (Hcf & Hpr & Hlo & Hsub).
    { destruct g as [|c'|]; cbn in Ed; [done| |].
      - destruct (bool_decide _); [|done]. by injection Ed as <- <- <-.
      - injection Ed as <- <- <-. cbn. split_and!; try done. set_solver. }
    rewrite Hcf, Hk. destruct (query_try_lock K c r (pg w1)) as [[d a] u] eqn:Eq.
    destruct (query_sound _ _ _ _ _ _ Eq) as (Hs & _ & Hf). split.
    + intros x [Hx Hlx]. cbn. rewrite <- Hlo in Hlx. split; [rewrite Hs; set_solver|].
      apply Hf; [by intros _|rewrite Hs; set_solver].
    + intros i Hi. cbn. by rewrite lookup_insert_ne, Hpr.
Qed.

(** C31: of two replicas that believe to lead, one has lost its session, and a
    heartbeat leaves a replica leading only if it holds the lock, under any
    interleaving of replicas, broken connections and ended sessions. *)
Theorem leadership_is_exclusive w0 w :
  initial w0 → rtc step w0 w →
  exclusive w ∧
  ∀ i l g r now, procs w !! i = Some l → pending l = None →
    ∃ l', procs (tick i g r now w) !! i = Some l' ∧ (IsLeader l' = true → leads (tick i g r now w) i).
Proof.
  intros H0 Hs. pose proof (cluster_history_ok _ _ H0 Hs) as Hok. split; [by apply ok_exclusive|].
  intros i l g r now Hl Hp. by eapply tick_verifies.
Qed.

(** When the session that holds the lock ends, the next answered heartbeat of any
    follower makes it the leader. *)
Lemma lost_lock_is_taken_over w0 w c n i l now :
  initial w0 → rtc step w0 w → locks (pg w) !! K = Some (c, n) →
  procs w !! i = Some l → conn l = None → pending l = None →
  let w' := tick i Fresh Answered now (with_pg (session_end c (pg w)) w) in
  leads w' i ∧ ∃ l', procs w' !! i = Some l' ∧ Since l' = now.
Proof.
  intros H0 Hs Hlock Hl Hc Hp. cbv zeta. pose proof (cluster_history_ok _ _ H0 Hs) as Hok.
  destruct (proj1 Hok i l Hl) as [Hk _ _ _ _].
  assert (filter (not_of c) (locks (pg w)) !! K = None) as Hfree.
  { apply map_lookup_filter_None. right. intros x Hx. assert (x = (c, n)) as -> by congruence. intros Hn. by apply Hn. }
  unfold tick, tick_ask, acquire_ask, dial. cbn. rewrite Hl, Hc. unfold query_try_lock. cbn.
  rewrite bool_decide_eq_true_2 by set_solver. unfold pg_try_advisory_lock. cbn. rewrite Hk, Hfree.
  unfold tick_apply. cbn. rewrite lookup_insert_eq. cbn. split.
  - eexists _, _. cbn. rewrite lookup_insert_eq.
    split; [done|]. split; [done|]. split; [done|]. split; cbn; [set_solver|]. exists 1%nat. by rewrite lookup_insert_eq.
  - rewrite lookup_insert_eq. by eexists.
Qed.

(** A reverification that fails on a live connection demotes the leader and hands the
    connection back to its pool with the lock still taken: no other replica can lead
    until that session ends. *)
Lemma failed_reverification_leaks_lock w i j l m c g g' r now now' :
  ok w → procs w !! i = Some l → pending l = None → conn l = Some c → locked_by (pg w) c →
  i ≠ j → procs w !! j = Some m → pending m = None →
  let w1 := tick i g Failed now w in
  ¬ leads w1 i ∧ locked_by (pg w1) c ∧ ¬ leads (tick j g' r now' w1) j.
Proof.
  intros Hok Hl Hp Hc [Hcs Hlock] Hij Hm Hpm. cbv zeta.
  assert (tick i g Failed now w = with_proc i (close_conn c true (without_conn (with_pending l None)))
            (with_proc i (with_pending l (Some (Reverifying None true))) (with_pg (pg w) w))) as Hw.
  { unfold tick, tick_ask. rewrite Hl, Hc. unfold query_try_lock. rewrite bool_decide_eq_true_2 by done.
    unfold tick_apply. cbn. rewrite lookup_insert_eq. cbn. unfold demote. cbn. by rewrite Hc. }
  pose proof (tick_ok i g Failed now w l Hok Hl Hp) as Hok1. rewrite Hw in Hok1 |- *.
  set (w1 := with_proc _ _ _) in *. assert (locked_by (pg w1) c) as Hlk1 by done.
  assert (procs w1 !! j = Some m) as Hm1 by (cbn; by rewrite !lookup_insert_ne).
  split; [|split; [done|]].
  - intros (l' & c' & Hl' & Hi' & _). cbn in Hl'. rewrite lookup_insert_eq in Hl'. by injection Hl' as <-.
  - pose proof (tick_ok j g' r now' w1 m Hok1 Hm1 Hpm) as Hok2.
    destruct (tick_frame j g' r now' w1 m Hok1 Hm1) as [Hlk2 Hpr2]. destruct (Hlk2 c Hlk1) as [_ [k2 Hk2]].
    intros (m' & d & Hm' & _ & Hd & _ & k & Hk). rewrite Hk2 in Hk. injection Hk as -> ->.
    apply Hij. eapply (proj2 Hok2 i j _ m' d); [rewrite Hpr2 by done; cbn; by rewrite lookup_insert_eq|done| |by left].
    right; right. cbn. set_solver.
Qed.

End election.
(** ** A concrete run *)

Definition empty_world : World := mkWorld (mkPG ∅ ∅) ∅ 1.
Definition demo_cfg (i : string) : LeadershipConfig := withDefaults (Some "host") "uuid" (mkConfig 0 0 i).
(** Two replicas start and the first one takes the lock. *)
Definition demo_started : World :=
  with_proc "b" (NewLeadership (demo_cfg "b")) (with_proc "a" (NewLeadership (demo_cfg "a")) empty_world).
Definition demo_world : World := tick_apply "a" 5 (tick_ask "a" Fresh Answered demo_started).

Lemma demo_initial : initial empty_world.
Proof. done. Qed.

Lemma demo_history : rtc (step DefaultLeaderLockKey) empty_world demo_world.
Proof.
  eapply rtc_l; [by apply (Starts _ "a" (demo_cfg "a"))|].
  eapply rtc_l; [by apply (Starts _ "b" (demo_cfg "b"))|].
  eapply rtc_l; [by apply (Asks _ "a" (NewLeadership (demo_cfg "a")) Fresh Answered)|].
  eapply rtc_l; [by apply (Applies _ "a" 5)|]. apply rtc_refl.
Qed.

Lemma leadership_is_exclusive_witness :
  exclusive demo_world ∧ leads DefaultLeaderLockKey (tick "a" NoConn Answered 9 demo_world) "a".
Proof.
  destruct (leadership_is_exclusive DefaultLeaderLockKey empty_world demo_world demo_initial demo_history) as [He Ht].
  split; [exact He|].
  destruct (Ht "a" (mkLead (demo_cfg "a") true 5 (Some 1) None ∅) NoConn Answered 9) as (l' & Hl' & Hlead);
    [vm_compute; reflexivity|reflexivity|].
  apply Hlead. assert (Some l' = Some (mkLead (demo_cfg "a") true 5 (Some 1) None ∅)) as Heq
    by (rewrite <- Hl'; vm_compute; reflexivity).
  injection Heq as ->. reflexivity.
Defined.

Lemma lost_lock_is_taken_over_witness :
  leads DefaultLeaderLockKey (tick "b" Fresh Answered 9 (with_pg (session_end 1 (pg demo_world)) demo_world)) "b".
Proof.
  refine (proj1 (lost_lock_is_taken_over DefaultLeaderLockKey empty_world demo_world 1 1 "b"
    (NewLeadership (demo_cfg "b")) 9 demo_initial demo_history _ _ eq_refl eq_refl)); vm_compute; reflexivity.
Defined.

End Leadership.
