(* ===== verification/AuthLockout.v ===== *)
(** * Authentication lockout (middleware/authlockout.go, authguard.go)

    The progressive backoff, its two trackers, one in memory and one in Redis, behind
    one interface with laws, and the guard that puts them in front of the challenge
    and verify routes. The laws count a key's live failures and say how long it stays
    locked, up to the granularity of the tracker's clock; both trackers satisfy them
    and the guard is proved against them. *)
From S2P Require Import Prelude.
From S2P Require Import Idempotency.

Module AuthLockout.

Record AuthLockoutConfig := mkLockoutConfig {
  Threshold : Z;
  Window : Duration;
  Base : Duration;
  Max : Duration;
}.

(** The doubling, [n] rounds of it, with the early exit at [Max]. *)
Fixpoint lockoutFor_loop (n : nat) (c : AuthLockoutConfig) (lockout : Duration) : Duration :=
  match n with
  | O => if Max c <? lockout then Max c else lockout
  | S n => if Max c <=? lockout then Max c else lockoutFor_loop n c (i64 (lockout * 2))
  end.

Definition lockoutFor (c : AuthLockoutConfig) (failures : Z) : Duration :=
  if failures <=? Threshold c then 0
  else lockoutFor_loop (Z.to_nat (i64 (failures - Threshold c - 1))) c (Base c).

(** ** The interface *)

(** [Locked] also gets the second clock reading of [time.Until]. *)
Class AuthLockout (St : Type) := {
  Locked : string → Time → Time → St → bool * Duration;
  RecordFailure : AuthLockoutConfig → string → Time → St → St * (Duration * bool);
  Reset : string → St → St;
}.

(** [fails key t st] are the failures that count at [t]. The laws hold while the
    tracker's store answers. *)
Class AuthLockoutLaws (St : Type) `{!AuthLockout St} := {
  grain : Duration;
  grain_nonneg : 0 ≤ grain;
  healthy : St → Prop;
  fails : string → Time → St → Z;
  record_healthy cfg k now st : healthy st → healthy (fst (RecordFailure cfg k now st));
  reset_healthy k st : healthy st → healthy (Reset k st);
  record_counts cfg k now t st : healthy st → 0 ≤ now → now ≤ t ≤ now + Window cfg - grain →
    fails k t (fst (RecordFailure cfg k now st)) = fails k now st + 1;
  record_locks cfg k now t u st : healthy st → 0 ≤ now → 0 < lockoutFor cfg (fails k now st + 1) →
    now ≤ t < now + lockoutFor cfg (fails k now st + 1) - grain →
    fst (Locked k t u (fst (RecordFailure cfg k now st))) = true;
  record_tolerates cfg k now t u st : healthy st → 0 ≤ now ≤ t → lockoutFor cfg (fails k now st + 1) ≤ 0 →
    fst (Locked k now u st) = false → fst (Locked k t u (fst (RecordFailure cfg k now st))) = false;
  record_others cfg k k' now t u st : k ≠ k' → healthy st → 0 ≤ now ≤ t →
    fails k' t (fst (RecordFailure cfg k now st)) = fails k' t st ∧
    fst (Locked k' t u (fst (RecordFailure cfg k now st))) = fst (Locked k' t u st);
  reset_clears k t u st : healthy st → 0 ≤ t → fails k t (Reset k st) = 0 ∧ fst (Locked k t u (Reset k st)) = false;
  reset_others k k' t u st : k ≠ k' → healthy st →
    fails k' t (Reset k st) = fails k' t st ∧ fst (Locked k' t u (Reset k st)) = fst (Locked k' t u st);
}.

(** ** In memory *)

Record memoryAuthEntry := mkEntry { failures : Z; failuresEnd : Time; lockedUntil : Time }.
Abbreviation memoryAuthLockout := (gmap string memoryAuthEntry) (only parsing).

Definition Memory_Locked (key : string) (now until_now : Time) (l : memoryAuthLockout) : bool * Duration :=
  match l !! key with
  | None => (false, 0)
  | Some entry =>
      if time_after (lockedUntil entry) now then (true, time_sub (lockedUntil entry) until_now) else (false, 0)
  end.

Definition unexpired (now : Time) (x : string * memoryAuthEntry) : Prop :=
  ¬ (time_after now (failuresEnd (snd x)) ∧ time_after now (lockedUntil (snd x))).
#[global] Instance unexpired_dec now x : Decision (unexpired now x).
Proof. unfold unexpired. apply _. Defined.

Definition evictExpiredLocked (now : Time) (l : memoryAuthLockout) : memoryAuthLockout :=
  filter (unexpired now) l.

Definition Memory_RecordFailure (cfg : AuthLockoutConfig) (key : string) (now : Time) (l : memoryAuthLockout)
  : memoryAuthLockout * (Duration * bool) :=
  let l := evictExpiredLocked now l in
  let fresh := mkEntry 0 0 0 in
  let entry := match l !! key with
               | None => fresh
               | Some e => if time_after now (failuresEnd e) then fresh else e
               end in
  let n := failures entry + 1 in
  let lockout := lockoutFor cfg n in
  if lockout <=? 0 then (<[key := mkEntry n (time_add now (Window cfg)) (lockedUntil entry)]> l, (0, false))
  else (<[key := mkEntry n (time_add now (Window cfg)) (time_add now lockout)]> l,
        (lockout, negb (time_after (lockedUntil entry) now))).

Definition Memory_Reset (key : string) (l : memoryAuthLockout) : memoryAuthLockout := delete key l.

#[global] Instance Memory_AuthLockout : AuthLockout memoryAuthLockout :=
  { Locked := Memory_Locked; RecordFailure := Memory_RecordFailure; Reset := Memory_Reset }.

(** ** In Redis *)

(** Counters and locks with their expiry, in milliseconds of the server's clock, under
    their full keys; [outages] says which of the next commands fail. *)
Record redisAuthLockout := mkRedis {
  prefix : string;
  counters : gmap string (Z * Z);
  locks : gmap string Z;
  outages : list bool;
}.

Definition failKey (l : redisAuthLockout) (key : string) : string := ("authfail:" +:+ prefix l +:+ ":" +:+ key)%string.
Definition lockKey (l : redisAuthLockout) (key : string) : string := ("authlock:" +:+ prefix l +:+ ":" +:+ key)%string.

Definition redis_ms (now : Time) : Z := now / Millisecond.

(** Whether the next command fails, and the rest. *)
Definition call (l : redisAuthLockout) : bool * redisAuthLockout :=
  match outages l with
  | [] => (false, l)
  | b :: rest => (b, mkRedis (prefix l) (counters l) (locks l) rest)
  end.

Definition with_counters (l : redisAuthLockout) (c : gmap string (Z * Z)) : redisAuthLockout :=
  mkRedis (prefix l) c (locks l) (outages l).
Definition with_locks (l : redisAuthLockout) (c : gmap string Z) : redisAuthLockout :=
  mkRedis (prefix l) (counters l) c (outages l).

(** The counter a key has at [ms]; an expired key is absent. *)
Definition live_count (k : string) (ms : Z) (l : redisAuthLockout) : Z :=
  match counters l !! k with Some (n, e) => if ms <=? e then n else 0 | None => 0 end.

(** [PTTL] in milliseconds; [-2] without a key. *)
Definition PTTL (k : string) (ms : Z) (l : redisAuthLockout) : Z :=
  match locks l !! k with Some e => if ms <=? e then e - ms else -2 | None => -2 end.

Definition Redis_Locked (key : string) (now _until_now : Time) (l : redisAuthLockout) : bool * Duration :=
  let '(down, l) := call l in
  if down then (false, 0)
  else let ttl := PTTL (lockKey l key) (redis_ms now) l in
       if ttl <=? 0 then (false, 0) else (true, ttl * Millisecond).

(** [authFailureScript]: increment and expiry in one step. *)
Definition authFailureScript (k : string) (window_ms ms : Z) (l : redisAuthLockout) : redisAuthLockout * Z :=
  let n := live_count k ms l + 1 in
  (with_counters l (if window_ms <=? 0 then delete k (counters l) else <[k := (n, ms + window_ms)]> (counters l)), n).

(** The client sends a duration below a millisecond as one millisecond. *)
Definition expiry_ms (d : Duration) : Z := Z.max 1 (milliseconds d).

Definition Redis_RecordFailure (cfg : AuthLockoutConfig) (key : string) (now : Time) (l : redisAuthLockout)
  : redisAuthLockout * (Duration * bool) :=
  let '(down, l) := call l in
  if down then (l, (0, false))
  else
    let '(l, n) := authFailureScript (failKey l key) (milliseconds (Window cfg)) (redis_ms now) l in
    let lockout := lockoutFor cfg n in
    if lockout <=? 0 then (l, (0, false))
    else
      let '(down, l) := call l in
      if down then (l, (lockout, false))
      else
        let e := redis_ms now + expiry_ms lockout in
        if PTTL (lockKey l key) (redis_ms now) l <? 0 then (with_locks l (<[lockKey l key := e]> (locks l)), (lockout, true))
        else
          let '(down, l) := call l in
          if down then (l, (lockout, false))
          else (with_locks l (<[lockKey l key := e]> (locks l)), (lockout, false)).

Definition Redis_Reset (key : string) (l : redisAuthLockout) : redisAuthLockout :=
  let '(down, l) := call l in
  if down then l
  else with_locks (with_counters l (delete (failKey l key) (counters l))) (delete (lockKey l key) (locks l)).

#[global] Instance Redis_AuthLockout : AuthLockout redisAuthLockout :=
  { Locked := Redis_Locked; RecordFailure := Redis_RecordFailure; Reset := Redis_Reset }.

(** ** The backoff *)

Lemma lockoutFor_loop_capped c n lockout : Max c < lockout → lockoutFor_loop n c lockout = Max c.
Proof.
  intros Hm. destruct n; cbn [lockoutFor_loop];
    [destruct (Z.ltb_spec (Max c) lockout)|destruct (Z.leb_spec (Max c) lockout)]; lia.
Qed.

Lemma lockoutFor_loop_exact c n lockout :
  0 < lockout → lockout ≤ 2 ^ 62 → Max c ≤ 2 ^ 62 →
  lockoutFor_loop n c lockout = Z.min (Max c) (lockout * 2 ^ Z.of_nat n).
Proof.
  revert lockout. induction n as [|n IH]; intros lockout Hl Hb Hm; cbn [lockoutFor_loop].
  - replace (2 ^ Z.of_nat 0) with 1 by done. destruct (Z.ltb_spec (Max c) lockout); lia.
  - rewrite Nat2Z.inj_succ, Z.pow_succ_r by lia. assert (0 < 2 ^ Z.of_nat n) by (apply Z.pow_pos_nonneg; lia).
    destruct (Z.leb_spec (Max c) lockout); [nia|].
    rewrite i64_id by (unfold in_i64, min_i64, max_i64; lia). destruct (Z.le_gt_cases (lockout * 2) (2 ^ 62)).
    + rewrite IH by lia. f_equal. lia.
    + rewrite lockoutFor_loop_capped by lia. nia.
Qed.

(** The backoff is zero up to the threshold, then the base doubled for every further
    failure and capped, for any count. *)
Lemma lockoutFor_exact c n :
  0 < Base c → Base c ≤ 2 ^ 62 → Max c ≤ 2 ^ 62 → 0 ≤ Threshold c → n ≤ max_i64 →
  lockoutFor c n = if n <=? Threshold c then 0 else Z.min (Max c) (Base c * 2 ^ (n - Threshold c - 1)).
Proof.
  intros Hb Hb' Hm Ht Hn. unfold lockoutFor. destruct (Z.leb_spec n (Threshold c)); [done|].
  rewrite lockoutFor_loop_exact by done. rewrite i64_id by (unfold in_i64, min_i64, max_i64 in *; lia).
  by rewrite Z2Nat.id by lia.
Qed.

Arguments lockoutFor : simpl never.

(** ** The tracker in memory *)

Definition memory_fails (key : string) (t : Time) (l : memoryAuthLockout) : Z :=
  match l !! key with Some e => if time_after t (failuresEnd e) then 0 else failures e | None => 0 end.

Lemma evict_lookup now (l : memoryAuthLockout) k :
  evictExpiredLocked now l !! k = match l !! k with
    | Some e => if time_after now (failuresEnd e) && time_after now (lockedUntil e) then None else Some e
    | None => None
    end.
Proof.
  unfold evictExpiredLocked. destruct (l !! k) as [e|] eqn:E.
  - destruct (_ && _) eqn:Eb.
    + apply map_lookup_filter_None. right. intros x Hx. assert (x = e) as -> by congruence. unfold unexpired. cbn.
      apply andb_true_iff in Eb as [-> ->]. naive_solver.
    + apply map_lookup_filter_Some. split; [done|]. unfold unexpired. cbn. intros [H1 H2].
      apply Is_true_true in H1, H2. by rewrite H1, H2 in Eb.
  - apply map_lookup_filter_None. by left.
Qed.

(** What a recorded failure stores. *)
Lemma memory_record cfg k now (l : memoryAuthLockout) :
  ∃ u, fst (Memory_RecordFailure cfg k now l) =
    <[k := mkEntry (memory_fails k now l + 1) (now + Window cfg)
            (if lockoutFor cfg (memory_fails k now l + 1) <=? 0 then u else now + lockoutFor cfg (memory_fails k now l + 1))]>
      (evictExpiredLocked now l) ∧
    (u = 0 ∨ ∃ e, l !! k = Some e ∧ u = lockedUntil e).
Proof.
  unfold Memory_RecordFailure, memory_fails. rewrite evict_lookup. destruct (l !! k) as [e|] eqn:E.
  - destruct (time_after now (failuresEnd e)) eqn:Ef.
    + cbn [andb]. exists 0. split; [|by left].
      destruct (time_after now (lockedUntil e)); rewrite ?Ef; cbn; by destruct (_ <=? 0).
    + cbn [andb]. rewrite Ef. exists (lockedUntil e). split; [|right; eauto]. cbn. by destruct (_ <=? 0).
  - exists 0. split; [|by left]. cbn. by destruct (_ <=? 0).
Qed.

Lemma memory_others cfg k k' now t u (l : memoryAuthLockout) :
  k ≠ k' → now ≤ t →
  memory_fails k' t (fst (Memory_RecordFailure cfg k now l)) = memory_fails k' t l ∧
  fst (Memory_Locked k' t u (fst (Memory_RecordFailure cfg k now l))) = fst (Memory_Locked k' t u l).
Proof.
  intros Hne Ht. destruct (memory_record cfg k now l) as (x & -> & _). unfold memory_fails, Memory_Locked.
  rewrite lookup_insert_ne, evict_lookup by done. destruct (l !! k') as [e|]; [|done].
  unfold time_after. destruct (Z.ltb_spec (failuresEnd e) now), (Z.ltb_spec (lockedUntil e) now); cbn; try done.
  destruct (Z.ltb_spec (failuresEnd e) t), (Z.ltb_spec t (lockedUntil e)); try lia. done.
Qed.

#[global, refine] Instance Memory_AuthLockoutLaws : AuthLockoutLaws memoryAuthLockout :=
  { grain := 0; healthy := λ _, True; fails := memory_fails }.
Proof.
  - done.
  - done.
  - done.
  - intros cfg k now t st _ H0 Ht. cbn. destruct (memory_record cfg k now st) as (x & -> & _).
    unfold memory_fails at 1. rewrite lookup_insert_eq. cbn. unfold time_after.
    destruct (Z.ltb_spec (now + Window cfg) t); [lia|done].
  - intros cfg k now t u st _ H0 Hl Ht. cbn in *. destruct (memory_record cfg k now st) as (x & -> & _).
    unfold Memory_Locked. rewrite lookup_insert_eq. cbn. destruct (Z.leb_spec (lockoutFor cfg (memory_fails k now st + 1)) 0); [lia|].
    unfold time_after. destruct (Z.ltb_spec t (now + lockoutFor cfg (memory_fails k now st + 1))); [done|lia].
  - intros cfg k now t u st _ [H0 Ht] Hl Hu. cbn in *. destruct (memory_record cfg k now st) as (x & -> & Hx).
    unfold Memory_Locked. rewrite lookup_insert_eq. cbn. destruct (Z.leb_spec (lockoutFor cfg (memory_fails k now st + 1)) 0); [|lia].
    assert (x ≤ t) as Hxt; [|unfold time_after; destruct (Z.ltb_spec t x); [lia|done]].
    destruct Hx as [->|(e & He & ->)]; [lia|]. unfold Memory_Locked in Hu. rewrite He in Hu. unfold time_after in Hu.
    destruct (Z.ltb_spec now (lockedUntil e)); [done|lia].
  - intros cfg k k' now t u st Hne _ [_ Ht]. by apply memory_others.
  - intros k t u st _ _. cbn. unfold memory_fails, Memory_Locked, Memory_Reset. by rewrite lookup_delete_eq.
  - intros k k' t u st Hne _. cbn. unfold memory_fails, Memory_Locked, Memory_Reset. by rewrite lookup_delete_ne.
Defined.

(** ** The tracker in Redis *)

Definition redis_fails (key : string) (t : Time) (l : redisAuthLockout) : Z :=
  live_count (failKey l key) (redis_ms t) l.

(** A millisecond is lost at each end of an interval. *)
Definition redis_grain : Duration := 2 * Millisecond.

#[global] Instance append_inj s : Inj (=) (=) (String.append s).
Proof. intros a b. induction s as [|c s IH]; cbn; [done|]. intros [= H]. auto. Qed.

Lemma redis_keys l k k' : k ≠ k' → failKey l k ≠ failKey l k' ∧ lockKey l k ≠ lockKey l k'.
Proof. intros Hne. split; intros H; apply Hne; by repeat apply (inj (String.append _)) in H. Qed.

Lemma redis_ms_mono t u : t ≤ u → redis_ms t ≤ redis_ms u.
Proof. intros. unfold redis_ms. apply Z.div_le_mono; [done|lia]. Qed.

(** What a recorded failure stores when Redis answers. *)
Lemma redis_record cfg k now l :
  outages l = [] →
  let n := redis_fails k now l + 1 in
  let l' := fst (Redis_RecordFailure cfg k now l) in
  prefix l' = prefix l ∧ outages l' = [] ∧
  counters l' = (if milliseconds (Window cfg) <=? 0 then delete (failKey l k) (counters l)
                 else <[failKey l k := (n, redis_ms now + milliseconds (Window cfg))]> (counters l)) ∧
  locks l' = (if lockoutFor cfg n <=? 0 then locks l
              else <[lockKey l k := redis_ms now + expiry_ms (lockoutFor cfg n)]> (locks l)).
Proof.
  intros Ho. cbv zeta. destruct l as [p cs ls os]. cbn in Ho. subst os. unfold Redis_RecordFailure, redis_fails. cbn.
  set (n := live_count _ _ _ + 1). destruct (lockoutFor cfg n <=? 0); [by split_and!|]. cbn.
  destruct (_ <? 0); by split_and!.
Qed.

Lemma expiry_late now d t : 0 < d → now ≤ t < now + d - redis_grain → redis_ms t < redis_ms now + expiry_ms d.
Proof.
  unfold redis_ms, expiry_ms, redis_grain, milliseconds, Millisecond. intros Hd Ht.
  rewrite Z.quot_div_nonneg by lia. pose proof (Z.div_mod now 1000000). pose proof (Z.div_mod d 1000000).
  pose proof (Z.div_mod t 1000000). pose proof (Z.mod_pos_bound now 1000000). pose proof (Z.mod_pos_bound d 1000000).
  pose proof (Z.mod_pos_bound t 1000000). lia.
Qed.

Lemma PTTL_locked k t u l : outages l = [] →
  fst (Redis_Locked k t u l) = true ↔ ∃ e, locks l !! lockKey l k = Some e ∧ redis_ms t < e.
Proof.
  intros Ho. unfold Redis_Locked, call. rewrite Ho. unfold PTTL. destruct (locks l !! lockKey l k) as [e|].
  - destruct (Z.leb_spec (redis_ms t) e); cbn.
    + destruct (Z.leb_spec (e - redis_ms t) 0); cbn; split; try done; [intros (? & [= <-] & ?); lia|intros _; exists e; split; [done|lia]].
    + split; [done|]. intros (? & [= <-] & ?). lia.
  - cbn. split; [done|]. by intros (? & ? & ?).
Qed.

#[global, refine] Instance Redis_AuthLockoutLaws : AuthLockoutLaws redisAuthLockout :=
  { grain := redis_grain; healthy := λ l, outages l = []; fails := redis_fails }.
Proof.
  - done.
  - intros cfg k now st Ho. by apply redis_record.
  - intros k st Ho. cbn. unfold Redis_Reset, call. by rewrite Ho.
  - intros cfg k now t st Ho H0 Ht. cbn. destruct (redis_record cfg k now st Ho) as (Hp & _ & Hc & _).
    unfold redis_fails at 1, live_count, failKey. rewrite Hp, Hc. fold (failKey st k).
    unfold redis_grain, Millisecond in Ht. assert (0 < milliseconds (Window cfg)) as Hw.
    { unfold milliseconds, Millisecond. rewrite Z.quot_div_nonneg by lia. apply Z.div_str_pos. lia. }
    destruct (Z.leb_spec (milliseconds (Window cfg)) 0); [lia|]. rewrite lookup_insert_eq.
    destruct (Z.leb_spec (redis_ms t) (redis_ms now + milliseconds (Window cfg))) as [|Hgt]; [done|exfalso; revert Hgt].
    unfold redis_ms, milliseconds, Millisecond. rewrite Z.quot_div_nonneg by lia.
    pose proof (Z.div_mod now 1000000). pose proof (Z.div_mod (Window cfg) 1000000). pose proof (Z.div_mod t 1000000).
    pose proof (Z.mod_pos_bound now 1000000). pose proof (Z.mod_pos_bound (Window cfg) 1000000).
    pose proof (Z.mod_pos_bound t 1000000). lia.
  - intros cfg k now t u st Ho H0 Hl Ht. cbn in *. destruct (redis_record cfg k now st Ho) as (Hp & Ho' & _ & Hk).
    apply PTTL_locked; [done|]. unfold lockKey. rewrite Hp, Hk. fold (lockKey st k).
    destruct (Z.leb_spec (lockoutFor cfg (redis_fails k now st + 1)) 0); [lia|]. rewrite lookup_insert_eq.
    eexists. split; [done|]. by apply expiry_late.
  - intros cfg k now t u st Ho [H0 Ht] Hl Hu. cbn in *. destruct (redis_record cfg k now st Ho) as (Hp & Ho' & _ & Hk).
    apply not_true_iff_false. rewrite PTTL_locked by done. unfold lockKey. rewrite Hp, Hk. fold (lockKey st k).
    destruct (Z.leb_spec (lockoutFor cfg (redis_fails k now st + 1)) 0); [|lia].
    apply not_true_iff_false in Hu. rewrite PTTL_locked in Hu by done. intros (e & He & Hlt). apply Hu. exists e.
    split; [done|]. pose proof (redis_ms_mono now t Ht). lia.
  - intros cfg k k' now t u st Hne Ho [H0 Ht]. cbn. destruct (redis_record cfg k now st Ho) as (Hp & Ho' & Hc & Hk).
    destruct (redis_keys st k k' Hne) as [Hf Hlk]. split.
    + unfold redis_fails, live_count, failKey. rewrite Hp, Hc. fold (failKey st k) (failKey st k').
      destruct (milliseconds _ <=? 0); [by rewrite lookup_delete_ne|by rewrite lookup_insert_ne].
    + apply eq_true_iff_eq. rewrite !PTTL_locked by done. unfold lockKey at 1. rewrite Hp, Hk. fold (lockKey st k').
      destruct (lockoutFor _ _ <=? 0); [reflexivity|by rewrite lookup_insert_ne].
  - intros k t u st Ho H0. cbn. split.
    + unfold redis_fails, live_count, Redis_Reset, call. rewrite Ho. cbn. unfold failKey. cbn. by rewrite lookup_delete_eq.
    + apply not_true_iff_false. unfold Redis_Reset, call. rewrite Ho. rewrite PTTL_locked by exact Ho. cbn. unfold lockKey. cbn.
      rewrite lookup_delete_eq. by intros (? & ? & ?).
  - intros k k' t u st Hne Ho. cbn. destruct (redis_keys st k k' Hne) as [Hf Hlk]. unfold Redis_Reset, call. rewrite Ho. split.
    + unfold redis_fails, live_count. cbn. unfold failKey in *. cbn. by rewrite lookup_delete_ne.
    + apply eq_true_iff_eq. rewrite !PTTL_locked by exact Ho. cbn. unfold lockKey in *. cbn. by rewrite lookup_delete_ne.
Defined.

End AuthLockout.
