(* ===== verification/AuthGuard.v ===== *)
(** * The authentication guard (middleware/authguard.go, clientIP of ratelimit.go)

    The guard in front of the challenge and verify routes, over the lockout interface
    and an abstract limiter and handler. Failures of a wallet that nothing forgives in
    between are spaced by the backoff; a served challenge forgives, so an attacker who
    asks for one before each attempt is never locked out. *)
From S2P Require Import Prelude.
From S2P Require Import Idempotency.
From S2P Require Import AuthLockout.

Module AuthGuard.
Import AuthLockout.

(** The request body: absent, read, or failing to be read. *)
Inductive Body := NoBody | Read (s : string) | Unreadable.

Record Req := mkReq {
  Method : string;
  Path : string;
  ReqBody : Body;
  RemoteAddr : string;
  XForwardedFor : string;
}.

(** ** The client's address *)

(** [strings.Split(s, ",")]. *)
Fixpoint split_comma (l : list Ascii.ascii) : list (list Ascii.ascii) :=
  match l with
  | [] => [[]]
  | c :: l' =>
      if decide (c = byte 44) then [] :: split_comma l'
      else match split_comma l' with seg :: segs => (c :: seg) :: segs | [] => [[c]] end
  end.

Definition ConfigureClientIP (count : Z) : Z := if count <? 0 then 0 else count.

(** The addresses an [X-Forwarded-For] header names. *)
Definition forwarded (xff : string) : list string :=
  if xff =s? "" then []
  else List.filter (λ p, negb (p =s? "")) (map (λ p, TrimSpace (of_bytes p)) (split_comma (bytes_of xff))).

(** [split_host] is [net.SplitHostPort], [None] when it fails. *)
Definition clientIP (split_host : string → option string) (trustedProxyCount : Z) (r : Req) : string :=
  let host := match split_host (RemoteAddr r) with Some h => h | None => RemoteAddr r end in
  if trustedProxyCount <=? 0 then host
  else
    let chain := forwarded (XForwardedFor r) ++ [host] in
    let idx := Z.max (Z.of_nat (length chain) - 1 - trustedProxyCount) 0 in
    match chain !! Z.to_nat idx with Some a => a | None => "" end.

Lemma split_comma_app a b : split_comma (a ++ byte 44 :: b) = split_comma a ++ split_comma b.
Proof.
  induction a as [|c a IH]; cbn [app split_comma].
  - by rewrite decide_True by done.
  - destruct (decide (c = byte 44)); [by rewrite IH|]. rewrite IH.
    destruct (split_comma a) as [|seg segs] eqn:E; [|done]. destruct a as [|x a]; [done|]. cbn in E.
    destruct (decide (x = byte 44)); [done|]. by destruct (split_comma a).
Qed.

(** Behind [n] proxies the entries a client writes in front of a header that names [n]
    addresses already do not change its address. *)
Lemma clientIP_ignores_spoofed split_host n method path body addr a b :
  b ≠ [] → n ≤ Z.of_nat (length (forwarded (of_bytes b))) →
  clientIP split_host n (mkReq method path body addr (of_bytes (a ++ byte 44 :: b))) =
  clientIP split_host n (mkReq method path body addr (of_bytes b)).
Proof.
  intros Hb Hn. unfold clientIP. cbn [RemoteAddr XForwardedFor]. destruct (Z.leb_spec n 0); [done|].
  set (host := match split_host addr with Some h => h | None => addr end).
  assert (∃ k, forwarded (of_bytes (a ++ byte 44 :: b)) = k ++ forwarded (of_bytes b)) as [k ->].
  { unfold forwarded, bytes_of, of_bytes. rewrite !String.list_ascii_of_string_of_list_ascii.
    destruct (string_eqb _ _) eqn:E; [apply string_eqb_eq in E; by destruct a|].
    rewrite split_comma_app, map_app, List.filter_app.
    destruct (String.string_of_list_ascii b =s? "") eqn:E2; [|by eexists].
    apply string_eqb_eq in E2. by destruct b. }
  rewrite <- app_assoc. set (l := forwarded (of_bytes b) ++ [host]).
  assert (n < Z.of_nat (length l)) by (unfold l; rewrite length_app; cbn; lia).
  rewrite length_app. rewrite lookup_app_r by lia.
  replace (Z.to_nat (Z.max (Z.of_nat (length k + length l) - 1 - n) 0) - length k)%nat
    with (Z.to_nat (Z.max (Z.of_nat (length l) - 1 - n) 0)) by lia. done.
Qed.

(** ** The guard *)

Record AuthGuardStage := mkStage { Stage : string; Route : Idempotency.RouteMatch }.

Definition AuthStageChallenge : string := "challenge".
Definition AuthStageVerify : string := "verify".
Definition AuthScopeWallet : string := "wallet".
Definition AuthScopeIP : string := "ip".

(** What the recorder counts. *)
Inductive Metric :=
| AuthFailure (scope stage : string)
| AuthLockoutStarted (scope stage : string)
| AuthLockedRequest (scope stage : string).

Definition maxAuthBodyPeek : Z := 8192.

Inductive Response := Answered (status : Z) | RateLimited (wait : Duration) (message : string).

(** The clock readings of a request: at the lockout checks, in [time.Until], and when
    the handler is done. *)
Record Clock := mkClock { at_check : Time; at_until : Time; at_done : Time }.

Section guard.
  (** The [wallet_address] of a JSON body, [""] when it has none, [None] when it is no
      such object. *)
  Variable json_wallet : string → option string.
  Variable split_host : string → option string.
  Variable trustedProxyCount : Z.
  (** The trackers, the per-wallet limiter when there is one, the handler. *)
  Context {W : Type} `{HW : !AuthLockout W}.
  Context {L : Type} (Allow : option (string → Time → L → L * (bool * Duration))).
  Context {A : Type} (next : Req → A → A * Z).

Record AuthGuard := mkGuard {
  lockout_cfg : AuthLockoutConfig;
  has_recorder : bool;
  stages : list AuthGuardStage;
}.

Record State := mkState {
  walletLockout : W;
  ipLockout : W;
  walletLimiter : L;
  app : A;
  metrics : list Metric;
}.

Definition with_wallet (st : State) (x : W) : State := mkState x (ipLockout st) (walletLimiter st) (app st) (metrics st).
Definition with_ip (st : State) (x : W) : State := mkState (walletLockout st) x (walletLimiter st) (app st) (metrics st).
Definition with_limiter (st : State) (x : L) : State := mkState (walletLockout st) (ipLockout st) x (app st) (metrics st).
Definition with_app (st : State) (x : A) : State := mkState (walletLockout st) (ipLockout st) (walletLimiter st) x (metrics st).

Definition record (g : AuthGuard) (m : Metric) (st : State) : State :=
  if has_recorder g then mkState (walletLockout st) (ipLockout st) (walletLimiter st) (app st) (metrics st ++ [m]) else st.

Fixpoint stageFor (l : list AuthGuardStage) (r : Req) : option AuthGuardStage :=
  match l with
  | [] => None
  | s :: rest =>
      if (Method r =s? Idempotency.RMMethod (Route s)) && Idempotency.matchPathPattern (Idempotency.RMPath (Route s)) (Path r) then Some s
      else stageFor rest r
  end.

Definition str_take (n : Z) (s : string) : string := String.substring 0 (Z.to_nat n) s.

(** The wallet and the request handed on, whose body is what was read of it. *)
Definition peekWalletAddress (r : Req) : option (string * Req) :=
  match ReqBody r with
  | NoBody => Some (""%string, r)
  | Unreadable => None
  | Read s =>
      let body := str_take (maxAuthBodyPeek + 1) s in
      let r := mkReq (Method r) (Path r) (Read body) (RemoteAddr r) (XForwardedFor r) in
      if maxAuthBodyPeek <? str_len body then Some (""%string, r)
      else match json_wallet body with
           | None => Some (""%string, r)
           | Some w => Some (TrimSpace w, r)
           end
  end.

Definition recordFailure (g : AuthGuard) (scope stage key : string) (now : Time)
    (tracker : State → W) (set : State → W → State) (st : State) : State :=
  let st := record g (AuthFailure scope stage) st in
  let '(x, (_, justLocked)) := RecordFailure (lockout_cfg g) key now (tracker st) in
  let st := set st x in
  if justLocked then record g (AuthLockoutStarted scope stage) st else st.

Definition observe (g : AuthGuard) (stage wallet ip : string) (status : Z) (now : Time) (st : State) : State :=
  if status <? 400 then
    let st := if wallet =s? "" then st else with_wallet st (Reset wallet (walletLockout st)) in
    with_ip st (Reset ip (ipLockout st))
  else if (500 <=? status) || (status =? 429) then st
  else
    let st := if wallet =s? "" then st
              else recordFailure g AuthScopeWallet stage wallet now walletLockout with_wallet st in
    recordFailure g AuthScopeIP stage ip now ipLockout with_ip st.

(** The handler without the guard's controls. *)
Definition pass (r : Req) (st : State) : State * Response :=
  let '(a, status) := next r (app st) in (with_app st a, Answered status).

(** The handler under observation. *)
Definition watched (g : AuthGuard) (stage wallet ip : string) (c : Clock) (r : Req) (st : State) : State * Response :=
  let '(a, status) := next r (app st) in
  (observe g stage wallet ip status (at_done c) (with_app st a), Answered status).

Definition limited (g : AuthGuard) (stage wallet ip : string) (c : Clock) (r : Req) (st : State) : State * Response :=
  match Allow with
  | Some allow =>
      if wallet =s? "" then watched g stage wallet ip c r st
      else
        let '(l, (allowed, wait)) := allow wallet (at_check c) (walletLimiter st) in
        let st := with_limiter st l in
        if allowed then watched g stage wallet ip c r st
        else (st, RateLimited wait "authentication rate limit exceeded for this wallet")
  | None => watched g stage wallet ip c r st
  end.

Definition Middleware (g : AuthGuard) (c : Clock) (r : Req) (st : State) : State * Response :=
  match stageFor (stages g) r with
  | None => pass r st
  | Some s =>
      match peekWalletAddress r with
      | None => pass r st
      | Some (wallet, r) =>
          let stage := Stage s in
          let ip := clientIP split_host trustedProxyCount r in
          let '(wallet_locked, wallet_wait) := Locked wallet (at_check c) (at_until c) (walletLockout st) in
          if negb (wallet =s? "") && wallet_locked then
            (record g (AuthLockedRequest AuthScopeWallet stage) st,
             RateLimited wallet_wait "too many failed authentication attempts for this wallet")
          else
            let '(ip_locked, ip_wait) := Locked ip (at_check c) (at_until c) (ipLockout st) in
            if ip_locked then
              (record g (AuthLockedRequest AuthScopeIP stage) st,
               RateLimited ip_wait "too many failed authentication attempts from this client")
            else limited g stage wallet ip c r st
      end
  end.

(** Requests served one after another, with their answers. *)
Fixpoint serve (g : AuthGuard) (h : list (Clock * Req)) (st : State) : State * list (Clock * Req * Response) :=
  match h with
  | [] => (st, [])
  | (c, r) :: h =>
      let '(st, a) := Middleware g c r st in
      let '(st, log) := serve g h st in
      (st, (c, r, a) :: log)
  end.

(** ** Attempts on a wallet *)

  Context `{HL : !AuthLockoutLaws W}.

(** The wallet under which the guard counts a request, [""] if it does not. *)
Definition guarded_wallet (g : AuthGuard) (r : Req) : string :=
  match stageFor (stages g) r with
  | None => ""
  | Some _ => match peekWalletAddress r with Some (w, _) => w | None => "" end
  end.

Definition failed_status (status : Z) : bool := (400 <=? status) && (status <? 500) && negb (status =? 429).

(** A served request for the wallet that fails, and one that succeeds. *)
Definition is_attempt (g : AuthGuard) (w : string) (x : Clock * Req * Response) : bool :=
  let '(_, r, a) := x in
  (guarded_wallet g r =s? w) && match a with Answered s => failed_status s | _ => false end.
Definition is_success (g : AuthGuard) (w : string) (x : Clock * Req * Response) : bool :=
  let '(_, r, a) := x in
  (guarded_wallet g r =s? w) && match a with Answered s => s <? 400 | _ => false end.

Definition attempts (g : AuthGuard) (w : string) (log : list (Clock * Req * Response)) : list Clock :=
  map (λ x, fst (fst x)) (List.filter (is_attempt g w) log).

(** Requests follow one another. *)
Fixpoint ordered (now : Time) (h : list (Clock * Req)) : Prop :=
  match h with
  | [] => True
  | (c, _) :: h => now ≤ at_check c ∧ at_check c ≤ at_done c ∧ ordered (at_done c) h
  end.

(** After [n] attempts, the last of them at [last]: each further one comes within the
    window of the one before it. *)
Fixpoint within (cfg : AuthLockoutConfig) (n : Z) (last : Time) (l : list Clock) : Prop :=
  match l with
  | [] => True
  | c :: l => (0 < n → at_done c ≤ last + Window cfg - grain) ∧ within cfg (n + 1) (at_done c) l
  end.

(** Each further attempt is served only when the backoff for the ones before it is over. *)
Fixpoint spaced (cfg : AuthLockoutConfig) (n : Z) (last : Time) (l : list Clock) : Prop :=
  match l with
  | [] => True
  | c :: l => (0 < n → 0 < lockoutFor cfg n → last + lockoutFor cfg n - grain ≤ at_check c) ∧
              spaced cfg (n + 1) (at_done c) l
  end.

(** What a request does to the tracker of the wallets. *)
Inductive wallet_effect (g : AuthGuard) (w : string) (c : Clock) (st st' : State) : Clock * Req * Response → Prop :=
| effect_attempt r a :
    is_attempt g w (c, r, a) = true → fst (Locked w (at_check c) (at_until c) (walletLockout st)) = false →
    walletLockout st' = fst (RecordFailure (lockout_cfg g) w (at_done c) (walletLockout st)) →
    wallet_effect g w c st st' (c, r, a)
| effect_success r a :
    is_success g w (c, r, a) = true → wallet_effect g w c st st' (c, r, a)
| effect_none r a :
    is_attempt g w (c, r, a) = false → walletLockout st' = walletLockout st → wallet_effect g w c st st' (c, r, a)
| effect_failure_of w' r a :
    w' ≠ w → is_attempt g w (c, r, a) = false →
    walletLockout st' = fst (RecordFailure (lockout_cfg g) w' (at_done c) (walletLockout st)) →
    wallet_effect g w c st st' (c, r, a)
| effect_success_of w' r a :
    w' ≠ w → is_attempt g w (c, r, a) = false → walletLockout st' = Reset w' (walletLockout st) →
    wallet_effect g w c st st' (c, r, a).

Lemma record_wallet g m st : walletLockout (record g m st) = walletLockout st.
Proof. unfold record. by destruct (has_recorder g). Qed.

Lemma recordFailure_wallet g stage key now st :
  walletLockout (recordFailure g AuthScopeWallet stage key now walletLockout with_wallet st) =
  fst (RecordFailure (lockout_cfg g) key now (walletLockout st)).
Proof.
  unfold recordFailure. rewrite record_wallet. destruct (RecordFailure _ _ _ _) as [x [d b]]. cbn.
  destruct b; [|done]. by rewrite record_wallet.
Qed.

Lemma recordFailure_ip g stage key now st :
  walletLockout (recordFailure g AuthScopeIP stage key now ipLockout with_ip st) = walletLockout st.
Proof.
  unfold recordFailure. destruct (RecordFailure _ _ _ _) as [x [d b]].
  destruct b; rewrite ?record_wallet; cbn; by rewrite record_wallet.
Qed.

Lemma watched_effect g w c r r0 stage ip st wallet :
  w ≠ ""%string → guarded_wallet g r0 = wallet →
  fst (Locked wallet (at_check c) (at_until c) (walletLockout st)) = false ∨ wallet = ""%string →
  let '(st', a) := watched g stage wallet ip c r st in wallet_effect g w c st st' (c, r0, a).
Proof.
  intros Hw Hg Hu. unfold watched. destruct (next r (app st)) as [x status]. unfold observe.
  assert (∀ b, guarded_wallet g r0 =s? w = b → wallet =s? w = b) as Hgw by (by rewrite Hg).
  destruct (Z.ltb_spec status 400) as [Hs|Hs].
  - destruct (wallet =s? w) eqn:Ew.
    + apply string_eqb_eq in Ew as ->. apply effect_success. cbn. rewrite Hg. apply andb_true_iff.
      split; [by apply string_eqb_eq|by apply Z.ltb_lt].
    + assert (is_attempt g w (c, r0, Answered status) = false) as Hn by (cbn; by rewrite Hg, Ew).
      destruct (wallet =s? "") eqn:E0; [by apply effect_none|].
      apply (effect_success_of _ _ _ _ _ wallet); [by apply string_eqb_neq|done|done].
  - destruct (_ || _) eqn:Ebig.
    + apply effect_none; [|done]. cbn. unfold failed_status. apply orb_true_iff in Ebig as [Hb|Hb];
        [apply Z.leb_le in Hb; rewrite (proj2 (Z.ltb_ge status 500)) by lia|rewrite Hb]; by rewrite ?andb_false_r.
    + apply orb_false_iff in Ebig as [H5 H9]. apply Z.leb_gt in H5.
      assert (failed_status status = true) as Hfs.
      { unfold failed_status. rewrite (proj2 (Z.leb_le 400 status)), (proj2 (Z.ltb_lt status 500)), H9 by lia. done. }
      destruct (wallet =s? "") eqn:E0.
      * apply effect_none; [|by rewrite recordFailure_ip]. cbn. rewrite Hg.
        apply string_eqb_eq in E0 as ->. assert ((""%string =s? w) = false) as -> by (by apply string_eqb_neq). done.
      * destruct (wallet =s? w) eqn:Ew.
        -- apply string_eqb_eq in Ew as ->. apply effect_attempt.
           ++ cbn. rewrite Hg, Hfs. apply andb_true_iff. split; [by apply string_eqb_eq|done].
           ++ by destruct Hu.
           ++ by rewrite recordFailure_ip, recordFailure_wallet.
        -- apply (effect_failure_of _ _ _ _ _ wallet); [by apply string_eqb_neq|cbn; by rewrite Hg, Ew|].
           by rewrite recordFailure_ip, recordFailure_wallet.
Qed.

Lemma Middleware_effect g w c r st :
  w ≠ ""%string → let '(st', a) := Middleware g c r st in wallet_effect g w c st st' (c, r, a).
Proof.
  intros Hw. unfold Middleware.
  assert (∀ x : option (string * Req), guarded_wallet g r = ""%string →
    let '(st', a) := pass r st in wallet_effect g w c st st' (c, r, a)) as Hpass.
  { intros _ Hg. unfold pass. destruct (next r (app st)) as [x status]. apply effect_none; [|done]. cbn. rewrite Hg.
    by assert ((""%string =s? w) = false) as -> by (by apply string_eqb_neq). }
  destruct (stageFor (stages g) r) as [s|] eqn:Es; [|apply Hpass; [exact None|unfold guarded_wallet; by rewrite Es]].
  destruct (peekWalletAddress r) as [[wallet r']|] eqn:Ep;
    [|apply Hpass; [exact None|unfold guarded_wallet; by rewrite Es, Ep]].
  assert (guarded_wallet g r = wallet) as Hg by (unfold guarded_wallet; by rewrite Es, Ep).
  assert (∀ m, is_attempt g w (c, r, RateLimited m "") = false) as Hrl by (intros; cbn; by rewrite andb_false_r).
  destruct (Locked wallet (at_check c) (at_until c) (walletLockout st)) as [wl ww] eqn:El.
  destruct (negb (wallet =s? "") && wl) eqn:Ewl; [apply effect_none; [cbn; by rewrite andb_false_r|apply record_wallet]|].
  assert (fst (Locked wallet (at_check c) (at_until c) (walletLockout st)) = false ∨ wallet = ""%string) as Hu.
  { rewrite El. destruct (wallet =s? "") eqn:E0; [right; by apply string_eqb_eq|left; by destruct wl]. }
  destruct (Locked _ _ _ (ipLockout st)) as [il iw].
  destruct il; [apply effect_none; [cbn; by rewrite andb_false_r|apply record_wallet]|].
  unfold limited. destruct Allow as [allow|]; [|by apply watched_effect].
  destruct (wallet =s? "") eqn:E0; [by apply watched_effect|].
  destruct (allow wallet (at_check c) (walletLimiter st)) as [l [allowed wait]].
  destruct allowed; [|apply effect_none; [cbn; by rewrite andb_false_r|done]].
  pose proof (watched_effect g w c r' r (Stage s) (clientIP split_host trustedProxyCount r') (with_limiter st l) wallet Hw Hg Hu) as H.
  destruct (watched _ _ _ _ _ _ _) as [st' a]. inversion H; subst; by econstructor.
Qed.

(** What the tracker knows of the wallet after [n] attempts, the last at [last]. *)
Record knows (cfg : AuthLockoutConfig) (w : string) (n : Z) (last now : Time) (st : State) : Prop := mkKnows {
  knows_healthy : healthy (walletLockout st);
  knows_count : ∀ t, now ≤ t → (0 < n → t ≤ last + Window cfg - grain) → fails w t (walletLockout st) = n;
  knows_locked : ∀ t u, now ≤ t → 0 < n → 0 < lockoutFor cfg n → t < last + lockoutFor cfg n - grain →
    fst (Locked w t u (walletLockout st)) = true;
}.

Lemma knows_later cfg w n last now now' st : now ≤ now' → knows cfg w n last now st → knows cfg w n last now' st.
Proof. intros Hle [Hh Hc Hl]. split; [done| |]; intros; [apply Hc|apply Hl]; done || lia. Qed.

Lemma knows_same cfg w n last now st st' :
  walletLockout st' = walletLockout st → knows cfg w n last now st → knows cfg w n last now st'.
Proof. intros He [Hh Hc Hl]. split; rewrite He; done. Qed.

(** The history of a wallet nothing forgives. *)
Lemma serve_spaced g w h n last now st :
  w ≠ ""%string → 0 ≤ n → 0 ≤ now → last ≤ now → knows (lockout_cfg g) w n last now st → ordered now h →
  let log := snd (serve g h st) in
  Forall (λ x, is_success g w x = false) log → within (lockout_cfg g) n last (attempts g w log) →
  spaced (lockout_cfg g) n last (attempts g w log).
Proof.
  intros Hw. revert n last now st. induction h as [|[c r] h IH]; intros n last now st Hn Hnow Hlast Hk Ho; [done|].
  destruct Ho as (Hc1 & Hc2 & Ho). cbn [serve]. pose proof (Middleware_effect g w c r st Hw) as He.
  destruct (Middleware g c r st) as [st1 a]. destruct (serve g h st1) as [st2 log] eqn:Es. cbn zeta. cbn [snd].
  assert (∀ m l', 0 ≤ m → l' ≤ at_done c → knows (lockout_cfg g) w m l' (at_done c) st1 →
    Forall (λ x, is_success g w x = false) log → within (lockout_cfg g) m l' (attempts g w log) →
    spaced (lockout_cfg g) m l' (attempts g w log)) as IH'.
  { intros m l' Hm Hl' Hk'. specialize (IH m l' (at_done c) st1 Hm ltac:(lia) Hl' Hk' Ho). rewrite Es in IH. exact IH. }
  intros [Hns Hf]%Forall_cons. unfold attempts. cbn [List.filter].
  assert (is_attempt g w (c, r, a) = false → knows (lockout_cfg g) w n last (at_done c) st1 →
    within (lockout_cfg g) n last (map (λ x, fst (fst x)) (if is_attempt g w (c, r, a) then (c, r, a) :: List.filter (is_attempt g w) log else List.filter (is_attempt g w) log)) →
    spaced (lockout_cfg g) n last (map (λ x, fst (fst x)) (if is_attempt g w (c, r, a) then (c, r, a) :: List.filter (is_attempt g w) log else List.filter (is_attempt g w) log))) as Hskip.
  { intros -> Hk'. apply IH'; [done|lia|done|done]. }
  pose proof (knows_later _ _ _ _ now (at_done c) _ ltac:(lia) Hk) as Hk1.
  inversion He as [r' a' Hat Hunl Hst Heq|r' a' Hsu Heq|r' a' Hat Hst Heq|w' r' a' Hne Hat Hst Heq|w' r' a' Hne Hat Hst Heq];
    subst; [| by rewrite Hsu in Hns | | |].
  - rewrite Hat. cbn. intros [Hin Hwi]. split.
    + intros Hpos Hlk. destruct (Z.le_gt_cases (last + lockoutFor (lockout_cfg g) n - grain) (at_check c)) as [|Hgt]; [done|].
      rewrite (knows_locked _ _ _ _ _ _ Hk) in Hunl; [done|lia|done|done|lia].
    + apply IH'; [lia|lia| |done|done]. destruct Hk as [Hh Hcnt _].
      assert (fails w (at_done c) (walletLockout st) = n) as Hfn by (apply Hcnt; [lia|done]).
      split; rewrite Hst; [by apply record_healthy| |].
      * intros t Ht Hin'. rewrite record_counts; [by rewrite Hfn|done|lia|lia].
      * intros t u Ht _ Hlk Hlt. apply record_locks; rewrite ?Hfn; [done|lia|done|lia].
  - apply Hskip; [done|]. by eapply knows_same.
  - apply Hskip; [done|]. destruct Hk1 as [Hh Hcnt Hlk]. split; rewrite Hst; [by apply record_healthy| |].
    + intros t Ht Hin. assert (0 ≤ at_done c ≤ t) as Hd by lia. rewrite (proj1 (record_others _ _ _ _ t t _ Hne Hh Hd)). by apply Hcnt.
    + intros t u Ht Hp Hl Hlt. assert (0 ≤ at_done c ≤ t) as Hd by lia. rewrite (proj2 (record_others _ _ _ _ t u _ Hne Hh Hd)). by apply Hlk.
  - apply Hskip; [done|]. destruct Hk1 as [Hh Hcnt Hlk]. split; rewrite Hst; [by apply reset_healthy| |].
    + intros t Ht Hin. rewrite (proj1 (reset_others _ _ t t _ Hne Hh)). by apply Hcnt.
    + intros t u Ht Hp Hl Hlt. rewrite (proj2 (reset_others _ _ t u _ Hne Hh)). by apply Hlk.
Qed.

(** The waiting the backoff imposes between [m] attempts after the [n]-th. *)
Fixpoint sum_backoff (cfg : AuthLockoutConfig) (m : nat) (n : Z) : Duration :=
  match m with O => 0 | S m => Z.max 0 (lockoutFor cfg n - grain) + sum_backoff cfg m (n + 1) end.

Fixpoint chained (last : Time) (l : list Clock) : Prop :=
  match l with [] => True | c :: l => last ≤ at_check c ≤ at_done c ∧ chained (at_done c) l end.

Lemma chained_earlier last last' l : last' ≤ last → chained last l → chained last' l.
Proof. destruct l as [|c l]; [done|]. cbn. intros ? [? ?]. split; [lia|done]. Qed.

Lemma attempts_chained g w h now st : ordered now h → chained now (attempts g w (snd (serve g h st))).
Proof.
  revert now st. induction h as [|[c r] h IH]; intros now st Ho; [done|]. destruct Ho as (H1 & H2 & Ho).
  cbn [serve]. destruct (Middleware g c r st) as [st1 a]. specialize (IH (at_done c) st1 Ho).
  destruct (serve g h st1) as [st2 log]. cbn [snd] in *. unfold attempts in *. cbn [List.filter].
  destruct (is_attempt g w (c, r, a)); [by split|]. by apply (chained_earlier (at_done c)); [lia|].
Qed.

Lemma spaced_sum cfg n last l : 0 < n → spaced cfg n last l → chained last l →
  last + sum_backoff cfg (length l) n ≤ match List.rev l with [] => last | c :: _ => at_done c end.
Proof.
  revert n last. induction l as [|c l IH]; intros n last Hn Hs Hc; cbn [sum_backoff length]; [cbn; lia|].
  destruct Hs as [Hs1 Hs], Hc as [[Hc1 Hc2] Hc]. specialize (IH (n + 1) (at_done c) ltac:(lia) Hs Hc).
  assert (last + Z.max 0 (lockoutFor cfg n - grain) ≤ at_done c) as Hstep.
  { destruct (Z.lt_ge_cases 0 (lockoutFor cfg n)); [specialize (Hs1 Hn ltac:(done)); lia|]. pose proof grain_nonneg. lia. }
  cbn [List.rev]. destruct (List.rev l) as [|d k]; simpl; lia.
Qed.

(** C32: of requests served one after another by a lockout whose store answers, starting
    without failures of the wallet, when nothing forgives the wallet and its failures stay
    within the window: each attempt after the threshold is served only when the backoff
    for the ones before it is over, less the millisecond grain of the store's expiry, so a
    run of attempts takes at least the sum of these waits. *)
Theorem guard_spaces_failures g w h now st c l :
  w ≠ ""%string → 0 ≤ now → healthy (walletLockout st) →
  (∀ t, now ≤ t → fails w t (walletLockout st) = 0) → ordered now h →
  let log := snd (serve g h st) in
  Forall (λ x, is_success g w x = false) log → attempts g w log = c :: l →
  within (lockout_cfg g) 1 (at_done c) l →
  spaced (lockout_cfg g) 1 (at_done c) l ∧
  at_done c + sum_backoff (lockout_cfg g) (length l) 1 ≤ match List.rev l with [] => at_done c | d :: _ => at_done d end.
Proof.
  intros Hw Hnow Hh Hz Ho. cbv zeta. intros Hf Hat Hwi.
  assert (spaced (lockout_cfg g) 0 now (attempts g w (snd (serve g h st)))) as Hsp.
  { apply (serve_spaced g w h 0 now now st); [done|lia|done|lia| |done|done|by rewrite Hat].
    split; [done| |lia]. intros t Ht _. auto. }
  pose proof (attempts_chained g w h now st Ho) as Hch. rewrite Hat in Hsp, Hch.
  destruct Hsp as [_ Hsp], Hch as [_ Hch]. split; [done|]. by apply spaced_sum.
Qed.

(** ** A challenge forgives *)

Definition unlocked (st : State) (w ip : string) (now : Time) : Prop :=
  healthy (walletLockout st) ∧ healthy (ipLockout st) ∧
  ∀ t u, now ≤ t → fst (Locked w t u (walletLockout st)) = false ∧ fst (Locked ip t u (ipLockout st)) = false.

(** A request of the wallet from the address, under the guard. *)
Definition guarded (g : AuthGuard) (w ip : string) (r : Req) : Prop :=
  ∃ s r', stageFor (stages g) r = Some s ∧ peekWalletAddress r = Some (w, r') ∧
    clientIP split_host trustedProxyCount r' = ip.

(** The handler answers the request with [status]. *)
Definition answers (status : Z) (r : Req) : Prop :=
  ∀ w r' a, peekWalletAddress r = Some (w, r') → snd (next r' a) = status.

Lemma ip_record g m st : ipLockout (record g m st) = ipLockout st.
Proof. unfold record. by destruct (has_recorder g). Qed.

Lemma recordFailure_trackers g stage w ip now st :
  let st' := recordFailure g AuthScopeIP stage ip now ipLockout with_ip
               (recordFailure g AuthScopeWallet stage w now walletLockout with_wallet st) in
  walletLockout st' = fst (RecordFailure (lockout_cfg g) w now (walletLockout st)) ∧
  ipLockout st' = fst (RecordFailure (lockout_cfg g) ip now (ipLockout st)).
Proof.
  cbv zeta. split; [by rewrite recordFailure_ip, recordFailure_wallet|].
  assert (∀ st0, ipLockout (recordFailure g AuthScopeIP stage ip now ipLockout with_ip st0) =
    fst (RecordFailure (lockout_cfg g) ip now (ipLockout st0))) as ->.
  { intros st0. unfold recordFailure. rewrite ip_record. destruct (RecordFailure _ _ _ _) as [x [d b]].
    destruct b; cbn; by rewrite ?ip_record. }
  do 2 f_equal. unfold recordFailure. destruct (RecordFailure _ _ _ _) as [x [d b]].
  destruct b; rewrite ?ip_record; cbn; by rewrite ip_record.
Qed.

(** An unlocked request is served. *)
Lemma Middleware_unlocked g c r st w ip status :
  Allow = None → w ≠ ""%string → guarded g w ip r → answers status r → unlocked st w ip (at_check c) →
  ∃ s a, Middleware g c r st = (observe g (Stage s) w ip status (at_done c) (with_app st a), Answered status).
Proof.
  intros HA Hw (s & r' & Hs & Hp & Hip) Hans (_ & _ & Hu). unfold Middleware. rewrite Hs, Hp, Hip.
  destruct (Hu (at_check c) (at_until c) ltac:(lia)) as [H1 H2].
  destruct (Locked w _ _ _) as [b1 w1], (Locked ip _ _ _) as [b2 w2]. cbn in H1, H2. subst b1 b2.
  rewrite andb_false_r. unfold limited. rewrite HA. unfold watched. pose proof (Hans w r' (app st) Hp) as Hn.
  destruct (next r' (app st)) as [a x]. cbn in Hn. subst x. eauto.
Qed.

(** [n] rounds of a challenge answered with success and a verification that fails. *)
Fixpoint rounds (challenge verify : Req) (l : list (Clock * Clock)) : list (Clock * Req) :=
  match l with [] => [] | (c, d) :: l => (c, challenge) :: (d, verify) :: rounds challenge verify l end.

(** However many they are, none of them is ever locked out. *)
Lemma challenges_forgive g challenge verify w ip l now st :
  Allow = None → w ≠ ""%string → 1 ≤ Threshold (lockout_cfg g) → 0 ≤ now →
  guarded g w ip challenge → guarded g w ip verify → answers 200 challenge → answers 401 verify →
  unlocked st w ip now → ordered now (rounds challenge verify l) →
  Forall (λ x, ∃ status, snd x = Answered status) (snd (serve g (rounds challenge verify l) st)).
Proof.
  intros HA Hw Hth. revert now st. induction l as [|[c d] l IH]; intros now st Hnow Hgc Hgv Hac Hav Hu Ho; [constructor|].
  cbn in Ho. destruct Ho as (H1 & H2 & H3 & H4 & Ho). cbn [rounds serve].
  assert (w =s? "" = false) as Hw0 by (by apply string_eqb_neq).
  assert (unlocked st w ip (at_check c)) as Huc by (destruct Hu as (? & ? & Hu); split_and!; [done|done|intros; apply Hu; lia]).
  destruct (Middleware_unlocked g c challenge st w ip 200 HA Hw Hgc Hac Huc) as (s & a & ->).
  set (st1 := observe _ _ _ _ _ _ _).
  assert (healthy (walletLockout st1) ∧ healthy (ipLockout st1) ∧
    ∀ t u, 0 ≤ t → fails w t (walletLockout st1) = 0 ∧ fst (Locked w t u (walletLockout st1)) = false ∧
      fails ip t (ipLockout st1) = 0 ∧ fst (Locked ip t u (ipLockout st1)) = false) as (Hh1 & Hh2 & Hclear).
  { destruct Hu as (Hh1 & Hh2 & _). unfold st1, observe. cbn. rewrite Hw0. cbn.
    split_and!; [by apply reset_healthy|by apply reset_healthy|]. intros t u Ht.
    destruct (reset_clears w t u (walletLockout st) Hh1 Ht), (reset_clears ip t u (ipLockout st) Hh2 Ht). done. }
  assert (unlocked st1 w ip (at_check d)) as Hud.
  { split_and!; [done|done|]. intros t u Ht. destruct (Hclear t u ltac:(lia)) as (_ & ? & _ & ?). done. }
  destruct (Middleware_unlocked g d verify st1 w ip 401 HA Hw Hgv Hav Hud) as (s2 & a2 & ->).
  set (st2 := observe _ _ _ _ _ _ _).
  assert (lockoutFor (lockout_cfg g) (0 + 1) = 0) as H0.
  { unfold lockoutFor. destruct (Z.leb_spec (0 + 1) (Threshold (lockout_cfg g))); [done|lia]. }
  assert (unlocked st2 w ip (at_done d)) as Hu2.
  { destruct (Hclear (at_done d) 0 ltac:(lia)) as (Hf1 & _ & Hf2 & _).
    assert (walletLockout st2 = fst (RecordFailure (lockout_cfg g) w (at_done d) (walletLockout st1)) ∧
      ipLockout st2 = fst (RecordFailure (lockout_cfg g) ip (at_done d) (ipLockout st1))) as [E1 E2].
    { unfold st2, observe. cbn [Z.ltb Z.leb Z.compare Pos.compare Pos.compare_cont Z.eqb Pos.eqb orb]. rewrite Hw0.
      apply (recordFailure_trackers g (Stage s2) w ip (at_done d) (with_app st1 a2)). }
    unfold unlocked. rewrite E1, E2. split_and!; [by apply record_healthy|by apply record_healthy|].
    intros t u Ht. assert (0 ≤ at_done d ≤ t) as Hd by lia.
    split; apply record_tolerates; try done; rewrite ?Hf1, ?Hf2, ?H0; try lia; by destruct (Hclear (at_done d) u ltac:(lia)) as (? & ? & ? & ?). }
  specialize (IH (at_done d) st2 ltac:(lia) Hgc Hgv Hac Hav Hu2 Ho).
  destruct (serve g (rounds challenge verify l) st2) as [st3 log]. cbn. constructor; [by eexists|]. constructor; [by eexists|done].
Qed.

End guard.
(** ** The guard as the program wires it *)

Definition auth_stages : list AuthGuardStage :=
  [mkStage AuthStageChallenge (Idempotency.mkRouteMatch "POST" "/api/v1/auth/challenge");
   mkStage AuthStageVerify (Idempotency.mkRouteMatch "POST" "/api/v1/auth/verify")].

Definition demo_json (s : string) : option string := Some s.
Definition demo_host (s : string) : option string := Some s.
Definition demo_request (path : string) : Req := mkReq "POST" path (Read "GWALLET") "10.0.0.1" "".
Definition demo_challenge : Req := demo_request "/api/v1/auth/challenge".
Definition demo_verify : Req := demo_request "/api/v1/auth/verify".
(** Challenges are handed out, signatures are wrong. *)
Definition demo_next (r : Req) (a : unit) : unit * Z :=
  (a, if Path r =s? "/api/v1/auth/challenge" then 200 else 401).
(** One failure is tolerated, the second locks for thirty seconds. *)
Definition demo_guard : AuthGuard :=
  mkGuard (mkLockoutConfig 1 (15 * Minute) (30 * Second) (15 * Minute)) true auth_stages.
Definition demo_state : @State (gmap string memoryAuthEntry) unit unit := mkState ∅ ∅ tt tt [].
Definition at_second (n : Z) : Clock := mkClock (n * Second) (n * Second) (n * Second).
Definition demo_serve (h : list (Clock * Req)) : @State (gmap string memoryAuthEntry) unit unit * list (Clock * Req * Response) :=
  serve demo_json demo_host 0 None demo_next demo_guard h demo_state.

(** The attempt at five seconds is refused, the one at forty is served. *)
Definition demo_attack : list (Clock * Req) :=
  [(at_second 1, demo_verify); (at_second 2, demo_verify); (at_second 5, demo_verify); (at_second 40, demo_verify)].

Example demo_attack_answers : map snd (snd (demo_serve demo_attack)) =
  [Answered 401; Answered 401;
   RateLimited (27 * Second) "too many failed authentication attempts for this wallet"; Answered 401].
Proof. vm_compute. reflexivity. Qed.

Lemma guard_spaces_failures_witness :
  spaced (lockout_cfg demo_guard) 1 (1 * Second) [at_second 2; at_second 40].
Proof.
  refine (proj1 (guard_spaces_failures demo_json demo_host 0 None demo_next demo_guard "GWALLET" demo_attack 0 demo_state
    (at_second 1) [at_second 2; at_second 40] _ _ _ _ _ _ _ _)).
  - done.
  - done.
  - exact I.
  - intros t _. reflexivity.
  - vm_compute. intuition discriminate.
  - vm_compute. repeat constructor.
  - vm_compute. reflexivity.
  - vm_compute. intuition discriminate.
Defined.

(** With a challenge before each attempt the same guard serves every wrong signature. *)
Lemma wrong_signatures_are_never_locked_out l :
  ordered 0 (rounds demo_challenge demo_verify l) →
  Forall (λ x, ∃ status, snd x = Answered status) (snd (demo_serve (rounds demo_challenge demo_verify l))).
Proof.
  assert (∀ r, r = demo_challenge ∨ r = demo_verify → guarded demo_json demo_host 0 demo_guard "GWALLET" "10.0.0.1" r) as Hg.
  { intros r [-> | ->]; unfold guarded; (eexists _, _; split_and!; [vm_compute; reflexivity|vm_compute; reflexivity|reflexivity]). }
  intros Ho. apply (challenges_forgive demo_json demo_host 0 None demo_next demo_guard demo_challenge demo_verify "GWALLET" "10.0.0.1" l 0);
    try done.
  - apply Hg. by left.
  - apply Hg. by right.
  - intros w r' a. unfold peekWalletAddress. cbn. intros [= _ <-]. reflexivity.
  - intros w r' a. unfold peekWalletAddress. cbn. intros [= _ <-]. reflexivity.
Qed.

End AuthGuard.
