(* ===== verification/AuthTokens.v ===== *)
(** * Access tokens and request authentication (auth/jwt.go, auth/context.go,
    middleware/auth.go, middleware/authz_rules.go)

    The base64 of the URL alphabet, the HS256 tokens built on it, and the middleware
    that decides with the route rules which requests reach a handler and as whom. The
    MAC and the JSON encoding of the claims are parameters. *)
From S2P Require Import Prelude.
From S2P Require Import TimeFormat.

Module AuthTokens.

(** ** base64.RawURLEncoding *)

Definition alphabet : list Ascii.ascii :=
  bytes_of "ABCDEFGHIJKLMNOPQRSTUVWXYZabcdefghijklmnopqrstuvwxyz0123456789-_".

Definition digit (d : Z) : Ascii.ascii := nth (Z.to_nat d) alphabet Ascii.zero.

Fixpoint index_of (c : Ascii.ascii) (l : list Ascii.ascii) : option Z :=
  match l with
  | [] => None
  | a :: l => if decide (a = c) then Some 0 else option_map Z.succ (index_of c l)
  end.
Definition value (c : Ascii.ascii) : option Z := index_of c alphabet.

Definition byte_value (c : Ascii.ascii) : Z := Z.of_nat (Ascii.nat_of_ascii c).
Definition byte_of (z : Z) : Ascii.ascii := byte (Z.to_nat z).

Fixpoint encode_bytes (l : list Ascii.ascii) : list Ascii.ascii :=
  match l with
  | a :: b :: c :: rest =>
      let v := byte_value a * 65536 + byte_value b * 256 + byte_value c in
      digit (v / 262144) :: digit (v / 4096 mod 64) :: digit (v / 64 mod 64) :: digit (v mod 64) :: encode_bytes rest
  | [a; b] =>
      let v := byte_value a * 65536 + byte_value b * 256 in
      [digit (v / 262144); digit (v / 4096 mod 64); digit (v / 64 mod 64)]
  | [a] => let v := byte_value a * 65536 in [digit (v / 262144); digit (v / 4096 mod 64)]
  | [] => []
  end.

(** The bits past the last whole byte are not looked at. *)
Fixpoint decode_digits (l : list Ascii.ascii) : option (list Ascii.ascii) :=
  match l with
  | c0 :: c1 :: c2 :: c3 :: rest =>
      match value c0, value c1, value c2, value c3, decode_digits rest with
      | Some d0, Some d1, Some d2, Some d3, Some bytes =>
          let v := d0 * 262144 + d1 * 4096 + d2 * 64 + d3 in
          Some (byte_of (v / 65536) :: byte_of (v / 256 mod 256) :: byte_of (v mod 256) :: bytes)
      | _, _, _, _, _ => None
      end
  | [c0; c1; c2] =>
      match value c0, value c1, value c2 with
      | Some d0, Some d1, Some d2 =>
          let v := d0 * 262144 + d1 * 4096 + d2 * 64 in Some [byte_of (v / 65536); byte_of (v / 256 mod 256)]
      | _, _, _ => None
      end
  | [c0; c1] =>
      match value c0, value c1 with
      | Some d0, Some d1 => Some [byte_of ((d0 * 262144 + d1 * 4096) / 65536)]
      | _, _ => None
      end
  | [_] => None
  | [] => Some []
  end.

(** Line breaks are skipped wherever they are. *)
Definition no_break (c : Ascii.ascii) : bool := negb (bool_decide (c = byte 10) || bool_decide (c = byte 13)).

Definition EncodeToString (s : string) : string := of_bytes (encode_bytes (bytes_of s)).
Definition DecodeString (s : string) : option string :=
  option_map of_bytes (decode_digits (List.filter no_break (bytes_of s))).

(** ** Tokens *)

Inductive AuthErr := ErrTokenMalformed | ErrTokenExpired | ErrTokenInvalid.

Record Claims := mkClaims {
  Subject : string;
  WalletAddress : string;
  Scopes : list string;
  Roles : list string;
  SessionID : string;
  TokenID : string;
  ExpiresAt : Z;
  IssuedAt : Z;
}.

(** [encoding/json] on the claims: text that is not valid UTF-8 is replaced, so the
    round trip is stated for ASCII, which ids, addresses and roles are. *)
Class ClaimsCodec := {
  Marshal : Claims → string;
  Unmarshal : string → option Claims;
}.

Definition ascii_text (s : string) : Prop := Forall (λ c, byte_value c < 128) (bytes_of s).
Definition ascii_claims (c : Claims) : Prop :=
  ascii_text (Subject c) ∧ ascii_text (WalletAddress c) ∧ Forall ascii_text (Scopes c) ∧ Forall ascii_text (Roles c) ∧
  ascii_text (SessionID c) ∧ ascii_text (TokenID c).

Class ClaimsCodecLaws `{ClaimsCodec} := {
  claims_roundtrip c : ascii_claims c → Unmarshal (Marshal c) = Some c;
}.

(** [strings.Split(s, ".")]. *)
Fixpoint split_dot (l : list Ascii.ascii) : list (list Ascii.ascii) :=
  match l with
  | [] => [[]]
  | c :: l' =>
      if decide (c = byte 46) then [] :: split_dot l'
      else match split_dot l' with seg :: segs => (c :: seg) :: segs | [] => [[c]] end
  end.

(** The Unix seconds of an instant since year 1. *)
Definition unix_epoch : Time := 62135596800 * Second.
Definition Unix (t : Time) : Z := (t - unix_epoch) / Second.

(** [{"alg":"HS256","typ":"JWT"}]. *)
Definition q : string := String (byte 34) EmptyString.
Definition jwt_header : string :=
  ("{" +:+ q +:+ "alg" +:+ q +:+ ":" +:+ q +:+ "HS256" +:+ q +:+ "," +:+ q +:+ "typ" +:+ q +:+ ":" +:+ q +:+ "JWT" +:+ q +:+ "}")%string.

Section tokens.
  (** [hmac secret data]: the HMAC-SHA256 of the data under the secret. *)
  Variable hmac : string → string → string.
  Context `{C : !ClaimsCodec}.

Definition signHS256 (data secret : string) : string := hmac secret data.

Definition MakeJWT (claims : Claims) (secret : string) : string :=
  let header := EncodeToString jwt_header in
  let p := EncodeToString (Marshal claims) in
  let sig := EncodeToString (signHS256 (header +:+ "." +:+ p)%string secret) in
  (header +:+ "." +:+ p +:+ "." +:+ sig)%string.

Definition ParseJWT (tokenStr secret : string) (now : Time) : result AuthErr Claims :=
  match map of_bytes (split_dot (bytes_of tokenStr)) with
  | [p0; p1; p2] =>
      let expected := EncodeToString (signHS256 (p0 +:+ "." +:+ p1)%string secret) in
      if negb (p2 =s? expected) then Err ErrTokenInvalid
      else match DecodeString p1 with
           | None => Err ErrTokenMalformed
           | Some payload =>
               match Unmarshal payload with
               | None => Err ErrTokenMalformed
               | Some claims =>
                   if (0 <? ExpiresAt claims) && (ExpiresAt claims <? Unix now) then Err ErrTokenExpired else Ok claims
               end
           end
  | _ => Err ErrTokenMalformed
  end.

End tokens.

(** ** The authenticated caller *)

Record User := mkUser {
  ID : string;
  UserWallet : string;
  UserScopes : list string;
  UserRoles : list string;
  UserSession : string;
  ServiceName : string;
}.

Definition HasScope (u : User) (scope : string) : bool := existsb (λ s, s =s? scope) (UserScopes u).
Definition HasRole (u : User) (role : string) : bool := existsb (λ r, r =s? role) (UserRoles u).

(** ** Route rules *)

Record RouteRule := mkRule {
  RuleMethod : string;
  PathPrefix : string;
  Public : bool;
  Scope : string;
  Role : string;
}.

(** The headers are [""] when absent. *)
Record Req := mkReq {
  Method : string;
  Path : string;
  Authorization : string;
  XUserId : string;
  XServiceName : string;
}.

Fixpoint matchRule (rules : list RouteRule) (r : Req) : option RouteRule :=
  match rules with
  | [] => None
  | rule :: rest =>
      if negb (RuleMethod rule =s? "") && negb (EqualFold (RuleMethod rule) (Method r)) then matchRule rest r
      else if HasPrefix (Path r) (PathPrefix rule) then Some rule
      else matchRule rest r
  end.

Definition public (method prefix : string) : RouteRule := mkRule method prefix true "" "".
Definition protected (prefix role : string) : RouteRule := mkRule "" prefix false "" role.

Definition ProductionAuthRules : list RouteRule :=
  [public "" "/health"; public "" "/healthz"; public "" "/readyz"; public "" "/ws";
   public "POST" "/api/v1/auth/challenge"; public "POST" "/api/v1/auth/verify"; public "POST" "/api/v1/auth/refresh";
   public "GET" "/api/v1/yields"; public "GET" "/api/v1/yield-opportunities";
   public "" "/api/v1/savings-goals/shared/"; public "GET" "/api/v1/money-path/status"; public "GET" "/api/v1/status";
   protected "/api/v1/admin/" "admin"; protected "/api/v1/internal/" "service"; protected "/api/v1/" ""].

(** ** The middleware *)

Definition moneyPathSuffixes : list string :=
  ["/deposit"; "/withdraw"; "/emergency-withdraw"; "/harvest"; "/rebalance"; "/rebalance/execute"; "/transfer"; "/payout"]%string.

Fixpoint trim_right_slash (l : list Ascii.ascii) : list Ascii.ascii :=
  match l with
  | [] => []
  | c :: l' => match trim_right_slash l' with
               | [] => if decide (c = byte 47) then [] else [c]
               | l'' => c :: l''
               end
  end.
(** [strings.TrimRight(s, "/")] and [strings.HasSuffix]. *)
Definition TrimRightSlash (s : string) : string := of_bytes (trim_right_slash (bytes_of s)).
Definition HasSuffix (s p : string) : bool :=
  match strip_prefix (rev (bytes_of p)) (rev (bytes_of s)) with Some _ => true | None => false end.

Definition isMoneyPathRoute (r : Req) : bool :=
  let path := ToLower (TrimRightSlash (Path r)) in
  if path =s? "" then false else existsb (HasSuffix path) moneyPathSuffixes.

(** [strings.SplitN(v, " ", 2)], [None] when there is no space. *)
Fixpoint split_space (l : list Ascii.ascii) : option (list Ascii.ascii * list Ascii.ascii) :=
  match l with
  | [] => None
  | c :: l' => if decide (c = byte 32) then Some ([], l')
               else option_map (λ p, (c :: fst p, snd p)) (split_space l')
  end.

Definition bearerToken (r : Req) : option string :=
  if Authorization r =s? "" then None
  else match split_space (bytes_of (Authorization r)) with
       | None => None
       | Some (scheme, rest) =>
           if negb (EqualFold (of_bytes scheme) "bearer") then None
           else let token := TrimSpace (of_bytes rest) in if token =s? "" then None else Some token
       end.

(** [subtle.ConstantTimeCompare(a, b) == 1]. *)
Definition constantTimeEqual (got want : string) : bool := got =s? want.

(** The handler runs, for an anonymous caller or a user, or the request is refused. *)
Inductive Outcome := Next (u : option User) | Refused (status : Z) (message : string).

Section authenticate.
  Variable hmac : string → string → string.
  Context `{C : !ClaimsCodec}.
  (** The revocation cache's answer, [None] when it cannot be asked. *)
  Variable IsRevoked : string → option bool.

(** The caller a service key speaks for. *)
Definition service_user (r : Req) : User :=
  let name := TrimSpace (XServiceName r) in
  mkUser (TrimSpace (XUserId r)) "" [] ["service"%string] "" (if name =s? "" then "unknown" else name).

Definition claims_user (c : Claims) : User :=
  mkUser (Subject c) (WalletAddress c) (Scopes c) (Roles c) (SessionID c) "".

Definition AuthErr_message (e : AuthErr) : string :=
  match e with
  | ErrTokenMalformed => "auth: token is malformed"
  | ErrTokenExpired => "auth: token has expired"
  | ErrTokenInvalid => "auth: token signature is invalid"
  end.

(** The checks on a token's caller under the matched rule. *)
Definition permitted (rule : option RouteRule) (u : User) : Outcome :=
  match rule with
  | None => Next (Some u)
  | Some rule =>
      if negb (Scope rule =s? "") && negb (HasScope u (Scope rule)) then Refused 403 "insufficient scope"
      else if negb (Role rule =s? "") && negb (HasRole u (Role rule)) then Refused 403 "insufficient role"
      else Next (Some u)
  end.

Definition by_token (secret : string) (rule : option RouteRule) (token : string) (now : Time) : Outcome :=
  match ParseJWT hmac token secret now with
  | Err e => Refused 401 (AuthErr_message e)
  | Ok claims =>
      if SessionID claims =s? "" then permitted rule (claims_user claims)
      else match IsRevoked (SessionID claims) with
           | None => Refused 503 "session verification unavailable"
           | Some true => Refused 401 "session has been revoked, please sign in again"
           | Some false => permitted rule (claims_user claims)
           end
  end.

Definition Authenticate (secret serviceAPIKey : string) (rules : list RouteRule) (r : Req) (now : Time) : Outcome :=
  let rule := matchRule rules r in
  if match rule with Some rule => Public rule | None => false end then Next None
  else match bearerToken r with
       | None => Refused 401 "missing or malformed authorization header"
       | Some token =>
           if negb (serviceAPIKey =s? "") && constantTimeEqual token serviceAPIKey then
             if TrimSpace (XUserId r) =s? "" then Refused 401 "X-User-Id header required for service auth"
             else if isMoneyPathRoute r
             then Refused 403 "service credentials cannot act on behalf of a user on money-path routes"
             else Next (Some (service_user r))
           else by_token secret rule token now
       end.

End authenticate.
(** ** base64 *)

Lemma list_ind3 {A} (P : list A → Prop) :
  P [] → (∀ a, P [a]) → (∀ a b, P [a; b]) → (∀ a b c l, P l → P (a :: b :: c :: l)) → ∀ l, P l.
Proof.
  intros H0 H1 H2 H3. fix IH 1. intros [|a [|b [|c l]]]; [exact H0|apply H1|apply H2|]. apply H3, IH.
Qed.

Definition digit_ok (n : nat) : bool :=
  bool_decide (value (digit (Z.of_nat n)) = Some (Z.of_nat n)) && no_break (digit (Z.of_nat n)) &&
  negb (bool_decide (digit (Z.of_nat n) = byte 46)).

Lemma digits_ok : forallb digit_ok (seq 0 64) = true.
Proof. vm_compute. reflexivity. Qed.

Lemma digit_spec d : 0 ≤ d < 64 → value (digit d) = Some d ∧ no_break (digit d) = true ∧ digit d ≠ byte 46.
Proof.
  intros Hd. pose proof (proj1 (List.forallb_forall _ _) digits_ok (Z.to_nat d)) as H.
  unfold digit_ok in H. rewrite Z2Nat.id in H by lia.
  specialize (H ltac:(apply in_seq; lia)). apply andb_true_iff in H as [[H1 H2]%andb_true_iff H3].
  apply bool_decide_eq_true in H1. apply negb_true_iff, bool_decide_eq_false in H3. done.
Qed.

Lemma byte_value_range c : 0 ≤ byte_value c < 256.
Proof. unfold byte_value. pose proof (Ascii.nat_ascii_bounded c). lia. Qed.

Lemma byte_of_value c : byte_of (byte_value c) = c.
Proof. unfold byte_of, byte_value, byte. rewrite Nat2Z.id. apply Ascii.ascii_nat_embedding. Qed.

(** The digits of one to three bytes are digits, and give the bytes back. *)
Lemma group_bounds a b c :
  let v := byte_value a * 65536 + byte_value b * 256 + byte_value c in
  0 ≤ v / 262144 < 64 ∧ 0 ≤ v / 4096 mod 64 < 64 ∧ 0 ≤ v / 64 mod 64 < 64 ∧ 0 ≤ v mod 64 < 64 ∧
  v / 262144 * 262144 + v / 4096 mod 64 * 4096 + v / 64 mod 64 * 64 + v mod 64 = v ∧
  v / 65536 = byte_value a ∧ v / 256 mod 256 = byte_value b ∧ v mod 256 = byte_value c.
Proof.
  cbv zeta. pose proof (byte_value_range a). pose proof (byte_value_range b). pose proof (byte_value_range c).
  Z.to_euclidean_division_equations. lia.
Qed.

Definition encoded (l : list Ascii.ascii) : Prop := Forall (λ c, no_break c = true ∧ c ≠ byte 46) l.

Lemma encoded_cons d l : 0 ≤ d < 64 → encoded l → encoded (digit d :: l).
Proof. intros Hd Hl. constructor; [|done]. by apply digit_spec. Qed.

Lemma encode_encoded l : encoded (encode_bytes l).
Proof.
  assert (byte_value Ascii.zero = 0) as Hz by done. assert (encoded []) as Hn by constructor.
  induction l as [|a|a b|a b c l IH] using list_ind3; cbn [encode_bytes]; [done| | |].
  - pose proof (group_bounds a Ascii.zero Ascii.zero) as Hg. rewrite Hz, !Z.mul_0_l, !Z.add_0_r in Hg.
    repeat (apply encoded_cons; [apply Hg|]). done.
  - pose proof (group_bounds a b Ascii.zero) as Hg. rewrite Hz, Z.add_0_r in Hg.
    repeat (apply encoded_cons; [apply Hg|]). done.
  - pose proof (group_bounds a b c) as Hg. repeat (apply encoded_cons; [apply Hg|]). exact IH.
Qed.

Lemma decode_encode l : decode_digits (encode_bytes l) = Some l.
Proof.
  assert (byte_value Ascii.zero = 0) as Hz by done.
  induction l as [|a|a b|a b c l IH] using list_ind3; cbn [encode_bytes]; [done| | |].
  - pose proof (group_bounds a Ascii.zero Ascii.zero) as Hg. cbv zeta in Hg. rewrite Hz, !Z.mul_0_l, !Z.add_0_r in Hg.
    destruct Hg as (H0 & H1 & H2 & H3 & Hv & Ha & Hb & _). cbn [decode_digits].
    rewrite (proj1 (digit_spec _ H0)), (proj1 (digit_spec _ H1)). set (v := byte_value a * 65536) in *.
    assert (v / 262144 * 262144 + v / 4096 mod 64 * 4096 = v) as -> by (clear -v; unfold v; Z.to_euclidean_division_equations; lia).
    by rewrite Ha, byte_of_value.
  - pose proof (group_bounds a b Ascii.zero) as Hg. cbv zeta in Hg. rewrite Hz, Z.add_0_r in Hg.
    destruct Hg as (H0 & H1 & H2 & H3 & Hv & Ha & Hb & Hc). cbn [decode_digits].
    rewrite (proj1 (digit_spec _ H0)), (proj1 (digit_spec _ H1)), (proj1 (digit_spec _ H2)). cbv zeta.
    set (v := byte_value a * 65536 + byte_value b * 256) in *.
    assert (v / 262144 * 262144 + v / 4096 mod 64 * 4096 + v / 64 mod 64 * 64 = v) as -> by
      (clear -v; unfold v; Z.to_euclidean_division_equations; lia).
    by rewrite Ha, Hb, !byte_of_value.
  - destruct (group_bounds a b c) as (H0 & H1 & H2 & H3 & Hv & Ha & Hb & Hc). cbn [decode_digits].
    rewrite (proj1 (digit_spec _ H0)), (proj1 (digit_spec _ H1)), (proj1 (digit_spec _ H2)), (proj1 (digit_spec _ H3)), IH.
    cbv zeta. by rewrite Hv, Ha, Hb, Hc, !byte_of_value.
Qed.

Lemma bytes_of_of_bytes l : bytes_of (of_bytes l) = l.
Proof. apply String.list_ascii_of_string_of_list_ascii. Qed.
Lemma of_bytes_of s : of_bytes (bytes_of s) = s.
Proof. apply String.string_of_list_ascii_of_string. Qed.

Lemma filter_encoded l : encoded l → List.filter no_break l = l.
Proof. induction 1 as [|c l [Hc _] _ IH]; cbn; [done|]. by rewrite Hc, IH. Qed.

(** Decoding undoes encoding, for any bytes. *)
Lemma Decode_Encode s : DecodeString (EncodeToString s) = Some s.
Proof.
  unfold DecodeString, EncodeToString. rewrite bytes_of_of_bytes, filter_encoded by apply encode_encoded.
  rewrite decode_encode. cbn. by rewrite of_bytes_of.
Qed.

Lemma Encode_no_dot s : byte 46 ∉ bytes_of (EncodeToString s).
Proof.
  unfold EncodeToString. rewrite bytes_of_of_bytes. intros Hin.
  pose proof (encode_encoded (bytes_of s)) as He. unfold encoded in He. rewrite Forall_forall in He.
  by destruct (He _ Hin).
Qed.

(** ** The three parts of a token *)

Lemma split_dot_none l : byte 46 ∉ l → split_dot l = [l].
Proof.
  induction l as [|c l IH]; cbn; [done|]. intros [Hc Hl]%not_elem_of_cons. rewrite decide_False by congruence.
  by rewrite IH.
Qed.

Lemma split_dot_app a l : byte 46 ∉ a → split_dot (a ++ byte 46 :: l) = a :: split_dot l.
Proof.
  induction a as [|c a IH]; cbn [app split_dot]; [by rewrite decide_True|].
  intros [Hc Hl]%not_elem_of_cons. rewrite decide_False by congruence. by rewrite IH.
Qed.

Lemma split_dot_cons l seg segs :
  split_dot l = seg :: segs → byte 46 ∉ seg ∧ match segs with [] => l = seg | _ => ∃ r, l = seg ++ byte 46 :: r ∧ split_dot r = segs end.
Proof.
  revert seg segs. induction l as [|c l IH]; intros seg segs; cbn [split_dot].
  - intros [= <- <-]. split; [apply not_elem_of_nil|done].
  - destruct (decide (c = byte 46)) as [->|Hc].
    + intros [= <- <-]. split; [apply not_elem_of_nil|]. destruct (split_dot l) eqn:E; [|by exists l].
      exfalso. destruct l; cbn in E; [done|]. destruct (decide _); [done|]. by destruct (split_dot l).
    + destruct (split_dot l) as [|s1 ss] eqn:E.
      * exfalso. destruct l; cbn in E; [done|]. destruct (decide _); [done|]. by destruct (split_dot l).
      * intros [= <- <-]. destruct (IH s1 ss eq_refl) as [Hn Hr]. split; [apply not_elem_of_cons; split; [congruence|done]|].
        destruct ss; [by subst|]. destruct Hr as (r & -> & Hs). by exists r.
Qed.

Lemma split_three l a b c :
  split_dot l = [a; b; c] ↔ l = a ++ byte 46 :: b ++ byte 46 :: c ∧ byte 46 ∉ a ∧ byte 46 ∉ b ∧ byte 46 ∉ c.
Proof.
  split.
  - intros H. apply split_dot_cons in H as [Ha (r & -> & Hr)]. apply split_dot_cons in Hr as [Hb (r2 & -> & Hr)].
    apply split_dot_cons in Hr as [Hc ->]. done.
  - intros (-> & Ha & Hb & Hc). by rewrite split_dot_app, split_dot_app, split_dot_none.
Qed.

Section exact.
  Variable hmac : string → string → string.
  Context `{C : !ClaimsCodec}.

(** The tokens that carry claims: signed under the secret and not expired. *)
Definition carries (secret token : string) (now : Time) (c : Claims) : Prop :=
  ∃ p0 p1 payload,
    token = (p0 +:+ "." +:+ p1 +:+ "." +:+ EncodeToString (signHS256 hmac (p0 +:+ "." +:+ p1)%string secret))%string ∧
    byte 46 ∉ bytes_of p0 ∧ byte 46 ∉ bytes_of p1 ∧
    DecodeString p1 = Some payload ∧ Unmarshal payload = Some c ∧
    (ExpiresAt c ≤ 0 ∨ Unix now ≤ ExpiresAt c).

Lemma token_bytes a b c : bytes_of (a +:+ "." +:+ b +:+ "." +:+ c)%string = bytes_of a ++ byte 46 :: bytes_of b ++ byte 46 :: bytes_of c.
Proof. by rewrite !TimeFormat.bytes_of_app. Qed.

Lemma token_of_bytes a b c :
  of_bytes (a ++ byte 46 :: b ++ byte 46 :: c) = (of_bytes a +:+ "." +:+ of_bytes b +:+ "." +:+ of_bytes c)%string.
Proof.
  rewrite <- (of_bytes_of (_ +:+ _)), token_bytes, !bytes_of_of_bytes. done.
Qed.

Lemma ParseJWT_exact token secret now c :
  ParseJWT hmac token secret now = Ok c ↔ carries secret token now c.
Proof.
  unfold ParseJWT, carries. split.
  - destruct (split_dot (bytes_of token)) as [|a [|b [|d [|? ?]]]] eqn:E; cbn [map]; try done.
    apply split_three in E as (Ht & Ha & Hb & _).
    destruct (of_bytes d =s? _) eqn:Es; [|done]. apply string_eqb_eq in Es. cbn [negb].
    destruct (DecodeString (of_bytes b)) as [payload|] eqn:Ed; [|done].
    destruct (Unmarshal payload) as [c'|] eqn:Eu; [|done]. destruct (_ && _) eqn:Ex; [done|]. intros [= <-].
    exists (of_bytes a), (of_bytes b), payload. rewrite !bytes_of_of_bytes, <- Es. split_and!; try done.
    + rewrite <- token_of_bytes, <- Ht. by rewrite of_bytes_of.
    + apply andb_false_iff in Ex as [Hx|Hx]; apply Z.ltb_ge in Hx; lia.
  - intros (p0 & p1 & payload & -> & H0 & H1 & Hd & Hu & Hx). rewrite token_bytes.
    set (sig := EncodeToString _).
    assert (split_dot (bytes_of p0 ++ byte 46 :: bytes_of p1 ++ byte 46 :: bytes_of sig) = [bytes_of p0; bytes_of p1; bytes_of sig]) as ->
      by (apply split_three; split_and!; [done|done|done|apply Encode_no_dot]).
    cbn [map]. rewrite !of_bytes_of. fold sig. assert ((sig =s? sig) = true) as -> by (by apply string_eqb_eq). cbn [negb].
    rewrite Hd, Hu. assert ((0 <? ExpiresAt c) && (ExpiresAt c <? Unix now) = false) as ->; [|done].
    apply andb_false_iff. destruct Hx; [left|right]; apply Z.ltb_ge; lia.
Qed.

(** A token made for claims passes the signature, and its payload is read back. *)
Lemma ParseJWT_made claims secret now :
  ParseJWT hmac (MakeJWT hmac claims secret) secret now =
    match Unmarshal (Marshal claims) with
    | None => Err ErrTokenMalformed
    | Some c => if (0 <? ExpiresAt c) && (ExpiresAt c <? Unix now) then Err ErrTokenExpired else Ok c
    end.
Proof.
  unfold ParseJWT, MakeJWT. cbv zeta. set (p := EncodeToString (Marshal claims)).
  set (h := EncodeToString jwt_header). set (sig := EncodeToString _). rewrite token_bytes.
  assert (split_dot (bytes_of h ++ byte 46 :: bytes_of p ++ byte 46 :: bytes_of sig) = [bytes_of h; bytes_of p; bytes_of sig]) as ->
    by (apply split_three; split_and!; [done|apply Encode_no_dot|apply Encode_no_dot|apply Encode_no_dot]).
  cbn [map]. rewrite !of_bytes_of. fold sig. assert ((sig =s? sig) = true) as -> by (by apply string_eqb_eq). cbn [negb].
  unfold p. by rewrite Decode_Encode.
Qed.

(** C38: a token made for claims is read back as these claims until it expires, and
    never after. *)
Theorem tokens_round_trip `{!ClaimsCodecLaws} claims secret now :
  ascii_claims claims →
  ParseJWT hmac (MakeJWT hmac claims secret) secret now =
    if (0 <? ExpiresAt claims) && (ExpiresAt claims <? Unix now) then Err ErrTokenExpired else Ok claims.
Proof. intros Ha. rewrite ParseJWT_made. by rewrite claims_roundtrip. Qed.

Lemma existsb_string (l : list string) s : existsb (λ x, x =s? s) l = true ↔ s ∈ l.
Proof.
  rewrite existsb_exists. setoid_rewrite <- list_elem_of_In. split; [intros (x & Hx & He)|intros Hs; exists s; split; [done|by apply string_eqb_eq]].
  apply string_eqb_eq in He. by subst.
Qed.

(** The rule's demands on a caller. *)
Definition meets (rule : option RouteRule) (u : User) : Prop :=
  match rule with
  | None => True
  | Some rule => (Scope rule = ""%string ∨ Scope rule ∈ UserScopes u) ∧ (Role rule = ""%string ∨ Role rule ∈ UserRoles u)
  end.

Lemma permitted_exact rule u v : permitted rule u = Next v ↔ v = Some u ∧ meets rule u.
Proof.
  unfold permitted, meets, HasScope, HasRole. destruct rule as [rule|]; [|naive_solver].
  destruct (Scope rule =s? "") eqn:Es, (Role rule =s? "") eqn:Er; cbn;
    rewrite ?string_eqb_eq, ?string_eqb_neq in *;
    try destruct (existsb _ (UserScopes u)) eqn:E1; try destruct (existsb _ (UserRoles u)) eqn:E2; cbn;
    rewrite ?existsb_string, <- ?not_true_iff_false, ?existsb_string in *; naive_solver.
Qed.

(** C18: exactly the requests of a public route, those with the service key and a user
    id outside the money paths, and those with an unexpired token signed under the
    secret, which names no session or one known not to be revoked, of a caller who meets
    the rule, reach a handler, as the caller named. *)
Theorem requests_reach_handlers_exactly IsRevoked secret serviceAPIKey rules r now u :
  Authenticate hmac IsRevoked secret serviceAPIKey rules r now = Next u ↔
  (∃ rule, matchRule rules r = Some rule ∧ Public rule = true ∧ u = None) ∨
  ((∀ rule, matchRule rules r = Some rule → Public rule = false) ∧
   ∃ token, bearerToken r = Some token ∧
     if decide (serviceAPIKey ≠ ""%string ∧ token = serviceAPIKey)
     then TrimSpace (XUserId r) ≠ ""%string ∧ isMoneyPathRoute r = false ∧ u = Some (service_user r)
     else ∃ claims, carries secret token now claims ∧
            (SessionID claims = ""%string ∨ IsRevoked (SessionID claims) = Some false) ∧
            meets (matchRule rules r) (claims_user claims) ∧ u = Some (claims_user claims)).
Proof.
  unfold Authenticate. destruct (match matchRule rules r with Some rule => Public rule | None => false end) eqn:Ep.
  { destruct (matchRule rules r) as [rule|]; [|done]. split; [intros [= <-]; left; by exists rule|].
    intros [(? & _ & _ & ->)|[H _]]; [done|]. specialize (H rule eq_refl). congruence. }
  assert (∀ rule, matchRule rules r = Some rule → Public rule = false) as Hnp by (intros rule E; by rewrite E in Ep).
  transitivity (∃ token, bearerToken r = Some token ∧
     if decide (serviceAPIKey ≠ ""%string ∧ token = serviceAPIKey)
     then TrimSpace (XUserId r) ≠ ""%string ∧ isMoneyPathRoute r = false ∧ u = Some (service_user r)
     else ∃ claims, carries secret token now claims ∧
            (SessionID claims = ""%string ∨ IsRevoked (SessionID claims) = Some false) ∧
            meets (matchRule rules r) (claims_user claims) ∧ u = Some (claims_user claims)).
  2: { split; [intros H; by right|]. intros [(rule & Hr & Hp & _)|[_ H]]; [|done]. specialize (Hnp rule Hr). congruence. }
  destruct (bearerToken r) as [token|]; [|split; [done|by intros (? & ? & _)]].
  transitivity (if decide (serviceAPIKey ≠ ""%string ∧ token = serviceAPIKey)
     then TrimSpace (XUserId r) ≠ ""%string ∧ isMoneyPathRoute r = false ∧ u = Some (service_user r)
     else ∃ claims, carries secret token now claims ∧
            (SessionID claims = ""%string ∨ IsRevoked (SessionID claims) = Some false) ∧
            meets (matchRule rules r) (claims_user claims) ∧ u = Some (claims_user claims));
    [|split; [intros H; by exists token|intros (t & [= <-] & H); exact H]].
  assert (negb (serviceAPIKey =s? "") && constantTimeEqual token serviceAPIKey =
    bool_decide (serviceAPIKey ≠ ""%string ∧ token = serviceAPIKey)) as ->.
  { unfold constantTimeEqual, string_eqb. apply eq_true_iff_eq. rewrite andb_true_iff, negb_true_iff.
    rewrite !bool_decide_eq_true, bool_decide_eq_false. tauto. }
  case_bool_decide as Hk; [rewrite decide_True by done|rewrite decide_False by done].
  - destruct (TrimSpace (XUserId r) =s? "") eqn:Ex; [apply string_eqb_eq in Ex; split; [done|by intros (? & _)]|].
    apply string_eqb_neq in Ex. destruct (isMoneyPathRoute r); [split; [done|by intros (_ & ? & _)]|].
    split; [by intros [= <-]|by intros (_ & _ & ->)].
  - unfold by_token. setoid_rewrite <- ParseJWT_exact.
    destruct (ParseJWT hmac token secret now) as [claims|e]; [|split; [done|by intros (? & ? & _)]].
    transitivity ((SessionID claims = ""%string ∨ IsRevoked (SessionID claims) = Some false) ∧
      meets (matchRule rules r) (claims_user claims) ∧ u = Some (claims_user claims));
      [|split; [intros H; by exists claims|intros (c & [= <-] & H); exact H]].
    destruct (SessionID claims =s? "") eqn:Es; [apply string_eqb_eq in Es|apply string_eqb_neq in Es].
    + rewrite permitted_exact. naive_solver.
    + destruct (IsRevoked (SessionID claims)) as [[]|]; [naive_solver| |naive_solver]. rewrite permitted_exact. naive_solver.
Qed.

(** The holder of the service key passes the role rule of the administrators' routes
    without their role. *)
Lemma service_key_skips_roles IsRevoked secret key now :
  key ≠ ""%string → TrimSpace key = key →
  let r := mkReq "POST" "/api/v1/admin/vaults/7/pause" ("Bearer " +:+ key)%string "u" "" in
  (∃ rule, matchRule ProductionAuthRules r = Some rule ∧ Role rule = "admin"%string) ∧
  Authenticate hmac IsRevoked secret key ProductionAuthRules r now = Next (Some (service_user r)) ∧
  HasRole (service_user r) "admin" = false.
Proof.
  intros Hk Ht. cbv zeta. split; [eexists; split; vm_compute; reflexivity|]. split; [|vm_compute; reflexivity].
  unfold Authenticate. set (r := mkReq _ _ _ _ _).
  assert (bearerToken r = Some key) as ->.
  { unfold bearerToken. change (Authorization r) with ("Bearer " +:+ key)%string.
    assert ((("Bearer " +:+ key)%string =s? "") = false) as -> by (by apply string_eqb_neq).
    assert (split_space (bytes_of ("Bearer " +:+ key)%string) = Some (bytes_of "Bearer", bytes_of key)) as -> by reflexivity.
    rewrite !of_bytes_of. assert (EqualFold "Bearer" "bearer" = true) as -> by (vm_compute; reflexivity). cbn [negb]. rewrite Ht.
    by assert ((key =s? "") = false) as -> by (by apply string_eqb_neq). }
  assert (matchRule ProductionAuthRules r = Some (protected "/api/v1/admin/" "admin")) as -> by (vm_compute; reflexivity).
  assert ((key =s? "") = false) as -> by (by apply string_eqb_neq).
  assert (constantTimeEqual key key = true) as -> by (by apply string_eqb_eq). reflexivity.
Qed.

End exact.
(** ** A concrete codec *)

Fixpoint pos_str (p : positive) : string :=
  match p with xH => "" | xO p => String (byte 48) (pos_str p) | xI p => String (byte 49) (pos_str p) end.
Fixpoint str_pos (s : string) : positive :=
  match s with
  | EmptyString => xH
  | String c s => if decide (c = byte 48) then xO (str_pos s) else xI (str_pos s)
  end.

Lemma str_pos_str p : str_pos (pos_str p) = p.
Proof. induction p as [p IH|p IH|]; cbn; [by rewrite IH|by rewrite IH|done]. Qed.

Definition claims_tuple (c : Claims) : string * string * list string * list string * string * string * Z * Z :=
  (Subject c, WalletAddress c, Scopes c, Roles c, SessionID c, TokenID c, ExpiresAt c, IssuedAt c).
Definition tuple_claims (t : string * string * list string * list string * string * string * Z * Z) : Claims :=
  let '(a, b, c, d, e, f, g, h) := t in mkClaims a b c d e f g h.

#[global] Instance demo_codec : ClaimsCodec := {
  Marshal c := pos_str (encode (claims_tuple c));
  Unmarshal s := option_map tuple_claims (decode (str_pos s));
}.

#[global] Instance demo_codec_laws : ClaimsCodecLaws.
Proof.
  split. intros c _. cbn [Marshal Unmarshal demo_codec]. rewrite str_pos_str, countable.decode_encode. by destruct c.
Qed.

Definition demo_claims : Claims := mkClaims "u1" "GABC" [] ["admin"%string] "s1" "t1" 100 10.
Definition demo_hmac (secret data : string) : string := (secret +:+ "/" +:+ data)%string.

Lemma tokens_round_trip_witness :
  ParseJWT demo_hmac (MakeJWT demo_hmac demo_claims "secret") "secret" (unix_epoch + 100 * Second) = Ok demo_claims ∧
  ParseJWT demo_hmac (MakeJWT demo_hmac demo_claims "secret") "secret" (unix_epoch + 101 * Second) = Err ErrTokenExpired.
Proof.
  assert (ascii_claims demo_claims) as Ha by (vm_compute; repeat split; repeat constructor).
  split; [exact (tokens_round_trip demo_hmac demo_claims "secret" (unix_epoch + 100 * Second) Ha)|
          exact (tokens_round_trip demo_hmac demo_claims "secret" (unix_epoch + 101 * Second) Ha)].
Defined.

End AuthTokens.
