(* ===== verification/Sessions.v ===== *)
(** * Sessions (domain/session/model.go, repository/postgres/session_repository.go,
    service/auth_service.go, challenge_store.go, revocation_cache.go, and what they
    use of user_service.go and user_repository.go)

    Signing in with a wallet's signature on a challenge, rotating refresh tokens with
    reuse detection and device binding, and revoking sessions. The challenge store and
    the revocation cache are interfaces with two implementations each. A repository
    call is one transaction, which may fail without effect or lose its answer. *)
From S2P Require Import Prelude.
From S2P Require Import AuthTokens.

Module Sessions.

(** ** Challenge stores *)

Inductive StoreErr := ErrChallengeNotFound | ErrStore.

Class ChallengeStore (St : Type) := {
  Store_Set : string → string → Time → St → St * option StoreErr;
  GetAndDelete : string → Time → St → St * result StoreErr string;
}.

(** [stored st w t] is the challenge the wallet would be given back at [t]. *)
Class ChallengeStoreLaws (St : Type) `{!ChallengeStore St} := {
  stored : St → string → Time → option string;
  set_failed w c now t st e :
    snd (Store_Set w c now st) = Some e → stored (fst (Store_Set w c now st)) w t = stored st w t;
  set_one w c now t st x :
    snd (Store_Set w c now st) = None → stored (fst (Store_Set w c now st)) w t = Some x → x = c;
  set_others w w' c now t st : w ≠ w' → stored (fst (Store_Set w c now st)) w' t = stored st w' t;
  get_stored w now st c : snd (GetAndDelete w now st) = Ok c →
    stored st w now = Some c ∧ ∀ t, stored (fst (GetAndDelete w now st)) w t = None;
  get_keeps w w' now t st x :
    stored (fst (GetAndDelete w now st)) w' t = Some x → stored st w' t = Some x;
}.

(** In memory: the challenge and when it expires. *)
Record InMemoryChallengeStore := mkChallenges { challenges : gmap string (string * Time); challenge_ttl : Duration }.

Definition defaultChallengeCleanupInterval : Duration := 30 * Second.
Definition challengeCleanupInterval (ttl : Duration) : Duration :=
  if (ttl <=? 0) || (defaultChallengeCleanupInterval <? ttl) then defaultChallengeCleanupInterval else ttl.

Definition Memory_Set (w c : string) (now : Time) (s : InMemoryChallengeStore) : InMemoryChallengeStore * option StoreErr :=
  (mkChallenges (<[w := (c, time_add now (challenge_ttl s))]> (challenges s)) (challenge_ttl s), None).

Definition Memory_GetAndDelete (w : string) (now : Time) (s : InMemoryChallengeStore)
  : InMemoryChallengeStore * result StoreErr string :=
  let s' := mkChallenges (delete w (challenges s)) (challenge_ttl s) in
  match challenges s !! w with
  | None => (s', Err ErrChallengeNotFound)
  | Some (c, expiresAt) => if time_after now expiresAt then (s', Err ErrChallengeNotFound) else (s', Ok c)
  end.

Definition kept (now : Time) (x : string * (string * Time)) : Prop := ¬ time_after now (snd (snd x)).
#[global] Instance kept_dec now x : Decision (kept now x).
Proof. unfold kept. apply _. Defined.

(** The clean-up loop's sweep. *)
Definition evictExpired (now : Time) (s : InMemoryChallengeStore) : InMemoryChallengeStore :=
  mkChallenges (filter (kept now) (challenges s)) (challenge_ttl s).

#[global] Instance Memory_ChallengeStore : ChallengeStore InMemoryChallengeStore :=
  { Store_Set := Memory_Set; GetAndDelete := Memory_GetAndDelete }.

(** In Redis: values under full keys with their expiry in milliseconds; [store_down]
    says which of the next commands fail. *)
Record RedisChallengeStore := mkRedisChallenges {
  values : gmap string (string * Z);
  redis_ttl : Duration;
  store_down : list bool;
}.

Definition challengeKey (w : string) : string := ("auth:challenge:" +:+ w)%string.
Definition to_ms (t : Time) : Z := t / Millisecond.

Definition Redis_Set (w c : string) (now : Time) (s : RedisChallengeStore) : RedisChallengeStore * option StoreErr :=
  let set := <[challengeKey w := (c, to_ms now + Z.max 1 (milliseconds (redis_ttl s)))]> (values s) in
  match store_down s with
  | true :: rest => (mkRedisChallenges (values s) (redis_ttl s) rest, Some ErrStore)
  | false :: rest => (mkRedisChallenges set (redis_ttl s) rest, None)
  | [] => (mkRedisChallenges set (redis_ttl s) [], None)
  end.

Definition redis_live (v : gmap string (string * Z)) (w : string) (now : Time) : option string :=
  match v !! challengeKey w with
  | Some (c, e) => if to_ms now <=? e then Some c else None
  | None => None
  end.

Definition Redis_GetAndDelete (w : string) (now : Time) (s : RedisChallengeStore)
  : RedisChallengeStore * result StoreErr string :=
  let got rest := (mkRedisChallenges (delete (challengeKey w) (values s)) (redis_ttl s) rest,
                   match redis_live (values s) w now with Some c => Ok c | None => Err ErrChallengeNotFound end) in
  match store_down s with
  | true :: rest => (mkRedisChallenges (values s) (redis_ttl s) rest, Err ErrStore)
  | false :: rest => got rest
  | [] => got []
  end.

#[global] Instance Redis_ChallengeStore : ChallengeStore RedisChallengeStore :=
  { Store_Set := Redis_Set; GetAndDelete := Redis_GetAndDelete }.

(** ** Revocation caches *)

Class RevocationCache (St : Type) := {
  MarkRevoked : string → Duration → Time → St → St * bool;
  IsRevoked : string → Time → St → St * option bool;
}.

(** The laws hold while the cache answers; a mark may be short by [cache_grain]. *)
Class RevocationCacheLaws (St : Type) `{!RevocationCache St} := {
  cache_grain : Duration;
  cache_grain_small : 0 ≤ cache_grain ≤ Second;
  cache_healthy : St → Prop;
  marked_until : St → string → option Time;
  mark_healthy k d now st : cache_healthy st → cache_healthy (fst (MarkRevoked k d now st));
  ask_healthy k now st : cache_healthy st → cache_healthy (fst (IsRevoked k now st));
  mark_marks k d now st : cache_healthy st → Second ≤ d →
    ∃ e, marked_until (fst (MarkRevoked k d now st)) k = Some e ∧ now + d - cache_grain ≤ e;
  mark_others k k' d now st : k ≠ k' → cache_healthy st →
    marked_until (fst (MarkRevoked k d now st)) k' = marked_until st k';
  ask_marked k now st e : cache_healthy st → marked_until st k = Some e → now ≤ e → snd (IsRevoked k now st) = Some true;
  ask_keeps k k' now e st : cache_healthy st → marked_until st k' = Some e → now ≤ e →
    marked_until (fst (IsRevoked k now st)) k' = Some e;
}.

Abbreviation InMemoryRevocationCache := (gmap string Time) (only parsing).

Definition Memory_MarkRevoked (k : string) (ttl : Duration) (now : Time) (m : InMemoryRevocationCache)
  : InMemoryRevocationCache * bool := (<[k := time_add now ttl]> m, true).
Definition Memory_IsRevoked (k : string) (now : Time) (m : InMemoryRevocationCache)
  : InMemoryRevocationCache * option bool :=
  match m !! k with
  | None => (m, Some false)
  | Some e => if time_after now e then (delete k m, Some false) else (m, Some true)
  end.
#[global] Instance Memory_RevocationCache : RevocationCache InMemoryRevocationCache :=
  { MarkRevoked := Memory_MarkRevoked; IsRevoked := Memory_IsRevoked }.

Record RedisRevocationCache := mkRedisCache { marks : gmap string Z; cache_down : list bool }.

Definition revocationKey (k : string) : string := ("auth:revoked:" +:+ k)%string.

Definition Redis_MarkRevoked (k : string) (ttl : Duration) (now : Time) (m : RedisRevocationCache)
  : RedisRevocationCache * bool :=
  let set := <[revocationKey k := to_ms now + Z.max 1 (milliseconds ttl)]> (marks m) in
  match cache_down m with
  | true :: rest => (mkRedisCache (marks m) rest, false)
  | false :: rest => (mkRedisCache set rest, true)
  | [] => (mkRedisCache set [], true)
  end.
Definition Redis_IsRevoked (k : string) (now : Time) (m : RedisRevocationCache) : RedisRevocationCache * option bool :=
  let answer := match marks m !! revocationKey k with Some e => to_ms now <=? e | None => false end in
  match cache_down m with
  | true :: rest => (mkRedisCache (marks m) rest, None)
  | false :: rest => (mkRedisCache (marks m) rest, Some answer)
  | [] => (m, Some answer)
  end.
#[global] Instance Redis_RevocationCache : RevocationCache RedisRevocationCache :=
  { MarkRevoked := Redis_MarkRevoked; IsRevoked := Redis_IsRevoked }.

(** ** The tables *)

Inductive Reason :=
| ReasonLogout | ReasonLogoutAll | ReasonReuseDetected | ReasonDeviceMismatch | ReasonAbsoluteExpiry
| ReasonRefreshExpired | ReasonAdmin.
#[global] Instance Reason_eq_dec : EqDecision Reason.
Proof. solve_decision. Defined.

Definition reason_string (r : Reason) : string :=
  match r with
  | ReasonLogout => "logout" | ReasonLogoutAll => "logout_all" | ReasonReuseDetected => "reuse_detected"
  | ReasonDeviceMismatch => "device_mismatch" | ReasonAbsoluteExpiry => "absolute_expiry"
  | ReasonRefreshExpired => "refresh_expired" | ReasonAdmin => "admin"
  end.

Record Session := mkSession {
  SID : Z;
  SUserID : Z;
  SWallet : string;
  DeviceFingerprint : string;
  UserAgent : option string;
  IPAddress : option string;
  CreatedAt : Time;
  LastActiveAt : Time;
  AbsoluteExpiresAt : Time;
  RevokedAt : option Time;
  RevokedReason : option string;
}.

Definition IsActive (s : Session) (now : Time) : bool :=
  match RevokedAt s with None => time_before now (AbsoluteExpiresAt s) | Some _ => false end.

Record RefreshToken := mkToken {
  TID : Z;
  TSession : Z;
  TokenHash : string;
  ParentID : option Z;
  IssuedAt : Time;
  ExpiresAt : Time;
  UsedAt : option Time;
  TRevokedAt : option Time;
  TRevokedReason : option string;
}.

Record UserRow := mkUserRow { UID : Z; UWallet : string; UDisplayName : string }.

(** A repository call's way to the database: answered, failed without effect, or
    carried out with its answer lost. *)
Inductive Trip := Fine | Down | Lost.

Inductive Event :=
| Audit (user : Z) (action : string) (entity : Z)
| CloseSession (session : string)
| CloseUser (user : string)
| LoginSuccess (user session : Z)
| ReuseDetected (user session : Z) (reason : string).

(** The database, the stores, the random bytes to come (as hex, [None] a failure), the
    ids to come, the clock and what other components are told. *)
Record World {CS RC : Type} := mkWorld {
  sessions : gmap Z Session;
  tokens : gmap Z RefreshToken;
  users : gmap Z UserRow;
  roles : gmap Z (list string);
  trips : list Trip;
  store : CS;
  cache : RC;
  entropy : list (option string);
  next_id : Z;
  clock : Time;
  events : list Event;
}.
Arguments World : clear implicits.
Arguments mkWorld {CS RC}.

Inductive Error :=
| ErrChallengeExpired | ErrSignatureInvalid | ErrWalletInvalid | ErrDeviceFingerprintRequired | ErrRefreshFailed
| ErrSessionNotFound | ErrSessionRevoked | ErrSessionExpired | ErrRefreshTokenInvalid | ErrRefreshTokenExpired
| ErrRefreshTokenReused | ErrDeviceMismatch | ErrUserNotFound | ErrDuplicateWallet
| ErrChallengeStore | ErrRand | ErrDb.
#[global] Instance Error_eq_dec : EqDecision Error.
Proof. solve_decision. Defined.

(** A call on the world, with its outcome. *)
Definition Call (CS RC A : Type) : Type := World CS RC → World CS RC * result Error A.

Section repository.
  Context {CS RC : Type}.
  Abbreviation W := (World CS RC).
  Abbreviation M := (Call CS RC).

#[global] Instance M_ret : MRet M := λ _ a w, (w, Ok a).
#[global] Instance M_bind : MBind M := λ _ _ k m w,
  match m w with (w, Ok a) => k a w | (w, Err e) => (w, Err e) end.
Definition throw {A} (e : Error) : M A := λ w, (w, Err e).

Definition with_sessions (w : W) (s : gmap Z Session) (t : gmap Z RefreshToken) : W :=
  mkWorld s t (users w) (roles w) (trips w) (store w) (cache w) (entropy w) (next_id w) (clock w) (events w).
Definition with_users (w : W) (u : gmap Z UserRow) : W :=
  mkWorld (sessions w) (tokens w) u (roles w) (trips w) (store w) (cache w) (entropy w) (next_id w) (clock w) (events w).
Definition with_trips (w : W) (t : list Trip) : W :=
  mkWorld (sessions w) (tokens w) (users w) (roles w) t (store w) (cache w) (entropy w) (next_id w) (clock w) (events w).
Definition with_store (w : W) (s : CS) : W :=
  mkWorld (sessions w) (tokens w) (users w) (roles w) (trips w) s (cache w) (entropy w) (next_id w) (clock w) (events w).
Definition with_cache (w : W) (c : RC) : W :=
  mkWorld (sessions w) (tokens w) (users w) (roles w) (trips w) (store w) c (entropy w) (next_id w) (clock w) (events w).
Definition with_entropy (w : W) (e : list (option string)) : W :=
  mkWorld (sessions w) (tokens w) (users w) (roles w) (trips w) (store w) (cache w) e (next_id w) (clock w) (events w).
Definition with_next (w : W) (n : Z) : W :=
  mkWorld (sessions w) (tokens w) (users w) (roles w) (trips w) (store w) (cache w) (entropy w) n (clock w) (events w).
Definition emit (w : W) (e : Event) : W :=
  mkWorld (sessions w) (tokens w) (users w) (roles w) (trips w) (store w) (cache w) (entropy w) (next_id w) (clock w) (events w ++ [e]).

Definition fresh_id (w : W) : Z * W := (next_id w, with_next w (next_id w + 1)).

(** A transaction: [f] works on the tables; an error of [f] rolls back. *)
Definition transaction {A} (f : W → result Error (W * A)) : M A := λ w,
  let '(trip, w) := match trips w with [] => (Fine, w) | t :: rest => (t, with_trips w rest) end in
  match trip with
  | Down => (w, Err ErrDb)
  | Fine => match f w with Ok (w', a) => (w', Ok a) | Err e => (w, Err e) end
  | Lost => match f w with Ok (w', _) => (w', Err ErrDb) | Err e => (w, Err ErrDb) end
  end.

(** ** session_repository.go *)

Definition hash_used (h : string) (w : W) : bool := existsb (λ x, TokenHash (snd x) =s? h) (map_to_list (tokens w)).

(** [INSERT INTO refresh_tokens], whose token hashes are unique. *)
Definition insert_token (session : Z) (h : string) (parent : option Z) (expires : Time) (w : W)
  : result Error (W * RefreshToken) :=
  if hash_used h w then Err ErrDb
  else let '(id, w) := fresh_id w in
       let t := mkToken id session h parent (clock w) expires None None None in
       Ok (with_sessions w (sessions w) (<[id := t]> (tokens w)), t).

Definition insert_session (s : Session) (w : W) : result Error (W * Session) :=
  if bool_decide (is_Some (users w !! SUserID s)) then
    let '(id, w) := fresh_id w in
    let s := mkSession id (SUserID s) (SWallet s) (DeviceFingerprint s) (UserAgent s) (IPAddress s)
               (clock w) (clock w) (AbsoluteExpiresAt s) None None in
    Ok (with_sessions w (<[id := s]> (sessions w)) (tokens w), s)
  else Err ErrDb.

Definition CreateSession (s : Session) (refreshTokenHash : string) (refreshExpiresAt : Time) : M (Session * RefreshToken) :=
  transaction (λ w,
    let? (w, s) := insert_session s w in
    let? (w, rt) := insert_token (SID s) refreshTokenHash None refreshExpiresAt w in
    Ok (w, (s, rt))).

Definition revoke_session (now : Time) (reason : string) (s : Session) : Session :=
  mkSession (SID s) (SUserID s) (SWallet s) (DeviceFingerprint s) (UserAgent s) (IPAddress s) (CreatedAt s)
    (LastActiveAt s) (AbsoluteExpiresAt s) (Some now) (Some reason).
Definition revoke_token (now : Time) (reason : string) (t : RefreshToken) : RefreshToken :=
  match TRevokedAt t with
  | Some _ => t
  | None => mkToken (TID t) (TSession t) (TokenHash t) (ParentID t) (IssuedAt t) (ExpiresAt t) (UsedAt t) (Some now) (Some reason)
  end.

(** [UPDATE refresh_tokens ... WHERE session_id ... AND revoked_at IS NULL]. *)
Definition revoke_tokens (which : Z → bool) (now : Time) (reason : string) (m : gmap Z RefreshToken) : gmap Z RefreshToken :=
  (λ t, if which (TSession t) then revoke_token now reason t else t) <$> m.

Definition revokeSessionTx (id : Z) (reason : Reason) (now : Time) (w : W) : W :=
  with_sessions w (alter (revoke_session now (reason_string reason)) id (sessions w))
    (revoke_tokens (Z.eqb id) now (reason_string reason) (tokens w)).

Definition use_token (now : Time) (t : RefreshToken) : RefreshToken :=
  mkToken (TID t) (TSession t) (TokenHash t) (ParentID t) (IssuedAt t) (ExpiresAt t) (Some now) (TRevokedAt t) (TRevokedReason t).
Definition expire_token (now : Time) (t : RefreshToken) : RefreshToken :=
  mkToken (TID t) (TSession t) (TokenHash t) (ParentID t) (IssuedAt t) (ExpiresAt t) (UsedAt t)
    (Some now) (Some (reason_string ReasonRefreshExpired)).
Definition touch_session (now : Time) (s : Session) : Session :=
  mkSession (SID s) (SUserID s) (SWallet s) (DeviceFingerprint s) (UserAgent s) (IPAddress s) (CreatedAt s)
    now (AbsoluteExpiresAt s) (RevokedAt s) (RevokedReason s).

Definition token_by_hash (h : string) (w : W) : option RefreshToken :=
  match List.find (λ x, TokenHash (snd x) =s? h) (map_to_list (tokens w)) with Some (_, t) => Some t | None => None end.

(** What the rotation answers: the session with the new token, or the session, where
    it was found, with the error. *)
Inductive Rotation := Rotated (s : Session) (t : RefreshToken) | RotationFailed (s : option Session) (e : Error).

Definition rotate (rawTokenHash fingerprint newTokenHash : string) (newExpiresAt : Time) (w : W) : result Error (W * Rotation) :=
  match token_by_hash rawTokenHash w with
  | None => Ok (w, RotationFailed None ErrRefreshTokenInvalid)
  | Some tok =>
      match sessions w !! TSession tok with
      | None => Err ErrDb
      | Some sess =>
          let now := clock w in
          if bool_decide (is_Some (RevokedAt sess)) then Ok (w, RotationFailed (Some sess) ErrSessionRevoked)
          else if time_after now (AbsoluteExpiresAt sess)
          then Ok (revokeSessionTx (SID sess) ReasonAbsoluteExpiry now w, RotationFailed (Some sess) ErrSessionExpired)
          else if negb (fingerprint =s? DeviceFingerprint sess)
          then Ok (revokeSessionTx (SID sess) ReasonDeviceMismatch now w, RotationFailed (Some sess) ErrDeviceMismatch)
          else if bool_decide (is_Some (UsedAt tok) ∨ is_Some (TRevokedAt tok))
          then Ok (revokeSessionTx (SID sess) ReasonReuseDetected now w, RotationFailed (Some sess) ErrRefreshTokenReused)
          else if time_after now (ExpiresAt tok)
          then Ok (revokeSessionTx (SID sess) ReasonRefreshExpired now
                     (with_sessions w (sessions w) (alter (expire_token now) (TID tok) (tokens w))),
                   RotationFailed (Some sess) ErrRefreshTokenExpired)
          else
            let w := with_sessions w (sessions w) (alter (use_token now) (TID tok) (tokens w)) in
            let? (w, newRT) := insert_token (SID sess) newTokenHash (Some (TID tok)) newExpiresAt w in
            Ok (with_sessions w (alter (touch_session now) (SID sess) (sessions w)) (tokens w),
                Rotated (touch_session now sess) newRT)
      end
  end.

Definition RotateRefreshToken (rawTokenHash fingerprint newTokenHash : string) (newExpiresAt : Time) : M Rotation :=
  transaction (rotate rawTokenHash fingerprint newTokenHash newExpiresAt).

Definition GetSessionByID (id : Z) : M Session :=
  transaction (λ w, match sessions w !! id with Some s => Ok (w, s) | None => Err ErrSessionNotFound end).

Definition later_active (a b : Session) : Prop := LastActiveAt b ≤ LastActiveAt a.
#[global] Instance later_active_dec a b : Decision (later_active a b) := Z_le_dec _ _.

Definition ListActiveByUser (userID : Z) : M (list Session) :=
  transaction (λ w, Ok (w, merge_sort later_active
    (List.filter (λ s, (SUserID s =? userID) && IsActive s (clock w)) (map snd (map_to_list (sessions w)))))).

Definition RevokeSession_tx (id : Z) (reason : Reason) : M unit :=
  transaction (λ w,
    match sessions w !! id with
    | Some s => if bool_decide (is_Some (RevokedAt s)) then Err ErrSessionNotFound
                else Ok (revokeSessionTx id reason (clock w) w, ())
    | None => Err ErrSessionNotFound
    end).

Definition revocable (userID : Z) (s : Session) : bool :=
  (SUserID s =? userID) && bool_decide (RevokedAt s = None).

Definition RevokeAllByUser (userID : Z) (reason : Reason) : M (list Session) :=
  transaction (λ w,
    let now := clock w in
    let r := reason_string reason in
    let revoked := map (revoke_session now r) (List.filter (revocable userID) (map snd (map_to_list (sessions w)))) in
    let ids := map SID revoked in
    Ok (with_sessions w
          ((λ s, if revocable userID s then revoke_session now r s else s) <$> sessions w)
          (revoke_tokens (λ id, existsb (Z.eqb id) ids) now r (tokens w)), revoked)).

(** ** Users *)

Definition GetUserByWallet (address : string) : M UserRow :=
  transaction (λ w,
    match List.find (λ x, UWallet (snd x) =s? address) (map_to_list (users w)) with
    | Some (_, u) => Ok (w, u)
    | None => Err ErrUserNotFound
    end).

Definition RegisterUser (walletAddress displayName : string) : M UserRow := λ w,
  let '(id, w) := fresh_id w in
  let u := mkUserRow id walletAddress displayName in
  transaction (λ w,
    if existsb (λ x, UWallet (snd x) =s? walletAddress) (map_to_list (users w)) then Err ErrDuplicateWallet
    else Ok (with_users w (<[id := u]> (users w)), u)) w.

Definition GetUserRoles (id : Z) : M (list string) :=
  transaction (λ w, Ok (w, match roles w !! id with Some l => l | None => [] end)).

(** [try m]: the outcome of a call as a value. *)
Definition try {A} (m : M A) : M (result Error A) := λ w, let '(w, r) := m w in (w, Ok r).

End repository.

(** ** auth_service.go *)

Record AuthConfig := mkAuthConfig {
  Secret : string;
  AccessTokenExpiry : Duration;
  RefreshTokenExpiry : Duration;
  AbsoluteSessionLifetime : Duration;
}.

Record SessionMetadata := mkMeta { MetaFingerprint : string; MetaUserAgent : string; MetaIP : string }.

Record Tokens := mkTokens {
  AccessToken : string;
  Refresh_Token : string;
  ExpiresIn : Z;
  RefreshExpiresIn : Z;
  TokensSession : Z;
  TokensUser : Z;
}.

Definition sep53MessagePrefix : string := ("Stellar Signed Message:" +:+ String (byte 10) "")%string.

Definition nonEmptyPtr (s : string) : option string := if s =s? "" then None else Some s.

(** [base64.StdEncoding.DecodeString]: whole groups of four, the last one padded. *)
Definition std_char (c : Ascii.ascii) : Ascii.ascii :=
  if decide (c = byte 43) then byte 45 else if decide (c = byte 47) then byte 95
  else if decide (c = byte 45 ∨ c = byte 95) then byte 0 else c.
Definition strip_padding (l : list Ascii.ascii) : list Ascii.ascii :=
  match rev l with
  | a :: b :: rest => if decide (a = byte 61) then if decide (b = byte 61) then rev rest else rev (b :: rest) else l
  | _ => l
  end.
Definition Std_DecodeString (s : string) : option string :=
  let l := List.filter AuthTokens.no_break (bytes_of s) in
  if negb (Nat.eqb (length l mod 4) 0) then None
  else option_map of_bytes (AuthTokens.decode_digits (map std_char (strip_padding l))).

Section service.
  (** SHA-256 as raw bytes and as hex, the MAC of tokens, what the key of an address
      accepts, and the text of ids. *)
  Variables (sha256 sha256_hex : string → string) (hmac : string → string → string).
  Variable ParseAddress : string → bool.
  Variable Verify : string → string → string → bool.
  Variable uuid_String : Z → string.
  Context `{Codec : !AuthTokens.ClaimsCodec}.
  Context {CS RC : Type} `{HCS : !ChallengeStore CS} `{HRC : !RevocationCache RC}.
  Abbreviation W := (World CS RC).
  Abbreviation M := (Call CS RC).

Definition sep53MessageHash (message : string) : string := sha256 (sep53MessagePrefix +:+ message)%string.
Definition hashOpaqueToken (raw : string) : string := sha256_hex raw.

Definition now : M Time := λ w, (w, Ok (clock w)).

(** Thirty-two random bytes in hex. *)
Definition generateOpaqueToken : M string := λ w,
  match entropy w with
  | Some s :: rest => (with_entropy w rest, Ok s)
  | None :: rest => (with_entropy w rest, Err ErrRand)
  | [] => (w, Err ErrRand)
  end.

Definition set_challenge (walletAddress challenge : string) : M unit := λ w,
  let '(s, e) := Store_Set walletAddress challenge (clock w) (store w) in
  (with_store w s, match e with None => Ok () | Some _ => Err ErrChallengeStore end).

Definition GenerateChallenge (walletAddress : string) : M string :=
  if negb (ParseAddress walletAddress) then throw ErrWalletInvalid
  else
    challenge ← generateOpaqueToken;
    set_challenge walletAddress challenge ;;
    mret challenge.

Definition take_challenge (walletAddress : string) : M string := λ w,
  let '(s, r) := GetAndDelete walletAddress (clock w) (store w) in
  (with_store w s, match r with
                   | Ok c => Ok c
                   | Err ErrChallengeNotFound => Err ErrChallengeExpired
                   | Err ErrStore => Err ErrChallengeStore
                   end).

Definition tell (e : Event) : M unit := λ w, (emit w e, Ok ()).

Definition new_uuid : M Z := λ w, let '(id, w) := fresh_id w in (w, Ok id).

(** The access token of a session, minted now. *)
Definition mint (cfg : AuthConfig) (userID : Z) (walletAddress : string) (userRoles : list string) (sessionID : Z) : M string :=
  t ← now;
  jti ← new_uuid;
  mret (AuthTokens.MakeJWT hmac
    (AuthTokens.mkClaims (uuid_String userID) walletAddress [] userRoles (uuid_String sessionID) (uuid_String jti)
       (AuthTokens.Unix (time_add t (AccessTokenExpiry cfg))) (AuthTokens.Unix t)) (Secret cfg)).

Definition tokens_of (cfg : AuthConfig) (access refresh : string) (s : Session) : Tokens :=
  mkTokens access refresh (Z.quot (AccessTokenExpiry cfg) Second) (Z.quot (RefreshTokenExpiry cfg) Second) (SID s) (SUserID s).

(** The user of the wallet, registered when it cannot be read. *)
Definition user_of (walletAddress : string) : M UserRow :=
  r ← try (GetUserByWallet walletAddress);
  match r with
  | Ok u => mret u
  | Err _ => RegisterUser walletAddress (String.substring 0 8 walletAddress)
  end.

Definition VerifyAndIssue (cfg : AuthConfig) (walletAddress signature challenge : string) (meta : SessionMetadata) : M Tokens :=
  if MetaFingerprint meta =s? "" then throw ErrDeviceFingerprintRequired
  else
    stored ← take_challenge walletAddress;
    if negb (stored =s? challenge) then throw ErrChallengeExpired
    else if negb (ParseAddress walletAddress) then throw ErrWalletInvalid
    else match Std_DecodeString signature with
         | None => throw ErrSignatureInvalid
         | Some sigBytes =>
             if negb (Verify walletAddress (sep53MessageHash challenge) sigBytes) then throw ErrSignatureInvalid
             else
               user ← user_of walletAddress;
               userRoles ← GetUserRoles (UID user);
               t ← now;
               rawRefresh ← generateOpaqueToken;
               '(sess, _) ← CreateSession
                 (mkSession 0 (UID user) walletAddress (MetaFingerprint meta) (nonEmptyPtr (MetaUserAgent meta))
                    (nonEmptyPtr (MetaIP meta)) 0 0 (time_add t (AbsoluteSessionLifetime cfg)) None None)
                 (hashOpaqueToken rawRefresh) (time_add t (RefreshTokenExpiry cfg));
               accessToken ← mint cfg (UID user) walletAddress userRoles (SID sess);
               tell (LoginSuccess (UID user) (SID sess)) ;;
               tell (Audit (UID user) "session.created" (SID sess)) ;;
               mret (tokens_of cfg accessToken rawRefresh sess)
         end.

(** The mark's error is dropped. *)
Definition mark_revoked (cfg : AuthConfig) (sessionID : Z) : M unit := λ w,
  let '(c, _) := MarkRevoked (uuid_String sessionID) (AccessTokenExpiry cfg + Minute) (clock w) (cache w) in
  (with_cache w c, Ok ()).

Definition finalizeRevocation (cfg : AuthConfig) (sess : option Session) (reason : Reason) (isCompromise : bool) : M unit :=
  match sess with
  | None => mret ()
  | Some s =>
      mark_revoked cfg (SID s) ;;
      tell (CloseSession (uuid_String (SID s))) ;;
      tell (Audit (SUserID s) ("session." +:+ reason_string reason)%string (SID s)) ;;
      if isCompromise then tell (ReuseDetected (SUserID s) (SID s) (reason_string reason)) else mret ()
  end.

(** What a failed rotation has to finish. *)
Definition finalize (cfg : AuthConfig) (sess : option Session) (e : Error) : M unit :=
  match e with
  | ErrRefreshTokenReused => finalizeRevocation cfg sess ReasonReuseDetected true
  | ErrDeviceMismatch => finalizeRevocation cfg sess ReasonDeviceMismatch true
  | ErrSessionExpired => finalizeRevocation cfg sess ReasonAbsoluteExpiry false
  | ErrRefreshTokenExpired => finalizeRevocation cfg sess ReasonRefreshExpired false
  | _ => mret ()
  end.

Definition Refresh (cfg : AuthConfig) (rawRefreshToken : string) (meta : SessionMetadata) : M Tokens :=
  if rawRefreshToken =s? "" then throw ErrRefreshFailed
  else if MetaFingerprint meta =s? "" then throw ErrDeviceFingerprintRequired
  else
    t ← now;
    newRaw ← generateOpaqueToken;
    r ← try (RotateRefreshToken (hashOpaqueToken rawRefreshToken) (MetaFingerprint meta) (hashOpaqueToken newRaw)
               (time_add t (RefreshTokenExpiry cfg)));
    match r with
    | Err _ => throw ErrRefreshFailed
    | Ok (RotationFailed sess e) => finalize cfg sess e ;; throw ErrRefreshFailed
    | Ok (Rotated sess _) =>
        userRoles ← GetUserRoles (SUserID sess);
        accessToken ← mint cfg (SUserID sess) (SWallet sess) userRoles (SID sess);
        mret (tokens_of cfg accessToken newRaw sess)
    end.

Definition revokeOwnedSession (cfg : AuthConfig) (userID sessionID : Z) (reason : Reason) : M unit :=
  sess ← GetSessionByID sessionID;
  if negb (SUserID sess =? userID) then throw ErrSessionNotFound
  else
    RevokeSession_tx sessionID reason ;;
    mark_revoked cfg sessionID ;;
    tell (CloseSession (uuid_String sessionID)) ;;
    tell (Audit userID ("session." +:+ reason_string reason)%string sessionID).

Definition Logout (cfg : AuthConfig) (userID sessionID : Z) : M unit := revokeOwnedSession cfg userID sessionID ReasonLogout.
Definition RevokeSession (cfg : AuthConfig) (userID sessionID : Z) : M unit := revokeOwnedSession cfg userID sessionID ReasonLogout.

Fixpoint mark_all (cfg : AuthConfig) (l : list Session) : M unit :=
  match l with [] => mret () | s :: l => mark_revoked cfg (SID s) ;; mark_all cfg l end.

Definition LogoutAll (cfg : AuthConfig) (userID : Z) : M Z :=
  revoked ← RevokeAllByUser userID ReasonLogoutAll;
  mark_all cfg revoked ;;
  tell (CloseUser (uuid_String userID)) ;;
  tell (Audit userID "session.logout_all" userID) ;;
  mret (Z.of_nat (length revoked)).

Definition ListSessions (userID : Z) : M (list Session) := ListActiveByUser userID.

End service.
End Sessions.
