(* ===== verification/SessionLife.v ===== *)
(** * The life of sessions

    Both challenge stores and both revocation caches satisfy their interfaces. What a
    request does to the tables of sessions and refresh tokens is a sequence of four
    changes, and these keep every family of tokens a chain with one unused token at
    its end, revoked as a whole with its session. *)
From S2P Require Import Prelude.
From S2P Require Import AuthTokens.
From S2P Require Import AuthLockout.
From S2P Require Import Sessions.

Module SessionLife.
Import Sessions.

(** ** The stores *)

Definition memory_stored (s : InMemoryChallengeStore) (w : string) (t : Time) : option string :=
  match challenges s !! w with Some (c, e) => if time_after t e then None else Some c | None => None end.

#[global, refine] Instance Memory_ChallengeStoreLaws : ChallengeStoreLaws InMemoryChallengeStore :=
  { stored := memory_stored }.
Proof.
  - intros w c now t st e. done.
  - intros w c now t st x _. cbn. unfold memory_stored. cbn. rewrite lookup_insert_eq. destruct (time_after _ _); congruence.
  - intros w w' c now t st Hne. cbn. unfold memory_stored. cbn. by rewrite lookup_insert_ne.
  - intros w now st c. cbn. unfold Memory_GetAndDelete, memory_stored.
    destruct (challenges st !! w) as [[x e]|]; [|done]. destruct (time_after now e); [done|]. cbn. intros [= ->].
    split; [done|]. intros t. by rewrite lookup_delete_eq.
  - intros w w' now t st x. cbn. unfold Memory_GetAndDelete, memory_stored.
    assert (∀ y : InMemoryChallengeStore, challenges y = delete w (challenges st) →
      match challenges y !! w' with Some (c, e) => if time_after t e then None else Some c | None => None end = Some x →
      match challenges st !! w' with Some (c, e) => if time_after t e then None else Some c | None => None end = Some x) as Hd.
    { intros y ->. destruct (decide (w = w')) as [<-|Hne]; [by rewrite lookup_delete_eq|by rewrite lookup_delete_ne]. }
    destruct (challenges st !! w) as [[c e]|]; [destruct (time_after now e)|]; by apply Hd.
Defined.

Lemma challengeKey_inj w w' : w ≠ w' → challengeKey w ≠ challengeKey w'.
Proof. intros Hne H. apply Hne. unfold challengeKey in H. by apply (inj (String.append _)) in H. Qed.

#[global, refine] Instance Redis_ChallengeStoreLaws : ChallengeStoreLaws RedisChallengeStore :=
  { stored := λ s, redis_live (values s) }.
Proof.
  - intros w c now t st e. cbn. unfold Redis_Set. by destruct (store_down st) as [|[] rest].
  - intros w c now t st x. cbn. unfold Redis_Set, redis_live.
    destruct (store_down st) as [|[] rest]; cbn; intros Hs; try done; rewrite lookup_insert_eq; destruct (_ <=? _); congruence.
  - intros w w' c now t st Hne. cbn. unfold Redis_Set, redis_live. pose proof (challengeKey_inj w w' Hne).
    destruct (store_down st) as [|[] rest]; cbn; by rewrite ?lookup_insert_ne.
  - intros w now st c. cbn. unfold Redis_GetAndDelete.
    destruct (store_down st) as [|[] rest]; cbn; try done; destruct (redis_live (values st) w now) as [x|]; try done;
      intros [= ->]; (split; [done|]; intros t; unfold redis_live; cbn; by rewrite lookup_delete_eq).
  - intros w w' now t st x. cbn. unfold Redis_GetAndDelete, redis_live.
    assert (∀ v, v = delete (challengeKey w) (values st) →
      match v !! challengeKey w' with Some (c, e) => if to_ms t <=? e then Some c else None | None => None end = Some x →
      match values st !! challengeKey w' with Some (c, e) => if to_ms t <=? e then Some c else None | None => None end = Some x) as Hd.
    { intros v ->. destruct (decide (challengeKey w = challengeKey w')) as [<-|Hne];
        [by rewrite lookup_delete_eq|by rewrite lookup_delete_ne]. }
    destruct (store_down st) as [|[] rest]; cbn; [by apply Hd|done|by apply Hd].
Defined.

#[global, refine] Instance Memory_RevocationCacheLaws : RevocationCacheLaws InMemoryRevocationCache :=
  { cache_grain := 0; cache_healthy := λ _, True; marked_until := λ m k, m !! k }.
Proof.
  - unfold Second, Millisecond. lia.
  - done.
  - done.
  - intros k d now st _ _. exists (now + d). cbn. rewrite lookup_insert_eq. split; [done|lia].
  - intros k k' d now st Hne _. cbn. by rewrite lookup_insert_ne.
  - intros k now st e _ He Hn. cbn. unfold Memory_IsRevoked. rewrite He. unfold time_after.
    destruct (Z.ltb_spec e now); [lia|done].
  - intros k k' now e st _ He Hn. cbn. unfold Memory_IsRevoked. destruct (st !! k) as [x|] eqn:Ek; [|done].
    destruct (time_after now x) eqn:Ea; [|done]. cbn. destruct (decide (k = k')) as [<-|Hne]; [|by rewrite lookup_delete_ne].
    unfold time_after in Ea. apply Z.ltb_lt in Ea. assert (x = e) by congruence. lia.
Defined.

Lemma revocationKey_inj k k' : k ≠ k' → revocationKey k ≠ revocationKey k'.
Proof. intros Hne H. apply Hne. unfold revocationKey in H. by apply (inj (String.append _)) in H. Qed.

(** In Redis a mark lasts until the end of its last millisecond. *)
Definition redis_until (m : RedisRevocationCache) (k : string) : option Time :=
  option_map (λ e, (e + 1) * Millisecond - 1) (marks m !! revocationKey k).

#[global, refine] Instance Redis_RevocationCacheLaws : RevocationCacheLaws RedisRevocationCache :=
  { cache_grain := 2 * Millisecond; cache_healthy := λ m, cache_down m = []; marked_until := redis_until }.
Proof.
  - unfold Second, Millisecond. lia.
  - intros k d now st Hd. cbn. unfold Redis_MarkRevoked. by rewrite Hd.
  - intros k now st Hd. cbn. unfold Redis_IsRevoked. by rewrite Hd.
  - intros k d now st Hd Hs. cbn. unfold Redis_MarkRevoked, redis_until. rewrite Hd. cbn. rewrite lookup_insert_eq. cbn.
    eexists. split; [done|]. unfold to_ms, milliseconds, Second, Millisecond in *. rewrite Z.quot_div_nonneg by lia.
    Z.to_euclidean_division_equations. lia.
  - intros k k' d now st Hne Hd. cbn. unfold Redis_MarkRevoked, redis_until. rewrite Hd. cbn.
    by rewrite lookup_insert_ne by by apply revocationKey_inj.
  - intros k now st e Hd He Hn. cbn. unfold Redis_IsRevoked. rewrite Hd. unfold redis_until in He.
    destruct (marks st !! revocationKey k) as [x|]; [|done]. cbn in He. injection He as <-. cbn. do 2 f_equal.
    apply Z.leb_le. unfold to_ms, Millisecond in *. Z.to_euclidean_division_equations. lia.
  - intros k k' now e st Hd He Hn. cbn. unfold Redis_IsRevoked. by rewrite Hd.
Defined.

(** ** Families of refresh tokens *)

Section life.
  Context {CS RC : Type}.
  Abbreviation W := (World CS RC).

(** The tables: every token belongs to a session and is revoked with it, hashes are
    unique, and the tokens of a session are a chain: each used token has one child, and
    one token is unused. *)
Record sound (w : W) : Prop := mkSound {
  s_ids k s : sessions w !! k = Some s → SID s = k ∧ k < next_id w;
  t_ids i t : tokens w !! i = Some t → TID t = i ∧ i < next_id w;
  t_session i t : tokens w !! i = Some t →
    ∃ s, sessions w !! TSession t = Some s ∧ (is_Some (RevokedAt s) → is_Some (TRevokedAt t));
  t_hash i j t u : tokens w !! i = Some t → tokens w !! j = Some u → TokenHash t = TokenHash u → i = j;
  s_unused k s : sessions w !! k = Some s → ∃ i t, tokens w !! i = Some t ∧ TSession t = k ∧ UsedAt t = None;
  t_unused i j t u : tokens w !! i = Some t → tokens w !! j = Some u → TSession t = TSession u →
    UsedAt t = None → UsedAt u = None → i = j;
  t_parent i p t : tokens w !! i = Some t → ParentID t = Some p →
    ∃ u, tokens w !! p = Some u ∧ TSession u = TSession t ∧ is_Some (UsedAt u);
  t_child i t : tokens w !! i = Some t → is_Some (UsedAt t) → ∃ j u, tokens w !! j = Some u ∧ ParentID u = Some i;
  t_single i j p t u : tokens w !! i = Some t → tokens w !! j = Some u → ParentID t = Some p → ParentID u = Some p → i = j;
}.

(** A token that only may have been revoked. *)
Definition same_token (t t' : RefreshToken) : Prop :=
  TID t' = TID t ∧ TSession t' = TSession t ∧ TokenHash t' = TokenHash t ∧ ParentID t' = ParentID t ∧
  UsedAt t' = UsedAt t ∧ (is_Some (TRevokedAt t) → is_Some (TRevokedAt t')).

Definition new_hash (h : string) (w : W) : Prop := ∀ i t, tokens w !! i = Some t → TokenHash t ≠ h.

(** What the transactions do to the tables: nothing, a new session with its first token,
    an unused token exchanged for its child, or sessions that were alive revoked with
    their tokens. *)
Inductive change (w w' : W) : Prop :=
| ch_none :
    sessions w' = sessions w → tokens w' = tokens w → next_id w ≤ next_id w' → clock w ≤ clock w' → change w w'
| ch_create s t :
    next_id w ≤ SID s < next_id w' → next_id w ≤ TID t < next_id w' → RevokedAt s = None →
    TSession t = SID s → UsedAt t = None → ParentID t = None → new_hash (TokenHash t) w →
    sessions w' = <[SID s := s]> (sessions w) → tokens w' = <[TID t := t]> (tokens w) → clock w ≤ clock w' → change w w'
| ch_rotate now s t u :
    sessions w !! TSession t = Some s → RevokedAt s = None → tokens w !! TID t = Some t → UsedAt t = None →
    next_id w ≤ TID u < next_id w' → TSession u = TSession t → UsedAt u = None → ParentID u = Some (TID t) →
    new_hash (TokenHash u) w →
    sessions w' = <[TSession t := touch_session now s]> (sessions w) →
    tokens w' = <[TID u := u]> (<[TID t := use_token now t]> (tokens w)) → clock w ≤ clock w' → change w w'
| ch_revoke which now reason :
    next_id w ≤ next_id w' → clock w ≤ clock w' → clock w ≤ now →
    (∀ k s, sessions w !! k = Some s → which s = true → RevokedAt s = None) →
    (∀ k, sessions w' !! k = (λ s, if which s then revoke_session now reason s else s) <$> sessions w !! k) →
    (∀ i, tokens w !! i = None → tokens w' !! i = None) →
    (∀ i t, tokens w !! i = Some t → ∃ t', tokens w' !! i = Some t' ∧ same_token t t' ∧
      ∀ s, sessions w !! TSession t = Some s → which s = true → is_Some (TRevokedAt t')) → change w w'.

Lemma sound_same (w w' : W) :
  sound w → sessions w' = sessions w → tokens w' = tokens w → next_id w ≤ next_id w' → sound w'.
Proof.
  intros [] Es Et Hn. split; rewrite ?Es, ?Et; try done.
  - intros k s Hs. destruct (s_ids0 k s Hs). split; [done|lia].
  - intros i t Ht. destruct (t_ids0 i t Ht). split; [done|lia].
Qed.

Lemma sound_create (w w' : W) s t :
  sound w → next_id w ≤ SID s < next_id w' → next_id w ≤ TID t < next_id w' → RevokedAt s = None →
  TSession t = SID s → UsedAt t = None → ParentID t = None → new_hash (TokenHash t) w →
  sessions w' = <[SID s := s]> (sessions w) → tokens w' = <[TID t := t]> (tokens w) → sound w'.
Proof.
  intros [] Hi Hj Hr Hts Hu Hp Hh Es Et.
  assert (∀ k x, sessions w !! k = Some x → k ≠ SID s) as Hfs by (intros k x Hk ->; destruct (s_ids0 _ _ Hk); lia).
  assert (∀ k x, tokens w !! k = Some x → k ≠ TID t) as Hft by (intros k x Hk ->; destruct (t_ids0 _ _ Hk); lia).
  assert (∀ k x, tokens w !! k = Some x → TSession x ≠ SID s) as Hfo.
  { intros k x Hk He. destruct (t_session0 k x Hk) as (y & Hy & _). by apply (Hfs _ _ Hy). }
  split; rewrite ?Es, ?Et.
  - intros k x. rewrite lookup_insert_Some. intros [[<- <-]|[Hne Hk]]; [split; [done|lia]|].
    destruct (s_ids0 k x Hk). split; [done|lia].
  - intros k x. rewrite lookup_insert_Some. intros [[<- <-]|[Hne Hk]]; [split; [done|lia]|].
    destruct (t_ids0 k x Hk). split; [done|lia].
  - intros k x. rewrite lookup_insert_Some. intros [[<- <-]|[Hne Hk]].
    + exists s. rewrite Hts, lookup_insert_eq, Hr. split; [done|by intros []].
    + destruct (t_session0 k x Hk) as (y & Hy & Hyr). exists y. split; [|done].
      rewrite lookup_insert_ne; [done|]. intros He. by apply (Hfo k x Hk).
  - intros i j x y. rewrite !lookup_insert_Some. intros [[<- <-]|[? Hx]] [[<- <-]|[? Hy]]; try done; [| |by eapply t_hash0].
    + intros He. by destruct (Hh _ _ Hy).
    + intros He. by destruct (Hh _ _ Hx).
  - intros k x. rewrite lookup_insert_Some. intros [[<- <-]|[Hne Hk]].
    + exists (TID t), t. by rewrite lookup_insert_eq.
    + destruct (s_unused0 k x Hk) as (i & y & Hy & ? & ?). exists i, y. split; [|done].
      rewrite lookup_insert_ne; [done|]. intros He. by apply (Hft i y Hy).
  - intros i j x y. rewrite !lookup_insert_Some. intros [[<- <-]|[? Hx]] [[<- <-]|[? Hy]]; try done; [| |by eapply t_unused0].
    + intros He. rewrite Hts in He. by destruct (Hfo _ _ Hy).
    + intros He. rewrite Hts in He. by destruct (Hfo _ _ Hx).
  - intros i p x. rewrite lookup_insert_Some. intros [[<- <-]|[? Hx]] Hpx; [congruence|].
    destruct (t_parent0 i p x Hx Hpx) as (y & Hy & ? & ?). exists y. split; [|done].
    rewrite lookup_insert_ne; [done|]. intros He. by apply (Hft p y Hy).
  - intros i x. rewrite lookup_insert_Some. intros [[<- <-]|[? Hx]] Hux; [rewrite Hu in Hux; by destruct Hux|].
    destruct (t_child0 i x Hx Hux) as (j & y & Hy & ?). exists j, y. split; [|done].
    rewrite lookup_insert_ne; [done|]. intros He. by apply (Hft j y Hy).
  - intros i j p x y. rewrite !lookup_insert_Some. intros [[<- <-]|[? Hx]] [[<- <-]|[? Hy]]; try congruence. by eapply t_single0.
Qed.

Lemma sound_rotate (w w' : W) now s t u :
  sound w → sessions w !! TSession t = Some s → RevokedAt s = None → tokens w !! TID t = Some t → UsedAt t = None →
  next_id w ≤ TID u < next_id w' → TSession u = TSession t → UsedAt u = None → ParentID u = Some (TID t) →
  new_hash (TokenHash u) w →
  sessions w' = <[TSession t := touch_session now s]> (sessions w) →
  tokens w' = <[TID u := u]> (<[TID t := use_token now t]> (tokens w)) → sound w'.
Proof.
  intros [] Hs Hr Ht Hut Hn Hsu Huu Hpu Hh Es Et.
  assert (∀ k x, tokens w !! k = Some x → k ≠ TID u) as Hfu by (intros k x Hk ->; destruct (t_ids0 _ _ Hk); lia).
  assert (TID t ≠ TID u) as Htu by (by apply (Hfu _ t)).
  assert (∀ k x, tokens w' !! k = Some x ↔
    (k = TID u ∧ x = u) ∨ (k = TID t ∧ x = use_token now t) ∨ (k ≠ TID t ∧ tokens w !! k = Some x)) as Hlk.
  { intros k x. rewrite Et, !lookup_insert_Some. split; [naive_solver|].
    intros [[-> ->]|[[-> ->]|[Hk Hx]]]; [by left|right; split; [congruence|by left]|].
    right. split; [intros <-; by apply (Hfu _ _ Hx)|]. right. by split. }
  assert (∀ k x, sessions w' !! k = Some x ↔
    (k = TSession t ∧ x = touch_session now s) ∨ (k ≠ TSession t ∧ sessions w !! k = Some x)) as Hls.
  { intros k x. rewrite Es, lookup_insert_Some. naive_solver. }
  (* a token of the old table has a counterpart with the same session *)
  assert (∀ k x, tokens w !! k = Some x → ∃ y, tokens w' !! k = Some y ∧ TSession y = TSession x ∧
    (is_Some (UsedAt x) → is_Some (UsedAt y)) ∧ ParentID y = ParentID x) as Hold.
  { intros k x Hx. destruct (decide (k = TID t)) as [->|Hk].
    - assert (x = t) as -> by congruence. exists (use_token now t). split; [apply Hlk; naive_solver|done].
    - exists x. split; [apply Hlk; by right; right|done]. }
  split.
  - intros k x [[-> ->]|[Hk Hx]]%Hls; [destruct (s_ids0 _ _ Hs); split; [done|lia]|].
    destruct (s_ids0 k x Hx). split; [done|lia].
  - intros k x [[-> ->]|[[-> ->]|[Hk Hx]]]%Hlk; [split; [done|lia]|destruct (t_ids0 _ _ Ht); split; [done|lia]|].
    destruct (t_ids0 k x Hx). split; [done|lia].
  - assert (∀ k, (∃ y, sessions w !! k = Some y) → ∃ y', sessions w' !! k = Some y' ∧
      ∀ y, sessions w !! k = Some y → RevokedAt y' = RevokedAt y) as Hse.
    { intros k [y Hy]. destruct (decide (k = TSession t)) as [->|Hk].
      - exists (touch_session now s). split; [apply Hls; by left|]. intros y' Hy'. assert (y' = s) as -> by congruence. done.
      - exists y. split; [apply Hls; by right|]. congruence. }
    intros k x [[-> ->]|[[-> ->]|[Hk Hx]]]%Hlk; cbn.
    + rewrite Hsu. destruct (Hse (TSession t)) as (y' & Hy' & Hr'); [eauto|]. exists y'. split; [done|].
      rewrite (Hr' s Hs), Hr. by intros [].
    + destruct (Hse (TSession t)) as (y' & Hy' & Hr'); [eauto|]. exists y'. split; [done|].
      rewrite (Hr' s Hs), Hr. by intros [].
    + destruct (t_session0 k x Hx) as (y & Hy & Hyr). destruct (Hse (TSession x)) as (y' & Hy' & Hr'); [eauto|].
      exists y'. split; [done|]. by rewrite (Hr' y Hy).
  - intros i j x y [[-> ->]|[[-> ->]|[Hi Hx]]]%Hlk [[-> ->]|[[-> ->]|[Hj Hy]]]%Hlk; cbn; intros He; try done.
    + by destruct (Hh _ _ Ht).
    + by destruct (Hh _ _ Hy).
    + by destruct (Hh _ _ Ht).
    + by apply (t_hash0 _ _ t y).
    + by destruct (Hh _ _ Hx).
    + by apply (t_hash0 _ _ x t).
    + by eapply t_hash0.
  - intros k x [[-> ->]|[Hk Hx]]%Hls.
    + exists (TID u), u. split; [apply Hlk; by left|done].
    + destruct (s_unused0 k x Hx) as (i & y & Hy & Hys & Hyu). exists i, y. split; [|done]. apply Hlk. right; right.
      split; [|done]. intros ->. assert (y = t) as -> by congruence. done.
  - assert (∀ k x, k ≠ TID t → tokens w !! k = Some x → TSession x = TSession t → is_Some (UsedAt x)) as Huniq.
    { intros k x Hk Hx Hse. destruct (UsedAt x) eqn:E; [by eexists|]. destruct Hk. by eapply (t_unused0 k (TID t) x t). }
    intros i j x y [[-> ->]|[[-> ->]|[Hi Hx]]]%Hlk [[-> ->]|[[-> ->]|[Hj Hy]]]%Hlk; cbn; intros He Hux Huy; try done.
    + destruct (Huniq j y Hj Hy) as [z Hz]; congruence.
    + destruct (Huniq i x Hi Hx) as [z Hz]; congruence.
    + by eapply t_unused0.
  - intros i p x [[-> ->]|[[-> ->]|[Hi Hx]]]%Hlk; cbn; intros Hp.
    + assert (p = TID t) as -> by congruence. exists (use_token now t). split; [apply Hlk; naive_solver|]. split; [done|by eexists].
    + destruct (t_parent0 _ p t Ht Hp) as (y & Hy & Hys & Hyu). destruct (Hold p y Hy) as (y' & Hy' & Hs' & Hu' & _).
      exists y'. split; [done|]. split; [congruence|auto].
    + destruct (t_parent0 _ p x Hx Hp) as (y & Hy & Hys & Hyu). destruct (Hold p y Hy) as (y' & Hy' & Hs' & Hu' & _).
      exists y'. split; [done|]. split; [congruence|auto].
  - intros i x [[-> ->]|[[-> ->]|[Hi Hx]]]%Hlk; cbn; intros Hux.
    + rewrite Huu in Hux. by destruct Hux.
    + exists (TID u), u. split; [apply Hlk; by left|done].
    + destruct (t_child0 i x Hx Hux) as (j & y & Hy & Hyp). destruct (Hold j y Hy) as (y' & Hy' & _ & _ & Hp').
      exists j, y'. split; [done|congruence].
  - assert (∀ k x, tokens w !! k = Some x → ParentID x ≠ Some (TID t)) as Hno.
    { intros k x Hx Hp. destruct (t_parent0 k _ x Hx Hp) as (y & Hy & _ & Hyu). assert (y = t) as -> by congruence.
      rewrite Hut in Hyu. by destruct Hyu. }
    intros i j p x y [[-> ->]|[[-> ->]|[Hi Hx]]]%Hlk [[-> ->]|[[-> ->]|[Hj Hy]]]%Hlk; cbn; intros Hp Hq; try done;
      try (assert (p = TID t) as -> by congruence); try (by destruct (Hno _ _ Ht)); try (by destruct (Hno _ _ Hy));
      try (by destruct (Hno _ _ Hx)).
    + by apply (t_single0 _ _ p t y).
    + by apply (t_single0 _ _ p x t).
    + by eapply t_single0.
Qed.

Lemma sound_revoke (w w' : W) (which : Session → bool) now reason :
  sound w → next_id w ≤ next_id w' →
  (∀ k, sessions w' !! k = (λ s, if which s then revoke_session now reason s else s) <$> sessions w !! k) →
  (∀ i, tokens w !! i = None → tokens w' !! i = None) →
  (∀ i t, tokens w !! i = Some t → ∃ t', tokens w' !! i = Some t' ∧ same_token t t' ∧
      ∀ s, sessions w !! TSession t = Some s → which s = true → is_Some (TRevokedAt t')) → sound w'.
Proof.
  intros [] Hn Hs Hnone Hsome.
  assert (∀ i t', tokens w' !! i = Some t' → ∃ t, tokens w !! i = Some t ∧ same_token t t' ∧
    ∀ s, sessions w !! TSession t = Some s → which s = true → is_Some (TRevokedAt t')) as Hback.
  { intros i t' Ht'. destruct (tokens w !! i) as [t|] eqn:E; [|by rewrite Hnone in Ht'].
    destruct (Hsome i t E) as (x & Hx & ? & ?). assert (x = t') as -> by congruence. by exists t. }
  assert (∀ k s', sessions w' !! k = Some s' → ∃ s, sessions w !! k = Some s ∧ SID s' = SID s) as Hsb.
  { intros k s'. rewrite Hs. intros (s & Hk & ->)%fmap_Some. exists s. split; [done|]. by destruct (which s). }
  split.
  - intros k s' Hs'. destruct (Hsb k s' Hs') as (s & Hk & ->). destruct (s_ids0 k s Hk). split; [done|lia].
  - intros i t' Ht'. destruct (Hback i t' Ht') as (t & Ht & (-> & _) & _). destruct (t_ids0 i t Ht). split; [done|lia].
  - intros i t' Ht'. destruct (Hback i t' Ht') as (t & Ht & (_ & -> & _ & _ & _ & Hr) & Hw).
    destruct (t_session0 i t Ht) as (s & Hts & Hsr). rewrite Hs, Hts. cbn. eexists. split; [done|].
    destruct (which s) eqn:Ew; [intros _; by eapply Hw|auto].
  - intros i j t' u' Ht' Hu'. destruct (Hback i t' Ht') as (t & Ht & (_ & _ & -> & _) & _).
    destruct (Hback j u' Hu') as (u & Hu & (_ & _ & -> & _) & _). by eapply t_hash0.
  - intros k s' Hs'. destruct (Hsb k s' Hs') as (s & Hk & _). destruct (s_unused0 k s Hk) as (i & t & Ht & ? & ?).
    destruct (Hsome i t Ht) as (t' & Ht' & (_ & Hse & _ & _ & Hu & _) & _). exists i, t'. split; [done|]. by rewrite Hse, Hu.
  - intros i j t' u' Ht' Hu'. destruct (Hback i t' Ht') as (t & Ht & (_ & -> & _ & _ & -> & _) & _).
    destruct (Hback j u' Hu') as (u & Hu & (_ & -> & _ & _ & -> & _) & _). by eapply t_unused0.
  - intros i p t' Ht'. destruct (Hback i t' Ht') as (t & Ht & (_ & -> & _ & -> & _) & _). intros Hp.
    destruct (t_parent0 i p t Ht Hp) as (u & Hu & ? & ?). destruct (Hsome p u Hu) as (u' & Hu' & (_ & Hse & _ & _ & Huu & _) & _).
    exists u'. split; [done|]. by rewrite Hse, Huu.
  - intros i t' Ht'. destruct (Hback i t' Ht') as (t & Ht & (_ & _ & _ & _ & -> & _) & _). intros Hu.
    destruct (t_child0 i t Ht Hu) as (j & u & Huj & Hp). destruct (Hsome j u Huj) as (u' & Hu' & (_ & _ & _ & Hpp & _) & _).
    exists j, u'. split; [done|]. by rewrite Hpp.
  - intros i j p t' u' Ht' Hu'. destruct (Hback i t' Ht') as (t & Ht & (_ & _ & _ & -> & _) & _).
    destruct (Hback j u' Hu') as (u & Hu & (_ & _ & _ & -> & _) & _). by eapply t_single0.
Qed.

Lemma change_sound (w w' : W) : change w w' → sound w → sound w'.
Proof.
  intros Hc Hs. destruct Hc;
    [by eapply sound_same|by eapply sound_create|by eapply sound_rotate|by eapply sound_revoke].
Qed.

(** ** What the statements do *)

(** Everything but the tables and the supply of ids. *)
Definition frame (w w' : W) : Prop :=
  users w' = users w ∧ roles w' = roles w ∧ trips w' = trips w ∧ store w' = store w ∧ cache w' = cache w ∧
  entropy w' = entropy w ∧ clock w' = clock w ∧ events w' = events w.

(** The sessions in [which] are revoked, with their tokens. *)
Record revokes (which : Session → bool) (now : Time) (reason : string) (w w' : W) : Prop := mkRevokes {
  rv_frame : frame w w';
  rv_next : next_id w' = next_id w;
  rv_alive k s : sessions w !! k = Some s → which s = true → RevokedAt s = None;
  rv_sessions k : sessions w' !! k = (λ s, if which s then revoke_session now reason s else s) <$> sessions w !! k;
  rv_none i : tokens w !! i = None → tokens w' !! i = None;
  rv_some i t : tokens w !! i = Some t → ∃ t', tokens w' !! i = Some t' ∧ same_token t t' ∧
    ∀ s, sessions w !! TSession t = Some s → which s = true → is_Some (TRevokedAt t');
}.

Lemma revokes_change which reason w w' : revokes which (clock w) reason w w' → change w w'.
Proof.
  intros [(_ & _ & _ & _ & _ & _ & Hcl & _)]. eapply (ch_revoke _ _ which (clock w) reason); try done; lia.
Qed.

Lemma same_token_refl t : same_token t t.
Proof. done. Qed.

Lemma revoke_token_same now r t : same_token t (revoke_token now r t) ∧ is_Some (TRevokedAt (revoke_token now r t)).
Proof. unfold revoke_token. destruct (TRevokedAt t) eqn:E; [rewrite E; split; [done|by eexists]|split; [|by eexists]]. by unfold same_token; rewrite E. Qed.

(** [revokeSessionTx] of a live session, on tokens that only may have been revoked. *)
Lemma revokeSessionTx_revokes w (toks : gmap Z RefreshToken) id s reason :
  sound w → sessions w !! id = Some s → RevokedAt s = None →
  (∀ i, tokens w !! i = None → toks !! i = None) →
  (∀ i t, tokens w !! i = Some t → ∃ t', toks !! i = Some t' ∧ same_token t t') →
  revokes (λ x, SID x =? id) (clock w) (reason_string reason) w
    (revokeSessionTx id reason (clock w) (with_sessions w (sessions w) toks)).
Proof.
  intros Hw Hs Hr Hnone Hsome. assert (∀ k x, sessions w !! k = Some x → SID x = k) as Hid by (intros k x Hx; by destruct (s_ids _ Hw k x Hx)).
  split; [done|done| | | |].
  - intros k x Hx Heq%Z.eqb_eq. assert (k = id) as -> by (rewrite <- Heq; symmetry; auto). congruence.
  - intros k. cbn. destruct (sessions w !! k) as [x|] eqn:Ex.
    + cbn. destruct (decide (k = id)) as [->|Hne].
      * rewrite lookup_alter_eq, Ex. cbn. rewrite (Hid _ _ Ex), Z.eqb_refl. done.
      * rewrite lookup_alter_ne by done. rewrite Ex, (Hid _ _ Ex). by rewrite (proj2 (Z.eqb_neq k id)).
    + destruct (decide (k = id)) as [->|Hne]; [congruence|by rewrite lookup_alter_ne].
  - intros i Hi. cbn. unfold revoke_tokens. by rewrite lookup_fmap, Hnone.
  - intros i t Ht. destruct (Hsome i t Ht) as (t1 & Ht1 & Hsame). pose proof Hsame as (E1 & E2 & E3 & E4 & E5 & E6).
    cbn. unfold revoke_tokens. rewrite lookup_fmap, Ht1. cbn. eexists. split; [done|]. rewrite E2.
    destruct (revoke_token_same (clock w) (reason_string reason) t1) as [(F1 & F2 & F3 & F4 & F5 & F6) F7].
    destruct (Z.eqb_spec id (TSession t)) as [Heq|Hne].
    + split; [|done]. unfold same_token. rewrite F1, F2, F3, F4, F5. split_and!; auto.
    + split; [done|]. intros x Hx Heq%Z.eqb_eq. rewrite (Hid _ _ Hx) in Heq. congruence.
Qed.

Lemma find_token h (w : W) t :
  token_by_hash h w = Some t → ∃ i, tokens w !! i = Some t ∧ TokenHash t = h.
Proof.
  unfold token_by_hash. destruct (List.find _ _) as [[i x]|] eqn:E; [|done]. intros [= ->].
  apply List.find_some in E as [Hin He]. apply string_eqb_eq in He. exists i. split; [|done].
  by apply elem_of_map_to_list, list_elem_of_In.
Qed.

Lemma find_token_complete h (w : W) i t :
  sound w → tokens w !! i = Some t → TokenHash t = h → token_by_hash h w = Some t.
Proof.
  intros Hw Ht Hh. unfold token_by_hash. destruct (List.find _ _) as [[j x]|] eqn:E.
  - apply List.find_some in E as [Hin He]. apply string_eqb_eq in He. apply list_elem_of_In, elem_of_map_to_list in Hin.
    cbn in He. assert (i = j) as -> by (eapply (t_hash _ Hw); [done|done|congruence]). congruence.
  - exfalso. pose proof (List.find_none _ _ E (i, t)) as Hn. rewrite <- list_elem_of_In, elem_of_map_to_list in Hn.
    specialize (Hn Ht). cbn in Hn. apply string_eqb_neq in Hn. done.
Qed.

Lemma hash_fresh h (w : W) : hash_used h w = false → new_hash h w.
Proof.
  unfold hash_used, new_hash. intros Hf i t Ht He. apply not_true_iff_false in Hf. apply Hf.
  apply existsb_exists. exists (i, t). split; [by apply list_elem_of_In, elem_of_map_to_list|by apply string_eqb_eq].
Qed.

(** The errors that come with a revocation. *)
Definition revoking (e : Error) : option Reason :=
  match e with
  | ErrSessionExpired => Some ReasonAbsoluteExpiry
  | ErrDeviceMismatch => Some ReasonDeviceMismatch
  | ErrRefreshTokenReused => Some ReasonReuseDetected
  | ErrRefreshTokenExpired => Some ReasonRefreshExpired
  | _ => None
  end.

(** Every outcome of the rotation. *)
Inductive rotation_spec (h fp nh : string) (w w' : W) : Rotation → Prop :=
| rotation_unknown :
    token_by_hash h w = None → w' = w → rotation_spec h fp nh w w' (RotationFailed None ErrRefreshTokenInvalid)
| rotation_dead t s :
    token_by_hash h w = Some t → sessions w !! TSession t = Some s → is_Some (RevokedAt s) → w' = w →
    rotation_spec h fp nh w w' (RotationFailed (Some s) ErrSessionRevoked)
| rotation_revoked t s e reason :
    token_by_hash h w = Some t → sessions w !! TSession t = Some s → RevokedAt s = None →
    revoking e = Some reason → revokes (λ x, SID x =? SID s) (clock w) (reason_string reason) w w' →
    rotation_spec h fp nh w w' (RotationFailed (Some s) e)
| rotation_done t s u :
    token_by_hash h w = Some t → sessions w !! TSession t = Some s → RevokedAt s = None →
    fp = DeviceFingerprint s → clock w ≤ AbsoluteExpiresAt s → clock w ≤ ExpiresAt t →
    UsedAt t = None → TRevokedAt t = None → new_hash nh w →
    TokenHash u = nh → next_id w ≤ TID u < next_id w' → TSession u = TSession t → UsedAt u = None →
    ParentID u = Some (TID t) → frame w w' →
    sessions w' = <[TSession t := touch_session (clock w) s]> (sessions w) →
    tokens w' = <[TID u := u]> (<[TID t := use_token (clock w) t]> (tokens w)) →
    rotation_spec h fp nh w w' (Rotated (touch_session (clock w) s) u).

Lemma alter_insert {A} (f : A → A) (m : gmap Z A) i x : m !! i = Some x → alter f i m = <[i := f x]> m.
Proof.
  intros Hx. apply map_eq. intros j. destruct (decide (i = j)) as [<-|Hne].
  - by rewrite lookup_alter_eq, lookup_insert_eq, Hx.
  - by rewrite lookup_alter_ne, lookup_insert_ne.
Qed.

Lemma expire_same now t : same_token t (expire_token now t).
Proof. unfold same_token. cbn. split_and!; try done. Qed.

Lemma rotate_spec h fp nh exp w w' r :
  sound w → rotate h fp nh exp w = Ok (w', r) → rotation_spec h fp nh w w' r.
Proof.
  intros Hw. unfold rotate. destruct (token_by_hash h w) as [t|] eqn:Et; [|intros [= <- <-]; by apply rotation_unknown].
  destruct (find_token _ _ _ Et) as (i & Hi & Hh). destruct (t_ids _ Hw i t Hi) as [<- _].
  destruct (sessions w !! TSession t) as [s|] eqn:Es; [|done]. destruct (s_ids _ Hw _ _ Es) as [Hsid _]. cbv zeta.
  assert (∀ e reason, RevokedAt s = None → revoking e = Some reason →
    Ok (revokeSessionTx (SID s) reason (clock w) w, RotationFailed (Some s) e) = Ok (E := Error) (w', r) →
    rotation_spec h fp nh w w' r) as Hrev.
  { intros e reason Hr He [= <- <-]. eapply rotation_revoked; try done.
    rewrite <- Hsid in Es. refine (revokeSessionTx_revokes w (tokens w) (SID s) s reason Hw Es Hr _ _); [done|].
    intros k x Hx. by exists x. }
  case_bool_decide as Hr; [intros [= <- <-]; by eapply rotation_dead|].
  assert (RevokedAt s = None) as Hr' by (destruct (RevokedAt s); [destruct Hr; by eexists|done]).
  destruct (time_after (clock w) (AbsoluteExpiresAt s)) eqn:Ea; [by apply Hrev|].
  destruct (fp =s? DeviceFingerprint s) eqn:Ef; cbn [negb]; [|by apply Hrev].
  case_bool_decide as Hu; [by apply Hrev|].
  destruct (time_after (clock w) (ExpiresAt t)) eqn:Ex.
  - intros [= <- <-]. eapply rotation_revoked; try done. rewrite <- Hsid in Es. eapply revokeSessionTx_revokes; try done.
    + intros k Hk. destruct (decide (k = TID t)) as [->|Hne]; [congruence|by rewrite lookup_alter_ne].
    + intros k x Hx. destruct (decide (k = TID t)) as [->|Hne].
      * rewrite lookup_alter_eq, Hx. cbn. eexists. split; [done|apply expire_same].
      * rewrite lookup_alter_ne by done. by exists x.
  - assert (UsedAt t = None ∧ TRevokedAt t = None) as [Hut Hrt].
    { destruct (UsedAt t), (TRevokedAt t); try done; exfalso; apply Hu; [left|left|right]; by eexists. }
    unfold insert_token. destruct (hash_used _ _) eqn:Ehu; [done|]. cbn. intros [= <- <-].
    assert (new_hash nh w) as Hnh.
    { apply hash_fresh in Ehu. intros k x Hx. destruct (decide (k = TID t)) as [->|Hne].
      - assert (x = t) as -> by congruence. apply (Ehu (TID t) (use_token (clock w) t)). cbn.
        by rewrite lookup_alter_eq, Hi.
      - apply (Ehu k). cbn. by rewrite lookup_alter_ne. }
    unfold time_after in *. apply Z.ltb_ge in Ea, Ex. apply string_eqb_eq in Ef.
    eapply rotation_done; try done; cbn; [lia| |].
    + rewrite Hsid. by apply alter_insert.
    + f_equal. by apply alter_insert.
Qed.

Lemma rotation_clock h fp nh (w w' : W) r : rotation_spec h fp nh w w' r → clock w' = clock w.
Proof.
  intros [? ->|? ? ? ? ? ->|? ? ? ? _ _ _ _ [Hf _ _ _ _ _]|? ? ? _ _ _ _ _ _ _ _ _ _ _ _ _ _ Hf _ _]; [done|done|apply Hf|apply Hf].
Qed.

Lemma rotation_change h fp nh w w' r : sound w → rotation_spec h fp nh w w' r → change w w'.
Proof.
  intros Hw [Ht ->|t s Ht Hs Hr ->|t s e reason Ht Hs Hr He Hrv|t s u Ht Hs Hr Hfp Ha Hx Hu Htr Hnh Hth Hn Hus Huu Hup Hf Es Et].
  - apply ch_none; done || lia.
  - apply ch_none; done || lia.
  - by eapply revokes_change.
  - pose proof Hf as (_ & _ & _ & _ & _ & _ & Hcl & _). destruct (find_token _ _ _ Ht) as (i & Hi & _). destruct (t_ids _ Hw i t Hi) as [<- _].
    eapply ch_rotate; try done; [by rewrite Hth|lia].
Qed.

End life.

(** ** Requests *)

Section requests.
  Variables (sha256 sha256_hex : string → string) (hmac : string → string → string).
  Variable ParseAddress : string → bool.
  Variable Verify : string → string → string → bool.
  Variable uuid_String : Z → string.
  Context `{Codec : !AuthTokens.ClaimsCodec}.
  Context {CS RC : Type} `{HCS : !ChallengeStore CS} `{HRC : !RevocationCache RC} `{HRCL : !RevocationCacheLaws RC}.
  Context `{Huuid : !Inj (=) (=) uuid_String}.
  Variable cfg : AuthConfig.
  Hypothesis Hexpiry : 0 ≤ AccessTokenExpiry cfg.
  Abbreviation W := (World CS RC).
  Abbreviation M := (Call CS RC).

(** No answer of the database gets lost. *)
Definition no_lost (w : W) : Prop := Forall (λ t, t ≠ Lost) (trips w).

(** A session revoked at [r] is marked for as long as an access token of it can live. *)
Definition covered (w : W) (k : Z) (r : Time) : Prop :=
  r ≤ clock w ∧
  ((∃ e, marked_until (cache w) (uuid_String k) = Some e ∧ r + AccessTokenExpiry cfg + Minute - cache_grain ≤ e) ∨
   r + AccessTokenExpiry cfg + Minute - cache_grain < clock w).

(** Revoked sessions are covered, but for those in [S], which were revoked now. *)
Definition pending (S : Z → Prop) (w : W) : Prop :=
  ∀ k s r, sessions w !! k = Some s → RevokedAt s = Some r → (S k ∧ r = clock w) ∨ (¬ S k ∧ covered w k r).

Definition marks_ok (w : W) : Prop :=
  ∀ k s r, sessions w !! k = Some s → RevokedAt s = Some r → covered w k r.

Definition good (w : W) : Prop := cache_healthy (cache w) ∧ no_lost w ∧ marks_ok w.

(** A call changes the tables by steps and leaves revoked sessions marked. *)
Definition walks {A} (m : M A) : Prop := ∀ w : W, sound w →
  rtc change w (fst (m w)) ∧ clock (fst (m w)) = clock w ∧ (good w → good (fst (m w))).

Definition quiet (w w' : W) : Prop :=
  sessions w' = sessions w ∧ tokens w' = tokens w ∧ next_id w ≤ next_id w' ∧ clock w' = clock w ∧ cache w' = cache w ∧
  (no_lost w → no_lost w').
Definition calm {A} (m : M A) : Prop := ∀ w, quiet w (fst (m w)).

Lemma sess_quiet_refl w : quiet w w.
Proof. unfold quiet. split_and!; done || lia. Qed.

Lemma sess_quiet_trans w1 w2 w3 : quiet w1 w2 → quiet w2 w3 → quiet w1 w3.
Proof. intros (A1 & A2 & A3 & A4 & A5 & A6) (B1 & B2 & B3 & B4 & B5 & B6). unfold quiet. split_and!; try congruence; auto; lia. Qed.

Lemma quiet_good w w' : quiet w w' → good w → good w'.
Proof.
  intros (E1 & E2 & E3 & E4 & E5 & E6) (H1 & H2 & H3). unfold good, marks_ok, covered in *. rewrite E1, E4, E5.
  split_and!; auto.
Qed.

Lemma quiet_change w w' : quiet w w' → change w w'.
Proof. intros (E1 & E2 & E3 & E4 & _). apply ch_none; try done. lia. Qed.

Lemma calm_walks {A} (m : M A) : calm m → walks m.
Proof.
  intros Hm w Hw. pose proof (Hm w) as Hq. split_and!; [by apply rtc_once, quiet_change|apply Hq|by apply quiet_good].
Qed.

Lemma rtc_sound (w w' : W) : rtc change w w' → sound w → sound w'.
Proof. induction 1; eauto using change_sound. Qed.

Lemma sess_walks_bind {A B} (m : M A) (k : A → M B) : walks m → (∀ a, walks (k a)) → walks (m ≫= k).
Proof.
  intros Hm Hk w Hw. destruct (Hm w Hw) as (H1 & H2 & H3). change (m ≫= k) with (λ w, match m w with (w, Ok a) => k a w | (w, Err e) => (w, Err e) end).
  cbv beta. destruct (m w) as [w1 [a|e]]; cbn in *; [|by split_and!].
  destruct (Hk a w1 (rtc_sound _ _ H1 Hw)) as (K1 & K2 & K3).
  split_and!; [by etrans|congruence|auto].
Qed.

Lemma sess_calm_bind {A B} (m : M A) (k : A → M B) : calm m → (∀ a, calm (k a)) → calm (m ≫= k).
Proof.
  intros Hm Hk w. pose proof (Hm w) as H1. change (m ≫= k) with (λ w, match m w with (w, Ok a) => k a w | (w, Err e) => (w, Err e) end).
  cbv beta. destruct (m w) as [w1 [a|e]]; cbn in *; [|done]. eapply sess_quiet_trans; [exact H1|apply Hk].
Qed.

Lemma sess_calm_ret {A} (a : A) : calm (mret a).
Proof. intros w. apply sess_quiet_refl. Qed.
Lemma sess_calm_throw {A} e : calm (throw e : M A).
Proof. intros w. apply sess_quiet_refl. Qed.

(** A transaction has no effect, or that of its body; the answer of the body is lost
    only where the database loses answers. *)
Lemma transaction_cases {A} (f : W → result Error (W * A)) w :
  ∃ w0, (∃ l, w0 = with_trips w l) ∧ quiet w w0 ∧
    ((fst (transaction f w) = w0 ∧ (snd (transaction f w) = Err ErrDb ∨ ∃ e, snd (transaction f w) = Err e ∧ f w0 = Err e)) ∨
     (∃ a, f w0 = Ok (fst (transaction f w), a) ∧
        (snd (transaction f w) = Ok a ∨ (snd (transaction f w) = Err ErrDb ∧ ¬ no_lost w)))).
Proof.
  unfold transaction. destruct (trips w) as [|t rest] eqn:E.
  - exists w. split; [exists []; rewrite <- E; by destruct w|]. split; [apply sess_quiet_refl|].
    destruct (f w) as [[w' a]|e] eqn:Ef; cbn; [right; exists a; by split; [|left]|left; split; [done|right; eauto]].
  - exists (with_trips w rest). split; [by eexists|]. split.
    { unfold quiet, no_lost. cbn. rewrite E. split_and!; try done. by intros [_ H]%Forall_cons. }
    destruct t; [|by left; split; [|left]|].
    + destruct (f (with_trips w rest)) as [[w' a]|e] eqn:Ef; cbn; [right; exists a; by split; [|left]|left; split; [done|right; eauto]].
    + destruct (f (with_trips w rest)) as [[w' a]|e] eqn:Ef; cbn; [|by left; split; [|left]].
      right. exists a. split; [done|]. right. split; [done|]. unfold no_lost. rewrite E. by intros [H _]%Forall_cons.
Qed.

Lemma calm_transaction {A} (f : W → result Error (W * A)) :
  (∀ w w' a, f w = Ok (w', a) → quiet w w') → calm (transaction f).
Proof.
  intros Hf w. destruct (transaction_cases f w) as (w0 & _ & Hq & [[-> _]|(a & Ha & _)]); [done|].
  eapply sess_quiet_trans; [exact Hq|]. by eapply Hf.
Qed.

Lemma calm_try {A} (m : M A) : calm m → calm (try m).
Proof. intros Hm w. pose proof (Hm w). unfold try. by destruct (m w). Qed.

Lemma quiet_next w : quiet w (with_next w (next_id w + 1)).
Proof. unfold quiet. cbn. split_and!; done || lia. Qed.

Lemma calm_GetSessionByID id : calm (GetSessionByID id).
Proof. apply calm_transaction. intros w w' a. destruct (sessions w !! id); [|done]. intros [= <- _]. apply sess_quiet_refl. Qed.
Lemma calm_ListActive u : calm (ListActiveByUser u).
Proof. apply calm_transaction. intros w w' a [= <- _]. apply sess_quiet_refl. Qed.
Lemma calm_GetUserRoles u : calm (GetUserRoles u).
Proof. apply calm_transaction. intros w w' a [= <- _]. apply sess_quiet_refl. Qed.
Lemma calm_GetUserByWallet a : calm (GetUserByWallet a).
Proof. apply calm_transaction. intros w w' x. destruct (List.find _ _) as [[i u]|]; [|done]. intros [= <- _]. apply sess_quiet_refl. Qed.

Lemma calm_RegisterUser a d : calm (RegisterUser a d).
Proof.
  intros w. unfold RegisterUser, fresh_id. eapply sess_quiet_trans; [apply quiet_next|].
  apply calm_transaction. intros w1 w' x. destruct (existsb _ _); [done|]. intros [= <- _]. unfold quiet. cbn. split_and!; done || lia.
Qed.

Lemma calm_user_of a : calm (user_of a).
Proof.
  apply sess_calm_bind; [apply calm_try, calm_GetUserByWallet|]. intros [u|e]; [apply sess_calm_ret|apply calm_RegisterUser].
Qed.

Lemma sess_calm_now : calm now.
Proof. intros w. apply sess_quiet_refl. Qed.
Lemma calm_tell e : calm (tell e).
Proof. intros w. unfold quiet. cbn. split_and!; done || lia. Qed.
Lemma calm_new_uuid : calm new_uuid.
Proof. intros w. apply quiet_next. Qed.
Lemma calm_token : calm generateOpaqueToken.
Proof. intros w. unfold generateOpaqueToken. destruct (entropy w) as [|[s|] rest]; unfold quiet; cbn; split_and!; done || lia. Qed.
Lemma calm_set_challenge a c : calm (set_challenge a c).
Proof. intros w. unfold set_challenge. destruct (Store_Set _ _ _ _) as [s e]. unfold quiet. cbn. split_and!; done || lia. Qed.
Lemma calm_take_challenge a : calm (take_challenge a).
Proof. intros w. unfold take_challenge. destruct (GetAndDelete _ _ _) as [s e]. unfold quiet. cbn. split_and!; done || lia. Qed.
Lemma calm_mint u a l k : calm (mint hmac uuid_String cfg u a l k).
Proof.
  apply sess_calm_bind; [apply sess_calm_now|]. intros t. apply sess_calm_bind; [apply calm_new_uuid|]. intros j. apply sess_calm_ret.
Qed.

Lemma walks_GenerateChallenge a : walks (GenerateChallenge ParseAddress a).
Proof.
  apply calm_walks. unfold GenerateChallenge. destruct (negb _); [apply sess_calm_throw|].
  apply sess_calm_bind; [apply calm_token|]. intros c. apply sess_calm_bind; [apply calm_set_challenge|]. intros _. apply sess_calm_ret.
Qed.

(** Signing in creates one session. *)
Lemma create_change (w : W) s h e w' r :
  sound w → (let? (w, s) := insert_session s w in let? (w, rt) := insert_token (SID s) h None e w in Ok (w, (s, rt))) = Ok (w', r) →
  change w w' ∧ clock w' = clock w ∧ cache w' = cache w ∧ trips w' = trips w ∧
  (∀ k x, sessions w' !! k = Some x → is_Some (RevokedAt x) → sessions w !! k = Some x) ∧ SUserID (fst r) = SUserID s.
Proof.
  intros Hw. unfold insert_session. destruct (bool_decide _); [|done]. cbn. unfold insert_token.
  destruct (hash_used h _) eqn:Eh; [done|]. cbn. intros [= <- <-]. apply hash_fresh in Eh.
  split_and!; try done.
  - apply (ch_create _ _ (mkSession (next_id w) (SUserID s) (SWallet s) (DeviceFingerprint s) (UserAgent s) (IPAddress s)
      (clock w) (clock w) (AbsoluteExpiresAt s) None None) (mkToken (next_id w + 1) (next_id w) h None (clock w) e None None None));
      cbn; try done; lia.
  - intros k x. cbn. rewrite lookup_insert_Some. intros [[<- <-]|[_ Hk]] Hr; [by destruct Hr|done].
Qed.

Lemma walks_CreateSession s h e : walks (CreateSession s h e).
Proof.
  intros w Hw. unfold CreateSession.
  match goal with |- context [transaction ?g w] => pose (f := g); destruct (transaction_cases f w) as (w0 & (l & Hl) & Hq & Hcase) end.
  fold f. destruct Hcase as [[-> _]|(a & Ha & _)].
  - split_and!; [by apply rtc_once, quiet_change|apply Hq|by apply quiet_good].
  - assert (sound w0) as Hw0 by (eapply change_sound; [by apply quiet_change|done]).
    destruct (create_change _ _ _ _ _ _ Hw0 Ha) as (Hc & Hcl & Hca & Htr & Hrv & _).
    pose proof Hq as (E1 & E2 & E3 & E4 & E5 & E6).
    split_and!; [eapply rtc_l; [by apply quiet_change|by apply rtc_once]|congruence|].
    intros (G1 & G2 & G3)%(quiet_good _ _ Hq). unfold good, no_lost, marks_ok, covered. rewrite Hca, Htr, Hcl.
    split_and!; [done|done|]. intros k x r Hk Hr. apply (G3 k x r); [|done]. apply Hrv; [done|by eexists].
Qed.

Lemma walks_VerifyAndIssue a sg c meta :
  walks (VerifyAndIssue sha256 sha256_hex hmac ParseAddress Verify uuid_String cfg a sg c meta).
Proof.
  unfold VerifyAndIssue. destruct (_ =s? _); [by apply calm_walks, sess_calm_throw|].
  apply sess_walks_bind; [by apply calm_walks, calm_take_challenge|]. intros st.
  destruct (negb _); [by apply calm_walks, sess_calm_throw|]. destruct (negb _); [by apply calm_walks, sess_calm_throw|].
  destruct (Std_DecodeString sg) as [sb|]; [|by apply calm_walks, sess_calm_throw].
  destruct (negb _); [by apply calm_walks, sess_calm_throw|].
  apply sess_walks_bind; [by apply calm_walks, calm_user_of|]. intros u.
  apply sess_walks_bind; [by apply calm_walks, calm_GetUserRoles|]. intros l.
  apply sess_walks_bind; [by apply calm_walks, sess_calm_now|]. intros t.
  apply sess_walks_bind; [by apply calm_walks, calm_token|]. intros raw.
  apply sess_walks_bind; [apply walks_CreateSession|]. intros [s rt].
  apply sess_walks_bind; [by apply calm_walks, calm_mint|]. intros acc.
  apply sess_walks_bind; [by apply calm_walks, calm_tell|]. intros _.
  apply sess_walks_bind; [by apply calm_walks, calm_tell|]. intros _. by apply calm_walks, sess_calm_ret.
Qed.

(** ** Revocations are marked *)

Lemma pending_none w : pending (λ _, False) w ↔ marks_ok w.
Proof. unfold pending, marks_ok. split; intros H k s r Hk Hr; [by destruct (H k s r Hk Hr) as [[? _]|[_ ?]]|right; eauto]. Qed.

Lemma pending_ext (S T : Z → Prop) w : (∀ k, S k ↔ T k) → pending S w → pending T w.
Proof. intros He H k s r Hk Hr. rewrite <- !He. by apply (H k s r). Qed.

Lemma pending_same S w w' :
  sessions w' = sessions w → cache w' = cache w → clock w' = clock w → pending S w → pending S w'.
Proof. intros E1 E2 E3 H k s r. unfold covered. rewrite E1, E2, E3. apply H. Qed.

Lemma revokes_pending which r w w' :
  sound w → revokes which (clock w) r w w' → marks_ok w →
  pending (λ k, ∃ s, sessions w !! k = Some s ∧ which s = true) w'.
Proof.
  intros Hw [Hf _ Ha Hs _ _] Hm k s x Hk Hx. destruct Hf as (_ & _ & _ & _ & Hc & _ & Hcl & _).
  rewrite Hs in Hk. apply fmap_Some in Hk as (y & Hy & ->). unfold covered. rewrite Hc, Hcl.
  destruct (which y) eqn:Ey; cbn in Hx.
  - left. split; [by exists y|congruence].
  - right. split; [|by eapply Hm]. intros (z & Hz & Ez). congruence.
Qed.

Lemma mark_pending S k w :
  cache_healthy (cache w) → pending S w →
  let w' := fst (mark_revoked uuid_String cfg k w) in
  cache_healthy (cache w') ∧ sessions w' = sessions w ∧ tokens w' = tokens w ∧
  next_id w' = next_id w ∧ clock w' = clock w ∧ trips w' = trips w ∧ pending (λ x, S x ∧ x ≠ k) w'.
Proof.
  intros Hh Hp. cbv zeta. unfold mark_revoked.
  destruct (MarkRevoked (uuid_String k) (AccessTokenExpiry cfg + Minute) (clock w) (cache w)) as [c b] eqn:E.
  assert (c = fst (MarkRevoked (uuid_String k) (AccessTokenExpiry cfg + Minute) (clock w) (cache w))) as Hc by (by rewrite E).
  cbn. split_and!; try done; [rewrite Hc; by apply mark_healthy|].
  intros x s r Hx Hr. cbn in Hx. destruct (Hp x s r Hx Hr) as [[HS Hr']|[HS Hcov]]; unfold covered; cbn; rewrite Hc.
  - destruct (decide (x = k)) as [->|Hne]; [|left; done]. right. split; [by intros [_ ?]|]. split; [lia|].
    destruct (mark_marks (uuid_String k) (AccessTokenExpiry cfg + Minute) (clock w) (cache w) Hh) as (e & He & Hle);
      [unfold Minute, Second, Millisecond in *; lia|]. left. exists e. split; [done|lia].
  - right. split; [by intros [? _]|]. destruct Hcov as [Hle Hcov]. split; [done|]. destruct Hcov as [(e & He & Hee)|Hlt]; [|by right].
    left. destruct (decide (x = k)) as [->|Hne].
    + destruct (mark_marks (uuid_String k) (AccessTokenExpiry cfg + Minute) (clock w) (cache w) Hh) as (e' & He' & Hle');
        [unfold Minute, Second, Millisecond in *; lia|]. exists e'. split; [done|lia].
    + exists e. rewrite mark_others; [done| |done]. intros Heq. apply Hne. symmetry. by apply (inj uuid_String).
Qed.

(** After a revocation the rest of the request marks the sessions and goes on calmly. *)
Definition settles {A} (S : Z → Prop) (m : M A) : Prop := ∀ w : W,
  sessions (fst (m w)) = sessions w ∧ tokens (fst (m w)) = tokens w ∧ next_id w ≤ next_id (fst (m w)) ∧
  clock (fst (m w)) = clock w ∧
  (cache_healthy (cache w) → no_lost w → pending S w →
   cache_healthy (cache (fst (m w))) ∧ no_lost (fst (m w)) ∧ marks_ok (fst (m w))).

Lemma settles_calm {A} (m : M A) : calm m → settles (λ _, False) m.
Proof.
  intros Hm w. destruct (Hm w) as (E1 & E2 & E3 & E4 & E5 & E6). split_and!; try done. intros Hh Hl Hp.
  split_and!; [by rewrite E5|auto|]. apply pending_none. by eapply pending_same.
Qed.

Lemma settles_mark {A} S k (f : unit → M A) :
  settles (λ x, S x ∧ x ≠ k) (f tt) → settles S (mark_revoked uuid_String cfg k ≫= f).
Proof.
  intros Hf w. change (mark_revoked uuid_String cfg k ≫= f)
    with (λ w, match mark_revoked uuid_String cfg k w with (w, Ok a) => f a w | (w, Err e) => (w, Err e) end). cbv beta.
  destruct (mark_revoked uuid_String cfg k w) as [w1 r] eqn:E.
  assert (r = Ok tt ∧ sessions w1 = sessions w ∧ tokens w1 = tokens w ∧ next_id w1 = next_id w ∧ clock w1 = clock w ∧ trips w1 = trips w)
    as (-> & E1 & E2 & E3 & E4 & E5).
  { unfold mark_revoked in E. destruct (MarkRevoked _ _ _ _) as [c b]. injection E as <- <-. done. }
  destruct (Hf w1) as (F1 & F2 & F3 & F4 & F5). split_and!; try congruence. intros Hh Hl Hp.
  pose proof (mark_pending S k w Hh Hp) as Hm. cbv zeta in Hm. rewrite E in Hm. destruct Hm as (M1 & _ & _ & _ & _ & _ & M2).
  apply F5; [done|unfold no_lost; by rewrite E5|done].
Qed.

Lemma settles_ext {A} (S T : Z → Prop) (m : M A) : (∀ k, T k → S k) → (∀ k, S k → T k) → settles S m → settles T m.
Proof.
  intros H1 H2 Hm w. destruct (Hm w) as (F1 & F2 & F3 & F4 & F5). split_and!; try done. intros Hh Hl Hp.
  apply F5; [done|done|]. eapply pending_ext; [|exact Hp]. intros k. split; auto.
Qed.

Lemma settles_mark_all {A} (l : list Session) (f : unit → M A) (S : Z → Prop) :
  settles (λ x, S x ∧ x ∉ map SID l) (f tt) → settles S (mark_all uuid_String cfg l ≫= f).
Proof.
  revert S. induction l as [|s l IH]; intros S Hf.
  - change (mark_all uuid_String cfg [] ≫= f) with (f tt). eapply settles_ext; [| |exact Hf]; intros k; [split; [done|apply not_elem_of_nil]|by intros [? _]].
  - assert (settles S (mark_revoked uuid_String cfg (SID s) ≫= λ _, (mark_all uuid_String cfg l ≫= f))) as H.
    { apply settles_mark. apply IH. eapply settles_ext; [| |exact Hf]; intros k; cbn; rewrite not_elem_of_cons; tauto. }
    intros w. specialize (H w). unfold mbind, M_bind in *. cbn. unfold mbind, M_bind.
    by destruct (mark_revoked uuid_String cfg (SID s) w) as [w1 [a|e]].
Qed.

(** A step that revokes, and the rest that marks. *)
Lemma settled_good {A} (w w1 : W) which r (m : M A) :
  sound w → revokes which (clock w) r w w1 →
  settles (λ k, ∃ s, sessions w !! k = Some s ∧ which s = true) m →
  rtc change w (fst (m w1)) ∧ clock (fst (m w1)) = clock w ∧ (good w → good (fst (m w1))).
Proof.
  intros Hw Hr Hm. destruct (Hm w1) as (F1 & F2 & F3 & F4 & F5). pose proof (rv_frame _ _ _ _ _ Hr) as (_ & _ & Htr & _ & Hca & _ & Hcl & _).
  split_and!; [|congruence|].
  - eapply rtc_l; [by eapply revokes_change|]. apply rtc_once. apply ch_none; try done. lia.
  - intros (G1 & G2 & G3). apply F5; [by rewrite Hca|unfold no_lost; by rewrite Htr|]. by eapply revokes_pending.
Qed.

(** One call's way, from one world. *)
Definition way (w w' : W) : Prop := rtc change w w' ∧ clock w' = clock w ∧ (good w → good w').

Lemma way_quiet w w' : quiet w w' → way w w'.
Proof. intros Hq. split_and!; [by apply rtc_once, quiet_change|apply Hq|by apply quiet_good]. Qed.

Lemma way_trans w1 w2 w3 : way w1 w2 → way w2 w3 → way w1 w3.
Proof. intros (A1 & A2 & A3) (B1 & B2 & B3). split_and!; [by etrans|congruence|auto]. Qed.

Lemma way_rotated h fp nh w w' s u :
  sound w → rotation_spec h fp nh w w' (Rotated s u) → way w w'.
Proof.
  intros Hw Hr. split_and!; [by eapply rtc_once, rotation_change|by inversion Hr as [| | |? ? ? _ _ _ _ _ _ _ _ _ _ _ _ _ _ (_ & _ & _ & _ & _ & _ & ? & _)]|].
  inversion Hr as [| | |t s0 u0 Ht Hs Hrv _ _ _ _ _ _ _ _ _ _ _ Hf Es Et]; subst.
  destruct Hf as (_ & _ & Htr & _ & Hca & _ & Hcl & _). intros (G1 & G2 & G3).
  unfold good, no_lost, marks_ok, covered. rewrite Hca, Htr, Hcl, Es. split_and!; [done|done|].
  intros k x r. rewrite lookup_insert_Some. intros [[<- <-]|[_ Hk]] Hx; [cbn in Hx; congruence|]. by apply (G3 k x).
Qed.

Lemma settles_finalize {A} s reason (b : bool) (f : unit → M A) (w : W) :
  sound w → sessions w !! SID s = Some s → calm (f tt) →
  settles (λ k, ∃ x, sessions w !! k = Some x ∧ (SID x =? SID s) = true)
    (finalizeRevocation uuid_String cfg (Some s) reason b ≫= f).
Proof.
  intros Hw Hs Hf. unfold finalizeRevocation.
  assert (settles (λ k, ∃ x, sessions w !! k = Some x ∧ (SID x =? SID s) = true)
    (mark_revoked uuid_String cfg (SID s) ≫= λ _,
      (tell (CloseSession (uuid_String (SID s))) ;;
       tell (Audit (SUserID s) ("session." +:+ reason_string reason)%string (SID s)) ;;
       (if b then tell (ReuseDetected (SUserID s) (SID s) (reason_string reason)) else mret ())) ≫= f)) as H.
  { apply settles_mark. eapply settles_ext; [| |apply settles_calm].
    - intros k [(x & Hx & He%Z.eqb_eq) Hne]. apply Hne. rewrite <- He. symmetry. by destruct (s_ids _ Hw k x Hx).
    - done.
    - apply sess_calm_bind; [|by intros []]. apply sess_calm_bind; [apply calm_tell|]. intros _.
      apply sess_calm_bind; [apply calm_tell|]. intros _. destruct b; [apply calm_tell|apply sess_calm_ret]. }
  intros w1. specialize (H w1). unfold mbind, M_bind in *. by destruct (mark_revoked uuid_String cfg (SID s) w1) as [w2 [[]|e]].
Qed.

(** The rotation with what a request does of its answer. *)
Lemma way_rotation {A} h fp nh exp (f : Session → RefreshToken → M A) w :
  sound w → (∀ s u, calm (f s u)) →
  way w (fst ((r ← try (RotateRefreshToken h fp nh exp);
               match r with
               | Err _ => throw ErrRefreshFailed
               | Ok (RotationFailed sess e) => finalize uuid_String cfg sess e ;; throw ErrRefreshFailed
               | Ok (Rotated s u) => f s u
               end) w)).
Proof.
  intros Hw Hf. unfold mbind at 1, M_bind at 1, try. destruct (RotateRefreshToken h fp nh exp w) as [w1 r1] eqn:E.
  unfold RotateRefreshToken in E. destruct (transaction_cases (rotate h fp nh exp) w) as (w0 & _ & Hq & Hcase).
  rewrite E in Hcase. cbn in Hcase. assert (sound w0) as Hw0 by (eapply change_sound; [by apply quiet_change|done]).
  destruct Hcase as [[-> Hr]|(a & Ha & [->|[-> Hl]])].
  - assert (∃ e, r1 = Err e) as [e ->] by (destruct Hr as [->|(e & -> & _)]; eauto). by apply way_quiet.
  - eapply way_trans; [by apply way_quiet|]. destruct (rotate_spec _ _ _ _ _ _ _ Hw0 Ha) as [Ht Heq|t s Ht Hs Hrv Heq|t s e reason Ht Hs Hrv Her Hrk|t s u Ht Hs Hrv Hfp H5 H6 H7 H8 H9 H10 H11 H12 H13 H14 Hfr Es Et].
    + rewrite Heq. apply way_quiet, sess_quiet_refl.
    + rewrite Heq. apply way_quiet, sess_quiet_refl.
    + destruct (find_token _ _ _ Ht) as (i & Hi & _). destruct (s_ids _ Hw0 _ _ Hs) as [Hsid _].
      assert (finalize uuid_String cfg (Some s) e = finalizeRevocation uuid_String cfg (Some s) reason
        (match e with ErrRefreshTokenReused | ErrDeviceMismatch => true | _ => false end)) as ->
        by (destruct e; cbn in Her; try done; by injection Her as <-).
      eapply settled_good; [done|exact Hrk|]. apply settles_finalize; [done|by rewrite Hsid|apply sess_calm_throw].
    + eapply way_trans; [eapply way_rotated; [done|by eapply rotation_done]|]. apply way_quiet. apply Hf.
  - pose proof (rotate_spec _ _ _ _ _ _ _ Hw0 Ha) as Hsp. split_and!.
    + eapply rtc_l; [by apply quiet_change|]. by eapply rtc_once, rotation_change.
    + etrans; [by eapply rotation_clock|apply Hq].
    + by intros (_ & Hnl & _).
Qed.

(** A transaction that revokes, followed by marks. *)
Lemma way_revoking {A B} (f : W → result Error (W * A)) (k : A → M B) (which : Session → bool) reason w :
  sound w →
  (∀ w0 w1 a, sound w0 → f w0 = Ok (w1, a) → revokes which (clock w0) reason w0 w1 ∧
     settles (λ x, ∃ s, sessions w0 !! x = Some s ∧ which s = true) (k a)) →
  way w (fst ((transaction f ≫= k) w)).
Proof.
  intros Hw Hf. change (transaction f ≫= k) with (λ w, match transaction f w with (w, Ok a) => k a w | (w, Err e) => (w, Err e) end).
  cbv beta. destruct (transaction_cases f w) as (w0 & _ & Hq & Hcase). destruct (transaction f w) as [w1 r1]. cbn in Hcase.
  assert (sound w0) as Hw0 by (eapply change_sound; [by apply quiet_change|done]).
  destruct Hcase as [[-> Hr]|(a & Ha & Hr)].
  - assert (∃ e, r1 = Err e) as [e ->] by (destruct Hr as [->|(e & -> & _)]; eauto). by apply way_quiet.
  - destruct (Hf w0 w1 a Hw0 Ha) as [Hrv Hst]. destruct Hr as [->|[-> Hl]].
    + eapply way_trans; [by apply way_quiet|]. by eapply settled_good.
    + pose proof (rv_frame _ _ _ _ _ Hrv) as (_ & _ & _ & _ & _ & _ & Hcl & _). pose proof Hq as (_ & _ & _ & Hc & _). split_and!.
      * eapply rtc_l; [by apply quiet_change|]. by eapply rtc_once, revokes_change.
      * cbn. congruence.
      * by intros (_ & Hnl & _).
Qed.

Lemma walks_Refresh raw meta : walks (Refresh sha256_hex hmac uuid_String cfg raw meta).
Proof.
  unfold Refresh. destruct (_ =s? _); [by apply calm_walks, sess_calm_throw|]. destruct (_ =s? _); [by apply calm_walks, sess_calm_throw|].
  apply sess_walks_bind; [by apply calm_walks, sess_calm_now|]. intros t.
  apply sess_walks_bind; [by apply calm_walks, calm_token|]. intros nr w Hw.
  apply (way_rotation _ _ _ _ (λ s _, userRoles ← GetUserRoles (SUserID s);
    accessToken ← mint hmac uuid_String cfg (SUserID s) (SWallet s) userRoles (SID s);
    mret (tokens_of cfg accessToken nr s))); [done|]. intros s u.
  apply sess_calm_bind; [apply calm_GetUserRoles|]. intros l. apply sess_calm_bind; [apply calm_mint|]. intros a. apply sess_calm_ret.
Qed.

Lemma walks_revokeOwnedSession u k reason : walks (revokeOwnedSession uuid_String cfg u k reason).
Proof.
  unfold revokeOwnedSession. apply sess_walks_bind; [by apply calm_walks, calm_GetSessionByID|]. intros x.
  destruct (negb _); [by apply calm_walks, sess_calm_throw|]. intros w Hw. unfold RevokeSession_tx.
  apply (way_revoking _ _ (λ s, SID s =? k) (reason_string reason)); [done|]. intros w0 w1 a Hw0.
  destruct (sessions w0 !! k) as [s|] eqn:Es; [|done]. case_bool_decide as Hr; [done|]. intros [= <- <-].
  assert (RevokedAt s = None) as Hr' by (destruct (RevokedAt s); [destruct Hr; by eexists|done]). split.
  - refine (revokeSessionTx_revokes w0 (tokens w0) k s reason Hw0 Es Hr' _ _); [done|]. intros i t Ht. by exists t.
  - apply settles_mark. eapply settles_ext; [| |apply settles_calm].
    + intros i [(y & Hy & He%Z.eqb_eq) Hne]. apply Hne. rewrite <- He. symmetry. by destruct (s_ids _ Hw0 i y Hy).
    + done.
    + apply sess_calm_bind; [apply calm_tell|]. intros _. apply calm_tell.
Qed.

(** The sessions [RevokeAllByUser] answers are those it revokes. *)
Lemma elem_of_revoked u now r (w : W) k :
  sound w →
  k ∈ map SID (map (revoke_session now r) (List.filter (revocable u) (map snd (map_to_list (sessions w))))) ↔
  ∃ s, sessions w !! k = Some s ∧ revocable u s = true.
Proof.
  intros Hw. rewrite map_map. rewrite list_elem_of_In, in_map_iff. split.
  - intros (s & <- & Hin). apply filter_In in Hin as [Hin Hr]. apply in_map_iff in Hin as ([i x] & <- & Hin).
    apply list_elem_of_In, elem_of_map_to_list in Hin. cbn in *. exists x. split; [|done]. by destruct (s_ids _ Hw i x Hin) as [-> _].
  - intros (s & Hs & Hr). exists s. split; [cbn; by destruct (s_ids _ Hw k s Hs)|]. apply filter_In. split; [|done].
    apply in_map_iff. exists (k, s). split; [done|]. by apply list_elem_of_In, elem_of_map_to_list.
Qed.

Lemma RevokeAllByUser_revokes u reason (w w' : W) l :
  sound w →
  (let now := clock w in let r := reason_string reason in
   let revoked := map (revoke_session now r) (List.filter (revocable u) (map snd (map_to_list (sessions w)))) in
   let ids := map SID revoked in
   Ok (E := Error) (with_sessions w ((λ s, if revocable u s then revoke_session now r s else s) <$> sessions w)
         (revoke_tokens (λ id, existsb (Z.eqb id) ids) now r (tokens w)), revoked)) = Ok (w', l) →
  revokes (revocable u) (clock w) (reason_string reason) w w' ∧
  ∀ k, k ∈ map SID l ↔ ∃ s, sessions w !! k = Some s ∧ revocable u s = true.
Proof.
  intros Hw. cbv zeta. intros [= <- <-]. split; [|intros k; by apply elem_of_revoked]. split; [done|done| | | |].
  - intros k s _. unfold revocable. intros [_ Hr]%andb_true_iff. by apply bool_decide_eq_true in Hr.
  - intros k. cbn. by rewrite lookup_fmap.
  - intros i Hi. cbn. unfold revoke_tokens. by rewrite lookup_fmap, Hi.
  - intros i t Ht. cbn. unfold revoke_tokens. rewrite lookup_fmap, Ht. cbn. eexists. split; [done|].
    destruct (revoke_token_same (clock w) (reason_string reason) t) as [Hsame Hrev].
    destruct (existsb _ _) eqn:E; [by split|]. split; [done|]. intros s Hs Hr. exfalso.
    apply not_true_iff_false in E. apply E. apply existsb_exists. exists (TSession t). split; [|apply Z.eqb_refl].
    apply list_elem_of_In. rewrite elem_of_revoked by done. by exists s.
Qed.

Lemma walks_LogoutAll u : walks (LogoutAll uuid_String cfg u).
Proof.
  intros w Hw. unfold LogoutAll, RevokeAllByUser.
  apply (way_revoking _ _ (revocable u) (reason_string ReasonLogoutAll)); [done|]. intros w0 w1 l Hw0 Hl.
  destruct (RevokeAllByUser_revokes _ ReasonLogoutAll _ _ _ Hw0 Hl) as [Hrv Hin]. split; [done|].
  apply settles_mark_all. eapply settles_ext; [| |apply settles_calm].
  - intros k [Hk Hn]. by apply Hn, Hin.
  - done.
  - apply sess_calm_bind; [apply calm_tell|]. intros _. apply sess_calm_bind; [apply calm_tell|]. intros _. apply sess_calm_ret.
Qed.

Lemma walks_ListSessions u : walks (ListSessions u).
Proof. apply calm_walks, calm_ListActive. Qed.

End requests.
End SessionLife.
