(* ===== verification/SessionProps.v ===== *)
(** * Properties of sessions

    Histories of requests: what every history keeps, what a replayed refresh token
    does, that a revoked session stays out, and that a challenge is good for one
    sign-in. *)
From S2P Require Import Prelude.
From S2P Require Import AuthTokens.
From S2P Require Import Sessions.
From S2P Require Import SessionLife.

Module SessionProps.
Import Sessions SessionLife.

(** ** What a change leaves *)

Section changes.
  Context {CS RC : Type}.
  Abbreviation W := (World CS RC).

(** A later state of a token, and of a session. *)
Definition token_after (t t' : RefreshToken) : Prop :=
  TokenHash t' = TokenHash t ∧ TSession t' = TSession t ∧ (is_Some (UsedAt t) → is_Some (UsedAt t')).
Definition session_after (now : Time) (s s' : Session) : Prop :=
  (∀ r, RevokedAt s = Some r → RevokedAt s' = Some r) ∧
  (∀ r, RevokedAt s = None → RevokedAt s' = Some r → now ≤ r).

Lemma change_token (w w' : W) i t :
  change w w' → sound w → tokens w !! i = Some t → ∃ t', tokens w' !! i = Some t' ∧ token_after t t'.
Proof.
  intros Hc Hw Ht. destruct (t_ids _ Hw i t Ht) as [Hid Hi]. destruct Hc as [_ Et _ _|s x Hs Hx _ _ _ _ _ _ Et _|now s x u Hs _ Hx Hu Hn _ _ _ _ _ Et _|which now reason _ _ _ _ _ _ Hsome].
  - exists t. by rewrite Et.
  - exists t. rewrite Et, lookup_insert_ne by lia. done.
  - rewrite Et. destruct (decide (i = TID u)) as [->|Hne]; [lia|]. rewrite lookup_insert_ne by done.
    destruct (decide (i = TID x)) as [->|Hnx].
    + rewrite lookup_insert_eq. eexists. split; [done|]. assert (x = t) as -> by congruence. by split_and!.
    + rewrite lookup_insert_ne by done. by exists t.
  - destruct (Hsome i t Ht) as (t' & Ht' & (_ & E1 & E2 & _ & E3 & _) & _). exists t'. split; [done|].
    unfold token_after. by rewrite E1, E2, E3.
Qed.

Lemma change_session (w w' : W) k s :
  change w w' → sound w → sessions w !! k = Some s → ∃ s', sessions w' !! k = Some s' ∧ session_after (clock w) s s'.
Proof.
  intros Hc Hw Hs. destruct (s_ids _ Hw k s Hs) as [Hid Hi].
  assert (session_after (clock w) s s) as Hrefl by (split; [done|congruence]).
  destruct Hc as [Es _ _ _|x t Hx _ _ _ _ _ _ Es _ _|now x t u Hx _ _ _ _ _ _ _ _ Es _ _|which now reason _ _ Hnow Hal Hall _ _].
  - exists s. by rewrite Es.
  - exists s. rewrite Es, lookup_insert_ne by lia. done.
  - rewrite Es. destruct (decide (k = TSession t)) as [->|Hne].
    + rewrite lookup_insert_eq. eexists. split; [done|]. assert (x = s) as -> by congruence. exact Hrefl.
    + rewrite lookup_insert_ne by done. by exists s.
  - rewrite Hall, Hs. cbn. eexists. split; [done|]. destruct (which s) eqn:E; [|done].
    pose proof (Hal k s Hs E) as Hn. split; [congruence|]. cbn. intros r _ [= <-]. done.
Qed.

Lemma change_clock (w w' : W) : change w w' → clock w ≤ clock w'.
Proof. by intros []. Qed.

Lemma changes_token (w w' : W) i t :
  rtc change w w' → sound w → tokens w !! i = Some t → ∃ t', tokens w' !! i = Some t' ∧ token_after t t'.
Proof.
  intros Hc. revert t. induction Hc as [w|w w1 w2 H1 _ IH]; intros t Hw Ht; [by exists t|].
  destruct (change_token _ _ _ _ H1 Hw Ht) as (t1 & Ht1 & A1 & A2 & A3).
  destruct (IH t1 (change_sound _ _ H1 Hw) Ht1) as (t2 & Ht2 & B1 & B2 & B3). exists t2. split; [done|].
  split_and!; [congruence|congruence|auto].
Qed.

Lemma changes_session (w w' : W) k s :
  rtc change w w' → sound w → sessions w !! k = Some s →
  clock w ≤ clock w' ∧ ∃ s', sessions w' !! k = Some s' ∧ session_after (clock w) s s'.
Proof.
  intros Hc. revert s. induction Hc as [w|w w1 w2 H1 _ IH]; intros s Hw Hs.
  { split; [done|]. exists s. split; [done|]. split; [done|congruence]. }
  pose proof (change_clock _ _ H1). destruct (change_session _ _ _ _ H1 Hw Hs) as (s1 & Hs1 & A1 & A2).
  destruct (IH s1 (change_sound _ _ H1 Hw) Hs1) as (Hcl & s2 & Hs2 & B1 & B2). split; [lia|]. exists s2. split; [done|].
  split; [auto|]. intros r Hn Hr. destruct (RevokedAt s1) as [r1|] eqn:E.
  - specialize (A2 r1 Hn eq_refl). specialize (B1 r1 eq_refl). assert (r1 = r) as -> by congruence. done.
  - specialize (B2 r eq_refl Hr). lia.
Qed.

End changes.

(** ** Histories *)

Section histories.
  Variables (sha256 sha256_hex : string → string) (hmac : string → string → string).
  Variable ParseAddress : string → bool.
  Variable Verify : string → string → string → bool.
  Variable uuid_String : Z → string.
  Context `{Codec : !AuthTokens.ClaimsCodec}.
  Context {CS RC : Type} `{HCS : !ChallengeStore CS} `{HRC : !RevocationCache RC} `{HRCL : !RevocationCacheLaws RC}.
  Context `{Huuid : !Inj (=) (=) uuid_String}.
  Variable cfg : AuthConfig.
  Hypothesis Hexpiry : 0 ≤ AccessTokenExpiry cfg.
  Abbreviation W := (World CS RC).
  Abbreviation M := (Call CS RC).

(** What is asked of the service: its operations, the middleware's question to the
    cache about a session, and time going by. *)
Inductive Request :=
| GetChallenge (wallet : string)
| SignIn (wallet signature challenge : string) (meta : SessionMetadata)
| RefreshTokens (raw : string) (meta : SessionMetadata)
| EndSession (user session : Z)
| EndAll (user : Z)
| SessionsOf (user : Z)
| Ask (session : string)
| Pass (d : Duration).

Inductive Response := Handed (challenge : string) | Issued (t : Tokens) | Answered | Failed (e : Error).

Definition reply {A} (f : A → Response) (x : W * result Error A) : W * Response :=
  (fst x, match snd x with Ok a => f a | Err e => Failed e end).

Definition pass (d : Duration) (w : W) : W :=
  mkWorld (sessions w) (tokens w) (users w) (roles w) (trips w) (store w) (cache w) (entropy w) (next_id w)
    (clock w + Z.max 0 d) (events w).

Definition serve (q : Request) (w : W) : W * Response :=
  match q with
  | GetChallenge a => reply Handed (GenerateChallenge ParseAddress a w)
  | SignIn a sg c m => reply Issued (VerifyAndIssue sha256 sha256_hex hmac ParseAddress Verify uuid_String cfg a sg c m w)
  | RefreshTokens raw m => reply Issued (Refresh sha256_hex hmac uuid_String cfg raw m w)
  | EndSession u k => reply (λ _, Answered) (Logout uuid_String cfg u k w)
  | EndAll u => reply (λ _, Answered) (LogoutAll uuid_String cfg u w)
  | SessionsOf u => reply (λ _, Answered) (ListSessions u w)
  | Ask k => (with_cache w (fst (IsRevoked k (clock w) (cache w))), Answered)
  | Pass d => (pass d w, Answered)
  end.

Fixpoint history (qs : list Request) (w : W) : W * list (Request * Response) :=
  match qs with
  | [] => (w, [])
  | q :: qs => let '(w, r) := serve q w in let '(w, l) := history qs w in (w, (q, r) :: l)
  end.

Abbreviation after qs w := (fst (history qs w)).

Lemma serve_changes q (w : W) :
  sound w → rtc change w (fst (serve q w)) ∧ (good uuid_String cfg w → good uuid_String cfg (fst (serve q w))).
Proof.
  intros Hw. assert (∀ A (m : M A), walks uuid_String cfg m → rtc change w (fst (m w)) ∧
    (good uuid_String cfg w → good uuid_String cfg (fst (m w)))) as Hm by (intros A m H; by destruct (H w Hw) as (? & _ & ?)).
  destruct q as [a|a sg c m|raw m|u k|u|u|k|d]; cbn [serve reply fst]; try apply Hm.
  - by apply walks_GenerateChallenge.
  - by apply walks_VerifyAndIssue.
  - by apply walks_Refresh.
  - by apply walks_revokeOwnedSession.
  - by apply walks_LogoutAll.
  - by apply walks_ListSessions.
  - split; [apply rtc_once; apply ch_none; done || lia|]. intros (G1 & G2 & G3). split_and!; [by apply ask_healthy|done|].
    intros x s r Hx Hr. destruct (G3 x s r Hx Hr) as [Hle [(e & He & Hee)|Hlt]]; (split; [done|]); [|by right]. cbn.
    destruct (decide (clock w ≤ e)) as [Hn|Hn]; [left|right; lia]. exists e. split; [by apply ask_keeps|done].
  - split; [apply rtc_once; apply ch_none; cbn; done || lia|]. intros (G1 & G2 & G3). split_and!; [done|done|].
    intros x s r Hx Hr. destruct (G3 x s r Hx Hr) as [Hle Hc]. unfold covered. cbn. split; [lia|].
    destruct Hc as [Hc|Hc]; [by left|right; lia].
Qed.

Lemma history_changes qs (w : W) :
  sound w → rtc change w (after qs w) ∧ (good uuid_String cfg w → good uuid_String cfg (after qs w)).
Proof.
  revert w. induction qs as [|q qs IH]; intros w Hw; [done|]. destruct (serve_changes q w Hw) as [H1 H2].
  cbn [history]. destruct (serve q w) as [w1 r]. cbn in H1, H2. destruct (IH w1 (rtc_sound _ _ H1 Hw)) as [H3 H4].
  destruct (history qs w1) as [w2 l]. cbn in *. split; [by etrans|auto].
Qed.

(** C17: whatever is asked of the service, the refresh tokens of every session are a
    chain: each used token has one child, and one token is unused; they are revoked
    with their session. *)
Theorem refresh_families_are_chains qs (w : W) : sessions w = ∅ → tokens w = ∅ → sound (after qs w).
Proof.
  intros Hs Ht. assert (sound w) as Hw by (split; rewrite ?Hs, ?Ht; intros *; rewrite ?lookup_empty; done).
  by eapply rtc_sound; [apply history_changes|].
Qed.

(** ** Calls that issue tokens *)

Lemma bind_ok {A B} (m : M A) (k : A → M B) (w w' : W) b :
  (m ≫= k) w = (w', Ok b) → ∃ w1 a, m w = (w1, Ok a) ∧ k a w1 = (w', Ok b).
Proof.
  change (m ≫= k) with (λ w, match m w with (w, Ok a) => k a w | (w, Err e) => (w, Err e) end). cbv beta.
  destruct (m w) as [w1 [a|e]]; [|done]. intros H. by exists w1, a.
Qed.

(** The access token was made now for the session. *)
Definition minted (tk : Tokens) (now : Time) : Prop :=
  ∃ c, AccessToken tk = AuthTokens.MakeJWT hmac c (Secret cfg) ∧ AuthTokens.SessionID c = uuid_String (TokensSession tk) ∧
       AuthTokens.ExpiresAt c = AuthTokens.Unix (time_add now (AccessTokenExpiry cfg)).

Lemma mint_made u a l k (w w' : W) tok :
  mint hmac uuid_String cfg u a l k w = (w', Ok tok) →
  quiet w w' ∧ ∃ c, tok = AuthTokens.MakeJWT hmac c (Secret cfg) ∧ AuthTokens.SessionID c = uuid_String k ∧
    AuthTokens.ExpiresAt c = AuthTokens.Unix (time_add (clock w) (AccessTokenExpiry cfg)).
Proof.
  intros H. pose proof (calm_mint hmac uuid_String cfg u a l k w) as Hq. rewrite H in Hq. split; [exact Hq|].
  injection H as _ <-. by eexists.
Qed.

(** A calm call has quiet outcomes. *)
Lemma calm_ok {A} (m : M A) (w w' : W) a : calm m → m w = (w', Ok a) → quiet w w'.
Proof. intros Hm H. pose proof (Hm w) as Hq. by rewrite H in Hq. Qed.

Lemma Refresh_issued raw meta (w w' : W) tk :
  sound w → Refresh sha256_hex hmac uuid_String cfg raw meta w = (w', Ok tk) →
  ∃ t s t', token_by_hash (sha256_hex raw) w = Some t ∧ sessions w !! TSession t = Some s ∧ RevokedAt s = None ∧
    TokensSession tk = TSession t ∧ UsedAt t = None ∧
    sessions w' !! TSession t = Some (touch_session (clock w) s) ∧
    tokens w' !! TID t = Some t' ∧ token_after t t' ∧ is_Some (UsedAt t') ∧ clock w' = clock w ∧ minted tk (clock w).
Proof.
  intros Hw. unfold Refresh. destruct (_ =s? _); [done|]. destruct (_ =s? _); [done|].
  intros (w1 & t0 & [= <- <-] & H)%bind_ok. apply bind_ok in H as (w1 & nr & Hnr & H).
  apply (calm_ok _ _ _ _ calm_token) in Hnr as Hq1. apply bind_ok in H as (w2 & r & Hr & H).
  unfold try in Hr. destruct (RotateRefreshToken _ _ _ _ w1) as [w2' r'] eqn:E. injection Hr as -> ->.
  destruct r as [[s u|so e]|e]; [|by apply bind_ok in H as (? & ? & _ & ?)|done].
  unfold RotateRefreshToken in E.
  destruct (transaction_cases (rotate (hashOpaqueToken sha256_hex raw) (MetaFingerprint meta) (hashOpaqueToken sha256_hex nr)
    (time_add (clock w) (RefreshTokenExpiry cfg))) w1) as (w0 & (l & Hl) & Hq & Hcase). rewrite E in Hcase. cbn in Hcase.
  destruct Hcase as [(_ & [?|(? & ? & _)])|(a & Ha & [[= <-]|[? _]])]; try done.
  pose proof (sess_quiet_trans _ _ _ Hq1 Hq) as Hq0. pose proof Hq0 as (E1 & E2 & _ & E4 & _).
  assert (sound w0) as Hw0 by (eapply change_sound; [by apply quiet_change|done]).
  pose proof (rotate_spec _ _ _ _ _ _ _ Hw0 Ha) as Hsp. inversion Hsp as [| | |t s0 u0 Ht Hs Hrv _ _ _ Hu _ Hnh Hh Hn _ _ _ (_ & _ & _ & _ & _ & _ & Hcl & _) Es Et]; subst s u.
  apply bind_ok in H as (w3 & rl & H3 & H). apply (calm_ok _ _ _ _ (calm_GetUserRoles _)) in H3 as (F1 & F2 & _ & F4 & _).
  apply bind_ok in H as (w4 & tok & H4 & H). apply mint_made in H4 as [(G1 & G2 & _ & G4 & _) Hmint]. injection H as <- <-.
  destruct (find_token _ _ _ Ht) as (i & Hi & _). destruct (t_ids _ Hw0 _ _ Hi) as [<- Hlt].
  assert (SID s0 = TSession t) as Hsid by (by destruct (s_ids _ Hw0 _ _ Hs)).
  exists t, s0, (use_token (clock w0) t). split_and!.
  - rewrite <- Ht. unfold token_by_hash. by rewrite E2.
  - by rewrite <- E1.
  - done.
  - done.
  - done.
  - rewrite G1, F1, Es, lookup_insert_eq, E4. done.
  - rewrite G2, F2, Et, lookup_insert_ne by lia. by rewrite lookup_insert_eq.
  - by split_and!.
  - by eexists.
  - congruence.
  - destruct Hmint as (c & Hc1 & Hc2 & Hc3). exists c. split_and!; [done|done|]. rewrite Hc3. do 2 f_equal. congruence.
Qed.

(** Calls that leave the challenge store alone. *)
Definition still {A} (m : M A) : Prop := ∀ w : W, store (fst (m w)) = store w.

Lemma still_bind {A B} (m : M A) (k : A → M B) : still m → (∀ a, still (k a)) → still (m ≫= k).
Proof.
  intros Hm Hk w. specialize (Hm w). change (m ≫= k) with (λ w, match m w with (w, Ok a) => k a w | (w, Err e) => (w, Err e) end).
  cbv beta. destruct (m w) as [w1 [a|e]]; cbn in *; [by rewrite Hk|done].
Qed.

Lemma still_ret {A} (a : A) : still (mret a).
Proof. done. Qed.

Lemma still_throw {A} e : still (throw e : M A).
Proof. done. Qed.

Lemma still_transaction {A} (f : W → result Error (W * A)) :
  (∀ w w' a, f w = Ok (w', a) → store w' = store w) → still (transaction f).
Proof.
  intros Hf w. destruct (transaction_cases f w) as (w0 & (l & ->) & _ & [[-> _]|(a & Ha & _)]); [done|]. by rewrite (Hf _ _ _ Ha).
Qed.

Lemma still_try {A} (m : M A) : still m → still (try m).
Proof. intros Hm w. specialize (Hm w). unfold try. by destruct (m w). Qed.

Lemma still_user_of a : still (user_of a).
Proof.
  apply still_bind.
  - apply still_try, still_transaction. intros w w' u. by destruct (List.find _ _) as [[]|]; intros [= <- _].
  - intros [u|e]; [apply still_ret|]. intros w. unfold RegisterUser, fresh_id. rewrite still_transaction; [done|].
    intros w1 w' x. by destruct (existsb _ _); intros [= <- _].
Qed.

Lemma still_token : still generateOpaqueToken.
Proof. intros w. unfold generateOpaqueToken. by destruct (entropy w) as [|[s|] rest]. Qed.

Lemma still_GetUserRoles u : still (GetUserRoles u).
Proof. by apply still_transaction; intros w w' a [= <- _]. Qed.

Lemma still_CreateSession s h e : still (CreateSession s h e).
Proof.
  apply still_transaction. intros w w' a. unfold insert_session, insert_token. destruct (bool_decide _); [|done]. cbn.
  by destruct (hash_used _ _); intros [= <- _].
Qed.

Lemma still_mint u a l k : still (mint hmac uuid_String cfg u a l k).
Proof. apply still_bind; [done|]. intros t. apply still_bind; [done|]. intros j. apply still_ret. Qed.

Lemma still_rotation h fp nh e : still (RotateRefreshToken h fp nh e).
Proof.
  apply still_transaction. intros w w' a. unfold rotate. destruct (token_by_hash _ _) as [t|]; [|by intros [= <- _]].
  destruct (sessions w !! TSession t) as [s|]; [|done]. cbv zeta.
  do 3 (match goal with |- (if ?b then _ else _) = _ → _ => destruct b; [by intros [= <- _]|] end).
  case_bool_decide; [by intros [= <- _]|]. destruct (time_after _ _); [by intros [= <- _]|]. unfold insert_token.
  by destruct (hash_used _ _); intros [= <- _].
Qed.

Lemma still_mark k : still (mark_revoked uuid_String cfg k).
Proof. intros w. unfold mark_revoked. by destruct (MarkRevoked _ _ _ _). Qed.

Lemma still_mark_all l : still (mark_all uuid_String cfg l).
Proof. induction l as [|s l IH]; [done|]. apply still_bind; [apply still_mark|by intros]. Qed.

Lemma still_finalize so e : still (finalize uuid_String cfg so e).
Proof.
  assert (∀ r b, still (finalizeRevocation uuid_String cfg so r b)) as H.
  { intros r b. destruct so as [s|]; [|done]. apply still_bind; [apply still_mark|]. intros _.
    apply still_bind; [done|]. intros _. apply still_bind; [done|]. intros _. by destruct b. }
  destruct e; try done; apply H.
Qed.

Lemma still_Refresh raw meta : still (Refresh sha256_hex hmac uuid_String cfg raw meta).
Proof.
  unfold Refresh. destruct (_ =s? _); [done|]. destruct (_ =s? _); [done|]. apply still_bind; [done|]. intros t.
  apply still_bind; [apply still_token|]. intros nr. apply still_bind; [apply still_try, still_rotation|].
  intros [[s u|so e]|e]; [|apply still_bind; [apply still_finalize|done]|done].
  apply still_bind; [apply still_GetUserRoles|]. intros l. apply still_bind; [apply still_mint|done].
Qed.

Lemma still_revokeOwnedSession u k r : still (revokeOwnedSession uuid_String cfg u k r).
Proof.
  apply still_bind.
  - apply still_transaction. intros w w' a. by destruct (sessions w !! k); intros [= <- _].
  - intros x. destruct (negb _); [done|]. apply still_bind.
    + apply still_transaction. intros w w' a. destruct (sessions w !! k); [|done]. case_bool_decide; [done|]. by intros [= <- _].
    + intros _. apply still_bind; [apply still_mark|]. intros _. by apply still_bind.
Qed.

Lemma still_LogoutAll u : still (LogoutAll uuid_String cfg u).
Proof.
  apply still_bind; [by apply still_transaction; intros w w' a [= <- _]|]. intros l.
  apply still_bind; [apply still_mark_all|]. intros _. apply still_bind; [done|]. intros _. by apply still_bind.
Qed.

(** A call that succeeds left the store alone. *)
Lemma still_ok {A} (m : M A) (w w' : W) a : still m → m w = (w', Ok a) → store w' = store w.
Proof. intros Hm H. specialize (Hm w). by rewrite H in Hm. Qed.

(** A sign-in took the stored challenge, had a signature on it, and made a session. *)
Lemma VerifyAndIssue_issued a sg c meta (w w' : W) tk :
  sound w → VerifyAndIssue sha256 sha256_hex hmac ParseAddress Verify uuid_String cfg a sg c meta w = (w', Ok tk) →
  snd (GetAndDelete a (clock w) (store w)) = Ok c ∧ store w' = fst (GetAndDelete a (clock w) (store w)) ∧
  (∃ sb, Std_DecodeString sg = Some sb ∧ Verify a (sep53MessageHash sha256 c) sb = true) ∧
  sessions w !! TokensSession tk = None ∧
  (∃ s, sessions w' !! TokensSession tk = Some s ∧ RevokedAt s = None) ∧ clock w' = clock w ∧ minted tk (clock w).
Proof.
  intros Hw. unfold VerifyAndIssue. destruct (_ =s? _); [done|]. intros (w1 & st & H1 & H)%bind_ok.
  pose proof (calm_ok _ _ _ _ (calm_take_challenge a) H1) as Q1. unfold take_challenge in H1.
  destruct (GetAndDelete a (clock w) (store w)) as [s0 r0] eqn:Eg. destruct r0 as [c0|[]]; [|done|done].
  injection H1 as H1 ->. destruct (st =s? c) eqn:Ec; cbn [negb] in H; [|done]. apply string_eqb_eq in Ec as ->.
  destruct (ParseAddress a); cbn [negb] in H; [|done]. destruct (Std_DecodeString sg) as [sb|]; [|done].
  destruct (Verify a _ sb) eqn:Ev; cbn [negb] in H; [|done].
  apply bind_ok in H as (w2 & u & H2 & H). apply bind_ok in H as (w3 & l & H3 & H).
  apply bind_ok in H as (w3' & t & [= <- <-] & H). apply bind_ok in H as (w4 & raw & H4 & H).
  apply bind_ok in H as (w5 & [s rt] & H5 & H). apply bind_ok in H as (w6 & tok & H6 & H).
  apply bind_ok in H as (w7 & [] & [= <-] & H). apply bind_ok in H as (w8 & [] & [= <-] & H). injection H as <- <-.
  pose proof (still_ok _ _ _ _ (still_user_of _) H2) as S2. pose proof (still_ok _ _ _ _ (still_GetUserRoles _) H3) as S3.
  pose proof (still_ok _ _ _ _ still_token H4) as S4. pose proof (still_ok _ _ _ _ (still_CreateSession _ _ _) H5) as S5.
  pose proof (still_ok _ _ _ _ (still_mint _ _ _ _) H6) as S6.
  pose proof (calm_ok _ _ _ _ (calm_user_of _) H2) as Q2. pose proof (calm_ok _ _ _ _ (calm_GetUserRoles _) H3) as Q3.
  pose proof (calm_ok _ _ _ _ calm_token H4) as Q4. apply mint_made in H6 as [Q6 Hmint].
  assert (quiet w w4) as Q by (repeat (eapply sess_quiet_trans; [eassumption|]); apply sess_quiet_refl).
  pose proof Q as (E1 & E2 & E3 & E4 & _). pose proof Q6 as (F1 & F2 & F3 & F4 & _).
  unfold CreateSession in H5.
  match type of H5 with transaction ?g w4 = _ => destruct (transaction_cases g w4) as (w0 & (tr & ->) & _ & Hcase) end.
  rewrite H5 in Hcase. cbn in Hcase. destruct Hcase as [(_ & [?|(? & ? & _)])|(x & Hx & [[= <-]|[? _]])]; try done.
  unfold insert_session in Hx. destruct (bool_decide _); [|done]. cbn in Hx. unfold insert_token in Hx.
  destruct (hash_used _ _); [done|]. cbn in Hx. injection Hx as <- <- <-. cbn in *. split_and!.
  - done.
  - rewrite S6, S4, S3, S2, <- H1. done.
  - by exists sb.
  - rewrite <- E1. destruct (sessions w4 !! next_id w4) as [y|] eqn:Ey; [|done].
    rewrite E1 in Ey. destruct (s_ids _ Hw _ _ Ey). lia.
  - rewrite F1, lookup_insert_eq. by eexists.
  - congruence.
  - destruct Hmint as (cl & Hc1 & Hc2 & Hc3). exists cl. split_and!; [done|done|]. rewrite Hc3. do 2 f_equal. congruence.
Qed.

(** ** Replays *)

Lemma rotate_used h fp nh e (w : W) t :
  sound w → token_by_hash h w = Some t → is_Some (UsedAt t) →
  ∃ w' so x, rotate h fp nh e w = Ok (w', RotationFailed so x) ∧ clock w' = clock w ∧
    ∃ s, sessions w' !! TSession t = Some s ∧ is_Some (RevokedAt s).
Proof.
  intros Hw Ht Hu. destruct (find_token _ _ _ Ht) as (i & Hi & _). destruct (t_session _ Hw _ _ Hi) as (s & Hs & _).
  assert (∃ w' so x, rotate h fp nh e w = Ok (w', RotationFailed so x)) as (w' & so & x & Hr).
  { unfold rotate. rewrite Ht, Hs. cbv zeta. case_bool_decide; [by repeat eexists|]. destruct (time_after _ _); [by repeat eexists|].
    destruct (negb _); [by repeat eexists|]. rewrite bool_decide_eq_true_2 by (by left). by repeat eexists. }
  exists w', so, x. split; [done|]. pose proof (rotate_spec _ _ _ _ _ _ _ Hw Hr) as Hsp. split; [by eapply rotation_clock|].
  inversion Hsp as [Hn|t' s' Ht' Hs' Hrv Heq|t' s' e' reason Ht' Hs' Hrv He Hrk|]; subst; [congruence| |].
  - assert (t' = t) as -> by congruence. by exists s'.
  - assert (t' = t) as -> by congruence. destruct (s_ids _ Hw _ _ Hs') as [Hsid _].
    rewrite (rv_sessions _ _ _ _ _ Hrk), Hs'. cbn. rewrite Z.eqb_refl. eexists. split; [done|]. by eexists.
Qed.

(** A transaction whose way to the database is not down has its effect. *)
Lemma transaction_up {A} (f : W → result Error (W * A)) (w : W) :
  head (trips w) ≠ Some Down →
  ∃ w0, quiet w w0 ∧ ∀ w' a, f w0 = Ok (w', a) →
    fst (transaction f w) = w' ∧ (snd (transaction f w) = Ok a ∨ snd (transaction f w) = Err ErrDb).
Proof.
  intros Hd. unfold transaction. destruct (trips w) as [|t rest] eqn:E.
  - exists w. split; [apply sess_quiet_refl|]. intros w' a ->. by split; [|left].
  - exists (with_trips w rest). split.
    + unfold quiet, no_lost. cbn. rewrite E. split_and!; try done. by intros [_ H]%Forall_cons.
    + intros w' a Hf. destruct t; [|done|]; rewrite Hf; (split; [done|]); [by left|by right].
Qed.

Lemma finalize_sessions so e (w : W) : sessions (fst (finalize uuid_String cfg so e w)) = sessions w.
Proof.
  assert (∀ r b, sessions (fst (finalizeRevocation uuid_String cfg so r b w)) = sessions w) as H.
  { intros r b. destruct so as [s|]; [|done]. unfold finalizeRevocation, mbind, M_bind, mark_revoked, tell.
    destruct (MarkRevoked _ _ _ _) as [c o]. by destruct b. }
  destruct e; try done; apply H.
Qed.

Lemma Refresh_used raw meta (w : W) t :
  sound w → token_by_hash (sha256_hex raw) w = Some t → is_Some (UsedAt t) →
  raw ≠ ""%string → MetaFingerprint meta ≠ ""%string → (∃ x, head (entropy w) = Some (Some x)) → head (trips w) ≠ Some Down →
  ∃ s, sessions (fst (Refresh sha256_hex hmac uuid_String cfg raw meta w)) !! TSession t = Some s ∧ is_Some (RevokedAt s).
Proof.
  intros Hw Ht Hu Hr Hm (x & Hx) Hd. unfold Refresh. apply string_eqb_neq in Hr as ->. apply string_eqb_neq in Hm as ->.
  destruct (entropy w) as [|y rest] eqn:Ee; [done|]. injection Hx as ->.
  unfold mbind, M_bind, now, generateOpaqueToken, try. cbv beta iota. rewrite Ee. set (w1 := with_entropy w rest).
  unfold RotateRefreshToken. set (f := rotate _ _ _ _).
  destruct (transaction_up f w1 Hd) as (w0 & Hq & Hup). pose proof Hq as (E1 & E2 & _).
  assert (sound w0) as Hw0.
  { eapply change_sound; [by apply quiet_change|]. eapply change_sound; [|exact Hw]. apply ch_none; done || lia. }
  assert (token_by_hash (hashOpaqueToken sha256_hex raw) w0 = Some t) as Ht0.
  { rewrite <- Ht. unfold token_by_hash. by rewrite E2. }
  destruct (rotate_used _ (MetaFingerprint meta) (hashOpaqueToken sha256_hex x) (time_add (clock w) (RefreshTokenExpiry cfg)) _ _ Hw0 Ht0 Hu)
    as (w2 & so & e & Hrot & _ & s & Hs & Hrv).
  destruct (Hup w2 _ Hrot) as [Hf Hres]. destruct (transaction f w1) as [w2' r]. cbn in Hf, Hres. subst w2'.
  exists s. split; [|done]. destruct Hres as [->| ->]; [|done].
  pose proof (finalize_sessions so e w2) as Hfin. destruct (finalize uuid_String cfg so e w2) as [w3 [[]|e3]]; cbn in *; congruence.
Qed.

(** C15: a refresh token is exchanged at most once: whatever happens after, presenting
    it again gives no tokens, and ends the session, as long as the database is reached. *)
Theorem replayed_refresh_token_ends_its_session raw m1 m2 qs (w w1 : W) tk :
  sound w → serve (RefreshTokens raw m1) w = (w1, Issued tk) →
  let w2 := after qs w1 in
  let '(w3, r) := serve (RefreshTokens raw m2) w2 in
  (∃ e, r = Failed e) ∧
  (MetaFingerprint m2 ≠ ""%string → (∃ x, head (entropy w2) = Some (Some x)) → head (trips w2) ≠ Some Down →
   ∃ s, sessions w3 !! TokensSession tk = Some s ∧ is_Some (RevokedAt s)).
Proof.
  intros Hw. cbn [serve]. unfold reply. destruct (Refresh _ _ _ cfg raw m1 w) as [w1' [x|e]] eqn:E; intros [= -> ->].
  assert (raw ≠ ""%string) as Hraw by (intros ->; by cbn in E).
  assert (sound w1) as Hw1.
  { pose proof (walks_Refresh sha256_hex hmac uuid_String cfg Hexpiry raw m1 w Hw) as [H _]. rewrite E in H. by eapply rtc_sound. }
  destruct (Refresh_issued _ _ _ _ _ Hw E) as (t & s & t' & Ht & _ & _ & Htk & _ & _ & Ht' & (Hh & Hse & _) & Hu & _).
  pose proof (history_changes qs w1 Hw1) as [Hch _]. pose proof (rtc_sound _ _ Hch Hw1) as Hw2. cbv zeta.
  destruct (changes_token _ _ _ _ Hch Hw1 Ht') as (t2 & Ht2 & Hh2 & Hse2 & Hu2).
  destruct (find_token _ _ _ Ht) as (_ & _ & Hraw2).
  assert (token_by_hash (sha256_hex raw) (after qs w1) = Some t2) as Hf2 by (eapply find_token_complete; [done|done|congruence]).
  split.
  - destruct (Refresh _ _ _ cfg raw m2 (after qs w1)) as [w3 [y|e]] eqn:E3; cbn; [|by eexists].
    destruct (Refresh_issued _ _ _ _ _ Hw2 E3) as (t3 & _ & _ & Ht3 & _ & _ & _ & Hn & _).
    assert (t3 = t2) as -> by congruence. rewrite Hn in Hu2. by destruct (Hu2 Hu).
  - intros Hm He Hd. rewrite Htk, <- Hse, <- Hse2. apply Refresh_used; auto.
Qed.

(** ** Revoked sessions *)

(** A call that issues tokens issues them for a session that is alive then. *)
Lemma issued_alive q (w w' : W) tk :
  sound w → serve q w = (w', Issued tk) →
  sound w' ∧ clock w' = clock w ∧ minted tk (clock w) ∧
  (∃ s, sessions w' !! TokensSession tk = Some s ∧ RevokedAt s = None) ∧
  (∀ s, sessions w !! TokensSession tk = Some s → RevokedAt s = None).
Proof.
  intros Hw H. assert (sound w') as Hw'.
  { pose proof (serve_changes q w Hw) as [Hc _]. rewrite H in Hc. by eapply rtc_sound. }
  split; [done|]. destruct q as [a|a sg c m|raw m|u k|u|u|k|d]; cbn [serve] in H; unfold reply in H.
  2: { destruct (VerifyAndIssue _ _ _ _ _ _ _ _ _ _ _ w) as [w1 [x|e]] eqn:E; revert H; intros [= -> ->].
       apply VerifyAndIssue_issued in E as (_ & _ & _ & Hn & Hs & Hc & Hm); [|done]. split_and!; try done.
       intros s Hs'. congruence. }
  2: { destruct (Refresh _ _ _ cfg raw m w) as [w1 [x|e]] eqn:E; revert H; intros [= -> ->].
       destruct (Refresh_issued _ _ _ _ _ Hw E) as (t & s & t' & _ & Hs & Hr & Htk & _ & Hs' & _ & _ & _ & Hc & Hm).
       rewrite Htk. split_and!; try done; [by eexists|]. congruence. }
  all: try done; injection H as _ H; by match type of H with context [snd ?x] => destruct (snd x) end.
Qed.

Section tokens.
  (** Ids have text, and claims that are written keep the id of their session and their
      expiry when they are read. *)
  Hypothesis uuid_text : ∀ k, uuid_String k ≠ ""%string.
  Hypothesis codec_session : ∀ c c' k, AuthTokens.SessionID c = uuid_String k →
    AuthTokens.Unmarshal (AuthTokens.Marshal c) = Some c' →
    AuthTokens.SessionID c' = AuthTokens.SessionID c ∧ AuthTokens.ExpiresAt c' = AuthTokens.ExpiresAt c.

(** A covered session's token is marked or expired. *)
Lemma covered_refuses k r t (w : W) :
  covered uuid_String cfg w k r → cache_healthy (cache w) → t ≤ r → AuthTokens.unix_epoch + Second ≤ t →
  snd (IsRevoked (uuid_String k) (clock w) (cache w)) = Some true ∨
  (0 <? AuthTokens.Unix (time_add t (AccessTokenExpiry cfg))) &&
  (AuthTokens.Unix (time_add t (AccessTokenExpiry cfg)) <? AuthTokens.Unix (clock w)) = true.
Proof.
  intros [Hle Hc] Hh Ht He. pose proof cache_grain_small as Hg. unfold time_add.
  assert (clock w ≤ r + AccessTokenExpiry cfg + Minute - cache_grain ∨ r + AccessTokenExpiry cfg + Minute - cache_grain < clock w)
    as [Hn|Hn] by lia.
  - left. destruct Hc as [(e & Hm & Hee)|Hlt]; [|lia]. eapply ask_marked; [done|done|lia].
  - right. apply andb_true_iff. unfold AuthTokens.Unix, Minute, Second, Millisecond in *. split; apply Z.ltb_lt.
    + apply Z.div_str_pos. lia.
    + Z.to_euclidean_division_equations. lia.
Qed.

(** C14: once a session is revoked no call issues tokens for it, and the access tokens
    issued for it before pass the middleware only on public routes, until they expire
    and after. *)
Theorem revoked_sessions_stay_out q qs (w w1 : W) tk s r :
  sound w → good uuid_String cfg w → AuthTokens.unix_epoch + Second ≤ clock w → serve q w = (w1, Issued tk) →
  let w2 := after qs w1 in
  sessions w2 !! TokensSession tk = Some s → RevokedAt s = Some r →
  (∀ key rules rq u, AuthTokens.bearerToken rq = Some (AccessToken tk) → AccessToken tk ≠ key →
     AuthTokens.Authenticate hmac (λ k, snd (IsRevoked k (clock w2) (cache w2))) (Secret cfg) key rules rq (clock w2)
       = AuthTokens.Next u →
     ∃ rule, AuthTokens.matchRule rules rq = Some rule ∧ AuthTokens.Public rule = true) ∧
  (∀ q' w3 tk', serve q' w2 = (w3, Issued tk') → TokensSession tk' ≠ TokensSession tk).
Proof.
  intros Hw Hg Hep Hq. cbv zeta. intros Hs Hr. destruct (issued_alive _ _ _ _ Hw Hq) as (Hw1 & Hcl & Hm & (s1 & Hs1 & Hr1) & _).
  pose proof (history_changes qs w1 Hw1) as [Hch Hgood].
  assert (good uuid_String cfg w1) as Hg1 by (pose proof (serve_changes q w Hw) as [_ H]; rewrite Hq in H; by apply H).
  destruct (Hgood Hg1) as (Hh2 & _ & Hmk). destruct (changes_session _ _ _ _ Hch Hw1 Hs1) as (Hclk & s2 & Hs2 & _ & Hlate).
  assert (s2 = s) as -> by congruence. specialize (Hlate r Hr1 Hr). split.
  - intros key rules rq u Hb Hk. unfold AuthTokens.Authenticate. rewrite Hb.
    destruct (AuthTokens.matchRule rules rq) as [rule|] eqn:Er; [destruct (AuthTokens.Public rule) eqn:Ep; [by exists rule|]|].
    all: assert (AuthTokens.constantTimeEqual (AccessToken tk) key = false) as -> by (unfold AuthTokens.constantTimeEqual; by apply string_eqb_neq).
    all: rewrite andb_false_r; unfold AuthTokens.by_token; destruct Hm as (c & -> & Hc1 & Hc2); rewrite AuthTokens.ParseJWT_made.
    all: destruct (AuthTokens.Unmarshal (AuthTokens.Marshal c)) as [c'|] eqn:Eu; [|done].
    all: destruct (codec_session _ _ _ Hc1 Eu) as [Hsid Hexp]; rewrite Hexp, Hc2.
    all: destruct (covered_refuses _ _ (clock w) _ (Hmk _ _ _ Hs Hr) Hh2) as [H|H]; [lia|done| |by rewrite H].
    all: destruct (_ && _); [done|]; rewrite Hsid, Hc1, H.
    all: by pose proof (uuid_text (TokensSession tk)) as ->%string_eqb_neq.
  - intros q' w3 tk' Hq' Heq. pose proof (rtc_sound _ _ Hch Hw1) as Hw2.
    destruct (issued_alive _ _ _ _ Hw2 Hq') as (_ & _ & _ & _ & Hal). rewrite Heq in Hal. specialize (Hal s Hs). congruence.
Qed.

End tokens.

(** ** Challenges *)

Section challenges.
  Context `{HCSL : !ChallengeStoreLaws CS}.
  Variables (wallet challenge : string).

(** The store may give the challenge back for the wallet. *)
Definition held (w : W) : Prop := ∃ t, stored (store w) wallet t = Some challenge.

(** The challenge is handed out; it is used to sign in. *)
Definition handed (x : Request * Response) : bool :=
  match x with (GetChallenge a, Handed c) => (a =s? wallet) && (c =s? challenge) | _ => false end.
Definition signed (x : Request * Response) : bool :=
  match x with (SignIn a _ c _, Issued _) => (a =s? wallet) && (c =s? challenge) | _ => false end.

Lemma VerifyAndIssue_store a sg c meta (w : W) :
  let w' := fst (VerifyAndIssue sha256 sha256_hex hmac ParseAddress Verify uuid_String cfg a sg c meta w) in
  store w' = store w ∨ store w' = fst (GetAndDelete a (clock w) (store w)).
Proof.
  cbv zeta. unfold VerifyAndIssue. destruct (_ =s? _); [by left|]. right.
  unfold take_challenge, mbind at 1, M_bind at 1. destruct (GetAndDelete a (clock w) (store w)) as [st r] eqn:E.
  destruct r as [x|[]]; [|done|done]. cbn [fst]. set (w1 := with_store w st).
  match goal with |- store (fst (?m w1)) = _ => assert (still m) as H; [|by rewrite (H w1)] end.
  destruct (negb _); [done|]. destruct (negb _); [done|]. destruct (Std_DecodeString sg) as [sb|]; [|done]. destruct (negb _); [done|].
  apply still_bind; [apply still_user_of|]. intros u. apply still_bind; [apply still_GetUserRoles|]. intros l.
  apply still_bind; [done|]. intros t. apply still_bind; [apply still_token|]. intros raw.
  apply still_bind; [apply still_CreateSession|]. intros [s rt]. apply still_bind; [apply still_mint|]. intros tok.
  apply still_bind; [done|]. intros _. by apply still_bind.
Qed.

(** Handing out a challenge puts it in the store. *)
Lemma GenerateChallenge_held a (w w' : W) r :
  GenerateChallenge ParseAddress a w = (w', r) → held w' → held w ∨ (a = wallet ∧ r = Ok challenge).
Proof.
  unfold GenerateChallenge. destruct (negb _); [intros [= <- <-]; by left|].
  unfold mbind, M_bind, generateOpaqueToken, set_challenge.
  destruct (entropy w) as [|[x|] rest]; [by intros [= <- <-]; left| |by intros [= <- <-]; left]. cbn.
  destruct (Store_Set a x (clock w) (store w)) as [st e] eqn:E.
  assert (st = fst (Store_Set a x (clock w) (store w))) as Hst by (by rewrite E).
  assert (e = snd (Store_Set a x (clock w) (store w))) as He by (by rewrite E).
  destruct (decide (a = wallet)) as [->|Hne].
  - destruct e as [e|]; intros [= <- <-] (t & Ht); cbn in Ht; rewrite Hst in Ht.
    + left. exists t. by rewrite <- (set_failed wallet x (clock w) t (store w) e).
    + right. split; [done|]. f_equal. symmetry. by eapply set_one.
  - intros H (t & Ht). left. exists t. rewrite <- (set_others a wallet x (clock w) t) by done. rewrite <- Hst.
    by destruct e; injection H as <- <-.
Qed.

(** One request uses up what it needs. *)
Lemma serve_challenge (w w' : W) q r n :
  sound w → serve q w = (w', r) → (held w → (1 ≤ n)%nat) →
  (Nat.b2n (signed (q, r)) ≤ n)%nat ∧ (held w' → (1 ≤ n - Nat.b2n (signed (q, r)) + Nat.b2n (handed (q, r)))%nat).
Proof.
  intros Hw H Hn. assert (store w' = store w → signed (q, r) = false → (Nat.b2n (signed (q, r)) ≤ n)%nat ∧
    (held w' → (1 ≤ n - Nat.b2n (signed (q, r)) + Nat.b2n (handed (q, r)))%nat)) as Hstill.
  { intros Hst ->. cbn. split; [lia|]. unfold held. rewrite Hst. intros Hh. specialize (Hn Hh). lia. }
  destruct q as [a|a sg c m|raw m|u k|u|u|k|d]; cbn [serve] in H; unfold reply in H.
  - destruct (GenerateChallenge ParseAddress a w) as [w1 res] eqn:E. injection H as <- <-. cbn [fst snd].
    assert (signed (GetChallenge a, match res with Ok a => Handed a | Err e => Failed e end) = false) as -> by done.
    cbn [Nat.b2n]. split; [lia|]. intros Hh. apply (GenerateChallenge_held _ _ _ _ E) in Hh as [Hh|[-> ->]]; [specialize (Hn Hh); lia|].
    assert (∀ x, (x =s? x) = true) as Hx by (intros x; by apply string_eqb_eq). unfold handed. rewrite !Hx. cbn. lia.
  - pose proof (VerifyAndIssue_store a sg c m w) as Hst. cbv zeta in Hst.
    destruct (VerifyAndIssue _ _ _ _ _ _ _ _ _ _ _ w) as [w1 res] eqn:E. injection H as <- <-. cbn [fst snd] in *.
    assert (∀ b, handed (SignIn a sg c m, b) = false) as -> by done. cbn [Nat.b2n].
    destruct (signed _) eqn:Es.
    + destruct res as [tk|e]; [|done]. cbn in Es. apply andb_true_iff in Es as [->%string_eqb_eq ->%string_eqb_eq].
      apply VerifyAndIssue_issued in E as (Hg & Hs & _); [|done]. destruct (get_stored _ _ _ _ Hg) as [Hin Hout].
      assert (1 ≤ n)%nat by (apply Hn; by exists (clock w)). split; [done|]. intros (t & Ht). rewrite Hs, Hout in Ht. done.
    + cbn. split; [lia|]. intros (t & Ht). assert (1 ≤ n)%nat; [|lia]. apply Hn. exists t. destruct Hst as [<-|Hst]; [done|].
      rewrite Hst in Ht. by eapply get_keeps.
  - apply Hstill; [|done]. injection H as <- _. apply still_Refresh.
  - apply Hstill; [|done]. injection H as <- _. apply still_revokeOwnedSession.
  - apply Hstill; [|done]. injection H as <- _. apply still_LogoutAll.
  - apply Hstill; [|done]. injection H as <- _. unfold ListSessions, ListActiveByUser. by apply still_transaction; intros w1 w2 x [= <- _].
  - apply Hstill; [|done]. by injection H as <- _.
  - apply Hstill; [|done]. by injection H as <- _.
Qed.

Lemma history_challenge qs (w : W) n :
  sound w → (held w → (1 ≤ n)%nat) →
  (length (List.filter signed (snd (history qs w))) ≤ n + length (List.filter handed (snd (history qs w))))%nat ∧
  ∀ x, x ∈ snd (history qs w) → signed x = true →
    ∃ sg meta sb tk, x = (SignIn wallet sg challenge meta, Issued tk) ∧ Std_DecodeString sg = Some sb ∧
      Verify wallet (sep53MessageHash sha256 challenge) sb = true.
Proof.
  revert w n. induction qs as [|q qs IH]; intros w n Hw Hn; [split; [cbn; lia|by intros x ?%elem_of_nil]|].
  cbn [history]. destruct (serve q w) as [w1 r] eqn:E. destruct (serve_challenge _ _ _ _ _ Hw E Hn) as [H1 H2].
  assert (sound w1) as Hw1 by (pose proof (serve_changes q w Hw) as [H _]; rewrite E in H; by eapply rtc_sound).
  destruct (IH w1 (n - Nat.b2n (signed (q, r)) + Nat.b2n (handed (q, r)))%nat Hw1 H2) as [Hlen Hall].
  destruct (history qs w1) as [w2 l]. cbn [fst snd] in *. split.
  - cbn [List.filter]. destruct (signed (q, r)), (handed (q, r)); cbn [Nat.b2n length] in *; lia.
  - intros x [->|Hx]%elem_of_cons Hs; [|by apply Hall]. destruct q as [|a sg c m| | | | | |]; try done. destruct r as [|tk| |]; try done.
    cbn in Hs. apply andb_true_iff in Hs as [->%string_eqb_eq ->%string_eqb_eq]. cbn [serve] in E. unfold reply in E.
    destruct (VerifyAndIssue _ _ _ _ _ _ _ _ _ _ _ w) as [w1' [y|e]] eqn:Ev; revert E; intros [= -> ->].
    apply VerifyAndIssue_issued in Ev as (_ & _ & (sb & Hsb & Hv) & _); [|done]. by exists sg, m, sb, tk.
Qed.

(** C16: each sign-in spends a challenge handed out for that wallet, and carries the
    wallet's signature on it. *)
Theorem sign_ins_spend_challenges qs (w : W) :
  sound w → (∀ t, stored (store w) wallet t = None) →
  (length (List.filter signed (snd (history qs w))) ≤ length (List.filter handed (snd (history qs w))))%nat ∧
  ∀ x, x ∈ snd (history qs w) → signed x = true →
    ∃ sg meta sb tk, x = (SignIn wallet sg challenge meta, Issued tk) ∧ Std_DecodeString sg = Some sb ∧
      Verify wallet (sep53MessageHash sha256 challenge) sb = true.
Proof. intros Hw Hn. apply (history_challenge qs w 0 Hw). intros (t & Ht). by rewrite Hn in Ht. Qed.

End challenges.

End histories.
(** ** A concrete service *)

Definition demo_uuid (k : Z) : string := ("u" +:+ AuthTokens.pos_str (encode k))%string.
#[global] Instance demo_uuid_inj : Inj (=) (=) demo_uuid.
Proof.
  intros k k' H. apply (inj (String.append _)) in H. apply (f_equal AuthTokens.str_pos) in H.
  rewrite !AuthTokens.str_pos_str in H. by apply encode_inj.
Qed.

(** A codec of what the theorems read of claims. *)
#[global] Instance session_codec : AuthTokens.ClaimsCodec := {
  Marshal c := AuthTokens.pos_str (encode (AuthTokens.SessionID c, AuthTokens.ExpiresAt c));
  Unmarshal s := option_map (λ p : string * Z, AuthTokens.mkClaims "" "" [] [] (fst p) "" (snd p) 0) (decode (AuthTokens.str_pos s));
}.

Definition demo_sha (s : string) : string := ("#" +:+ s)%string.
Definition demo_address (s : string) : bool := negb (s =s? "").
Definition demo_verify (a h s : string) : bool := s =s? "sig".
Definition demo_cfg : AuthConfig := mkAuthConfig "secret" (15 * Minute) (720 * 60 * Minute) (2160 * 60 * Minute).
Definition demo_meta : SessionMetadata := mkMeta "device" "agent" "ip".
Definition demo_start : Time := AuthTokens.unix_epoch + 1000 * Second.

Definition demo_world : World InMemoryChallengeStore (gmap string Time) :=
  mkWorld ∅ ∅ ∅ ∅ [] (mkChallenges ∅ (5 * Minute)) ∅ (map Some ["c0"; "r0"; "r1"; "r2"]%string) 1 demo_start [].

Abbreviation demo_serve := (serve demo_sha demo_sha AuthTokens.demo_hmac demo_address demo_verify demo_uuid demo_cfg).
Abbreviation demo_history := (history demo_sha demo_sha AuthTokens.demo_hmac demo_address demo_verify demo_uuid demo_cfg).

(** A challenge, a sign-in with the signature ["sig"], an exchange of the token. *)
Definition demo_sign_in : list Request := [GetChallenge "GA"; SignIn "GA" "c2ln" "c0" demo_meta].
Definition issued_of (r : Response) : Tokens := match r with Issued t => t | _ => mkTokens "" "" 0 0 0 0 end.

Lemma demo_world_sound : sound demo_world.
Proof. split; cbn; intros *; rewrite ?lookup_empty; done. Qed.

Lemma demo_service_good : good demo_uuid demo_cfg demo_world.
Proof. split_and!; [done|by constructor|]. by intros k s r. Qed.

Lemma demo_expiry : 0 ≤ AccessTokenExpiry demo_cfg.
Proof. done. Qed.

Lemma demo_text k : demo_uuid k ≠ ""%string.
Proof. done. Qed.

Lemma demo_codec_session c c' k : AuthTokens.SessionID c = demo_uuid k →
  AuthTokens.Unmarshal (AuthTokens.Marshal c) = Some c' →
  AuthTokens.SessionID c' = AuthTokens.SessionID c ∧ AuthTokens.ExpiresAt c' = AuthTokens.ExpiresAt c.
Proof. intros _. cbn. rewrite AuthTokens.str_pos_str, countable.decode_encode. by intros [= <-]. Qed.

(** After the sign-in, after the exchange of its token, and after its session ended. *)
Definition demo_in := fst (demo_history demo_sign_in demo_world).
Definition demo_exchange := demo_serve (RefreshTokens "r0" demo_meta) demo_in.
Definition demo_end : list Request := [Pass Minute; EndSession 1 2].

Lemma demo_after_sound qs : sound (fst (demo_history qs demo_world)).
Proof.
  destruct (history_changes demo_sha demo_sha AuthTokens.demo_hmac demo_address demo_verify demo_uuid demo_cfg demo_expiry qs
    demo_world demo_world_sound) as [H _]. exact (rtc_sound _ _ H demo_world_sound).
Qed.

Lemma demo_after_good qs : good demo_uuid demo_cfg (fst (demo_history qs demo_world)).
Proof.
  destruct (history_changes demo_sha demo_sha AuthTokens.demo_hmac demo_address demo_verify demo_uuid demo_cfg demo_expiry qs
    demo_world demo_world_sound) as [_ H]. exact (H demo_service_good).
Qed.

Lemma refresh_families_are_chains_witness : sound (fst (demo_history (demo_sign_in ++ [RefreshTokens "r0" demo_meta]) demo_world)).
Proof.
  apply (refresh_families_are_chains demo_sha demo_sha AuthTokens.demo_hmac demo_address demo_verify demo_uuid demo_cfg
    demo_expiry); reflexivity.
Defined.

Lemma replayed_refresh_token_ends_its_session_witness :
  let x := demo_serve (RefreshTokens "r0" demo_meta) (fst (demo_history [Pass Minute] (fst demo_exchange))) in
  (∃ e, snd x = Failed e) ∧ ∃ s, sessions (fst x) !! 2 = Some s ∧ is_Some (RevokedAt s).
Proof.
  cbv zeta.
  pose proof (replayed_refresh_token_ends_its_session demo_sha demo_sha AuthTokens.demo_hmac demo_address demo_verify
    demo_uuid demo_cfg demo_expiry "r0" demo_meta demo_meta [Pass Minute] demo_in (fst demo_exchange)
    (issued_of (snd demo_exchange)) (demo_after_sound demo_sign_in)) as H.
  specialize (H ltac:(vm_compute; reflexivity)). cbv zeta in H.
  destruct (demo_serve _ _) as [w3 r]. destruct H as [H1 H2]. split; [exact H1|].
  apply H2; [vm_compute; discriminate|vm_compute; eexists; reflexivity|vm_compute; discriminate].
Defined.

Lemma revoked_sessions_stay_out_witness :
  let w2 := fst (demo_history demo_end (fst demo_exchange)) in
  (∃ s r, sessions w2 !! 2 = Some s ∧ RevokedAt s = Some r) ∧
  (∀ rq u, AuthTokens.bearerToken rq = Some (AccessToken (issued_of (snd demo_exchange))) →
     AuthTokens.Authenticate AuthTokens.demo_hmac (λ k, snd (IsRevoked k (clock w2) (cache w2))) "secret" "" [] rq (clock w2)
       ≠ AuthTokens.Next u) ∧
  ∀ w3 tk, demo_serve (RefreshTokens "r1" demo_meta) w2 = (w3, Issued tk) → TokensSession tk ≠ 2.
Proof.
  cbv zeta.
  assert (∃ s r, sessions (fst (demo_history demo_end (fst demo_exchange))) !! 2 = Some s ∧ RevokedAt s = Some r) as Hrv
    by (vm_compute; do 2 eexists; split; reflexivity).
  destruct Hrv as (s & r & Hs & Hr).
  pose proof (revoked_sessions_stay_out demo_sha demo_sha AuthTokens.demo_hmac demo_address demo_verify demo_uuid demo_cfg
    demo_expiry demo_text demo_codec_session (RefreshTokens "r0" demo_meta) demo_end demo_in (fst demo_exchange)
    (issued_of (snd demo_exchange)) s r (demo_after_sound demo_sign_in) (demo_after_good demo_sign_in)
    ltac:(vm_compute; discriminate) ltac:(vm_compute; reflexivity)) as H. cbv zeta in H.
  destruct (H Hs Hr) as [H1 H2].
  split; [exists s, r; exact (conj Hs Hr)|]. split; [|exact (H2 (RefreshTokens "r1" demo_meta))].
  intros rq u Hb Ha. destruct (H1 "" [] rq u Hb ltac:(vm_compute; discriminate) Ha) as (rule & Hn & _). discriminate Hn.
Defined.

Lemma sign_ins_spend_challenges_witness :
  let log := snd (demo_history (demo_sign_in ++ [SignIn "GA" "c2ln" "c0" demo_meta]) demo_world) in
  (length (List.filter (signed "GA" "c0") log) ≤ length (List.filter (handed "GA" "c0") log))%nat ∧
  length (List.filter (signed "GA" "c0") log) = 1%nat.
Proof.
  split.
  - apply (sign_ins_spend_challenges demo_sha demo_sha AuthTokens.demo_hmac demo_address demo_verify demo_uuid demo_cfg
      demo_expiry "GA" "c0"); [apply demo_world_sound|by intros t].
  - vm_compute. reflexivity.
Defined.

(** The error of a mark is dropped: when Redis fails it, the call that ended the session
    succeeds and the cache goes on saying that the session is not revoked. *)
Definition demo_redis (trips : list Trip) (down : list bool) : World InMemoryChallengeStore RedisRevocationCache :=
  mkWorld ∅ ∅ ∅ ∅ trips (mkChallenges ∅ (5 * Minute)) (mkRedisCache ∅ down) (map Some ["c0"; "r0"; "r1"; "r2"]%string) 1 demo_start [].

Lemma failed_mark_goes_unnoticed :
  let '(w, log) := demo_history (demo_sign_in ++ [EndSession 1 2]) (demo_redis [] [true]) in
  map snd (drop 2 log) = [Answered] ∧ (RevokedAt <$> sessions w !! 2) = Some (Some demo_start) ∧
  snd (IsRevoked (demo_uuid 2) (clock w) (cache w)) = Some false.
Proof. vm_compute. repeat split. Qed.

(** When the answer of the commit is lost, nothing is marked, and asking again is told
    that there is no such session. *)
Lemma lost_commit_is_never_marked :
  let '(w, log) := demo_history (demo_sign_in ++ [EndSession 1 2; EndSession 1 2])
                     (demo_redis [Fine; Fine; Fine; Fine; Fine; Lost] []) in
  map snd (drop 2 log) = [Failed ErrDb; Failed ErrSessionNotFound] ∧
  (RevokedAt <$> sessions w !! 2) = Some (Some demo_start) ∧
  snd (IsRevoked (demo_uuid 2) (clock w) (cache w)) = Some false.
Proof. vm_compute. repeat split. Qed.

(** A rotation whose request then fails to read the roles has spent the token: the
    client, who has no other, is taken for a thief when it asks again. *)
Lemma failed_request_looks_like_theft :
  let '(w, log) := demo_history (demo_sign_in ++ [RefreshTokens "r0" demo_meta; RefreshTokens "r0" demo_meta])
                     (demo_redis [Fine; Fine; Fine; Fine; Fine; Down] []) in
  map snd (drop 2 log) = [Failed ErrDb; Failed ErrRefreshFailed] ∧
  (RevokedReason <$> sessions w !! 2) = Some (Some "reuse_detected") ∧
  last (events w) = Some (ReuseDetected 1 2 "reuse_detected").
Proof. vm_compute. repeat split. Qed.

End SessionProps.
