(* ===== verification/Submissions.v ===== *)
(** * Chain submissions (stellar/submission.go, submission_store.go,
    submission_store_postgres.go, reconciler.go and [send] of invoker.go)

    Every transaction is recorded before it is handed to the RPC, under a unique
    reference and its hash on the chain, and stays pending until the reconciler has an
    answer of the chain about that hash. [send] is cut where other processes and the
    network can act: the claim, the hand-over, and the record of the hand-over. *)
From S2P Require Import Prelude.

Module Submissions.

(** ** submission.go *)

Inductive SubmissionState :=
| SubmissionPending | SubmissionLanded | SubmissionRejected | SubmissionExpired | SubmissionUnresolvable.
#[global] Instance SubmissionState_eq_dec : EqDecision SubmissionState.
Proof. solve_decision. Defined.

Definition state_string (s : SubmissionState) : string :=
  match s with
  | SubmissionPending => "pending" | SubmissionLanded => "landed" | SubmissionRejected => "rejected"
  | SubmissionExpired => "expired" | SubmissionUnresolvable => "unresolvable"
  end.

Definition Terminal (s : SubmissionState) : bool :=
  match s with
  | SubmissionLanded | SubmissionRejected | SubmissionExpired | SubmissionUnresolvable => true
  | SubmissionPending => false
  end.

Inductive ChainOutcome :=
| OutcomeUnknown | OutcomeLanded | OutcomeRejected | OutcomeProvenNotLanded | OutcomeUndeterminable.
#[global] Instance ChainOutcome_eq_dec : EqDecision ChainOutcome.
Proof. solve_decision. Defined.

Definition outcome_string (o : ChainOutcome) : string :=
  match o with
  | OutcomeLanded => "landed" | OutcomeRejected => "rejected" | OutcomeProvenNotLanded => "proven_not_landed"
  | OutcomeUndeterminable => "undeterminable" | OutcomeUnknown => "unknown"
  end.

Definition PermitsNewAttempt (o : ChainOutcome) : bool :=
  bool_decide (o = OutcomeRejected) || bool_decide (o = OutcomeProvenNotLanded).

Definition outcome_state (o : ChainOutcome) : SubmissionState :=
  match o with
  | OutcomeLanded => SubmissionLanded
  | OutcomeRejected => SubmissionRejected
  | OutcomeProvenNotLanded => SubmissionExpired
  | OutcomeUndeterminable => SubmissionUnresolvable
  | OutcomeUnknown => SubmissionPending
  end.

(** The status is the RPC's text. *)
Definition TxStatusSuccess : string := "SUCCESS".
Definition TxStatusFailed : string := "FAILED".
Definition TxStatusNotFound : string := "NOT_FOUND".

Record ChainView := mkView { LatestLedgerCloseTime : Time; OldestLedgerCloseTime : Time }.
Definition Valid (v : ChainView) : bool :=
  negb (time_is_zero (LatestLedgerCloseTime v)) && negb (time_is_zero (OldestLedgerCloseTime v)).

Record SubmissionIntent := mkIntent {
  IntentID : Z;
  IdempotencyReference : string;
  TransactionHash : string;
  ValidUntil : Time;
  SourceAccount : string;
  DomainAction : string;
  State : SubmissionState;
  Attempt : Z;
  CreatedAt : Time;
  SubmittedAt : option Time;
  ResolvedAt : option Time;
  OutcomeDetail : string;
}.

Definition EarliestInclusion (i : SubmissionIntent) : Time :=
  match SubmittedAt i with Some t => t | None => CreatedAt i end.

Definition DetermineOutcome (status : string) (view : ChainView) (i : SubmissionIntent) : ChainOutcome :=
  if status =s? TxStatusSuccess then OutcomeLanded
  else if status =s? TxStatusFailed then OutcomeRejected
  else if status =s? TxStatusNotFound then
    if negb (Valid view) then OutcomeUnknown
    else if time_is_zero (ValidUntil i) then OutcomeUnknown
    else if negb (time_after (LatestLedgerCloseTime view) (ValidUntil i)) then OutcomeUnknown
    else if time_after (OldestLedgerCloseTime view) (EarliestInclusion i) then OutcomeUndeterminable
    else OutcomeProvenNotLanded
  else OutcomeUnknown.

(** [time.Unix(sec, 0)]; the sum of seconds wraps. *)
Definition unix_seconds : Z := 62135596800.
Definition time_Unix (sec : Z) : Time := i64 (sec + unix_seconds) * Second.

Record TransactionIdentity := mkIdentity { Hash : string; IdentityValidUntil : Time }.

(** ** The RPC *)

(** [strconv.ParseInt(s, 10, 64)]. *)
Fixpoint parse_digits (l : list Ascii.ascii) (acc : Z) : option Z :=
  match l with
  | [] => Some acc
  | c :: l =>
      let d := Z.of_nat (Ascii.nat_of_ascii c) - 48 in
      if (0 <=? d) && (d <=? 9) then parse_digits l (acc * 10 + d) else None
  end.
Definition parse_unsigned (l : list Ascii.ascii) : option Z :=
  match l with [] => None | _ => parse_digits l 0 end.
Definition ParseInt (s : string) : option Z :=
  let n := match bytes_of s with
           | c :: l => if decide (c = byte 45) then option_map Z.opp (parse_unsigned l)
                       else if decide (c = byte 43) then parse_unsigned l
                       else parse_unsigned (c :: l)
           | [] => None
           end in
  match n with
  | Some n => if (min_i64 <=? n) && (n <=? max_i64) then Some n else None
  | None => None
  end.

Definition parseLedgerCloseTime (raw : string) : Time :=
  match ParseInt (TrimSpace raw) with
  | Some seconds => if seconds <=? 0 then 0 else time_Unix seconds
  | None => 0
  end.

(** What [getTransaction] comes back with. *)
Inductive LookupAnswer := LookupDown | LookupError (msg : string) | LookupResult (status latest oldest : string).

Definition chainView (latest oldest : string) : ChainView :=
  mkView (parseLedgerCloseTime latest) (parseLedgerCloseTime oldest).
Definition LookupTransaction (a : LookupAnswer) : option (string * ChainView) :=
  match a with
  | LookupResult status latest oldest => Some (status, chainView latest oldest)
  | _ => None
  end.

(** What [sendTransaction] comes back with. *)
Inductive SendAnswer := SendDown | SendError (msg : string) | SendResult (status hash : string).

Inductive StoreErr := ErrIntentNotFound | ErrReferenceReused | ErrReferenceRequired | ErrTerminalRequired | ErrDb.
#[global] Instance StoreErr_eq_dec : EqDecision StoreErr.
Proof. solve_decision. Defined.

Inductive SendErr :=
| ErrIdentify | ErrNoTimeBound (hash : string) | ErrRecord (e : StoreErr) | ErrTransport | ErrSubmitFailed
| ErrSubmissionUnresolved.

Definition submitEnvelope (a : SendAnswer) : result SendErr string :=
  match a with
  | SendDown => Err ErrTransport
  | SendError _ => Err ErrSubmitFailed
  | SendResult status hash => if status =s? "ERROR" then Err ErrSubmitFailed else Ok hash
  end.

(** [waitForTx], over the answers to its polls until the context ends. *)
Inductive WaitErr := ErrContext | ErrPoll | ErrTxFailed.
Fixpoint waitForTx (polls : list LookupAnswer) : result WaitErr unit :=
  match polls with
  | [] => Err ErrContext
  | LookupResult status _ _ :: polls =>
      if status =s? "SUCCESS" then Ok tt else if status =s? "FAILED" then Err ErrTxFailed else waitForTx polls
  | _ :: _ => Err ErrPoll
  end.

(** ** submission_store_postgres.go *)

Record Row := mkRow {
  intent : SubmissionIntent;
  next_reconcile_at : Time;
  last_reconciled_at : option Time;
  reconcile_attempts : Z;
}.

(** A statement's way to the database: answered, failed without effect, or carried
    out with its answer lost. *)
Inductive Trip := Fine | Down | Lost.
Record DB := mkDB { rows : gmap Z Row; next_id : Z; trips : list Trip }.

Definition statement {A} (f : DB → DB * result StoreErr A) (d : DB) : DB * result StoreErr A :=
  match trips d with
  | [] => f d
  | t :: rest =>
      let d := mkDB (rows d) (next_id d) rest in
      match t with
      | Fine => f d
      | Down => (d, Err ErrDb)
      | Lost => (fst (f d), Err ErrDb)
      end
  end.

Definition DefaultReconcileBackoff : Duration := 20 * Second.
Definition DefaultReconcileInterval : Duration := 15 * Second.
Definition DefaultReconcileBatch : Z := 50.

Definition row_of (reference : string) (d : DB) : option Row :=
  match List.find (λ x, IdempotencyReference (intent (snd x)) =s? reference) (map_to_list (rows d)) with
  | Some (_, r) => Some r
  | None => None
  end.

(** [INSERT ... ON CONFLICT DO NOTHING]. *)
Definition insertIntent (i : SubmissionIntent) (now : Time) : DB → DB * result StoreErr (option SubmissionIntent) :=
  let created := if time_is_zero (CreatedAt i) then now else CreatedAt i in
  statement (λ d,
    match row_of (IdempotencyReference i) d with
    | Some _ => (d, Ok None)
    | None =>
        let i' := mkIntent (next_id d) (IdempotencyReference i) (TransactionHash i) (ValidUntil i) (SourceAccount i)
                    (DomainAction i) SubmissionPending 0 created None None "" in
        (mkDB (<[next_id d := mkRow i' created None 0]> (rows d)) (next_id d + 1) (trips d), Ok (Some i'))
    end).

Definition getByReference (reference : string) : DB → DB * result StoreErr SubmissionIntent :=
  statement (λ d, (d, match row_of reference d with Some r => Ok (intent r) | None => Err ErrIntentNotFound end)).

Definition Claim (i : SubmissionIntent) (now : Time) (d : DB) : DB * result StoreErr (SubmissionIntent * bool) :=
  if IdempotencyReference i =s? "" then (d, Err ErrReferenceRequired)
  else
    match insertIntent i now d with
    | (d, Err e) => (d, Err e)
    | (d, Ok (Some created)) => (d, Ok (created, true))
    | (d, Ok None) =>
        match getByReference (IdempotencyReference i) d with
        | (d, Err e) => (d, Err e)
        | (d, Ok existing) =>
            if negb (TransactionHash existing =s? TransactionHash i) then (d, Err ErrReferenceReused)
            else (d, Ok (existing, false))
        end
    end.

(** An [UPDATE] of one row, with whether it was there. *)
Definition update (id : Z) (f : Row → option Row) : DB → DB * result StoreErr unit :=
  statement (λ d,
    match rows d !! id with
    | Some r => match f r with
                | Some r' => (mkDB (<[id := r']> (rows d)) (next_id d) (trips d), Ok tt)
                | None => (d, Err ErrIntentNotFound)
                end
    | None => (d, Err ErrIntentNotFound)
    end).

Definition mark (at_ : Time) (i : SubmissionIntent) : SubmissionIntent :=
  mkIntent (IntentID i) (IdempotencyReference i) (TransactionHash i) (ValidUntil i) (SourceAccount i) (DomainAction i)
    (State i) (Attempt i + 1) (CreatedAt i) (Some (match SubmittedAt i with Some t => t | None => at_ end))
    (ResolvedAt i) (OutcomeDetail i).
Definition settle (s : SubmissionState) (detail : string) (at_ : Time) (i : SubmissionIntent) : SubmissionIntent :=
  mkIntent (IntentID i) (IdempotencyReference i) (TransactionHash i) (ValidUntil i) (SourceAccount i) (DomainAction i)
    s (Attempt i) (CreatedAt i) (SubmittedAt i) (Some at_) detail.

Definition MarkSubmitted (id : Z) (at_ : Time) : DB → DB * result StoreErr unit :=
  update id (λ r, Some (mkRow (mark at_ (intent r)) (next_reconcile_at r) (last_reconciled_at r) (reconcile_attempts r))).

Definition Resolve (id : Z) (s : SubmissionState) (detail : string) (at_ : Time) (d : DB) : DB * result StoreErr unit :=
  if bool_decide (s = SubmissionPending) then (d, Err ErrTerminalRequired)
  else
    update id (λ r,
      if bool_decide (State (intent r) = SubmissionPending)
      then Some (mkRow (settle s detail at_ (intent r)) (next_reconcile_at r) (Some at_) (reconcile_attempts r + 1))
      else None) d.

Definition Get (id : Z) : DB → DB * result StoreErr SubmissionIntent :=
  statement (λ d, (d, match rows d !! id with Some r => Ok (intent r) | None => Err ErrIntentNotFound end)).

(** Rows other sessions have locked are skipped. *)
Definition due (now : Time) (locked : gset Z) (x : Z * Row) : bool :=
  bool_decide (State (intent (snd x)) = SubmissionPending) && (next_reconcile_at (snd x) <=? now) &&
  negb (bool_decide (fst x ∈ locked)).
Definition earlier (x y : Z * Row) : Prop := next_reconcile_at (snd x) ≤ next_reconcile_at (snd y).
#[global] Instance earlier_dec x y : Decision (earlier x y) := Z_le_dec _ _.

Definition postpone (until : Time) (r : Row) : Row :=
  mkRow (intent r) until (last_reconciled_at r) (reconcile_attempts r).

Definition ClaimPendingForReconcile (backoff : Duration) (limit : Z) (now : Time) (locked : gset Z)
  : DB → DB * result StoreErr (list SubmissionIntent) :=
  let limit := if limit <=? 0 then DefaultReconcileBatch else limit in
  statement (λ d,
    let batch := take (Z.to_nat limit) (merge_sort earlier (List.filter (due now locked) (map_to_list (rows d)))) in
    let ids := map fst batch in
    (mkDB (map_imap (λ id r, Some (if bool_decide (id ∈ ids) then postpone (time_add now backoff) r else r)) (rows d))
       (next_id d) (trips d),
     Ok (map (λ x, intent (snd x)) batch))).

(** ** invoker.go *)

Record Invoker := mkInvoker {
  networkPassphrase : string;
  operatorAddress : string;
  has_store : bool;
}.

Section invoker.
  (** The SDK: what an envelope holds ([Some None]: a fee bump), its hash, and the
      upper time bound it is signed with. *)
  Context {Tx : Type}.
  Variable TransactionFromXDR : string → option (option Tx).
  Variable HashHex : Tx → string → option string.
  Variable MaxTime : Tx → option Z.

Definition IdentifyTransaction (envelope passphrase : string) : option TransactionIdentity :=
  match TransactionFromXDR envelope with
  | Some (Some inner) =>
      match HashHex inner passphrase with
      | Some hash =>
          Some (mkIdentity hash
            match MaxTime inner with
            | Some m => if (0 <? m) && (m <=? max_i64) then time_Unix m else 0
            | None => 0
            end)
      | None => None
      end
  | _ => None
  end.

Definition existingSubmissionResult (stored : SubmissionIntent) : option SendErr :=
  match State stored with
  | SubmissionLanded => None
  | SubmissionRejected | SubmissionExpired => Some ErrSubmitFailed
  | SubmissionUnresolvable => Some ErrSubmissionUnresolved
  | SubmissionPending => Some ErrSubmissionUnresolved
  end.

(** [send] up to the hand-over: its answer, or the intent to hand over. *)
Definition send_claim (c : Invoker) (reference envelope : string) (now : Time) (d : DB)
  : DB * ((string * option SendErr) + SubmissionIntent) :=
  match IdentifyTransaction envelope (networkPassphrase c) with
  | None => (d, inl ("", Some ErrIdentify))
  | Some identity =>
      if time_is_zero (IdentityValidUntil identity) then (d, inl ("", Some (ErrNoTimeBound (Hash identity))))
      else
        let reference := if reference =s? "" then ("tx:" +:+ Hash identity)%string else reference in
        match Claim (mkIntent 0 reference (Hash identity) (IdentityValidUntil identity) (operatorAddress c) ""
                       SubmissionPending 0 now None None "") now d with
        | (d, Err e) => (d, inl ("", Some (ErrRecord e)))
        | (d, Ok (stored, false)) => (d, inl (TransactionHash stored, existingSubmissionResult stored))
        | (d, Ok (stored, true)) => (d, inr stored)
        end
  end.

(** [send] after the hand-over; the error of the mark is only logged. *)
Definition send_finish (stored : SubmissionIntent) (a : SendAnswer) (at_ : Time) (d : DB) : DB * (string * option SendErr) :=
  let d := fst (MarkSubmitted (IntentID stored) at_ d) in
  (d, match submitEnvelope a with
      | Err _ => (TransactionHash stored, Some ErrSubmissionUnresolved)
      | Ok hash => (hash, None)
      end).

(** The whole of [send], with what is handed to the network. *)
Definition send (c : Invoker) (reference envelope : string) (now : Time) (a : SendAnswer) (at_ : Time) (d : DB)
  : DB * (string * option SendErr) * option string :=
  if negb (has_store c) then
    (d, match submitEnvelope a with Ok hash => (hash, None) | Err e => (""%string, Some e) end, Some envelope)
  else
    match send_claim c reference envelope now d with
    | (d, inl answer) => (d, answer, None)
    | (d, inr stored) => let '(d, answer) := send_finish stored a at_ d in (d, answer, Some envelope)
    end.

End invoker.

(** ** reconciler.go *)

Record SubmissionReconciler := mkReconciler { batch : Z; backoff : Duration; leader : option bool }.

Definition isLeader (r : SubmissionReconciler) : bool := match leader r with None => true | Some b => b end.

(** What the chain says of an intent, if it says anything. *)
Definition reconcile_ask (i : SubmissionIntent) (a : LookupAnswer) : option (string * ChainOutcome) :=
  match LookupTransaction a with
  | None => None
  | Some (status, view) =>
      let outcome := DetermineOutcome status view i in
      if bool_decide (outcome = OutcomeUnknown) then None else Some (status, outcome)
  end.

Definition reconcile_settle (i : SubmissionIntent) (status : string) (o : ChainOutcome) (now : Time) (d : DB) : DB :=
  fst (Resolve (IntentID i) (outcome_state o)
         ("chain reported " +:+ status +:+ "; outcome " +:+ outcome_string o)%string now d).

Definition reconcile (i : SubmissionIntent) (a : LookupAnswer) (now : Time) (d : DB) : DB :=
  match reconcile_ask i a with
  | None => d
  | Some (status, o) => reconcile_settle i status o now d
  end.

(** The intents one after another, until the context ends. *)
Fixpoint reconcile_all (l : list SubmissionIntent) (env : list (LookupAnswer * Time)) (d : DB) : DB :=
  match l, env with
  | i :: l, (a, now) :: env => reconcile_all l env (reconcile i a now d)
  | _, _ => d
  end.

Definition Tick (r : SubmissionReconciler) (now : Time) (locked : gset Z)
    (env : list SubmissionIntent → list (LookupAnswer * Time)) (d : DB) : DB :=
  if negb (isLeader r) then d
  else match ClaimPendingForReconcile (backoff r) (batch r) now locked d with
       | (d, Err _) => d
       | (d, Ok intents) => reconcile_all intents (env intents) d
       end.

End Submissions.
