(* ===== verification/SubmissionLife.v ===== *)
(** * The life of chain submissions

    Any number of processes claim, hand over and record submissions, may stop between
    two of these, and reconcilers sweep while the chain closes ledgers. A transaction is
    included at most once, not before it was sent nor after its time bound; the RPC sees
    a window of the ledgers. The record of a settled submission then tells the truth,
    with one exception that is made explicit. *)
From S2P Require Import Prelude.
From S2P Require Import Submissions.

Module SubmissionLife.
Import Submissions.

(** ** The world *)

Record Ledger := mkLedger { close : Time; included : gmap string bool }.
Record Sent := mkSent { sent_reference : string; sent_hash : string; sent_at : Time }.

(** A submission between its claim and the hand-over, and after it. *)
Inductive Phase := Claimed (i : SubmissionIntent) (envelope : string) | Handed (i : SubmissionIntent) (a : SendAnswer).

(** The database, the clock, the submissions under way, the ledgers (newest first),
    what was handed over, the intents reconcilers have claimed, and their verdicts. *)
Record World := mkWorld {
  db : DB;
  clock : Time;
  calls : gmap Z Phase;
  ledgers : list Ledger;
  sent : list Sent;
  work : list SubmissionIntent;
  verdicts : list (SubmissionIntent * string * ChainOutcome);
}.

Definition with_db (d : DB) (w : World) : World := mkWorld d (clock w) (calls w) (ledgers w) (sent w) (work w) (verdicts w).
Definition with_calls (c : gmap Z Phase) (w : World) : World :=
  mkWorld (db w) (clock w) c (ledgers w) (sent w) (work w) (verdicts w).

Definition set_trips (l : list Trip) (w : World) : World := with_db (mkDB (rows (db w)) (next_id (db w)) l) w.

(** Whether the chain included a transaction, and with which result. *)
Definition on_chain (w : World) (h : string) (r : bool) : Prop := ∃ l, l ∈ ledgers w ∧ included l !! h = Some r.

(** The RPC answers from a window of the ledgers. *)
Definition honest (w : World) (h : string) (a : LookupAnswer) : Prop :=
  match a with
  | LookupResult status latest oldest =>
      ∃ newer kept older first_ last_,
        ledgers w = newer ++ kept ++ older ∧ head kept = Some first_ ∧ last kept = Some last_ ∧
        (parseLedgerCloseTime latest = 0 ∨ parseLedgerCloseTime latest = close first_) ∧
        (parseLedgerCloseTime oldest = 0 ∨ parseLedgerCloseTime oldest = close last_) ∧
        (status = TxStatusSuccess → ∃ l, l ∈ kept ∧ included l !! h = Some true) ∧
        (status = TxStatusFailed → ∃ l, l ∈ kept ∧ included l !! h = Some false) ∧
        (status = TxStatusNotFound → ∀ l, l ∈ kept → included l !! h = None)
  | _ => True
  end.

Section life.
  Context {Tx : Type}.
  Variable TransactionFromXDR : string → option (option Tx).
  Variable HashHex : Tx → string → option string.
  Variable MaxTime : Tx → option Z.
  Variable c : Invoker.
  (** The bound the network enforces on the transaction of a hash. *)
  Variable deadline : string → Time.
  Hypothesis hash_deadline : ∀ b tx h m, TransactionFromXDR b = Some (Some tx) →
    HashHex tx (networkPassphrase c) = Some h → MaxTime tx = Some m → deadline h = (m + unix_seconds) * Second.

(** The bounds of the envelopes are instants an [int64] of seconds can hold. *)
Definition representable (envelope : string) : Prop :=
  ∀ tx m, TransactionFromXDR envelope = Some (Some tx) → MaxTime tx = Some m → m ≤ 2 ^ 62.

(** An envelope is signed anew for each submission, so its hash is not recorded under
    another reference. *)
Definition own_hash (reference envelope : string) (w : World) : Prop :=
  ∀ h k r, option_map Hash (IdentifyTransaction TransactionFromXDR HashHex MaxTime envelope (networkPassphrase c)) = Some h →
    rows (db w) !! k = Some r → TransactionHash (intent r) = h →
    IdempotencyReference (intent r) = if reference =s? "" then ("tx:" +:+ h)%string else reference.

Definition claims (n : Z) (reference envelope : string) (w : World) : World :=
  match send_claim TransactionFromXDR HashHex MaxTime c reference envelope (clock w) (db w) with
  | (d, inl _) => with_db d w
  | (d, inr stored) => with_calls (<[n := Claimed stored envelope]> (calls w)) (with_db d w)
  end.
Definition hands_over (n : Z) (i : SubmissionIntent) (a : SendAnswer) (w : World) : World :=
  mkWorld (db w) (clock w) (<[n := Handed i a]> (calls w)) (ledgers w)
    (mkSent (IdempotencyReference i) (TransactionHash i) (clock w) :: sent w) (work w) (verdicts w).
Definition finishes (n : Z) (i : SubmissionIntent) (a : SendAnswer) (w : World) : World :=
  with_calls (delete n (calls w)) (with_db (fst (send_finish i a (clock w) (db w))) w).
Definition sweeps (b : Duration) (limit : Z) (locked : gset Z) (w : World) : World :=
  match ClaimPendingForReconcile b limit (clock w) locked (db w) with
  | (d, Ok l) => mkWorld d (clock w) (calls w) (ledgers w) (sent w) (l ++ work w) (verdicts w)
  | (d, Err _) => with_db d w
  end.
Definition asks (i : SubmissionIntent) (a : LookupAnswer) (w : World) : World :=
  match reconcile_ask i a with
  | Some (status, o) => mkWorld (db w) (clock w) (calls w) (ledgers w) (sent w) (work w) ((i, status, o) :: verdicts w)
  | None => w
  end.
Definition closes (l : Ledger) (w : World) : World :=
  mkWorld (db w) (clock w) (calls w) (l :: ledgers w) (sent w) (work w) (verdicts w).
Definition passes (d : Duration) (w : World) : World :=
  mkWorld (db w) (clock w + Z.max 0 d) (calls w) (ledgers w) (sent w) (work w) (verdicts w).

(** What the network may put in the next ledger. *)
Definition closable (l : Ledger) (w : World) : Prop :=
  (∀ l', head (ledgers w) = Some l' → close l' < close l) ∧
  ∀ h r, included l !! h = Some r →
    close l ≤ deadline h ∧ (∃ s, s ∈ sent w ∧ sent_hash s = h ∧ sent_at s ≤ close l) ∧
    ∀ l', l' ∈ ledgers w → included l' !! h = None.

Inductive step : World → World → Prop :=
| Claims n reference envelope w :
    calls w !! n = None → representable envelope → own_hash reference envelope w →
    step w (claims n reference envelope w)
| Hands_over n i envelope a w : calls w !! n = Some (Claimed i envelope) → step w (hands_over n i a w)
| Finishes n i a w : calls w !! n = Some (Handed i a) → step w (finishes n i a w)
| Stops n w : step w (with_calls (delete n (calls w)) w)
| Sweeps b limit locked w : step w (sweeps b limit locked w)
| Asks i a w : i ∈ work w → honest w (TransactionHash i) a → step w (asks i a w)
| Settles i status o w : (i, status, o) ∈ verdicts w → step w (with_db (reconcile_settle i status o (clock w) (db w)) w)
| Closes l w : closable l w → step w (closes l w)
| Passes d w : step w (passes d w)
| Fails trips w : step w (set_trips trips w).

Definition initial (w : World) : Prop :=
  rows (db w) = ∅ ∧ calls w = ∅ ∧ ledgers w = [] ∧ sent w = [] ∧ work w = [] ∧ verdicts w = [].

(** ** The invariant *)

(** A later state of a row. *)
Definition later (i i' : SubmissionIntent) : Prop :=
  IntentID i' = IntentID i ∧ IdempotencyReference i' = IdempotencyReference i ∧ TransactionHash i' = TransactionHash i ∧
  ValidUntil i' = ValidUntil i ∧ CreatedAt i' = CreatedAt i ∧
  (∀ t, SubmittedAt i = Some t → SubmittedAt i' = Some t) ∧
  (State i ≠ SubmissionPending → State i' = State i).

(** The transaction of an intent can never be included any more, and if it was the RPC
    had forgotten the ledger, which closed before the hand-over was recorded. *)
Definition dead (w : World) (i : SubmissionIntent) : Prop :=
  (∃ l, head (ledgers w) = Some l ∧ deadline (TransactionHash i) < close l) ∧
  ∀ l, l ∈ ledgers w → included l !! TransactionHash i = None ∨ ∃ t, SubmittedAt i = Some t ∧ close l < t.

Definition truth (w : World) (i : SubmissionIntent) (s : SubmissionState) : Prop :=
  match s with
  | SubmissionLanded => on_chain w (TransactionHash i) true
  | SubmissionRejected => on_chain w (TransactionHash i) false
  | SubmissionExpired => dead w i
  | SubmissionUnresolvable | SubmissionPending => True
  end.

(** Ledgers close one after another. *)
Definition newer (l l' : Ledger) : Prop := close l' < close l.

Record ok (w : World) : Prop := mkOk {
  o_id k r : rows (db w) !! k = Some r → IntentID (intent r) = k ∧ k < next_id (db w);
  o_reference k j r s : rows (db w) !! k = Some r → rows (db w) !! j = Some s →
    IdempotencyReference (intent r) = IdempotencyReference (intent s) → k = j;
  o_hash k j r s : rows (db w) !! k = Some r → rows (db w) !! j = Some s →
    TransactionHash (intent r) = TransactionHash (intent s) → k = j;
  o_deadline k r : rows (db w) !! k = Some r → ValidUntil (intent r) = deadline (TransactionHash (intent r));
  o_created k r : rows (db w) !! k = Some r → CreatedAt (intent r) ≤ clock w;
  o_truth k r : rows (db w) !! k = Some r → truth w (intent r) (State (intent r));
  o_sent s : s ∈ sent w → ∃ k r, rows (db w) !! k = Some r ∧ IdempotencyReference (intent r) = sent_reference s ∧
    TransactionHash (intent r) = sent_hash s ∧ CreatedAt (intent r) ≤ sent_at s;
  o_once : NoDup (map sent_reference (sent w));
  o_claimed n i e : calls w !! n = Some (Claimed i e) →
    (∃ r, rows (db w) !! IntentID i = Some r ∧ later i (intent r)) ∧
    IdempotencyReference i ∉ map sent_reference (sent w);
  o_one_call n m i j e f : calls w !! n = Some (Claimed i e) → calls w !! m = Some (Claimed j f) →
    IdempotencyReference i = IdempotencyReference j → n = m;
  o_ledgers : StronglySorted newer (ledgers w);
  o_included l h r : l ∈ ledgers w → included l !! h = Some r →
    close l ≤ deadline h ∧ ∃ s, s ∈ sent w ∧ sent_hash s = h ∧ sent_at s ≤ close l;
  o_unique l l' h : l ∈ ledgers w → l' ∈ ledgers w → is_Some (included l !! h) → is_Some (included l' !! h) → l = l';
  o_work i : i ∈ work w → ∃ r, rows (db w) !! IntentID i = Some r ∧ later i (intent r);
  o_verdict i status o : (i, status, o) ∈ verdicts w → o ≠ OutcomeUnknown ∧
    ∃ r, rows (db w) !! IntentID i = Some r ∧ later i (intent r) ∧ truth w (intent r) (outcome_state o);
}.

Lemma later_refl i : later i i.
Proof. by split_and!. Qed.

Lemma later_trans i j k : later i j → later j k → later i k.
Proof.
  intros (A1 & A2 & A3 & A4 & A5 & A6 & A7) (B1 & B2 & B3 & B4 & B5 & B6 & B7). split_and!; try congruence; auto.
  intros Hp. rewrite B7; [by apply A7|]. by rewrite A7.
Qed.

Lemma dead_later w i i' : later i i' → dead w i → dead w i'.
Proof.
  intros (_ & _ & E & _ & _ & H & _) [Hl Hi]. unfold dead. rewrite E. split; [done|]. intros l Hin.
  destruct (Hi l Hin) as [?|(t & Ht & ?)]; [by left|right]. exists t. auto.
Qed.

Lemma truth_later w i i' s : later i i' → truth w i s → truth w i' s.
Proof. intros Hl. pose proof Hl as (_ & _ & E & _). destruct s; cbn; try done; try by rewrite E. by apply dead_later. Qed.

(** What was true of the ledgers stays true when the next one closes. *)
Lemma truth_closes w l i s : ok w → closable l w → truth w i s → truth (closes l w) i s.
Proof.
  intros Hw [Hn Hin]. assert (∀ h r, on_chain w h r → on_chain (closes l w) h r) as Hon.
  { intros h r (l' & Hl' & Hr). exists l'. split; [by right|done]. }
  destruct s; cbn; try done; try apply Hon. intros [(l' & Hl' & Hd) Hi]. split.
  - exists l. split; [done|]. specialize (Hn l' Hl'). lia.
  - intros l1 [->|Hl1]%elem_of_cons; [|by apply Hi]. left.
    destruct (included l !! TransactionHash i) as [r|] eqn:E; [|done]. destruct (Hin _ _ E) as (Hd' & _). specialize (Hn l' Hl'). lia.
Qed.

(** ** Statements *)

(** The same rows, in later states. *)
Definition same_rows (d d' : DB) : Prop :=
  next_id d' = next_id d ∧
  (∀ k r, rows d !! k = Some r → ∃ r', rows d' !! k = Some r' ∧ later (intent r) (intent r')) ∧
  (∀ k r', rows d' !! k = Some r' → ∃ r, rows d !! k = Some r ∧ later (intent r) (intent r')).

Lemma same_rows_eq d d' : rows d' = rows d → next_id d' = next_id d → same_rows d d'.
Proof.
  intros Er En. unfold same_rows. rewrite Er. split; [done|].
  split; intros k r Hr; exists r; (split; [done|apply later_refl]).
Qed.

Lemma ok_same_rows w d :
  ok w → same_rows (db w) d → (∀ k r, rows d !! k = Some r → truth w (intent r) (State (intent r))) → ok (with_db d w).
Proof.
  intros [] (En & Hf & Hb) Ht. split; cbn; try done.
  - intros k r Hr. destruct (Hb k r Hr) as (r0 & Hr0 & (-> & _)). rewrite En. by apply o_id0.
  - intros k j r s Hr Hs. destruct (Hb k r Hr) as (r0 & Hr0 & (_ & -> & _)), (Hb j s Hs) as (s0 & Hs0 & (_ & -> & _)). by eapply o_reference0.
  - intros k j r s Hr Hs. destruct (Hb k r Hr) as (r0 & Hr0 & (_ & _ & -> & _)), (Hb j s Hs) as (s0 & Hs0 & (_ & _ & -> & _)). by eapply o_hash0.
  - intros k r Hr. destruct (Hb k r Hr) as (r0 & Hr0 & (_ & _ & -> & -> & _)). by eapply o_deadline0.
  - intros k r Hr. destruct (Hb k r Hr) as (r0 & Hr0 & (_ & _ & _ & _ & -> & _)). by eapply o_created0.
  - intros s Hs. destruct (o_sent0 s Hs) as (k & r & Hr & E1 & E2 & E3).
    destruct (Hf k r Hr) as (r' & Hr' & (_ & E4 & E5 & _ & E6 & _)). exists k, r'. rewrite E4, E5, E6. by split_and!.
  - intros n i e Hn. destruct (o_claimed0 n i e Hn) as [(r & Hr & Hl) Hni]. split; [|done].
    destruct (Hf _ r Hr) as (r' & Hr' & Hl'). exists r'. split; [done|]. by eapply later_trans.
  - intros i Hi. destruct (o_work0 i Hi) as (r & Hr & Hl). destruct (Hf _ r Hr) as (r' & Hr' & Hl'). exists r'.
    split; [done|]. by eapply later_trans.
  - intros i st o Hi. destruct (o_verdict0 i st o Hi) as (Ho & r & Hr & Hl & Htr). split; [done|].
    destruct (Hf _ r Hr) as (r' & Hr' & Hl'). exists r'. split; [done|]. split; [by eapply later_trans|].
    by eapply (truth_later w).
Qed.

Lemma statement_same {A} (f : DB → DB * result StoreErr A) d :
  (∀ d, same_rows d (fst (f d))) → same_rows d (fst (statement f d)).
Proof.
  intros Hf. unfold statement. destruct (trips d) as [|[] rest]; [apply Hf| | |].
  - apply (Hf (mkDB (rows d) (next_id d) rest)).
  - by apply same_rows_eq.
  - apply (Hf (mkDB (rows d) (next_id d) rest)).
Qed.

(** An update of a row changes that row only. *)
Lemma update_cases id g d :
  let d' := fst (update id g d) in
  next_id d' = next_id d ∧
  (rows d' = rows d ∨ ∃ r r', rows d !! id = Some r ∧ g r = Some r' ∧ rows d' = <[id := r']> (rows d)).
Proof.
  cbv zeta. unfold update, statement. destruct (trips d) as [|[] rest]; cbn; try (by split; [|left]);
    (destruct (rows d !! id) as [r|] eqn:E; [|by split; [|left]]); (destruct (g r) as [r'|] eqn:Eg; [|by split; [|left]]);
    (split; [done|]); right; by exists r, r'.
Qed.

Lemma insert_same d d' id r r' :
  rows d !! id = Some r → later (intent r) (intent r') → next_id d' = next_id d → rows d' = <[id := r']> (rows d) → same_rows d d'.
Proof.
  intros Hr Hl Hn Er. split; [done|]. rewrite Er. split.
  - intros k s Hs. destruct (decide (k = id)) as [->|Hne].
    + exists r'. rewrite lookup_insert_eq. split; [done|]. by assert (s = r) as -> by congruence.
    + exists s. rewrite lookup_insert_ne by done. split; [done|apply later_refl].
  - intros k s. rewrite lookup_insert_Some. intros [[<- <-]|[Hne Hs]]; [by exists r|]. exists s. split; [done|apply later_refl].
Qed.

Lemma mark_later at_ i : later i (mark at_ i).
Proof. split_and!; try done. intros t Ht. cbn. by rewrite Ht. Qed.

Lemma settle_later s detail at_ i : State i = SubmissionPending → later i (settle s detail at_ i).
Proof. intros Hp. split_and!; try done. Qed.

Lemma ok_mark w id at_ : ok w → ok (with_db (fst (MarkSubmitted id at_ (db w))) w).
Proof.
  intros Hw. pose proof (update_cases id (λ r, Some (mkRow (mark at_ (intent r)) (next_reconcile_at r) (last_reconciled_at r)
    (reconcile_attempts r))) (db w)) as [Hn [Er|(r & r' & Hr & [= <-] & Er)]]; fold (MarkSubmitted id at_) in *.
  - apply ok_same_rows; [done|by apply same_rows_eq|]. rewrite Er. apply (o_truth _ Hw).
  - apply ok_same_rows; [done|eapply insert_same; [done| |done|done]; apply mark_later|].
    rewrite Er. intros k s. rewrite lookup_insert_Some. intros [[<- <-]|[Hne Hs]]; [|by apply (o_truth _ Hw k)].
    cbn. eapply (truth_later w); [apply mark_later|]. by apply (o_truth _ Hw id).
Qed.

Lemma ok_resolve w i status o at_ :
  ok w → (i, status, o) ∈ verdicts w → ok (with_db (reconcile_settle i status o at_ (db w)) w).
Proof.
  intros Hw Hv. destruct (o_verdict _ Hw _ _ _ Hv) as (Ho & r & Hr & Hl & Ht). unfold reconcile_settle, Resolve.
  case_bool_decide as Hp; [by destruct w|]. set (g := λ r : Row, _).
  destruct (update_cases (IntentID i) g (db w)) as [Hn [Er|(r0 & r' & Hr0 & Hg & Er)]].
  - apply ok_same_rows; [done|by apply same_rows_eq|]. rewrite Er. apply (o_truth _ Hw).
  - assert (r0 = r) as -> by congruence. unfold g in Hg. case_bool_decide as Hpend; [|done]. injection Hg as <-.
    apply ok_same_rows; [done|eapply insert_same; [done| |done|done]; by apply settle_later|].
    rewrite Er. intros k s. rewrite lookup_insert_Some. intros [[<- <-]|[Hne Hs]]; [|by apply (o_truth _ Hw k)].
    cbn [intent settle State]. eapply (truth_later w); [by apply settle_later|done].
Qed.

(** A sweep moves due rows on and answers with their intents. *)
Lemma sweep_cases b limit now locked d :
  let f := ClaimPendingForReconcile b limit now locked d in
  same_rows d (fst f) ∧ (∀ k r, rows (fst f) !! k = Some r → ∃ r0, rows d !! k = Some r0 ∧ intent r = intent r0) ∧
  (∀ l, snd f = Ok l → ∀ i, i ∈ l → ∃ k r, rows d !! k = Some r ∧ i = intent r).
Proof.
  cbv zeta. unfold ClaimPendingForReconcile. set (f := λ d, _).
  assert (∀ d, (∀ k r, rows (fst (f d)) !! k = Some r → ∃ r0, rows d !! k = Some r0 ∧ intent r = intent r0) ∧
    (∀ k r, rows d !! k = Some r → ∃ r', rows (fst (f d)) !! k = Some r' ∧ intent r' = intent r) ∧ next_id (fst (f d)) = next_id d ∧
    ∀ l, snd (f d) = Ok l → ∀ i, i ∈ l → ∃ k r, rows d !! k = Some r ∧ i = intent r) as Hf.
  { clear d. intros d. unfold f. cbn. split_and!.
    - intros k r. rewrite map_lookup_imap. destruct (rows d !! k) as [r0|]; [|done]. cbn. case_bool_decide; intros [= <-]; by exists r0.
    - intros k r Hr. rewrite map_lookup_imap, Hr. cbn. case_bool_decide; by eexists.
    - done.
    - intros l [= <-] i Hi. apply list_elem_of_fmap in Hi as ([k r] & -> & Hi). exists k, r. split; [|done].
      apply (subseteq_take _ _ ) in Hi. rewrite merge_sort_Permutation in Hi. apply list_elem_of_In, filter_In in Hi as [Hi _].
      by apply list_elem_of_In, elem_of_map_to_list in Hi. }
  assert (∀ d, same_rows d (fst (f d))) as Hsame.
  { intros d0. destruct (Hf d0) as (H1 & H2 & H3 & _). split; [done|]. split.
    - intros k r Hr. destruct (H2 k r Hr) as (r' & Hr' & He). exists r'. rewrite He. split; [done|apply later_refl].
    - intros k r Hr. destruct (H1 k r Hr) as (r0 & Hr0 & He). exists r0. rewrite He. split; [done|apply later_refl]. }
  split; [by apply statement_same|]. unfold statement. destruct (trips d) as [|[] rest].
  - destruct (Hf d) as (H1 & _ & _ & H4). by split.
  - destruct (Hf (mkDB (rows d) (next_id d) rest)) as (H1 & _ & _ & H4). by split.
  - cbn. split; [|done]. intros k r Hr. by exists r.
  - destruct (Hf (mkDB (rows d) (next_id d) rest)) as (H1 & _ & _ & H4). cbn. by split.
Qed.

Lemma ok_sweeps w b limit locked : ok w → ok (sweeps b limit locked w).
Proof.
  intros Hw. destruct (sweep_cases b limit (clock w) locked (db w)) as (Hs & Hi & Hl). unfold sweeps.
  destruct (ClaimPendingForReconcile b limit (clock w) locked (db w)) as [d r]. cbn in *.
  assert (ok (with_db d w)) as Hd.
  { apply ok_same_rows; [done|done|]. intros k x Hx. destruct (Hi k x Hx) as (r0 & Hr0 & ->). by apply (o_truth _ Hw k). }
  destruct r as [l|e]; [|done]. destruct Hd. split; cbn in *; try done.
  intros i [Hin|Hin]%elem_of_app; [|by apply o_work0]. destruct (Hl l eq_refl i Hin) as (k & r & Hr & ->).
  destruct (o_id _ Hw k r Hr) as [-> _]. destruct Hs as (_ & Hf & _). by apply Hf.
Qed.

(** ** Claims *)

(** The row a claim inserts. *)
Definition fresh_intent (reference envelope : string) (now : Time) (d : DB) (i : SubmissionIntent) : Prop :=
  ∃ identity, IdentifyTransaction TransactionFromXDR HashHex MaxTime envelope (networkPassphrase c) = Some identity ∧
    time_is_zero (IdentityValidUntil identity) = false ∧
    let reference := if reference =s? "" then ("tx:" +:+ Hash identity)%string else reference in
    row_of reference d = None ∧
    i = mkIntent (next_id d) reference (Hash identity) (IdentityValidUntil identity) (operatorAddress c) ""
          SubmissionPending 0 now None None "".

Lemma row_of_none reference d k r :
  row_of reference d = None → rows d !! k = Some r → IdempotencyReference (intent r) ≠ reference.
Proof.
  unfold row_of. destruct (List.find _ _) as [[j x]|] eqn:E; [done|]. intros _ Hr He.
  pose proof (List.find_none _ _ E (k, r)) as Hn. rewrite <- list_elem_of_In, elem_of_map_to_list in Hn.
  specialize (Hn Hr). cbn in Hn. apply string_eqb_neq in Hn. done.
Qed.

Lemma row_of_some reference d r : row_of reference d = Some r → ∃ k, rows d !! k = Some r ∧ IdempotencyReference (intent r) = reference.
Proof.
  unfold row_of. destruct (List.find _ _) as [[j x]|] eqn:E; [|done]. intros [= ->].
  apply List.find_some in E as [Hin He]. apply string_eqb_eq in He. exists j. split; [|done].
  by apply elem_of_map_to_list, list_elem_of_In.
Qed.

Lemma getByReference_rows reference d : rows (fst (getByReference reference d)) = rows d ∧ next_id (fst (getByReference reference d)) = next_id d.
Proof. unfold getByReference, statement. by destruct (trips d) as [|[] rest]. Qed.

(** A claim leaves the rows alone, or inserts a fresh one; only then it hands over. *)
Lemma send_claim_cases reference envelope now d :
  let x := send_claim TransactionFromXDR HashHex MaxTime c reference envelope now d in
  (rows (fst x) = rows d ∧ next_id (fst x) = next_id d ∧ ∃ y, snd x = inl y) ∨
  (∃ i, fresh_intent reference envelope now d i ∧ rows (fst x) = <[next_id d := mkRow i now None 0]> (rows d) ∧
     next_id (fst x) = next_id d + 1 ∧ ((∃ y, snd x = inl y) ∨ snd x = inr i)).
Proof.
  cbv zeta. unfold send_claim. destruct (IdentifyTransaction _ _ _ _ _) as [identity|] eqn:Ei; [|left; by eauto].
  destruct (time_is_zero (IdentityValidUntil identity)) eqn:Ez; [left; by eauto|]. cbv zeta.
  set (ref := if _ =s? _ then _ else _). unfold Claim. cbn [IdempotencyReference TransactionHash].
  destruct (ref =s? ""); [left; by eauto|]. unfold insertIntent, statement. cbn.
  assert ((if time_is_zero now then now else now) = now) as Hnow by (by destruct (time_is_zero now)). rewrite Hnow. clear Hnow.
  assert (∀ d', rows d' = rows d → next_id d' = next_id d →
    let x := match match getByReference ref d' with
             | (d, Err e) => (d, Err e)
             | (d, Ok existing) => if negb (TransactionHash existing =s? Hash identity) then (d, Err ErrReferenceReused) else (d, Ok (existing, false))
             end with
             | (d, Err e) => (d, inl (""%string, Some (ErrRecord e)))
             | (d, Ok (stored, false)) => (d, inl (TransactionHash stored, existingSubmissionResult stored))
             | (d, Ok (stored, true)) => (d, inr stored)
             end in rows (fst x) = rows d ∧ next_id (fst x) = next_id d ∧ ∃ y, snd x = inl y) as Hleft.
  { intros d' E1 E2. cbv zeta. pose proof (getByReference_rows ref d') as [F1 F2].
    destruct (getByReference ref d') as [d2 [a|e]]; cbn in F1, F2; [destruct (negb _)|]; cbn; split_and!; eauto; congruence. }
  destruct (trips d) as [|[] rest] eqn:Et; cbn [fst snd].
  - destruct (row_of ref d) eqn:Er; [left; by apply Hleft|]. right. eexists. split; [by exists identity|]. cbn. eauto.
  - change (row_of ref (mkDB (rows d) (next_id d) rest)) with (row_of ref d).
    destruct (row_of ref d) eqn:Er; [left; by apply Hleft|]. right. eexists. split; [by exists identity|]. cbn. eauto.
  - left. cbn. eauto.
  - change (row_of ref (mkDB (rows d) (next_id d) rest)) with (row_of ref d).
    destruct (row_of ref d) eqn:Er; cbn; [left; by eauto|]. right. eexists. split; [by exists identity|]. cbn. eauto.
Qed.

Lemma fresh_fields reference envelope now d i :
  fresh_intent reference envelope now d i → representable envelope →
  IntentID i = next_id d ∧ State i = SubmissionPending ∧ SubmittedAt i = None ∧ CreatedAt i = now ∧
  ValidUntil i = deadline (TransactionHash i) ∧
  (∀ k r, rows d !! k = Some r → IdempotencyReference (intent r) ≠ IdempotencyReference i).
Proof.
  intros (identity & Hid & Hz & Hrow & ->) Hrep. cbn. split_and!; try done.
  - unfold IdentifyTransaction in Hid. destruct (TransactionFromXDR envelope) as [[tx|]|] eqn:Ex; [|done|done].
    destruct (HashHex tx _) as [h|] eqn:Eh; [|done]. injection Hid as <-. cbn in *.
    destruct (MaxTime tx) as [m|] eqn:Em; [|done]. destruct (0 <? m) eqn:E0; [|done]. destruct (m <=? max_i64) eqn:E1; [|done]. cbn.
    apply Z.ltb_lt in E0. specialize (Hrep _ _ Ex Em). rewrite (hash_deadline _ _ _ _ Ex Eh Em). unfold time_Unix.
    rewrite i64_id; [done|]. unfold in_i64, min_i64, max_i64, unix_seconds. lia.
  - intros k r Hr. by eapply row_of_none.
Qed.

Lemma ok_inserted reference envelope w i d :
  ok w → representable envelope → own_hash reference envelope w →
  fresh_intent reference envelope (clock w) (db w) i →
  rows d = <[next_id (db w) := mkRow i (clock w) None 0]> (rows (db w)) → next_id d = next_id (db w) + 1 → ok (with_db d w).
Proof.
  intros Hw Hrep Hown Hf Er En. destruct (fresh_fields _ _ _ _ _ Hf Hrep) as (Eid & Est & Esub & Ecr & Edl & Href).
  assert (∀ k r, rows (db w) !! k = Some r → k ≠ next_id (db w)) as Hfresh by (intros k r Hr ->; destruct (o_id _ Hw _ _ Hr); lia).
  assert (∀ k r, rows (db w) !! k = Some r → TransactionHash (intent r) ≠ TransactionHash i) as Hhash.
  { intros k r Hr He. apply (Href k r Hr). destruct Hf as (identity & Hid & _ & _ & ->). cbn in *.
    apply (Hown (Hash identity) k r); [by rewrite Hid|done|done]. }
  assert (∀ k r, rows (db w) !! k = Some r → rows d !! k = Some r) as Hkeep.
  { intros k r Hr. rewrite Er, lookup_insert_ne; [done|]. intros He. by apply (Hfresh k r). }
  destruct Hw. split; cbn; rewrite ?Er, ?En; try done.
  - intros k r. rewrite lookup_insert_Some. intros [[<- <-]|[Hne Hr]]; [cbn; lia|]. destruct (o_id0 k r Hr). lia.
  - intros k j r s. rewrite !lookup_insert_Some. intros [[<- <-]|[? Hr]] [[<- <-]|[? Hs]]; cbn; try done; [| |by eapply o_reference0].
    + intros He. by destruct (Href _ _ Hs).
    + intros He. by destruct (Href _ _ Hr).
  - intros k j r s. rewrite !lookup_insert_Some. intros [[<- <-]|[? Hr]] [[<- <-]|[? Hs]]; cbn; try done; [| |by eapply o_hash0].
    + intros He. by destruct (Hhash _ _ Hs).
    + intros He. by destruct (Hhash _ _ Hr).
  - intros k r. rewrite lookup_insert_Some. intros [[<- <-]|[? Hr]]; [done|by eapply o_deadline0].
  - intros k r. rewrite lookup_insert_Some. intros [[<- <-]|[? Hr]]; [cbn; lia|by eapply o_created0].
  - intros k r. rewrite lookup_insert_Some. intros [[<- <-]|[? Hr]]; [cbn; by rewrite Est|by eapply o_truth0].
  - intros s Hs. destruct (o_sent0 s Hs) as (k & r & Hr & ?). exists k, r. rewrite <- Er. auto.
  - intros n j e Hn. destruct (o_claimed0 n j e Hn) as [(r & Hr & ?) ?]. split; [|done]. exists r. rewrite <- Er. auto.
  - intros j Hj. destruct (o_work0 j Hj) as (r & Hr & ?). exists r. rewrite <- Er. auto.
  - intros j st o Hj. destruct (o_verdict0 j st o Hj) as (? & r & Hr & ?). split; [done|]. exists r. rewrite <- Er. auto.
Qed.

Lemma ok_claims n reference envelope w :
  ok w → calls w !! n = None → representable envelope → own_hash reference envelope w → ok (claims n reference envelope w).
Proof.
  intros Hw Hn Hrep Hown. unfold claims.
  pose proof (send_claim_cases reference envelope (clock w) (db w)) as Hc. cbv zeta in Hc.
  destruct (send_claim _ _ _ _ _ _ _ _) as [d x]. cbn in Hc. destruct Hc as [(Er & En & y & ->)|(i & Hf & Er & En & Hx)].
  - apply ok_same_rows; [done|by apply same_rows_eq|]. rewrite Er. apply (o_truth _ Hw).
  - pose proof (ok_inserted _ _ _ _ _ Hw Hrep Hown Hf Er En) as Hok. destruct Hx as [[y ->]| ->]; [done|].
    destruct (fresh_fields _ _ _ _ _ Hf Hrep) as (Eid & _ & _ & _ & _ & Href).
    assert (IdempotencyReference i ∉ map sent_reference (sent w)) as Hni.
    { intros (s & He & Hs)%list_elem_of_fmap. destruct (o_sent _ Hw s Hs) as (k & r & Hr & E & _). apply (Href k r Hr). congruence. }
    destruct Hok. split; cbn in *; try done.
    + intros m j e. rewrite lookup_insert_Some. intros [[<- [= <- <-]]|[? Hm]]; [|by eapply o_claimed0]. split; [|done].
      exists (mkRow i (clock w) None 0). rewrite Er, Eid, lookup_insert_eq. split; [done|apply later_refl].
    + assert (∀ m j e, calls w !! m = Some (Claimed j e) → IdempotencyReference j ≠ IdempotencyReference i) as Hdiff.
      { intros m j e Hm He. destruct (o_claimed _ Hw m j e Hm) as [(r & Hr & (_ & E & _)) _]. apply (Href _ r Hr). congruence. }
      intros m k j l e f. rewrite !lookup_insert_Some.
      intros [[<- [= <- <-]]|[? Hm]] [[<- [= <- <-]]|[? Hk]] He; [done| | |by eapply (o_one_call _ Hw)].
      * by destruct (Hdiff _ _ _ Hk).
      * by destruct (Hdiff _ _ _ Hm).
Qed.

(** ** The other steps *)

Lemma ok_calls w m :
  ok w → (∀ n x, m !! n = Some x → calls w !! n = Some x) → ok (with_calls m w).
Proof.
  intros [] Hm. split; cbn; try done.
  - intros n i e Hn. by eapply o_claimed0, Hm.
  - intros n k i j e f Hn Hk. by eapply o_one_call0; apply Hm.
Qed.

Lemma ok_hands_over n i envelope a w : ok w → calls w !! n = Some (Claimed i envelope) → ok (hands_over n i a w).
Proof.
  intros Hw Hn. destruct (o_claimed _ Hw n i envelope Hn) as [(r & Hr & Hl) Hni]. pose proof Hl as (E1 & E2 & E3 & E4 & E5 & _).
  assert (∀ m j e, <[n := Handed i a]> (calls w) !! m = Some (Claimed j e) → m ≠ n ∧ calls w !! m = Some (Claimed j e)) as Hcalls.
  { intros m j e. rewrite lookup_insert_Some. intros [[<- ?]|[? ?]]; done. }
  pose proof (o_one_call _ Hw) as Hone. pose proof (o_created _ Hw _ _ Hr) as Hcr. destruct Hw. split; cbn; try done.
  - intros s [->|Hs]%elem_of_cons; [|by apply o_sent0]. exists (IntentID i), r. cbn. split_and!; [done|done|done|congruence].
  - constructor; done.
  - intros m j e [Hne Hm]%Hcalls. destruct (o_claimed0 m j e Hm) as [Hx Hj]. split; [done|].
    apply not_elem_of_cons. split; [|done]. intros He. apply Hne. by eapply Hone.
  - intros m k j l e f [_ Hm]%Hcalls [_ Hk]%Hcalls. by eapply o_one_call0.
  - intros l h x Hl' Hx. destruct (o_included0 l h x Hl' Hx) as (? & s & ? & ?). split; [done|]. exists s. split; [by right|done].
Qed.

(** An answer from a window of the ledgers is the truth about an intent, up to what the
    window no longer shows. *)
Lemma honest_truth w i r k a status o :
  ok w → rows (db w) !! k = Some r → later i (intent r) → honest w (TransactionHash i) a →
  reconcile_ask i a = Some (status, o) → o ≠ OutcomeUnknown ∧ truth w (intent r) (outcome_state o).
Proof.
  intros Hw Hr (_ & _ & Eh & Ev & Ec & Es & _) Ha. unfold reconcile_ask. destruct a as [|m|st latest oldest]; [done|done|].
  cbn [LookupTransaction]. case_bool_decide as Hu; [done|]. intros [= <- <-]. split; [done|].
  destruct Ha as (new & kept & old & l1 & l2 & El & H1 & H2 & Hlat & Hold & Hs & Hf & Hn).
  assert (∀ l, l ∈ kept → l ∈ ledgers w) as Hk by (intros l Hl; rewrite El; set_solver).
  unfold DetermineOutcome in *. destruct (st =s? TxStatusSuccess) eqn:E1.
  { apply string_eqb_eq in E1. destruct (Hs E1) as (l & Hl & Hx). exists l. rewrite Eh. auto. }
  destruct (st =s? TxStatusFailed) eqn:E2.
  { apply string_eqb_eq in E2. destruct (Hf E2) as (l & Hl & Hx). exists l. rewrite Eh. auto. }
  destruct (st =s? TxStatusNotFound) eqn:E3; [|done]. apply string_eqb_eq in E3. specialize (Hn E3).
  unfold Valid, chainView in *. cbn [LatestLedgerCloseTime OldestLedgerCloseTime] in *.
  unfold time_is_zero in *. destruct (Z.eqb_spec (parseLedgerCloseTime latest) 0) as [|Z1]; [done|].
  destruct (Z.eqb_spec (parseLedgerCloseTime oldest) 0) as [|Z2]; [done|]. cbn [negb andb] in *.
  destruct (ValidUntil i =? 0); [done|]. destruct (time_after (parseLedgerCloseTime latest) (ValidUntil i)) eqn:Eafter; [|done].
  cbn [negb] in *. destruct (time_after (parseLedgerCloseTime oldest) (EarliestInclusion i)) eqn:Eold; [done|].
  destruct Hlat as [|Hlat]; [done|]. destruct Hold as [|Hold]; [done|]. unfold time_after in *.
  apply Z.ltb_lt in Eafter. apply Z.ltb_ge in Eold. rewrite Hlat in Eafter. rewrite Hold in Eold.
  rewrite <- Ev, (o_deadline _ Hw k r Hr) in Eafter. cbn [outcome_state truth]. unfold dead.
  (* every ledger is in front of the window, in it, or behind it *)
  pose proof (o_ledgers _ Hw) as Hsort. rewrite El in Hsort.
  assert (∀ l, l ∈ ledgers w → close l1 ≤ close l ∨ l ∈ kept ∨ close l < close l2) as Hwhere.
  { intros l. rewrite El, !elem_of_app. intros [Hl|[Hl|Hl]]; [left|by right; left|right; right].
    - destruct kept as [|k0 kept]; [done|]. injection H1 as ->. apply StronglySorted_app in Hsort as (Hcross & _ & _).
      specialize (Hcross l l1 Hl). unfold newer in Hcross. assert (close l1 < close l) by (apply Hcross; set_solver). lia.
    - apply StronglySorted_app in Hsort as (_ & _ & Hsort). apply StronglySorted_app in Hsort as (Hcross & _ & _).
      apply last_Some in H2 as (kept' & ->). apply (Hcross l2 l); set_solver. }
  split.
  - destruct (ledgers w) as [|l0 ls] eqn:Els; [destruct new, kept; done|]. exists l0. split; [done|].
    assert (close l1 ≤ close l0); [|lia]. destruct new as [|x new]; cbn in El.
    + destruct kept as [|k0 kept]; [done|]. injection H1 as ->. injection El as -> _. lia.
    + injection El as -> _. destruct kept as [|k0 kept]; [done|]. injection H1 as ->. cbn in Hsort.
      apply StronglySorted_inv in Hsort as [_ Hall]. rewrite Forall_forall in Hall. specialize (Hall l1). unfold newer in Hall.
      assert (close l1 < close x) by (apply Hall; set_solver). lia.
  - intros l Hl. destruct (included l !! TransactionHash (intent r)) as [x|] eqn:Ex; [right|by left].
    destruct (o_included _ Hw l _ x Hl Ex) as (Hd & s & Hs' & Hh & Ht). destruct (Hwhere l Hl) as [Hge|[Hin|Hlt]].
    + lia.
    + rewrite Eh, (Hn l Hin) in Ex. done.
    + destruct (o_sent _ Hw s Hs') as (k' & r' & Hr' & _ & Hhash & Hcr).
      assert (k' = k) as -> by (eapply (o_hash _ Hw); [done|done|congruence]). assert (r' = r) as -> by congruence.
      unfold EarliestInclusion in Eold. destruct (SubmittedAt i) as [t|] eqn:Esub; [|lia].
      exists t. split; [by apply Es|lia].
Qed.

Lemma ok_asks i a w : ok w → i ∈ work w → honest w (TransactionHash i) a → ok (asks i a w).
Proof.
  intros Hw Hi Ha. unfold asks. destruct (reconcile_ask i a) as [[status o]|] eqn:E; [|done].
  destruct (o_work _ Hw i Hi) as (r & Hr & Hl). destruct (honest_truth _ _ _ _ _ _ _ Hw Hr Hl Ha E) as [Ho Ht].
  destruct Hw. split; cbn; try done. intros j st o' [[= -> -> ->]|Hj]%elem_of_cons; [|by eapply o_verdict0].
  split; [done|]. by exists r.
Qed.

Lemma ok_closes l w : ok w → closable l w → ok (closes l w).
Proof.
  intros Hw Hc. pose proof (λ i s, truth_closes w l i s Hw Hc) as Ht. pose proof Hc as [Hn Hin]. destruct Hw. split; cbn; try done.
  - intros k r Hr. apply Ht. by eapply o_truth0.
  - constructor; [done|]. destruct (ledgers w) as [|l0 ls]; [constructor|]. apply StronglySorted_inv in o_ledgers0 as [_ Hall].
    specialize (Hn l0 eq_refl). constructor; [done|]. eapply Forall_impl; [exact Hall|]. unfold newer. intros x Hx. cbn in Hx. lia.
  - intros l' h r [->|Hl']%elem_of_cons Hr; [|by eapply o_included0]. destruct (Hin h r Hr) as (? & ? & _). done.
  - intros l1 l2 h [->|H1]%elem_of_cons [->|H2]%elem_of_cons [x Hx] [y Hy]; [done| | |by eapply o_unique0].
    + destruct (Hin h x Hx) as (_ & _ & Hnone). by rewrite Hnone in Hy.
    + destruct (Hin h y Hy) as (_ & _ & Hnone). by rewrite Hnone in Hx.
  - intros i st o Hi. destruct (o_verdict0 i st o Hi) as (? & r & ? & ? & ?). split; [done|]. exists r. split_and!; [done|done|by apply Ht].
Qed.

Lemma ok_passes d w : ok w → ok (passes d w).
Proof. intros []. split; cbn; try done. intros k r Hr. specialize (o_created0 k r Hr). lia. Qed.

Lemma ok_step w w' : step w w' → ok w → ok w'.
Proof.
  intros Hs Hw. destruct Hs as [n ref e w Hn Hr Ho|n i e a w Hn|n i a w Hn|n w|b limit locked w|i a w Hi Ha|i st o w Hv|l w Hc|d w|tr w].
  - by apply ok_claims.
  - by eapply ok_hands_over.
  - apply ok_calls; [by apply (ok_mark w)|]. intros m x. cbn. rewrite lookup_delete_Some. by intros [_ ?].
  - apply ok_calls; [done|]. intros m x. rewrite lookup_delete_Some. by intros [_ ?].
  - by apply ok_sweeps.
  - by apply ok_asks.
  - by apply ok_resolve.
  - by apply ok_closes.
  - by apply ok_passes.
  - apply ok_same_rows; [done|by apply same_rows_eq|]. apply (o_truth _ Hw).
Qed.

Lemma ok_initial w : initial w → ok w.
Proof.
  intros (E1 & E2 & E3 & E4 & E5 & E6). split; rewrite ?E1, ?E2, ?E3, ?E4, ?E5, ?E6; try (intros *; rewrite ?lookup_empty; done).
  - intros s Hs. by apply elem_of_nil in Hs.
  - constructor.
  - constructor.
  - intros l h r Hl. by apply elem_of_nil in Hl.
  - intros l l' h Hl. by apply elem_of_nil in Hl.
  - intros i Hi. by apply elem_of_nil in Hi.
  - intros i st o Hi. by apply elem_of_nil in Hi.
Qed.

Lemma ok_steps w w' : rtc step w w' → ok w → ok w'.
Proof. induction 1; eauto using ok_step. Qed.

(** ** What the records promise *)

(** Statements keep settled rows settled. *)
Lemma step_rows w w' k r :
  step w w' → ok w → rows (db w) !! k = Some r → ∃ r', rows (db w') !! k = Some r' ∧ later (intent r) (intent r').
Proof.
  intros Hs Hw Hr. destruct (o_id _ Hw k r Hr) as [_ Hk].
  assert (∃ r', rows (db w) !! k = Some r' ∧ later (intent r) (intent r')) as Hrefl by (exists r; split; [done|apply later_refl]).
  assert (∀ id g, (∀ x x', g x = Some x' → later (intent x) (intent x')) →
    ∃ r', rows (fst (update id g (db w))) !! k = Some r' ∧ later (intent r) (intent r')) as Hup.
  { intros id g Hg. destruct (update_cases id g (db w)) as [_ [->|(x & x' & Hx & Hgx & ->)]]; [done|].
    destruct (decide (k = id)) as [->|Hne]; [|by rewrite lookup_insert_ne].
    rewrite lookup_insert_eq. exists x'. split; [done|]. assert (x = r) as -> by congruence. by apply Hg. }
  destruct Hs as [n ref e w Hn _ _|n i e a w Hn|n i a w Hn|n w|b limit locked w|i a w Hi Ha|i st o w Hv|l w Hc|d w|tr w]; try done.
  - unfold claims. pose proof (send_claim_cases ref e (clock w) (db w)) as Hc. cbv zeta in Hc.
    destruct (send_claim _ _ _ _ _ _ _ _) as [d x]. cbn in Hc. destruct Hc as [(Er & _ & y & ->)|(i & _ & Er & _ & Hx)]; [cbn; by rewrite Er|].
    exists r. split; [|apply later_refl]. destruct Hx as [[y ->]| ->]; cbn; rewrite Er, lookup_insert_ne by lia; done.
  - cbn. apply Hup. intros x x' [= <-]. apply mark_later.
  - unfold sweeps. destruct (sweep_cases b limit (clock w) locked (db w)) as ((_ & Hf & _) & _ & _).
    destruct (ClaimPendingForReconcile _ _ _ _ _) as [d [l|e]]; cbn in *; by apply Hf.
  - unfold asks. by destruct (reconcile_ask i a) as [[st o]|].
  - unfold reconcile_settle, Resolve. cbn. case_bool_decide; [done|]. apply Hup. intros x x'. case_bool_decide; [|done].
    intros [= <-]. by apply settle_later.
Qed.

Lemma steps_rows w w' k r :
  rtc step w w' → ok w → rows (db w) !! k = Some r → ∃ r', rows (db w') !! k = Some r' ∧ later (intent r) (intent r').
Proof.
  intros Hs. revert r. induction Hs as [w|w w1 w2 H1 _ IH]; intros r Hw Hr; [exists r; split; [done|apply later_refl]|].
  destruct (step_rows _ _ _ _ H1 Hw Hr) as (r1 & Hr1 & L1). destruct (IH r1 (ok_step _ _ H1 Hw) Hr1) as (r2 & Hr2 & L2).
  exists r2. split; [done|]. by eapply later_trans.
Qed.

Lemma one_result w h b b' : ok w → on_chain w h b → on_chain w h b' → b = b'.
Proof.
  intros Hw (l & Hl & H1) (l' & Hl' & H2). assert (l = l') as -> by (eapply (o_unique _ Hw); [done|done|by eexists|by eexists]). congruence.
Qed.

(** The whole of [send] is these steps, with time passing before the hand-over is recorded. *)
Lemma send_follows_steps n reference envelope a d w :
  has_store c = true →
  let w1 := claims n reference envelope w in
  match send TransactionFromXDR HashHex MaxTime c reference envelope (clock w) a (clock w + Z.max 0 d) (db w) with
  | (d', _, None) => w1 = with_db d' w
  | (d', answer, Some handed) => handed = envelope ∧ ∃ i, calls w1 !! n = Some (Claimed i envelope) ∧
      db (finishes n i a (passes d (hands_over n i a w1))) = d' ∧
      answer = match submitEnvelope a with Ok hash => (hash, None) | Err _ => (TransactionHash i, Some ErrSubmissionUnresolved) end
  end.
Proof.
  intros Hs. cbv zeta. unfold send, claims. rewrite Hs. cbn [negb].
  destruct (send_claim _ _ _ _ _ _ _ _) as [d' [answer|i]]; [done|]. cbn. split; [done|]. exists i.
  rewrite lookup_insert_eq. split_and!; [done|done|]. by destruct (submitEnvelope a).
Qed.

(** C12: under any interleaving of submissions, stops, sweeps and lost answers of the
    database, a transaction is handed to the network only after it was recorded, at
    most once for each reference, and every transaction on the chain has its record. *)
Theorem submissions_are_recorded_first w0 w :
  initial w0 → rtc step w0 w →
  (∀ s, s ∈ sent w → ∃ k r, rows (db w) !! k = Some r ∧ IdempotencyReference (intent r) = sent_reference s ∧
     TransactionHash (intent r) = sent_hash s ∧ CreatedAt (intent r) ≤ sent_at s) ∧
  NoDup (map sent_reference (sent w)) ∧ NoDup (map sent_hash (sent w)) ∧
  ∀ h b, on_chain w h b → ∃ k r, rows (db w) !! k = Some r ∧ TransactionHash (intent r) = h.
Proof.
  intros H0 Hs. pose proof (ok_steps _ _ Hs (ok_initial _ H0)) as Hw. split_and!; [apply (o_sent _ Hw)|apply (o_once _ Hw)| |].
  - pose proof (o_once _ Hw) as Hnd. pose proof (o_sent _ Hw) as Hsent. induction (sent w) as [|s l IH]; [constructor|].
    cbn in *. apply NoDup_cons in Hnd as [Hn Hnd]. constructor; [|apply IH; [done|intros s' Hs'; apply Hsent; by right]].
    intros (s' & He & Hs')%list_elem_of_fmap. apply Hn. destruct (Hsent s) as (k & r & Hr & E1 & E2 & _); [by left|].
    destruct (Hsent s') as (k' & r' & Hr' & E1' & E2' & _); [by right|].
    assert (k = k') as -> by (eapply (o_hash _ Hw); [done|done|congruence]). assert (r = r') as -> by congruence.
    apply list_elem_of_fmap. exists s'. split; [congruence|done].
  - intros h b (l & Hl & Hb). destruct (o_included _ Hw l h b Hl Hb) as (_ & s & Hs' & Hh & _).
    destruct (o_sent _ Hw s Hs') as (k & r & Hr & _ & Hh' & _). exists k, r. split; [done|congruence].
Qed.

(** C13: a settled submission stays as it is, and the chain never contradicts it: landed
    and rejected transactions are on the chain with that result and no other, and an
    expired one is not and will not be, unless it was included before its hand-over was
    recorded, in a ledger the RPC had forgotten. *)
Theorem settled_submissions_tell_the_truth w0 w w' k r :
  initial w0 → rtc step w0 w → rows (db w) !! k = Some r → State (intent r) ≠ SubmissionPending → rtc step w w' →
  ∃ r', rows (db w') !! k = Some r' ∧ State (intent r') = State (intent r) ∧
    let h := TransactionHash (intent r) in
    match State (intent r) with
    | SubmissionLanded => on_chain w' h true ∧ ¬ on_chain w' h false
    | SubmissionRejected => on_chain w' h false ∧ ¬ on_chain w' h true
    | SubmissionExpired => ∀ l, l ∈ ledgers w' → included l !! h = None ∨ ∃ t, SubmittedAt (intent r') = Some t ∧ close l < t
    | _ => True
    end.
Proof.
  intros H0 Hs Hr Hp Hs'. pose proof (ok_steps _ _ Hs (ok_initial _ H0)) as Hw. pose proof (ok_steps _ _ Hs' Hw) as Hw'.
  destruct (steps_rows _ _ _ _ Hs' Hw Hr) as (r' & Hr' & Hl). pose proof Hl as (_ & _ & Eh & _ & _ & _ & Est).
  specialize (Est Hp). exists r'. split; [done|]. split; [done|]. pose proof (o_truth _ Hw' k r' Hr') as Ht. rewrite Est in Ht.
  cbv zeta. rewrite <- Eh. destruct (State (intent r)); cbn in *; try done.
  - split; [done|]. intros H. by pose proof (one_result _ _ _ _ Hw' Ht H).
  - split; [done|]. intros H. by pose proof (one_result _ _ _ _ Hw' Ht H).
  - apply Ht.
Qed.

(** ** Sweeps settle *)

(** An answer that decides an intent. *)
Definition decides (i : SubmissionIntent) (a : LookupAnswer) : Prop :=
  ∃ status view, LookupTransaction a = Some (status, view) ∧
    (status = TxStatusSuccess ∨ status = TxStatusFailed ∨
     (status = TxStatusNotFound ∧ Valid view ∧ ValidUntil i ≠ 0 ∧ ValidUntil i < LatestLedgerCloseTime view)).

Lemma decides_ask i a : decides i a → ∃ status o, reconcile_ask i a = Some (status, o) ∧ o ≠ OutcomeUnknown.
Proof.
  intros (status & view & E & H). unfold reconcile_ask. rewrite E.
  assert (DetermineOutcome status view i ≠ OutcomeUnknown) as Ho.
  { unfold DetermineOutcome. destruct H as [->|[->|(-> & Hv & Hz & Hlt)]]; [done|done|].
    assert ((TxStatusNotFound =s? TxStatusSuccess) = false) as -> by done.
    assert ((TxStatusNotFound =s? TxStatusFailed) = false) as -> by done.
    assert ((TxStatusNotFound =s? TxStatusNotFound) = true) as -> by done.
    destruct (Valid view); [|done]. cbn [negb]. unfold time_is_zero, time_after.
    destruct (Z.eqb_spec (ValidUntil i) 0); [done|]. destruct (Z.ltb_spec (ValidUntil i) (LatestLedgerCloseTime view)); [|lia].
    cbn. by destruct (_ <? _). }
  rewrite bool_decide_eq_false_2 by done. by eexists _, _.
Qed.

Definition settled (d : DB) (k : Z) : Prop := ∃ r, rows d !! k = Some r ∧ Terminal (State (intent r)).

Lemma reconcile_settles i a now d k :
  trips d = [] → is_Some (rows d !! k) →
  let d' := reconcile i a now d in
  trips d' = [] ∧ is_Some (rows d' !! k) ∧ (settled d k → settled d' k) ∧ (IntentID i = k → decides i a → settled d' k).
Proof.
  intros Ht [x Hx]. cbv zeta. unfold reconcile. destruct (reconcile_ask i a) as [[status o]|] eqn:E.
  2: { split_and!; [done|by eexists|done|]. intros _ Hd. destruct (decides_ask i a Hd) as (? & ? & ? & _). congruence. }
  unfold reconcile_settle, Resolve. case_bool_decide as Hp.
  { cbn. split_and!; [done|by eexists|done|]. intros _ Hd. destruct (decides_ask i a Hd) as (? & o' & Ho & Hn).
    assert (o' = o) as -> by congruence. by destruct o. }
  assert (Terminal (outcome_state o)) as Hterm by (by destruct o).
  unfold update, statement. rewrite Ht. destruct (rows d !! IntentID i) as [r|] eqn:Er.
  2: { cbn. split_and!; [done|by eexists|done|]. intros <- _. congruence. }
  case_bool_decide as Hpend; cbn.
  - split_and!; [done| | |].
    + destruct (decide (k = IntentID i)) as [->|Hne]; [rewrite lookup_insert_eq|rewrite lookup_insert_ne by done]; by eexists.
    + intros (y & Hy & Hty). destruct (decide (k = IntentID i)) as [->|Hne].
      * eexists. cbn. rewrite lookup_insert_eq. by split.
      * exists y. cbn. by rewrite lookup_insert_ne.
    + intros <- _. eexists. cbn. rewrite lookup_insert_eq. by split.
  - split_and!; [done|by eexists|done|]. intros <- _. exists r. split; [done|]. by destruct (State (intent r)).
Qed.

Lemma reconcile_all_keeps l env d k :
  trips d = [] → is_Some (rows d !! k) → settled d k → settled (reconcile_all l env d) k.
Proof.
  revert env d. induction l as [|i l IH]; intros [|[a now] env] d Ht Hx Hk; try done. cbn.
  destruct (reconcile_settles i a now d k Ht Hx) as (Ht' & Hx' & Hkeep & _). apply IH; auto.
Qed.

(** The answer at an intent's own place settles it, whatever the others say. *)
Lemma reconcile_all_settles l env d i j a t :
  trips d = [] → is_Some (rows d !! IntentID i) → l !! j = Some i → env !! j = Some (a, t) → decides i a →
  settled (reconcile_all l env d) (IntentID i).
Proof.
  revert env d j. induction l as [|i' l IH]; intros [|[a' now] env] d j Ht Hx Hl He Hd; try done; try (by destruct j).
  cbn. destruct (reconcile_settles i' a' now d (IntentID i) Ht Hx) as (Ht' & Hx' & Hkeep & Hset). destruct j as [|j]; cbn in *.
  - injection Hl as ->. injection He as -> ->. apply reconcile_all_keeps; auto.
  - by eapply IH.
Qed.

(** An element comes early in the sorted list when few are no later than it. *)
Lemma take_earliest {A} (R : relation A) `{!RelDecision R, !Transitive R, !Total R} (l : list A) x n :
  x ∈ l → (length (filter (λ y, R y x) l) ≤ n)%nat → x ∈ take n (merge_sort R l).
Proof.
  intros Hx Hn. pose proof (StronglySorted_merge_sort R l) as Hs. pose proof (merge_sort_Permutation R l) as Hp.
  rewrite <- Hp in Hx, Hn. apply list_elem_of_split in Hx as (l1 & l2 & E). rewrite E in Hs, Hn |- *.
  apply StronglySorted_app in Hs as (Hle & _ & _).
  assert (R x x) as Hrefl by (by destruct (total R x x)).
  rewrite filter_app, filter_cons_True, length_app in Hn by done. cbn in Hn.
  rewrite (filter_all (λ y, R y x) l1) in Hn by (intros y Hy; apply Hle; [done|by left]).
  rewrite take_app_ge by lia. apply elem_of_app. right. destruct (n - length l1)%nat as [|m] eqn:Em; [lia|]. by left.
Qed.

#[global] Instance earlier_trans : Transitive earlier.
Proof. intros x y z. unfold earlier. lia. Qed.

#[global] Instance earlier_total : Total earlier.
Proof. intros x y. unfold earlier. lia. Qed.

(** The size of a sweep's batch. *)
Definition batch_limit (r : SubmissionReconciler) : Z := if batch r <=? 0 then DefaultReconcileBatch else batch r.

(** C40: a sweep of the leader, with every statement carried out, settles each due
    submission that it reaches and that its answer decides: no more due rows than a batch
    holds are scheduled as early as it, and the context lives until its own question is
    answered by a verdict, or by its absence with a view past its time bound, whatever
    the chain answers for the others. *)
Theorem answered_sweeps_settle r now locked env d k row :
  isLeader r = true → trips d = [] →
  (∀ j x, rows d !! j = Some x → IntentID (intent x) = j) →
  rows d !! k = Some row → due now locked (k, row) = true →
  Z.of_nat (length (filter (λ x, earlier x (k, row)) (List.filter (due now locked) (map_to_list (rows d))))) ≤ batch_limit r →
  (∀ l j, l !! j = Some (intent row) → ∃ a t, env l !! j = Some (a, t) ∧ decides (intent row) a) →
  ∃ row', rows (Tick r now locked env d) !! k = Some row' ∧ Terminal (State (intent row')).
Proof.
  intros Hl Ht Hid Hk Hdue Hlen Henv. unfold Tick. rewrite Hl. cbn [negb]. unfold ClaimPendingForReconcile, statement. rewrite Ht.
  change (if batch r <=? 0 then DefaultReconcileBatch else batch r) with (batch_limit r). cbn [fst snd].
  set (claimed := take _ _). assert ((k, row) ∈ claimed) as Hin.
  { apply (take_earliest earlier); [|apply Z2Nat.inj_le in Hlen; [rewrite Nat2Z.id in Hlen; exact Hlen|lia..]].
    apply list_elem_of_In, filter_In. split; [|done].
    by apply list_elem_of_In, elem_of_map_to_list. }
  apply list_elem_of_lookup in Hin as [j Hj].
  assert (map (λ x, intent (snd x)) claimed !! j = Some (intent row)) as Hq by (by rewrite list_lookup_fmap, Hj).
  destruct (Henv _ _ Hq) as (a & t & Ha & Hd). rewrite <- (Hid k row Hk).
  eapply reconcile_all_settles; [done| |exact Hq|exact Ha|exact Hd].
  cbn. rewrite map_lookup_imap, (Hid k row Hk), Hk. by eexists.
Qed.

End life.
(** ** A history *)

(** The envelope ["A"] holds the transaction of hash ["A"], valid for 300 seconds. *)
Definition demo_invoker : Invoker := mkInvoker "net" "op" true.
Definition demo_xdr (b : string) : option (option string) := Some (Some b).
Definition demo_hash (tx _ : string) : option string := Some tx.
Definition demo_bound (_ : string) : option Z := Some 300.
Definition demo_instant (seconds : Z) : Time := (seconds + unix_seconds) * Second.
Definition demo_deadline (_ : string) : Time := demo_instant 300.
Definition demo_world : World := mkWorld (mkDB ∅ 1 []) (demo_instant 0) ∅ [] [] [] [].
Definition demo_ledger (seconds : Z) (txs : gmap string bool) : Ledger := mkLedger (demo_instant seconds) txs.

Definition demo_claims (w : World) : World := claims demo_xdr demo_hash demo_bound demo_invoker 1 "" "A" w.
Definition demo_intent (w : World) : SubmissionIntent :=
  match calls w !! 1 with Some (Claimed i _) | Some (Handed i _) => i | None => mkIntent 0 "" "" 0 "" "" SubmissionPending 0 0 None None "" end.
Definition demo_row (w : World) : Row :=
  match rows (db w) !! 1 with Some r => r | None => mkRow (demo_intent w) 0 None 0 end.
Definition demo_hands_over (a : SendAnswer) (w : World) : World := hands_over 1 (demo_intent w) a w.
Definition demo_finishes (a : SendAnswer) (w : World) : World := finishes 1 (demo_intent w) a w.
Definition demo_sweeps (w : World) : World := sweeps DefaultReconcileBackoff 50 ∅ w.
Definition demo_asks (a : LookupAnswer) (w : World) : World :=
  match work w with i :: _ => asks i a w | [] => w end.
Definition demo_settles (w : World) : World :=
  match verdicts w with (i, status, o) :: _ => with_db (reconcile_settle i status o (clock w) (db w)) w | [] => w end.

Definition demo_step : World → World → Prop := step demo_xdr demo_hash demo_bound demo_invoker demo_deadline.

Lemma demo_hash_deadline b tx h m : demo_xdr b = Some (Some tx) → demo_hash tx (networkPassphrase demo_invoker) = Some h →
  demo_bound tx = Some m → demo_deadline h = (m + unix_seconds) * Second.
Proof. by intros _ _ [= <-]. Qed.

Lemma demo_claims_step w : rows (db w) = ∅ → calls w !! 1 = None → demo_step w (demo_claims w).
Proof.
  intros Hr Hc. apply Claims; [done| |].
  - intros tx m _ [= <-]. lia.
  - intros h k r _ Hk. rewrite Hr in Hk. by apply lookup_empty_Some in Hk.
Qed.

Lemma demo_closes_step seconds w :
  (∀ l, head (ledgers w) = Some l → close l < demo_instant seconds) → demo_step w (closes (demo_ledger seconds ∅) w).
Proof. intros H. apply Closes. split; [apply H|]. intros h r Hr. cbn in Hr. by rewrite lookup_empty in Hr. Qed.

Lemma demo_closes_with_step seconds w h b s :
  ledgers w = [] → sent w = [s] → sent_hash s = h → sent_at s ≤ demo_instant seconds → seconds ≤ 300 →
  demo_step w (closes (demo_ledger seconds {[h := b]}) w).
Proof.
  intros Hl Hs Hh Hat Hsec. apply Closes. unfold closable. rewrite Hl, Hs. split; [done|].
  intros h' r Hr. cbn in Hr. apply lookup_singleton_Some in Hr as [<- _]. split_and!.
  - unfold demo_deadline, demo_instant. cbn [close demo_ledger]. apply Z.mul_le_mono_nonneg_r; [done|lia].
  - exists s. by split_and!; [apply list_elem_of_singleton| |].
  - intros l' []%elem_of_nil.
Qed.

Lemma demo_hands_over_step a w : calls w !! 1 = Some (Claimed (demo_intent w) "A") → demo_step w (demo_hands_over a w).
Proof. intros H. by eapply Hands_over. Qed.

Lemma demo_finishes_step a w : calls w !! 1 = Some (Handed (demo_intent w) a) → demo_step w (demo_finishes a w).
Proof. intros H. by eapply Finishes. Qed.

Lemma demo_asks_step h a w : TransactionHash <$> head (work w) = Some h → honest w h a → demo_step w (demo_asks a w).
Proof.
  unfold demo_asks. destruct (work w) as [|i l] eqn:E; [done|]. cbn. intros [= <-] H. apply Asks; [rewrite E; by left|done].
Qed.

Lemma demo_settles_step w : verdicts w ≠ [] → demo_step w (demo_settles w).
Proof. intros H. unfold demo_settles. destruct (verdicts w) as [|[[i status] o] l] eqn:E; [done|]. apply Settles. rewrite E. by left. Qed.

(** The response comes back, and the reconciler hears that the transaction succeeded. *)
Definition demo_claimed : World := demo_claims demo_world.
Definition demo_handed : World := demo_hands_over (SendResult "PENDING" "A") demo_claimed.
Definition demo_sent : World := demo_finishes (SendResult "PENDING" "A") demo_handed.
Definition demo_closed : World := closes (demo_ledger 5 {["A" := true]}) demo_sent.
Definition demo_swept : World := demo_sweeps demo_closed.
Definition demo_asked : World := demo_asks (LookupResult "SUCCESS" "5" "5") demo_swept.
Definition demo_landed : World := demo_settles demo_asked.

Lemma demo_landed_steps : rtc demo_step demo_world demo_landed.
Proof.
  apply (rtc_r _ demo_asked). 2: { apply demo_settles_step. vm_compute. discriminate. }
  apply (rtc_r _ demo_swept).
  2: { apply (demo_asks_step "A"); [vm_compute; reflexivity|].
       exists [], [demo_ledger 5 {["A" := true]}], [], (demo_ledger 5 {["A" := true]}), (demo_ledger 5 {["A" := true]}).
       split_and!; try done; [by right|by right|]. intros _. eexists. split; [by left|done]. }
  apply (rtc_r _ demo_closed); [|apply Sweeps].
  apply (rtc_r _ demo_sent). 2: { apply (demo_closes_with_step 5 demo_sent "A" true (mkSent "tx:A" "A" (demo_instant 0))); by vm_compute. }
  apply (rtc_r _ demo_handed). 2: { apply demo_finishes_step. by vm_compute. }
  apply (rtc_r _ demo_claimed). 2: { apply demo_hands_over_step. by vm_compute. }
  apply rtc_once. by apply demo_claims_step.
Qed.

(** The response is lost, and the hand-over is recorded when the call has timed out.
    The ledger that included the transaction is forgotten by an RPC whose history starts
    before that record: the answer is taken for proof. *)
Definition late_closed : World := closes (demo_ledger 5 {["A" := true]}) (demo_hands_over SendDown demo_claimed).
Definition late_marked : World := demo_finishes SendDown (passes (35 * Second) late_closed).
Definition late_forgotten : World := closes (demo_ledger 301 ∅) (passes (300 * Second) (closes (demo_ledger 30 ∅) late_marked)).
Definition late_swept : World := demo_sweeps late_forgotten.
Definition late_asked : World := demo_asks (LookupResult "NOT_FOUND" "301" "30") late_swept.
Definition late_expired : World := demo_settles late_asked.

Lemma late_expired_steps : rtc demo_step demo_world late_expired.
Proof.
  apply (rtc_r _ late_asked). 2: { apply demo_settles_step. vm_compute. discriminate. }
  apply (rtc_r _ late_swept).
  2: { apply (demo_asks_step "A"); [vm_compute; reflexivity|].
       exists [], [demo_ledger 301 ∅; demo_ledger 30 ∅], [demo_ledger 5 {["A" := true]}], (demo_ledger 301 ∅), (demo_ledger 30 ∅).
       split; [reflexivity|]. split; [done|]. split; [done|]. split; [by right|]. split; [by right|].
       split; [done|]. split; [done|]. intros _ l Hl. apply elem_of_cons in Hl as [->|Hl]; [done|]. by apply list_elem_of_singleton in Hl as ->. }
  apply (rtc_r _ late_forgotten); [|apply Sweeps].
  apply (rtc_r _ (passes (300 * Second) (closes (demo_ledger 30 ∅) late_marked))).
  2: { apply demo_closes_step. by intros l [= <-]. }
  apply (rtc_r _ (closes (demo_ledger 30 ∅) late_marked)); [|apply Passes].
  apply (rtc_r _ late_marked). 2: { apply demo_closes_step. by intros l [= <-]. }
  apply (rtc_r _ (passes (35 * Second) late_closed)). 2: { apply demo_finishes_step. by vm_compute. }
  apply (rtc_r _ late_closed); [|apply Passes].
  apply (rtc_r _ (demo_hands_over SendDown demo_claimed)).
  2: { apply (demo_closes_with_step 5 _ "A" true (mkSent "tx:A" "A" (demo_instant 0))); by vm_compute. }
  apply (rtc_r _ demo_claimed). 2: { apply demo_hands_over_step. by vm_compute. }
  apply rtc_once. by apply demo_claims_step.
Qed.

Lemma landed_submission_reads_expired :
  rtc demo_step demo_world late_expired ∧ on_chain late_expired "A" true ∧
  State ∘ intent <$> rows (db late_expired) !! 1 = Some SubmissionExpired.
Proof.
  split; [apply late_expired_steps|]. split; [|by vm_compute]. exists (demo_ledger 5 {["A" := true]}).
  split; [|done]. unfold late_expired, late_asked, late_swept. do 2 right. by left.
Qed.

(** A bound near the largest [int64] wraps in [time.Unix] and reads as long past. *)
Lemma huge_deadline_reads_as_past :
  ∃ v, IdentifyTransaction demo_xdr demo_hash (λ _, Some max_i64) "A" "net" = Some (mkIdentity "A" v) ∧ v < 0 ∧
  DetermineOutcome TxStatusNotFound (chainView "5" "1") (mkIntent 1 "r" "A" v "op" "" SubmissionPending 0 (demo_instant 2) None None "")
  = OutcomeProvenNotLanded.
Proof. eexists. split; [by vm_compute|]. by split; vm_compute. Qed.

(** ** Witnesses *)

Lemma demo_world_initial : initial demo_world.
Proof. by split_and!. Qed.

Lemma submissions_are_recorded_first_witness :
  NoDup (map sent_hash (sent demo_landed)) ∧ length (sent demo_landed) = 1%nat ∧
  ∃ k r, rows (db demo_landed) !! k = Some r ∧ TransactionHash (intent r) = "A".
Proof.
  destruct (submissions_are_recorded_first demo_xdr demo_hash demo_bound demo_invoker demo_deadline demo_hash_deadline
    demo_world demo_landed demo_world_initial demo_landed_steps) as (_ & _ & H & Hr).
  split; [exact H|]. split; [vm_compute; reflexivity|]. apply (Hr _ true). exists (demo_ledger 5 {["A" := true]}).
  split; [by left|reflexivity].
Defined.

Lemma settled_submissions_tell_the_truth_witness :
  State ∘ intent <$> rows (db demo_landed) !! 1 = Some SubmissionLanded ∧ on_chain demo_landed "A" true.
Proof.
  split; [vm_compute; reflexivity|].
  assert (rows (db demo_landed) !! 1 = Some (demo_row demo_landed)) as Hr by (vm_compute; reflexivity).
  assert (State (intent (demo_row demo_landed)) = SubmissionLanded) as Hs by (vm_compute; reflexivity).
  assert (TransactionHash (intent (demo_row demo_landed)) = "A"%string) as Hh by (vm_compute; reflexivity).
  destruct (settled_submissions_tell_the_truth demo_xdr demo_hash demo_bound demo_invoker demo_deadline demo_hash_deadline
    demo_world demo_landed demo_landed 1 _ demo_world_initial demo_landed_steps Hr ltac:(rewrite Hs; discriminate)
    (rtc_refl _ demo_landed)) as (r' & _ & _ & H).
  cbv zeta in H. rewrite Hs, Hh in H. exact (proj1 H).
Defined.

Lemma answered_sweeps_settle_witness :
  let r := mkReconciler 50 DefaultReconcileBackoff (Some true) in
  ∃ row', rows (Tick r (clock demo_closed) ∅ (map (λ i, (LookupResult "SUCCESS" "5" "5", clock demo_closed))) (db demo_closed)) !! 1
          = Some row' ∧ Terminal (State (intent row')).
Proof.
  cbv zeta. apply (answered_sweeps_settle (mkReconciler 50 DefaultReconcileBackoff (Some true)) _ _ _ _ 1 (demo_row demo_closed)).
  - reflexivity.
  - vm_compute. reflexivity.
  - intros j x Hx. assert (rows (db demo_closed) = {[1 := demo_row demo_closed]}) as E by (vm_compute; reflexivity).
    rewrite E in Hx. apply lookup_singleton_Some in Hx as [<- <-]. vm_compute. reflexivity.
  - vm_compute. reflexivity.
  - vm_compute. reflexivity.
  - vm_compute. discriminate.
  - intros l j Hj. exists (LookupResult "SUCCESS" "5" "5"), (clock demo_closed). split.
    + rewrite list_lookup_fmap, Hj. reflexivity.
    + exists TxStatusSuccess, (chainView "5" "5"). by split; [|left].
Defined.

End SubmissionLife.
